(* ===== verification/_CoqProject ===== *)
-Q . S2P
Prelude.v
Datetime.v
PyText.v
Base64.v
Tenant.v
TenantRules.v
Models.v
Mailbox.v
MailboxInv.v
MailboxSpec.v
MailboxThms.v
PgMailbox.v
PgMailboxInv.v
PgMailboxThms.v
Repository.v
RepositoryInv.v
RepositoryThms.v
Delivery.v
ChannelDispatcher.v
ChannelDispatcherThms.v
PgDelivery.v
PgDeliveryThms.v
OutboxDispatcher.v
Tools.v
ToolsThms.v
Runtime.v
RuntimeThms.v
Control.v
ControlThms.v
SessionReady.v
SessionReadyThms.v
SessionWorker.v
SessionWorkerThms.v
JsonText.v
Projection.v
ProjectionThms.v
MigrationGuard.v
MigrationGuardThms.v
Migration.v
MigrationThms.v
MigrationCheckpoints.v
MigrationSource.v
MigrationSourceThms.v
Emergency.v
EmergencyThms.v
Streams.v
WorkerConsumer.v
WorkerConsumerThms.v
ReadyOutbox.v
PgTools.v
PgToolsThms.v
AgentWorker.v
AgentWorkerThms.v
PgTurns.v
PgTurnsInv.v
PgSweeps.v
PgSweepsInv.v
PgTurnsThms.v
PgSweepsThms.v
PgBinding.v
PgBindingInv.v
PgBindingThms.v
