(* ===== verification/Prelude.v ===== *)
(** * tRPC-Agent-Service: a verified model of the service core

    The service (Python, [src/trpc_service]) runs conversational agents for many
    tenants.  A provider message enters through a channel adapter, is bound to a
    tenant and a session ([runtime.py]), accepted once into a durable mailbox of
    that session ([storage/mailbox.py], [storage/memory.py]) and announced on a
    Redis stream ([queue/session_ready.py]).  A worker, [SessionWorkerConsumer] of
    [queue/session_worker_consumer.py], receives the announcement, claims the session
    under a fenced lease, acknowledges the announcement and executes the turn;
    tools the agent calls pass governance, confirmation and an execution ledger
    ([tool/]).  Committing the turn writes events and replies atomically; an
    outbox dispatcher ([queue/dispatcher.py]) and a channel dispatcher
    ([channels/dispatcher.py]) deliver the replies to the providers through a
    ledger of attempts.  Administrators change tenants, bindings and
    configurations through the control plane ([tenant/control.py]).  A tenant moves
    from Redis to PostgreSQL through a migration ([storage/migration.py]): a guard
    leases the tenant to one process and bars other writers, a coordinator runs the
    phases, a source pages through the projections of [storage/redis_projection.py].
    While PostgreSQL is unavailable, accepted callbacks wait encrypted in a Redis stream
    ([queue/emergency.py]) from which a drainer replays them.

    ** How the code is modelled

    Operations are functions in a state monad with exceptions, [M] below: a raised
    exception keeps the mutations made before it, as in Python.  [datetime.now]
    and [uuid4] read streams that the environment ([Env]) fixes; [UniqueIds] is
    the one assumption on them, that identifiers do not repeat.  Timestamps are
    microseconds since the epoch, Python integers are [Z], dictionaries are
    [gmap]s, or insertion-ordered association lists ([odict]) where the code
    observes the order.  Methods that hold an [asyncio] lock run without
    interleaving; concurrency between calls is an arbitrary sequence of calls,
    and inside the session worker and the agent worker an explicit interleaving of
    their coroutines.  The calls of binding leases are sequences of steps ([async]) that
    the calls of other processes may interrupt.
    Every loop of the model is structural recursion over data or over a counter the
    code itself has, except the page loops of the migration coordinator, whose fuel
    is one page for every record a migration may have and one more ([page_fuel]),
    and the binary search of a cursor, whose fuel is the number of keys: theorems
    show that neither runs out.  The code retries a busy version 1 delivery without a
    bound; the model has one round of fuel per retry, and as many as the session is busy
    are enough.  Every operation is total.

    ** Files

    - [Prelude]: exceptions, the monad, its weakest-precondition rules and the
      preservation rules ([wp], [preserves]), dictionaries, record update.
    - [Datetime], [PyText], [Base64], [JsonText]: [datetime.isoformat] and its reader,
      [int], [str], [replace], [sorted] and UTF-8 as Python defines them, base64 both
      ways, and JSON arrays of strings.
    - [Tenant], [TenantRules], [Models]: the records of [tenant/models.py],
      [storage/models.py] and [channels/envelopes.py], with their validators.
    - [Mailbox]: [InMemorySessionMailboxStore], every method.  [MailboxInv] is its
      invariant, [MailboxSpec] the abstract first-in first-out queue it refines,
      [MailboxThms] the theorems.
    - [PgMailbox], [PgMailboxInv], [PgMailboxThms]: [PostgresSessionMailboxStore], its
      SQL as transactions over the tables of migration 0008.
    - [Repository], [RepositoryInv], [RepositoryThms]: [InMemoryRuntimeRepository],
      which embeds a mailbox store.
    - [Delivery]: the contract between repository and dispatchers, a class of
      operations with laws, and the proof that the repository satisfies it.
      [ChannelDispatcher], [ChannelDispatcherThms], [OutboxDispatcher] are proved
      against the class.  [PgDelivery], [PgDeliveryThms]: the outbox and delivery
      ledger of [PostgresRuntimeRepository], a second instance of the class.
    - [Tools], [ToolsThms]: confirmation tokens, governance and execution ledger.
    - [PgTools], [PgToolsThms]: the ledgers of [tool/postgres.py] as transactions over
      their tables, and [ToolExecutor] over them.
    - [Runtime], [RuntimeThms]: session identifiers, rollout, [TenantRuntime].
    - [Control], [ControlThms]: the transactions of the control plane.
    - [SessionReady], [SessionReadyThms]: the wake-up codec, queue and reclaimer.
    - [ReadyOutbox]: [SessionReadyOutboxQueue], from the outbox to that queue.
    - [SessionWorker], [SessionWorkerThms]: the worker's loops, tasks and permits.
    - [AgentWorker], [AgentWorkerThms]: [AgentWorker] of [agent/worker.py], proved
      against the class [TurnRepository]; the in-memory repository is an instance.
    - [PgSweeps], [PgSweepsInv], [PgSweepsThms]: the three recovery sweeps, functions of
      the database in migrations 0008 and 0011, over the tables of the repository.
    - [PgTurns], [PgTurnsInv], [PgTurnsThms]: acceptance, claims, turns, sessions and
      snapshots of [PostgresRuntimeRepository], over the mailbox of [PgMailbox] and the
      outbox of [PgDelivery]: a second instance of [TurnRepository].
    - [PgBinding], [PgBindingInv], [PgBindingThms]: [PostgresBindingLease], the owner of a
      WeCom connection, over sessions and advisory locks of the database; a logic for calls
      that others interrupt, and a fleet of processes.
    - [Streams], [WorkerConsumer], [WorkerConsumerThms]: the version 1 stream and its
      worker, [queue/redis_streams.py] and [queue/worker_consumer.py].
    - [Projection], [ProjectionThms]: [RedisProjectionStore] with its script.
    - [MigrationGuard], [MigrationGuardThms]: [PostgresMigrationGuard] and the fenced
      transaction of the target over the tables of migrations 0007 and 0013.
    - [Migration], [MigrationThms]: [MigrationCoordinator], proved against classes for
      source, target, checkpoint store and guard ([MigrationWorld], [MigrationLaws]).
    - [MigrationCheckpoints]: [PostgresMigrationCheckpointStore], a refinement of the
      in-memory store.
    - [MigrationSource], [MigrationSourceThms]: [RedisMigrationSource], its discovery, cursors,
      pages and canonical payloads.
    - [Emergency], [EmergencyThms]: the encrypted emergency stream and its drainer.

    ** What the theorems show

    - [MailboxThms] (C1): a session's messages are committed in order and exactly once
      (a refinement of [MailboxSpec]).  Further theorems: every reachable mailbox is well
      formed, stale leases are fenced, leases are exclusive
      until they expire, retries redeliver, a queued mailbox has one wake-up.
    - [PgMailboxThms] (C2): the PostgreSQL store replays a wake-up that was lost.  Besides,
      the calls of the store refine the same queue, superseded leases are fenced, the tables
      stay well formed, and an owned commit is never refused.
    - [PgTurnsThms] (C3-C9): along every run of the PostgreSQL repository, its sweeps
      included, what a session answers follows its acceptance log; a committed turn is final; superseded leases are
      fenced; a claimed turn can be committed; a commit is what the next snapshot reads; a
      provider message is accepted once; histories have no gaps and only events of
      committed turns.
    - [PgSweepsThms] (C10): recovery frees the mailboxes whose lease has expired, and leaves
      the sessions alone that are being executed.
    - [RepositoryThms] (C11): the repository's invariant.  Besides, a delivery that ended is
      never sent again; acceptance is idempotent; commits are fenced and atomic.
    - [ChannelDispatcherThms], [OutboxDispatcher] (C12, C14): provider calls are
      isolated by tenant, an unknown outcome is ambiguous.  Besides, delays are bounded,
      and a cycle loses nothing.
    - [PgDeliveryThms] (C13): the same of the PostgreSQL repository, which records
      a result only for the attempt being sent, except for replays by an administrator.
    - [ToolsThms] (C15-C16): one-time scoped confirmations along any calls, sound governance
      (an audit sink that fails leaves a charge behind).  Besides,
      tools that are not idempotent are called once.
    - [PgToolsThms] (C17-C20): the same of the PostgreSQL ledger, under concurrent
      workers; a call is fenced by the lease of its turn; a retry of a failed call that
      is idempotent is refused by the ledger; budgets are never exceeded.
    - [PgBindingThms] (C21-C23): a binding has one owner among any number of processes that
      interleave, lose sessions and die; its evidence is a legal history; a lost owner is
      replaced.
    - [RuntimeThms] (C24): tenant isolation of acceptance; session identifiers and
      rollout besides.
    - [ControlThms] (C25): idempotent writes.  Besides, no lost update and well-formed
      configuration revisions.
    - [SessionReadyThms], [ReadyOutbox] (C26-C27): delete only after ack; a wake-up
      reaches a worker as the mailbox wrote it, and nothing else of its record does.
    - [SessionWorkerThms] (C28-C29): bounded concurrency, whose permits are accounted for (a
      loop that is cancelled while it takes a permit can lose it), and the claim, acknowledge,
      execute protocol.
    - [AgentWorkerThms] (C30-C31): a claimed turn ends in one commit, release or lost
      lease, in any interleaving with its heartbeat; the worker commits under the newest
      lease it was given; every lease it uses has the fence of the one it was given.
    - [MigrationThms] (C32-C33): no cutover before everything was copied, along any
      sequence of runs; every run ends.
    - [MigrationGuardThms] (C34): superseded leases are fenced; besides, the preflight
      has no race.
    - [MigrationSourceThms] (C35-C37): paging through a source enumerates what it discovered
      once; cursors; canonical sessions.  Besides, discovery does not depend on the order of Redis,
      pipelined reads agree with single ones, and keys name their tenant.
    - [MigrationCheckpoints]: the checkpoint table refines the store in memory.
      [ProjectionThms]: projections only advance, and are read back.
    - [EmergencyThms] (C38-C39): the drainer removes only entries that the repository has, or
      lacks the configuration of, or that cannot be read, and accepts
      only authentic callbacks; entries survive a key rotation.
    - [WorkerConsumerThms] (C40): a version 1 delivery is acknowledged only when it
      is done and owned.  Besides, a busy one is retried until it is, the loop is bounded,
      a record is published once and only the owner of an entry refreshes it.

    ** Parameters

    Code that is not part of the repository is an argument with the documented
    behaviour it is used for: pydantic's envelope printer and parser
    ([EnvelopeDump], [EnvelopeCodec]), the provider clients ([Provider]), the
    message queue ([Queue]), the Redis server ([Redis], whose answers may depend
    on every earlier command), the signature, digest and hash primitives
    ([TokenCodec], [ArgumentsHash], [KeyedHash], [Mac], [Checksum]), the safety
    scanner ([Guard]), the sink of audit records ([AuditSink]), float multiplication and the rounding of a decimal column
    ([FloatMul], [Numeric]), trace context ([Tracing]), URL parsing
    ([UrlLibrary]), and the readings of [int], [UUID] and [fromisoformat] of text
    in scripts and formats the code does not write ([UnicodeInt], [UuidText],
    [IsoReader], [UnicodeDecimal], [JsonReader]), JSON and the conversions of its
    values ([Json], [PyConversions]), Lua's comparison of numerals ([Lua]), the
    record digests ([MigrationHash]), the Redis client of the source
    ([RedisMigrationClient]), the schedule of the heartbeat ([Schedule]), AES-GCM
    ([Aead]), the printer and parser of callbacks ([PreparedCodec]) and of version 1
    payloads ([QueueJson]), the commands of Lua scripts ([Scripts]), how the waits of
    a version 1 delivery end ([Deliveries]), the digest of a confirmation token
    ([TokenHash]), the date of a timestamp ([Calendar]), the turn identifier of a
    tool call ([TurnUuid]), SHA-256 ([Sha256]), the hash of a lock name ([AdvisoryHash]) and what asyncpg sends for a text where a
    statement has a [uuid] parameter ([PgUuid]).

    ** Not modelled

    The SQL of the migration target, which imports rows into the tables of the repository,
    and the production migration control; [list_bindings] and
    [get_config] of the PostgreSQL repository ([storage/postgres.py]); the envelope
    validators.
    The shutdown of the version 1 loop, its serial form and the timer of its heartbeat.
    The SDK agent, the services and the media preparation an agent worker calls are
    arguments of its model.  Channel adapters, artifact and vector services, the web layer
    and the command line are network input and output; logging, metrics, tracing and
    fault checkpoints do not change the state the theorems are about. *)

From stdpp Require Export base tactics option list gmap strings pretty.
From Stdlib Require Export ZArith Lia.

#[export] Set Default Goal Selector "!".

Declare Scope py_scope.
Delimit Scope py_scope with py.
#[global] Open Scope Z_scope.
#[global] Open Scope py_scope.

(** ** Exceptions and outcomes *)

(** The exception classes the modelled code raises or catches, with the message
    it passes. *)
Inductive exn : Type :=
  | ValueError (msg : string)
  | TypeError (msg : string)
  | LookupError (msg : string)
  | KeyError
  | RuntimeError (msg : string)
  | ValidationError (model : string)
  | FencingConflict (msg : string)
  | DeliveryInProgress (msg : string) (attempt_number : option Z)
  | ConfirmationError (msg : string)
  | HumanReviewRequired (msg : string)
  | AuthorizationError (msg : string)
  | UnknownBinding (msg : string)
  | BindingMismatch (msg : string)
  | IdempotencyConflict (msg : string)
  | ControlVersionConflict (msg : string)
  | IntegrityError (constraint : string)
  | MigrationManifestConflict (msg : string)
  | MigrationGuardError (msg : string)
  | MigrationLeaseLost (msg : string)
  | UnicodeDecodeError
  | OverflowError
  | ResponseError (msg : string)
  | AttributeError (msg : string)
  | IndeterminateDatatypeError (msg : string)
  | MigrationLeaseConflict (msg : string)
  | MigrationTargetNotEmpty (msg : string)
  | InvalidTag
  | BinasciiError (msg : string)
  | PostgresError (msg : string)
  | RedisError (msg : string)
  | ToolExecutionConflict (msg : string)
  | CancelledError
  (** Any other exception: the name of its class, and its [provider_code] if it has one. *)
  | OtherError (type_name : string) (provider_code : option string).

#[export] Instance exn_eq_dec : EqDecision exn.
Proof. solve_decision. Defined.

Inductive outcome (A : Type) : Type :=
  | Ok (a : A)
  | Raise (e : exn).
Arguments Ok {A} a.
Arguments Raise {A} e.

(** ** Effects of the environment

    [uuid4()] and [datetime.now(UTC)] are readings of the environment: the n-th
    call of each returns the n-th element of a stream the environment fixes. *)
Class Env : Type := {
  uuid_at : nat -> string;
  clock_at : nat -> Z;
}.

(** The documented behaviour of [uuid4] the code relies on: identifiers do not
    repeat. *)
Class UniqueIds (E : Env) : Prop := uuid_at_inj :: Inj (=) (=) uuid_at.

(** How many identifiers and clock readings have been drawn. *)
Record effects : Type := Effects { uuids : nat; ticks : nat }.

(** ** The monad: state passing with exceptions

    A raised exception keeps the mutations made before it, as in Python. *)
Definition M (S A : Type) : Type := S -> effects -> outcome A * S * effects.

Definition ret {S A} (a : A) : M S A := fun s e => (Ok a, s, e).

Definition raise {S A} (x : exn) : M S A := fun s e => (Raise x, s, e).

Definition bind {S A B} (m : M S A) (k : A -> M S B) : M S B := fun s e =>
  match m s e with
  | (Ok a, s', e') => k a s' e'
  | (Raise x, s', e') => (Raise x, s', e')
  end.

Definition gets {S A} (f : S -> A) : M S A := fun s e => (Ok (f s), s, e).

Definition modify {S} (f : S -> S) : M S unit := fun s e => (Ok tt, f s, e).

(** [try: m except BaseException as x: h x]. *)
Definition try_except {S A} (m : M S A) (h : exn -> M S A) : M S A := fun s e =>
  match m s e with
  | (Raise x, s', e') => h x s' e'
  | r => r
  end.

(** [try: m except Exception as x: h x]: a cancellation is not an [Exception]. *)
Definition except_Exception {S A} (m : M S A) (h : exn -> M S A) : M S A :=
  try_except m (fun x => match x with CancelledError => raise CancelledError | _ => h x end).

(** Run an operation of a sub-object through the field that holds it. *)
Definition zoom {S T A} (get : S -> T) (put : T -> S -> S) (m : M T A) : M S A :=
  fun s e => let '(r, t, e') := m (get s) e in (r, put t s, e').

Notation "'let*' x ':=' c 'in' k" := (bind c (fun x => k))
  (at level 10, x pattern, c at level 100, k at level 200) : py_scope.
Notation "c ;; k" := (bind c (fun _ => k))
  (at level 100, k at level 200, right associativity) : py_scope.

(** [if b: raise x]. *)
Definition raise_if {S} (b : bool) (x : exn) : M S unit :=
  if b then raise x else ret tt.

Definition uuid4 {S} `{Env} : M S string := fun s e =>
  (Ok (uuid_at (uuids e)), s, Effects (Datatypes.S (uuids e)) (ticks e)).

Definition datetime_now {S} `{Env} : M S Z := fun s e =>
  (Ok (clock_at (ticks e)), s, Effects (uuids e) (Datatypes.S (ticks e))).

(** ** Record update: [r <| field := v |>] *)

Class Settable (R : Type) : Type := eta_of : R -> R.
Class Setter {R E : Type} (getter : R -> E) : Type := set_field : E -> R -> R.
#[export] Hint Mode Settable + : typeclass_instances.

Ltac derive_setter R E getter :=
  let inst := constr:(_ : Settable R) in
  let eta := eval hnf in inst in
  lazymatch eval pattern getter in eta with
  | ?F getter => let f := eval cbv beta in (fun (v : E) => F (fun _ : R => v)) in exact f
  end.

#[export] Hint Extern 1 (@Setter ?R ?E ?getter) => derive_setter R E getter : typeclass_instances.

Notation "r <| f := v |>" := (set_field (getter := f) v r)
  (at level 1, f at level 0, v at level 200, left associativity) : py_scope.

(** ** Python values and truthiness *)

(** The dynamically typed values the code stores in [dict[str, Any]] payloads. *)
Inductive pyval : Type :=
  | PNone
  | PBool (b : bool)
  | PInt (z : Z)
  | PStr (s : string)
  | PTime (t : Z)
  | PList (l : list pyval)
  | PDict (l : list (string * pyval)).

(** [payload.get(name)]: a missing key reads as [None]. *)
Definition py_get (name : string) (payload : gmap string pyval) : pyval :=
  default PNone (payload !! name).

(** [value == z] for an [int] [z]: [bool] is a subclass of [int]. *)
Definition py_eq_int (v : pyval) (z : Z) : bool :=
  match v with
  | PInt x => x =? z
  | PBool b => (if b then 1 else 0) =? z
  | _ => false
  end.

(** [not s] for a string. *)
Definition str_empty (s : string) : bool := bool_decide (s = ""%string).

(** Python truthiness of a value. *)
Definition truthy (v : pyval) : bool :=
  match v with
  | PNone => false
  | PBool b => b
  | PInt z => negb (z =? 0)
  | PStr s => negb (str_empty s)
  | PTime _ => true
  | PList l => match l with [] => false | _ => true end
  | PDict l => match l with [] => false | _ => true end
  end.

(** [len(s)]. *)
Definition str_len (s : string) : Z := Z.of_nat (String.length s).

(** [o or d] for an optional string and for an optional integer. *)
Definition str_or (o : option string) (d : string) : string :=
  match o with
  | Some s => if str_empty s then d else s
  | None => d
  end.

Definition int_or (o : option Z) (d : Z) : Z :=
  match o with
  | Some z => if z =? 0 then d else z
  | None => d
  end.

(** [o is not None and o > t] and [o is not None and o <= t]. *)
Definition after (o : option Z) (t : Z) : bool :=
  match o with Some v => t <? v | None => false end.

Definition due (o : option Z) (t : Z) : bool :=
  match o with Some v => v <=? t | None => false end.

(** ** Insertion-ordered dictionaries

    Python's [dict] where the code observes the iteration order: assignment to a
    present key keeps its position, a new key goes last, [pop] removes. *)
Definition odict (K V : Type) : Type := list (K * V).

Section odict.
Context {K V : Type} `{EqDecision K}.
Implicit Types (k : K) (v : V) (d : odict K V).

Fixpoint dget k d : option V :=
  match d with
  | [] => None
  | (k', v) :: d' => if decide (k = k') then Some v else dget k d'
  end.

Fixpoint dset k v d : odict K V :=
  match d with
  | [] => [(k, v)]
  | (k', v') :: d' => if decide (k = k') then (k, v) :: d' else (k', v') :: dset k v d'
  end.

Fixpoint dpop k d : odict K V :=
  match d with
  | [] => []
  | (k', v') :: d' => if decide (k = k') then d' else (k', v') :: dpop k d'
  end.

Definition dkeys d : list K := map fst d.
Definition dvalues d : list V := map snd d.

(** [d.setdefault(k, v)]. *)
Definition dsetdefault k v d : odict K V :=
  match dget k d with Some _ => d | None => dset k v d end.

Lemma dget_dset k k' v d :
  dget k' (dset k v d) = if decide (k = k') then Some v else dget k' d.
Proof.
  induction d as [|[k0 v0] d IH]; simpl; repeat (case_decide; simpl in *; simplify_eq); auto.
Qed.

Lemma dget_dset_eq k v d : dget k (dset k v d) = Some v.
Proof. rewrite dget_dset. by case_decide. Qed.

Lemma dget_dset_ne k k' v d : k <> k' -> dget k' (dset k v d) = dget k' d.
Proof. intros. rewrite dget_dset. by case_decide. Qed.

Lemma dset_dset k v v' d : dset k v (dset k v' d) = dset k v d.
Proof.
  induction d as [|[k0 v0] d IH]; simpl; [by rewrite decide_True|].
  destruct (decide (k = k0)) as [->|Hne]; simpl; [by rewrite decide_True|].
  by rewrite decide_False, IH.
Qed.

Lemma dset_same k v d : dget k d = Some v -> dset k v d = d.
Proof.
  induction d as [|[k0 v0] d IH]; simpl; [done|]. case_decide; intros; simplify_eq; [done|].
  by rewrite IH.
Qed.

Lemma dget_Some_In k v d : dget k d = Some v -> (k, v) ∈ d.
Proof.
  induction d as [|[k0 v0] d IH]; simpl; [done|]. case_decide; intros; simplify_eq.
  - by left.
  - right. auto.
Qed.

Lemma dget_None_keys k d : dget k d = None <-> k ∉ dkeys d.
Proof.
  unfold dkeys. induction d as [|[k0 v0] d IH]; simpl.
  - split; [intros _; apply not_elem_of_nil|done].
  - rewrite not_elem_of_cons, <-IH. case_decide; naive_solver.
Qed.

Lemma dget_In_keys k d : k ∈ dkeys d -> exists v, dget k d = Some v.
Proof.
  intros Hin. destruct (dget k d) eqn:E; [eauto|]. by apply dget_None_keys in E.
Qed.

Lemma dget_In_keys_Some d k : k ∈ dkeys d -> is_Some (dget k d).
Proof. intros [v Hv]%dget_In_keys. eauto. Qed.

Lemma In_dget k v d : NoDup (dkeys d) -> (k, v) ∈ d -> dget k d = Some v.
Proof.
  unfold dkeys. induction d as [|[k0 v0] d IH]; simpl; [set_solver|].
  intros Hnd Hin. inversion Hnd as [|? ? Hni Hnd']; subst.
  apply elem_of_cons in Hin as [Heq|Hin].
  - simplify_eq. by case_decide.
  - case_decide; [|auto]. subst. exfalso. apply Hni.
    apply list_elem_of_fmap. by exists (k0, v).
Qed.

Lemma dkeys_dset_old k v d : k ∈ dkeys d -> dkeys (dset k v d) = dkeys d.
Proof.
  unfold dkeys. induction d as [|[k0 v0] d IH]; simpl; [by rewrite elem_of_nil|].
  rewrite elem_of_cons. case_decide; simpl; [by subst|].
  intros [?|?]; [done|]. by rewrite IH.
Qed.

Lemma dkeys_dset_new k v d : k ∉ dkeys d -> dkeys (dset k v d) = dkeys d ++ [k].
Proof.
  unfold dkeys. induction d as [|[k0 v0] d IH]; simpl; [done|].
  rewrite not_elem_of_cons. intros [? ?]. case_decide; simpl; [done|]. by rewrite IH.
Qed.

Lemma NoDup_dset k v d : NoDup (dkeys d) -> NoDup (dkeys (dset k v d)).
Proof.
  intros. destruct (decide (k ∈ dkeys d)).
  - by rewrite dkeys_dset_old.
  - rewrite dkeys_dset_new by done.
    apply NoDup_app. split_and!; [done|set_solver|apply NoDup_singleton].
Qed.

Lemma dkeys_dpop_incl k k' d : k' ∈ dkeys (dpop k d) -> k' ∈ dkeys d.
Proof.
  unfold dkeys. induction d as [|[k0 v0] d IH]; simpl; [done|]. case_decide; set_solver.
Qed.

Lemma NoDup_dpop k d : NoDup (dkeys d) -> NoDup (dkeys (dpop k d)).
Proof.
  induction d as [|[k0 v0] d IH]; simpl; [done|].
  inversion 1; subst. case_decide; simpl; [done|].
  constructor; [|by apply IH]. intros ?%dkeys_dpop_incl. done.
Qed.

Lemma dget_dpop_eq k d : NoDup (dkeys d) -> dget k (dpop k d) = None.
Proof.
  induction d as [|[k0 v0] d IH]; simpl; [done|].
  inversion 1; subst. case_decide; simpl; subst; [by apply dget_None_keys|].
  rewrite decide_False by done. auto.
Qed.

Lemma dget_dpop_ne k k' d : k <> k' -> dget k' (dpop k d) = dget k' d.
Proof.
  intros. induction d as [|[k0 v0] d IH]; simpl; [done|].
  repeat (case_decide; simplify_eq; simpl); auto.
Qed.

Lemma dget_dsetdefault k k' v d :
  dget k' (dsetdefault k v d) =
    if decide (k = k') then Some (default v (dget k d)) else dget k' d.
Proof.
  unfold dsetdefault. destruct (dget k d) eqn:E.
  - case_decide; subst; simpl; congruence.
  - apply dget_dset.
Qed.

Lemma NoDup_dsetdefault k v d : NoDup (dkeys d) -> NoDup (dkeys (dsetdefault k v d)).
Proof. unfold dsetdefault. case_match; [done|apply NoDup_dset]. Qed.
End odict.

(** ** Lists *)

Lemma filter_none {A} (f : A -> bool) l :
  (forall x, x ∈ l -> f x = false) -> List.filter f l = [].
Proof.
  induction l as [|x l IH]; simpl; [done|]. intros Hf. rewrite Hf by set_solver.
  apply IH. set_solver.
Qed.

(** A property of a range decided by evaluation. *)
Lemma range_forall (P : Z -> bool) n k :
  forallb P (Z.of_nat <$> seq 0 n) = true -> 0 <= k < Z.of_nat n -> P k = true.
Proof.
  intros Hall Hk. rewrite forallb_forall in Hall. apply Hall.
  apply list_elem_of_In, list_elem_of_fmap. exists (Z.to_nat k). split; [lia|]. apply elem_of_seq. lia.
Qed.

(** A test that identifies one value of a duplicate-free projection keeps
    exactly one element. *)
Lemma filter_one {A B} (f : A -> bool) (g : A -> B) (b : B) l :
  NoDup (map g l) -> (exists x, x ∈ l /\ g x = b) ->
  (forall x, x ∈ l -> f x = true <-> g x = b) -> length (List.filter f l) = 1%nat.
Proof.
  induction l as [|x l IH]; simpl; intros Hnd (y & Hy & Hg) Hf; [set_solver|].
  apply NoDup_cons in Hnd as [Hni Hnd]. destruct (f x) eqn:Hx; simpl.
  - f_equal. rewrite filter_none; [done|]. intros z Hz. apply not_true_iff_false.
    rewrite Hf by set_solver. intros Hgz. apply Hni. apply list_elem_of_fmap. exists z.
    split; [|done]. rewrite Hgz. by apply Hf; [left|].
  - apply IH; [done| |set_solver]. exists y. split; [|done].
    apply elem_of_cons in Hy as [->|Hy]; [|done].
    assert (f x = true) by (apply Hf; [left|done]). congruence.
Qed.

(** ** A weakest-precondition calculus

    [wp m Q s e]: running [m] from [s] and [e] ends with an outcome, state and
    effects that satisfy [Q].  The monad is total, so this is total
    correctness. *)
Definition wp {S A} (m : M S A) (Q : outcome A -> S -> effects -> Prop)
    (s : S) (e : effects) : Prop :=
  Q (m s e).1.1 (m s e).1.2 (m s e).2.

Section wp.
Context {S A B : Type}.
Implicit Types (Q : outcome A -> S -> effects -> Prop) (s : S) (e : effects).

Lemma wp_run (m : M S A) Q s e r s' e' : wp m Q s e -> m s e = (r, s', e') -> Q r s' e'.
Proof. unfold wp. intros Hq Heq. by rewrite Heq in Hq. Qed.

Lemma wp_intro (m : M S A) Q s e :
  (forall r s' e', m s e = (r, s', e') -> Q r s' e') -> wp m Q s e.
Proof. unfold wp. intros Hq. apply Hq. by destruct (m s e) as [[??] ?]. Qed.

Lemma wp_mono (m : M S A) Q Q' s e :
  wp m Q s e -> (forall r s' e', Q r s' e' -> Q' r s' e') -> wp m Q' s e.
Proof. unfold wp. auto. Qed.

Lemma wp_ret (a : A) Q s e : Q (Ok a) s e -> wp (ret a) Q s e.
Proof. done. Qed.

Lemma wp_raise x Q s e : Q (Raise x) s e -> wp (raise x) Q s e.
Proof. done. Qed.

Lemma wp_gets (f : S -> A) Q s e : Q (Ok (f s)) s e -> wp (gets f) Q s e.
Proof. done. Qed.

Lemma wp_bind (m : M S B) (k : B -> M S A) Q s e :
  wp m (fun r s' e' => match r with
                       | Ok b => wp (k b) Q s' e'
                       | Raise x => Q (Raise x) s' e'
                       end) s e ->
  wp (bind m k) Q s e.
Proof. unfold wp, bind. by destruct (m s e) as [[[b|x] s'] e']. Qed.

Lemma wp_try (m : M S A) h Q s e :
  wp m (fun r s' e' => match r with
                       | Ok a => Q (Ok a) s' e'
                       | Raise x => wp (h x) Q s' e'
                       end) s e ->
  wp (try_except m h) Q s e.
Proof. unfold wp, try_except. by destruct (m s e) as [[[b|x] s'] e']. Qed.

Lemma wp_zoom {T} get put (m : M T A) Q s e :
  wp m (fun r t e' => Q r (put t s) e') (get s) e -> wp (zoom get put m) Q s e.
Proof. unfold wp, zoom. by destruct (m (get s) e) as [[r t] e']. Qed.
End wp.

(** A database transaction: an exception undoes its writes. *)
Definition rollback {S A} (body : M S A) : M S A := fun s e =>
  match body s e with
  | (Ok a, s', e') => (Ok a, s', e')
  | (Raise x, _, e') => (Raise x, s, e')
  end.

Lemma wp_rollback {S A} (body : M S A) Q s e :
  wp body (fun r s' e' => match r with Ok a => Q (Ok a) s' e' | Raise x => Q (Raise x) s e' end) s e ->
  wp (rollback body) Q s e.
Proof. unfold wp, rollback. by destruct (body s e) as [[[a|x] s'] e']. Qed.

Section wp_unit.
Context {S : Type}.
Implicit Types (s : S) (e : effects).

Lemma wp_modify (f : S -> S) Q s e : Q (Ok tt) (f s) e -> wp (modify f) Q s e.
Proof. done. Qed.

Lemma wp_raise_if b x Q s e :
  (b = true -> Q (Raise x) s e) -> (b = false -> Q (Ok tt) s e) -> wp (raise_if b x) Q s e.
Proof. intros. destruct b; [apply wp_raise|apply wp_ret]; auto. Qed.

Lemma wp_datetime_now `{Env} Q s e :
  Q (Ok (clock_at (ticks e))) s (Effects (uuids e) (Datatypes.S (ticks e))) ->
  wp datetime_now Q s e.
Proof. done. Qed.

Lemma wp_uuid4 `{Env} Q s e :
  Q (Ok (uuid_at (uuids e))) s (Effects (Datatypes.S (uuids e)) (ticks e)) ->
  wp uuid4 Q s e.
Proof. done. Qed.
End wp_unit.

(** One step of symbolic execution; user-supplied rules come through
    [wp_hook]. *)
Ltac wp_hook := fail.
Ltac wp_prim :=
  lazymatch goal with
  | |- wp (bind _ _) _ _ _ => apply wp_bind
  | |- wp (ret _) _ _ _ => apply wp_ret
  | |- wp (raise _) _ _ _ => apply wp_raise
  | |- wp (raise_if _ _) _ _ _ => apply wp_raise_if; intros
  | |- wp (gets _) _ _ _ => apply wp_gets
  | |- wp (modify _) _ _ _ => apply wp_modify
  | |- wp datetime_now _ _ _ => apply wp_datetime_now
  | |- wp uuid4 _ _ _ => apply wp_uuid4
  | |- wp (try_except _ _) _ _ _ => apply wp_try
  | |- wp (zoom _ _ _) _ _ _ => apply wp_zoom
  | |- wp (rollback _) _ _ _ => apply wp_rollback
  | |- wp (let '(_, _) := ?x in _) _ _ _ => destruct x eqn:?
  | |- wp (match ?x with _ => _ end) _ _ _ => destruct x eqn:?
  end.
Ltac wp_step := first [wp_prim | wp_hook]; cbv beta iota zeta.
Ltac wp_steps := repeat wp_step.

(** Turn boolean tests into the propositions they decide. *)
Ltac bool_prop :=
  repeat match goal with
  | H : negb _ = true |- _ => apply negb_true_iff in H
  | H : negb _ = false |- _ => apply negb_false_iff in H
  | H : _ && _ = true |- _ => apply andb_true_iff in H as [? ?]
  | H : _ || _ = false |- _ => apply orb_false_iff in H as [? ?]
  | H : (_ <? _) = true |- _ => apply Z.ltb_lt in H
  | H : (_ <? _) = false |- _ => apply Z.ltb_ge in H
  | H : (_ <=? _) = true |- _ => apply Z.leb_le in H
  | H : (_ <=? _) = false |- _ => apply Z.leb_gt in H
  | H : (_ =? _) = true |- _ => apply Z.eqb_eq in H
  | H : (_ =? _) = false |- _ => apply Z.eqb_neq in H
  | H : bool_decide _ = true |- _ => apply bool_decide_eq_true in H
  | H : bool_decide _ = false |- _ => apply bool_decide_eq_false in H
  end.

Section run.
Context {S A B : Type}.

(** A sequenced run that succeeds is two successful runs. *)
Lemma bind_Ok (m : M S A) (k : A -> M S B) s e b s' e' :
  bind m k s e = (Ok b, s', e') <->
  exists a s1 e1, m s e = (Ok a, s1, e1) /\ k a s1 e1 = (Ok b, s', e').
Proof. unfold bind. destruct (m s e) as [[[a|x] s1] e1]; naive_solver. Qed.

(** It fails when its first half fails or its second half does. *)
Lemma bind_Raise (m : M S A) (k : A -> M S B) s e x s' e' :
  bind m k s e = (Raise x, s', e') <->
  m s e = (Raise x, s', e') \/
  exists a s1 e1, m s e = (Ok a, s1, e1) /\ k a s1 e1 = (Raise x, s', e').
Proof. unfold bind. destruct (m s e) as [[[a|y] s1] e1]; naive_solver. Qed.
End run.

Lemma after_true o t : after o t = true <-> exists v, o = Some v /\ t < v.
Proof. unfold after. destruct o; rewrite ?Z.ltb_lt; naive_solver. Qed.

Lemma after_false_Some v t : after (Some v) t = false <-> v <= t.
Proof. simpl. rewrite Z.ltb_ge. done. Qed.

Lemma due_true o t : due o t = true <-> exists v, o = Some v /\ v <= t.
Proof. unfold due. destruct o; rewrite ?Z.leb_le; naive_solver. Qed.

Lemma int_or_Some z d : 1 <= z -> int_or (Some z) d = z.
Proof. intros. simpl. destruct (Z.eqb_spec z 0); lia. Qed.

(** ** Preservation

    [preserves I m]: whatever [m] returns or raises, [I] still holds. *)
Definition preserves {S A} (I : S -> Prop) (m : M S A) : Prop :=
  forall s e, I s -> I (m s e).1.2.

Section preserves.
Context {S : Type} (I : S -> Prop).

Lemma preserves_ret {A} (a : A) : preserves I (ret a).
Proof. by intros s e. Qed.

Lemma preserves_raise {A} x : preserves I (raise x : M S A).
Proof. by intros s e. Qed.

Lemma preserves_raise_if b x : preserves I (raise_if b x).
Proof. intros s e ?. unfold raise_if. by destruct b. Qed.

Lemma preserves_gets {A} (f : S -> A) : preserves I (gets f).
Proof. by intros s e. Qed.

Lemma preserves_now `{Env} : preserves I datetime_now.
Proof. by intros s e. Qed.

Lemma preserves_uuid4 `{Env} : preserves I uuid4.
Proof. by intros s e. Qed.

Lemma preserves_modify f : (forall s, I s -> I (f s)) -> preserves I (modify f).
Proof. intros Hf s e Hs. by apply Hf. Qed.

Lemma preserves_bind {A B} (m : M S A) (k : A -> M S B) :
  preserves I m -> (forall a, preserves I (k a)) -> preserves I (bind m k).
Proof.
  intros Hm Hk s e Hs. specialize (Hm s e Hs). unfold bind.
  destruct (m s e) as [[[a|x] s1] e1]; [|done]. by apply Hk.
Qed.

Lemma preserves_try {A} (m : M S A) h :
  preserves I m -> (forall x, preserves I (h x)) -> preserves I (try_except m h).
Proof.
  intros Hm Hh s e Hs. specialize (Hm s e Hs). unfold try_except.
  destruct (m s e) as [[[a|x] s1] e1]; [done|]. by apply Hh.
Qed.
End preserves.

Lemma preserves_zoom {S T A} (I : S -> Prop) (J : T -> Prop) get put (m : M T A) :
  (forall s, I s -> J (get s)) -> (forall s t, I s -> J t -> I (put t s)) ->
  preserves J m -> preserves I (zoom get put m).
Proof.
  intros Hg Hp Hm s e Hs. unfold zoom. specialize (Hm (get s) e (Hg s Hs)).
  destruct (m (get s) e) as [[r t] e']. simpl in *. auto.
Qed.

Lemma preserves_wp {S A} (I : S -> Prop) (m : M S A) :
  preserves I m <-> forall s e, I s -> wp m (fun _ s' _ => I s') s e.
Proof. done. Qed.

(** Use an operation through the invariant it preserves. *)
Lemma wp_preserves {S A} (I : S -> Prop) (m : M S A) Q s e :
  preserves I m -> I s -> (forall r s' e', I s' -> Q r s' e') -> wp m Q s e.
Proof. intros Hm Hs HQ. apply HQ, Hm, Hs. Qed.

(** Decide a run that returns, or that raises, and a property of its result. *)
Definition ok_with {A S} (P : A -> S -> effects -> bool) (x : outcome A * S * effects) : bool :=
  match x with (Ok a, s, e) => P a s e | (Raise _, _, _) => false end.

Lemma ok_with_run {A S} (P : A -> S -> effects -> bool) x :
  ok_with P x = true -> exists a s e, x = (Ok a, s, e) /\ P a s e = true.
Proof. destruct x as [[[a|y] s] e]; simpl; [eauto|done]. Qed.

Definition raises {A S} (x : outcome A * S * effects) : bool :=
  match x with (Ok _, _, _) => false | (Raise _, _, _) => true end.

Lemma raises_run {A S} (x : outcome A * S * effects) :
  raises x = true -> exists y s e, x = (Raise y, s, e).
Proof. destruct x as [[[a|y] s] e]; simpl; [done|eauto]. Qed.

(** A concrete environment: numbered identifiers and a clock that moves one
    second per reading. *)
Definition demo_env : Env := {|
  uuid_at := fun n => ("id-" +:+ pretty n)%string;
  clock_at := fun n => 1000000 * Z.of_nat n;
|}.

#[export] Instance demo_env_unique : UniqueIds demo_env.
Proof. intros n m Heq. simpl in Heq. by simplify_eq. Qed.

Definition fx0 : effects := Effects 0 0.
