(* ===== verification/Datetime.v ===== *)
(** * Civil time

    The text form of timestamps ([datetime.isoformat()]) that the code stores
    and sends, and the reader of that form.  A [datetime] in UTC is the number
    of microseconds since 1970-01-01; the date is found with the era arithmetic
    of the proleptic Gregorian calendar. *)

From S2P Require Import Prelude.
From Stdlib Require Import Ascii.
#[local] Open Scope Z_scope.

(** ** Decimal text *)

Definition digit_char (d : Z) : ascii := ascii_of_N (Z.to_N (48 + d)).

Definition char_digit (c : ascii) : option Z :=
  let n := Z.of_N (N_of_ascii c) in
  if (48 <=? n) && (n <=? 57) then Some (n - 48) else None.

(** The last [width] decimal digits of [n]: [f"{n:0{width}d}"] when [n] fits. *)
Fixpoint pad (width : nat) (n : Z) : string :=
  match width with
  | O => EmptyString
  | S w => pad w (n / 10) +:+ String (digit_char (n mod 10)) EmptyString
  end.

(** The value of the first [width] characters, all digits, and the rest. *)
Fixpoint unpad (width : nat) (acc : Z) (s : string) : option (Z * string) :=
  match width with
  | O => Some (acc, s)
  | S w =>
    match s with
    | EmptyString => None
    | String c rest =>
      match char_digit c with
      | None => None
      | Some d => unpad w (10 * acc + d) rest
      end
    end
  end.

(** ** Dates *)

(** Year, month and day of a day number (day 0 is 1970-01-01). *)
Definition civil (days : Z) : Z * Z * Z :=
  let z := days + 719468 in
  let era := z / 146097 in
  let doe := z mod 146097 in
  let yoe := (doe - doe / 1460 + doe / 36524 - doe / 146096) / 365 in
  let doy := doe - (365 * yoe + yoe / 4 - yoe / 100) in
  let mp := (5 * doy + 2) / 153 in
  let d := doy - (153 * mp + 2) / 5 + 1 in
  let m := if mp <? 10 then mp + 3 else mp - 9 in
  let y := yoe + era * 400 in
  (if m <=? 2 then y + 1 else y, m, d).

(** The day number of a date. *)
Definition days_from_civil (date : Z * Z * Z) : Z :=
  let '(y, m, d) := date in
  let y := if m <=? 2 then y - 1 else y in
  let era := y / 400 in
  let yoe := y mod 400 in
  let mp := if 2 <? m then m - 3 else m + 9 in
  let doy := (153 * mp + 2) / 5 + d - 1 in
  let doe := yoe * 365 + yoe / 4 - yoe / 100 + doy in
  era * 146097 + doe - 719468.

Definition day_us : Z := 86400 * 1000000.

(** The fraction of a second, omitted when it is zero. *)
Definition fraction (f : Z) : string :=
  if f =? 0 then ""%string else ("." +:+ pad 6 f)%string.

(** [t.isoformat()] for an aware [datetime] in UTC, with the year in
    [1, 9999]. *)
Definition isoformat (t : Z) : string :=
  let '(y, m, d) := civil (t / day_us) in
  let us := t mod day_us in
  let s := us / 1000000 in
  let f := us mod 1000000 in
  (pad 4 y +:+ "-" +:+ pad 2 m +:+ "-" +:+ pad 2 d +:+ "T" +:+
   pad 2 (s / 3600) +:+ ":" +:+ pad 2 (s / 60 mod 60) +:+ ":" +:+ pad 2 (s mod 60) +:+
   fraction f +:+ "+00:00")%string.

(** The timestamps Python's [datetime] can represent. *)
Definition representable (t : Z) : Prop :=
  days_from_civil (1, 1, 1) * day_us <= t < days_from_civil (10000, 1, 1) * day_us.

(** ** Reading the canonical form *)

Definition expect (c : ascii) (s : string) : option string :=
  match s with
  | String d rest => if Ascii.eqb c d then Some rest else None
  | EmptyString => None
  end.

(** The optional fraction of a second. *)
Definition read_fraction (s : string) : option (Z * string) :=
  match expect "." s with
  | Some rest => unpad 6 0 rest
  | None => Some (0, s)
  end.

(** A number of [width] digits followed by the separator [c]. *)
Definition field (width : nat) (c : ascii) (s : string) : option (Z * string) :=
  match unpad width 0 s with
  | Some (n, s) => match expect c s with Some s => Some (n, s) | None => None end
  | None => None
  end.

(** The fields of ["YYYY-MM-DDTHH:MM:SS[.ffffff]+00:00"]. *)
Definition read_fields (s : string) : option (Z * Z * Z * (Z * Z * Z) * Z) :=
  '(y, s) ← field 4 "-" s; '(m, s) ← field 2 "-" s; '(d, s) ← field 2 "T" s;
  '(h, s) ← field 2 ":" s; '(mi, s) ← field 2 ":" s; '(sec, s) ← unpad 2 0 s;
  '(f, s) ← read_fraction s;
  if bool_decide (s = "+00:00"%string) then Some (y, m, d, (h, mi, sec), f) else None.

(** The timestamp of a text in canonical form: [None] when the text has another
    form, [Some None] when a field is out of range. *)
Definition read_canonical (s : string) : option (option Z) :=
  '(y, m, d, (h, mi, sec), f) ← read_fields s;
  let days := days_from_civil (y, m, d) in
  Some (if bool_decide (civil days = (y, m, d)) && (1 <=? y) && (h <? 24) && (mi <? 60) && (sec <? 60)
        then Some (days * day_us + (h * 3600 + mi * 60 + sec) * 1000000 + f) else None).

Example isoformat_epoch : isoformat 0 = "1970-01-01T00:00:00+00:00"%string.
Proof. reflexivity. Qed.

Example isoformat_leap : isoformat (951782400 * 1000000 + 1) = "2000-02-29T00:00:00.000001+00:00"%string.
Proof. reflexivity. Qed.

(** ** The reader inverts the printer *)

Lemma char_digit_char d : 0 <= d < 10 -> char_digit (digit_char d) = Some d.
Proof.
  intros Hd. set (ok := fun d => bool_decide (char_digit (digit_char d) = Some d)).
  assert (Hok : ok d = true) by (apply (range_forall ok 10); [vm_compute; reflexivity|lia]).
  by apply bool_decide_eq_true in Hok.
Qed.

Lemma unpad_last w : forall acc s,
  unpad (S w) acc s =
  match unpad w acc s with
  | Some (a, String c rest) => match char_digit c with Some d => Some (10 * a + d, rest) | None => None end
  | _ => None
  end.
Proof.
  induction w as [|w IH]; intros acc s; [by destruct s|].
  change (unpad (S (S w)) acc s) with (match s with EmptyString => None | String c rest =>
    match char_digit c with None => None | Some d => unpad (S w) (10 * acc + d) rest end end).
  destruct s as [|c s]; [done|]. simpl unpad at 2. destruct (char_digit c); [|done]. apply IH.
Qed.

Lemma string_app_assoc (a b c : string) : ((a +:+ b) +:+ c = a +:+ (b +:+ c))%string.
Proof.
  induction a as [|x a IH]; [done|].
  change (String x ((a +:+ b) +:+ c) = String x (a +:+ (b +:+ c))). by rewrite IH.
Qed.

Lemma unpad_pad w : forall n acc rest,
  unpad w acc (pad w n +:+ rest) = Some (10 ^ Z.of_nat w * acc + n mod 10 ^ Z.of_nat w, rest).
Proof.
  induction w as [|w IH]; intros n acc rest.
  - simpl. rewrite Z.mod_1_r. repeat f_equal. lia.
  - rewrite unpad_last. simpl pad. rewrite string_app_assoc, IH. simpl.
    rewrite char_digit_char by (apply Z.mod_pos_bound; lia).
    do 2 f_equal. rewrite Nat2Z.inj_succ, Z.pow_succ_r by lia.
    rewrite (Z.rem_mul_r n 10 (10 ^ Z.of_nat w)) by lia. lia.
Qed.

Lemma unpad_pad_small w n rest :
  0 <= n < 10 ^ Z.of_nat w -> unpad w 0 (pad w n +:+ rest) = Some (n, rest).
Proof. intros Hn. rewrite unpad_pad, Z.mod_small by done. repeat f_equal. lia. Qed.

(** The year of an era and the day of that year, as linear facts. *)
Lemma year_of_era doe q1 q2 q3 y c d :
  0 <= doe < 146097 -> 1460 * q1 <= doe < 1460 * q1 + 1460 ->
  36524 * q2 <= doe < 36524 * q2 + 36524 -> 146096 * q3 <= doe < 146096 * q3 + 146096 ->
  365 * y <= doe - q1 + q2 - q3 < 365 * y + 365 ->
  4 * c <= y < 4 * c + 4 -> 100 * d <= y < 100 * d + 100 ->
  0 <= y < 400 /\ 0 <= doe - (365 * y + c - d) <= 365.
Proof.
  intros.
  assert (q3 = 0 \/ q3 = 1) as [-> | ->] by lia;
    assert (q2 = 0 \/ q2 = 1 \/ q2 = 2 \/ q2 = 3 \/ q2 = 4) as [-> |[-> |[-> |[-> | ->]]]] by lia; try lia;
    assert (d = 0 \/ d = 1 \/ d = 2 \/ d = 3 \/ d = 4) as [-> |[-> |[-> |[-> | ->]]]] by lia; lia.
Qed.

Lemma div_spec a n : 0 < n -> n * (a / n) <= a < n * (a / n) + n.
Proof. intros. pose proof (Z.div_mod a n). pose proof (Z.mod_pos_bound a n). lia. Qed.

(** Month and day of a day of the year (counted from March), checked on every
    day. *)
Lemma month_day doy : 0 <= doy <= 365 ->
  let mp := (5 * doy + 2) / 153 in
  let d := doy - (153 * mp + 2) / 5 + 1 in
  let m := if mp <? 10 then mp + 3 else mp - 9 in
  1 <= d <= 31 /\ 1 <= m <= 12 /\ (if 2 <? m then m - 3 else m + 9) = mp.
Proof.
  intros Hd. set (ok := fun doy => let mp := (5 * doy + 2) / 153 in
    let d := doy - (153 * mp + 2) / 5 + 1 in let m := if mp <? 10 then mp + 3 else mp - 9 in
    (1 <=? d) && (d <=? 31) && (1 <=? m) && (m <=? 12) && ((if 2 <? m then m - 3 else m + 9) =? mp)).
  assert (Hok : ok doy = true) by (apply (range_forall ok 366); [vm_compute; reflexivity|lia]).
  unfold ok in Hok. cbv zeta in *. bool_prop. lia.
Qed.

(** The date of a day number, and back. *)
Lemma civil_inverse days :
  let '(y, m, d) := civil days in
  days_from_civil (y, m, d) = days /\ 1 <= m <= 12 /\ 1 <= d <= 31 /\
  (days + 719468) / 146097 * 400 <= y <= (days + 719468) / 146097 * 400 + 400.
Proof.
  unfold civil. set (z := days + 719468). set (era := z / 146097). set (doe := z mod 146097).
  pose proof (Z.mod_pos_bound z 146097 ltac:(lia)) as Hdoe. fold doe in Hdoe.
  set (yoe := (doe - doe / 1460 + doe / 36524 - doe / 146096) / 365).
  destruct (year_of_era doe (doe / 1460) (doe / 36524) (doe / 146096) yoe (yoe / 4) (yoe / 100)) as [Hyoe Hdoy];
    [done|apply div_spec; lia..|].
  set (doy := doe - (365 * yoe + yoe / 4 - yoe / 100)) in *.
  destruct (month_day doy Hdoy) as (Hd & Hm & Hmp). cbv zeta in *.
  set (mp := (5 * doy + 2) / 153) in *. set (d := doy - (153 * mp + 2) / 5 + 1) in *.
  set (m := if mp <? 10 then mp + 3 else mp - 9) in *.
  assert (Hy : (if m <=? 2 then (if m <=? 2 then yoe + era * 400 + 1 else yoe + era * 400) - 1
                else (if m <=? 2 then yoe + era * 400 + 1 else yoe + era * 400)) = yoe + era * 400)
    by (destruct (m <=? 2); lia).
  split; [|destruct (m <=? 2); lia]. unfold days_from_civil. rewrite Hy, Hmp.
  rewrite Z.div_add, Z.mod_add, Z.div_small, Z.mod_small by lia.
  assert (Hz : z = 146097 * era + doe) by (apply Z.div_mod; lia). unfold d, doy, z in *. lia.
Qed.

Lemma year_range y m d :
  1 <= m <= 12 -> 1 <= d <= 31 ->
  days_from_civil (1, 1, 1) <= days_from_civil (y, m, d) < days_from_civil (10000, 1, 1) -> 1 <= y <= 9999.
Proof.
  intros Hm Hd. change (days_from_civil (1, 1, 1)) with (-719162).
  change (days_from_civil (10000, 1, 1)) with 2932897. unfold days_from_civil.
  set (y' := if m <=? 2 then y - 1 else y). set (mp := if 2 <? m then m - 3 else m + 9).
  assert (Hcase : m <= 2 /\ y' = y - 1 /\ mp = m + 9 \/ 3 <= m /\ y' = y /\ mp = m - 3).
  { unfold y', mp. destruct (Z.leb_spec m 2), (Z.ltb_spec 2 m); lia. }
  pose proof (div_spec (153 * mp + 2) 5 ltac:(lia)). pose proof (Z.mod_pos_bound y' 400 ltac:(lia)).
  pose proof (Z.div_mod y' 400 ltac:(lia)). pose proof (div_spec (y' mod 400) 4 ltac:(lia)).
  pose proof (div_spec (y' mod 400) 100 ltac:(lia)). lia.
Qed.

Lemma expect_char c s : expect c (String c s) = Some s.
Proof. unfold expect. by rewrite Ascii.eqb_refl. Qed.

Lemma field_pad w c n rest :
  0 <= n < 10 ^ Z.of_nat w -> field w c (pad w n +:+ String c EmptyString +:+ rest) = Some (n, rest).
Proof.
  intros Hn. unfold field. rewrite unpad_pad_small by done.
  change (String c EmptyString +:+ rest) with (String c rest). by rewrite expect_char.
Qed.

Lemma read_fraction_text f :
  0 <= f < 1000000 ->
  read_fraction (fraction f +:+ "+00:00") = Some (f, "+00:00"%string).
Proof.
  intros Hf. unfold fraction. destruct (Z.eqb_spec f 0) as [->|]; [done|].
  change (read_fraction (String "." (pad 6 f +:+ "+00:00")) = Some (f, "+00:00"%string)).
  unfold read_fraction. rewrite expect_char, unpad_pad_small; [done|simpl; lia].
Qed.

(** A timestamp [datetime] can represent is read back from its text. *)
Lemma read_isoformat t : representable t -> read_canonical (isoformat t) = Some (Some t).
Proof.
  intros Hrep. unfold isoformat. pose proof (civil_inverse (t / day_us)) as Hciv.
  destruct (civil (t / day_us)) as [[y m] d] eqn:Hc. destruct Hciv as (Hinv & Hm & Hd & _).
  assert (Hus : 0 <= t mod day_us < day_us) by (apply Z.mod_pos_bound; unfold day_us; lia).
  assert (Ht : t = day_us * (t / day_us) + t mod day_us) by (apply Z.div_mod; unfold day_us; lia).
  set (us := t mod day_us) in *. set (s := us / 1000000). set (f := us mod 1000000).
  assert (Hy : 1 <= y <= 9999).
  { apply (year_range y m d Hm Hd). rewrite Hinv. unfold representable, day_us in *. lia. }
  pose proof (div_spec us 1000000 ltac:(lia)) as Hs. fold s in Hs.
  pose proof (Z.mod_pos_bound us 1000000 ltac:(lia)) as Hf. fold f in Hf.
  assert (Hus' : us = 1000000 * s + f) by (apply Z.div_mod; lia).
  unfold day_us in Hus. pose proof (div_spec s 3600 ltac:(lia)). pose proof (div_spec s 60 ltac:(lia)).
  pose proof (div_spec (s / 60) 60 ltac:(lia)). pose proof (Z.mod_pos_bound s 60 ltac:(lia)).
  pose proof (Z.mod_pos_bound (s / 60) 60 ltac:(lia)). pose proof (Z.div_mod s 60 ltac:(lia)).
  pose proof (Z.div_mod (s / 60) 60 ltac:(lia)). assert (Hh : s / 60 / 60 = s / 3600) by by rewrite Z.div_div.
  assert (Hfields : read_fields (pad 4 y +:+ "-" +:+ pad 2 m +:+ "-" +:+ pad 2 d +:+ "T" +:+
    pad 2 (s / 3600) +:+ ":" +:+ pad 2 (s / 60 mod 60) +:+ ":" +:+ pad 2 (s mod 60) +:+
    fraction f +:+ "+00:00")%string = Some (y, m, d, (s / 3600, s / 60 mod 60, s mod 60), f)).
  { unfold read_fields. rewrite field_pad by (simpl; lia). cbn [mbind option_bind].
    do 4 (rewrite field_pad by (simpl; lia); cbn [mbind option_bind]).
    rewrite unpad_pad_small by (simpl; lia). cbn [mbind option_bind].
    by rewrite read_fraction_text. }
  unfold read_canonical. rewrite Hfields. cbn [mbind option_bind]. rewrite Hinv, Hc.
  rewrite bool_decide_eq_true_2 by done. repeat rewrite (proj2 (Z.leb_le _ _)) by lia.
  rewrite !(proj2 (Z.ltb_lt _ _)) by lia. simpl. do 2 f_equal. unfold day_us in *. lia.
Qed.
