(* ===== verification/PyText.v ===== *)
(** * Python text

    The text operations of the language that the wire codecs use: [str(int)] and
    [int(str)], [str.replace], [sorted] on strings and [bytes.decode()].  A [str]
    is kept as its UTF-8 encoding, so [len] counts the bytes that start a
    character. *)

From S2P Require Import Prelude Datetime.
From Stdlib Require Import Ascii QArith.
From stdpp Require Import sorting.
#[local] Close Scope Q_scope.
#[local] Open Scope Z_scope.

(** ** Floats *)

(** A Python [float] where the code tests [math.isfinite]. *)
Inductive pyfloat : Type := Finite (q : Q) | NonFinite.

(** ** UTF-8 *)

Definition code (c : ascii) : Z := Z.of_N (N_of_ascii c).

Definition byte_in (lo hi : Z) (c : ascii) : bool := (lo <=? code c) && (code c <=? hi).

(** Continuation bytes. *)
Definition cont : ascii -> bool := byte_in 128 191.

(** Well-formed UTF-8: no overlong form, no surrogate, nothing above U+10FFFF. *)
Fixpoint utf8_valid (s : string) : bool :=
  match s with
  | EmptyString => true
  | String c s1 =>
    if byte_in 0 127 c then utf8_valid s1
    else
      match s1 with
      | EmptyString => false
      | String c1 s2 =>
        if byte_in 194 223 c then cont c1 && utf8_valid s2
        else
          match s2 with
          | EmptyString => false
          | String c2 s3 =>
            if byte_in 224 239 c then
              byte_in (if code c =? 224 then 160 else 128) (if code c =? 237 then 159 else 191) c1
              && cont c2 && utf8_valid s3
            else
              match s3 with
              | EmptyString => false
              | String c3 s4 =>
                byte_in 240 244 c
                && byte_in (if code c =? 240 then 144 else 128) (if code c =? 244 then 143 else 191) c1
                && cont c2 && cont c3 && utf8_valid s4
              end
          end
      end
  end.

(** A value a Redis reply holds: text, or undecoded bytes. *)
Inductive text : Type :=
  | TStr (s : string)
  | TBytes (b : string).

(** [len(s)]: the characters of the text. *)
Fixpoint char_len (s : string) : Z :=
  match s with
  | EmptyString => 0
  | String c s => (if cont c then 0 else 1) + char_len s
  end.

Fixpoint string_all (f : ascii -> bool) (s : string) : bool :=
  match s with
  | EmptyString => true
  | String c s => f c && string_all f s
  end.

(** ** Integers *)

(** [sys.get_int_max_str_digits()]. *)
Definition max_str_digits : nat := 4300.

(** [str(z)]: [None] when the number has more digits than the interpreter
    converts. *)
Definition py_str_int (z : Z) : option string :=
  if Nat.leb (String.length (pretty (Z.abs z))) max_str_digits then Some (pretty z) else None.

Definition is_ascii : string -> bool := string_all (byte_in 0 127).

Definition is_space (c : ascii) : bool := byte_in 9 13 c || (code c =? 32).

(** The digits of a literal, single underscores between them and blanks after
    them; [digit] says that the last character was a digit. *)
Fixpoint int_digits (acc : Z) (count : nat) (digit : bool) (s : string) : option (Z * nat) :=
  match s with
  | EmptyString => if digit then Some (acc, count) else None
  | String c rest =>
    match char_digit c with
    | Some d => int_digits (10 * acc + d) (S count) true rest
    | None =>
      if negb digit then None
      else if Ascii.eqb c "_" then int_digits acc count false rest
      else if string_all is_space s then Some (acc, count) else None
    end
  end.

(** An underscore may not open the literal: [int_digits] starts with [digit]
    unset. *)
Definition int_unsigned (s : string) : option Z :=
  match int_digits 0 0 false s with
  | Some (z, count) => if Nat.leb count max_str_digits then Some z else None
  | None => None
  end.

Fixpoint lstrip (s : string) : string :=
  match s with
  | String c rest => if is_space c then lstrip rest else s
  | EmptyString => EmptyString
  end.

(** [int(s)] for ASCII text. *)
Definition int_ascii (s : string) : option Z :=
  match lstrip s with
  | String "-" rest => Z.opp <$> int_unsigned rest
  | String "+" rest => int_unsigned rest
  | rest => int_unsigned rest
  end.

(** Other scripts have digits and blanks too: their reading is the library's. *)
Class UnicodeInt : Type := int_unicode : string -> option Z.

Definition py_int `{UnicodeInt} (s : string) : option Z :=
  if is_ascii s then int_ascii s else int_unicode s.

(** ** Replacement, order and join *)

(** [s.replace(old, new)] for a non-empty [old]: matches from the left, without
    overlap; [skip] counts the rest of a match. *)
Fixpoint replace_go (old new : string) (skip : nat) (s : string) : string :=
  match s with
  | EmptyString => EmptyString
  | String c rest =>
    match skip with
    | S k => replace_go old new k rest
    | O =>
      if String.prefix old s then new +:+ replace_go old new (String.length old - 1) rest
      else String c (replace_go old new 0 rest)
    end
  end.

Definition py_replace (old new s : string) : string := replace_go old new 0 s.

(** [sorted(names)]: code-point order is the order of the encodings. *)
Definition py_sorted (names : list string) : list string := merge_sort String.le names.

(** [sep.join(names)]. *)
Fixpoint join (sep : string) (names : list string) : string :=
  match names with
  | [] => EmptyString
  | [n] => n
  | n :: rest => (n +:+ sep +:+ join sep rest)%string
  end.

(** ** Identifiers *)

Definition hex_digit (c : ascii) : option Z :=
  if byte_in 48 57 c then Some (code c - 48)
  else if byte_in 97 102 c then Some (code c - 87)
  else if byte_in 65 70 c then Some (code c - 55)
  else None.

(** The digits of [int(hex, 16)], as [int_digits]. *)
Fixpoint hex_digits (acc : Z) (digit : bool) (s : string) : option Z :=
  match s with
  | EmptyString => if digit then Some acc else None
  | String c rest =>
    match hex_digit c with
    | Some d => hex_digits (16 * acc + d) true rest
    | None =>
      if negb digit then None
      else if Ascii.eqb c "_" then hex_digits acc false rest
      else if string_all is_space s then Some acc else None
    end
  end.

(** A prefix [0x] may be followed by an underscore. *)
Definition hex_unsigned (s : string) : option Z :=
  match s with
  | String "0" (String "x" (String "_" rest)) | String "0" (String "X" (String "_" rest))
  | String "0" (String "x" rest) | String "0" (String "X" rest) => hex_digits 0 false rest
  | _ => hex_digits 0 false s
  end.

Definition int_16 (s : string) : option Z :=
  match lstrip s with
  | String "-" rest => Z.opp <$> hex_unsigned rest
  | String "+" rest => hex_unsigned rest
  | rest => hex_unsigned rest
  end.

Definition is_brace (c : ascii) : bool := Ascii.eqb c "{" || Ascii.eqb c "}".

(** [s.strip("{}")]. *)
Fixpoint lstrip_braces (s : string) : string :=
  match s with
  | String c rest => if is_brace c then lstrip_braces rest else s
  | EmptyString => EmptyString
  end.

Fixpoint rstrip_braces (s : string) : string :=
  match s with
  | String c rest => if string_all is_brace s then EmptyString else String c (rstrip_braces rest)
  | EmptyString => EmptyString
  end.

Definition hex_char (d : Z) : ascii :=
  ascii_of_N (Z.to_N (if d <? 10 then 48 + d else 87 + d)).

(** The last [n] hexadecimal digits of [z], in lower case, before [acc]. *)
Fixpoint hex_text (n : nat) (z : Z) (acc : string) : string :=
  match n with
  | O => acc
  | S n => hex_text n (Z.shiftr z 4) (String (hex_char (Z.land z 15)) acc)
  end.

(** [str(UUID(int=z))]: 8, 4, 4, 4 and 12 digits. *)
Definition uuid_text (z : Z) : string :=
  let part shift n := hex_text n (Z.shiftr z shift) EmptyString in
  (part 96 8%nat +:+ "-" +:+ part 80 4%nat +:+ "-" +:+ part 64 4%nat +:+ "-" +:+ part 48 4%nat
   +:+ "-" +:+ part 0 12%nat)%string.

(** [str(UUID(text))] for ASCII text: [None] when the text is not a UUID. *)
Definition uuid_ascii (text : string) : option string :=
  let hex := py_replace "uuid:" "" (py_replace "urn:" "" text) in
  let hex := py_replace "-" "" (rstrip_braces (lstrip_braces hex)) in
  if negb (Nat.eqb (String.length hex) 32) then None
  else
    match int_16 hex with
    | Some z => if (0 <=? z) && (z <? 2 ^ 128) then Some (uuid_text z) else None
    | None => None
    end.

(** The reading of other scripts is the library's. *)
Class UuidText : Type := uuid_unicode : string -> option string.

Definition parse_uuid `{UuidText} (text : string) : option string :=
  if is_ascii text then uuid_ascii text else uuid_unicode text.

Example uuid_texts :
  uuid_ascii "{C0FFEE00-0000-4000-8000-00000000000A}" = Some "c0ffee00-0000-4000-8000-00000000000a"%string /\
  uuid_ascii "urn:uuid:c0ffee0000004000800000000000000a" = Some "c0ffee00-0000-4000-8000-00000000000a"%string /\
  uuid_ascii "m1" = None /\ uuid_ascii "g0ffee00-0000-4000-8000-00000000000a" = None.
Proof. vm_compute. split_and!; reflexivity. Qed.

Example int_literals :
  int_ascii " 1_0 "%string = Some 10 /\ int_ascii "-7"%string = Some (-7) /\
  int_ascii "_1"%string = None /\ int_ascii "1__0"%string = None /\ int_ascii "1_"%string = None /\
  int_ascii ""%string = None /\ int_ascii "+ 5"%string = None.
Proof. vm_compute. split_and!; reflexivity. Qed.

Example replace_twice : py_replace "ab" "x" "abcab" = "xcx"%string.
Proof. reflexivity. Qed.

(** ** Lemmas *)

Lemma string_app_cons c s t : String c s +:+ t = String c (s +:+ t).
Proof. done. Qed.

Lemma string_app_nil_r s : s +:+ "" = s.
Proof. induction s as [|c s IH]; [done|]. by rewrite string_app_cons, IH. Qed.

Lemma string_all_app f s t : string_all f (s +:+ t) = string_all f s && string_all f t.
Proof. induction s as [|c s IH]; [done|]. rewrite string_app_cons. simpl. by rewrite IH, andb_assoc. Qed.

(** A part of the text without the first character of [old] is kept. *)
Lemma replace_keep c old new body tail :
  string_all (fun x => negb (Ascii.eqb c x)) body = true ->
  py_replace (String c old) new (body +:+ tail) = body +:+ py_replace (String c old) new tail.
Proof.
  unfold py_replace. induction body as [|x body IH]; [done|]. simpl string_all. intros Hb. bool_prop.
  rewrite !string_app_cons. simpl. destruct (ascii_dec c x) as [->|].
  - by rewrite Ascii.eqb_refl in *.
  - by rewrite IH.
Qed.

Lemma pretty_char_digit x : (x < 10)%N -> char_digit (pretty_N_char x) = Some (Z.of_N x).
Proof.
  intros Hx. set (ok := fun z => bool_decide (char_digit (pretty_N_char (Z.to_N z)) = Some z)).
  assert (Hok : ok (Z.of_N x) = true) by (apply (range_forall ok 10); [vm_compute; reflexivity|lia]).
  apply bool_decide_eq_true in Hok. by rewrite N2Z.id in Hok.
Qed.

Lemma int_digits_go x : forall s c p, (0 < x)%N ->
  int_digits 0 c p (pretty_N_go x s) =
  int_digits (Z.of_N x) (c + String.length (pretty_N_go x s) - String.length s) true s /\
  (String.length s < String.length (pretty_N_go x s))%nat.
Proof.
  induction (N.lt_wf_0 x) as [x _ IH]. intros s c p Hx. rewrite pretty_N_go_step by done.
  assert (Hm : (x `mod` 10 < 10)%N) by (apply N.mod_lt; lia).
  pose proof (N.div_mod x 10 ltac:(lia)) as Hdm.
  destruct (decide (x `div` 10 = 0)%N) as [Hz|Hz].
  - rewrite Hz, pretty_N_go_0. simpl String.length. split; [|lia].
    cbn [int_digits]. rewrite pretty_char_digit by done. f_equal; lia.
  - assert (Hlt : (x `div` 10 < x)%N) by (apply N.div_lt; lia).
    destruct (IH _ Hlt (String (pretty_N_char (x `mod` 10)) s) c p) as [Hd Hl]; [lia|].
    rewrite Hd. simpl String.length in *. split; [|lia].
    cbn [int_digits]. rewrite pretty_char_digit by done. f_equal; lia.
Qed.

(** Digits open with a digit. *)
Lemma pretty_go_head x s : (0 < x)%N -> exists d r, (d < 10)%N /\ pretty_N_go x s = String (pretty_N_char d) r.
Proof.
  revert s. induction (N.lt_wf_0 x) as [x _ IH]. intros s Hx. rewrite pretty_N_go_step by done.
  destruct (decide (x `div` 10 = 0)%N) as [Hz|Hz].
  - rewrite Hz, pretty_N_go_0. eexists _, _. split; [|done]. apply N.mod_lt. lia.
  - apply IH; [by apply N.div_lt|by apply N.neq_0_lt_0].
Qed.

Lemma pretty_go_all f x s :
  (forall d, (d < 10)%N -> f (pretty_N_char d) = true) -> string_all f s = true ->
  string_all f (pretty_N_go x s) = true.
Proof.
  intros Hf. revert s. induction (N.lt_wf_0 x) as [x _ IH]. intros s Hs.
  destruct (decide (x = 0)%N) as [->|Hx]; [done|]. rewrite pretty_N_go_step by lia.
  apply IH; [apply N.div_lt; lia|]. simpl. rewrite Hs, andb_true_r. apply Hf, N.mod_lt. lia.
Qed.

Lemma digit_char_ind (P : ascii -> Prop) :
  P "0"%char -> P "1"%char -> P "2"%char -> P "3"%char -> P "4"%char -> P "5"%char ->
  P "6"%char -> P "7"%char -> P "8"%char -> P "9"%char -> forall d, P (pretty_N_char d).
Proof. intros. unfold pretty_N_char. by repeat case_match. Qed.

(** [int(str(z))] is [z] for a number the interpreter prints. *)
Lemma py_int_str `{UnicodeInt} z s : 0 <= z -> py_str_int z = Some s -> py_int s = Some z.
Proof.
  unfold py_str_int. intros Hz. case_match eqn:Hlen; [|done]. apply Nat.leb_le in Hlen.
  intros [= <-]. destruct z as [|x|x]; [done| |lia].
  change (pretty (Z.pos x)) with (pretty_N_go (N.pos x) "") in *.
  destruct (int_digits_go (N.pos x) "" 0 false ltac:(done)) as [Hd _].
  destruct (pretty_go_head (N.pos x) "" ltac:(done)) as (d & r & _ & Hhead).
  unfold py_int, is_ascii. rewrite pretty_go_all; [|intros; by apply digit_char_ind|done].
  assert (Hu : int_unsigned (pretty_N_go (N.pos x) "") = Some (Z.pos x)).
  { unfold int_unsigned. rewrite Hd. cbn [int_digits String.length].
    change (pretty (Z.abs (Z.pos x))) with (pretty_N_go (N.pos x) "") in Hlen.
    rewrite (proj2 (Nat.leb_le _ _)); [done|]. simpl. lia. }
  rewrite Hhead in *. rewrite <-Hu. clear.
  by apply (digit_char_ind (fun c => int_ascii (String c r) = int_unsigned (String c r))).
Qed.

Lemma py_str_ascii z s : 0 <= z -> py_str_int z = Some s -> is_ascii s = true.
Proof.
  unfold py_str_int. intros Hz. case_match; [|done]. intros [= <-]. destruct z as [|x|x]; [done| |lia].
  change (pretty (Z.pos x)) with (pretty_N_go (N.pos x) ""). unfold is_ascii.
  apply pretty_go_all; [|done]. intros. by apply digit_char_ind.
Qed.

(** ** Sorting *)

Lemma py_sorted_Permutation l : py_sorted l ≡ₚ l.
Proof. apply merge_sort_Permutation. Qed.

Lemma py_sorted_Sorted l : StronglySorted String.le (py_sorted l).
Proof. apply StronglySorted_merge_sort; apply _. Qed.

(** [sorted] does not depend on the order of its argument. *)
Lemma py_sorted_perm l l' : l ≡ₚ l' -> py_sorted l = py_sorted l'.
Proof.
  intros Hp. apply (StronglySorted_unique String.le); [apply py_sorted_Sorted..|].
  by rewrite !py_sorted_Permutation.
Qed.

Lemma py_sorted_idem l : py_sorted (py_sorted l) = py_sorted l.
Proof. apply py_sorted_perm, py_sorted_Permutation. Qed.

(** ** Sorting by a key *)

(** The order of pairs: Python compares tuples from the left. *)
Definition lex {A B : Type} (R : relation A) (S : relation B) : relation (A * B) :=
  fun x y => (R x.1 y.1 /\ x.1 <> y.1) \/ (x.1 = y.1 /\ S x.2 y.2).

Section lex.
Context {A B : Type} `{EqDecision A} (R : relation A) (S : relation B).

#[export] Instance lex_dec `{!RelDecision R} `{!RelDecision S} : RelDecision (lex R S).
Proof. unfold lex. intros x y. apply _. Defined.

#[export] Instance lex_reflexive `{!Reflexive S} : Reflexive (lex R S).
Proof. intros x. by right. Qed.

#[export] Instance lex_transitive `{!Transitive R} `{!AntiSymm (=) R} `{!Transitive S} : Transitive (lex R S).
Proof.
  intros x y z [[H1 N1]|[E1 H1]] [[H2 N2]|[E2 H2]].
  - left. split; [by etrans|]. intros E. apply N1. apply (anti_symm R); [done|]. by rewrite E.
  - left. by rewrite <-E2.
  - left. by rewrite E1.
  - right. split; [congruence|by etrans].
Qed.

#[export] Instance lex_total `{!Total R} `{!Total S} : Total (lex R S).
Proof.
  intros x y. destruct (decide (x.1 = y.1)) as [E|N].
  - destruct (total S x.2 y.2); [left|right]; by right.
  - destruct (total R x.1 y.1); [left|right]; left; auto.
Qed.

#[export] Instance lex_antisymm `{!AntiSymm (=) R} `{!AntiSymm (=) S} : AntiSymm (=) (lex R S).
Proof.
  intros [a b] [a' b'] [[H1 N1]|[E1 H1]] [[H2 N2]|[E2 H2]]; simpl in *; subst; try done.
  - by destruct (N1 (anti_symm R _ _ H1 H2)).
  - by rewrite (anti_symm S _ _ H1 H2).
Qed.
End lex.

(** [sorted(values, key=key)]. *)
Definition by_key {A K : Type} (R : relation K) (key : A -> K) : relation A := fun x y => R (key x) (key y).

#[export] Instance by_key_dec {A K} (R : relation K) (key : A -> K) `{!RelDecision R} : RelDecision (by_key R key).
Proof. intros x y. unfold by_key. apply _. Defined.

Definition sorted_by {A K : Type} (R : relation K) `{!RelDecision R} (key : A -> K) (l : list A) : list A :=
  merge_sort (by_key R key) l.

Section sorted_by.
Context {A K : Type} (R : relation K) `{!RelDecision R} `{!Transitive R} `{!Total R} (key : A -> K).

Lemma sorted_by_Permutation l : sorted_by R key l ≡ₚ l.
Proof. apply merge_sort_Permutation. Qed.

Lemma sorted_by_Sorted l : StronglySorted (by_key R key) (sorted_by R key l).
Proof.
  apply StronglySorted_merge_sort.
  - intros x y z. unfold by_key. by apply transitivity.
  - intros x y. unfold by_key. apply (total R).
Qed.

(** The order of the argument does not matter when the keys are distinct. *)
Lemma sorted_by_perm `{!AntiSymm (=) R} l l' :
  (forall x y, x ∈ l -> y ∈ l -> key x = key y -> x = y) -> l ≡ₚ l' -> sorted_by R key l = sorted_by R key l'.
Proof.
  intros Hk Hp. apply (StronglySorted_unique_strong (by_key R key)); [|apply sorted_by_Sorted..|].
  - intros x y Hx Hy H1 H2. rewrite sorted_by_Permutation in Hx, Hy. rewrite <-Hp in Hy.
    apply Hk; [done..|]. by apply (anti_symm R).
  - by rewrite !sorted_by_Permutation.
Qed.
End sorted_by.
