(* ===== verification/Base64.v ===== *)
(** * Base64

    [base64.urlsafe_b64encode], whose padding the code strips, and
    [base64.urlsafe_b64decode], which is lenient: it skips characters outside the
    alphabet, accepts both spellings of 62 and 63, and stops at the padding. *)

From S2P Require Import Prelude Datetime PyText.
From Stdlib Require Import Ascii.
#[local] Open Scope Z_scope.

(** ** Encoding *)

(** [base64.urlsafe_b64encode(digest).rstrip(b"=")] *)
Definition b64_alphabet : string :=
  "ABCDEFGHIJKLMNOPQRSTUVWXYZabcdefghijklmnopqrstuvwxyz0123456789-_".

Definition b64_char (i : Z) : ascii :=
  default "A"%char (String.get (Z.to_nat i) b64_alphabet).

Fixpoint b64 (bytes : list Z) : string :=
  match bytes with
  | a :: b :: c :: rest =>
    String (b64_char (Z.shiftr a 2))
      (String (b64_char (Z.lor (Z.shiftl (Z.land a 3) 4) (Z.shiftr b 4)))
        (String (b64_char (Z.lor (Z.shiftl (Z.land b 15) 2) (Z.shiftr c 6)))
          (String (b64_char (Z.land c 63)) (b64 rest))))
  | [a; b] =>
    String (b64_char (Z.shiftr a 2))
      (String (b64_char (Z.lor (Z.shiftl (Z.land a 3) 4) (Z.shiftr b 4)))
        (String (b64_char (Z.shiftl (Z.land b 15) 2)) EmptyString))
  | [a] =>
    String (b64_char (Z.shiftr a 2)) (String (b64_char (Z.shiftl (Z.land a 3) 4)) EmptyString)
  | [] => EmptyString
  end.

(** The bytes of a text. *)
Fixpoint str_bytes (s : string) : list Z :=
  match s with
  | EmptyString => []
  | String c rest => code c :: str_bytes rest
  end.

Definition bytes_str (bytes : list Z) : string :=
  foldr (fun b s => String (ascii_of_N (Z.to_N b)) s) EmptyString bytes.

(** ** Decoding *)

(** The value of a character; [-] and [_] are translated to [+] and [/]. *)
Definition b64_value (c : ascii) : option Z :=
  if byte_in 65 90 c then Some (code c - 65)
  else if byte_in 97 122 c then Some (code c - 71)
  else if byte_in 48 57 c then Some (code c + 4)
  else if Ascii.eqb c "+" || Ascii.eqb c "-" then Some 62
  else if Ascii.eqb c "/" || Ascii.eqb c "_" then Some 63
  else None.

(** [binascii.a2b_base64] outside strict mode: [quad_pos] characters of a group were
    read, [left] holds the bits that are not yet in a byte, [pads] the padding seen. *)
Fixpoint a2b (quad_pos : nat) (left : Z) (pads : nat) (s : string) : option (list Z) :=
  match s with
  | EmptyString => if (quad_pos =? 0)%nat then Some [] else None
  | String c rest =>
    if Ascii.eqb c "=" then
      if (2 <=? quad_pos)%nat then
        if (4 <=? quad_pos + S pads)%nat then Some [] else a2b quad_pos left (S pads) rest
      else a2b quad_pos left pads rest
    else
      match b64_value c with
      | None => a2b quad_pos left pads rest
      | Some v =>
        match quad_pos with
        | 0%nat => a2b 1 v 0 rest
        | 1%nat => cons (Z.lor (Z.shiftl left 2) (Z.shiftr v 4)) <$> a2b 2 (Z.land v 15) 0 rest
        | 2%nat => cons (Z.lor (Z.shiftl left 4) (Z.shiftr v 2)) <$> a2b 3 (Z.land v 3) 0 rest
        | _ => cons (Z.lor (Z.shiftl left 6) v) <$> a2b 0 0 0 rest
        end
      end
  end.

(** [base64.urlsafe_b64decode(text)]: [None] is one of its [ValueError]s. *)
Definition urlsafe_b64decode (text : string) : option (list Z) :=
  if is_ascii text then a2b 0 0 0 text else None.

Fixpoint repeat_char (n : nat) (c : ascii) : string :=
  match n with O => EmptyString | S n => String c (repeat_char n c) end.

(** [text + "=" * (-len(text) % 4)]. *)
Definition b64_pad (text : string) : string :=
  (text +:+ repeat_char (Z.to_nat ((- char_len text) mod 4)) "="%char)%string.

(** ** The round trip *)

Abbreviation byte a := (0 <= a < 256).

Lemma str_bytes_byte s : Forall (fun b => byte b) (str_bytes s).
Proof.
  induction s as [|c s IH]; constructor; [|done]. unfold code. pose proof (N_ascii_bounded c). lia.
Qed.

Lemma bytes_str_bytes s : bytes_str (str_bytes s) = s.
Proof.
  induction s as [|c s IH]; [done|]. simpl. unfold code. rewrite N2Z.id, ascii_N_embedding. by f_equal.
Qed.

Lemma b64_char_spec i : 0 <= i < 64 ->
  b64_value (b64_char i) = Some i /\ Ascii.eqb (b64_char i) "=" = false /\ byte_in 0 127 (b64_char i) = true /\
  Ascii.eqb (b64_char i) "." = false /\ cont (b64_char i) = false.
Proof.
  intros Hi. set (ok := fun i => bool_decide (b64_value (b64_char i) = Some i) && negb (Ascii.eqb (b64_char i) "=") &&
    byte_in 0 127 (b64_char i) && negb (Ascii.eqb (b64_char i) ".") && negb (cont (b64_char i))).
  assert (Hok : ok i = true) by (apply (range_forall ok 64); [vm_compute; reflexivity|lia]).
  unfold ok in Hok. bool_prop. done.
Qed.

Lemma append_cons c s t : (String c s +:+ t)%string = String c (s +:+ t)%string.
Proof. done. Qed.

Lemma append_nil t : (EmptyString +:+ t)%string = t.
Proof. done. Qed.

Lemma a2b_char i q left pads rest : 0 <= i < 64 ->
  a2b q left pads (String (b64_char i) rest) =
  match q with
  | 0%nat => a2b 1 i 0 rest
  | 1%nat => cons (Z.lor (Z.shiftl left 2) (Z.shiftr i 4)) <$> a2b 2 (Z.land i 15) 0 rest
  | 2%nat => cons (Z.lor (Z.shiftl left 4) (Z.shiftr i 2)) <$> a2b 3 (Z.land i 3) 0 rest
  | _ => cons (Z.lor (Z.shiftl left 6) i) <$> a2b 0 0 0 rest
  end.
Proof. intros Hi. destruct (b64_char_spec i Hi) as (Hv & He & _). cbn [a2b]. by rewrite He, Hv. Qed.

(** The groups of two neighbouring bytes, and what the decoder makes of them. *)
Definition high_group (a b : Z) : Z := Z.lor (Z.shiftl (Z.land a 3) 4) (Z.shiftr b 4).
Definition low_group (a b : Z) : Z := Z.lor (Z.shiftl (Z.land a 15) 2) (Z.shiftr b 6).

Definition groups_ok (a b : Z) : bool :=
  (0 <=? Z.shiftr a 2) && (Z.shiftr a 2 <? 64) && (0 <=? Z.land a 63) && (Z.land a 63 <? 64) &&
  (0 <=? high_group a b) && (high_group a b <? 64) && (0 <=? low_group a b) && (low_group a b <? 64) &&
  (Z.lor (Z.shiftl (Z.shiftr a 2) 2) (Z.shiftr (high_group a b) 4) =? a) &&
  (Z.land (high_group a b) 15 =? Z.shiftr b 4) &&
  (Z.lor (Z.shiftl (Z.shiftr a 4) 4) (Z.shiftr (low_group a b) 2) =? a) &&
  (Z.land (low_group a b) 3 =? Z.shiftr b 6) &&
  (Z.lor (Z.shiftl (Z.shiftr a 6) 6) (Z.land a 63) =? a).

Lemma groups_all a b : byte a -> byte b -> groups_ok a b = true.
Proof.
  intros Ha Hb. apply (range_forall (fun b => groups_ok a b) 256); [|lia].
  apply (range_forall (fun a => forallb (fun b => groups_ok a b) (Z.of_nat <$> seq 0 256)) 256); [|lia].
  vm_compute. reflexivity.
Qed.

Record groups (a b : Z) : Prop := {
  g_1 : 0 <= Z.shiftr a 2 < 64;
  g_4 : 0 <= Z.land a 63 < 64;
  g_2 : 0 <= high_group a b < 64;
  g_3 : 0 <= low_group a b < 64;
  g_first : Z.lor (Z.shiftl (Z.shiftr a 2) 2) (Z.shiftr (high_group a b) 4) = a;
  g_high : Z.land (high_group a b) 15 = Z.shiftr b 4;
  g_second : Z.lor (Z.shiftl (Z.shiftr a 4) 4) (Z.shiftr (low_group a b) 2) = a;
  g_low : Z.land (low_group a b) 3 = Z.shiftr b 6;
  g_third : Z.lor (Z.shiftl (Z.shiftr a 6) 6) (Z.land a 63) = a;
}.

Lemma groups_of a b : byte a -> byte b -> groups a b.
Proof.
  intros Ha Hb. pose proof (groups_all a b Ha Hb) as Hg. unfold groups_ok in Hg. bool_prop. by split.
Qed.

(** A last group of one or two bytes is a full group with zero bytes. *)
Lemma high_group_last a : Z.shiftl (Z.land a 3) 4 = high_group a 0.
Proof. unfold high_group. by rewrite Z.shiftr_0_l, Z.lor_0_r. Qed.

Lemma low_group_last a : Z.shiftl (Z.land a 15) 2 = low_group a 0.
Proof. unfold low_group. by rewrite Z.shiftr_0_l, Z.lor_0_r. Qed.

(** Text whose length is that of [bytes] without padding, with the padding the decoder
    is given. *)
Definition padding (n : nat) : string := repeat_char (Z.to_nat ((- Z.of_nat n) mod 4)) "="%char.

Lemma padding_4 n : padding (S (S (S (S n)))) = padding n.
Proof. unfold padding. do 2 f_equal. Z.div_mod_to_equations. lia. Qed.

Lemma a2b_b64 l : Forall (fun b => byte b) l -> a2b 0 0 0 (b64 l +:+ padding (String.length (b64 l))) = Some l.
Proof.
  induction l as [l IH] using (induction_ltof1 _ (@length Z)). unfold ltof in IH. intros Hl.
  destruct l as [|a [|b [|c l]]]; repeat match goal with H : Forall _ (_ :: _) |- _ => apply Forall_cons in H as [? H] end;
    cbn [b64 String.length]; rewrite ?append_cons, ?append_nil.
  - done.
  - destruct (groups_of a 0) as []; [done|lia|]. rewrite high_group_last, !a2b_char by done.
    cbn -[Z.lor Z.shiftl Z.shiftr Z.land high_group low_group]. by rewrite g_first0.
  - destruct (groups_of a b) as []; [done..|]. destruct (groups_of b 0) as []; [done|lia|].
    rewrite low_group_last. fold (high_group a b). rewrite !a2b_char by done. rewrite g_high0.
    cbn -[Z.lor Z.shiftl Z.shiftr Z.land high_group low_group]. by rewrite g_first0, g_second1.
  - destruct (groups_of a b) as []; [done..|]. destruct (groups_of b c) as []; [done..|].
    destruct (groups_of c 0) as []; [done|lia|]. fold (high_group a b) (low_group b c). rewrite padding_4.
    rewrite !a2b_char by done. rewrite g_high0, g_low1, g_first0, g_second1, g_third2, IH; [done|simpl; lia|done].
Qed.

(** Properties of every character of the encoding. *)
Lemma b64_all (f : ascii -> bool) l :
  (forall i, 0 <= i < 64 -> f (b64_char i) = true) -> Forall (fun b => byte b) l -> string_all f (b64 l) = true.
Proof.
  intros Hf. induction l as [l IH] using (induction_ltof1 _ (@length Z)). unfold ltof in IH. intros Hl.
  destruct l as [|a [|b [|c l]]]; repeat match goal with H : Forall _ (_ :: _) |- _ => apply Forall_cons in H as [? H] end;
    cbn [b64 string_all].
  - done.
  - destruct (groups_of a 0) as []; [done|lia|]. rewrite high_group_last, !Hf by done. done.
  - destruct (groups_of a b) as []; [done..|]. destruct (groups_of b 0) as []; [done|lia|].
    rewrite low_group_last. fold (high_group a b). rewrite !Hf by done. done.
  - destruct (groups_of a b) as []; [done..|]. destruct (groups_of b c) as []; [done..|].
    destruct (groups_of c 0) as []; [done|lia|]. fold (high_group a b) (low_group b c).
    rewrite !Hf by done. apply IH; [simpl; lia|done].
Qed.

Lemma b64_ascii l : Forall (fun b => byte b) l -> is_ascii (b64 l) = true.
Proof. apply b64_all. intros i Hi. by destruct (b64_char_spec i Hi) as (_ & _ & ? & _). Qed.

Lemma char_len_plain s : string_all (fun c => negb (cont c)) s = true -> char_len s = Z.of_nat (String.length s).
Proof.
  induction s as [|c s IH]; [done|]. cbn [string_all char_len String.length]. intros [Hc Hs]%andb_true_iff.
  destruct (cont c); [done|]. rewrite IH by done. lia.
Qed.

Lemma padding_ascii n : is_ascii (repeat_char n "="%char) = true.
Proof. by induction n. Qed.

(** Decoding the padded encoding gives the bytes back. *)
Lemma b64decode_b64 l : Forall (fun b => byte b) l -> urlsafe_b64decode (b64_pad (b64 l)) = Some l.
Proof.
  intros Hl. unfold urlsafe_b64decode, b64_pad. rewrite char_len_plain.
  - unfold is_ascii. rewrite string_all_app. fold is_ascii. rewrite b64_ascii, padding_ascii by done. by apply a2b_b64.
  - apply b64_all; [|done]. intros i Hi. destruct (b64_char_spec i Hi) as (_ & _ & _ & _ & ->). done.
Qed.

Lemma b64_inj l l' : Forall (fun b => byte b) l -> Forall (fun b => byte b) l' -> b64 l = b64 l' -> l = l'.
Proof. intros Hl Hl' E. pose proof (b64decode_b64 l Hl) as H. rewrite E, b64decode_b64 in H by done. congruence. Qed.
