(* ===== verification/Tenant.v ===== *)
(** * Tenant and policy models

    The immutable models of [trpc_service/tenant/models.py]: the tenant context
    that is pinned to a turn, the configuration revision with its policies, and
    the channel binding, with the validators pydantic runs when one is built.
    Floats are rationals (every finite float is one); strings are sequences of
    8-bit characters, so [len] counts those. *)

From S2P Require Import Prelude.
From Stdlib Require Import QArith_base.
#[local] Close Scope Q_scope.
#[local] Open Scope Z_scope.

Inductive Channel : Type := WECOM_AI_BOT | FEISHU.

Inductive ConversationKind : Type := DIRECT | GROUP.

Inductive ToolRisk : Type := IDEMPOTENT | NON_IDEMPOTENT | UNKNOWN.

#[export] Instance Channel_eq_dec : EqDecision Channel.
Proof. solve_decision. Defined.
#[export] Instance ConversationKind_eq_dec : EqDecision ConversationKind.
Proof. solve_decision. Defined.
#[export] Instance ToolRisk_eq_dec : EqDecision ToolRisk.
Proof. solve_decision. Defined.

(** The [value] of the string enumerations. *)
Definition Channel_value (c : Channel) : string :=
  match c with WECOM_AI_BOT => "wecom_ai_bot" | FEISHU => "feishu" end.

Definition ConversationKind_value (k : ConversationKind) : string :=
  match k with DIRECT => "direct" | GROUP => "group" end.

Record TenantContext : Type := MkTenantContext {
  tc_tenant_id : string;
  tc_app_id : string;
  tc_config_version : Z;
  tc_channel_binding_id : string;
  tc_principal_id : string;
  tc_session_id : string;
  tc_request_id : string;
  tc_trace_id : string;
}.

Record ModelPolicy : Type := MkModelPolicy {
  mp_provider : string;
  mp_model : string;
  mp_api_key_ref : option string;
  mp_base_url : option string;
  mp_timeout_seconds : Q;
  mp_temperature : option Q;
  mp_top_p : option Q;
  mp_stop_sequences : list string;
  mp_reasoning_effort : option string;
  mp_thinking_budget_tokens : option Z;
  mp_fallback_model : option string;
}.

Record BudgetPolicy : Type := MkBudgetPolicy {
  bp_max_tokens_per_turn : Z;
  bp_monthly_cost_units : Z;
  bp_max_parallel_turns : Z;
}.

Record ToolPolicy : Type := MkToolPolicy {
  tp_allow : gset string;
  tp_require_confirmation : gset string;
  tp_classifications : gmap string ToolRisk;
}.

Record AuditPolicy : Type := MkAuditPolicy {
  ap_retention_days : Z;
  ap_record_content : bool;
}.

Record MediaPolicy : Type := MkMediaPolicy {
  media_enabled : bool;
  media_max_items_per_turn : Z;
  media_max_bytes_per_item : Z;
  media_max_total_bytes : Z;
  media_max_pdf_pages : Z;
  media_max_extracted_chars : Z;
  media_inline_images : bool;
}.

Record StorageSelection : Type := MkStorageSelection {
  st_profile_id : string;
  st_session_backend : string;
  st_memory_backend : string;
  st_artifact_backend : string;
  st_knowledge_backend : string;
}.

Record TenantConfig : Type := MkTenantConfig {
  cfg_tenant_id : string;
  cfg_app_id : string;
  cfg_version : Z;
  cfg_model : ModelPolicy;
  cfg_tools : ToolPolicy;
  cfg_budget : BudgetPolicy;
  cfg_audit : AuditPolicy;
  cfg_media : MediaPolicy;
  cfg_storage : StorageSelection;
  cfg_instructions : string;
  cfg_policy_version : Z;
  cfg_created_at : Z;
}.

Record ChannelBinding : Type := MkChannelBinding {
  cb_binding_id : string;
  cb_tenant_id : string;
  cb_app_id : string;
  cb_channel : Channel;
  cb_account_id : string;
  cb_secret_refs : gmap string string;
  cb_enabled : bool;
  cb_control_version : Z;
  cb_capabilities : gset string;
}.
