(* ===== verification/TenantRules.v ===== *)
(** * Validation of tenant configurations

    The field constraints and validators that pydantic runs when a model of
    [trpc_service/tenant/models.py] is built, as boolean tests: pydantic raises
    one [ValidationError] when any of them fails.  The URL splitter and the
    classification of IP addresses of Python's library are parameters; field
    types, defaults and the rejection of unknown fields are the typed records of
    [Tenant]. *)

From S2P Require Import Prelude PyText Tenant.
From Stdlib Require Import QArith Ascii.
#[local] Close Scope Q_scope.
#[local] Open Scope Z_scope.

(** ** Strings *)

Definition lower_char (c : ascii) : ascii :=
  let n := N_of_ascii c in
  if (65 <=? n)%N && (n <=? 90)%N then ascii_of_N (n + 32) else c.

(** [s.lower()] on ASCII text. *)
Fixpoint lower (s : string) : string :=
  match s with
  | EmptyString => EmptyString
  | String c rest => String (lower_char c) (lower rest)
  end.

(** [s.rstrip(".")]. *)
Fixpoint rstrip_dots (s : string) : string :=
  match s with
  | EmptyString => EmptyString
  | String c rest =>
    match rstrip_dots rest with
    | EmptyString => if Ascii.eqb c "."%char then EmptyString else String c EmptyString
    | rest' => String c rest'
    end
  end.

(** [s.endswith(suffix)]. *)
Fixpoint endswith (s suffix : string) : bool :=
  bool_decide (s = suffix) ||
  match s with
  | EmptyString => false
  | String _ rest => endswith rest suffix
  end.

(** ** Model endpoints *)

(** The parts of [urlsplit(value)] that are read; [sr_port] is [None] when
    reading the port raises. *)
Record SplitResult : Type := MkSplitResult {
  sr_scheme : string;
  sr_hostname : option string;
  sr_username : option string;
  sr_password : option string;
  sr_port : option (option Z);
  sr_query : string;
  sr_fragment : string;
}.

(** [urlsplit] ([None] when it raises) and, for a text that is an IP address,
    whether it is private, loopback, link-local, reserved, unspecified or
    multicast. *)
Class UrlLibrary : Type := {
  urlsplit : string -> option SplitResult;
  ip_address_special : string -> option bool;
}.

Definition _BLOCKED_MODEL_HOSTS : list string :=
  ["localhost"; "localhost.localdomain"; "metadata.google.internal"; "metadata.google.com";
   "instance-data.ec2.internal"]%string.

Definition is_none {A} (o : option A) : bool := match o with None => true | Some _ => false end.

Definition canonical_host (host : string) : string := rstrip_dots (lower host).

Section endpoints.
Context `{UrlLibrary}.

Definition port_ok (port : option (option Z)) : bool :=
  match port with
  | None => false
  | Some None => true
  | Some (Some p) => (1 <=? p) && (p <=? 65535)
  end.

Definition address_ok (text : string) : bool :=
  match ip_address_special text with Some special => negb special | None => false end.

Definition validate_model_base_url (value : string) (allowed_hosts resolved_addresses : option (list string))
    : bool :=
  (char_len value <=? 2048) &&
  match urlsplit value with
  | None => false
  | Some parsed =>
    let host := canonical_host (str_or (sr_hostname parsed) "") in
    bool_decide (lower (sr_scheme parsed) = "https"%string) && negb (str_empty host)
    && is_none (sr_username parsed) && is_none (sr_password parsed)
    && port_ok (sr_port parsed)
    && str_empty (sr_query parsed) && str_empty (sr_fragment parsed)
    && negb (bool_decide (host ∈ _BLOCKED_MODEL_HOSTS) || endswith host ".localhost")
    && match ip_address_special host with Some special => negb special | None => true end
    && match allowed_hosts with
       | None => true
       | Some hosts => bool_decide (host ∈ map canonical_host hosts)
       end
    && match resolved_addresses with
       | None => true
       | Some addresses => forallb address_ok addresses
       end
  end.
End endpoints.

(** ** Policies *)

Definition opt_ok {A} (f : A -> bool) (o : option A) : bool :=
  match o with None => true | Some a => f a end.

Definition between (lo x hi : Z) : bool := (lo <=? x) && (x <=? hi).

Definition REASONING_EFFORTS : list string :=
  ["none"; "minimal"; "low"; "medium"; "high"; "xhigh"; "max"]%string.

Section policies.
Context `{UrlLibrary}.

Definition ModelPolicy_ok (m : ModelPolicy) : bool :=
  let provider := lower (mp_provider m) in
  negb (Qle_bool (mp_timeout_seconds m) 0) && Qle_bool (mp_timeout_seconds m) 600
  && opt_ok (fun t => Qle_bool 0 t && Qle_bool t 2) (mp_temperature m)
  && opt_ok (fun p => Qle_bool 0 p && Qle_bool p 1) (mp_top_p m)
  && (Z.of_nat (length (mp_stop_sequences m)) <=? 8)
  && opt_ok (fun r => bool_decide (r ∈ REASONING_EFFORTS)) (mp_reasoning_effort m)
  && opt_ok (fun url => validate_model_base_url url None None) (mp_base_url m)
  && forallb (fun item => negb (str_empty item) && (char_len item <=? 256)) (mp_stop_sequences m)
  && opt_ok (fun b => (b =? -1) || (b =? 0) || (1024 <=? b)) (mp_thinking_budget_tokens m)
  && (is_none (mp_reasoning_effort m) || bool_decide (provider = "openai"%string))
  && (is_none (mp_thinking_budget_tokens m)
      || bool_decide (provider = "openai"%string) || bool_decide (provider = "anthropic"%string))
  && (is_none (mp_reasoning_effort m) || is_none (mp_thinking_budget_tokens m)).
End policies.

Definition BudgetPolicy_ok (b : BudgetPolicy) : bool :=
  (1 <=? bp_max_tokens_per_turn b) && (0 <=? bp_monthly_cost_units b) && (1 <=? bp_max_parallel_turns b).

Definition AuditPolicy_ok (a : AuditPolicy) : bool :=
  between 1 (ap_retention_days a) 3650 && negb (ap_record_content a).

Definition MediaPolicy_ok (m : MediaPolicy) : bool :=
  between 1 (media_max_items_per_turn m) 16
  && between 1024 (media_max_bytes_per_item m) (100 * 1024 * 1024)
  && between 1024 (media_max_total_bytes m) (200 * 1024 * 1024)
  && between 1 (media_max_pdf_pages m) 500
  && between 256 (media_max_extracted_chars m) 500000.

Definition _REGISTERED_BACKENDS : list string :=
  ["inmemory"; "redis"; "postgresql"; "s3"; "pgvector"; "external_memory"]%string.

Definition validate_storage_backend (value : string) (registered : option (list string)) : bool :=
  bool_decide (value ∈ default _REGISTERED_BACKENDS registered).

Definition StorageSelection_ok (s : StorageSelection) : bool :=
  forallb (fun b => validate_storage_backend b None)
    [st_session_backend s; st_memory_backend s; st_artifact_backend s; st_knowledge_backend s].

(** [ProductionStorageSelection.model_validate]. *)
Definition ProductionStorageSelection_ok (s : StorageSelection) : bool :=
  StorageSelection_ok s
  && bool_decide (st_session_backend s = "postgresql"%string)
  && bool_decide (st_memory_backend s = "postgresql"%string)
  && bool_decide (st_artifact_backend s = "s3"%string)
  && bool_decide (st_knowledge_backend s = "pgvector"%string).

Definition token_budget_ok (c : TenantConfig) : bool :=
  match mp_thinking_budget_tokens (cfg_model c) with
  | Some b => negb ((0 <? b) && (bp_max_tokens_per_turn (cfg_budget c) <=? b))
  | None => true
  end.

Definition TenantConfig_ok `{UrlLibrary} (c : TenantConfig) : bool :=
  (1 <=? cfg_version c) && ModelPolicy_ok (cfg_model c) && BudgetPolicy_ok (cfg_budget c)
  && AuditPolicy_ok (cfg_audit c) && MediaPolicy_ok (cfg_media c)
  && StorageSelection_ok (cfg_storage c) && (1 <=? cfg_policy_version c) && token_budget_ok c.

Definition SECRET_NAMES : list string :=
  ["app_secret"; "verification_token"; "encrypt_key"; "bot_secret"]%string.

Definition ChannelBinding_ok (b : ChannelBinding) : bool :=
  between 1 (char_len (cb_account_id b)) 256 && (1 <=? cb_control_version b)
  && forallb (fun kv => bool_decide (kv.1 ∈ SECRET_NAMES)) (map_to_list (cb_secret_refs b)).
