(* ===== verification/Models.v ===== *)
(** * Runtime records

    The persistence-neutral records of [trpc_service/storage/models.py] and the
    provider-neutral envelopes of [trpc_service/channels/envelopes.py].
    Timestamps ([datetime]) and durations ([timedelta]) are microseconds.
    [make_X] is the constructor call of a model whose field constraints can fail
    at a call site: it raises [ValidationError] before anything is built. *)

From S2P Require Import Prelude PyText Tenant.
From Stdlib Require Import QArith_base.
#[local] Close Scope Q_scope.
#[local] Open Scope Z_scope.

(** ** Envelopes *)

Inductive PayloadKind : Type := TEXT | IMAGE | FILE | VIDEO | VOICE | MIXED | EVENT.

Inductive DeliveryStatus : Type := DELIVERED | FAILED | AMBIGUOUS.

#[export] Instance DeliveryStatus_eq_dec : EqDecision DeliveryStatus.
Proof. solve_decision. Defined.

Definition DeliveryStatus_value (s : DeliveryStatus) : string :=
  match s with DELIVERED => "delivered" | FAILED => "failed" | AMBIGUOUS => "ambiguous" end.

Record MediaReference : Type := MkMediaReference {
  mr_provider_url : option string;
  mr_provider_media_id : option string;
  mr_encryption_key_ref : option string;
  mr_filename : option string;
  mr_content_type : option string;
}.

Record InboundEnvelope : Type := MkInboundEnvelope {
  ie_channel : Channel;
  ie_account_id : string;
  ie_external_message_id : string;
  ie_external_user_id : string;
  ie_conversation_kind : ConversationKind;
  ie_external_conversation_id : option string;
  ie_payload_kind : PayloadKind;
  ie_text : option string;
  ie_media : list MediaReference;
  ie_event_type : option string;
  ie_occurred_at : Z;
  ie_provider_metadata : gmap string pyval;
}.

Record OutboundEnvelope : Type := MkOutboundEnvelope {
  oe_outbound_id : string;
  oe_tenant_id : string;
  oe_binding_id : string;
  oe_channel : Channel;
  oe_target_id : string;
  oe_session_id : string;
  oe_payload_kind : PayloadKind;
  oe_text : option string;
  oe_media : list MediaReference;
  oe_in_reply_to : option string;
  oe_trace_headers : gmap string string;
}.

Record DeliveryReceipt : Type := MkDeliveryReceipt {
  dr_outbound_id : string;
  dr_status : DeliveryStatus;
  dr_provider_message_id : option string;
  dr_provider_code : option string;
  dr_retryable : bool;
  dr_retry_after_seconds : option Q;
  dr_attempts : Z;
}.

#[export] Instance DeliveryReceipt_settable : Settable DeliveryReceipt := fun r =>
  MkDeliveryReceipt (dr_outbound_id r) (dr_status r) (dr_provider_message_id r)
    (dr_provider_code r) (dr_retryable r) (dr_retry_after_seconds r) (dr_attempts r).

(** ** Inbound acceptance and sessions *)

Record BindingRoute : Type := MkBindingRoute {
  br_binding : ChannelBinding;
  br_tenant_active : bool;
  br_active_config_version : Z;
  br_candidate_config_version : option Z;
  br_candidate_percent : Q;
}.

Record Acceptance : Type := MkAcceptance {
  acc_inbound_id : string;
  acc_context : TenantContext;
  acc_envelope : InboundEnvelope;
  acc_accepted_at : Z;
  acc_duplicate : bool;
}.

#[export] Instance Acceptance_settable : Settable Acceptance := fun r =>
  MkAcceptance (acc_inbound_id r) (acc_context r) (acc_envelope r) (acc_accepted_at r)
    (acc_duplicate r).

Record StoredEvent : Type := MkStoredEvent {
  se_event_id : string;
  se_author : string;
  se_timestamp : Q;
  se_event : gmap string pyval;
  se_state_delta : gmap string pyval;
}.

(** [SequencedEvent(StoredEvent)]: the subclass adds the sequence number. *)
Record SequencedEvent : Type := MkSequencedEvent {
  sq_base : StoredEvent;
  sq_sequence : Z;
}.

Record SessionSnapshot : Type := MkSessionSnapshot {
  ss_tenant_id : string;
  ss_app_id : string;
  ss_session_id : string;
  ss_principal_id : string;
  ss_version : Z;
  ss_next_sequence : Z;
  ss_state : gmap string pyval;
  ss_events : list SequencedEvent;
}.

#[export] Instance SessionSnapshot_settable : Settable SessionSnapshot := fun r =>
  MkSessionSnapshot (ss_tenant_id r) (ss_app_id r) (ss_session_id r) (ss_principal_id r)
    (ss_version r) (ss_next_sequence r) (ss_state r) (ss_events r).

(** [SessionSnapshot(tenant_id=..., app_id=..., session_id=..., principal_id=...)]
    with its defaults. *)
Definition new_snapshot (tenant_id app_id session_id principal_id : string) : SessionSnapshot :=
  MkSessionSnapshot tenant_id app_id session_id principal_id 0 1 ∅ [].

Record SessionLease : Type := MkSessionLease {
  sl_tenant_id : string;
  sl_session_id : string;
  sl_turn_id : string;
  sl_inbound_id : string;
  sl_worker_id : string;
  sl_fencing_token : Z;
  sl_expires_at : Z;
  sl_attempt : Z;
  sl_snapshot : SessionSnapshot;
  sl_snapshot_hydrated : bool;
}.

#[export] Instance SessionLease_settable : Settable SessionLease := fun r =>
  MkSessionLease (sl_tenant_id r) (sl_session_id r) (sl_turn_id r) (sl_inbound_id r)
    (sl_worker_id r) (sl_fencing_token r) (sl_expires_at r) (sl_attempt r)
    (sl_snapshot r) (sl_snapshot_hydrated r).

(** [SessionLease(...)]: [fencing_token] and [attempt] are [ge=1]. *)
Definition make_SessionLease {S} (tenant_id session_id turn_id inbound_id worker_id : string)
    (fencing_token expires_at attempt : Z) (snapshot : SessionSnapshot) : M S SessionLease :=
  raise_if ((fencing_token <? 1) || (attempt <? 1)) (ValidationError "SessionLease") ;;
  ret (MkSessionLease tenant_id session_id turn_id inbound_id worker_id fencing_token
         expires_at attempt snapshot true).

(** ** The session mailbox *)

Inductive MailboxStatus : Type := IDLE | QUEUED | RUNNING | RETRY_WAIT.

Inductive MailboxClaimStatus : Type := CLAIMED | STALE | CLAIM_RUNNING | EMPTY.

#[export] Instance MailboxStatus_eq_dec : EqDecision MailboxStatus.
Proof. solve_decision. Defined.
#[export] Instance MailboxClaimStatus_eq_dec : EqDecision MailboxClaimStatus.
Proof. solve_decision. Defined.

Record SessionMailbox : Type := MkSessionMailbox {
  mb_tenant_id : string;
  mb_session_id : string;
  mb_status : MailboxStatus;
  mb_accepted_sequence : Z;
  mb_resolved_sequence : Z;
  mb_processing_sequence : option Z;
  mb_processing_inbound_id : option string;
  mb_queue_generation : Z;
  mb_lease_owner : option string;
  mb_lease_epoch : Z;
  mb_lease_expires_at : option Z;
  mb_retry_count : Z;
  mb_attempt : Z;
  mb_priority : Z;
  mb_retry_at : option Z;
  mb_updated_at : Z;
}.

#[export] Instance SessionMailbox_settable : Settable SessionMailbox := fun r =>
  MkSessionMailbox (mb_tenant_id r) (mb_session_id r) (mb_status r) (mb_accepted_sequence r)
    (mb_resolved_sequence r) (mb_processing_sequence r) (mb_processing_inbound_id r)
    (mb_queue_generation r) (mb_lease_owner r) (mb_lease_epoch r) (mb_lease_expires_at r)
    (mb_retry_count r) (mb_attempt r) (mb_priority r) (mb_retry_at r) (mb_updated_at r).

(** [SessionMailbox(tenant_id=..., session_id=..., updated_at=...)] with its
    defaults. *)
Definition new_mailbox (tenant_id session_id : string) (updated_at : Z) : SessionMailbox :=
  MkSessionMailbox tenant_id session_id IDLE 0 0 None None 0 None 0 None 0 0 0 None updated_at.

Record MailboxItem : Type := MkMailboxItem {
  mi_tenant_id : string;
  mi_session_id : string;
  mi_inbound_id : string;
  mi_sequence : Z;
  mi_trace_id : string;
  mi_priority : Z;
  mi_retry_count : Z;
  mi_attempt : Z;
  mi_retry_at : option Z;
  mi_accepted_at : Z;
}.

#[export] Instance MailboxItem_settable : Settable MailboxItem := fun r =>
  MkMailboxItem (mi_tenant_id r) (mi_session_id r) (mi_inbound_id r) (mi_sequence r)
    (mi_trace_id r) (mi_priority r) (mi_retry_count r) (mi_attempt r) (mi_retry_at r)
    (mi_accepted_at r).

(** [MailboxItem(...)]: [sequence >= 1], [len(trace_id) <= 512] and the counters
    are non-negative. *)
Definition make_MailboxItem {S} (tenant_id session_id inbound_id : string) (sequence : Z)
    (trace_id : string) (priority retry_count attempt : Z) (retry_at : option Z)
    (accepted_at : Z) : M S MailboxItem :=
  raise_if ((sequence <? 1) || (512 <? char_len trace_id) || (priority <? 0)
            || (retry_count <? 0) || (attempt <? 0)) (ValidationError "MailboxItem") ;;
  ret (MkMailboxItem tenant_id session_id inbound_id sequence trace_id priority retry_count
         attempt retry_at accepted_at).

Record MailboxLease : Type := MkMailboxLease {
  ml_tenant_id : string;
  ml_session_id : string;
  ml_inbound_id : string;
  ml_sequence : Z;
  ml_owner_id : string;
  ml_epoch : Z;
  ml_expires_at : Z;
  ml_attempt : Z;
  ml_retry_count : Z;
  ml_priority : Z;
}.

#[export] Instance MailboxLease_settable : Settable MailboxLease := fun r =>
  MkMailboxLease (ml_tenant_id r) (ml_session_id r) (ml_inbound_id r) (ml_sequence r)
    (ml_owner_id r) (ml_epoch r) (ml_expires_at r) (ml_attempt r) (ml_retry_count r)
    (ml_priority r).

(** [MailboxLease(...)]: [sequence], [epoch] and [attempt] are [ge=1], the other
    counters [ge=0]. *)
Definition make_MailboxLease {S} (tenant_id session_id inbound_id : string) (sequence : Z)
    (owner_id : string) (epoch expires_at attempt retry_count priority : Z) : M S MailboxLease :=
  raise_if ((sequence <? 1) || (epoch <? 1) || (attempt <? 1) || (retry_count <? 0)
            || (priority <? 0)) (ValidationError "MailboxLease") ;;
  ret (MkMailboxLease tenant_id session_id inbound_id sequence owner_id epoch expires_at
         attempt retry_count priority).

Record SessionClaim : Type := MkSessionClaim {
  sc_status : MailboxClaimStatus;
  sc_mailbox : SessionMailbox;
  sc_lease : option MailboxLease;
  sc_acceptance : option Acceptance;
  sc_execution_lease : option SessionLease;
}.

#[export] Instance SessionClaim_settable : Settable SessionClaim := fun r =>
  MkSessionClaim (sc_status r) (sc_mailbox r) (sc_lease r) (sc_acceptance r)
    (sc_execution_lease r).

(** [SessionClaim.claimed]. *)
Definition claimed (c : SessionClaim) : bool := bool_decide (sc_status c = CLAIMED).

(** ** Turn commits and the outbox *)

Record TurnCommit : Type := MkTurnCommit {
  tn_context : TenantContext;
  tn_lease : SessionLease;
  tn_state : gmap string pyval;
  tn_events : list StoredEvent;
  tn_outbound : option OutboundEnvelope;
}.

Record CommitResult : Type := MkCommitResult {
  cr_turn_id : string;
  cr_first_sequence : option Z;
  cr_last_sequence : option Z;
  cr_outbound_id : option string;
}.

Record OutboxRecord : Type := MkOutboxRecord {
  ob_outbox_id : string;
  ob_tenant_id : string;
  ob_event_type : string;
  ob_aggregate_id : string;
  ob_payload : gmap string pyval;
  ob_trace_headers : gmap string string;
  ob_attempts : Z;
}.

#[export] Instance OutboxRecord_settable : Settable OutboxRecord := fun r =>
  MkOutboxRecord (ob_outbox_id r) (ob_tenant_id r) (ob_event_type r) (ob_aggregate_id r)
    (ob_payload r) (ob_trace_headers r) (ob_attempts r).

Record DeliveryAttempt : Type := MkDeliveryAttempt {
  da_tenant_id : string;
  da_outbound_id : string;
  da_attempt_number : Z;
  da_owner_id : string;
}.
