(* ===== verification/Mailbox.v ===== *)
(** * The session mailbox store

    [InMemorySessionMailboxStore] of [trpc_service/storage/mailbox.py]: the
    authority for ordering, ownership and recovery of one session's accepted
    messages.  Every method is one atomic step of the state monad: the per-key
    [asyncio.Lock] is taken without contention because no method awaits anything
    that suspends while it holds the lock.  [now=None] reads the clock of the
    environment, [now=t] uses [t], as [_now] does. *)

From S2P Require Import Prelude Tenant Models.
#[local] Open Scope Z_scope.

Abbreviation session_key := (string * string)%type.

(** The attributes of the store.  [_mailboxes] is iterated by the recovery
    sweeps, so its insertion order is kept; [_items] is a [defaultdict(dict)]. *)
Record MailboxStore : Type := MkMailboxStore {
  ms_mailboxes : odict session_key SessionMailbox;
  ms_items : gmap session_key (gmap Z MailboxItem);
  ms_outbox : list OutboxRecord;
}.

#[export] Instance MailboxStore_settable : Settable MailboxStore := fun r =>
  MkMailboxStore (ms_mailboxes r) (ms_items r) (ms_outbox r).

Definition empty_store : MailboxStore := MkMailboxStore [] ∅ [].

(** [_RECONCILE_READY_GRACE = timedelta(seconds=5)]. *)
Definition RECONCILE_READY_GRACE : Z := 5 * 1000000.

Definition SESSION_READY_V2 : string := "session.ready.v2".

(** ** Module-level helpers *)

Definition items_of (key : session_key) (s : MailboxStore) : gmap Z MailboxItem :=
  default ∅ (ms_items s !! key).

Definition put_mailbox (key : session_key) (mb : SessionMailbox) : M MailboxStore unit :=
  modify (fun s => s <| ms_mailboxes := dset key mb (ms_mailboxes s) |>).

Definition put_item (key : session_key) (sequence : Z) (it : MailboxItem) : M MailboxStore unit :=
  modify (fun s => s <| ms_items := <[key := <[sequence := it]> (items_of key s)]> (ms_items s) |>).

Definition _validate_lease_for {S} (lease_for : Z) : M S unit :=
  raise_if (lease_for <=? 0) (ValueError "mailbox lease must be positive").

Definition _validate_priority {S} (priority : Z) : M S unit :=
  raise_if (priority <? 0) (ValueError "mailbox priority must be non-negative").

Definition _validate_ids {S} (values : list string) : M S unit :=
  raise_if (existsb str_empty values) (ValueError "mailbox identifiers must be non-empty").

Definition _owns (mailbox : option SessionMailbox) (lease : MailboxLease) (now : Z) : bool :=
  match mailbox with
  | None => false
  | Some mb =>
      bool_decide (mb_status mb = RUNNING)
      && bool_decide (mb_processing_sequence mb = Some (ml_sequence lease))
      && bool_decide (mb_processing_inbound_id mb = Some (ml_inbound_id lease))
      && bool_decide (mb_lease_owner mb = Some (ml_owner_id lease))
      && (mb_lease_epoch mb =? ml_epoch lease)
      && after (mb_lease_expires_at mb) now
  end.

Definition _ready_status (mailbox : SessionMailbox) (resolved_sequence now : Z) : MailboxStatus :=
  if mb_accepted_sequence mailbox <=? resolved_sequence then IDLE
  else if after (mb_retry_at mailbox) now then RETRY_WAIT
  else QUEUED.

(** [any(item.inbound_id == inbound_id for item in items.values())]. *)
Definition has_inbound (inbound_id : string) (items : gmap Z MailboxItem) : bool :=
  existsb (fun kv => bool_decide (mi_inbound_id kv.2 = inbound_id)) (map_to_list items).

(** A wake-up record of this mailbox for one generation. *)
Definition is_ready_record (tenant_id session_id : string) (generation : Z)
    (r : OutboxRecord) : bool :=
  bool_decide (ob_event_type r = SESSION_READY_V2)
  && bool_decide (ob_tenant_id r = tenant_id)
  && bool_decide (ob_aggregate_id r = session_id)
  && py_eq_int (py_get "generation" (ob_payload r)) generation.

Section store.
Context `{Env}.

(** What [_now value] reads, and the effects it leaves. *)
Definition now_value (value : option Z) (e : effects) : Z :=
  match value with Some t => t | None => clock_at (ticks e) end.
Definition now_effects (value : option Z) (e : effects) : effects :=
  match value with Some _ => e | None => Effects (uuids e) (Datatypes.S (ticks e)) end.

Definition _now {S} (value : option Z) : M S Z :=
  match value with Some t => ret t | None => datetime_now end.

(** ** Wake-up records *)

Definition ready_payload (item : MailboxItem) (now generation : Z) : gmap string pyval :=
  <["generation" := PInt generation]>
  (<["priority" := PInt (mi_priority item)]>
  (<["trace_id" := PStr (str_or (Some (mi_trace_id item)) (mi_inbound_id item))]>
  (<["created_at" := PTime now]> ∅))).

Definition _append_ready (mailbox : SessionMailbox) (item : MailboxItem) (now generation : Z)
    : M MailboxStore SessionMailbox :=
  let* outbox_id := uuid4 in
  modify (fun s => s <| ms_outbox := ms_outbox s ++
    [MkOutboxRecord outbox_id (mb_tenant_id mailbox) SESSION_READY_V2 (mb_session_id mailbox)
       (ready_payload item now generation) ∅ 0] |>) ;;
  ret mailbox.

Definition _emit_ready (mailbox : SessionMailbox) (item : MailboxItem) (now : Z)
    : M MailboxStore SessionMailbox :=
  let generation := mb_queue_generation mailbox + 1 in
  let updated := mailbox <| mb_queue_generation := generation |> in
  _append_ready updated item now generation.

Definition _requeue_ready (mailbox : SessionMailbox) (item : MailboxItem) (now : Z)
    : M MailboxStore SessionMailbox :=
  let generation := Z.max 1 (mb_queue_generation mailbox) in
  let updated := mailbox <| mb_queue_generation := generation |> in
  let* has_record := gets (fun s =>
    existsb (is_ready_record (mb_tenant_id mailbox) (mb_session_id mailbox) generation)
      (ms_outbox s)) in
  if negb has_record then _append_ready updated item now generation else ret updated.

Definition _ensure_mailbox (key : session_key) (now : Z) : M MailboxStore SessionMailbox :=
  let mailbox := new_mailbox key.1 key.2 now in
  put_mailbox key mailbox ;;
  ret mailbox.

Definition _require_owned (key : session_key) (lease : MailboxLease) (now : Z)
    : M MailboxStore SessionMailbox :=
  let* mailbox := gets (fun s => dget key (ms_mailboxes s)) in
  match mailbox with
  | Some mb =>
      raise_if (negb (_owns (Some mb) lease now))
        (FencingConflict "mailbox lease is no longer current") ;;
      ret mb
  | None => raise (FencingConflict "mailbox lease is no longer current")
  end.

(** ** Reading and accepting *)

Definition get (tenant_id session_id : string) : M MailboxStore (option SessionMailbox) :=
  gets (fun s => dget (tenant_id, session_id) (ms_mailboxes s)).

(** The status and head timer of a mailbox that has just accepted an item. *)
Definition accepted_status (mailbox : SessionMailbox) (retry_at : option Z) (current_time : Z)
    : MailboxStatus * option Z :=
  let previous_status := mb_status mailbox in
  let current_head_waiting :=
    bool_decide (previous_status = RETRY_WAIT) && after (mb_retry_at mailbox) current_time in
  match previous_status with
  | RETRY_WAIT =>
      if current_head_waiting then (RETRY_WAIT, mb_retry_at mailbox) else (QUEUED, None)
  | IDLE => if after retry_at current_time then (RETRY_WAIT, retry_at) else (QUEUED, None)
  | _ => (previous_status, mb_retry_at mailbox)
  end.

(** The second half of [accept]: append a new item to [mailbox]. *)
Definition accept_item (key : session_key) (mailbox : SessionMailbox) (inbound_id : string)
    (priority : Z) (retry_at : option Z) (trace_id : option string) (current_time : Z)
    : M MailboxStore SessionMailbox :=
  let sequence := mb_accepted_sequence mailbox + 1 in
  let* item := make_MailboxItem key.1 key.2 inbound_id sequence
                 (str_or trace_id inbound_id) priority 0 0 retry_at current_time in
  put_item key sequence item ;;
  let previous_status := mb_status mailbox in
  let '(status, effective_retry_at) := accepted_status mailbox retry_at current_time in
  let updated := mailbox
    <| mb_status := status |>
    <| mb_accepted_sequence := sequence |>
    <| mb_priority := Z.max (mb_priority mailbox) priority |>
    <| mb_retry_at := effective_retry_at |>
    <| mb_updated_at := current_time |> in
  let* updated :=
    if (bool_decide (previous_status = IDLE) || bool_decide (previous_status = RETRY_WAIT))
       && bool_decide (status = QUEUED)
    then _emit_ready updated item current_time
    else ret updated in
  put_mailbox key updated ;;
  ret updated.

Definition accept (tenant_id session_id inbound_id : string) (priority : Z)
    (retry_at : option Z) (trace_id : option string) (now : option Z)
    : M MailboxStore SessionMailbox :=
  _validate_ids [tenant_id; session_id; inbound_id] ;;
  _validate_priority priority ;;
  let* current_time := _now now in
  let key := (tenant_id, session_id) in
  let* mailbox := gets (fun s => dget key (ms_mailboxes s)) in
  let* items := gets (items_of key) in
  if has_inbound inbound_id items then
    match mailbox with
    | Some mb => ret mb
    | None => _ensure_mailbox key current_time
    end
  else
    let* mailbox :=
      match mailbox with
      | Some mb => ret mb
      | None => _ensure_mailbox key current_time
      end in
    accept_item key mailbox inbound_id priority retry_at trace_id current_time.

(** ** Claiming *)

Definition claim (tenant_id session_id owner_id : string) (lease_for : Z) (now : option Z)
    : M MailboxStore (option MailboxLease) :=
  _validate_ids [tenant_id; session_id; owner_id] ;;
  _validate_lease_for lease_for ;;
  let* current_time := _now now in
  let key := (tenant_id, session_id) in
  let* mailbox := gets (fun s => dget key (ms_mailboxes s)) in
  match mailbox with
  | None => ret None
  | Some mailbox =>
    if after (mb_lease_expires_at mailbox) current_time then ret None
    else
      let* sequence :=
        match mb_processing_sequence mailbox with
        | Some sequence => ret (Some sequence)
        | None =>
          if mb_accepted_sequence mailbox <=? mb_resolved_sequence mailbox then
            put_mailbox key (mailbox <| mb_status := IDLE |> <| mb_updated_at := current_time |>) ;;
            ret None
          else
            let sequence := mb_resolved_sequence mailbox + 1 in
            let* item := gets (fun s => items_of key s !! sequence) in
            match item with
            | None => ret None
            | Some item =>
              if after (mi_retry_at item) current_time then
                put_mailbox key (mailbox
                  <| mb_status := RETRY_WAIT |>
                  <| mb_retry_at := mi_retry_at item |>
                  <| mb_updated_at := current_time |>) ;;
                ret None
              else ret (Some sequence)
            end
        end in
      match sequence with
      | None => ret None
      | Some sequence =>
        let* item := gets (fun s => items_of key s !! sequence) in
        match item with
        | None => ret None
        | Some item =>
          let epoch := mb_lease_epoch mailbox + 1 in
          let expires_at := current_time + lease_for in
          let attempt := mi_attempt item + 1 in
          put_item key sequence (item <| mi_attempt := attempt |>) ;;
          put_mailbox key (mailbox
            <| mb_status := RUNNING |>
            <| mb_processing_sequence := Some sequence |>
            <| mb_processing_inbound_id := Some (mi_inbound_id item) |>
            <| mb_lease_owner := Some owner_id |>
            <| mb_lease_epoch := epoch |>
            <| mb_lease_expires_at := Some expires_at |>
            <| mb_attempt := attempt |>
            <| mb_retry_count := mi_retry_count item |>
            <| mb_priority := mi_priority item |>
            <| mb_retry_at := mi_retry_at item |>
            <| mb_updated_at := current_time |>) ;;
          let* lease := make_MailboxLease tenant_id session_id (mi_inbound_id item) sequence
                          owner_id epoch expires_at attempt (mi_retry_count item)
                          (mi_priority item) in
          ret (Some lease)
        end
      end
  end.

Definition claim_session (tenant_id session_id owner_id : string) (lease_for : Z)
    (expected_generation expected_epoch : option Z) (acceptance : option Acceptance)
    (now : option Z) : M MailboxStore SessionClaim :=
  let* current_time := _now now in
  let expected_generation :=
    match expected_generation with None => expected_epoch | Some g => Some g end in
  let* before := get tenant_id session_id in
  let* before :=
    match before with
    | Some mb => ret mb
    | None => let* t := datetime_now in ret (new_mailbox tenant_id session_id t)
    end in
  let stale mb :=
    match expected_generation with
    | Some g => negb (mb_queue_generation mb =? g)
    | None => false
    end in
  if stale before then ret (MkSessionClaim STALE before None acceptance None)
  else
    let* lease := claim tenant_id session_id owner_id lease_for (Some current_time) in
    let* mailbox := get tenant_id session_id in
    let mailbox := default before mailbox in
    match lease with
    | Some lease => ret (MkSessionClaim CLAIMED mailbox (Some lease) acceptance None)
    | None =>
      if after (mb_lease_expires_at mailbox) current_time then
        ret (MkSessionClaim CLAIM_RUNNING mailbox None acceptance None)
      else if stale mailbox then ret (MkSessionClaim STALE mailbox None acceptance None)
      else ret (MkSessionClaim EMPTY mailbox None acceptance None)
    end.

(** ** Fenced transitions *)

Definition renew (lease : MailboxLease) (lease_for : Z) (now : option Z)
    : M MailboxStore MailboxLease :=
  _validate_lease_for lease_for ;;
  let* current_time := _now now in
  let key := (ml_tenant_id lease, ml_session_id lease) in
  let* mailbox := _require_owned key lease current_time in
  match mb_lease_expires_at mailbox with
  | None => raise (RuntimeError "AssertionError")
  | Some lease_expires_at =>
    let expires_at := Z.max (current_time + lease_for) (lease_expires_at + 1) in
    put_mailbox key (mailbox
      <| mb_lease_expires_at := Some expires_at |> <| mb_updated_at := current_time |>) ;;
    ret (lease <| ml_expires_at := expires_at |>)
  end.

Fixpoint renew_many (leases : list MailboxLease) (lease_for : Z) (now : option Z)
    : M MailboxStore (list MailboxLease) :=
  match leases with
  | [] => ret []
  | lease :: rest =>
    let* renewed := renew lease lease_for now in
    let* others := renew_many rest lease_for now in
    ret (renewed :: others)
  end.

Definition commit (lease : MailboxLease) (now : option Z) : M MailboxStore SessionMailbox :=
  let* current_time := _now now in
  let key := (ml_tenant_id lease, ml_session_id lease) in
  let* mailbox := _require_owned key lease current_time in
  raise_if (negb (bool_decide (mb_processing_sequence mailbox = Some (ml_sequence lease))))
    (FencingConflict "mailbox sequence is no longer current") ;;
  let* next_item := gets (fun s => items_of key s !! (ml_sequence lease + 1)) in
  let resolved := mailbox
    <| mb_resolved_sequence := ml_sequence lease |>
    <| mb_processing_sequence := None |>
    <| mb_processing_inbound_id := None |>
    <| mb_lease_owner := None |>
    <| mb_lease_expires_at := None |>
    <| mb_status := _ready_status mailbox (ml_sequence lease) current_time |>
    <| mb_retry_at := None |>
    <| mb_updated_at := current_time |> in
  let* resolved :=
    match next_item with
    | Some next_item =>
      if after (mi_retry_at next_item) current_time then
        ret (resolved <| mb_status := RETRY_WAIT |> <| mb_retry_at := mi_retry_at next_item |>)
      else _emit_ready (resolved <| mb_status := QUEUED |>) next_item current_time
    | None => ret resolved
    end in
  put_mailbox key resolved ;;
  ret resolved.

Definition _release (lease : MailboxLease) (retry_at : option Z) (priority : option Z)
    (increment_retry : bool) (now : option Z) (emit_ready : bool)
    : M MailboxStore SessionMailbox :=
  let* current_time := _now now in
  match priority with Some p => _validate_priority p | None => ret tt end ;;
  let key := (ml_tenant_id lease, ml_session_id lease) in
  let* mailbox := _require_owned key lease current_time in
  raise_if (negb (bool_decide (mb_processing_sequence mailbox = Some (ml_sequence lease))))
    (FencingConflict "mailbox sequence is no longer current") ;;
  let* item := gets (fun s => items_of key s !! ml_sequence lease) in
  match item with
  | None => raise KeyError
  | Some item =>
    let retries := mi_retry_count item + (if increment_retry then 1 else 0) in
    let updated_item := item
      <| mi_retry_count := retries |>
      <| mi_retry_at := retry_at |>
      <| mi_priority := default (mi_priority item) priority |> in
    put_item key (ml_sequence lease) updated_item ;;
    let status := _ready_status (mailbox <| mb_retry_at := retry_at |>)
                    (mb_resolved_sequence mailbox) current_time in
    let status := if negb emit_ready then RETRY_WAIT else status in
    let updated := mailbox
      <| mb_status := status |>
      <| mb_processing_sequence := None |>
      <| mb_processing_inbound_id := None |>
      <| mb_lease_owner := None |>
      <| mb_lease_expires_at := None |>
      <| mb_retry_count := retries |>
      <| mb_attempt := mi_attempt item |>
      <| mb_priority := mi_priority updated_item |>
      <| mb_retry_at := retry_at |>
      <| mb_updated_at := current_time |> in
    let* updated :=
      if bool_decide (status = QUEUED) && emit_ready
      then _emit_ready updated updated_item current_time
      else ret updated in
    put_mailbox key updated ;;
    ret updated
  end.

Definition reschedule (lease : MailboxLease) (retry_at priority now : option Z)
    : M MailboxStore SessionMailbox :=
  _release lease retry_at priority false now true.

Definition retry (lease : MailboxLease) (retry_at priority now : option Z)
    : M MailboxStore SessionMailbox :=
  _release lease retry_at priority true now true.

Definition retry_without_wakeup (lease : MailboxLease) (retry_at now : option Z)
    : M MailboxStore SessionMailbox :=
  _release lease retry_at None true now false.

(** ** Recovery *)

(** The status and timer a mailbox falls back to when nobody runs its head. *)
Definition recovered_status (mailbox : SessionMailbox) (sequence : Z) (item : option MailboxItem)
    (current_time : Z) : MailboxStatus * option Z :=
  match item with
  | None => (IDLE, None)
  | Some item =>
    if mb_accepted_sequence mailbox <? sequence then (IDLE, None)
    else if after (mi_retry_at item) current_time then (RETRY_WAIT, mi_retry_at item)
    else (QUEUED, None)
  end.

Definition recover (tenant_id session_id : string) (now : option Z)
    : M MailboxStore (option SessionMailbox) :=
  let* current_time := _now now in
  let key := (tenant_id, session_id) in
  let* mailbox := gets (fun s => dget key (ms_mailboxes s)) in
  match mailbox with
  | None => ret None
  | Some mailbox =>
    match mb_lease_expires_at mailbox with
    | None => ret None
    | Some lease_expires_at =>
      if current_time <? lease_expires_at then ret None
      else
        let sequence := int_or (mb_processing_sequence mailbox)
                          (mb_resolved_sequence mailbox + 1) in
        let* item := gets (fun s => items_of key s !! sequence) in
        let '(status, retry_at) := recovered_status mailbox sequence item current_time in
        let updated := mailbox
          <| mb_status := status |>
          <| mb_processing_sequence := None |>
          <| mb_processing_inbound_id := None |>
          <| mb_lease_owner := None |>
          <| mb_lease_expires_at := None |>
          <| mb_retry_at := retry_at |>
          <| mb_updated_at := current_time |> in
        let* updated :=
          match status, item with
          | QUEUED, Some item => _emit_ready updated item current_time
          | _, _ => ret updated
          end in
        put_mailbox key updated ;;
        ret (Some updated)
    end
  end.

Definition is_some {A} (o : option A) : bool := match o with Some _ => true | None => false end.

(** A lease that is complete and has not expired. *)
Definition lease_active (mailbox : SessionMailbox) (current_time : Z) : bool :=
  let expired := due (mb_lease_expires_at mailbox) current_time in
  is_some (mb_processing_sequence mailbox) && is_some (mb_processing_inbound_id mailbox)
  && is_some (mb_lease_owner mailbox) && is_some (mb_lease_expires_at mailbox)
  && negb expired.

Definition reconcile (tenant_id session_id : string) (now : option Z)
    : M MailboxStore (option SessionMailbox) :=
  let* current_time := _now now in
  let key := (tenant_id, session_id) in
  let* mailbox := gets (fun s => dget key (ms_mailboxes s)) in
  match mailbox with
  | None => ret None
  | Some mailbox =>
    let active := lease_active mailbox current_time in
    let sequence := int_or (mb_processing_sequence mailbox)
                      (mb_resolved_sequence mailbox + 1) in
    let* item := gets (fun s => items_of key s !! sequence) in
    let '(status, retry_at) := recovered_status mailbox sequence item current_time in
    let status := if active then RUNNING else status in
    let queued_is_recent :=
      negb active && bool_decide (status = QUEUED) && is_some item
      && bool_decide (mb_status mailbox = QUEUED)
      && (current_time - mb_updated_at mailbox <? RECONCILE_READY_GRACE) in
    if queued_is_recent then ret (Some mailbox)
    else
      let updated := mailbox
        <| mb_status := status |>
        <| mb_processing_sequence := if active then mb_processing_sequence mailbox else None |>
        <| mb_processing_inbound_id := if active then mb_processing_inbound_id mailbox else None |>
        <| mb_lease_owner := if active then mb_lease_owner mailbox else None |>
        <| mb_lease_expires_at := if active then mb_lease_expires_at mailbox else None |>
        <| mb_retry_at := if active then mb_retry_at mailbox else retry_at |>
        <| mb_updated_at := current_time |> in
      let* updated :=
        match item with
        | Some item =>
          if negb active && bool_decide (status = QUEUED) then
            if bool_decide (mb_status mailbox = QUEUED) && (1 <=? mb_queue_generation mailbox)
            then _requeue_ready updated item current_time
            else _emit_ready updated item current_time
          else ret updated
        | None => ret updated
        end in
      put_mailbox key updated ;;
      ret (Some updated)
  end.

(** ** Sweeps: [for key in tuple(self._mailboxes)], at most [limit] handled *)

Fixpoint sweep_loop (eligible : SessionMailbox -> bool)
    (handle : string -> string -> M MailboxStore (option SessionMailbox))
    (keys : list session_key) (limit handled : Z) : M MailboxStore Z :=
  match keys with
  | [] => ret handled
  | key :: rest =>
    if limit <=? handled then ret handled
    else
      let* mailbox := gets (fun s => dget key (ms_mailboxes s)) in
      match mailbox with
      | None => raise KeyError
      | Some mailbox =>
        if eligible mailbox then
          let* updated := handle key.1 key.2 in
          sweep_loop eligible handle rest limit
            (if is_some updated then handled + 1 else handled)
        else sweep_loop eligible handle rest limit handled
      end
  end.

Definition sweep_expired_leases (limit : Z) : M MailboxStore Z :=
  raise_if (limit <? 1) (ValueError "recovery limit must be positive") ;;
  let* current_time := datetime_now in
  let* keys := gets (fun s => dkeys (ms_mailboxes s)) in
  sweep_loop (fun mb => due (mb_lease_expires_at mb) current_time)
    (fun t s => recover t s (Some current_time)) keys limit 0.

Definition schedule_retries (limit : Z) : M MailboxStore Z :=
  raise_if (limit <? 1) (ValueError "recovery limit must be positive") ;;
  let* current_time := datetime_now in
  let* keys := gets (fun s => dkeys (ms_mailboxes s)) in
  sweep_loop (fun mb => bool_decide (mb_status mb = RETRY_WAIT) && due (mb_retry_at mb) current_time)
    (fun t s => reconcile t s (Some current_time)) keys limit 0.

Definition reconcile_sessions (limit : Z) : M MailboxStore Z :=
  raise_if (limit <? 1) (ValueError "recovery limit must be positive") ;;
  let* current_time := datetime_now in
  let* keys := gets (fun s => dkeys (ms_mailboxes s)) in
  sweep_loop (fun mb => negb (bool_decide (mb_status mb = RUNNING)))
    (fun t s => reconcile t s (Some current_time)) keys limit 0.

End store.
