(* ===== verification/MailboxInv.v ===== *)
(** * Well-formedness of the mailbox store

    The invariant every method of the store preserves: counters, contiguous
    item numbering, one consistent lease, and wake-up records that match the
    queue generations. *)

From S2P Require Import Prelude Tenant Models Mailbox.
#[local] Open Scope Z_scope.

(** The mailbox and generation a wake-up record belongs to. *)
Definition ready_of (r : OutboxRecord) : option (session_key * Z) :=
  if bool_decide (ob_event_type r = SESSION_READY_V2) then
    match py_get "generation" (ob_payload r) with
    | PInt g => Some ((ob_tenant_id r, ob_aggregate_id r), g)
    | _ => None
    end
  else None.

Record item_ok (key : session_key) (n : Z) (it : MailboxItem) : Prop := {
  io_tenant : mi_tenant_id it = key.1;
  io_session : mi_session_id it = key.2;
  io_sequence : mi_sequence it = n;
  io_attempt : 0 <= mi_attempt it;
  io_retry : 0 <= mi_retry_count it;
  io_priority : 0 <= mi_priority it;
}.

(** Exactly one of: somebody holds the lease on the head item, or nobody holds
    anything. *)
Definition lease_ok (mb : SessionMailbox) (items : gmap Z MailboxItem) : Prop :=
  match mb_status mb with
  | RUNNING => exists it owner expires,
      items !! (mb_resolved_sequence mb + 1) = Some it /\
      mb_processing_sequence mb = Some (mb_resolved_sequence mb + 1) /\
      mb_processing_inbound_id mb = Some (mi_inbound_id it) /\
      mb_lease_owner mb = Some owner /\
      mb_lease_expires_at mb = Some expires /\
      1 <= mb_lease_epoch mb
  | _ => mb_processing_sequence mb = None /\ mb_processing_inbound_id mb = None /\
         mb_lease_owner mb = None /\ mb_lease_expires_at mb = None
  end.

Record mailbox_ok (key : session_key) (mb : SessionMailbox) (items : gmap Z MailboxItem)
    : Prop := {
  mo_tenant : mb_tenant_id mb = key.1;
  mo_session : mb_session_id mb = key.2;
  mo_bounds : 0 <= mb_resolved_sequence mb <= mb_accepted_sequence mb;
  mo_generation : 0 <= mb_queue_generation mb;
  mo_epoch : 0 <= mb_lease_epoch mb;
  mo_dom : forall n, is_Some (items !! n) <-> 1 <= n <= mb_accepted_sequence mb;
  mo_items : forall n it, items !! n = Some it -> item_ok key n it;
  mo_distinct : forall n m it it', items !! n = Some it -> items !! m = Some it' ->
    mi_inbound_id it = mi_inbound_id it' -> n = m;
  mo_idle : mb_status mb = IDLE <-> mb_resolved_sequence mb = mb_accepted_sequence mb;
  mo_lease : lease_ok mb items;
}.

Record store_inv (s : MailboxStore) : Prop := {
  si_nodup : NoDup (dkeys (ms_mailboxes s));
  si_mailbox : forall key mb, dget key (ms_mailboxes s) = Some mb ->
    mailbox_ok key mb (items_of key s);
  si_empty : forall key, dget key (ms_mailboxes s) = None -> items_of key s = ∅;
  si_wake : forall key mb, dget key (ms_mailboxes s) = Some mb -> mb_status mb = QUEUED ->
    exists r, r ∈ ms_outbox s /\ ready_of r = Some (key, mb_queue_generation mb);
  si_generation : forall r, r ∈ ms_outbox s -> exists key mb g,
    ready_of r = Some (key, g) /\ dget key (ms_mailboxes s) = Some mb /\
    1 <= g <= mb_queue_generation mb;
  si_unique : NoDup (map ready_of (ms_outbox s));
}.

(** ** One mailbox changes *)

(** [s'] is [s] with the mailbox and items of [key] replaced and [new] appended
    to the wake-ups. *)
Record updated_at (key : session_key) (mb' : SessionMailbox) (items' : gmap Z MailboxItem)
    (new : list OutboxRecord) (s s' : MailboxStore) : Prop := {
  up_mailboxes : ms_mailboxes s' = dset key mb' (ms_mailboxes s);
  up_items : items_of key s' = items';
  up_other : forall k, k <> key -> items_of k s' = items_of k s;
  up_outbox : ms_outbox s' = ms_outbox s ++ new;
}.

(** What the appended wake-ups must be for the new mailbox. *)
Definition wakeups_ok (key : session_key) (mb' : SessionMailbox) (new : list OutboxRecord)
    (s : MailboxStore) : Prop :=
  (new = [] /\ (mb_status mb' = QUEUED ->
     exists r, r ∈ ms_outbox s /\ ready_of r = Some (key, mb_queue_generation mb'))) \/
  (exists r, new = [r] /\ ready_of r = Some (key, mb_queue_generation mb') /\
     1 <= mb_queue_generation mb' /\
     Some (key, mb_queue_generation mb') ∉ map ready_of (ms_outbox s)).

Definition generation_le (key : session_key) (mb' : SessionMailbox) (s : MailboxStore) : Prop :=
  forall mb, dget key (ms_mailboxes s) = Some mb -> mb_queue_generation mb <= mb_queue_generation mb'.

Lemma store_inv_update key mb' items' new s s' :
  store_inv s -> updated_at key mb' items' new s s' -> mailbox_ok key mb' items' ->
  generation_le key mb' s -> wakeups_ok key mb' new s -> store_inv s'.
Proof.
  intros Hs [Hmb Hit Hoth Hout] Hok Hgen Hwake.
  assert (Hget : forall k, dget k (ms_mailboxes s') =
    if decide (key = k) then Some mb' else dget k (ms_mailboxes s))
    by (intros; rewrite Hmb; apply dget_dset).
  split.
  - rewrite Hmb. apply NoDup_dset, Hs.
  - intros k mb. rewrite Hget. case_decide; intros; simplify_eq; [done|].
    rewrite Hoth by done. by apply Hs.
  - intros k. rewrite Hget. case_decide; [done|]. intros. rewrite Hoth by done. by apply Hs.
  - intros k mb. rewrite Hget, Hout. case_decide; intros.
    + simplify_eq. destruct Hwake as [[-> Hw]|(r & -> & Hr & ? & ?)].
      * destruct Hw as (r & ? & ?); [done|]. exists r. rewrite elem_of_app. auto.
      * exists r. rewrite elem_of_app, list_elem_of_singleton. auto.
    + destruct (si_wake _ Hs k mb) as (r & ? & ?); [done..|].
      exists r. rewrite elem_of_app. auto.
  - intros r. rewrite Hout, elem_of_app. intros [Hr|Hr].
    + destruct (si_generation _ Hs r Hr) as (k & mb & g & Hg & Hk & Hle).
      destruct (decide (key = k)) as [->|Hne].
      * exists k, mb', g. rewrite Hget, decide_True by done.
        specialize (Hgen mb Hk). split_and!; auto; lia.
      * exists k, mb, g. rewrite Hget, decide_False by done. auto.
    + destruct Hwake as [[-> _]|(r' & -> & Hr' & ? & _)]; [by apply elem_of_nil in Hr|].
      apply list_elem_of_singleton in Hr as ->.
      exists key, mb', (mb_queue_generation mb'). rewrite Hget, decide_True by done.
      split_and!; auto; lia.
  - rewrite Hout, map_app. destruct Hwake as [[-> _]|(r & -> & Hr & _ & Hni)]; simpl.
    + rewrite app_nil_r. apply Hs.
    + apply NoDup_app. split_and!; [apply Hs| |apply NoDup_singleton].
      intros x Hx Hx'. apply list_elem_of_singleton in Hx' as ->. by rewrite Hr in Hx.
Qed.

(** A generation above the current one has no record yet. *)
Lemma fresh_generation s key mb g :
  store_inv s -> dget key (ms_mailboxes s) = Some mb -> mb_queue_generation mb < g ->
  Some (key, g) ∉ map ready_of (ms_outbox s).
Proof.
  intros Hs Hk Hg Hin. apply list_elem_of_fmap in Hin as (r & Hr & Hin).
  destruct (si_generation _ Hs r Hin) as (k & mb' & g' & Hr' & Hk' & ?).
  rewrite Hr' in Hr. simplify_eq. lia.
Qed.

Lemma fresh_generation_None s key g :
  store_inv s -> dget key (ms_mailboxes s) = None -> Some (key, g) ∉ map ready_of (ms_outbox s).
Proof.
  intros Hs Hk Hin. apply list_elem_of_fmap in Hin as (r & Hr & Hin).
  destruct (si_generation _ Hs r Hin) as (k & mb' & g' & Hr' & Hk' & ?).
  rewrite Hr' in Hr. simplify_eq.
Qed.

Lemma store_inv_empty : store_inv empty_store.
Proof.
  split; simpl.
  - constructor.
  - done.
  - intros key _. unfold items_of. simpl. by rewrite lookup_empty.
  - done.
  - intros r Hr. by apply elem_of_nil in Hr.
  - constructor.
Qed.

(** ** Item maps *)

Lemma has_inbound_false id items :
  has_inbound id items = false <->
  forall n it, items !! n = Some it -> mi_inbound_id it <> id.
Proof.
  unfold has_inbound. rewrite <-not_true_iff_false, existsb_exists. split.
  - intros Hn n it Hit Heq. apply Hn. exists (n, it). split.
    + by apply list_elem_of_In, elem_of_map_to_list.
    + by apply bool_decide_eq_true.
  - intros Hall ([n it] & Hin & Heq). apply bool_decide_eq_true in Heq.
    apply list_elem_of_In, elem_of_map_to_list in Hin. by apply (Hall n it).
Qed.

Lemma mailbox_ok_head key mb items :
  mailbox_ok key mb items -> mb_status mb <> IDLE ->
  exists it, items !! (mb_resolved_sequence mb + 1) = Some it.
Proof.
  intros Hok Hs. pose proof (mo_bounds _ _ _ Hok). rewrite (mo_idle _ _ _ Hok) in Hs.
  apply (mo_dom _ _ _ Hok). lia.
Qed.

(** Nobody holds the lease of a mailbox whose lease fields are clear. *)
Lemma lease_ok_idle mb items :
  mb_status mb <> RUNNING -> lease_ok mb items ->
  mb_processing_sequence mb = None /\ mb_processing_inbound_id mb = None /\
  mb_lease_owner mb = None /\ mb_lease_expires_at mb = None.
Proof. unfold lease_ok. by destruct (mb_status mb). Qed.

Lemma mailbox_ok_new key t : mailbox_ok key (new_mailbox key.1 key.2 t) ∅.
Proof.
  split; simpl; try done; try lia.
  - intros n. rewrite lookup_empty. split; [by intros []|lia].
Qed.

(** Replacing one present item by a version of itself. *)
Lemma items_ok_replace key mb items n it it' :
  mailbox_ok key mb items -> items !! n = Some it -> item_ok key n it' ->
  mi_inbound_id it' = mi_inbound_id it ->
  (forall k, is_Some (<[n := it']> items !! k) <-> 1 <= k <= mb_accepted_sequence mb) /\
  (forall k i, <[n := it']> items !! k = Some i -> item_ok key k i) /\
  (forall k m i i', <[n := it']> items !! k = Some i -> <[n := it']> items !! m = Some i' ->
     mi_inbound_id i = mi_inbound_id i' -> k = m).
Proof.
  intros Hok Hn Hit Hid. split_and!.
  - intros k. rewrite <-(mo_dom _ _ _ Hok), lookup_insert.
    case_decide; subst; [rewrite Hn|done]. split; eauto.
  - intros k i. rewrite lookup_insert. case_decide; intros; simplify_eq; [done|].
    by apply (mo_items _ _ _ Hok).
  - intros k m i i'. rewrite !lookup_insert.
    repeat case_decide; intros; simplify_eq; try done;
      eapply (mo_distinct _ _ _ Hok); eauto; congruence.
Qed.

Lemma mailbox_ok_replace key mb items n it it' :
  mailbox_ok key mb items -> items !! n = Some it -> item_ok key n it' ->
  mi_inbound_id it' = mi_inbound_id it -> mailbox_ok key mb (<[n := it']> items).
Proof.
  intros Hok Hn Hit Hid.
  destruct (items_ok_replace key mb items n it it' Hok Hn Hit Hid) as (? & ? & ?).
  split; try apply Hok; try done. pose proof (mo_lease _ _ _ Hok) as Hl. unfold lease_ok in *.
  destruct (mb_status mb); try done. destruct Hl as (it0 & ow & ex & Hit0 & ? & ? & ?).
  destruct (decide (n = mb_resolved_sequence mb + 1)) as [->|].
  - exists it', ow, ex. rewrite lookup_insert_eq. simplify_eq. split_and!; naive_solver congruence.
  - exists it0, ow, ex. by rewrite lookup_insert_ne.
Qed.

Lemma mailbox_ok_accept key mb items item retry_at now status eff p :
  mailbox_ok key mb items -> has_inbound (mi_inbound_id item) items = false ->
  item_ok key (mb_accepted_sequence mb + 1) item ->
  accepted_status mb retry_at now = (status, eff) ->
  mailbox_ok key (mb
    <| mb_status := status |>
    <| mb_accepted_sequence := mb_accepted_sequence mb + 1 |>
    <| mb_priority := p |>
    <| mb_retry_at := eff |>
    <| mb_updated_at := now |>) (<[mb_accepted_sequence mb + 1 := item]> items).
Proof.
  intros Hok Hnew Hitem Hstat. rewrite has_inbound_false in Hnew.
  pose proof (mo_bounds _ _ _ Hok) as Hb.
  assert (Hnone : items !! (mb_accepted_sequence mb + 1) = None).
  { apply eq_None_not_Some. rewrite (mo_dom _ _ _ Hok). lia. }
  split; simpl; try apply Hok; try lia.
  - intros n. rewrite lookup_insert. case_decide; subst.
    + split; [lia|eauto].
    + rewrite (mo_dom _ _ _ Hok). lia.
  - intros n it. rewrite lookup_insert. case_decide; intros; simplify_eq; [done|].
    by apply (mo_items _ _ _ Hok).
  - intros n m it it'. rewrite !lookup_insert.
    repeat case_decide; intros; simplify_eq; try done.
    1, 2: exfalso; by eapply Hnew.
    by eapply (mo_distinct _ _ _ Hok).
  - split; [|lia]. intros ->. unfold accepted_status in Hstat.
    destruct (mb_status mb); repeat case_match; simplify_eq.
  - pose proof (mo_lease _ _ _ Hok) as Hl. unfold lease_ok in *. simpl in *.
    unfold accepted_status in Hstat.
    destruct (mb_status mb); repeat case_match; simplify_eq; try done.
    destruct Hl as (it & ow & ex & Hit & ?). exists it, ow, ex.
    rewrite lookup_insert_ne; [done|]. intros Heq. rewrite <-Heq in Hit. congruence.
Qed.

Lemma mailbox_ok_claim key mb items it owner expires now :
  mailbox_ok key mb items -> mb_resolved_sequence mb < mb_accepted_sequence mb ->
  items !! (mb_resolved_sequence mb + 1) = Some it ->
  mailbox_ok key (mb
    <| mb_status := RUNNING |>
    <| mb_processing_sequence := Some (mb_resolved_sequence mb + 1) |>
    <| mb_processing_inbound_id := Some (mi_inbound_id it) |>
    <| mb_lease_owner := Some owner |>
    <| mb_lease_epoch := mb_lease_epoch mb + 1 |>
    <| mb_lease_expires_at := Some expires |>
    <| mb_attempt := mi_attempt it + 1 |>
    <| mb_retry_count := mi_retry_count it |>
    <| mb_priority := mi_priority it |>
    <| mb_retry_at := mi_retry_at it |>
    <| mb_updated_at := now |>)
    (<[mb_resolved_sequence mb + 1 := it <| mi_attempt := mi_attempt it + 1 |>]> items).
Proof.
  intros Hok Hlt Hit. pose proof (mo_items _ _ _ Hok _ _ Hit) as [].
  set (it' := it <| mi_attempt := mi_attempt it + 1 |>).
  assert (item_ok key (mb_resolved_sequence mb + 1) it') by (split; simpl; auto; lia).
  assert (mi_inbound_id it' = mi_inbound_id it) by done. clearbody it'.
  destruct (items_ok_replace key mb items _ it it' Hok Hit) as (? & ? & ?); [done..|].
  pose proof (mo_bounds _ _ _ Hok). pose proof (mo_epoch _ _ _ Hok).
  split; simpl; [apply Hok|apply Hok|done|apply Hok|lia|done|done|done| |].
  - split; [done|lia].
  - unfold lease_ok. simpl. eexists it', _, _. rewrite lookup_insert_eq. split_and!; try done; simpl; [congruence|lia].
Qed.

(** Clearing the lease of a mailbox and giving it the status [st]. *)
Lemma mailbox_ok_clear key mb items mb' :
  mailbox_ok key mb items ->
  mb_tenant_id mb' = mb_tenant_id mb -> mb_session_id mb' = mb_session_id mb ->
  mb_accepted_sequence mb' = mb_accepted_sequence mb ->
  mb_resolved_sequence mb <= mb_resolved_sequence mb' <= mb_accepted_sequence mb ->
  mb_queue_generation mb <= mb_queue_generation mb' -> mb_lease_epoch mb' = mb_lease_epoch mb ->
  mb_processing_sequence mb' = None -> mb_processing_inbound_id mb' = None ->
  mb_lease_owner mb' = None -> mb_lease_expires_at mb' = None -> mb_status mb' <> RUNNING ->
  (mb_status mb' = IDLE <-> mb_resolved_sequence mb' = mb_accepted_sequence mb) ->
  mailbox_ok key mb' items.
Proof.
  intros Hok Ht Hs Ha Hr Hg He ? ? ? ? Hst Hid.
  pose proof (mo_bounds _ _ _ Hok). pose proof (mo_generation _ _ _ Hok).
  split; rewrite ?Ht, ?Hs, ?Ha, ?He; try apply Hok; auto; try lia.
  unfold lease_ok. by destruct (mb_status mb').
Qed.

(** ** Symbolic execution of the store's helpers *)

Section rules.
Context `{Env}.
Implicit Types (s : MailboxStore) (e : effects).

Lemma wp_now {T} value (Q : outcome Z -> T -> effects -> Prop) (s : T) e :
  Q (Ok (now_value value e)) s (now_effects value e) -> wp (_now value) Q s e.
Proof. by destruct value. Qed.

Lemma wp_append_ready mb item now g (Q : _ -> _ -> _ -> Prop) s e :
  Q (Ok mb)
    (s <| ms_outbox := ms_outbox s ++
       [MkOutboxRecord (uuid_at (uuids e)) (mb_tenant_id mb) SESSION_READY_V2 (mb_session_id mb)
          (ready_payload item now g) ∅ 0] |>)
    (Effects (S (uuids e)) (ticks e)) ->
  wp (_append_ready mb item now g) Q s e.
Proof. done. Qed.

Lemma wp_ensure key now (Q : _ -> _ -> _ -> Prop) s e :
  Q (Ok (new_mailbox key.1 key.2 now))
    (s <| ms_mailboxes := dset key (new_mailbox key.1 key.2 now) (ms_mailboxes s) |>) e ->
  wp (_ensure_mailbox key now) Q s e.
Proof. done. Qed.

Lemma wp_put_mailbox key mb (Q : _ -> _ -> _ -> Prop) s e :
  Q (Ok tt) (s <| ms_mailboxes := dset key mb (ms_mailboxes s) |>) e ->
  wp (put_mailbox key mb) Q s e.
Proof. done. Qed.

Lemma wp_put_item key n it (Q : _ -> _ -> _ -> Prop) s e :
  Q (Ok tt) (s <| ms_items := <[key := <[n := it]> (items_of key s)]> (ms_items s) |>) e ->
  wp (put_item key n it) Q s e.
Proof. done. Qed.

(** The fence: an owner passes with the mailbox it owns, anybody else raises
    and changes nothing. *)
Lemma wp_require_owned key lease now (Q : _ -> _ -> _ -> Prop) s e :
  (forall mb, dget key (ms_mailboxes s) = Some mb -> _owns (Some mb) lease now = true ->
     Q (Ok mb) s e) ->
  (_owns (dget key (ms_mailboxes s)) lease now = false ->
     Q (Raise (FencingConflict "mailbox lease is no longer current")) s e) ->
  wp (_require_owned key lease now) Q s e.
Proof.
  intros Hok Hno. unfold _require_owned. wp_steps; bool_prop; auto.
Qed.
End rules.

Ltac wp_hook ::=
  lazymatch goal with
  | |- wp (_now _) _ _ _ => apply wp_now
  | |- wp (_append_ready _ _ _ _) _ _ _ => apply wp_append_ready
  | |- wp (_emit_ready _ _ _) _ _ _ => unfold _emit_ready
  | |- wp (_ensure_mailbox _ _) _ _ _ => apply wp_ensure
  | |- wp (put_mailbox _ _) _ _ _ => apply wp_put_mailbox
  | |- wp (put_item _ _ _) _ _ _ => apply wp_put_item
  | |- wp (_require_owned _ _ _) _ _ _ => apply wp_require_owned; intros
  | |- wp (_validate_ids _) _ _ _ => unfold _validate_ids
  | |- wp (_validate_priority _) _ _ _ => unfold _validate_priority
  | |- wp (_validate_lease_for _) _ _ _ => unfold _validate_lease_for
  | |- wp (make_MailboxItem _ _ _ _ _ _ _ _ _ _) _ _ _ => unfold make_MailboxItem
  | |- wp (make_MailboxLease _ _ _ _ _ _ _ _ _ _) _ _ _ => unfold make_MailboxLease
  end.

(** What the fence checks. *)
Lemma owns_spec mb lease now :
  _owns (Some mb) lease now = true <->
  mb_status mb = RUNNING /\ mb_processing_sequence mb = Some (ml_sequence lease) /\
  mb_processing_inbound_id mb = Some (ml_inbound_id lease) /\
  mb_lease_owner mb = Some (ml_owner_id lease) /\ mb_lease_epoch mb = ml_epoch lease /\
  exists ex, mb_lease_expires_at mb = Some ex /\ now < ex.
Proof.
  unfold _owns. rewrite !andb_true_iff, !bool_decide_eq_true, Z.eqb_eq, after_true. tauto.
Qed.

(** ** Two shapes of update *)

Lemma mailbox_ok_generation key mb items g :
  mailbox_ok key mb items -> 0 <= g -> mailbox_ok key (mb <| mb_queue_generation := g |>) items.
Proof. intros Hok ?. split; try apply Hok. done. Qed.

(** The generation stays: the mailbox may be queued only if it was. *)
Lemma store_inv_put key mb mb' items' s s' :
  store_inv s -> dget key (ms_mailboxes s) = Some mb ->
  updated_at key mb' items' [] s s' -> mailbox_ok key mb' items' ->
  mb_queue_generation mb' = mb_queue_generation mb ->
  (mb_status mb' = QUEUED -> mb_status mb = QUEUED) -> store_inv s'.
Proof.
  intros Hs Hk Hup Hok Hg Hq. eapply store_inv_update; eauto.
  - intros mb0 ?. simplify_eq. lia.
  - left. split; [done|]. intros. rewrite Hg. by eapply si_wake; eauto.
Qed.

(** The mailbox moves to the next generation and publishes its wake-up. *)
Lemma store_inv_emit key mb mb' items' r s s' :
  store_inv s -> dget key (ms_mailboxes s) = Some mb ->
  updated_at key mb' items' [r] s s' -> mailbox_ok key mb' items' ->
  mb_queue_generation mb' = mb_queue_generation mb + 1 ->
  ready_of r = Some (key, mb_queue_generation mb') -> store_inv s'.
Proof.
  intros Hs Hk Hup Hok Hg Hr. pose proof (mo_generation _ _ _ (si_mailbox _ Hs _ _ Hk)).
  eapply store_inv_update; eauto.
  - intros mb0 ?. simplify_eq. lia.
  - right. exists r. split_and!; [done..|lia|]. eapply fresh_generation; eauto. lia.
Qed.

(** ** Every method preserves the invariant *)

Ltac solve_updated :=
  split; simpl;
  [ by rewrite ?dset_dset
  | unfold items_of; simpl; rewrite ?lookup_insert_eq; done
  | intros; unfold items_of; simpl; rewrite ?lookup_insert_ne by done; done
  | rewrite ?app_nil_r; done ].

Section preservation.
Context `{Env}.

(** The wake-up record of a fresh generation. *)
Lemma ready_of_ready id key item now g :
  ready_of (MkOutboxRecord id key.1 SESSION_READY_V2 key.2 (ready_payload item now g) ∅ 0)
  = Some (key, g).
Proof. by destruct key. Qed.

Lemma store_inv_ensure s key t :
  store_inv s -> dget key (ms_mailboxes s) = None ->
  store_inv (s <| ms_mailboxes := dset key (new_mailbox key.1 key.2 t) (ms_mailboxes s) |>).
Proof.
  intros Hs Hk. eapply (store_inv_update key (new_mailbox key.1 key.2 t) ∅ [] s); eauto.
  - split; simpl; [done|by apply Hs|done|by rewrite app_nil_r].
  - apply mailbox_ok_new.
  - intros mb. congruence.
  - by left.
Qed.

(** [ready_of] of a record built from a mailbox that belongs to [key]. *)
Lemma ready_of_mailbox id key mb items item now g :
  mailbox_ok key mb items ->
  ready_of (MkOutboxRecord id (mb_tenant_id mb) SESSION_READY_V2 (mb_session_id mb)
              (ready_payload item now g) ∅ 0) = Some (key, g).
Proof.
  intros Hok. rewrite (mo_tenant _ _ _ Hok), (mo_session _ _ _ Hok). apply ready_of_ready.
Qed.

(** The two shapes, for a mailbox whose lease is cleared. *)
Ltac put_cleared Hok :=
  eapply store_inv_put; [eassumption|eassumption|solve_updated| |done|];
  [eapply mailbox_ok_clear; [exact Hok|..]; simpl; try done; try lia|simpl; try done].
Ltac emit_cleared Hok :=
  eapply store_inv_emit; [eassumption|eassumption|solve_updated| |done|];
  [eapply mailbox_ok_clear; [exact Hok|..]; simpl; try done; try lia
  |simpl; eapply ready_of_mailbox; exact Hok].

Lemma accept_item_inv key mb inbound_id priority retry_at trace_id t s e :
  store_inv s -> dget key (ms_mailboxes s) = Some mb ->
  has_inbound inbound_id (items_of key s) = false -> 0 <= priority ->
  wp (accept_item key mb inbound_id priority retry_at trace_id t)
    (fun _ s' _ => store_inv s') s e.
Proof.
  intros Hs Hk Hin Hp. pose proof (si_mailbox _ Hs _ _ Hk) as Hok.
  unfold accept_item. wp_steps; try done.
  all: set (item := MkMailboxItem _ _ _ _ _ _ _ _ _ _).
  all: assert (item_ok key (mb_accepted_sequence mb + 1) item) by (split; simpl; done || lia).
  all: pose proof (mailbox_ok_accept key mb _ item _ _ _ _ (Z.max (mb_priority mb) priority)
         Hok Hin ltac:(done) ltac:(eassumption)) as Hok'.
  - eapply store_inv_emit; [done..| | | |].
    + solve_updated.
    + apply mailbox_ok_generation; [exact Hok'|]. simpl. pose proof (mo_generation _ _ _ Hok). lia.
    + done.
    + eapply ready_of_mailbox. exact Hok.
  - eapply store_inv_put; [done..| | | |].
    + solve_updated.
    + exact Hok'.
    + done.
    + simpl. intros ->. unfold accepted_status in *.
      destruct (mb_status mb); repeat case_match; simplify_eq/=; done.
Qed.

Lemma accept_preserves tenant_id session_id inbound_id priority retry_at trace_id now :
  preserves store_inv (accept tenant_id session_id inbound_id priority retry_at trace_id now).
Proof.
  rewrite preserves_wp. intros s e Hs. unfold accept. wp_steps; try done; bool_prop.
  - by apply store_inv_ensure.
  - by apply accept_item_inv.
  - apply accept_item_inv; [by apply store_inv_ensure|apply dget_dset_eq|done..].
Qed.

(** Touching only the status, the timers and the timestamps of a mailbox that
    nobody runs. *)
Lemma mailbox_ok_touch key mb items st ra t :
  mailbox_ok key mb items -> mb_status mb <> RUNNING -> st <> RUNNING ->
  (st = IDLE <-> mb_resolved_sequence mb = mb_accepted_sequence mb) ->
  mailbox_ok key (mb <| mb_status := st |> <| mb_retry_at := ra |> <| mb_updated_at := t |>) items.
Proof.
  intros Hok Hr Hst Hid. destruct (lease_ok_idle _ _ Hr (mo_lease _ _ _ Hok)) as (? & ? & ? & ?).
  pose proof (mo_bounds _ _ _ Hok).
  eapply mailbox_ok_clear; simpl; eauto; lia.
Qed.

(** The item a claim takes is the head of the queue. *)
Lemma processing_is_head key mb items n :
  mailbox_ok key mb items -> mb_processing_sequence mb = Some n ->
  mb_status mb = RUNNING /\ n = mb_resolved_sequence mb + 1.
Proof.
  intros Hok Hn. pose proof (mo_lease _ _ _ Hok) as Hl. unfold lease_ok in Hl.
  destruct (mb_status mb); naive_solver.
Qed.

Lemma not_running key mb items :
  mailbox_ok key mb items -> mb_processing_sequence mb = None -> mb_status mb <> RUNNING.
Proof.
  intros Hok Hn Hr. pose proof (mo_lease _ _ _ Hok) as Hl. unfold lease_ok in Hl.
  rewrite Hr in Hl. naive_solver.
Qed.

Lemma claim_grant_inv key mb it owner ex t s :
  store_inv s -> dget key (ms_mailboxes s) = Some mb ->
  items_of key s !! (mb_resolved_sequence mb + 1) = Some it ->
  store_inv (s
    <| ms_items := <[key := <[mb_resolved_sequence mb + 1 :=
         it <| mi_attempt := mi_attempt it + 1 |>]> (items_of key s)]> (ms_items s) |>
    <| ms_mailboxes := dset key (mb
         <| mb_status := RUNNING |>
         <| mb_processing_sequence := Some (mb_resolved_sequence mb + 1) |>
         <| mb_processing_inbound_id := Some (mi_inbound_id it) |>
         <| mb_lease_owner := Some owner |>
         <| mb_lease_epoch := mb_lease_epoch mb + 1 |>
         <| mb_lease_expires_at := Some ex |>
         <| mb_attempt := mi_attempt it + 1 |>
         <| mb_retry_count := mi_retry_count it |>
         <| mb_priority := mi_priority it |>
         <| mb_retry_at := mi_retry_at it |>
         <| mb_updated_at := t |>) (ms_mailboxes s) |>).
Proof.
  intros Hs Hk Hit. pose proof (si_mailbox _ Hs _ _ Hk) as Hok.
  assert (mb_resolved_sequence mb < mb_accepted_sequence mb).
  { assert (1 <= mb_resolved_sequence mb + 1 <= mb_accepted_sequence mb); [|lia].
    apply (mo_dom _ _ _ Hok). eauto. }
  eapply store_inv_put; [done..| | | |].
  - solve_updated.
  - by apply mailbox_ok_claim.
  - done.
  - done.
Qed.

Lemma claim_preserves tenant_id session_id owner_id lease_for now :
  preserves store_inv (claim tenant_id session_id owner_id lease_for now).
Proof.
  rewrite preserves_wp. intros s e Hs. unfold claim. wp_steps; try done; bool_prop.
  all: pose proof (si_mailbox _ Hs _ _ ltac:(eassumption)) as Hok.
  1, 2: destruct (processing_is_head _ _ _ _ Hok ltac:(eassumption)) as [? ->];
    by eapply (claim_grant_inv _ _ _ _ _ _ s); eauto.
  - eapply store_inv_put; [done..| | | |]; [solve_updated| |done|done].
    pose proof (mo_bounds _ _ _ Hok).
    apply (mailbox_ok_touch _ _ _ IDLE (mb_retry_at _) _ Hok); [|done|].
    + by eapply not_running.
    + split; [lia|done].
  - eapply store_inv_put; [done..| | | |]; [solve_updated| |done|done].
    apply mailbox_ok_touch; [done|by eapply not_running|done|]. split; [done|lia].
  - by eapply (claim_grant_inv _ _ _ _ _ _ s); eauto.
  - by eapply (claim_grant_inv _ _ _ _ _ _ s); eauto.
Qed.

Lemma claim_session_preserves tenant_id session_id owner_id lease_for eg ee acc now :
  preserves store_inv (claim_session tenant_id session_id owner_id lease_for eg ee acc now).
Proof.
  rewrite preserves_wp. intros s e Hs. unfold claim_session, get. wp_steps; try done.
  all: eapply wp_preserves; [apply claim_preserves|done|].
  all: intros [?|?] s' e' ?; wp_steps; done.
Qed.

Lemma renew_preserves lease lease_for now : preserves store_inv (renew lease lease_for now).
Proof.
  rewrite preserves_wp. intros s e Hs. unfold renew. wp_steps; try done.
  pose proof (si_mailbox _ Hs _ _ ltac:(eassumption)) as Hok.
  eapply store_inv_put; [done..| | | |]; [solve_updated| |done|done].
  pose proof (mo_lease _ _ _ Hok) as Hl. split; try apply Hok.
  unfold lease_ok in *. simpl. destruct (mb_status _); naive_solver.
Qed.

Lemma renew_many_preserves leases lease_for now :
  preserves store_inv (renew_many leases lease_for now).
Proof.
  induction leases as [|lease rest IH]; simpl; [by intros s e|].
  apply preserves_bind; [apply renew_preserves|]. intros. apply preserves_bind; [done|].
  intros ? s e. done.
Qed.

(** A finished or released mailbox: nobody holds its lease any more. *)
Lemma owned_resolved key mb items lease now :
  mailbox_ok key mb items -> _owns (Some mb) lease now = true ->
  ml_sequence lease = mb_resolved_sequence mb + 1 /\
  mb_resolved_sequence mb + 1 <= mb_accepted_sequence mb /\
  exists it, items !! ml_sequence lease = Some it /\ mi_inbound_id it = ml_inbound_id lease.
Proof.
  intros Hok Hown. apply owns_spec in Hown as (Hr & Hp & Hi & _ & _ & _).
  pose proof (mo_lease _ _ _ Hok) as Hl. unfold lease_ok in Hl. rewrite Hr in Hl.
  destruct Hl as (it & ow & ex & Hit & Hp' & Hi' & _).
  assert (1 <= mb_resolved_sequence mb + 1 <= mb_accepted_sequence mb)
    by (apply (mo_dom _ _ _ Hok); eauto).
  rewrite Hp in Hp'. rewrite Hi in Hi'. simplify_eq. split_and!; [done|lia|].
  eexists. split; [|done]. congruence.
Qed.

Lemma commit_preserves lease now : preserves store_inv (commit lease now).
Proof.
  rewrite preserves_wp. intros s e Hs. unfold commit. wp_steps; try done; bool_prop.
  all: pose proof (si_mailbox _ Hs _ _ ltac:(eassumption)) as Hok.
  all: destruct (owned_resolved _ _ _ _ _ Hok ltac:(eassumption)) as (Hseq & Hle & _).
  - assert (1 <= ml_sequence lease + 1 <= mb_accepted_sequence mb)
      by (apply (mo_dom _ _ _ Hok); eauto).
    put_cleared Hok. split; [done|lia].
  - assert (1 <= ml_sequence lease + 1 <= mb_accepted_sequence mb)
      by (apply (mo_dom _ _ _ Hok); eauto).
    emit_cleared Hok. split; [done|lia].
  - pose proof (mo_bounds _ _ _ Hok). assert (mb_accepted_sequence mb = ml_sequence lease) as Hlast.
    { destruct (decide (ml_sequence lease < mb_accepted_sequence mb)); [|lia].
      destruct (proj2 (mo_dom _ _ _ Hok (ml_sequence lease + 1))); [lia|congruence]. }
    assert (_ready_status mb (ml_sequence lease) (now_value now e) = IDLE) as Hst.
    { unfold _ready_status. destruct (Z.leb_spec (mb_accepted_sequence mb) (ml_sequence lease)); [done|lia]. }
    rewrite Hst. put_cleared Hok.
Qed.

(** A released mailbox is neither running nor idle. *)
Lemma released_status mb retry_at t (emit : bool) :
  mb_resolved_sequence mb < mb_accepted_sequence mb ->
  let st := if negb emit then RETRY_WAIT
            else _ready_status (mb <| mb_retry_at := retry_at |>) (mb_resolved_sequence mb) t in
  st <> RUNNING /\ st <> IDLE /\ (emit = false -> st <> QUEUED).
Proof.
  intros ? st. subst st. unfold _ready_status. simpl.
  destruct (Z.leb_spec (mb_accepted_sequence mb) (mb_resolved_sequence mb)); [lia|].
  by destruct emit, (after retry_at t).
Qed.

Lemma release_preserves lease retry_at priority inc now emit :
  preserves store_inv (_release lease retry_at priority inc now emit).
Proof.
  rewrite preserves_wp. intros s e Hs. unfold _release.
  wp_steps; try done; bool_prop.
  all: pose proof (si_mailbox _ Hs _ _ ltac:(eassumption)) as Hok.
  all: destruct (owned_resolved _ _ _ _ _ Hok ltac:(eassumption)) as (Hseq & Hle & _).
  all: destruct (mo_items _ _ _ Hok _ _ ltac:(eassumption)).
  all: match goal with
       | |- context [ <[ml_sequence _ := ?i]> _ ] =>
           assert (item_ok (ml_tenant_id lease, ml_session_id lease) (ml_sequence lease) i)
             by (split; simpl; try done; destruct inc; lia);
           pose proof (mailbox_ok_replace _ _ _ _ _ i Hok ltac:(eassumption)
             ltac:(eassumption) eq_refl) as Hok'
       end.
  all: destruct (released_status mb retry_at (now_value now e) emit ltac:(lia))
    as (Hnr & Hni & Hnq).
  all: set (st := if negb emit then RETRY_WAIT else _) in *; clearbody st.
  all: first [emit_cleared Hok' | put_cleared Hok'].
  all: try (split; [done|lia]).
  all: intros ->; exfalso; apply Hnq; [|done]; by destruct emit.
Qed.

(** The item recovery looks at is the head of the queue. *)
Lemma head_sequence key mb items :
  mailbox_ok key mb items ->
  int_or (mb_processing_sequence mb) (mb_resolved_sequence mb + 1) = mb_resolved_sequence mb + 1.
Proof.
  intros Hok. pose proof (mo_bounds _ _ _ Hok).
  destruct (mb_processing_sequence mb) as [n|] eqn:Hn; [|done].
  destruct (processing_is_head _ _ _ _ Hok Hn) as [_ ->]. apply int_or_Some. lia.
Qed.

Lemma recovered_status_spec key mb items item t st ra :
  mailbox_ok key mb items -> items !! (mb_resolved_sequence mb + 1) = item ->
  recovered_status mb (mb_resolved_sequence mb + 1) item t = (st, ra) ->
  st <> RUNNING /\ (st = IDLE <-> mb_resolved_sequence mb = mb_accepted_sequence mb) /\
  (st = QUEUED -> is_Some item).
Proof.
  intros Hok Hit. pose proof (mo_bounds _ _ _ Hok). unfold recovered_status.
  pose proof (mo_dom _ _ _ Hok (mb_resolved_sequence mb + 1)) as Hd. rewrite Hit in Hd.
  destruct item as [it|].
  - destruct Hd as [Hd _]. destruct Hd; [eauto|].
    destruct (Z.ltb_spec (mb_accepted_sequence mb) (mb_resolved_sequence mb + 1)); [lia|].
    case_match; intros; simplify_eq; (split_and!; [done| |by eauto]); (split; [done|lia]).
  - intros. simplify_eq. split_and!; try done. split; [|done]. intros _.
    destruct (decide (mb_resolved_sequence mb < mb_accepted_sequence mb)); [|lia].
    destruct Hd as [_ Hd]. destruct Hd; [lia|done].
Qed.

Lemma recover_preserves tenant_id session_id now :
  preserves store_inv (recover tenant_id session_id now).
Proof.
  rewrite preserves_wp. intros s e Hs. unfold recover.
  wp_steps; try done; bool_prop.
  all: pose proof (si_mailbox _ Hs _ _ ltac:(eassumption)) as Hok.
  all: rewrite (head_sequence _ _ _ Hok) in *.
  all: edestruct recovered_status_spec as (Hnr & Hid & Hq);
    [exact Hok|first [eassumption|reflexivity]|eassumption|].
  all: pose proof (mo_bounds _ _ _ Hok).
  all: try done.
  all: first [by destruct Hq | emit_cleared Hok | put_cleared Hok].
Qed.

(** [_requeue_ready] appends exactly when the generation has no record. *)
Lemma is_ready_record_spec s key g r :
  store_inv s -> r ∈ ms_outbox s ->
  is_ready_record key.1 key.2 g r = true <-> ready_of r = Some (key, g).
Proof.
  intros Hs Hr. destruct (si_generation _ Hs r Hr) as (k & mb & g' & Hr' & _).
  rewrite Hr'. unfold ready_of in Hr'. unfold is_ready_record.
  destruct (bool_decide (ob_event_type r = _)); [|done].
  destruct (py_get _ _); try done. simplify_eq. simpl.
  rewrite !andb_true_iff, !bool_decide_eq_true, Z.eqb_eq. destruct key. naive_solver.
Qed.

Lemma has_record_spec s key g :
  store_inv s ->
  existsb (is_ready_record key.1 key.2 g) (ms_outbox s) = true <->
  exists r, r ∈ ms_outbox s /\ ready_of r = Some (key, g).
Proof.
  intros Hs. rewrite existsb_exists. setoid_rewrite <-list_elem_of_In.
  split; intros (r & Hr & Hx); exists r; (split; [done|]); by apply (is_ready_record_spec s).
Qed.

(** The requeue of a queued mailbox keeps its generation. *)
Lemma requeue_inv key mb mb' item t s e :
  store_inv s -> dget key (ms_mailboxes s) = Some mb -> mailbox_ok key mb' (items_of key s) ->
  mb_queue_generation mb' = mb_queue_generation mb -> 1 <= mb_queue_generation mb ->
  wp (let* u := _requeue_ready mb' item t in put_mailbox key u ;; ret (Some u))
    (fun _ s' _ => store_inv s') s e.
Proof.
  intros Hs Hk Hok Hg H1.
  assert (Hmax : Z.max 1 (mb_queue_generation mb') = mb_queue_generation mb) by lia.
  unfold _requeue_ready. rewrite Hmax, (mo_tenant _ _ _ Hok), (mo_session _ _ _ Hok).
  assert (Hok' : mailbox_ok key (mb' <| mb_queue_generation := mb_queue_generation mb |>)
    (items_of key s)) by (apply mailbox_ok_generation; [done|lia]).
  wp_steps; bool_prop.
  - eapply (store_inv_update key _ (items_of key s) [_]); [done|solve_updated|exact Hok'| |].
    + intros mb0 ?. simplify_eq. done.
    + right. eexists. split_and!; [done|simpl; eapply ready_of_mailbox; exact Hok|done|].
      intros Hin. apply list_elem_of_fmap in Hin as (r & Hr & Hin).
      match goal with Hf : existsb _ _ = false |- _ => rewrite <-not_true_iff_false in Hf;
        apply Hf, has_record_spec; [done|] end. by exists r.
  - eapply (store_inv_update key _ (items_of key s) []); [done|solve_updated|exact Hok'| |].
    + intros mb0 ?. simplify_eq. done.
    + left. split; [done|]. intros _. by apply has_record_spec.
Qed.

Lemma lease_active_running key mb items t :
  mailbox_ok key mb items -> lease_active mb t = true -> mb_status mb = RUNNING.
Proof.
  intros Hok Ha. unfold lease_active in Ha. bool_prop.
  destruct (mb_processing_sequence mb) eqn:Hn; [|done].
  by destruct (processing_is_head _ _ _ _ Hok Hn).
Qed.

Lemma reconcile_active_inv key mb t s :
  store_inv s -> dget key (ms_mailboxes s) = Some mb -> mb_status mb = RUNNING ->
  store_inv (s <| ms_mailboxes := dset key (mb
    <| mb_status := RUNNING |>
    <| mb_processing_sequence := mb_processing_sequence mb |>
    <| mb_processing_inbound_id := mb_processing_inbound_id mb |>
    <| mb_lease_owner := mb_lease_owner mb |>
    <| mb_lease_expires_at := mb_lease_expires_at mb |>
    <| mb_retry_at := mb_retry_at mb |>
    <| mb_updated_at := t |>) (ms_mailboxes s) |>).
Proof.
  intros Hs Hk Hr. pose proof (si_mailbox _ Hs _ _ Hk) as Hok.
  eapply store_inv_put; [done|done|solve_updated| |done|done].
  split; simpl; try apply Hok.
  - rewrite <-(mo_idle _ _ _ Hok), Hr. done.
  - pose proof (mo_lease _ _ _ Hok) as Hl. unfold lease_ok in *. simpl.
    by rewrite Hr in Hl.
Qed.

Lemma reconcile_preserves tenant_id session_id now :
  preserves store_inv (reconcile tenant_id session_id now).
Proof.
  rewrite preserves_wp. intros s e Hs. unfold reconcile. do 5 wp_step; [|wp_steps; done].
  pose proof (si_mailbox _ Hs _ _ ltac:(eassumption)) as Hok.
  rewrite (head_sequence _ _ _ Hok). pose proof (mo_bounds _ _ _ Hok).
  destruct (lease_active s0 (now_value now e)) eqn:Ha.
  - wp_steps; try done; apply reconcile_active_inv; try done; by eapply lease_active_running.
  - do 3 wp_step. edestruct recovered_status_spec as (Hnr & Hid & Hq);
      [exact Hok|reflexivity|eassumption|].
    wp_step; [wp_steps; done|]. destruct (items_of _ s !! _) as [item|] eqn:Hit.
    + destruct (bool_decide (m = QUEUED)) eqn:Hm; simpl; bool_prop.
      * subst m. destruct (bool_decide _ && _) eqn:Hb; bool_prop.
        -- eapply requeue_inv; [done..| |done|done].
           eapply mailbox_ok_clear; [exact Hok|..]; simpl; try done; lia.
        -- wp_steps. emit_cleared Hok.
      * wp_steps. put_cleared Hok.
    + wp_steps. put_cleared Hok. intros Hm. by destruct (Hq Hm).
Qed.

Lemma sweep_loop_preserves eligible handle keys limit handled :
  (forall t s, preserves store_inv (handle t s)) ->
  preserves store_inv (sweep_loop eligible handle keys limit handled).
Proof.
  intros Hh. revert handled. induction keys as [|key rest IH]; intros handled; simpl; [by intros s e|].
  case_match; [by intros s e|]. apply preserves_bind; [by intros s e|]. intros [mb|]; [|by intros s e].
  case_match; [|done]. apply preserves_bind; [done|]. intros. done.
Qed.

Lemma sweep_expired_leases_preserves limit : preserves store_inv (sweep_expired_leases limit).
Proof.
  rewrite preserves_wp. intros s e Hs. unfold sweep_expired_leases. wp_steps; [done|].
  apply (sweep_loop_preserves); [|done]. intros. apply recover_preserves.
Qed.

Lemma schedule_retries_preserves limit : preserves store_inv (schedule_retries limit).
Proof.
  rewrite preserves_wp. intros s e Hs. unfold schedule_retries. wp_steps; [done|].
  apply (sweep_loop_preserves); [|done]. intros. apply reconcile_preserves.
Qed.

Lemma reconcile_sessions_preserves limit : preserves store_inv (reconcile_sessions limit).
Proof.
  rewrite preserves_wp. intros s e Hs. unfold reconcile_sessions. wp_steps; [done|].
  apply (sweep_loop_preserves); [|done]. intros. apply reconcile_preserves.
Qed.

End preservation.
