(* ===== verification/MailboxSpec.v ===== *)
(** * What the mailbox store promises

    An abstract view of one session, the step relation of the store, and the
    theorems: the invariant holds in every reachable store, the store refines an
    ordered log that is resolved one message at a time, counters only grow, and
    a superseded lease can never act again. *)

From S2P Require Import Prelude Tenant Models Mailbox MailboxInv.
#[local] Open Scope Z_scope.

(** ** Calls and the step relation *)

Inductive call : Type :=
  | CAccept (tenant_id session_id inbound_id : string) (priority : Z) (retry_at : option Z)
      (trace_id : option string) (now : option Z)
  | CClaim (tenant_id session_id owner_id : string) (lease_for : Z) (now : option Z)
  | CClaimSession (tenant_id session_id owner_id : string) (lease_for : Z)
      (expected_generation expected_epoch : option Z) (acceptance : option Acceptance)
      (now : option Z)
  | CRenew (lease : MailboxLease) (lease_for : Z) (now : option Z)
  | CRenewMany (leases : list MailboxLease) (lease_for : Z) (now : option Z)
  | CCommit (lease : MailboxLease) (now : option Z)
  | CReschedule (lease : MailboxLease) (retry_at priority now : option Z)
  | CRetry (lease : MailboxLease) (retry_at priority now : option Z)
  | CRetryWithoutWakeup (lease : MailboxLease) (retry_at now : option Z)
  | CRecover (tenant_id session_id : string) (now : option Z)
  | CReconcile (tenant_id session_id : string) (now : option Z)
  | CSweepExpired (limit : Z)
  | CScheduleRetries (limit : Z)
  | CReconcileSessions (limit : Z).

Section calls.
Context `{Env}.

Definition void {A} (m : M MailboxStore A) : M MailboxStore unit := m ;; ret tt.

(** Run one method and drop its result. *)
Definition exec (c : call) : M MailboxStore unit :=
  match c with
  | CAccept t s i p r tr n => void (accept t s i p r tr n)
  | CClaim t s o l n => void (claim t s o l n)
  | CClaimSession t s o l g ep a n => void (claim_session t s o l g ep a n)
  | CRenew l f n => void (renew l f n)
  | CRenewMany l f n => void (renew_many l f n)
  | CCommit l n => void (commit l n)
  | CReschedule l r p n => void (reschedule l r p n)
  | CRetry l r p n => void (retry l r p n)
  | CRetryWithoutWakeup l r n => void (retry_without_wakeup l r n)
  | CRecover t s n => void (recover t s n)
  | CReconcile t s n => void (reconcile t s n)
  | CSweepExpired l => void (sweep_expired_leases l)
  | CScheduleRetries l => void (schedule_retries l)
  | CReconcileSessions l => void (reconcile_sessions l)
  end.

(** One call by any client, whether it returns or raises. *)
Inductive step : MailboxStore * effects -> MailboxStore * effects -> Prop :=
  | step_call c s e r s' e' : exec c s e = (r, s', e') -> step (s, e) (s', e').

Definition reachable (s : MailboxStore) (e : effects) : Prop :=
  exists e0, rtc step (empty_store, e0) (s, e).

Lemma void_preserves {A} I (m : M MailboxStore A) : preserves I m -> preserves I (void m).
Proof. intros. apply preserves_bind; [done|]. intros. apply preserves_ret. Qed.

Lemma exec_preserves c : preserves store_inv (exec c).
Proof.
  destruct c; apply void_preserves; [apply accept_preserves|apply claim_preserves
    |apply claim_session_preserves|apply renew_preserves|apply renew_many_preserves
    |apply commit_preserves
    |apply release_preserves|apply release_preserves|apply release_preserves
    |apply recover_preserves|apply reconcile_preserves|apply sweep_expired_leases_preserves
    |apply schedule_retries_preserves|apply reconcile_sessions_preserves].
Qed.

Lemma step_inv c c' : step c c' -> store_inv c.1 -> store_inv c'.1.
Proof.
  intros [cl s e r s' e' Hrun] Hs. pose proof (exec_preserves cl s e Hs) as Hp.
  by rewrite Hrun in Hp.
Qed.

Lemma steps_inv c c' : rtc step c c' -> store_inv c.1 -> store_inv c'.1.
Proof. induction 1; eauto using step_inv. Qed.

(** ** Progress: counters only grow and wake-ups are only appended *)

Record mailbox_le (mb mb' : SessionMailbox) : Prop := {
  le_accepted : mb_accepted_sequence mb <= mb_accepted_sequence mb';
  le_resolved : mb_resolved_sequence mb <= mb_resolved_sequence mb';
  le_generation : mb_queue_generation mb <= mb_queue_generation mb';
  le_epoch : mb_lease_epoch mb <= mb_lease_epoch mb';
}.

Record store_le (s s' : MailboxStore) : Prop := {
  sle_mailbox : forall key mb, dget key (ms_mailboxes s) = Some mb ->
    exists mb', dget key (ms_mailboxes s') = Some mb' /\ mailbox_le mb mb';
  sle_outbox : ms_outbox s `prefix_of` ms_outbox s';
}.

#[export] Instance mailbox_le_preorder : PreOrder mailbox_le.
Proof. split; [by split|]. intros x y z [] []. split; lia. Qed.

#[export] Instance store_le_preorder : PreOrder store_le.
Proof.
  split.
  - intros s. split; [|done]. intros key mb Hk. exists mb. split; [done|reflexivity].
  - intros x y z [Hxy Hoxy] [Hyz Hoyz]. split; [|by etrans].
    intros key mb Hk. destruct (Hxy key mb Hk) as (mb1 & Hk1 & ?).
    destruct (Hyz key mb1 Hk1) as (mb2 & Hk2 & ?). exists mb2. split; [done|]. by etrans.
Qed.

Lemma store_le_put key mb' s s' :
  ms_mailboxes s' = dset key mb' (ms_mailboxes s) ->
  (forall mb, dget key (ms_mailboxes s) = Some mb -> mailbox_le mb mb') ->
  (exists new, ms_outbox s' = ms_outbox s ++ new) -> store_le s s'.
Proof.
  intros Hmb Hle [new Hout]. split; [|by exists new].
  intros k mb Hk. rewrite Hmb, dget_dset. case_decide; subst; [eauto|].
  exists mb. split; [done|reflexivity].
Qed.

(** [m] only moves the store forward. *)
Definition advances {A} (m : M MailboxStore A) : Prop :=
  forall s e, store_inv s -> wp m (fun _ s' _ => store_le s s') s e.

Ltac solve_le :=
  first
    [ reflexivity
    | eapply store_le_put;
      [ simpl; rewrite ?dset_dset; reflexivity
      | intros mb0 ?; simplify_eq; split; simpl; lia
      | simpl; first [eexists; reflexivity | exists []; by rewrite app_nil_r] ] ].

Lemma advances_bind {A B} (m : M MailboxStore A) (k : A -> M MailboxStore B) :
  preserves store_inv m -> advances m -> (forall a, advances (k a)) -> advances (bind m k).
Proof.
  intros Hp Hm Hk s e Hs. apply wp_bind. pose proof (Hp s e Hs) as Hs'.
  specialize (Hm s e Hs). unfold wp in *.
  destruct (m s e) as [[[a|x] s'] e']; simpl in *; [|done].
  etrans; [done|]. by apply Hk.
Qed.

Lemma advances_ret {A} (a : A) : advances (ret a).
Proof. intros s e _. apply wp_ret. reflexivity. Qed.

Lemma accept_advances t ss i p r tr n : advances (accept t ss i p r tr n).
Proof.
  intros s e Hs. unfold accept, accept_item. wp_steps; solve_le.
Qed.

Lemma claim_advances t ss o l n : advances (claim t ss o l n).
Proof. intros s e Hs. unfold claim. wp_steps; solve_le. Qed.

Lemma claim_session_advances t ss o l g ep a n : advances (claim_session t ss o l g ep a n).
Proof.
  intros s e Hs. unfold claim_session, get. wp_steps; try solve_le.
  all: eapply wp_mono; [by apply claim_advances|].
  all: intros [?|?] s' e' ?; wp_steps; done.
Qed.

Lemma renew_advances l f n : advances (renew l f n).
Proof. intros s e Hs. unfold renew. wp_steps; solve_le. Qed.

Lemma renew_many_advances l f n : advances (renew_many l f n).
Proof.
  induction l as [|x l IH]; simpl; [apply advances_ret|].
  apply advances_bind; [apply renew_preserves|apply renew_advances|]. intros y.
  apply advances_bind; [apply renew_many_preserves|done|]. intros. apply advances_ret.
Qed.

Lemma commit_advances l n : advances (commit l n).
Proof.
  intros s e Hs. unfold commit. wp_steps; try reflexivity.
  all: destruct (owned_resolved _ _ _ _ _ (si_mailbox _ Hs _ _ ltac:(eassumption))
    ltac:(eassumption)) as (? & ? & _).
  all: solve_le.
Qed.

Lemma release_advances l r p i n em : advances (_release l r p i n em).
Proof. intros s e Hs. unfold _release. wp_steps; solve_le. Qed.

Lemma recover_advances t ss n : advances (recover t ss n).
Proof. intros s e Hs. unfold recover. wp_steps; solve_le. Qed.

Lemma reconcile_advances t ss n : advances (reconcile t ss n).
Proof.
  intros s e Hs. unfold reconcile, _requeue_ready. wp_steps; solve_le.
Qed.

Lemma sweep_loop_advances eligible handle keys limit handled :
  (forall t s, preserves store_inv (handle t s)) -> (forall t s, advances (handle t s)) ->
  advances (sweep_loop eligible handle keys limit handled).
Proof.
  intros Hp Ha. revert handled. induction keys as [|key rest IH]; intros handled; simpl;
    [apply advances_ret|].
  case_match; [apply advances_ret|].
  apply advances_bind; [by intros s e|intros s e _; apply wp_gets; reflexivity|].
  intros [mb|]; [|intros s e _; apply wp_raise; reflexivity].
  case_match; [|done]. apply advances_bind; auto.
Qed.

Lemma sweep_advances (P : Z -> M MailboxStore Z) limit :
  (forall t, advances (P t)) ->
  advances (raise_if (limit <? 1) (ValueError "recovery limit must be positive") ;;
            let* t := datetime_now in P t).
Proof. intros HP s e Hs. wp_steps; [reflexivity|]. by apply HP. Qed.

Lemma exec_advances c : advances (exec c).
Proof.
  assert (Hv : forall A (m : M MailboxStore A), preserves store_inv m -> advances m -> advances (void m)).
  { intros. apply advances_bind; auto using advances_ret. }
  assert (Hsw : forall elig handle limit, (forall t s, preserves store_inv (handle t s)) ->
    (forall t s, advances (handle t s)) -> advances (let* keys := gets (fun s => dkeys (ms_mailboxes s)) in
      sweep_loop elig handle keys limit 0)).
  { intros ?????. intros s e Hs. wp_steps. by apply sweep_loop_advances. }
  destruct c; apply Hv; auto using accept_preserves, accept_advances, claim_preserves,
    claim_advances, claim_session_preserves, claim_session_advances, renew_preserves,
    renew_advances, renew_many_preserves, renew_many_advances, commit_preserves, commit_advances, recover_preserves, recover_advances,
    reconcile_preserves, reconcile_advances, sweep_expired_leases_preserves,
    schedule_retries_preserves, reconcile_sessions_preserves.
  all: try apply release_preserves; try apply release_advances.
  all: apply sweep_advances; intros; apply Hsw; auto using recover_preserves, recover_advances,
    reconcile_preserves, reconcile_advances.
Qed.

Lemma steps_le c c' : rtc step c c' -> store_inv c.1 -> store_le c.1 c'.1.
Proof.
  induction 1 as [|x y z Hxy Hyz IH]; intros Hs; [reflexivity|].
  etrans; [|apply IH; by eapply step_inv].
  destruct Hxy as [cl s e r s' e' Hrun]. pose proof (exec_advances cl s e Hs) as Hp.
  unfold wp in Hp. by rewrite Hrun in Hp.
Qed.

(** ** The abstract session: a log of message ids and how many are resolved *)

Definition inbound_at (items : gmap Z MailboxItem) (n : Z) : string :=
  from_option mi_inbound_id ""%string (items !! n).

Definition inbound_ids (mb : SessionMailbox) (items : gmap Z MailboxItem) : list string :=
  inbound_at items <$> seqZ 1 (mb_accepted_sequence mb).

Definition view (key : session_key) (s : MailboxStore) : list string * Z :=
  match dget key (ms_mailboxes s) with
  | Some mb => (inbound_ids mb (items_of key s), mb_resolved_sequence mb)
  | None => ([], 0)
  end.

(** What one call may do to a session: nothing, append a message the log does
    not hold, or resolve the first unresolved message and report it. *)
Inductive session_step : list string * Z -> list string -> list string * Z -> Prop :=
  | session_same v : session_step v [] v
  | session_accept log n id : id ∉ log -> session_step (log, n) [] (log ++ [id], n)
  | session_commit log n id : 0 <= n -> log !! Z.to_nat n = Some id ->
      session_step (log, n) [id] (log, n + 1).

(** The message a call reports as resolved for [key]. *)
Definition resolved_by (c : call) (r : outcome unit) (key : session_key) : list string :=
  match c, r with
  | CCommit l _, Ok _ =>
      if decide (key = (ml_tenant_id l, ml_session_id l)) then [ml_inbound_id l] else []
  | _, _ => []
  end.

Lemma view_put key mb mb' s s' :
  dget key (ms_mailboxes s) = Some mb -> ms_mailboxes s' = dset key mb' (ms_mailboxes s) ->
  (forall k, k <> key -> items_of k s' = items_of k s) ->
  mb_accepted_sequence mb' = mb_accepted_sequence mb ->
  mb_resolved_sequence mb' = mb_resolved_sequence mb ->
  (forall n, inbound_at (items_of key s') n = inbound_at (items_of key s) n) ->
  forall k, view k s' = view k s.
Proof.
  intros Hk Hmb Hoth Ha Hr Hi k. unfold view. rewrite Hmb, dget_dset.
  case_decide; subst.
  - rewrite Hk, Hr. unfold inbound_ids. rewrite Ha. f_equal.
    apply list_fmap_ext. intros. apply Hi.
  - by rewrite Hoth.
Qed.

(** The n-th entry of the log is the (n+1)-th item. *)
Lemma inbound_ids_lookup key mb items n it :
  mailbox_ok key mb items -> 0 <= n -> items !! (n + 1) = Some it ->
  inbound_ids mb items !! Z.to_nat n = Some (mi_inbound_id it).
Proof.
  intros Hok Hn Hit.
  assert (Hr : 1 <= n + 1 <= mb_accepted_sequence mb) by (apply (mo_dom _ _ _ Hok); eauto).
  unfold inbound_ids, inbound_at. rewrite list_lookup_fmap, lookup_seqZ_lt by lia.
  simpl. by replace (1 + Z.of_nat (Z.to_nat n)) with (n + 1) by lia; rewrite Hit.
Qed.

Lemma inbound_ids_elem key mb items id :
  mailbox_ok key mb items ->
  id ∈ inbound_ids mb items <-> exists n it, items !! n = Some it /\ mi_inbound_id it = id.
Proof.
  intros Hok. unfold inbound_ids, inbound_at. rewrite list_elem_of_fmap. setoid_rewrite elem_of_seqZ.
  split.
  - intros (n & -> & Hn). destruct (proj2 (mo_dom _ _ _ Hok n)) as [it Hit]; [lia|].
    exists n, it. by rewrite Hit.
  - intros (n & it & Hit & <-). exists n. rewrite Hit. split; [done|].
    assert (1 <= n <= mb_accepted_sequence mb) by (apply (mo_dom _ _ _ Hok); eauto). lia.
Qed.

Lemma inbound_at_replace items n it it' k :
  items !! n = Some it -> mi_inbound_id it' = mi_inbound_id it ->
  inbound_at (<[n := it']> items) k = inbound_at items k.
Proof.
  intros Hn Hid. unfold inbound_at. rewrite lookup_insert. case_decide; subst; [|done].
  by rewrite Hn.
Qed.

Definition keeps_view {A} (m : M MailboxStore A) : Prop :=
  forall s e, store_inv s -> wp m (fun _ s' _ => forall k, view k s' = view k s) s e.

Lemma items_of_put key k m s : k <> key ->
  items_of k (s <| ms_items := <[key := m]> (ms_items s) |>) = items_of k s.
Proof. intros. unfold items_of. simpl. by rewrite lookup_insert_ne. Qed.

Lemma items_of_put_eq key m s : items_of key (s <| ms_items := <[key := m]> (ms_items s) |>) = m.
Proof. unfold items_of. simpl. by rewrite lookup_insert_eq. Qed.

Ltac solve_view :=
  first
    [ done
    | eapply view_put;
      [ eassumption
      | simpl; reflexivity
      | intros; first [reflexivity | by apply items_of_put]
      | simpl; reflexivity
      | simpl; reflexivity
      | intros; first
          [ reflexivity
          | unfold items_of at 1; simpl; rewrite lookup_insert_eq; by eapply inbound_at_replace ] ] ].

Lemma claim_keeps_view t ss o l n : keeps_view (claim t ss o l n).
Proof. intros s e Hs. unfold claim. wp_steps; solve_view. Qed.

Lemma claim_session_keeps_view t ss o l g ep a n : keeps_view (claim_session t ss o l g ep a n).
Proof.
  intros s e Hs. unfold claim_session, get. wp_steps; try done.
  all: eapply wp_mono; [by apply claim_keeps_view|].
  all: intros [?|?] s' e' ?; wp_steps; done.
Qed.

Lemma renew_keeps_view l f n : keeps_view (renew l f n).
Proof. intros s e Hs. unfold renew. wp_steps; solve_view. Qed.

Lemma release_keeps_view l r p i n em : keeps_view (_release l r p i n em).
Proof. intros s e Hs. unfold _release. wp_steps; solve_view. Qed.

Lemma recover_keeps_view t ss n : keeps_view (recover t ss n).
Proof. intros s e Hs. unfold recover. wp_steps; solve_view. Qed.

Lemma reconcile_keeps_view t ss n : keeps_view (reconcile t ss n).
Proof. intros s e Hs. unfold reconcile, _requeue_ready. wp_steps; solve_view. Qed.

Lemma keeps_view_bind {A B} (m : M MailboxStore A) (k : A -> M MailboxStore B) :
  preserves store_inv m -> keeps_view m -> (forall a, keeps_view (k a)) -> keeps_view (bind m k).
Proof.
  intros Hp Hm Hk s e Hs. apply wp_bind. pose proof (Hp s e Hs) as Hs'.
  specialize (Hm s e Hs). unfold wp in *.
  destruct (m s e) as [[[a|x] s'] e']; simpl in *; [|done].
  intros k'. rewrite <-Hm. by apply Hk.
Qed.

Lemma renew_many_keeps_view l f n : keeps_view (renew_many l f n).
Proof.
  induction l as [|x l IH]; simpl; [by intros s e _|].
  apply keeps_view_bind; [apply renew_preserves|apply renew_keeps_view|]. intros y.
  apply keeps_view_bind; [apply renew_many_preserves|done|]. by intros z s e _.
Qed.

Lemma sweep_loop_keeps_view eligible handle keys limit handled :
  (forall t s, preserves store_inv (handle t s)) -> (forall t s, keeps_view (handle t s)) ->
  keeps_view (sweep_loop eligible handle keys limit handled).
Proof.
  intros Hp Ha. revert handled. induction keys as [|key rest IH]; intros handled; simpl;
    [by intros s e _|].
  case_match; [by intros s e _|]. apply keeps_view_bind; [by intros s e|by intros s e _|].
  intros [mb|]; [|by intros s e _]. case_match; [|done]. apply keeps_view_bind; auto.
Qed.

Lemma sweep_keeps_view eligible handle limit :
  (forall t s ss, preserves store_inv (handle t s ss)) ->
  (forall t s ss, keeps_view (handle t s ss)) ->
  keeps_view (raise_if (limit <? 1) (ValueError "recovery limit must be positive") ;;
    let* t := datetime_now in
    let* keys := gets (fun s => dkeys (ms_mailboxes s)) in
    sweep_loop (eligible t) (handle t) keys limit 0).
Proof. intros Hp Hv s e Hs. wp_steps; [done|]. by apply sweep_loop_keeps_view. Qed.

Lemma inbound_ids_app (mb mb' : SessionMailbox) items item :
  0 <= mb_accepted_sequence mb -> mb_accepted_sequence mb' = mb_accepted_sequence mb + 1 ->
  inbound_ids mb' (<[mb_accepted_sequence mb + 1 := item]> items)
  = inbound_ids mb items ++ [mi_inbound_id item].
Proof.
  intros Hb Ha. unfold inbound_ids. rewrite Ha, seqZ_app, fmap_app by lia. f_equal.
  - apply list_fmap_ext. intros i n Hn. apply lookup_seqZ in Hn as [-> ?].
    unfold inbound_at. rewrite lookup_insert_ne by lia. done.
  - rewrite seqZ_cons, seqZ_nil by lia. simpl. unfold inbound_at.
    replace (1 + mb_accepted_sequence mb) with (mb_accepted_sequence mb + 1) by lia.
    by rewrite lookup_insert_eq.
Qed.

Lemma view_accept key mb mb' item s s' :
  store_inv s -> dget key (ms_mailboxes s) = Some mb ->
  has_inbound (mi_inbound_id item) (items_of key s) = false ->
  ms_mailboxes s' = dset key mb' (ms_mailboxes s) ->
  (forall k, k <> key -> items_of k s' = items_of k s) ->
  items_of key s' = <[mb_accepted_sequence mb + 1 := item]> (items_of key s) ->
  mb_accepted_sequence mb' = mb_accepted_sequence mb + 1 ->
  mb_resolved_sequence mb' = mb_resolved_sequence mb ->
  forall k, session_step (view k s) [] (view k s').
Proof.
  intros Hs Hk Hin Hmb Hoth Hit Ha Hr k. pose proof (si_mailbox _ Hs _ _ Hk) as Hok.
  pose proof (mo_bounds _ _ _ Hok). unfold view. rewrite Hmb, dget_dset. case_decide; subst.
  - rewrite Hk, Hit, Hr, (inbound_ids_app mb mb') by (done || lia).
    apply session_accept. rewrite (inbound_ids_elem _ _ _ _ Hok).
    intros (n & it & Hit' & Hid). rewrite has_inbound_false in Hin. by eapply Hin.
  - rewrite Hoth by done. apply session_same.
Qed.

Lemma view_ensure key t s k :
  store_inv s -> dget key (ms_mailboxes s) = None ->
  view k (s <| ms_mailboxes := dset key (new_mailbox key.1 key.2 t) (ms_mailboxes s) |>) = view k s.
Proof.
  intros Hs Hk. unfold view. simpl. rewrite dget_dset. case_decide; subst; [by rewrite Hk|done].
Qed.

Lemma accept_item_refines key mb i p r tr t s e :
  store_inv s -> dget key (ms_mailboxes s) = Some mb -> has_inbound i (items_of key s) = false ->
  wp (accept_item key mb i p r tr t)
    (fun _ s' _ => forall k, session_step (view k s) [] (view k s')) s e.
Proof.
  intros Hs Hk Hin. unfold accept_item. wp_steps; [intros; apply session_same|..].
  all: eapply (view_accept key mb); [done|done| |simpl; reflexivity| | |done|done].
  all: try (intros; by apply items_of_put).
  all: try (unfold items_of at 1; simpl; by rewrite lookup_insert_eq).
  all: done.
Qed.

Lemma accept_refines t ss i p r tr n s e :
  store_inv s ->
  wp (accept t ss i p r tr n) (fun _ s' _ => forall k, session_step (view k s) [] (view k s')) s e.
Proof.
  intros Hs. unfold accept. wp_steps; try (intros; apply session_same).
  - intros. rewrite view_ensure by done. apply session_same.
  - by apply accept_item_refines.
  - eapply wp_mono; [apply accept_item_refines; [by apply store_inv_ensure|apply dget_dset_eq|done]|].
    intros [?|?] s' e' Hv k; specialize (Hv k); by rewrite view_ensure in Hv by done.
Qed.

(** A fenced commit resolves exactly the head of its session. *)
Lemma view_commit key mb mb' lease now s s' :
  store_inv s -> key = (ml_tenant_id lease, ml_session_id lease) ->
  dget key (ms_mailboxes s) = Some mb -> _owns (Some mb) lease now = true ->
  ms_mailboxes s' = dset key mb' (ms_mailboxes s) -> ms_items s' = ms_items s ->
  mb_accepted_sequence mb' = mb_accepted_sequence mb ->
  mb_resolved_sequence mb' = ml_sequence lease ->
  forall k, session_step (view k s) (if decide (k = key) then [ml_inbound_id lease] else [])
              (view k s').
Proof.
  intros Hs -> Hk Hown Hmb Hit Ha Hr k. pose proof (si_mailbox _ Hs _ _ Hk) as Hok.
  destruct (owned_resolved _ _ _ _ _ Hok Hown) as (Hseq & Hle & it & Hi & Hid).
  assert (Hio : forall k, items_of k s' = items_of k s) by (intros; unfold items_of; by rewrite Hit).
  unfold view. rewrite Hmb, dget_dset, Hio. destruct (decide (k = _)) as [->|Hne].
  - rewrite decide_True by done. rewrite Hk, Hr, Hseq. unfold inbound_ids. rewrite Ha.
    fold (inbound_ids mb (items_of (ml_tenant_id lease, ml_session_id lease) s)).
    pose proof (mo_bounds _ _ _ Hok). rewrite <-Hid. apply session_commit; [lia|].
    eapply inbound_ids_lookup; [done|lia|]. by rewrite <-Hseq.
  - rewrite decide_False by done. apply session_same.
Qed.

Lemma commit_refines lease now s e :
  store_inv s ->
  wp (commit lease now)
    (fun r s' _ => forall k, session_step (view k s)
       (match r with
        | Ok _ => if decide (k = (ml_tenant_id lease, ml_session_id lease))
                  then [ml_inbound_id lease] else []
        | Raise _ => []
        end) (view k s')) s e.
Proof.
  intros Hs. unfold commit. wp_steps; try (intros; apply session_same).
  all: eapply view_commit; try done; simpl; reflexivity.
Qed.

Lemma keeps_view_refines {A} (m : M MailboxStore A) c r s e s' e' :
  keeps_view m -> store_inv s -> void m s e = (r, s', e') -> (forall k, resolved_by c r k = []) ->
  forall k, session_step (view k s) (resolved_by c r k) (view k s').
Proof.
  intros Hv Hs Hrun Hc k. rewrite Hc. specialize (Hv s e Hs). unfold wp in Hv.
  unfold void, bind in Hrun. destruct (m s e) as [[[a|x] s1] e1]; simpl in *; simplify_eq;
    unfold ret in *; simplify_eq; rewrite Hv; apply session_same.
Qed.

(** Every call is one abstract step of every session. *)
Lemma exec_refines c s e r s' e' :
  store_inv s -> exec c s e = (r, s', e') ->
  forall k, session_step (view k s) (resolved_by c r k) (view k s').
Proof.
  intros Hs Hrun. destruct c.
  1: { pose proof (accept_refines tenant_id session_id inbound_id priority retry_at trace_id now
         s e Hs) as Hw. unfold exec, void, bind in Hrun. unfold wp in Hw. simpl in *.
       destruct (accept _ _ _ _ _ _ _ s e) as [[[?|?] ?] ?]; unfold ret in *; by simplify_eq/=. }
  5: { pose proof (commit_refines lease now s e Hs) as Hw.
       unfold exec, void, bind in Hrun. unfold wp in Hw. simpl in *.
       destruct (commit _ _ s e) as [[[?|?] ?] ?]; unfold ret in *; by simplify_eq/=. }
  all: eapply keeps_view_refines; [|done|exact Hrun|done].
  all: auto using claim_keeps_view, claim_session_keeps_view, renew_keeps_view,
    renew_many_keeps_view, recover_keeps_view, reconcile_keeps_view.
  all: try apply release_keeps_view.
  - apply (sweep_keeps_view (fun t mb => due (mb_lease_expires_at mb) t)
      (fun t x y => recover x y (Some t))); auto using recover_preserves, recover_keeps_view.
  - apply (sweep_keeps_view
      (fun t mb => bool_decide (mb_status mb = RETRY_WAIT) && due (mb_retry_at mb) t)
      (fun t x y => reconcile x y (Some t))); auto using reconcile_preserves, reconcile_keeps_view.
  - apply (sweep_keeps_view (fun _ mb => negb (bool_decide (mb_status mb = RUNNING)))
      (fun t x y => reconcile x y (Some t))); auto using reconcile_preserves, reconcile_keeps_view.
Qed.

(** ** Runs and the messages they resolve for one session *)

Inductive run (key : session_key)
    : MailboxStore * effects -> list string -> MailboxStore * effects -> Prop :=
  | run_nil c : run key c [] c
  | run_step cl s e r s' e' tr c :
      exec cl s e = (r, s', e') -> run key (s', e') tr c ->
      run key (s, e) (resolved_by cl r key ++ tr) c.

Definition view_ok (v : list string * Z) : Prop := 0 <= v.2 <= Z.of_nat (length v.1).

Lemma session_step_take v lab v' :
  session_step v lab v' -> view_ok v ->
  view_ok v' /\ take (Z.to_nat v'.2) v'.1 = take (Z.to_nat v.2) v.1 ++ lab.
Proof.
  unfold view_ok. intros [v0|log n id Hni|log n id Hn Hid] Hok; simpl in *.
  - by rewrite app_nil_r.
  - rewrite length_app, app_nil_r. simpl. split; [lia|]. apply take_app_le. lia.
  - apply lookup_lt_Some in Hid as Hlt. split; [lia|].
    replace (Z.to_nat (n + 1)) with (S (Z.to_nat n)) by lia. by apply take_S_r.
Qed.

(** Several steps, with everything they resolve. *)
Inductive session_path : list string * Z -> list string -> list string * Z -> Prop :=
  | path_nil v : session_path v [] v
  | path_cons v lab v1 labs v2 : session_step v lab v1 -> session_path v1 labs v2 -> session_path v (lab ++ labs) v2.

Lemma session_path_one v lab v' : session_step v lab v' -> session_path v lab v'.
Proof. intros Hs. rewrite <-(app_nil_r lab). eapply path_cons; [exact Hs|apply path_nil]. Qed.

Lemma session_path_take v labs v' :
  session_path v labs v' -> view_ok v -> view_ok v' /\ take (Z.to_nat v'.2) v'.1 = take (Z.to_nat v.2) v.1 ++ labs.
Proof.
  induction 1 as [v|v lab v1 labs v2 Hstep _ IH]; intros Hv; [by rewrite app_nil_r|].
  destruct (session_step_take _ _ _ Hstep Hv) as [Hv1 Htake]. destruct (IH Hv1) as [Hv2 Heq].
  split; [done|]. by rewrite Heq, Htake, app_assoc.
Qed.

Lemma run_take key c tr c' :
  run key c tr c' -> store_inv c.1 -> view_ok (view key c.1) ->
  store_inv c'.1 /\
  take (Z.to_nat (view key c'.1).2) (view key c'.1).1
  = take (Z.to_nat (view key c.1).2) (view key c.1).1 ++ tr.
Proof.
  induction 1 as [c|cl s e r s' e' tr c Hrun Hr IH]; intros Hs Hv.
  - split; [done|]. by rewrite app_nil_r.
  - simpl in *. pose proof (exec_refines _ _ _ _ _ _ Hs Hrun key) as Hstep.
    destruct (session_step_take _ _ _ Hstep Hv) as [Hv' Htake].
    destruct IH as [Hc Heq]; [|done|].
    + pose proof (exec_preserves cl s e Hs) as Hp. by rewrite Hrun in Hp.
    + split; [done|]. by rewrite Heq, Htake, app_assoc.
Qed.

Lemma inbound_ids_NoDup key mb items : mailbox_ok key mb items -> NoDup (inbound_ids mb items).
Proof.
  intros Hok. unfold inbound_ids.
  apply NoDup_fmap_2_strong; [|apply NoDup_seqZ]. intros x y Hx Hy.
  rewrite elem_of_seqZ in Hx, Hy. unfold inbound_at.
  destruct (proj2 (mo_dom _ _ _ Hok x)) as [ix Hix]; [lia|].
  destruct (proj2 (mo_dom _ _ _ Hok y)) as [iy Hiy]; [lia|].
  rewrite Hix, Hiy. simpl. by apply (mo_distinct _ _ _ Hok).
Qed.

Lemma view_NoDup key s : store_inv s -> NoDup (view key s).1.
Proof.
  intros Hs. unfold view. destruct (dget key (ms_mailboxes s)) as [mb|] eqn:Hk; simpl; [|constructor].
  eapply inbound_ids_NoDup, Hs, Hk.
Qed.

(** ** Executing a list of calls *)

Fixpoint run_calls (cs : list call) (c : MailboxStore * effects) : MailboxStore * effects :=
  match cs with
  | [] => c
  | cl :: cs => let '(_, s, e) := exec cl c.1 c.2 in run_calls cs (s, e)
  end.

Fixpoint trace_calls (key : session_key) (cs : list call) (c : MailboxStore * effects)
    : list string :=
  match cs with
  | [] => []
  | cl :: cs => let '(r, s, e) := exec cl c.1 c.2 in
                resolved_by cl r key ++ trace_calls key cs (s, e)
  end.

Lemma run_calls_steps cs c : rtc step c (run_calls cs c).
Proof.
  revert c. induction cs as [|cl cs IH]; intros [s e]; simpl; [done|].
  destruct (exec cl s e) as [[r s'] e'] eqn:Hrun. eapply rtc_l; [by econstructor|apply IH].
Qed.

Lemma run_calls_run key cs c : run key c (trace_calls key cs c) (run_calls cs c).
Proof.
  revert c. induction cs as [|cl cs IH]; intros [s e]; simpl; [constructor|].
  destruct (exec cl s e) as [[r s'] e'] eqn:Hrun. econstructor; [done|apply IH].
Qed.
End calls.
