(* ===== verification/MailboxThms.v ===== *)
(** * Theorems about the mailbox store

    The properties of [InMemorySessionMailboxStore] the rest of the service
    relies on, each with a concrete run where its hypotheses hold. *)

From S2P Require Import Prelude PyText Tenant Models Mailbox MailboxInv MailboxSpec.
#[local] Open Scope Z_scope.

(** ** Lemmas about single transitions *)

Abbreviation lease_key lease := (ml_tenant_id lease, ml_session_id lease).
Abbreviation superseded := (FencingConflict "mailbox lease is no longer current").

Section transitions.
Context `{Env}.

Lemma claim_granted t ss o l n s e :
  store_inv s ->
  wp (claim t ss o l n) (fun r s' _ =>
    match r with
    | Ok (Some lease) =>
        ml_tenant_id lease = t /\ ml_session_id lease = ss /\
        exists mb mb', dget (t, ss) (ms_mailboxes s) = Some mb /\
          dget (t, ss) (ms_mailboxes s') = Some mb' /\
          ml_epoch lease = mb_lease_epoch mb + 1 /\ mb_lease_epoch mb' = ml_epoch lease
    | _ => True
    end) s e.
Proof.
  intros Hs. unfold claim. wp_steps; try done.
  all: split_and!; try done; eexists _, _; split_and!; [done|simpl; apply dget_dset_eq|done|done].
Qed.

Lemma not_owner_epoch mb lease now :
  ml_epoch lease < mb_lease_epoch mb -> _owns (Some mb) lease now = false.
Proof.
  intros Hlt. apply not_true_iff_false. rewrite owns_spec. intros (_ & _ & _ & _ & ? & _). lia.
Qed.

(** The fenced transitions reject a caller that does not own the lease, and
    change nothing. *)
Lemma require_owned_not key lease now s e :
  _owns (dget key (ms_mailboxes s)) lease now = false ->
  _require_owned key lease now s e = (Raise superseded, s, e).
Proof.
  intros Hno. unfold _require_owned, bind, gets.
  destruct (dget key (ms_mailboxes s)); [|done]. by rewrite Hno.
Qed.

Lemma commit_not_owner lease n s e :
  _owns (dget (lease_key lease) (ms_mailboxes s)) lease (now_value n e) = false ->
  commit lease n s e = (Raise superseded, s, now_effects n e).
Proof.
  intros Hno. unfold commit, bind at 1. destruct n; simpl in *; unfold bind at 1;
    by rewrite require_owned_not.
Qed.

Lemma renew_not_owner lease lf n s e :
  0 < lf -> _owns (dget (lease_key lease) (ms_mailboxes s)) lease (now_value n e) = false ->
  renew lease lf n s e = (Raise superseded, s, now_effects n e).
Proof.
  intros Hlf Hno. unfold renew, _validate_lease_for, raise_if.
  destruct (Z.leb_spec lf 0); [lia|].
  destruct n; simpl in *; unfold bind, ret, datetime_now; by rewrite require_owned_not.
Qed.

Lemma release_not_owner lease ra i em n s e :
  _owns (dget (lease_key lease) (ms_mailboxes s)) lease (now_value n e) = false ->
  _release lease ra None i n em s e = (Raise superseded, s, now_effects n e).
Proof.
  intros Hno. unfold _release.
  destruct n; simpl in *; unfold bind, ret, datetime_now; by rewrite require_owned_not.
Qed.

(** An owned commit returns. *)
Lemma commit_owner lease n s e mb :
  store_inv s -> dget (ml_tenant_id lease, ml_session_id lease) (ms_mailboxes s) = Some mb ->
  _owns (Some mb) lease (now_value n e) = true ->
  wp (commit lease n) (fun r s' _ => exists mb', r = Ok mb' /\
    dget (ml_tenant_id lease, ml_session_id lease) (ms_mailboxes s') = Some mb' /\
    mb_resolved_sequence mb' = ml_sequence lease /\
    mb_resolved_sequence mb' = mb_resolved_sequence mb + 1 /\
    mb_lease_owner mb' = None /\ mb_lease_expires_at mb' = None /\
    mb_lease_epoch mb' = mb_lease_epoch mb) s e.
Proof.
  intros Hs Hk Hown. pose proof (si_mailbox _ Hs _ _ Hk) as Hok.
  destruct (owned_resolved _ _ _ _ _ Hok Hown) as (Hseq & _).
  unfold commit. wp_steps; try congruence.
  2-4: simplify_eq; eexists; split_and!; [done|simpl; apply dget_dset_eq|simpl; done..].
  exfalso. simplify_eq. apply owns_spec in Hown as (_ & ? & _). bool_prop. done.
Qed.

(** What a claim does when the head of the session may run. *)
Lemma claim_head tenant_id session_id owner lease_for now s e mb item :
  store_inv s -> forallb (fun v => negb (str_empty v)) [tenant_id; session_id; owner] = true ->
  0 < lease_for -> dget (tenant_id, session_id) (ms_mailboxes s) = Some mb ->
  after (mb_lease_expires_at mb) (now_value now e) = false ->
  items_of (tenant_id, session_id) s !! (mb_resolved_sequence mb + 1) = Some item ->
  (mb_status mb <> RUNNING -> after (mi_retry_at item) (now_value now e) = false) ->
  wp (claim tenant_id session_id owner lease_for now) (fun r s' _ =>
    r = Ok (Some (MkMailboxLease tenant_id session_id (mi_inbound_id item)
          (mb_resolved_sequence mb + 1) owner (mb_lease_epoch mb + 1) (now_value now e + lease_for)
          (mi_attempt item + 1) (mi_retry_count item) (mi_priority item)))) s e.
Proof.
  intros Hs Hids Hlf Hk Hexp Hit Hret. pose proof (si_mailbox _ Hs _ _ Hk) as Hok.
  pose proof (mo_bounds _ _ _ Hok). pose proof (mo_epoch _ _ _ Hok).
  destruct (mo_items _ _ _ Hok _ _ Hit).
  assert (1 <= mb_resolved_sequence mb + 1 <= mb_accepted_sequence mb)
    by (apply (mo_dom _ _ _ Hok); eauto).
  unfold claim. wp_steps; bool_prop; simplify_eq; try congruence; try lia.
  all: try match goal with Hx : existsb _ _ = true |- _ =>
    rewrite existsb_exists in Hx; destruct Hx as (v & Hv & Hx);
    rewrite forallb_forall in Hids; specialize (Hids v Hv); by rewrite Hx in Hids end.
  all: try match goal with Hx : mb_processing_sequence _ = Some _ |- _ =>
    destruct (processing_is_head _ _ _ _ Hok Hx) as [? ->] end.
  all: simplify_eq; try done.
  all: repeat match goal with Hx : _ || _ = true |- _ => apply orb_true_iff in Hx as [Hx|Hx] end;
    bool_prop; try lia.
  all: exfalso; rewrite Hret in *; [done|by eapply not_running].
Qed.
End transitions.

(** ** Sweeps *)

Section sweeps.
Context `{Env}.

Lemma reachable_inv s e : reachable s e -> store_inv s.
Proof. intros [e0 Hsteps]. exact (steps_inv _ _ Hsteps store_inv_empty). Qed.

(** Recovery leaves a lease that has not lapsed alone. *)
Lemma recover_live t ss now s e mb :
  dget (t, ss) (ms_mailboxes s) = Some mb -> due (mb_lease_expires_at mb) now = false ->
  recover t ss (Some now) s e = (Ok None, s, e).
Proof.
  intros Hk Hdue. unfold recover, bind, gets, ret. simpl. rewrite Hk.
  destruct (mb_lease_expires_at mb) as [ex|]; [|done]. simpl in Hdue. bool_prop.
  by destruct (Z.ltb_spec now ex); [|lia].
Qed.

(** Recovery releases a lapsed lease and puts its message back. *)
Lemma recover_lapsed t ss now s e mb :
  store_inv s -> dget (t, ss) (ms_mailboxes s) = Some mb ->
  due (mb_lease_expires_at mb) now = true ->
  wp (recover t ss (Some now)) (fun r s' _ => exists mb',
    r = Ok (Some mb') /\ ms_mailboxes s' = dset (t, ss) mb' (ms_mailboxes s) /\
    mb_lease_expires_at mb' = None /\ mb_lease_owner mb' = None /\
    (mb_status mb' = QUEUED \/ mb_status mb' = RETRY_WAIT)) s e.
Proof.
  intros Hs Hk Hdue. pose proof (si_mailbox _ Hs _ _ Hk) as Hok.
  apply due_true in Hdue as (ex & Hex & Hle).
  assert (mb_status mb = RUNNING) as Hrun.
  { destruct (decide (mb_status mb = RUNNING)) as [|Hn]; [done|].
    destruct (lease_ok_idle _ _ Hn (mo_lease _ _ _ Hok)) as (_ & _ & _ & ?). congruence. }
  unfold recover. wp_steps; bool_prop; simplify_eq; simpl in *; try lia.
  all: rewrite (head_sequence _ _ _ Hok) in *.
  all: edestruct recovered_status_spec as (Hnr & Hid & Hq);
    [exact Hok|first [eassumption|reflexivity]|eassumption|].
  all: rewrite <-(mo_idle _ _ _ Hok), Hrun in Hid.
  all: try (by destruct Hid as [Hid _]; discriminate Hid).
  all: try (by destruct Hq).
  all: eexists; split_and!; try done; simpl; auto.
Qed.

(** One pass over [keys] with room for all of them. *)
Lemma sweep_loop_recovers now keys limit handled s e :
  store_inv s -> NoDup keys -> (forall k, k ∈ keys -> is_Some (dget k (ms_mailboxes s))) ->
  Z.of_nat (length keys) + handled <= limit ->
  wp (sweep_loop (fun mb => due (mb_lease_expires_at mb) now)
        (fun t ss => recover t ss (Some now)) keys limit handled) (fun r s' _ =>
    (exists n, r = Ok n /\ handled <= n <= limit) /\
    (forall k, k ∉ keys -> dget k (ms_mailboxes s') = dget k (ms_mailboxes s)) /\
    (forall k mb, k ∈ keys -> dget k (ms_mailboxes s) = Some mb ->
       exists mb', dget k (ms_mailboxes s') = Some mb' /\
         due (mb_lease_expires_at mb') now = false /\
         (due (mb_lease_expires_at mb) now = true ->
            mb_status mb' = QUEUED \/ mb_status mb' = RETRY_WAIT) /\
         (due (mb_lease_expires_at mb) now = false -> mb' = mb))) s e.
Proof.
  revert handled s e. induction keys as [|[t ss] keys IH]; intros handled s e Hs Hnd Hin Hlim; simpl in *.
  - apply wp_ret. split_and!; [eexists; split; [done|lia]|done|].
    intros k mb Hk. by apply elem_of_nil in Hk.
  - destruct (Z.leb_spec limit handled); [lia|]. apply NoDup_cons in Hnd as [Hni Hnd].
    destruct (Hin (t, ss)) as [mb Hk]; [by left|]. apply wp_bind, wp_gets. rewrite Hk.
    destruct (due (mb_lease_expires_at mb) now) eqn:Hdue.
    + apply wp_bind, wp_intro. intros r s1 e1 Hrun.
      pose proof (recover_preserves t ss (Some now) s e Hs) as Hs1. simpl in Hrun.
      rewrite Hrun in Hs1. simpl in Hs1.
      destruct (wp_run _ _ _ _ _ _ _ (recover_lapsed t ss now s e mb Hs Hk Hdue) Hrun)
        as (mb1 & -> & Hmb1 & Hex1 & _ & Hst1).
      eapply wp_mono; [apply (IH _ s1 e1 Hs1 Hnd)|].
      * intros k Hk1. rewrite Hmb1, dget_dset. case_decide; [eauto|]. apply Hin. by right.
      * simpl. lia.
      * simpl. intros r s2 e2 ((n & -> & ?) & Hout & Hall). split_and!.
        -- eexists. split; [done|lia].
        -- intros k Hk2. apply not_elem_of_cons in Hk2 as [Hk2 Hk3].
           rewrite Hout, Hmb1, dget_dset_ne; auto.
        -- intros k mb2 Hk2 Hget. apply elem_of_cons in Hk2 as [->|Hk2].
           ++ simplify_eq. exists mb1. rewrite Hout, Hmb1, dget_dset_eq, Hex1, Hdue by done.
              split_and!; done.
           ++ apply Hall; [done|]. rewrite Hmb1, dget_dset_ne; [done|]. by intros <-.
    + eapply wp_mono; [apply (IH handled s e Hs Hnd)|].
      * intros k Hk1. apply Hin. by right.
      * lia.
      * simpl. intros r s2 e2 ((n & -> & ?) & Hout & Hall). split_and!.
        -- eexists. split; [done|lia].
        -- intros k Hk2. apply not_elem_of_cons in Hk2 as [Hk2 Hk3]. auto.
        -- intros k mb2 Hk2 Hget. apply elem_of_cons in Hk2 as [->|Hk2].
           ++ simplify_eq. exists mb. rewrite Hout, Hdue by done. split_and!; done.
           ++ by apply Hall.
Qed.
End sweeps.

(** ** Releasing a lease *)

Section release.
Context `{Env}.

(** An owned release returns: the message stays at the head with its new timer
    and retry count, and nobody holds the lease. *)
Lemma release_owner lease retry_at inc now em s e mb :
  store_inv s -> dget (lease_key lease) (ms_mailboxes s) = Some mb ->
  _owns (Some mb) lease (now_value now e) = true ->
  wp (_release lease retry_at None inc now em) (fun r s' _ => exists mb' it it',
    r = Ok mb' /\ dget (lease_key lease) (ms_mailboxes s') = Some mb' /\
    items_of (lease_key lease) s !! ml_sequence lease = Some it /\
    items_of (lease_key lease) s' !! ml_sequence lease = Some it' /\
    mi_inbound_id it' = ml_inbound_id lease /\ mi_attempt it' = mi_attempt it /\
    mi_retry_count it' = mi_retry_count it + (if inc then 1 else 0) /\
    mi_retry_at it' = retry_at /\ mi_priority it' = mi_priority it /\
    mb_resolved_sequence mb' + 1 = ml_sequence lease /\ mb_lease_epoch mb' = ml_epoch lease /\
    mb_lease_owner mb' = None /\ mb_lease_expires_at mb' = None /\
    mb_status mb' = (if em then if after retry_at (now_value now e) then RETRY_WAIT else QUEUED
                     else RETRY_WAIT)) s e.
Proof.
  intros Hs Hk Hown. pose proof (si_mailbox _ Hs _ _ Hk) as Hok.
  destruct (owned_resolved _ _ _ _ _ Hok Hown) as (Hseq & Hle & it & Hit & Hid).
  apply owns_spec in Hown as Hsp. destruct Hsp as (_ & Hp & _ & _ & Hep & _).
  assert (Hst : _ready_status (mb <| mb_retry_at := retry_at |>) (mb_resolved_sequence mb)
    (now_value now e) = if after retry_at (now_value now e) then RETRY_WAIT else QUEUED).
  { unfold _ready_status. simpl.
    by destruct (Z.leb_spec (mb_accepted_sequence mb) (mb_resolved_sequence mb)); [lia|]. }
  unfold _release. wp_steps; bool_prop; simplify_eq; try congruence.
  all: do 3 eexists; split_and!;
    [done|simpl; apply dget_dset_eq|done|unfold items_of at 1; simpl;
     rewrite lookup_insert_eq; simpl; rewrite lookup_insert_eq; done|simpl..]; try done.
  all: rewrite ?Hst; try (by destruct em); lia.
Qed.
End release.

Section more_transitions.
Context `{Env}.

Lemma has_inbound_elem id items :
  has_inbound id items = true <-> exists n it, items !! n = Some it /\ mi_inbound_id it = id.
Proof.
  destruct (has_inbound id items) eqn:Hb; split; try done.
  - intros _. unfold has_inbound in Hb. apply existsb_exists in Hb as ([n it] & Hin & Heq).
    apply list_elem_of_In, elem_of_map_to_list in Hin. bool_prop. eauto.
  - rewrite has_inbound_false in Hb. intros (n & it & Hn & Hid). by destruct (Hb n it).
Qed.

Lemma accept_run t ss i p ra tr n s e mb :
  store_inv s -> forallb (fun v => negb (str_empty v)) [t; ss; i] = true -> 0 <= p ->
  dget (t, ss) (ms_mailboxes s) = Some mb -> char_len (str_or tr i) <= 512 ->
  wp (accept t ss i p ra tr n) (fun r s' e' =>
    if has_inbound i (items_of (t, ss) s)
    then r = Ok mb /\ s' = s /\ e' = now_effects n e
    else exists mb', r = Ok mb' /\ mb_accepted_sequence mb' = mb_accepted_sequence mb + 1 /\
      view (t, ss) s' = ((view (t, ss) s).1 ++ [i], (view (t, ss) s).2)) s e.
Proof.
  intros Hs Hids Hp Hk Htr. pose proof (si_mailbox _ Hs _ _ Hk) as Hok.
  pose proof (mo_bounds _ _ _ Hok). unfold accept, accept_item.
  wp_steps; bool_prop; simplify_eq; try done; try lia.
  all: try match goal with Hx : existsb _ _ = true |- _ =>
    rewrite existsb_exists in Hx; destruct Hx as (v & Hv & Hx);
    rewrite forallb_forall in Hids; specialize (Hids v Hv); by rewrite Hx in Hids end.
  all: try (repeat match goal with Hx : _ || _ = true |- _ => apply orb_true_iff in Hx as [Hx|Hx] end;
    bool_prop; simpl in *; lia).
  all: eexists; (split_and!; [done|done|]); unfold view; simpl; rewrite dget_dset_eq;
    match goal with Hx : dget _ _ = Some _ |- _ => rewrite Hx end; simpl; f_equal; unfold items_of at 1; simpl; rewrite lookup_insert_eq; simpl;
    (apply inbound_ids_app; [lia|done]).
Qed.

Lemma reconcile_queued t ss n s e mb :
  store_inv s -> dget (t, ss) (ms_mailboxes s) = Some mb -> mb_status mb = QUEUED ->
  1 <= mb_queue_generation mb ->
  (forall item, items_of (t, ss) s !! (mb_resolved_sequence mb + 1) = Some item ->
     after (mi_retry_at item) (now_value n e) = false) ->
  wp (reconcile t ss n) (fun r s' _ => exists mb', r = Ok (Some mb') /\
    mb_status mb' = QUEUED /\ mb_queue_generation mb' = mb_queue_generation mb /\
    ms_outbox s' = ms_outbox s) s e.
Proof.
  intros Hs Hk Hq Hg Hret. pose proof (si_mailbox _ Hs _ _ Hk) as Hok.
  destruct (mailbox_ok_head _ _ _ Hok ltac:(by rewrite Hq)) as [it Hit]. specialize (Hret _ Hit).
  assert (lease_active mb (now_value n e) = false) as Ha.
  { apply not_true_iff_false. intros Ha.
    pose proof (lease_active_running _ _ _ _ Hok Ha). congruence. }
  assert (Hst : recovered_status mb (mb_resolved_sequence mb + 1) (Some it) (now_value n e)
    = (QUEUED, None)).
  { unfold recovered_status. rewrite Hret.
    destruct (Z.ltb_spec (mb_accepted_sequence mb) (mb_resolved_sequence mb + 1)); [|done].
    assert (1 <= mb_resolved_sequence mb + 1 <= mb_accepted_sequence mb)
      by (apply (mo_dom _ _ _ Hok); eauto). lia. }
  pose proof (si_wake _ Hs _ _ Hk Hq) as Hwake.
  unfold reconcile. do 5 wp_step; [|congruence]. simplify_eq.
  rewrite (head_sequence _ _ _ Hok), Ha. do 2 wp_step. rewrite Hit, Hst, Hq. cbv beta iota.
  wp_step; [wp_steps; eauto 10|]. simpl. destruct (Z.leb_spec 1 (mb_queue_generation mb)); [|lia].
  assert (Hmax : Z.max 1 (mb_queue_generation mb) = mb_queue_generation mb) by lia.
  unfold _requeue_ready. simpl. rewrite Hmax. wp_steps; bool_prop.
  - exfalso. match goal with Hx : existsb _ _ = false |- _ => apply not_true_iff_false in Hx;
      apply Hx; rewrite (mo_tenant _ _ _ Hok), (mo_session _ _ _ Hok) end.
    by apply has_record_spec.
  - eexists. split_and!; done.
Qed.
End more_transitions.

(** ** The claims *)

Section claims.
Context `{Env}.

(** In every state a sequence of store calls can reach from the empty
    store, returning or raising, the well-formedness invariant holds: item
    numbers are contiguous and message ids distinct, a mailbox is idle exactly
    when nothing is pending, at most one complete lease exists and it is on the
    head message, and wake-up records match queue generations. *)
Theorem mailbox_reachable_wf s e : reachable s e -> store_inv s.
Proof. apply reachable_inv. Qed.

(** C1: Refinement to an ordered log: along every run from the empty store the
    messages whose commit succeeded for a session are, in order, exactly the
    first [resolved_sequence] entries of that session's acceptance log, and the
    log has no duplicates; every message is resolved in order and at most once.
    Every next call, returning or raising, simulates one step of the abstract
    session: it leaves it alone, appends a message that is not in the log, or
    resolves exactly the first unresolved message, which it reports. *)
Theorem mailbox_in_order_exactly_once key e0 tr s e :
  run key (empty_store, e0) tr (s, e) ->
  (tr = take (Z.to_nat (view key s).2) (view key s).1 /\ NoDup (view key s).1 /\ NoDup tr) /\
  (forall c r s' e', exec c s e = (r, s', e') ->
    session_step (view key s) (resolved_by c r key) (view key s')).
Proof.
  intros Hrun. destruct (run_take _ _ _ _ Hrun store_inv_empty) as [Hs Htake]; [done|].
  simpl in Htake. rewrite ?take_nil in Htake. simpl in Htake.
  pose proof (view_NoDup key s Hs) as Hnd. subst tr. split; [split_and!; [done|done|]|].
  - by eapply sublist_NoDup; [|apply sublist_take].
  - intros c r s' e' Hc. exact (exec_refines c s e r s' e' Hs Hc key).
Qed.

(** Fencing: once a later claim of the same session has been granted, the
    earlier lease can never act again, whatever calls happen in between and
    after: commit, renew, reschedule and both retries raise FencingConflict and
    leave the store unchanged. *)
Theorem superseded_lease_fenced t ss o1 o2 lf1 lf2 n1 n2 l1 l2 s0 e0 s1 e1 s2 e2 s3 e3 s e :
  reachable s0 e0 -> claim t ss o1 lf1 n1 s0 e0 = (Ok (Some l1), s1, e1) ->
  rtc step (s1, e1) (s2, e2) -> claim t ss o2 lf2 n2 s2 e2 = (Ok (Some l2), s3, e3) ->
  rtc step (s3, e3) (s, e) ->
  forall n lf ra, 0 < lf ->
    commit l1 n s e = (Raise superseded, s, now_effects n e) /\
    renew l1 lf n s e = (Raise superseded, s, now_effects n e) /\
    reschedule l1 ra None n s e = (Raise superseded, s, now_effects n e) /\
    retry l1 ra None n s e = (Raise superseded, s, now_effects n e) /\
    retry_without_wakeup l1 ra n s e = (Raise superseded, s, now_effects n e).
Proof.
  intros Hr Hc1 H12 Hc2 H3 n lf ra Hlf. apply reachable_inv in Hr as Hs0.
  destruct (wp_run _ _ _ _ _ _ _ (claim_granted t ss o1 lf1 n1 s0 e0 Hs0) Hc1)
    as (Ht1 & Hss1 & mb0 & mb1 & _ & Hk1 & _ & Hep1).
  pose proof (claim_preserves t ss o1 lf1 n1 s0 e0 Hs0) as Hs1. rewrite Hc1 in Hs1.
  pose proof (steps_inv _ _ H12 Hs1) as Hs2. pose proof (steps_le _ _ H12 Hs1) as [Hle _].
  destruct (Hle _ _ Hk1) as (mb2 & Hk2 & [_ _ _ Hle2]).
  destruct (wp_run _ _ _ _ _ _ _ (claim_granted t ss o2 lf2 n2 s2 e2 Hs2) Hc2)
    as (Ht2 & Hss2 & mb2' & mb3 & Hk2' & Hk3 & Hep2 & Hep3).
  pose proof (claim_preserves t ss o2 lf2 n2 s2 e2 Hs2) as Hs3. rewrite Hc2 in Hs3.
  pose proof (steps_le _ _ H3 Hs3) as [Hle3 _].
  destruct (Hle3 _ _ Hk3) as (mb & Hk & [_ _ _ Hlast]). simpl in *. simplify_eq.
  assert (Hno : _owns (dget (lease_key l1) (ms_mailboxes s)) l1 (now_value n e) = false).
  { match goal with |- _owns ?d _ _ = _ => replace d with (Some mb) by congruence end.
    apply not_owner_epoch. lia. }
  split_and!; [by apply commit_not_owner|by apply renew_not_owner|by apply release_not_owner..].
Qed.

(** A commit succeeds exactly when the caller still owns the lease.  An
    owned commit resolves the message it leased and nothing else, clears the
    lease and wakes the next message; any further commit of the same lease is
    rejected.  A commit without ownership raises and changes nothing. *)
Theorem commit_outcome lease n s e :
  reachable s e ->
  match dget (lease_key lease) (ms_mailboxes s) with
  | Some mb =>
    if _owns (Some mb) lease (now_value n e) then
      exists mb' s' e', commit lease n s e = (Ok mb', s', e') /\
        mb_resolved_sequence mb' = mb_resolved_sequence mb + 1 /\
        mb_resolved_sequence mb' = ml_sequence lease /\
        mb_lease_owner mb' = None /\ mb_lease_expires_at mb' = None /\
        mb_lease_epoch mb' = mb_lease_epoch mb /\
        (forall m, commit lease m s' e' = (Raise superseded, s', now_effects m e'))
    else commit lease n s e = (Raise superseded, s, now_effects n e)
  | None => commit lease n s e = (Raise superseded, s, now_effects n e)
  end.
Proof.
  intros Hr. apply reachable_inv in Hr as Hs.
  destruct (dget _ (ms_mailboxes s)) as [mb|] eqn:Hk; [|apply commit_not_owner; by rewrite Hk].
  destruct (_owns (Some mb) lease (now_value n e)) eqn:Hown;
    [|apply commit_not_owner; by rewrite Hk].
  pose proof (commit_owner lease n s e mb Hs Hk Hown) as Hw.
  destruct (commit lease n s e) as [[r s'] e'] eqn:Hrun.
  destruct (wp_run _ _ _ _ _ _ _ Hw Hrun) as (mb' & -> & Hk' & ? & ? & Ho & ? & ?).
  exists mb', s', e'. split_and!; try done. intros m. apply commit_not_owner. rewrite Hk'.
  apply not_true_iff_false. rewrite owns_spec, Ho. by intros (_ & _ & _ & ? & _).
Qed.

(** Exclusion and takeover: while an unexpired lease exists no claim is
    granted and nothing changes; once it has expired, a claim is granted for
    the same head message, with the next epoch and attempt. *)
Theorem claim_exclusive_then_takeover t ss owner lf n s e mb ex :
  reachable s e -> forallb (fun v => negb (str_empty v)) [t; ss; owner] = true -> 0 < lf ->
  dget (t, ss) (ms_mailboxes s) = Some mb -> mb_lease_expires_at mb = Some ex ->
  if now_value n e <? ex
  then claim t ss owner lf n s e = (Ok None, s, now_effects n e)
  else exists lease s' e' item, claim t ss owner lf n s e = (Ok (Some lease), s', e') /\
    items_of (t, ss) s !! ml_sequence lease = Some item /\
    Some (ml_sequence lease) = mb_processing_sequence mb /\
    Some (ml_inbound_id lease) = mb_processing_inbound_id mb /\
    ml_epoch lease = mb_lease_epoch mb + 1 /\ ml_attempt lease = mi_attempt item + 1 /\
    ml_expires_at lease = now_value n e + lf.
Proof.
  intros Hr Hids Hlf Hk Hex. apply reachable_inv in Hr as Hs.
  pose proof (si_mailbox _ Hs _ _ Hk) as Hok. destruct (Z.ltb_spec (now_value n e) ex).
  - unfold claim, _validate_ids, _validate_lease_for, raise_if, bind.
    replace (existsb str_empty [t; ss; owner]) with false by
      (symmetry; simpl in *; bool_prop; rewrite !orb_false_iff; auto).
    destruct (Z.leb_spec lf 0); [lia|]. unfold ret, gets.
    destruct n; simpl in *; rewrite Hk, Hex; simpl;
      match goal with |- context [?x <? ex] => destruct (Z.ltb_spec x ex); [done|lia] end.
  - assert (mb_status mb = RUNNING) as Hrun.
    { destruct (decide (mb_status mb = RUNNING)) as [|Hn]; [done|].
      destruct (lease_ok_idle _ _ Hn (mo_lease _ _ _ Hok)) as (_ & _ & _ & ?). congruence. }
    pose proof (mo_lease _ _ _ Hok) as Hl. unfold lease_ok in Hl. rewrite Hrun in Hl.
    destruct Hl as (it & ow & ex' & Hit & Hp & Hi & _).
    assert (after (mb_lease_expires_at mb) (now_value n e) = false) as Hexp
      by (rewrite Hex; by apply after_false_Some).
    pose proof (claim_head t ss owner lf n s e mb it Hs Hids Hlf Hk Hexp Hit ltac:(done)) as Hw.
    destruct (claim t ss owner lf n s e) as [[r s'] e'] eqn:Hc.
    apply (wp_run _ _ _ _ _ _ _ Hw) in Hc. subst r.
    eexists _, s', e', it. split_and!; [done|simpl; done..].
Qed.

(** Retrying keeps the message and its place: when the owner of a lease
    retries it with a timer, the retry returns, and a claim made at or after the
    timer is granted the same message again, with the next epoch and attempt and
    one more retry counted. *)
Theorem retry_redelivers lease ra n owner lf t s e mb :
  reachable s e -> dget (lease_key lease) (ms_mailboxes s) = Some mb ->
  _owns (Some mb) lease (now_value n e) = true ->
  forallb (fun v => negb (str_empty v)) [ml_tenant_id lease; ml_session_id lease; owner] = true ->
  0 < lf -> ra <= t ->
  exists mb1 s1 e1 lease2 s2 e2 item,
    retry lease (Some ra) None n s e = (Ok mb1, s1, e1) /\
    claim (ml_tenant_id lease) (ml_session_id lease) owner lf (Some t) s1 e1
      = (Ok (Some lease2), s2, e2) /\
    items_of (lease_key lease) s !! ml_sequence lease = Some item /\
    ml_inbound_id lease2 = ml_inbound_id lease /\ ml_sequence lease2 = ml_sequence lease /\
    ml_epoch lease2 = ml_epoch lease + 1 /\ ml_attempt lease2 = mi_attempt item + 1 /\
    ml_retry_count lease2 = mi_retry_count item + 1.
Proof.
  intros Hr Hk Hown Hids Hlf Hra. apply reachable_inv in Hr as Hs.
  pose proof (release_owner lease (Some ra) true n true s e mb Hs Hk Hown) as Hw.
  pose proof (release_preserves lease (Some ra) None true n true s e Hs) as Hs1.
  unfold retry. destruct (_release _ _ _ _ _ _ s e) as [[r s1] e1] eqn:Hrun.
  destruct (wp_run _ _ _ _ _ _ _ Hw Hrun) as (mb1 & it & it' & -> & Hk1 & Hit & Hit' & Hid &
    Hat & Hrc & Hra' & _ & Hres & Hep & _ & Hex & _).
  assert (after (mb_lease_expires_at mb1) t = false) as Hexp by (by rewrite Hex).
  assert (after (mi_retry_at it') t = false) as Hdue by (rewrite Hra'; simpl; apply Z.ltb_ge; lia).
  rewrite <-Hres in Hit'.
  pose proof (claim_head (ml_tenant_id lease) (ml_session_id lease) owner lf (Some t) s1 e1 mb1 it'
    Hs1 Hids Hlf Hk1 Hexp Hit' (fun _ => Hdue)) as Hc.
  destruct (claim (ml_tenant_id lease) (ml_session_id lease) owner lf (Some t) s1 e1)
    as [[r2 s2] e2] eqn:Hrun2.
  pose proof (wp_run _ _ _ _ _ _ _ Hc Hrun2) as ->.
  exists mb1, s1, e1. eexists _, s2, e2, it. split_and!; [done|exact Hrun2|done|simpl; congruence..].
Qed.

(** No lost and no duplicated wake-up: in every reachable store a queued
    mailbox has exactly one wake-up record of its current generation, and no
    record carries a generation above the mailbox's. *)
Theorem queued_has_one_wakeup t ss mb s e :
  reachable s e -> dget (t, ss) (ms_mailboxes s) = Some mb ->
  (mb_status mb = QUEUED ->
     length (List.filter (is_ready_record t ss (mb_queue_generation mb)) (ms_outbox s)) = 1%nat) /\
  (forall g, mb_queue_generation mb < g ->
     List.filter (is_ready_record t ss g) (ms_outbox s) = []).
Proof.
  intros Hr Hk. apply reachable_inv in Hr as Hs. split.
  - intros Hq. destruct (si_wake _ Hs _ _ Hk Hq) as (r & Hin & Hrec).
    apply (filter_one _ ready_of (Some ((t, ss), mb_queue_generation mb))).
    + apply (si_unique _ Hs).
    + by exists r.
    + intros x Hx. apply (is_ready_record_spec s (t, ss) _ _ Hs Hx).
  - intros g Hg. apply filter_none. intros x Hx. apply not_true_iff_false.
    rewrite (is_ready_record_spec s (t, ss) g x Hs Hx). intros Hrec.
    apply (fresh_generation s (t, ss) mb g Hs Hk Hg), list_elem_of_fmap. by exists x.
Qed.

(** The recovery sweep is complete and bounded: with a limit of at least
    the number of mailboxes it returns a count within the limit, afterwards no
    mailbox holds a lapsed lease, every mailbox that held one is queued or
    waiting for its retry timer, and every other mailbox is unchanged. *)
Theorem sweep_expired_leases_complete limit s e :
  reachable s e -> 1 <= limit -> Z.of_nat (length (ms_mailboxes s)) <= limit ->
  exists n s' e', sweep_expired_leases limit s e = (Ok n, s', e') /\ 0 <= n <= limit /\
    forall key mb, dget key (ms_mailboxes s) = Some mb ->
      exists mb', dget key (ms_mailboxes s') = Some mb' /\
        due (mb_lease_expires_at mb') (clock_at (ticks e)) = false /\
        if due (mb_lease_expires_at mb) (clock_at (ticks e))
        then mb_status mb' = QUEUED \/ mb_status mb' = RETRY_WAIT else mb' = mb.
Proof.
  intros Hr Hlim Hlen. apply reachable_inv in Hr as Hs.
  pose proof (sweep_loop_recovers (clock_at (ticks e)) (dkeys (ms_mailboxes s)) limit 0 s
    (Effects (uuids e) (S (ticks e))) Hs (si_nodup _ Hs) (dget_In_keys_Some _)) as Hw.
  unfold sweep_expired_leases, raise_if. destruct (Z.ltb_spec limit 1); [lia|].
  unfold bind at 1 2 3. simpl. destruct (sweep_loop _ _ _ _ _ s _) as [[r s'] e'] eqn:Hrun.
  unfold wp in Hw. rewrite Hrun in Hw. simpl in Hw.
  destruct Hw as ((n & -> & ?) & _ & Hall); [unfold dkeys; rewrite length_map; lia|].
  exists n, s', e'. split_and!; [done|lia|lia|]. intros key mb Hk.
  destruct (Hall key mb) as (mb' & Hk' & Hd & Hd1 & Hd2); [|done|].
  - destruct (decide (key ∈ dkeys (ms_mailboxes s))) as [|Hn]; [done|].
    apply dget_None_keys in Hn. congruence.
  - exists mb'. split_and!; [done..|]. destruct (due (mb_lease_expires_at mb) _); auto.
Qed.

(** Accepting is idempotent: accepting a message id the session already
    holds returns the current mailbox and changes nothing; a new id is appended
    as the last item with the next sequence number. *)
Theorem accept_idempotent t ss i p ra tr n s e mb :
  reachable s e -> forallb (fun v => negb (str_empty v)) [t; ss; i] = true -> 0 <= p ->
  dget (t, ss) (ms_mailboxes s) = Some mb -> char_len (str_or tr i) <= 512 ->
  if bool_decide (i ∈ (view (t, ss) s).1)
  then accept t ss i p ra tr n s e = (Ok mb, s, now_effects n e)
  else exists mb' s' e', accept t ss i p ra tr n s e = (Ok mb', s', e') /\
    mb_accepted_sequence mb' = mb_accepted_sequence mb + 1 /\
    view (t, ss) s' = ((view (t, ss) s).1 ++ [i], (view (t, ss) s).2).
Proof.
  intros Hr Hids Hp Hk Htr. apply reachable_inv in Hr as Hs.
  assert (Hin : bool_decide (i ∈ (view (t, ss) s).1) = has_inbound i (items_of (t, ss) s)).
  { apply eq_bool_prop_intro. rewrite bool_decide_spec. unfold view. rewrite Hk. simpl.
    rewrite (inbound_ids_elem _ _ _ _ (si_mailbox _ Hs _ _ Hk)).
    by rewrite <-has_inbound_elem, Is_true_true. }
  rewrite Hin. pose proof (accept_run t ss i p ra tr n s e mb Hs Hids Hp Hk Htr) as Hw.
  destruct (accept t ss i p ra tr n s e) as [[r s'] e'] eqn:Hrun.
  unfold wp in Hw. rewrite Hrun in Hw. simpl in Hw. destruct (has_inbound _ _).
  - by destruct Hw as (-> & -> & ->).
  - destruct Hw as (mb' & -> & Ha & Hv). eauto 10.
Qed.

(** Counters never move backwards and wake-ups are never withdrawn: along
    any sequence of calls the accepted, resolved, generation and epoch counters
    of every mailbox only grow, and the outbox is only appended to. *)
Theorem mailbox_counters_monotone s e s' e' key mb :
  reachable s e -> rtc step (s, e) (s', e') -> dget key (ms_mailboxes s) = Some mb ->
  ms_outbox s `prefix_of` ms_outbox s' /\
  exists mb', dget key (ms_mailboxes s') = Some mb' /\
    mb_accepted_sequence mb <= mb_accepted_sequence mb' /\
    mb_resolved_sequence mb <= mb_resolved_sequence mb' /\
    mb_queue_generation mb <= mb_queue_generation mb' /\ mb_lease_epoch mb <= mb_lease_epoch mb'.
Proof.
  intros Hr Hsteps Hk. destruct (steps_le _ _ Hsteps (reachable_inv _ _ Hr)) as [Hle Hout].
  split; [done|]. destruct (Hle key mb Hk) as (mb' & ? & []). eauto 10.
Qed.

(** Reconciliation of a healthy queued mailbox is stable: it never moves
    the generation, so a wake-up already published stays valid, and it adds no
    second record for it. *)
Theorem reconcile_keeps_generation t ss n s e mb :
  reachable s e -> dget (t, ss) (ms_mailboxes s) = Some mb -> mb_status mb = QUEUED ->
  1 <= mb_queue_generation mb ->
  (forall item, items_of (t, ss) s !! (mb_resolved_sequence mb + 1) = Some item ->
     after (mi_retry_at item) (now_value n e) = false) ->
  exists mb' s' e', reconcile t ss n s e = (Ok (Some mb'), s', e') /\
    mb_status mb' = QUEUED /\ mb_queue_generation mb' = mb_queue_generation mb /\
    ms_outbox s' = ms_outbox s /\ view (t, ss) s' = view (t, ss) s.
Proof.
  intros Hr Hk Hq Hg Hret. apply reachable_inv in Hr as Hs.
  pose proof (reconcile_keeps_view t ss n s e Hs) as Hv.
  pose proof (reconcile_queued t ss n s e mb Hs Hk Hq Hg Hret) as Hw. unfold wp in *.
  destruct (reconcile t ss n s e) as [[r s'] e']. simpl in *.
  destruct Hw as (mb' & -> & ? & ? & ?). eauto 10.
Qed.
End claims.

(** ** Concrete runs: two messages of one session *)

Section demo.
#[local] Existing Instance demo_env.

Definition seconds (n : Z) : Z := n * 1000000.

Definition demo_accepts : list call :=
  [CAccept "acme" "s1" "m1" 0 None None (Some 0); CAccept "acme" "s1" "m2" 0 None None (Some 0)].
Definition demo_lease (owner : string) (epoch expires attempt : Z) : MailboxLease :=
  MkMailboxLease "acme" "s1" "m1" 1 owner epoch expires attempt 0 0.
Definition demo_claim : call := CClaim "acme" "s1" "w1" (seconds 10) (Some 0).
Definition demo (cs : list call) : MailboxStore * effects := run_calls cs (empty_store, fx0).

Lemma demo_reachable cs : reachable (demo cs).1 (demo cs).2.
Proof. exists fx0. rewrite <-surjective_pairing. apply run_calls_steps. Qed.

Lemma demo_run key cs :
  run key (empty_store, fx0) (trace_calls key cs (empty_store, fx0)) ((demo cs).1, (demo cs).2).
Proof. rewrite <-surjective_pairing. apply run_calls_run. Qed.

Lemma demo_steps cs c : rtc step (c.1, c.2) ((run_calls cs c).1, (run_calls cs c).2).
Proof. rewrite <-!surjective_pairing. apply run_calls_steps. Qed.

Abbreviation demo_claimed := (demo (demo_accepts ++ [demo_claim])).
Abbreviation demo_queued := (demo demo_accepts).

Lemma mailbox_reachable_wf_witness : store_inv demo_claimed.1.
Proof. apply (mailbox_reachable_wf demo_claimed.1 demo_claimed.2). apply demo_reachable. Defined.

Lemma mailbox_in_order_exactly_once_witness :
  trace_calls ("acme", "s1")%string
    (demo_accepts ++ [demo_claim; CCommit (demo_lease "w1" 1 (seconds 10) 1) (Some 1)])
    (empty_store, fx0) = ["m1"]%string /\
  NoDup ["m1"]%string.
Proof.
  split; [vm_compute; reflexivity|].
  set (cs := demo_accepts ++ [demo_claim; CCommit (demo_lease "w1" 1 (seconds 10) 1) (Some 1)]).
  destruct (mailbox_in_order_exactly_once ("acme", "s1")%string fx0
    (trace_calls ("acme", "s1")%string cs (empty_store, fx0)) (demo cs).1 (demo cs).2)
    as [(_ & _ & Hnd) _].
  - exact (demo_run _ cs).
  - vm_compute in Hnd. exact Hnd.
Defined.

Lemma superseded_lease_fenced_witness : exists s e,
  commit (demo_lease "w1" 1 (seconds 10) 1) (Some (seconds 25)) s e = (Raise superseded, s, e).
Proof.
  eexists _, _. eapply (superseded_lease_fenced "acme" "s1" "w1" "w2" (seconds 10) (seconds 10)
    (Some 0) (Some (seconds 20)) (demo_lease "w1" 1 (seconds 10) 1)
    (demo_lease "w2" 2 (seconds 30) 2) demo_queued.1 demo_queued.2) with (lf := 1) (ra := None).
  - apply demo_reachable.
  - vm_compute. reflexivity.
  - apply rtc_refl.
  - vm_compute. reflexivity.
  - apply rtc_refl.
  - lia.
Defined.

Lemma commit_outcome_witness : exists mb' s' e',
  commit (demo_lease "w1" 1 (seconds 10) 1) (Some 1) demo_claimed.1 demo_claimed.2
    = (Ok mb', s', e') /\ mb_resolved_sequence mb' = 1.
Proof.
  pose proof (commit_outcome (demo_lease "w1" 1 (seconds 10) 1) (Some 1) demo_claimed.1
    demo_claimed.2 (demo_reachable _)) as Ho.
  destruct (dget _ _) as [mb|] eqn:Hk; vm_compute in Hk; [|discriminate Hk].
  injection Hk as <-. destruct (_owns _ _ _) eqn:Hown; [|vm_compute in Hown; discriminate Hown].
  destruct Ho as (mb' & s' & e' & Hrun & Hr & _). exists mb', s', e'. split; [exact Hrun|exact Hr].
Defined.

Lemma claim_exclusive_then_takeover_witness : exists lease s' e',
  claim "acme" "s1" "w2" 1 (Some (seconds 20)) demo_claimed.1 demo_claimed.2
    = (Ok (Some lease), s', e') /\ ml_epoch lease = 2.
Proof.
  destruct (dget ("acme", "s1")%string (ms_mailboxes demo_claimed.1)) as [mb|] eqn:Hk;
    [|vm_compute in Hk; discriminate Hk].
  assert (mb_lease_expires_at mb = Some (seconds 10) /\ mb_lease_epoch mb = 1) as [Hex Hep]
    by (vm_compute in Hk; by injection Hk as <-).
  destruct (claim_exclusive_then_takeover "acme" "s1" "w2" 1 (Some (seconds 20)) demo_claimed.1
    demo_claimed.2 mb (seconds 10) (demo_reachable _) eq_refl ltac:(lia) Hk Hex)
    as (lease & s' & e' & _ & Hrun & _ & _ & _ & He & _).
  exists lease, s', e'. split; [exact Hrun|lia].
Defined.

Lemma retry_redelivers_witness : exists mb1 s1 e1 lease2 s2 e2,
  retry (demo_lease "w1" 1 (seconds 10) 1) (Some (seconds 5)) None (Some 1)
    demo_claimed.1 demo_claimed.2 = (Ok mb1, s1, e1) /\
  claim "acme" "s1" "w2" 1 (Some (seconds 6)) s1 e1 = (Ok (Some lease2), s2, e2) /\
  ml_inbound_id lease2 = "m1"%string.
Proof.
  destruct (dget ("acme", "s1")%string (ms_mailboxes demo_claimed.1)) as [mb|] eqn:Hk;
    [|vm_compute in Hk; discriminate Hk].
  assert (_owns (Some mb) (demo_lease "w1" 1 (seconds 10) 1) (now_value (Some 1) fx0) = true)
    as Hown by (vm_compute in Hk; by injection Hk as <-).
  destruct (retry_redelivers (demo_lease "w1" 1 (seconds 10) 1) (seconds 5) (Some 1) "w2" 1
    (seconds 6) demo_claimed.1 demo_claimed.2 mb (demo_reachable _) Hk Hown eq_refl ltac:(lia)
    ltac:(unfold seconds; lia)) as (mb1 & s1 & e1 & l2 & s2 & e2 & _ & Hrun & Hc & _ & Hid & _).
  exists mb1, s1, e1, l2, s2, e2. split_and!; [exact Hrun|exact Hc|exact Hid].
Defined.

Lemma queued_has_one_wakeup_witness :
  length (List.filter (is_ready_record "acme" "s1" 1) (ms_outbox demo_queued.1)) = 1%nat.
Proof.
  destruct (dget ("acme", "s1")%string (ms_mailboxes demo_queued.1)) as [mb|] eqn:Hk;
    [|vm_compute in Hk; discriminate Hk].
  destruct (queued_has_one_wakeup "acme" "s1" mb demo_queued.1 demo_queued.2 (demo_reachable _) Hk)
    as [Hone _]. vm_compute in Hk. injection Hk as <-. exact (Hone eq_refl).
Defined.

Lemma sweep_expired_leases_complete_witness : exists n s' e',
  sweep_expired_leases 10 demo_claimed.1 demo_claimed.2 = (Ok n, s', e') /\ 0 <= n <= 10.
Proof.
  destruct (sweep_expired_leases_complete 10 demo_claimed.1 demo_claimed.2 (demo_reachable _))
    as (n & s' & e' & Hrun & Hn & _); [lia|vm_compute; discriminate|].
  exists n, s', e'. split; [exact Hrun|exact Hn].
Defined.

Lemma accept_idempotent_witness :
  (accept "acme" "s1" "m1" 0 None None (Some 7) demo_queued.1 demo_queued.2).1.2 = demo_queued.1.
Proof.
  destruct (dget ("acme", "s1")%string (ms_mailboxes demo_queued.1)) as [mb|] eqn:Hk;
    [|vm_compute in Hk; discriminate Hk].
  pose proof (accept_idempotent "acme" "s1" "m1" 0 None None (Some 7) demo_queued.1 demo_queued.2
    mb (demo_reachable _) eq_refl ltac:(lia) Hk ltac:(vm_compute; discriminate)) as Hacc.
  destruct (bool_decide _) eqn:Hb; [by rewrite Hacc|vm_compute in Hb; discriminate Hb].
Defined.

Lemma mailbox_counters_monotone_witness : exists mb',
  dget ("acme", "s1")%string (ms_mailboxes (run_calls [demo_claim] demo_queued).1) = Some mb' /\
  2 <= mb_accepted_sequence mb'.
Proof.
  destruct (dget ("acme", "s1")%string (ms_mailboxes demo_queued.1)) as [mb|] eqn:Hk;
    [|vm_compute in Hk; discriminate Hk].
  destruct (mailbox_counters_monotone demo_queued.1 demo_queued.2
    (run_calls [demo_claim] demo_queued).1 (run_calls [demo_claim] demo_queued).2
    ("acme", "s1")%string mb (demo_reachable _)) as (_ & mb' & Hk' & Ha & _);
    [exact (demo_steps [demo_claim] demo_queued)|exact Hk|].
  exists mb'. split; [exact Hk'|]. vm_compute in Hk. by injection Hk as <-.
Defined.

Lemma reconcile_keeps_generation_witness : exists mb' s' e',
  reconcile "acme" "s1" (Some (seconds 60)) demo_queued.1 demo_queued.2 = (Ok (Some mb'), s', e') /\
  ms_outbox s' = ms_outbox demo_queued.1.
Proof.
  destruct (dget ("acme", "s1")%string (ms_mailboxes demo_queued.1)) as [mb|] eqn:Hk;
    [|vm_compute in Hk; discriminate Hk].
  destruct (reconcile_keeps_generation "acme" "s1" (Some (seconds 60)) demo_queued.1 demo_queued.2
    mb (demo_reachable _) Hk) as (mb' & s' & e' & Hrun & _ & _ & Hout & _).
  - vm_compute in Hk. by injection Hk as <-.
  - vm_compute in Hk. by injection Hk as <-.
  - vm_compute in Hk. injection Hk as <-. intros item Hit. vm_compute in Hit.
    by injection Hit as <-.
  - exists mb', s', e'. split; [exact Hrun|exact Hout].
Defined.
End demo.
