(* ===== verification/PgMailbox.v ===== *)
(** * The PostgreSQL session mailbox

    [PostgresSessionMailboxStore] of [trpc_service/storage/mailbox.py]: the same
    contract as the in-memory store, as SQL transactions.  A row of
    [session_mailboxes] has the columns of [SessionMailbox]; the table's CHECK and
    foreign-key constraints are part of every write; a transaction that raises is
    rolled back; [clock_timestamp()] is a new clock reading in every statement.
    Rows are locked with [FOR UPDATE] before they are changed, so transactions on one
    session run one after the other.  Integer column widths, row-level
    security and the write barrier of migrations are not modelled; the three sweeps, which are functions of the database, are in [PgSweeps]. *)

From S2P Require Import Prelude PyText Tenant Models Mailbox.
#[local] Open Scope Z_scope.

(** ** Tables *)

(** A wake-up row of [outbox_events]. *)
Record ReadyRow : Type := MkReadyRow {
  rr_outbox_id : string;
  rr_tenant_id : string;
  rr_session_id : string;
  rr_generation : Z;
  rr_priority : Z;
  rr_trace_id : string;
  rr_trace_headers : gmap string string;
  rr_created_at : Z;
  rr_published_at : option Z;
  rr_claimed_by : option string;
  rr_claim_expires_at : option Z;
  rr_available_at : Z;
  rr_last_error_type : option string;
  rr_ready_replayed_at : option Z;
}.

#[export] Instance ReadyRow_settable : Settable ReadyRow := fun r =>
  MkReadyRow (rr_outbox_id r) (rr_tenant_id r) (rr_session_id r) (rr_generation r) (rr_priority r) (rr_trace_id r)
    (rr_trace_headers r) (rr_created_at r) (rr_published_at r) (rr_claimed_by r) (rr_claim_expires_at r)
    (rr_available_at r) (rr_last_error_type r) (rr_ready_replayed_at r).

(** The execution lease of a row of [sessions]. *)
Record SessionRow : Type := MkSessionRow {
  se_lease_owner : option string;
  se_lease_expires_at : option Z;
}.

Record PgStore : Type := MkPgStore {
  pg_tenants : gset string;
  pg_inbound : gset (string * string);
  pg_mailboxes : gmap session_key SessionMailbox;
  pg_items : gmap session_key (gmap Z MailboxItem);
  pg_resolved_at : gmap (session_key * Z) Z;
  pg_ready : list ReadyRow;
  pg_sessions : gmap session_key SessionRow;
}.

#[export] Instance PgStore_settable : Settable PgStore := fun r =>
  MkPgStore (pg_tenants r) (pg_inbound r) (pg_mailboxes r) (pg_items r) (pg_resolved_at r)
    (pg_ready r) (pg_sessions r).

Definition pg_empty : PgStore := MkPgStore ∅ ∅ ∅ ∅ ∅ [] ∅.

Definition pg_items_of (key : session_key) (s : PgStore) : gmap Z MailboxItem :=
  default ∅ (pg_items s !! key).

(** The CHECK constraints of [session_mailboxes]. *)
Definition row_check (mb : SessionMailbox) : bool :=
  let processing_ok :=
    match mb_processing_sequence mb with
    | Some n => (mb_resolved_sequence mb <? n) && (n <=? mb_accepted_sequence mb)
    | None => true
    end in
  let owner_ok :=
    match mb_lease_owner mb with
    | Some o => (1 <=? char_len o) && (char_len o <=? 256)
    | None => true
    end in
  let lease_columns :=
    [is_some (mb_processing_sequence mb); is_some (mb_processing_inbound_id mb);
     is_some (mb_lease_owner mb); is_some (mb_lease_expires_at mb)] in
  (1 <=? char_len (mb_session_id mb)) && (char_len (mb_session_id mb) <=? 256)
  && (0 <=? mb_accepted_sequence mb) && (0 <=? mb_resolved_sequence mb)
  && (mb_resolved_sequence mb <=? mb_accepted_sequence mb) && processing_ok
  && (0 <=? mb_queue_generation mb) && owner_ok && (0 <=? mb_lease_epoch mb)
  && (0 <=? mb_retry_count mb) && (0 <=? mb_attempt mb) && (0 <=? mb_priority mb)
  && (if bool_decide (mb_status mb = RUNNING)
      then forallb id lease_columns else forallb negb lease_columns).

(** The CHECK constraints of [session_mailbox_items]. *)
Definition item_check (it : MailboxItem) : bool :=
  (1 <=? char_len (mi_session_id it)) && (char_len (mi_session_id it) <=? 256)
  && (1 <=? mi_sequence it) && (1 <=? char_len (mi_trace_id it)) && (char_len (mi_trace_id it) <=? 512)
  && (0 <=? mi_priority it) && (0 <=? mi_retry_count it) && (0 <=? mi_attempt it).

Definition put_row (key : session_key) (mb : SessionMailbox) : M PgStore unit :=
  raise_if (negb (row_check mb)) (IntegrityError "session_mailboxes_check") ;;
  modify (fun s => s <| pg_mailboxes := <[key := mb]> (pg_mailboxes s) |>).

Definition put_pg_item (key : session_key) (n : Z) (it : MailboxItem) : M PgStore unit :=
  raise_if (negb (item_check it)) (IntegrityError "session_mailbox_items_check") ;;
  modify (fun s => s <| pg_items := <[key := <[n := it]> (pg_items_of key s)]> (pg_items s) |>).

Definition fetch_row (key : session_key) : M PgStore (option SessionMailbox) :=
  gets (fun s => pg_mailboxes s !! key).

Definition fetch_item (key : session_key) (n : Z) : M PgStore (option MailboxItem) :=
  gets (fun s => pg_items_of key s !! n).

(** [async with self._transaction(tenant_id)]. *)
Definition transaction {A} (body : M PgStore A) : M PgStore A := rollback body.

(** [__init__]: the guard on the replay cooldown, in microseconds. *)
Definition make_pg_store (ready_replay_cooldown_seconds : Z) : outcome Z :=
  if (ready_replay_cooldown_seconds <? 5) || (86400 <? ready_replay_cooldown_seconds)
  then Raise (ValueError "ready replay cooldown must be between 5 and 86400 seconds")
  else Ok (ready_replay_cooldown_seconds * 1000000).

(** ** Wake-ups *)

Definition same_ready (tenant_id session_id : string) (generation : Z) (r : ReadyRow) : bool :=
  bool_decide (rr_tenant_id r = tenant_id) && bool_decide (rr_session_id r = session_id)
  && (rr_generation r =? generation).

Section pg.
Context `{Env} `{UuidText}.

Definition clock_timestamp : M PgStore Z := datetime_now.

(** [INSERT INTO outbox_events ... ON CONFLICT DO NOTHING]: the payload CHECK and
    the unique index on tenant, session and generation; the row's identifier is
    [gen_random_uuid()]. *)
Definition insert_ready (mailbox : SessionMailbox) (priority : Z) (trace_id : string)
    (trace_headers : gmap string string) : M PgStore unit :=
  let* outbox_id := uuid4 in
  let* now := clock_timestamp in
  let generation := mb_queue_generation mailbox in
  raise_if ((char_len (mb_session_id mailbox) <? 1) || (256 <? char_len (mb_session_id mailbox))
            || (generation <? 1) || (priority <? 0) || (char_len trace_id <? 1) || (512 <? char_len trace_id))
    (IntegrityError "outbox_session_ready_v2_payload_check") ;;
  modify (fun s =>
    if existsb (same_ready (mb_tenant_id mailbox) (mb_session_id mailbox) generation) (pg_ready s) then s
    else s <| pg_ready := pg_ready s ++
      [MkReadyRow outbox_id (mb_tenant_id mailbox) (mb_session_id mailbox) generation priority trace_id trace_headers now
         None None None now None None] |>).

(** [item.get("trace_id") or item.get("inbound_id") or mailbox["session_id"]]. *)
Definition ready_trace (mailbox : SessionMailbox) (trace_id inbound_id : string) : string :=
  if negb (str_empty trace_id) then trace_id
  else if negb (str_empty inbound_id) then inbound_id else mb_session_id mailbox.

Definition _emit_ready_outbox (mailbox : SessionMailbox) (trace_id inbound_id : string) (priority : Z)
    : M PgStore unit :=
  insert_ready mailbox priority (ready_trace mailbox trace_id inbound_id) ∅.

(** The rows an expired publication makes available again. *)
Definition replayable (mailbox : SessionMailbox) (now replay_cooldown : Z) (r : ReadyRow) : bool :=
  same_ready (mb_tenant_id mailbox) (mb_session_id mailbox) (mb_queue_generation mailbox) r
  && match rr_published_at r with
     | Some published =>
       Z.max published (default published (rr_ready_replayed_at r)) <=? now - replay_cooldown
     | None => false
     end
  && match rr_claim_expires_at r with Some ex => ex <=? now | None => true end.

Definition replay_row (now : Z) (r : ReadyRow) : ReadyRow :=
  r <| rr_published_at := None |> <| rr_claimed_by := None |> <| rr_claim_expires_at := None |>
    <| rr_available_at := now |> <| rr_last_error_type := None |> <| rr_ready_replayed_at := Some now |>.

Definition _requeue_ready_outbox (mailbox : SessionMailbox) (item : MailboxItem) (replay_cooldown : Z)
    : M PgStore unit :=
  let* now := clock_timestamp in
  let* updated := gets (fun s => length (List.filter (replayable mailbox now replay_cooldown) (pg_ready s))) in
  modify (fun s => s <| pg_ready :=
    map (fun r => if replayable mailbox now replay_cooldown r then replay_row now r else r) (pg_ready s) |>) ;;
  if Nat.eqb updated 1 then ret tt
  else insert_ready mailbox (mi_priority item) (ready_trace mailbox (mi_trace_id item) (mi_inbound_id item)) ∅.

(** ** Reading and accepting *)

Definition pg_get (tenant_id session_id : string) : M PgStore (option SessionMailbox) :=
  transaction (fetch_row (tenant_id, session_id)).

(** [INSERT INTO session_mailboxes ... ON CONFLICT DO NOTHING] and the row. *)
Definition ensure_row (key : session_key) : M PgStore SessionMailbox :=
  let* row := fetch_row key in
  match row with
  | Some mb => ret mb
  | None =>
    let* now := clock_timestamp in
    let* tenants := gets pg_tenants in
    raise_if (bool_decide (key.1 ∉ tenants)) (IntegrityError "session_mailboxes_tenant_id_fkey") ;;
    let mb := new_mailbox key.1 key.2 now in
    put_row key mb ;;
    ret mb
  end.

Definition _require_uuid (value : string) : M PgStore string :=
  match parse_uuid value with
  | Some u => ret u
  | None => raise (ValueError "PostgreSQL mailbox inbound_id must be a UUID")
  end.

(** The second half of [accept]: append a new item to the locked mailbox row. *)
Definition accept_row (key : session_key) (mailbox : SessionMailbox) (inbound_id inbound_uuid : string)
    (priority : Z) (retry_at : option Z) (trace_id : option string) : M PgStore SessionMailbox :=
  let* accepted_at := clock_timestamp in
  let* inbound := gets pg_inbound in
  let sequence := mb_accepted_sequence mailbox + 1 in
  let* taken := fetch_item key sequence in
  raise_if (is_some taken) (IntegrityError "session_mailbox_items_pkey") ;;
  raise_if (bool_decide ((key.1, inbound_uuid) ∉ inbound))
    (IntegrityError "session_mailbox_items_inbound_fkey") ;;
  put_pg_item key sequence (MkMailboxItem key.1 key.2 inbound_uuid sequence
    (str_or trace_id inbound_id) priority 0 0 retry_at accepted_at) ;;
  let* server_now := clock_timestamp in
  let previous_status := mb_status mailbox in
  let '(status, next_retry_at) := accepted_status mailbox retry_at server_now in
  let should_emit := bool_decide (status = QUEUED)
    && (bool_decide (previous_status = IDLE) || bool_decide (previous_status = RETRY_WAIT)) in
  let* updated_at := clock_timestamp in
  let updated := mailbox
    <| mb_accepted_sequence := sequence |>
    <| mb_status := status |>
    <| mb_queue_generation := mb_queue_generation mailbox + (if should_emit then 1 else 0) |>
    <| mb_priority := Z.max (mb_priority mailbox) priority |>
    <| mb_retry_at := next_retry_at |>
    <| mb_updated_at := updated_at |> in
  put_row key updated ;;
  (if should_emit
   then _emit_ready_outbox updated (str_or trace_id inbound_id) inbound_uuid priority
   else ret tt) ;;
  ret updated.

Definition pg_accept (tenant_id session_id inbound_id : string) (priority : Z)
    (retry_at : option Z) (trace_id : option string) : M PgStore SessionMailbox :=
  _validate_priority priority ;;
  let* inbound_uuid := _require_uuid inbound_id in
  let key := (tenant_id, session_id) in
  transaction (
    let* mailbox := ensure_row key in
    let* existing := gets (fun s => has_inbound inbound_uuid (pg_items_of key s)) in
    if existing then ret mailbox
    else accept_row key mailbox inbound_id inbound_uuid priority retry_at trace_id).

(** ** Claiming *)

(** The head item is taken when [retry_at IS NULL OR retry_at <= clock_timestamp()]. *)
Definition _claim_locked (tenant_id session_id owner_id : string) (lease_for : Z)
    : M PgStore (option MailboxLease) :=
  let key := (tenant_id, session_id) in
  let* mailbox := fetch_row key in
  match mailbox with
  | None => ret None
  | Some mailbox =>
    let* active :=
      match mb_lease_expires_at mailbox with
      | Some ex => let* now := clock_timestamp in ret (now <? ex)
      | None => ret false
      end in
    if active then ret None
    else
      let sequence := default (mb_resolved_sequence mailbox + 1) (mb_processing_sequence mailbox) in
      if negb (is_some (mb_processing_sequence mailbox)) && (mb_accepted_sequence mailbox <? sequence) then
        let* now := clock_timestamp in
        put_row key (mailbox <| mb_status := IDLE |> <| mb_updated_at := now |>) ;;
        ret None
      else
        let* now := clock_timestamp in
        let* item := fetch_item key sequence in
        match item with
        | None => ret None
        | Some item =>
          if after (mi_retry_at item) now then
            let* now := clock_timestamp in
            if after (mi_retry_at item) now then
              (** The statement names [$4] but not [$3], whose type PostgreSQL then
                  cannot determine. *)
              raise (IndeterminateDatatypeError "could not determine data type of parameter $3")
            else ret None
          else
            let epoch := mb_lease_epoch mailbox + 1 in
            let attempt := mi_attempt item + 1 in
            put_pg_item key sequence (item <| mi_attempt := attempt |>) ;;
            let* now := clock_timestamp in
            let expires_at := now + lease_for in
            put_row key (mailbox
              <| mb_status := RUNNING |>
              <| mb_processing_sequence := Some sequence |>
              <| mb_processing_inbound_id := Some (mi_inbound_id item) |>
              <| mb_lease_owner := Some owner_id |>
              <| mb_lease_epoch := epoch |>
              <| mb_lease_expires_at := Some expires_at |>
              <| mb_attempt := attempt |>
              <| mb_retry_count := mi_retry_count item |>
              <| mb_priority := mi_priority item |>
              <| mb_retry_at := mi_retry_at item |>
              <| mb_updated_at := now |>) ;;
            let* lease := make_MailboxLease tenant_id session_id (mi_inbound_id item) sequence
                            owner_id epoch expires_at attempt (mi_retry_count item)
                            (mi_priority item) in
            ret (Some lease)
        end
  end.

Definition pg_claim (tenant_id session_id owner_id : string) (lease_for : Z)
    : M PgStore (option MailboxLease) :=
  _validate_lease_for lease_for ;;
  transaction (_claim_locked tenant_id session_id owner_id lease_for).

Definition pg_claim_session (tenant_id session_id owner_id : string) (lease_for : Z)
    (expected_generation expected_epoch : option Z) (acceptance : option Acceptance)
    : M PgStore SessionClaim :=
  let expected_generation :=
    match expected_generation with None => expected_epoch | Some g => Some g end in
  _validate_lease_for lease_for ;;
  transaction (
    let* current_time := clock_timestamp in
    let* before_row := fetch_row (tenant_id, session_id) in
    let* before :=
      match before_row with
      | Some mb => ret mb
      | None => let* t := datetime_now in ret (new_mailbox tenant_id session_id t)
      end in
    let stale mb :=
      match expected_generation with
      | Some g => negb (mb_queue_generation mb =? g)
      | None => false
      end in
    if stale before then ret (MkSessionClaim STALE before None acceptance None)
    else
      let* lease := _claim_locked tenant_id session_id owner_id lease_for in
      let* after_row := fetch_row (tenant_id, session_id) in
      let mailbox := default before after_row in
      match lease with
      | Some lease => ret (MkSessionClaim CLAIMED mailbox (Some lease) acceptance None)
      | None =>
        if after (mb_lease_expires_at mailbox) current_time then
          ret (MkSessionClaim CLAIM_RUNNING mailbox None acceptance None)
        else if stale mailbox then ret (MkSessionClaim STALE mailbox None acceptance None)
        else ret (MkSessionClaim EMPTY mailbox None acceptance None)
      end).

(** ** Fenced transitions *)

Definition not_current : exn := FencingConflict "mailbox lease is no longer current".

(** The [UPDATE ... RETURNING lease_expires_at] of a renewal; its [WHERE] clause is
    the fence, with the inbound identifier compared as a UUID. *)
Definition _renew_row (lease : MailboxLease) (lease_for : Z) : M PgStore (option Z) :=
  match parse_uuid (ml_inbound_id lease) with
  | None => raise (ValueError "badly formed hexadecimal UUID string")
  | Some uuid =>
    let key := (ml_tenant_id lease, ml_session_id lease) in
    let* now := clock_timestamp in
    let* row := fetch_row key in
    match row with
    | None => ret None
    | Some mb =>
      if negb (_owns (Some mb) (lease <| ml_inbound_id := uuid |>) now) then ret None
      else
        let expires_at := Z.max (now + lease_for) (default now (mb_lease_expires_at mb) + 1) in
        put_row key (mb <| mb_lease_expires_at := Some expires_at |> <| mb_updated_at := now |>) ;;
        ret (Some expires_at)
    end
  end.

(** The [FencingConflict] is raised after the transaction. *)
Definition pg_renew (lease : MailboxLease) (lease_for : Z) : M PgStore MailboxLease :=
  _validate_lease_for lease_for ;;
  let* row := transaction (_renew_row lease lease_for) in
  match row with
  | None => raise not_current
  | Some expires_at => ret (lease <| ml_expires_at := expires_at |>)
  end.

Fixpoint renew_rows (tenant_id : string) (leases : list MailboxLease) (lease_for : Z)
    : M PgStore (list MailboxLease) :=
  match leases with
  | [] => ret []
  | lease :: rest =>
    raise_if (negb (bool_decide (ml_tenant_id lease = tenant_id)))
      (ValueError "mailbox renew batch must use one tenant") ;;
    let* row := _renew_row lease lease_for in
    match row with
    | None => raise not_current
    | Some expires_at =>
      let* renewed := renew_rows tenant_id rest lease_for in
      ret (lease <| ml_expires_at := expires_at |> :: renewed)
    end
  end.

Definition pg_renew_many (leases : list MailboxLease) (lease_for : Z) : M PgStore (list MailboxLease) :=
  _validate_lease_for lease_for ;;
  match leases with
  | [] => ret []
  | first :: _ => transaction (renew_rows (ml_tenant_id first) leases lease_for)
  end.

(** [str(row["processing_inbound_id"])]. *)
Definition str_of (o : option string) : string := default "None"%string o.

(** The fence: every column of the lease, then the clock. *)
Definition _assert_owned (lease : MailboxLease) : M PgStore SessionMailbox :=
  let* row := fetch_row (ml_tenant_id lease, ml_session_id lease) in
  match row with
  | None => raise not_current
  | Some mb =>
    raise_if (negb (bool_decide (mb_status mb = RUNNING))
              || negb (bool_decide (mb_processing_sequence mb = Some (ml_sequence lease)))
              || negb (bool_decide (str_of (mb_processing_inbound_id mb) = ml_inbound_id lease))
              || negb (bool_decide (mb_lease_owner mb = Some (ml_owner_id lease)))
              || negb (mb_lease_epoch mb =? ml_epoch lease)) not_current ;;
    match mb_lease_expires_at mb with
    | None => raise not_current
    | Some ex =>
      let* now := clock_timestamp in
      raise_if (ex <=? now) not_current ;;
      ret mb
    end
  end.

(** What a mailbox whose head item is [item] becomes when nobody runs it. *)
Definition next_status (item : option MailboxItem) (server_now : Z) : MailboxStatus * option Z * Z :=
  match item with
  | None => (IDLE, None, 0)
  | Some item =>
    if after (mi_retry_at item) server_now then (RETRY_WAIT, mi_retry_at item, 0)
    else (QUEUED, None, 1)
  end.

Definition clear_lease (mb : SessionMailbox) : SessionMailbox :=
  mb <| mb_processing_sequence := None |> <| mb_processing_inbound_id := None |>
     <| mb_lease_owner := None |> <| mb_lease_expires_at := None |>.

Definition pg_commit (lease : MailboxLease) : M PgStore SessionMailbox :=
  let key := (ml_tenant_id lease, ml_session_id lease) in
  transaction (
    let* mailbox := _assert_owned lease in
    let* resolved_at := clock_timestamp in
    modify (fun s => s <| pg_resolved_at := <[(key, ml_sequence lease) := resolved_at]> (pg_resolved_at s) |>) ;;
    let* next_item := fetch_item key (ml_sequence lease + 1) in
    let* server_now := clock_timestamp in
    let '(status, retry_at, increment) := next_status next_item server_now in
    let* updated_at := clock_timestamp in
    let row := clear_lease mailbox
      <| mb_resolved_sequence := ml_sequence lease |>
      <| mb_status := status |> <| mb_retry_at := retry_at |>
      <| mb_queue_generation := mb_queue_generation mailbox + increment |>
      <| mb_updated_at := updated_at |> in
    put_row key row ;;
    (match next_item with
     | Some item =>
       if bool_decide (status = QUEUED)
       then _emit_ready_outbox row (mi_trace_id item) (mi_inbound_id item) (mi_priority item)
       else ret tt
     | None => ret tt
     end) ;;
    ret row).

(** The transaction of [_release]. *)
Definition release_row (lease : MailboxLease) (retry_at priority : option Z)
    (increment_retry emit_ready : bool) : M PgStore SessionMailbox :=
  let key := (ml_tenant_id lease, ml_session_id lease) in
  let* mailbox := _assert_owned lease in
  let* item := fetch_item key (ml_sequence lease) in
  match item with
  | None => raise (RuntimeError "AssertionError")
  | Some item =>
    let item := item
      <| mi_retry_count := mi_retry_count item + (if increment_retry then 1 else 0) |>
      <| mi_priority := default (mi_priority item) priority |>
      <| mi_retry_at := retry_at |> in
    put_pg_item key (ml_sequence lease) item ;;
    let* server_now := clock_timestamp in
    let '(status, next_retry_at, increment) :=
      if emit_ready then next_status (Some item) server_now else (RETRY_WAIT, mi_retry_at item, 0) in
    let* updated_at := clock_timestamp in
    let row := clear_lease mailbox
      <| mb_status := status |>
      <| mb_retry_count := mi_retry_count item |> <| mb_priority := mi_priority item |>
      <| mb_retry_at := next_retry_at |>
      <| mb_queue_generation := mb_queue_generation mailbox + increment |>
      <| mb_updated_at := updated_at |> in
    put_row key row ;;
    (if bool_decide (status = QUEUED) && emit_ready
     then _emit_ready_outbox row (mi_trace_id item) (mi_inbound_id item) (mi_priority item)
     else ret tt) ;;
    ret row
  end.

Definition pg_release (lease : MailboxLease) (retry_at priority : option Z)
    (increment_retry emit_ready : bool) : M PgStore SessionMailbox :=
  match priority with Some p => _validate_priority p | None => ret tt end ;;
  transaction (release_row lease retry_at priority increment_retry emit_ready).

Definition pg_reschedule (lease : MailboxLease) (retry_at priority : option Z) : M PgStore SessionMailbox :=
  pg_release lease retry_at priority false true.

Definition pg_retry (lease : MailboxLease) (retry_at priority : option Z) : M PgStore SessionMailbox :=
  pg_release lease retry_at priority true true.

Definition pg_retry_without_wakeup (lease : MailboxLease) (retry_at : option Z) : M PgStore SessionMailbox :=
  pg_release lease retry_at None true false.

(** ** Recovery *)

(** The session row says that somebody still executes. *)
Definition executing (session : option SessionRow) (server_now : Z) : bool :=
  match session with
  | Some row => is_some (se_lease_owner row) && after (se_lease_expires_at row) server_now
  | None => false
  end.

(** The head item, unless the log has ended. *)
Definition head_item (mailbox : SessionMailbox) (sequence : Z) (item : option MailboxItem)
    : option MailboxItem :=
  if mb_accepted_sequence mailbox <? sequence then None else item.

Definition requeued_row (mailbox : SessionMailbox) (status : MailboxStatus) (retry_at : option Z)
    (increment updated_at : Z) : SessionMailbox :=
  clear_lease mailbox
    <| mb_status := status |> <| mb_retry_at := retry_at |>
    <| mb_queue_generation := mb_queue_generation mailbox + increment |>
    <| mb_updated_at := updated_at |>.

Definition pg_recover (tenant_id session_id : string) : M PgStore (option SessionMailbox) :=
  let key := (tenant_id, session_id) in
  transaction (
    let* now := clock_timestamp in
    let* row := fetch_row key in
    match row with
    | None => ret None
    | Some row =>
      if negb (due (mb_lease_expires_at row) now) then ret None
      else
        let* session := gets (fun s => pg_sessions s !! key) in
        let* server_now := clock_timestamp in
        if executing session server_now then ret None
        else
          let sequence := int_or (mb_processing_sequence row) (mb_resolved_sequence row + 1) in
          let* item := fetch_item key sequence in
          let '(status, retry_at, increment) := next_status (head_item row sequence item) server_now in
          let* updated_at := clock_timestamp in
          let updated := requeued_row row status retry_at increment updated_at in
          put_row key updated ;;
          (match item with
           | Some item =>
             if bool_decide (status = QUEUED)
             then _emit_ready_outbox updated (mi_trace_id item) (mi_inbound_id item) (mi_priority item)
             else ret tt
           | None => ret tt
           end) ;;
          ret (Some updated)
    end).

Definition pg_reconcile (replay_cooldown : Z) (tenant_id session_id : string)
    : M PgStore (option SessionMailbox) :=
  let key := (tenant_id, session_id) in
  transaction (
    let* row := fetch_row key in
    match row with
    | None => ret None
    | Some row =>
      let* session := gets (fun s => pg_sessions s !! key) in
      let* server_now := clock_timestamp in
      if executing session server_now then ret (Some row)
      else
        let sequence := int_or (mb_processing_sequence row) (mb_resolved_sequence row + 1) in
        let* item := fetch_item key sequence in
        let '(status, retry_at, increment) := next_status (head_item row sequence item) server_now in
        let was_queued := bool_decide (mb_status row = QUEUED) in
        if bool_decide (status = QUEUED) && was_queued
           && (server_now - RECONCILE_READY_GRACE <? mb_updated_at row)
        then ret (Some row)
        else
          let increment :=
            if bool_decide (status = QUEUED) && was_queued && (1 <=? mb_queue_generation row)
            then 0 else increment in
          let* updated_at := clock_timestamp in
          let updated := requeued_row row status retry_at increment updated_at in
          put_row key updated ;;
          (match item with
           | Some item =>
             if bool_decide (status = QUEUED) then
               if increment =? 0 then _requeue_ready_outbox updated item replay_cooldown
               else _emit_ready_outbox updated (mi_trace_id item) (mi_inbound_id item) (mi_priority item)
             else ret tt
           | None => ret tt
           end) ;;
          ret (Some updated)
    end).
End pg.
