(* ===== verification/PgMailboxInv.v ===== *)
(** * What the PostgreSQL mailbox keeps

    One lemma per method of [PgMailbox]: a call that raises changes nothing, a
    call that returns is one step of the abstract session, keeps the tables well
    formed and never moves a counter back. *)

From S2P Require Import Prelude PyText Tenant Models Mailbox MailboxInv MailboxSpec PgMailbox.
#[local] Open Scope Z_scope.

(** ** The invariant *)

Definition ready_key (r : ReadyRow) : session_key * Z :=
  ((rr_tenant_id r, rr_session_id r), rr_generation r).

Definition ready_keys (s : PgStore) : list (session_key * Z) := map ready_key (pg_ready s).

(** A mailbox row and its items satisfy the constraints of their tables. *)
Definition checked (mb : SessionMailbox) (items : gmap Z MailboxItem) : Prop :=
  row_check mb = true /\ forall n it, items !! n = Some it -> item_check it = true.

Record pg_inv (s : PgStore) : Prop := {
  pi_mailbox key mb : pg_mailboxes s !! key = Some mb -> mailbox_ok key mb (pg_items_of key s);
  pi_checked key mb : pg_mailboxes s !! key = Some mb -> checked mb (pg_items_of key s);
  pi_empty key : pg_mailboxes s !! key = None -> pg_items_of key s = ∅;
  pi_wake key mb : pg_mailboxes s !! key = Some mb -> mb_status mb = QUEUED ->
    (key, mb_queue_generation mb) ∈ ready_keys s;
  pi_generation key g : (key, g) ∈ ready_keys s ->
    exists mb, pg_mailboxes s !! key = Some mb /\ 1 <= g <= mb_queue_generation mb;
  pi_unique : NoDup (ready_keys s);
}.

Lemma pg_inv_empty : pg_inv pg_empty.
Proof.
  split.
  - intros key mb Hk. simpl in Hk. by rewrite lookup_empty in Hk.
  - intros key mb Hk. simpl in Hk. by rewrite lookup_empty in Hk.
  - intros key _. unfold pg_items_of. simpl. by rewrite lookup_empty.
  - intros key mb Hk. simpl in Hk. by rewrite lookup_empty in Hk.
  - intros key g Hin. by apply elem_of_nil in Hin.
  - constructor.
Qed.

(** ** The abstract session *)

Definition session_view (mb : SessionMailbox) (items : gmap Z MailboxItem) : list string * Z :=
  (inbound_ids mb items, mb_resolved_sequence mb).

Definition pg_view (key : session_key) (s : PgStore) : list string * Z :=
  match pg_mailboxes s !! key with
  | Some mb => session_view mb (pg_items_of key s)
  | None => ([], 0)
  end.

(** Counters never move back. *)
Definition pg_le (s s' : PgStore) : Prop :=
  forall key mb, pg_mailboxes s !! key = Some mb ->
    exists mb', pg_mailboxes s' !! key = Some mb' /\ mailbox_le mb mb'.

#[export] Instance pg_le_preorder : PreOrder pg_le.
Proof.
  split.
  - intros s key mb Hk. exists mb. split; [done|reflexivity].
  - intros x y z Hxy Hyz key mb Hk. destruct (Hxy key mb Hk) as (mb1 & Hk1 & ?).
    destruct (Hyz key mb1 Hk1) as (mb2 & Hk2 & ?). exists mb2. split; [done|]. by etrans.
Qed.

(** What a call on [key] that resolved [lab] does. *)
Record advance (key : session_key) (lab : list string) (s s' : PgStore) : Prop := {
  ad_inv : pg_inv s';
  ad_view k : session_step (pg_view k s) (if decide (k = key) then lab else []) (pg_view k s');
  ad_le : pg_le s s';
}.

Lemma advance_refl key s : pg_inv s -> advance key [] s s.
Proof.
  intros Hs. split; [done| |done]. intros k. destruct (decide (k = key)); apply session_same.
Qed.

(** ** Writing one mailbox *)

Definition add_key (k : session_key * Z) (l : list (session_key * Z)) : list (session_key * Z) :=
  if decide (k ∈ l) then l else l ++ [k].

Lemma add_key_elem k k' l : k' ∈ add_key k l <-> k' ∈ l \/ k' = k.
Proof. unfold add_key. case_decide; set_solver. Qed.

Lemma add_key_NoDup k l : NoDup l -> NoDup (add_key k l).
Proof.
  intros. unfold add_key. case_decide; [done|]. apply NoDup_app.
  split_and!; [done|set_solver|apply NoDup_singleton].
Qed.

Record pg_updated (key : session_key) (mb' : SessionMailbox) (items' : gmap Z MailboxItem)
    (s s' : PgStore) : Prop := {
  pu_mailboxes : pg_mailboxes s' = <[key := mb']> (pg_mailboxes s);
  pu_items : pg_items_of key s' = items';
  pu_other k : k <> key -> pg_items_of k s' = pg_items_of k s;
  pu_keys : ready_keys s' = ready_keys s \/
    (ready_keys s' = add_key (key, mb_queue_generation mb') (ready_keys s) /\
     1 <= mb_queue_generation mb');
}.

Lemma advance_put key mb mb' items' lab s s' :
  pg_inv s -> pg_mailboxes s !! key = Some mb -> pg_updated key mb' items' s s' ->
  mailbox_ok key mb' items' -> checked mb' items' -> mailbox_le mb mb' ->
  (mb_status mb' = QUEUED -> (key, mb_queue_generation mb') ∈ ready_keys s') ->
  session_step (session_view mb (pg_items_of key s)) lab (session_view mb' items') ->
  advance key lab s s'.
Proof.
  intros Hs Hk [Hmb Hit Hoth Hkeys] Hok Hch Hle Hq Hstep.
  assert (Hin : forall k g, (k, g) ∈ ready_keys s' ->
    (k, g) ∈ ready_keys s \/ (k = key /\ g = mb_queue_generation mb' /\ 1 <= g)).
  { intros k g. destruct Hkeys as [->|[-> Hg]]; [by left|]. rewrite add_key_elem. naive_solver. }
  split; [split| |].
  - intros k mb0. rewrite Hmb, lookup_insert. case_decide; intros; simplify_eq; [done|].
    rewrite Hoth by done. by apply Hs.
  - intros k mb0. rewrite Hmb, lookup_insert. case_decide; intros; simplify_eq; [done|].
    rewrite Hoth by done. by apply Hs.
  - intros k. rewrite Hmb, lookup_insert. case_decide; [done|]. intros. rewrite Hoth by done. by apply Hs.
  - intros k mb0. rewrite Hmb, lookup_insert. case_decide; intros; simplify_eq; [auto|].
    assert ((k, mb_queue_generation mb0) ∈ ready_keys s) by (by apply Hs).
    destruct Hkeys as [->|[-> _]]; [done|]. apply add_key_elem. by left.
  - intros k g Hkg. rewrite Hmb, lookup_insert. destruct (Hin k g Hkg) as [Hold|(-> & -> & ?)].
    + destruct (pi_generation s Hs k g Hold) as (mb0 & Hk0 & ?). case_decide; [|eauto].
      subst. simplify_eq. exists mb'. split; [done|]. destruct Hle. lia.
    + rewrite decide_True by done. exists mb'. split; [done|lia].
  - destruct Hkeys as [->|[-> _]]; [apply Hs|]. apply add_key_NoDup, Hs.
  - intros k. unfold pg_view. rewrite Hmb, lookup_insert. case_decide; subst.
    + by rewrite Hk, decide_True.
    + rewrite Hoth, decide_False by congruence. apply session_same.
  - intros k mb0 Hk0. rewrite Hmb, lookup_insert. case_decide; subst; simplify_eq; [eauto|].
    exists mb0. split; [done|reflexivity].
Qed.

(** ** Rules for the statements *)

Section rules.
Context `{Env} `{UuidText}.
Implicit Types (s : PgStore) (e : effects).

Lemma wp_transaction {A} (body : M PgStore A) Q s e :
  wp body (fun r s' e' => match r with Ok a => Q (Ok a) s' e' | Raise x => Q (Raise x) s e' end) s e ->
  wp (transaction body) Q s e.
Proof. apply wp_rollback. Qed.

Lemma wp_put_row key mb (Q : _ -> _ -> _ -> Prop) s e :
  (row_check mb = true -> Q (Ok tt) (s <| pg_mailboxes := <[key := mb]> (pg_mailboxes s) |>) e) ->
  (row_check mb = false -> Q (Raise (IntegrityError "session_mailboxes_check")) s e) ->
  wp (put_row key mb) Q s e.
Proof. intros Hok Hno. unfold put_row. wp_steps; bool_prop; auto. Qed.

Lemma wp_put_pg_item key n it (Q : _ -> _ -> _ -> Prop) s e :
  (item_check it = true ->
     Q (Ok tt) (s <| pg_items := <[key := <[n := it]> (pg_items_of key s)]> (pg_items s) |>) e) ->
  (item_check it = false -> Q (Raise (IntegrityError "session_mailbox_items_check")) s e) ->
  wp (put_pg_item key n it) Q s e.
Proof. intros Hok Hno. unfold put_pg_item. wp_steps; bool_prop; auto. Qed.

Lemma same_ready_spec t ss g l :
  existsb (same_ready t ss g) l = true <-> ((t, ss), g) ∈ map ready_key l.
Proof.
  rewrite existsb_exists, list_elem_of_fmap. unfold same_ready, ready_key. split.
  - intros (r & Hin & Hr). bool_prop. exists r. split; [congruence|by apply list_elem_of_In].
  - intros (r & [= -> -> ->] & Hin). exists r. split; [by apply list_elem_of_In|].
    by rewrite !bool_decide_eq_true_2, Z.eqb_refl.
Qed.

(** A wake-up is inserted unless its generation has one. *)
Lemma wp_insert_ready mb p tr th (Q : _ -> _ -> _ -> Prop) s e :
  let key := (mb_tenant_id mb, mb_session_id mb) in
  (forall l e', map ready_key l = add_key (key, mb_queue_generation mb) (ready_keys s) ->
     1 <= mb_queue_generation mb -> Q (Ok tt) (s <| pg_ready := l |>) e') ->
  (forall x e', char_len (mb_session_id mb) < 1 \/ 256 < char_len (mb_session_id mb) \/
     mb_queue_generation mb < 1 \/ p < 0 \/ char_len tr < 1 \/ 512 < char_len tr ->
     Q (Raise x) s e') ->
  wp (insert_ready mb p tr th) Q s e.
Proof.
  intros key Hok Hno. unfold insert_ready, clock_timestamp. wp_steps.
  - apply Hno. repeat match goal with Hb : _ || _ = true |- _ => apply orb_true_iff in Hb as [?|?] end; bool_prop; auto 10.
  - bool_prop. destruct (existsb _ _) eqn:Hex.
    + apply same_ready_spec in Hex. replace s with (s <| pg_ready := pg_ready s |>) by (by destruct s).
      apply Hok; [|done]. unfold add_key. by rewrite decide_True.
    + apply Hok; [|done]. rewrite map_app. unfold add_key. rewrite decide_False; [done|].
      intros Hin. apply same_ready_spec in Hin. congruence.
Qed.
End rules.

Ltac wp_hook ::=
  lazymatch goal with
  | |- wp (transaction _) _ _ _ => apply wp_transaction
  | |- wp clock_timestamp _ _ _ => unfold clock_timestamp
  | |- wp (fetch_row _) _ _ _ => unfold fetch_row
  | |- wp (fetch_item _ _) _ _ _ => unfold fetch_item
  | |- wp (put_row _ _) _ _ _ => apply wp_put_row; intros
  | |- wp (put_pg_item _ _ _) _ _ _ => apply wp_put_pg_item; intros
  | |- wp (insert_ready _ _ _ _) _ _ _ => apply wp_insert_ready; intros
  | |- wp (_emit_ready_outbox _ _ _ _) _ _ _ => unfold _emit_ready_outbox
  | |- wp (_require_uuid _) _ _ _ => unfold _require_uuid
  | |- wp (_validate_priority _) _ _ _ => unfold _validate_priority
  | |- wp (_validate_lease_for _) _ _ _ => unfold _validate_lease_for
  | |- wp (make_MailboxLease _ _ _ _ _ _ _ _ _ _) _ _ _ => unfold make_MailboxLease
  end.

(** ** Every method *)

(** A call on [key]: when it raises nothing changed, when it returns the session
    advanced and [lab] was resolved. *)
Definition moves {A} (key : session_key) (lab : list string) (m : M PgStore A) : Prop :=
  forall s e, pg_inv s ->
    wp m (fun r s' _ => match r with Ok _ => advance key lab s s' | Raise _ => s' = s end) s e.

Ltac solve_pg_updated :=
  split; simpl;
  [ by rewrite ?insert_insert_eq
  | unfold pg_items_of; simpl; rewrite ?lookup_insert_eq; done
  | intros; unfold pg_items_of; simpl; rewrite ?lookup_insert_ne by done; done
  | first [by left | right; split; [eassumption|done]] ].

Section methods.
Context `{Env} `{UuidText}.

(** A new mailbox row changes no view. *)
Lemma ensure_new key t s :
  pg_inv s -> pg_mailboxes s !! key = None -> row_check (new_mailbox key.1 key.2 t) = true ->
  let s1 := s <| pg_mailboxes := <[key := new_mailbox key.1 key.2 t]> (pg_mailboxes s) |> in
  pg_inv s1 /\ (forall k, pg_view k s1 = pg_view k s) /\ pg_le s s1.
Proof.
  intros Hs Hk Hch s1. assert (Hit : pg_items_of key s = ∅) by (by apply Hs). split_and!.
  - split; simpl.
    + intros k mb. rewrite lookup_insert. case_decide; intros; simplify_eq; [|by apply Hs].
      change (pg_items_of k s1) with (pg_items_of k s). rewrite Hit. apply mailbox_ok_new.
    + intros k mb. rewrite lookup_insert. case_decide; intros; simplify_eq; [|by apply Hs].
      change (pg_items_of k s1) with (pg_items_of k s). rewrite Hit. split; [done|].
      intros n it Hn. by rewrite lookup_empty in Hn.
    + intros k. rewrite lookup_insert. case_decide; [done|]. apply Hs.
    + intros k mb. rewrite lookup_insert. case_decide; intros; simplify_eq. by apply Hs.
    + intros k g Hin. destruct (pi_generation s Hs k g Hin) as (mb & Hk' & Hg).
      rewrite lookup_insert. case_decide; [congruence|eauto].
    + apply Hs.
  - intros k. unfold pg_view. simpl. rewrite lookup_insert. case_decide; [|done]. subst.
    rewrite Hk. by unfold session_view.
  - intros k mb Hk'. simpl. rewrite lookup_insert. case_decide; [congruence|].
    exists mb. split; [done|reflexivity].
Qed.

Lemma advance_after key lab s s1 s2 :
  (forall k, pg_view k s1 = pg_view k s) -> pg_le s s1 -> advance key lab s1 s2 -> advance key lab s s2.
Proof.
  intros Hv Hle [Hi Hst Hle2]. split; [done| |by etrans]. intros k. rewrite <-Hv. apply Hst.
Qed.

(** The rest of [accept], from a row that exists. *)
Lemma accept_advance key mb it st eff p g t t' l s :
  pg_inv s -> pg_mailboxes s !! key = Some mb ->
  has_inbound (mi_inbound_id it) (pg_items_of key s) = false ->
  item_ok key (mb_accepted_sequence mb + 1) it -> item_check it = true ->
  accepted_status mb (mi_retry_at it) t = (st, eff) ->
  let mb' := mb
    <| mb_accepted_sequence := mb_accepted_sequence mb + 1 |>
    <| mb_status := st |>
    <| mb_queue_generation := mb_queue_generation mb + g |>
    <| mb_priority := Z.max (mb_priority mb) p |>
    <| mb_retry_at := eff |>
    <| mb_updated_at := t' |> in
  row_check mb' = true -> 0 <= g ->
  (g = 0 -> l = pg_ready s /\ (st = QUEUED -> mb_status mb = QUEUED)) ->
  (g <> 0 -> map ready_key l = add_key (key, mb_queue_generation mb + g) (ready_keys s) /\
     1 <= mb_queue_generation mb + g) ->
  advance key [] s (s
    <| pg_items := <[key := <[mb_accepted_sequence mb + 1 := it]> (pg_items_of key s)]> (pg_items s) |>
    <| pg_mailboxes := <[key := mb']> (pg_mailboxes s) |> <| pg_ready := l |>).
Proof.
  intros Hs Hk Hin Hit Hic Hst mb' Hch Hg Hg0 Hg1. pose proof (pi_mailbox s Hs key mb Hk) as Hok.
  pose proof (mo_bounds _ _ _ Hok) as Hb. pose proof (mo_generation _ _ _ Hok).
  apply (advance_put key mb mb' (<[mb_accepted_sequence mb + 1 := it]> (pg_items_of key s))); [done|done| | | | | |].
  - split; simpl; [done|unfold pg_items_of; simpl; by rewrite lookup_insert_eq
      |intros k Hne; unfold pg_items_of; simpl; by rewrite lookup_insert_ne|].
    destruct (decide (g = 0)) as [->|Hne]; [left; by destruct Hg0 as [-> _]|right; by apply Hg1].
  - pose proof (mailbox_ok_accept key mb _ it _ t st eff (Z.max (mb_priority mb) p) Hok Hin Hit Hst) as Hok1.
    split; try apply Hok1. simpl. lia.
  - split; [done|]. intros n i. rewrite lookup_insert. case_decide; intros; simplify_eq; [done|].
    by eapply (pi_checked s Hs key mb Hk).
  - split; simpl; lia.
  - simpl. intros Hq. destruct (decide (g = 0)) as [->|Hne].
    + destruct Hg0 as [-> Hq0]; [done|]. rewrite Z.add_0_r. apply (pi_wake s Hs); auto.
    + destruct (Hg1 Hne) as [Hl _]. unfold ready_keys. simpl. rewrite Hl. apply add_key_elem. by right.
  - unfold session_view. simpl. rewrite (inbound_ids_app mb mb') by (done || lia).
    apply session_accept. rewrite (inbound_ids_elem _ _ _ _ Hok).
    intros (n & i & Hn & Hid). rewrite has_inbound_false in Hin. by eapply Hin.
Qed.

(** Raising inside a transaction leaves no trace. *)
Definition body_moves {A} (key : session_key) (lab : list string) (m : M PgStore A) : Prop :=
  forall s e, pg_inv s ->
    wp m (fun r s' _ => match r with Ok _ => advance key lab s s' | Raise _ => True end) s e.

Lemma transaction_moves {A} key lab (m : M PgStore A) :
  body_moves key lab m -> moves key lab (transaction m).
Proof.
  intros Hm s e Hs. apply wp_transaction. eapply wp_mono; [by apply Hm|].
  intros [a|x] s' e'; done.
Qed.

Lemma accept_row_moves key mb i u p ra tr s e :
  pg_inv s -> pg_mailboxes s !! key = Some mb -> has_inbound u (pg_items_of key s) = false -> 0 <= p ->
  wp (accept_row key mb i u p ra tr)
    (fun r s' _ => match r with Ok _ => advance key [] s s' | Raise _ => True end) s e.
Proof.
  intros Hs Hk Hin Hp. pose proof (pi_mailbox s Hs key mb Hk) as Hok.
  pose proof (mo_bounds _ _ _ Hok). pose proof (mo_generation _ _ _ Hok).
  unfold accept_row. wp_steps; try done.
  all: match goal with Hc : item_check ?it = true |- _ =>
         assert (Hit : item_ok key (mb_accepted_sequence mb + 1) it) by (split; simpl; done || lia);
         match goal with Hst : accepted_status _ _ ?now = (?st, ?o) |- _ =>
           pose proof (fun g => accept_advance key mb it st o p g now (clock_at (S (S (ticks e)))))
             as Hadv
         end
       end.
  - refine (Hadv 1 l s Hs Hk Hin Hit _ _ _ _ _ _); try done. intros _. split; [|done].
    replace key with (mb_tenant_id mb, mb_session_id mb); [done|].
    destruct key. by rewrite (mo_tenant _ _ _ Hok), (mo_session _ _ _ Hok).
  - refine (Hadv 0 (pg_ready s) s Hs Hk Hin Hit _ _ _ _ _ _); try done. intros _. split; [done|]. intros ->.
    unfold accepted_status in *. destruct (mb_status mb); repeat case_match; simplify_eq/=; done.
Qed.

Lemma accept_moves t ss i p ra tr : moves (t, ss) [] (pg_accept t ss i p ra tr).
Proof.
  intros s e Hs. unfold pg_accept, ensure_row. wp_steps; try done; bool_prop.
  - by apply advance_refl.
  - eapply wp_mono; [by apply accept_row_moves|]. by intros [] ? ?.
  - destruct (ensure_new (t, ss) (clock_at (ticks e)) s) as (Hs1 & Hv & Hle); [done..|].
    split; [done| |done]. intros k. rewrite Hv. destruct (decide _); apply session_same.
  - destruct (ensure_new (t, ss) (clock_at (ticks e)) s) as (Hs1 & Hv & Hle); [done..|].
    eapply wp_mono; [apply accept_row_moves; [exact Hs1|apply lookup_insert_eq|done|done]|].
    intros [] ? ?; [|done]. by apply advance_after.
Qed.

(** ** Calls that keep the log *)

Record quiet (s s' : PgStore) : Prop := {
  qu_inv : pg_inv s';
  qu_view k : pg_view k s' = pg_view k s;
  qu_le : pg_le s s';
}.

Lemma quiet_refl s : pg_inv s -> quiet s s.
Proof. by split. Qed.

Lemma quiet_trans s s1 s2 : quiet s s1 -> quiet s1 s2 -> quiet s s2.
Proof. intros [? Hv ?] [? Hv' ?]. split; [done| |by etrans]. intros k. by rewrite Hv', Hv. Qed.

Lemma quiet_advance key s s' : quiet s s' -> advance key [] s s'.
Proof. intros [? Hv ?]. split; [done| |done]. intros k. rewrite Hv. destruct (decide _); apply session_same. Qed.

Lemma quiet_put key mb mb' items' s s' :
  pg_inv s -> pg_mailboxes s !! key = Some mb -> pg_updated key mb' items' s s' ->
  mailbox_ok key mb' items' -> checked mb' items' -> mailbox_le mb mb' ->
  (mb_status mb' = QUEUED -> (key, mb_queue_generation mb') ∈ ready_keys s') ->
  session_view mb' items' = session_view mb (pg_items_of key s) -> quiet s s'.
Proof.
  intros Hs Hk Hup Hok Hch Hle Hq Hv.
  destruct (advance_put key mb mb' items' [] s s') as [Hi _ Hle']; [done..| |].
  { rewrite Hv. apply session_same. }
  split; [done| |done]. intros k. unfold pg_view. destruct Hup as [Hmb Hit Hoth _].
  rewrite Hmb, lookup_insert. case_decide; subst.
  - by rewrite Hk, Hv.
  - by rewrite Hoth.
Qed.

(** A call that keeps the log, in a transaction or not. *)
Definition body_quiet {A} (m : M PgStore A) : Prop :=
  forall s e, pg_inv s ->
    wp m (fun r s' _ => match r with Ok _ => quiet s s' | Raise _ => True end) s e.

Definition keeps_log {A} (m : M PgStore A) : Prop :=
  forall s e, pg_inv s ->
    wp m (fun r s' _ => match r with Ok _ => quiet s s' | Raise _ => s' = s end) s e.

Lemma transaction_keeps {A} (m : M PgStore A) : body_quiet m -> keeps_log (transaction m).
Proof.
  intros Hm s e Hs. apply wp_transaction. eapply wp_mono; [by apply Hm|]. by intros [a|x] s' e'.
Qed.

Lemma keeps_moves {A} key (m : M PgStore A) : keeps_log m -> moves key [] m.
Proof.
  intros Hm s e Hs. eapply wp_mono; [by apply Hm|]. intros [a|x] s' e'; [|done]. apply quiet_advance.
Qed.

(** Replacing the head item by a version of itself. *)
Lemma session_view_replace mb mb' items n it it' :
  items !! n = Some it -> mi_inbound_id it' = mi_inbound_id it ->
  mb_accepted_sequence mb' = mb_accepted_sequence mb ->
  mb_resolved_sequence mb' = mb_resolved_sequence mb ->
  session_view mb' (<[n := it']> items) = session_view mb items.
Proof.
  intros Hn Hid Ha Hr. unfold session_view, inbound_ids. rewrite Ha, Hr. f_equal.
  apply list_fmap_ext. intros k ? _. by apply (inbound_at_replace _ _ it).
Qed.

Lemma session_view_same mb mb' items :
  mb_accepted_sequence mb' = mb_accepted_sequence mb ->
  mb_resolved_sequence mb' = mb_resolved_sequence mb -> session_view mb' items = session_view mb items.
Proof. intros Ha Hr. unfold session_view, inbound_ids. by rewrite Ha, Hr. Qed.

Lemma checked_replace mb mb' items n it :
  checked mb items -> row_check mb' = true -> item_check it = true -> checked mb' (<[n := it]> items).
Proof.
  intros [_ Hi] Hr Hc. split; [done|]. intros k i. rewrite lookup_insert.
  case_decide; intros; simplify_eq; eauto.
Qed.

Lemma claim_grant key mb it owner ex t s :
  pg_inv s -> pg_mailboxes s !! key = Some mb ->
  pg_items_of key s !! (mb_resolved_sequence mb + 1) = Some it ->
  let it' := it <| mi_attempt := mi_attempt it + 1 |> in
  let mb' := mb
    <| mb_status := RUNNING |>
    <| mb_processing_sequence := Some (mb_resolved_sequence mb + 1) |>
    <| mb_processing_inbound_id := Some (mi_inbound_id it) |>
    <| mb_lease_owner := Some owner |>
    <| mb_lease_epoch := mb_lease_epoch mb + 1 |>
    <| mb_lease_expires_at := Some ex |>
    <| mb_attempt := mi_attempt it + 1 |>
    <| mb_retry_count := mi_retry_count it |>
    <| mb_priority := mi_priority it |>
    <| mb_retry_at := mi_retry_at it |>
    <| mb_updated_at := t |> in
  item_check it' = true -> row_check mb' = true ->
  quiet s (s
    <| pg_items := <[key := <[mb_resolved_sequence mb + 1 := it']> (pg_items_of key s)]> (pg_items s) |>
    <| pg_mailboxes := <[key := mb']> (pg_mailboxes s) |>).
Proof.
  intros Hs Hk Hit it' mb' Hic Hrc. pose proof (pi_mailbox s Hs key mb Hk) as Hok.
  assert (Hr : 1 <= mb_resolved_sequence mb + 1 <= mb_accepted_sequence mb)
    by (apply (mo_dom _ _ _ Hok); eauto).
  apply (quiet_put key mb mb' (<[mb_resolved_sequence mb + 1 := it']> (pg_items_of key s))); [done|done| | | | | |].
  - solve_pg_updated.
  - apply mailbox_ok_claim; [done|lia|done].
  - eapply checked_replace; [by eapply (pi_checked s)|done|done].
  - split; simpl; lia.
  - done.
  - by eapply session_view_replace.
Qed.

(** The sequence a claim takes is that of the head. *)
Lemma claim_sequence key mb items :
  mailbox_ok key mb items ->
  default (mb_resolved_sequence mb + 1) (mb_processing_sequence mb) = mb_resolved_sequence mb + 1.
Proof.
  intros Hok. destruct (mb_processing_sequence mb) as [n|] eqn:Hn; [|done].
  by destruct (processing_is_head _ _ _ _ Hok Hn) as [_ ->].
Qed.

(** Nothing is waiting: the mailbox is marked idle. *)
Lemma claim_idle key mb t s :
  pg_inv s -> pg_mailboxes s !! key = Some mb -> mb_processing_sequence mb = None ->
  mb_accepted_sequence mb < mb_resolved_sequence mb + 1 ->
  row_check (mb <| mb_status := IDLE |> <| mb_updated_at := t |>) = true ->
  quiet s (s <| pg_mailboxes :=
    <[key := mb <| mb_status := IDLE |> <| mb_updated_at := t |>]> (pg_mailboxes s) |>).
Proof.
  intros Hs Hk Hp Hlt Hrc. pose proof (pi_mailbox s Hs key mb Hk) as Hok.
  pose proof (mo_bounds _ _ _ Hok).
  apply (quiet_put key mb (mb <| mb_status := IDLE |> <| mb_updated_at := t |>) (pg_items_of key s)); [done|done| | | | | |].
  - solve_pg_updated.
  - apply (mailbox_ok_touch _ _ _ IDLE (mb_retry_at mb) _ Hok); [|done|split; [lia|done]].
    by eapply not_running.
  - split; [done|]. by eapply (pi_checked s).
  - by split.
  - done.
  - done.
Qed.

Lemma claim_locked_quiet t ss o lf : body_quiet (_claim_locked t ss o lf).
Proof.
  intros s e Hs. unfold _claim_locked. wp_steps; try done; try (by apply quiet_refl).
  all: match goal with Hi : pg_inv ?s, Hk : pg_mailboxes ?s !! _ = Some ?mb |- _ =>
         pose proof (pi_mailbox s Hi _ _ Hk) as Hok; rewrite ?(claim_sequence _ _ _ Hok) in * end.
  all: bool_prop.
  1, 3: apply claim_idle; [done..| |done|done]; by destruct (mb_processing_sequence _).
  all: by refine (claim_grant _ _ _ _ _ _ s Hs _ _ _ _).
Qed.

Lemma claim_keeps t ss o lf : keeps_log (pg_claim t ss o lf).
Proof.
  intros s e Hs. unfold pg_claim. wp_steps; [done|].
  eapply wp_mono; [by apply claim_locked_quiet|]. by intros [] ? ?.
Qed.

Lemma claim_session_keeps t ss o lf g ep a : keeps_log (pg_claim_session t ss o lf g ep a).
Proof.
  intros s e Hs. unfold pg_claim_session. wp_steps; try done; try (by apply quiet_refl).
  all: eapply wp_mono; [by apply claim_locked_quiet|].
  all: intros [] ? ? ?; wp_steps; done.
Qed.

(** ** Renewing *)

Lemma renew_row_quiet lease lf s e :
  pg_inv s ->
  wp (_renew_row lease lf) (fun r s' _ => match r with
                                          | Ok (Some _) => quiet s s'
                                          | Ok None => s' = s
                                          | Raise _ => True
                                          end) s e.
Proof.
  intros Hs. unfold _renew_row. wp_steps; try done.
  pose proof (pi_mailbox s Hs _ _ ltac:(eassumption)) as Hok.
  match goal with Hk : pg_mailboxes s !! ?key = Some ?mb, Hr : row_check ?mb' = true |- _ =>
    apply (quiet_put key mb mb' (pg_items_of key s)); try done end.
  - solve_pg_updated.
  - bool_prop. apply owns_spec in Heqb as (Hrun & _).
    pose proof (mo_lease _ _ _ Hok) as Hl. split; try apply Hok.
    unfold lease_ok in *. simpl. rewrite Hrun in *.
    destruct Hl as (it & ow & ex & ? & ? & ? & ? & ? & ?). by eexists it, ow, _.
  - split; [done|]. by eapply (pi_checked s).
  - simpl. intros Hq. change (ready_keys _) with (ready_keys s). by apply (pi_wake s).
Qed.

Lemma renew_keeps lease lf : keeps_log (pg_renew lease lf).
Proof.
  intros s e Hs. unfold pg_renew. wp_steps; [done|]. eapply wp_mono; [by apply renew_row_quiet|].
  intros [[ex|]|x] s' e'; intros; wp_steps; done.
Qed.

Lemma renew_rows_quiet t leases lf : body_quiet (renew_rows t leases lf).
Proof.
  induction leases as [|lease leases IH]; intros s e Hs; cbn [renew_rows].
  { by apply wp_ret, quiet_refl. }
  wp_steps; [done|].
  eapply wp_mono; [by apply renew_row_quiet|]. intros [[ex|]|x] s1 e1 Hq; wp_steps; try done.
  eapply wp_mono; [apply IH, Hq|]. intros [l|x] s2 e2 Hq2; wp_steps; [|done].
  by eapply quiet_trans.
Qed.

Lemma renew_many_keeps leases lf : keeps_log (pg_renew_many leases lf).
Proof.
  intros s e Hs. unfold pg_renew_many. wp_steps; [done|by apply quiet_refl|].
  eapply wp_mono; [by apply renew_rows_quiet|]. by intros [] ? ?.
Qed.

(** ** The fence *)

Lemma wp_assert_owned lease (Q : _ -> _ -> _ -> Prop) s e :
  pg_inv s ->
  (forall mb now e', pg_mailboxes s !! (ml_tenant_id lease, ml_session_id lease) = Some mb ->
     _owns (Some mb) lease now = true -> Q (Ok mb) s e') ->
  (forall e', Q (Raise not_current) s e') ->
  wp (_assert_owned lease) Q s e.
Proof.
  intros Hs Hok Hno. unfold _assert_owned. wp_steps; try done; bool_prop.
  match goal with Hk : pg_mailboxes s !! _ = Some ?mb |- _ =>
    pose proof (mo_lease _ _ _ (pi_mailbox s Hs _ _ Hk)) as Hl end.
  eapply (Hok _ (clock_at (ticks e))); [done|]. apply owns_spec. unfold lease_ok in Hl.
  rewrite H1 in Hl. destruct Hl as (it & ow & ex & _ & _ & Hi & _). rewrite Hi in *. simpl in *.
  split_and!; [done..|congruence|done|done|]. eauto.
Qed.

(** ** Giving the session back *)

Lemma next_status_spec item now st ra inc :
  next_status item now = (st, ra, inc) ->
  st <> RUNNING /\ (st = IDLE <-> item = None) /\ (st = QUEUED -> inc = 1) /\ 0 <= inc.
Proof. unfold next_status. repeat case_match; intros; simplify_eq; split_and!; done. Qed.

(** The wake-up of a queued mailbox is in the table. *)
Definition wakes (mb' : SessionMailbox) (s s' : PgStore) : Prop :=
  (mb_status mb' = QUEUED /\ 1 <= mb_queue_generation mb' /\
   ready_keys s' = add_key ((mb_tenant_id mb', mb_session_id mb'), mb_queue_generation mb') (ready_keys s)) \/
  (mb_status mb' <> QUEUED /\ pg_ready s' = pg_ready s).

(** The fields of a mailbox nobody runs any more. *)
Record cleared (mb mb' : SessionMailbox) : Prop := {
  cl_tenant : mb_tenant_id mb' = mb_tenant_id mb;
  cl_session : mb_session_id mb' = mb_session_id mb;
  cl_accepted : mb_accepted_sequence mb' = mb_accepted_sequence mb;
  cl_resolved : mb_resolved_sequence mb <= mb_resolved_sequence mb' <= mb_accepted_sequence mb;
  cl_generation : mb_queue_generation mb <= mb_queue_generation mb';
  cl_epoch : mb_lease_epoch mb' = mb_lease_epoch mb;
  cl_lease : mb_processing_sequence mb' = None /\ mb_processing_inbound_id mb' = None /\
    mb_lease_owner mb' = None /\ mb_lease_expires_at mb' = None;
  cl_running : mb_status mb' <> RUNNING;
  cl_idle : mb_status mb' = IDLE <-> mb_resolved_sequence mb' = mb_accepted_sequence mb;
}.

Lemma advance_clear key mb mb' items' lab s s' :
  pg_inv s -> pg_mailboxes s !! key = Some mb -> cleared mb mb' ->
  pg_mailboxes s' = <[key := mb']> (pg_mailboxes s) ->
  pg_items_of key s' = items' -> (forall k, k <> key -> pg_items_of k s' = pg_items_of k s) ->
  wakes mb' s s' -> mailbox_ok key mb items' -> checked mb' items' ->
  session_step (session_view mb (pg_items_of key s)) lab (session_view mb' items') ->
  advance key lab s s'.
Proof.
  intros Hs Hk [Ht Hss Ha Hr Hg He (? & ? & ? & ?) Hst Hid] Hmb Hit Hoth Hw Hok Hch Hstep.
  assert (Hkey : (mb_tenant_id mb', mb_session_id mb') = key).
  { rewrite Ht, Hss, (mo_tenant _ _ _ Hok), (mo_session _ _ _ Hok). by destruct key. }
  unfold wakes in Hw. rewrite Hkey in Hw.
  apply (advance_put key mb mb' items'); try done.
  - split; [done..|]. destruct Hw as [(_ & ? & ?)|[_ Hl]]; [by right|left]. unfold ready_keys. by rewrite Hl.
  - by eapply mailbox_ok_clear.
  - split; lia.
  - intros Hq. destruct Hw as [(_ & _ & ->)|[? _]]; [|done]. apply add_key_elem. by right.
Qed.

(** The same, for a call that does not resolve anything. *)
Lemma quiet_clear key mb mb' items' s s' :
  pg_inv s -> pg_mailboxes s !! key = Some mb -> cleared mb mb' ->
  mb_resolved_sequence mb' = mb_resolved_sequence mb ->
  pg_mailboxes s' = <[key := mb']> (pg_mailboxes s) ->
  pg_items_of key s' = items' -> (forall k, k <> key -> pg_items_of k s' = pg_items_of k s) ->
  wakes mb' s s' -> mailbox_ok key mb items' -> checked mb' items' ->
  session_view mb' items' = session_view mb (pg_items_of key s) -> quiet s s'.
Proof.
  intros Hs Hk Hcl Hr Hmb Hit Hoth Hw Hok Hch Hv.
  destruct (advance_clear key mb mb' items' [] s s') as [Hi _ Hle]; try done.
  { rewrite Hv. apply session_same. }
  split; [done| |done]. intros k. unfold pg_view. rewrite Hmb, lookup_insert. case_decide; subst.
  - by rewrite Hk, Hv.
  - by rewrite Hoth.
Qed.

Lemma items_of_resolved k x s : pg_items_of k (s <| pg_resolved_at := x |>) = pg_items_of k s.
Proof. done. Qed.

(** The log ends where there is no item. *)
Lemma item_none key mb items n :
  mailbox_ok key mb items -> 1 <= n -> n <= mb_accepted_sequence mb + 1 ->
  items !! n = None <-> n = mb_accepted_sequence mb + 1.
Proof.
  intros Hok H1 H2. rewrite eq_None_not_Some, (mo_dom _ _ _ Hok). lia.
Qed.

Ltac solve_wakes :=
  first [left; split_and!; [done|done|eassumption]
        |right; split; [simpl; congruence|done]
        |right; split; [simpl; intros ->; naive_solver|done]].

Lemma commit_moves lease :
  moves (ml_tenant_id lease, ml_session_id lease) [ml_inbound_id lease] (pg_commit lease).
Proof.
  apply transaction_moves. intros s e Hs. apply wp_bind, wp_assert_owned; [done| |done].
  intros mb now e' Hk Hown. pose proof (pi_mailbox s Hs _ _ Hk) as Hok.
  destruct (owned_resolved _ _ _ _ _ Hok Hown) as (Hseq & Hle & it & Hit & Hid).
  pose proof (mo_bounds _ _ _ Hok). pose proof (mo_generation _ _ _ Hok).
  pose proof (item_none _ _ _ (ml_sequence lease + 1) Hok ltac:(lia) ltac:(lia)) as Hend.
  wp_steps; try done; rewrite items_of_resolved in *.
  all: match goal with Hn : next_status _ _ = _ |- _ =>
         destruct (next_status_spec _ _ _ _ _ Hn) as (Hnr & Hidle & Hinc & Hinc0) end.
  all: bool_prop; match goal with
         | Hf : ?x = Some _, He : ?x = None <-> _ |- _ => rewrite Hf in He
         | Hf : ?x = None, He : ?x = None <-> _ |- _ => rewrite Hf in He
         end.
  all: match goal with Hk : pg_mailboxes ?s !! ?key = Some ?mb, Hr : row_check ?row = true |- _ =>
         apply (advance_clear key mb row (pg_items_of key s));
           [done|done| |done|done|done| |done|split; [done|by eapply (pi_checked s)]|] end.
  all: try solve_wakes.
  all: try (unfold session_view; simpl; rewrite Hseq; unfold inbound_ids; simpl;
            rewrite <-Hid; apply session_commit; [lia|]; by eapply inbound_ids_lookup; [done|lia|rewrite <-Hseq]).
  all: split; simpl; [done|done|done|lia|lia|done|done|done|rewrite Hidle, Hend; lia].
Qed.

Lemma released_next (em : bool) it now st ra inc :
  (if em then next_status (Some it) now else (RETRY_WAIT, mi_retry_at it, 0)) = (st, ra, inc) ->
  st <> RUNNING /\ st <> IDLE /\ 0 <= inc /\ (em = false -> st <> QUEUED).
Proof.
  destruct em; [|intros; simplify_eq; split_and!; done].
  intros (? & Hi & ? & ?)%next_status_spec. split_and!; try done. intros ->. by destruct Hi as [Hi _]; specialize (Hi eq_refl).
Qed.

Lemma release_row_quiet lease ra p inc em :
  (forall q, p = Some q -> 0 <= q) -> body_quiet (release_row lease ra p inc em).
Proof.
  intros Hp s e Hs. unfold release_row. apply wp_bind, wp_assert_owned; [done| |done].
  intros mb now e' Hk Hown. pose proof (pi_mailbox s Hs _ _ Hk) as Hok.
  destruct (owned_resolved _ _ _ _ _ Hok Hown) as (Hseq & Hle & it0 & Hit0 & Hid0).
  pose proof (mo_generation _ _ _ Hok). apply wp_bind. unfold fetch_item at 1. apply wp_gets.
  rewrite Hit0. set (it := it0 <| mi_retry_count := _ |> <| mi_priority := _ |> <| mi_retry_at := _ |>).
  destruct (mo_items _ _ _ Hok _ _ Hit0).
  assert (Hio : item_ok (ml_tenant_id lease, ml_session_id lease) (ml_sequence lease) it).
  { split; simpl; try done; [destruct inc; lia|]. destruct p as [q|]; simpl; auto. }
  assert (Hin : mi_inbound_id it = mi_inbound_id it0) by done. clearbody it.
  wp_steps; try done.
  all: match goal with Hn : (if _ then _ else _) = _ |- _ =>
         destruct (released_next _ _ _ _ _ _ Hn) as (Hnr & Hni & Hz & Hnq) end.
  all: match goal with Hk : pg_mailboxes ?s !! ?key = Some ?mb, Hr : row_check ?row = true,
         Hc : item_check ?i = true, Hseq : ?n = mb_resolved_sequence ?mb + 1 |- _ =>
         apply (quiet_clear key mb row (<[n := i]> (pg_items_of key s)));
           [done|done| |done|done
           |unfold pg_items_of; simpl; by rewrite lookup_insert_eq
           |intros; unfold pg_items_of; simpl; by rewrite lookup_insert_ne
           | |by eapply mailbox_ok_replace
           |by eapply checked_replace; [eapply (pi_checked s)|..]
           |by eapply session_view_replace] end.
  all: try (pose proof (mo_bounds _ _ _ Hok); split; simpl; try done; try lia; split; [done|lia]).
  all: bool_prop; try solve_wakes.
Qed.

Lemma release_keeps lease ra p inc em : keeps_log (pg_release lease ra p inc em).
Proof.
  intros s e Hs. unfold pg_release. destruct p as [p|]; wp_steps; try done; bool_prop.
  all: eapply wp_mono; [apply release_row_quiet; [naive_solver|done]|].
  all: by intros [] ? ?.
Qed.

(** ** Recovery *)

Lemma head_sequence_pg key mb items :
  mailbox_ok key mb items ->
  int_or (mb_processing_sequence mb) (mb_resolved_sequence mb + 1) = mb_resolved_sequence mb + 1.
Proof.
  intros Hok. pose proof (mo_bounds _ _ _ Hok). unfold int_or.
  destruct (mb_processing_sequence mb) as [n|] eqn:Hn; [|done].
  destruct (processing_is_head _ _ _ _ Hok Hn) as [_ ->]. by case_match.
Qed.

(** What the head of the log says the mailbox becomes. *)
Lemma head_next key mb items now st ra inc :
  mailbox_ok key mb items ->
  let n := mb_resolved_sequence mb + 1 in
  next_status (head_item mb n (items !! n)) now = (st, ra, inc) ->
  st <> RUNNING /\ (st = IDLE <-> mb_resolved_sequence mb = mb_accepted_sequence mb) /\
  (st = QUEUED -> inc = 1) /\ 0 <= inc.
Proof.
  intros Hok n Hn. pose proof (mo_bounds _ _ _ Hok) as Hb.
  destruct (next_status_spec _ _ _ _ _ Hn) as (? & Hi & ? & ?). split_and!; try done.
  rewrite Hi. unfold head_item. pose proof (item_none _ _ _ n Hok ltac:(lia) ltac:(lia)) as Hend.
  case_match; bool_prop; [split; [lia|done]|]. rewrite Hend. lia.
Qed.

Lemma requeued_cleared key mb items st ra inc t :
  mailbox_ok key mb items -> st <> RUNNING -> 0 <= inc ->
  (st = IDLE <-> mb_resolved_sequence mb = mb_accepted_sequence mb) ->
  cleared mb (requeued_row mb st ra inc t).
Proof.
  intros Hok Hr Hi Hid. pose proof (mo_bounds _ _ _ Hok). split; simpl; try done; lia.
Qed.

(** A queued mailbox has an item to wake up for. *)
Lemma queued_item mb n item now ra inc :
  next_status (head_item mb n item) now = (QUEUED, ra, inc) -> item <> None.
Proof. unfold next_status, head_item. by repeat case_match; intros; simplify_eq. Qed.

(** The row written for a mailbox nobody runs, with its wake-up. *)
Lemma requeued_quiet key mb st ra inc t l s :
  pg_inv s -> pg_mailboxes s !! key = Some mb ->
  let row := requeued_row mb st ra inc t in
  row_check row = true -> st <> RUNNING -> 0 <= inc ->
  (st = IDLE <-> mb_resolved_sequence mb = mb_accepted_sequence mb) ->
  wakes row s (s <| pg_mailboxes := <[key := row]> (pg_mailboxes s) |> <| pg_ready := l |>) ->
  quiet s (s <| pg_mailboxes := <[key := row]> (pg_mailboxes s) |> <| pg_ready := l |>).
Proof.
  intros Hs Hk row Hrc Hr Hi Hid Hw. pose proof (pi_mailbox s Hs _ _ Hk) as Hok.
  apply (quiet_clear key mb row (pg_items_of key s)); try done.
  - by eapply requeued_cleared.
  - split; [done|]. by eapply (pi_checked s).
Qed.

Ltac requeue_facts :=
  match goal with Hi : pg_inv ?s, Hk : pg_mailboxes ?s !! _ = Some ?mb |- _ =>
    let Hok := fresh "Hok" in
    pose proof (pi_mailbox s Hi _ _ Hk) as Hok; rewrite ?(head_sequence_pg _ _ _ Hok) in *;
    match goal with Hn : next_status (head_item _ _ ?f) _ = _, Hf : pg_items_of _ _ !! _ = _ |- _ =>
      first [rewrite Hf in Hn|idtac];
      let Hq := fresh "Hq" in
      pose proof (fun E => queued_item _ _ _ _ _ _ (eq_trans Hn (f_equal2 pair (f_equal2 pair E eq_refl) eq_refl))) as Hq;
      rewrite <-?Hf in Hn; destruct (head_next _ _ _ _ _ _ _ Hok Hn) as (? & ? & ? & ?)
    end
  end.

Lemma recover_keeps t ss : keeps_log (pg_recover t ss).
Proof.
  apply transaction_keeps. intros s e Hs. wp_steps; try done; try (by apply quiet_refl).
  all: requeue_facts; bool_prop.
  - refine (requeued_quiet _ _ _ _ _ _ l s Hs _ _ _ _ _ _); try done. by left.
  - refine (requeued_quiet _ _ _ _ _ _ (pg_ready s) s Hs _ _ _ _ _ _); try done. by right.
  - refine (requeued_quiet _ _ _ _ _ _ (pg_ready s) s Hs _ _ _ _ _ _); try done. right.
    split; [|done]. intros E. by apply (Hq E).
Qed.

(** Replaying a wake-up keeps it where it is; one that is missing is inserted. *)
Lemma replay_keys mb now rc l :
  map ready_key (map (fun r => if replayable mb now rc r then replay_row now r else r) l) = map ready_key l.
Proof. rewrite map_map. apply map_ext. intros r. by case_match. Qed.

Lemma replayed_elem mb now rc l :
  length (List.filter (replayable mb now rc) l) = 1%nat ->
  ((mb_tenant_id mb, mb_session_id mb), mb_queue_generation mb) ∈ map ready_key l.
Proof.
  intros Hl. apply same_ready_spec, existsb_exists.
  destruct (List.filter _ l) as [|r rest] eqn:Hf; [done|].
  assert (In r (List.filter (replayable mb now rc) l)) as [? Hr]%filter_In by (rewrite Hf; by left).
  exists r. split; [done|]. unfold replayable in Hr. by bool_prop.
Qed.

Lemma wp_requeue_ready mb item rc (Q : _ -> _ -> _ -> Prop) s e :
  let key := (mb_tenant_id mb, mb_session_id mb) in
  1 <= mb_queue_generation mb ->
  (forall l e', map ready_key l = add_key (key, mb_queue_generation mb) (ready_keys s) ->
     Q (Ok tt) (s <| pg_ready := l |>) e') ->
  (forall x s' e', Q (Raise x) s' e') ->
  wp (_requeue_ready_outbox mb item rc) Q s e.
Proof.
  intros key Hg Hok Hno. unfold _requeue_ready_outbox. wp_steps; try done.
  - apply Hok. rewrite replay_keys. unfold add_key. rewrite decide_True; [done|].
    eapply replayed_elem. by apply Nat.eqb_eq.
  - refine (Hok l _ _). etrans; [eassumption|]. unfold ready_keys at 1. simpl. by rewrite replay_keys.
Qed.

(** Reconciling raises the generation unless the mailbox already had one queued. *)
Lemma reconciled_generation (b c : bool) (inc g : Z) :
  0 <= inc -> (c = true -> inc = 1) -> 0 <= g ->
  let inc' := if c && b && (1 <=? g) then 0 else inc in
  0 <= inc' /\ (c = true -> inc' = 0 -> 1 <= g).
Proof. intros Hi Hc Hg inc'. subst inc'. destruct c, b; simpl; try case_match; bool_prop; lia. Qed.

Lemma reconcile_keeps rc t ss : keeps_log (pg_reconcile rc t ss).
Proof.
  apply transaction_keeps. intros s e Hs. wp_steps; try done; try (by apply quiet_refl).
  all: requeue_facts; bool_prop.
  all: match goal with Hq : ?m = QUEUED -> ?z = 1, Hz : 0 <= ?z, Hok : mailbox_ok _ ?mb _,
         Hr : row_check (requeued_row _ _ _ (if ?c && ?b && _ then _ else _) _) = true |- _ =>
         destruct (reconciled_generation b c z (mb_queue_generation mb) Hz) as [Hinc Hgen];
           [intros; try apply Hq; by bool_prop|apply Hok|] end.
  - pose proof (Z.add_le_mono _ _ _ _ (Hgen eq_refl Heqb2) Hinc) as Hone.
    apply wp_requeue_ready; [exact Hone| |done]. intros l e' Hl.
    apply wp_ret. refine (requeued_quiet _ _ _ _ _ _ l s Hs _ _ _ _ _ _); try done. by left.
  - refine (requeued_quiet _ _ _ _ _ _ l s Hs _ _ _ _ _ _); try done. by left.
  - refine (requeued_quiet _ _ _ _ _ _ (pg_ready s) s Hs _ _ _ _ _ _); try done. by right.
  - refine (requeued_quiet _ _ _ _ _ _ (pg_ready s) s Hs _ _ _ _ _ _); try done. right.
    split; [|done]. intros E. by apply (Hq E).
Qed.
End methods.
