(* ===== verification/PgMailboxThms.v ===== *)
(** * Theorems about the PostgreSQL mailbox

    The calls of [PostgresSessionMailboxStore] and the writes of the rest of the
    service as one step relation, and what holds along its runs: the store refines
    the same ordered log as the in-memory store, its tables stay well formed, a
    superseded lease is refused by every method, an owned commit returns, and
    reconciliation publishes a lost wake-up again. *)

From S2P Require Import Prelude PyText Tenant Models Mailbox MailboxInv MailboxSpec PgMailbox PgMailboxInv.
#[local] Open Scope Z_scope.

(** ** Calls and runs *)

Inductive pg_call : Type :=
  | PAccept (tenant_id session_id inbound_id : string) (priority : Z) (retry_at : option Z)
      (trace_id : option string)
  | PClaim (tenant_id session_id owner_id : string) (lease_for : Z)
  | PClaimSession (tenant_id session_id owner_id : string) (lease_for : Z)
      (expected_generation expected_epoch : option Z) (acceptance : option Acceptance)
  | PRenew (lease : MailboxLease) (lease_for : Z)
  | PRenewMany (leases : list MailboxLease) (lease_for : Z)
  | PCommit (lease : MailboxLease)
  | PReschedule (lease : MailboxLease) (retry_at priority : option Z)
  | PRetry (lease : MailboxLease) (retry_at priority : option Z)
  | PRetryWithoutWakeup (lease : MailboxLease) (retry_at : option Z)
  | PRecover (tenant_id session_id : string)
  | PReconcile (replay_cooldown : Z) (tenant_id session_id : string).

(** Writes between two calls that leave the mailboxes and items alone: tenants, inbound
    messages, session leases, and the publication columns of wake-ups.  The runs of this file are
    those of the store's own calls; the sweeps and the methods of the repository, which change the
    same tables, are steps of the runs of the whole repository. *)
Record outside (s s' : PgStore) : Prop := {
  ou_mailboxes : pg_mailboxes s' = pg_mailboxes s;
  ou_items : pg_items s' = pg_items s;
  ou_ready : ready_keys s' = ready_keys s;
}.

Section runs.
Context `{Env} `{UuidText}.

Definition forget {A} (m : M PgStore A) : M PgStore unit := m ;; ret tt.

Definition pg_exec (c : pg_call) : M PgStore unit :=
  match c with
  | PAccept t s i p r tr => forget (pg_accept t s i p r tr)
  | PClaim t s o l => forget (pg_claim t s o l)
  | PClaimSession t s o l g ep a => forget (pg_claim_session t s o l g ep a)
  | PRenew l f => forget (pg_renew l f)
  | PRenewMany l f => forget (pg_renew_many l f)
  | PCommit l => forget (pg_commit l)
  | PReschedule l r p => forget (pg_reschedule l r p)
  | PRetry l r p => forget (pg_retry l r p)
  | PRetryWithoutWakeup l r => forget (pg_retry_without_wakeup l r)
  | PRecover t s => forget (pg_recover t s)
  | PReconcile rc t s => forget (pg_reconcile rc t s)
  end.

(** The message a call reports as resolved for [key]. *)
Definition pg_resolved (c : pg_call) (r : outcome unit) (key : session_key) : list string :=
  match c, r with
  | PCommit l, Ok _ => if decide (key = (ml_tenant_id l, ml_session_id l)) then [ml_inbound_id l] else []
  | _, _ => []
  end.

(** A run, with the messages of [key] it resolved. *)
Inductive pg_run (key : session_key) : PgStore * effects -> list string -> PgStore * effects -> Prop :=
  | pg_run_nil c : pg_run key c [] c
  | pg_run_call cl s e r s' e' tr c :
      pg_exec cl s e = (r, s', e') -> pg_run key (s', e') tr c ->
      pg_run key (s, e) (pg_resolved cl r key ++ tr) c
  | pg_run_outside s s' e tr c :
      outside s s' -> pg_run key (s', e) tr c -> pg_run key (s, e) tr c.

Inductive pg_step : PgStore * effects -> PgStore * effects -> Prop :=
  | pg_step_call c s e r s' e' : pg_exec c s e = (r, s', e') -> pg_step (s, e) (s', e')
  | pg_step_outside s s' e : outside s s' -> pg_step (s, e) (s', e).

Definition pg_reachable (s : PgStore) (e : effects) : Prop :=
  exists e0, rtc pg_step (pg_empty, e0) (s, e).

(** ** Every step *)

Lemma outside_quiet s s' : pg_inv s -> outside s s' -> quiet s s'.
Proof.
  intros Hs [Hm Hi Hr]. assert (Hit : forall k, pg_items_of k s' = pg_items_of k s).
  { intros k. unfold pg_items_of. by rewrite Hi. }
  split; [split|..].
  - intros k mb. rewrite Hm, Hit. apply Hs.
  - intros k mb. rewrite Hm, Hit. apply Hs.
  - intros k. rewrite Hm, Hit. apply Hs.
  - intros k mb. rewrite Hm, Hr. apply Hs.
  - intros k g. rewrite Hm, Hr. apply Hs.
  - rewrite Hr. apply Hs.
  - intros k. unfold pg_view. by rewrite Hm, Hit.
  - intros k mb Hk. exists mb. rewrite Hm. split; [done|reflexivity].
Qed.

Lemma moves_forget {A} key lab (m : M PgStore A) : moves key lab m -> moves key lab (forget m).
Proof.
  intros Hm s e Hs. apply wp_bind. eapply wp_mono; [by apply Hm|]. by intros [] ? ?.
Qed.

Lemma moves_run {A} key lab (m : M PgStore A) s e r s' e' k :
  moves key lab m -> pg_inv s -> m s e = (r, s', e') ->
  pg_inv s' /\ pg_le s s' /\
  session_step (pg_view k s) (match r with Ok _ => if decide (k = key) then lab else [] | Raise _ => [] end)
    (pg_view k s').
Proof.
  intros Hm Hs Hrun. pose proof (wp_run _ _ _ _ _ _ _ (Hm s e Hs) Hrun) as Hp. simpl in Hp.
  destruct r as [a|x]; [by destruct Hp|]. subst. split_and!; [done|done|apply session_same].
Qed.

(** One call is one step of the abstract session. *)
Lemma pg_exec_step c s e r s' e' k :
  pg_inv s -> pg_exec c s e = (r, s', e') ->
  pg_inv s' /\ pg_le s s' /\ session_step (pg_view k s) (pg_resolved c r k) (pg_view k s').
Proof.
  intros Hs Hrun.
  assert (exists key lab, moves key lab (pg_exec c) /\
    pg_resolved c r k = match r with Ok _ => if decide (k = key) then lab else [] | Raise _ => [] end)
    as (key & lab & Hm & ->); [|by apply (moves_run key lab _ s e r s' e' k Hm)].
  destruct c; simpl;
    [eexists (_, _), []; split; [apply moves_forget, accept_moves|]
    |eexists (k.1, k.2), []; split; [apply moves_forget, keeps_moves, claim_keeps|]
    |eexists (k.1, k.2), []; split; [apply moves_forget, keeps_moves, claim_session_keeps|]
    |eexists (k.1, k.2), []; split; [apply moves_forget, keeps_moves, renew_keeps|]
    |eexists (k.1, k.2), []; split; [apply moves_forget, keeps_moves, renew_many_keeps|]
    |eexists _, _; split; [apply moves_forget, commit_moves|done]
    |eexists (k.1, k.2), []; split; [apply moves_forget, keeps_moves, release_keeps|]
    |eexists (k.1, k.2), []; split; [apply moves_forget, keeps_moves, release_keeps|]
    |eexists (k.1, k.2), []; split; [apply moves_forget, keeps_moves, release_keeps|]
    |eexists (k.1, k.2), []; split; [apply moves_forget, keeps_moves, recover_keeps|]
    |eexists (k.1, k.2), []; split; [apply moves_forget, keeps_moves, reconcile_keeps|]].
  all: destruct r; [by destruct (decide _)|done].
Qed.

Lemma pg_steps c c' : rtc pg_step c c' -> pg_inv c.1 -> pg_inv c'.1 /\ pg_le c.1 c'.1.
Proof.
  induction 1 as [c|c1 c2 c3 Hstep _ IH]; intros Hs; [done|].
  assert (pg_inv c2.1 /\ pg_le c1.1 c2.1) as [Hs2 Hle].
  { destruct Hstep as [cl s e r s' e' Hrun|s s' e Hout]; simpl in *.
    - by destruct (pg_exec_step _ _ _ _ _ _ ("", "")%string Hs Hrun) as (? & ? & _).
    - by destruct (outside_quiet _ _ Hs Hout). }
  destruct (IH Hs2). split; [done|]. by etrans.
Qed.

Lemma pg_reachable_inv s e : pg_reachable s e -> pg_inv s.
Proof. intros [e0 Hr]. by apply (pg_steps _ _ Hr pg_inv_empty). Qed.

Lemma pg_run_take key c tr c' :
  pg_run key c tr c' -> pg_inv c.1 -> view_ok (pg_view key c.1) ->
  pg_inv c'.1 /\
  take (Z.to_nat (pg_view key c'.1).2) (pg_view key c'.1).1 =
    take (Z.to_nat (pg_view key c.1).2) (pg_view key c.1).1 ++ tr.
Proof.
  induction 1 as [c|cl s e r s' e' tr c Hrun _ IH|s s' e tr c Hout _ IH]; intros Hs Hv; simpl in *.
  - by rewrite app_nil_r.
  - destruct (pg_exec_step _ _ _ _ _ _ key Hs Hrun) as (Hs' & _ & Hstep).
    destruct (session_step_take _ _ _ Hstep Hv) as [Hv' Htake].
    destruct (IH Hs' Hv') as [? Heq]. split; [done|]. by rewrite Heq, Htake, app_assoc.
  - destruct (outside_quiet _ _ Hs Hout) as [Hs' Hv' _]. rewrite <-Hv'. apply IH; [done|]. by rewrite Hv'.
Qed.

Lemma pg_view_NoDup key s : pg_inv s -> NoDup (pg_view key s).1.
Proof.
  intros Hs. unfold pg_view. destruct (pg_mailboxes s !! key) as [mb|] eqn:Hk; simpl; [|constructor].
  eapply inbound_ids_NoDup, Hs, Hk.
Qed.
End runs.

(** ** The fence *)

Abbreviation pg_key lease := (ml_tenant_id lease, ml_session_id lease).

Section fence.
Context `{Env} `{UuidText}.

(** The result of the fence is ownership at one clock reading. *)
Lemma assert_owned_run lease s e :
  pg_inv s ->
  wp (_assert_owned lease) (fun r s' e' => s' = s /\
    r = match pg_mailboxes s !! pg_key lease with
        | Some mb => if _owns (Some mb) lease (clock_at (ticks e)) then Ok mb else Raise not_current
        | None => Raise not_current
        end) s e.
Proof.
  intros Hs. unfold _assert_owned. wp_steps; split; try done; rewrite ?Heqo; try done.
  all: match goal with |- context [_owns ?a ?b ?c] => destruct (_owns a b c) eqn:Hown end; try done.
  all: try (apply owns_spec in Hown as (? & ? & Hi & ? & ? & ? & ? & ?); rewrite ?Hi in *; bool_prop;
    repeat match goal with Hx : _ || _ = true |- _ => apply orb_true_iff in Hx as [Hx|Hx] end;
    bool_prop; simplify_eq/=; congruence || lia).
  all: exfalso; apply not_true_iff_false in Hown; apply Hown, owns_spec; bool_prop.
  pose proof (mo_lease _ _ _ (pi_mailbox s Hs _ _ Heqo)) as Hl. unfold lease_ok in Hl.
  rewrite H1 in Hl. destruct Hl as (it & ow & ex & _ & _ & Hi & _). rewrite Hi in *. simpl in *.
  split_and!; [done..|congruence|done|done|]. eauto.
Qed.

(** The call raises and changes nothing. *)
Definition refused {A} (m : M PgStore A) (s : PgStore) (e : effects) : Prop :=
  exists x e', m s e = (Raise x, s, e').

Lemma refused_wp {A} (m : M PgStore A) s e :
  wp m (fun r s' _ => (exists x, r = Raise x) /\ s' = s) s e -> refused m s e.
Proof.
  unfold wp, refused. destruct (m s e) as [[r s'] e']. simpl. intros [[x ->] ->]. eauto.
Qed.

Lemma transaction_refused {A} (m : M PgStore A) s e :
  wp m (fun r _ _ => exists x, r = Raise x) s e -> refused (transaction m) s e.
Proof.
  intros Hm. apply refused_wp, wp_transaction. eapply wp_mono; [exact Hm|].
  intros r s' e' [x ->]. eauto.
Qed.

(** A later epoch is in the row. *)
Definition superseded_at (lease : MailboxLease) (s : PgStore) : Prop :=
  exists mb, pg_mailboxes s !! pg_key lease = Some mb /\ ml_epoch lease < mb_lease_epoch mb.

Lemma superseded_le lease s s' : superseded_at lease s -> pg_le s s' -> superseded_at lease s'.
Proof.
  intros (mb & Hk & Hlt) Hle. destruct (Hle _ _ Hk) as (mb' & Hk' & [_ _ _ ?]).
  exists mb'. split; [done|lia].
Qed.

Lemma superseded_owns lease mb i now :
  ml_epoch lease < mb_lease_epoch mb -> _owns (Some mb) (lease <| ml_inbound_id := i |>) now = false.
Proof.
  intros Hlt. apply not_true_iff_false. rewrite owns_spec. simpl. intros (_ & _ & _ & _ & ? & _). lia.
Qed.

Lemma superseded_assert lease s e :
  superseded_at lease s -> wp (_assert_owned lease) (fun r _ _ => r = Raise not_current) s e.
Proof.
  intros (mb & Hk & Hlt). unfold _assert_owned. wp_steps; bool_prop; simplify_eq; try done; lia.
Qed.

Lemma superseded_renew_row lease lf s e :
  superseded_at lease s ->
  wp (_renew_row lease lf) (fun r s' _ => (r = Ok None \/ exists x, r = Raise x) /\ s' = s) s e.
Proof.
  intros (mb & Hk & Hlt). unfold _renew_row. wp_steps; simplify_eq; eauto.
  all: by rewrite superseded_owns in *.
Qed.

Lemma superseded_rows lease t leases lf s e :
  pg_inv s -> lease ∈ leases -> superseded_at lease s ->
  wp (renew_rows t leases lf) (fun r _ _ => exists x, r = Raise x) s e.
Proof.
  revert s e. induction leases as [|l rest IH]; intros s e Hs Hin Hsup; [by apply elem_of_nil in Hin|].
  cbn [renew_rows]. wp_steps; [eauto|]. apply elem_of_cons in Hin as [->|Hin].
  - eapply wp_mono; [by apply superseded_renew_row|].
    intros r s' e' [[->|[x ->]] ->]; wp_steps; eauto.
  - eapply wp_mono; [by apply renew_row_quiet|]. intros [[ex|]|x] s1 e1 Hq; wp_steps; eauto.
    eapply wp_mono; [apply IH; [apply Hq|done|by eapply superseded_le, Hq]|].
    intros r s2 e2 [x ->]. eauto.
Qed.

(** Every fenced method refuses a superseded lease. *)
Lemma superseded_refused lease s e :
  pg_inv s -> superseded_at lease s -> forall lf ra p,
    refused (pg_commit lease) s e /\ refused (pg_renew lease lf) s e /\
    refused (pg_reschedule lease ra p) s e /\ refused (pg_retry lease ra p) s e /\
    refused (pg_retry_without_wakeup lease ra) s e /\
    (forall leases, lease ∈ leases -> refused (pg_renew_many leases lf) s e).
Proof.
  intros Hs Hsup lf ra p.
  assert (Hrel : forall q i em, refused (pg_release lease ra q i em) s e).
  { intros q i em. apply refused_wp. unfold pg_release, release_row. destruct q; wp_steps; eauto.
    all: eapply wp_mono; [by apply superseded_assert|]; intros r s' e' ->; eauto. }
  split_and!; [| |apply Hrel..|].
  - apply transaction_refused, wp_bind. eapply wp_mono; [by apply superseded_assert|].
    intros r s' e' ->. eauto.
  - apply refused_wp. unfold pg_renew. wp_steps; [eauto|].
    eapply wp_mono; [by apply superseded_renew_row|]. intros r s' e' [[->|[x ->]] ->]; wp_steps; eauto.
  - intros [|l rest] Hin; [by apply elem_of_nil in Hin|]. apply refused_wp. unfold pg_renew_many.
    wp_steps; [eauto|]. eapply wp_mono; [by apply (superseded_rows lease)|]. intros r s' e' [x ->]. eauto.
Qed.
End fence.

(** ** Granting and committing *)

Section grants.
Context `{Env} `{UuidText}.

(** A lease of the session with the next epoch, which the row now has. *)
Definition granted (t ss : string) (lease : option MailboxLease) (s s' : PgStore) : Prop :=
  match lease with
  | Some lease => pg_key lease = (t, ss) /\
      exists mb mb', pg_mailboxes s !! (t, ss) = Some mb /\ pg_mailboxes s' !! (t, ss) = Some mb' /\
        ml_epoch lease = mb_lease_epoch mb + 1 /\ mb_lease_epoch mb' = ml_epoch lease
  | None => True
  end.

Lemma claim_locked_granted t ss o lf s e :
  wp (_claim_locked t ss o lf) (fun r s' _ =>
    match r with Ok lease => granted t ss lease s s' | Raise _ => True end) s e.
Proof.
  unfold _claim_locked. wp_steps; try done.
  all: split; [done|]; eexists _, _; split_and!; [done|simpl; apply lookup_insert_eq|done|done].
Qed.

Lemma pg_claim_granted t ss o lf s e :
  wp (pg_claim t ss o lf) (fun r s' _ =>
    match r with Ok lease => granted t ss lease s s' | Raise _ => True end) s e.
Proof.
  unfold pg_claim. wp_steps; [done|]. eapply wp_mono; [apply claim_locked_granted|]. by intros [] ? ?.
Qed.

Lemma claim_session_granted t ss o lf g ep a s e :
  wp (pg_claim_session t ss o lf g ep a) (fun r s' _ =>
    match r with Ok claim => granted t ss (sc_lease claim) s s' | Raise _ => True end) s e.
Proof.
  unfold pg_claim_session. wp_steps; try done.
  all: eapply wp_mono; [apply claim_locked_granted|]; intros [l|] s1 e1 Hg; wp_steps; try done.
Qed.

(** A lease that [claim] or [claim_session] handed out. *)
Inductive pg_grants (t ss : string) (lease : MailboxLease) (s : PgStore) (e : effects)
    (s' : PgStore) (e' : effects) : Prop :=
  | grants_claim o lf : pg_claim t ss o lf s e = (Ok (Some lease), s', e') -> pg_grants t ss lease s e s' e'
  | grants_session o lf g ep a claim :
      pg_claim_session t ss o lf g ep a s e = (Ok claim, s', e') -> sc_lease claim = Some lease ->
      pg_grants t ss lease s e s' e'.

Lemma pg_grants_granted t ss lease s e s' e' :
  pg_inv s -> pg_grants t ss lease s e s' e' -> pg_inv s' /\ granted t ss (Some lease) s s'.
Proof.
  intros Hs [o lf Hrun|o lf g ep a claim Hrun Hl].
  - split; [exact (qu_inv _ _ (wp_run _ _ _ _ _ _ _ (claim_keeps t ss o lf s e Hs) Hrun))|].
    exact (wp_run _ _ _ _ _ _ _ (pg_claim_granted t ss o lf s e) Hrun).
  - split; [exact (qu_inv _ _ (wp_run _ _ _ _ _ _ _ (claim_session_keeps t ss o lf g ep a s e Hs) Hrun))|].
    rewrite <-Hl. exact (wp_run _ _ _ _ _ _ _ (claim_session_granted t ss o lf g ep a s e) Hrun).
Qed.

(** The row of a mailbox nobody runs satisfies the constraints of its table. *)
Lemma cleared_check mb mb' :
  row_check mb = true -> cleared mb mb' -> mb_retry_count mb' = mb_retry_count mb ->
  mb_attempt mb' = mb_attempt mb -> mb_priority mb' = mb_priority mb -> row_check mb' = true.
Proof.
  unfold row_check. intros Hc [_ Hs Ha Hr Hg He (Hp & Hi & Ho & Hx) Hrun _] -> -> ->.
  rewrite Hs, Hp, Hi, Ho, Hx, (bool_decide_eq_false_2 _ Hrun). simpl. bool_prop.
  repeat (apply andb_true_iff; split); try done; apply Z.leb_le; lia.
Qed.

(** The wake-up of a checked item satisfies the constraints of its table. *)
Lemma ready_trace_check mb it :
  item_check it = true ->
  0 <= mi_priority it /\ 1 <= char_len (ready_trace mb (mi_trace_id it) (mi_inbound_id it)) <= 512.
Proof.
  unfold item_check, ready_trace. intros Hc. bool_prop. split; [done|].
  assert (str_empty (mi_trace_id it) = false) as ->; [|done].
  destruct (mi_trace_id it); [simpl in *; lia|done].
Qed.

(** An owned commit returns, whatever the next message is. *)
Lemma commit_owned lease s e mb :
  pg_inv s -> pg_mailboxes s !! pg_key lease = Some mb -> _owns (Some mb) lease (clock_at (ticks e)) = true ->
  wp (pg_commit lease) (fun r s' _ => exists mb', r = Ok mb' /\
    pg_mailboxes s' = <[pg_key lease := mb']> (pg_mailboxes s) /\
    mb_resolved_sequence mb' = ml_sequence lease /\
    mb_resolved_sequence mb' = mb_resolved_sequence mb + 1 /\
    mb_lease_owner mb' = None /\ mb_lease_expires_at mb' = None /\
    mb_lease_epoch mb' = mb_lease_epoch mb /\ mb_accepted_sequence mb' = mb_accepted_sequence mb) s e.
Proof.
  intros Hs Hk Hown. pose proof (pi_mailbox s Hs _ _ Hk) as Hok.
  destruct (pi_checked s Hs _ _ Hk) as [Hrc Hic].
  destruct (owned_resolved _ _ _ _ _ Hok Hown) as (Hseq & Hle & it & Hit & Hid).
  pose proof (mo_bounds _ _ _ Hok). pose proof (mo_generation _ _ _ Hok).
  pose proof (item_none _ _ _ (ml_sequence lease + 1) Hok ltac:(lia) ltac:(lia)) as Hend.
  apply wp_transaction, wp_bind. eapply wp_mono; [by apply assert_owned_run|].
  intros r s1 e1 [-> ->]. rewrite Hk, Hown. wp_steps.
  all: rewrite ?items_of_resolved in *.
  all: try (eexists; split_and!; [done|done|done|done|done|done|done|done]).
  all: exfalso.
  all: match goal with Hn : next_status _ _ = _ |- _ =>
         destruct (next_status_spec _ _ _ _ _ Hn) as (Hnr & Hidle & Hinc & Hinc0) end.
  - bool_prop. match goal with Hx : _ < 1 \/ _ |- _ => rename Hx into Hbad end.
    simpl in Hbad. rewrite (Hinc ltac:(done)) in Hbad.
    assert (1 <= char_len (mb_session_id mb) <= 256) by (unfold row_check in Hrc; bool_prop; lia).
    match type of Hbad with context [ready_trace ?row _ _] =>
      destruct (ready_trace_check row m0) as [? ?]; [by eapply Hic|lia] end.
  - match goal with Hx : row_check ?row = false |- _ => apply not_true_iff_false in Hx; apply Hx;
      apply (cleared_check mb) end; [done| |done..].
    split; simpl; [done|done|done|lia|lia|done|done|done|rewrite Hidle, Hend; lia].
Qed.

(** Claiming a session whose head waits for its retry time raises: the statement
    that would mark the mailbox as waiting cannot be prepared. *)
Lemma claim_waiting_raises t ss o lf s e mb it :
  pg_inv s -> 0 < lf -> pg_mailboxes s !! (t, ss) = Some mb -> mb_status mb <> RUNNING ->
  pg_items_of (t, ss) s !! (mb_resolved_sequence mb + 1) = Some it ->
  after (mi_retry_at it) (clock_at (ticks e)) = true ->
  after (mi_retry_at it) (clock_at (S (ticks e))) = true ->
  wp (pg_claim t ss o lf) (fun r s' _ => s' = s /\
    r = Raise (IndeterminateDatatypeError "could not determine data type of parameter $3")) s e.
Proof.
  intros Hs Hlf Hk Hrun Hit Hw1 Hw2. pose proof (pi_mailbox s Hs _ _ Hk) as Hok.
  destruct (lease_ok_idle _ _ Hrun (mo_lease _ _ _ Hok)) as (Hp & _ & _ & Hx).
  assert (1 <= mb_resolved_sequence mb + 1 <= mb_accepted_sequence mb) by (apply (mo_dom _ _ _ Hok); eauto).
  unfold pg_claim, _claim_locked. wp_steps; bool_prop; simplify_eq; try lia; try congruence.
  all: rewrite Hp in *; simpl in *; simplify_eq; try congruence; try lia.
  all: split; done.
Qed.
End grants.

(** ** Replaying a lost wake-up *)

Section replay.
Context `{Env} `{UuidText}.

(** Among rows with distinct keys, one with a given key is replayed alone. *)
Lemma replayable_once mb now rc l r :
  NoDup (map ready_key l) -> r ∈ l -> replayable mb now rc r = true ->
  length (List.filter (replayable mb now rc) l) = 1%nat.
Proof.
  assert (Hkey : forall x, replayable mb now rc x = true ->
    ready_key x = ((mb_tenant_id mb, mb_session_id mb), mb_queue_generation mb)).
  { unfold replayable, same_ready, ready_key. intros x Hx. bool_prop. congruence. }
  induction l as [|x l IH]; intros Hnd Hin Hr; [by apply elem_of_nil in Hin|].
  apply NoDup_cons in Hnd as [Hni Hnd]. cbn [List.filter].
  destruct (replayable mb now rc x) eqn:Hx.
  - cbn [length]. f_equal. destruct (List.filter _ l) as [|y rest] eqn:Hf; [done|]. exfalso. apply Hni.
    assert (In y (List.filter (replayable mb now rc) l)) as [Hy Hry]%filter_In by (rewrite Hf; by left).
    rewrite (Hkey x Hx), <-(Hkey y Hry). apply list_elem_of_fmap. exists y. split; [done|].
    by apply list_elem_of_In.
  - apply elem_of_cons in Hin as [->|Hin]; [congruence|]. by apply IH.
Qed.

Lemma requeue_replays mb item rc r s e :
  NoDup (ready_keys s) -> r ∈ pg_ready s -> replayable mb (clock_at (ticks e)) rc r = true ->
  wp (_requeue_ready_outbox mb item rc) (fun o s' _ => o = Ok tt /\
    ready_keys s' = ready_keys s /\ replay_row (clock_at (ticks e)) r ∈ pg_ready s') s e.
Proof.
  intros Hnd Hr Hrep. unfold _requeue_ready_outbox, clock_timestamp. do 5 wp_step.
  cbn [pg_ready]. rewrite (replayable_once _ _ _ _ r) by done. apply wp_ret. split_and!; [done| |].
  - apply replay_keys.
  - simpl. apply list_elem_of_fmap. exists r. by rewrite Hrep.
Qed.

Lemma requeued_replayable mb st ra t now rc r :
  replayable (requeued_row mb st ra 0 t) now rc r = replayable mb now rc r.
Proof. unfold replayable. simpl. by rewrite Z.add_0_r. Qed.

Lemma reconcile_replayed rc t ss s e mb it r :
  pg_inv s -> pg_mailboxes s !! (t, ss) = Some mb -> mb_status mb = QUEUED ->
  pg_items_of (t, ss) s !! (mb_resolved_sequence mb + 1) = Some it ->
  after (mi_retry_at it) (clock_at (ticks e)) = false ->
  executing (pg_sessions s !! (t, ss)) (clock_at (ticks e)) = false ->
  mb_updated_at mb <= clock_at (ticks e) - RECONCILE_READY_GRACE ->
  r ∈ pg_ready s -> replayable mb (clock_at (2 + ticks e)) rc r = true ->
  wp (pg_reconcile rc t ss) (fun o s' _ => exists mb', o = Ok (Some mb') /\
    mb_status mb' = QUEUED /\ mb_queue_generation mb' = mb_queue_generation mb /\
    ready_keys s' = ready_keys s /\ replay_row (clock_at (2 + ticks e)) r ∈ pg_ready s') s e.
Proof.
  intros Hs Hk Hq Hit Hdue Hex Hup Hr Hrep. pose proof (pi_mailbox s Hs _ _ Hk) as Hok.
  destruct (pi_checked s Hs _ _ Hk) as [Hrc _].
  assert (1 <= mb_resolved_sequence mb + 1 <= mb_accepted_sequence mb)
    by (apply (mo_dom _ _ _ Hok); eauto).
  assert (Hg : 1 <= mb_queue_generation mb).
  { destruct (pi_generation s Hs _ _ (pi_wake s Hs _ _ Hk Hq)) as (mb0 & ? & ?). simplify_eq. lia. }
  apply wp_transaction. unfold fetch_row. apply wp_bind, wp_gets. rewrite Hk.
  apply wp_bind, wp_gets. unfold clock_timestamp. wp_step. wp_step. rewrite Hex.
  rewrite (head_sequence_pg _ _ _ Hok). unfold fetch_item. wp_step. wp_step.
  unfold head_item. rewrite Hit, (proj2 (Z.ltb_ge _ _)) by lia. unfold next_status. rewrite Hdue.
  cbv beta iota. rewrite !bool_decide_eq_true_2 by done. cbn [andb].
  rewrite (proj2 (Z.ltb_ge _ _)), (proj2 (Z.leb_le 1 _)) by lia. cbn [Z.eqb].
  wp_step. wp_step. wp_step. apply wp_put_row; intros Hc.
  - apply wp_bind. eapply wp_mono; [apply (requeue_replays _ _ _ r); [apply Hs|done|by rewrite requeued_replayable]|].
    intros o s' e' (-> & Hkeys & Hin). apply wp_ret. eexists. split_and!; [done|done|simpl; lia|done|done].
  - exfalso. apply not_true_iff_false in Hc. apply Hc, (cleared_check mb); [done| |done..].
    eapply requeued_cleared; [done|done|lia|]. by rewrite <-(mo_idle _ _ _ Hok), Hq.
Qed.
End replay.

(** ** The claims *)

Section claims.
Context `{Env} `{UuidText}.

(** Refinement: along every run of the PostgreSQL store from empty tables,
    interleaved with the writes of the rest of the service, the messages whose
    commit returned are, in order, exactly the first [resolved_sequence] entries
    of the session's acceptance log, and the log has no duplicates: the store
    resolves every message in order and at most once. *)
Theorem pg_in_order_exactly_once key e0 tr s e :
  pg_run key (pg_empty, e0) tr (s, e) ->
  tr = take (Z.to_nat (pg_view key s).2) (pg_view key s).1 /\ NoDup (pg_view key s).1 /\ NoDup tr.
Proof.
  intros Hrun. assert (Hv : pg_view key pg_empty = ([], 0)) by (unfold pg_view; simpl; by rewrite lookup_empty).
  destruct (pg_run_take _ _ _ _ Hrun pg_inv_empty) as [Hs Htake]; [cbn [fst]; by rewrite Hv|].
  cbn [fst] in Hs, Htake. rewrite Hv in Htake. simpl in Htake.
  pose proof (pg_view_NoDup key s Hs) as Hnd. subst tr. split_and!; [done|done|].
  by eapply sublist_NoDup; [|apply sublist_take].
Qed.

(** In every reachable database the tables are well formed: items are
    numbered without gaps and message ids are distinct, every row satisfies the
    constraints of its table, a mailbox is idle exactly when nothing is pending, a
    running one holds a complete lease on the head message, a queued one has a
    wake-up of its current generation, and no generation has two. *)
Theorem pg_reachable_wf s e : pg_reachable s e -> pg_inv s.
Proof. apply pg_reachable_inv. Qed.

(** Fencing in the database: once a later lease of the session has been
    granted by [claim] or [claim_session], every method refuses the earlier one,
    alone or in a batch, whatever happened in between, and changes nothing. *)
Theorem pg_superseded_fenced t ss l1 l2 s0 e0 s1 e1 s2 e2 s3 e3 s e :
  pg_reachable s0 e0 -> pg_grants t ss l1 s0 e0 s1 e1 -> rtc pg_step (s1, e1) (s2, e2) ->
  pg_grants t ss l2 s2 e2 s3 e3 -> rtc pg_step (s3, e3) (s, e) ->
  forall lf ra p,
    refused (pg_commit l1) s e /\ refused (pg_renew l1 lf) s e /\
    refused (pg_reschedule l1 ra p) s e /\ refused (pg_retry l1 ra p) s e /\
    refused (pg_retry_without_wakeup l1 ra) s e /\
    (forall leases, l1 ∈ leases -> refused (pg_renew_many leases lf) s e).
Proof.
  intros Hr Hg1 H12 Hg2 H3. apply pg_reachable_inv in Hr as Hs0.
  destruct (pg_grants_granted _ _ _ _ _ _ _ Hs0 Hg1) as (Hs1 & Hk1 & mb0 & mb1 & _ & Hm1 & _ & He1).
  destruct (pg_steps _ _ H12 Hs1) as [Hs2 Hle12].
  destruct (pg_grants_granted _ _ _ _ _ _ _ Hs2 Hg2) as (Hs3 & Hk2 & mb2 & mb3 & Hm2 & Hm3 & He2 & He3).
  destruct (pg_steps _ _ H3 Hs3) as [Hs Hle3]. simpl in *.
  destruct (Hle12 _ _ Hm1) as (mb & Hm & [_ _ _ Hle]).
  assert (mb2 = mb) as -> by congruence.
  apply superseded_refused; [done|]. apply (superseded_le _ s3); [|done].
  exists mb3. rewrite Hk1. split; [done|lia].
Qed.

(** A commit returns exactly when the caller owns the lease at the clock
    reading of its fence: it resolves the leased message and no other, drops the
    lease, leaves a wake-up when the next message may run, and the same lease
    cannot commit twice.  Otherwise it raises and changes nothing: no constraint
    of a table can refuse an owned commit. *)
Theorem pg_commit_outcome lease s e :
  pg_reachable s e ->
  match pg_mailboxes s !! pg_key lease with
  | Some mb =>
    if _owns (Some mb) lease (clock_at (ticks e)) then
      exists mb' s' e', pg_commit lease s e = (Ok mb', s', e') /\
        pg_mailboxes s' = <[pg_key lease := mb']> (pg_mailboxes s) /\
        mb_resolved_sequence mb' = mb_resolved_sequence mb + 1 /\
        mb_resolved_sequence mb' = ml_sequence lease /\
        mb_lease_owner mb' = None /\ mb_lease_expires_at mb' = None /\
        mb_lease_epoch mb' = mb_lease_epoch mb /\
        (mb_status mb' = QUEUED -> (pg_key lease, mb_queue_generation mb') ∈ ready_keys s') /\
        (forall e2, refused (pg_commit lease) s' e2)
    else refused (pg_commit lease) s e
  | None => refused (pg_commit lease) s e
  end.
Proof.
  intros Hr. apply pg_reachable_inv in Hr as Hs.
  assert (Hno : forall s e, pg_inv s ->
    match pg_mailboxes s !! pg_key lease with
    | Some mb => _owns (Some mb) lease (clock_at (ticks e)) = false | None => True end ->
    refused (pg_commit lease) s e).
  { intros s1 e1 Hs1 Hn. apply transaction_refused, wp_bind.
    eapply wp_mono; [by apply assert_owned_run|]. intros r s2 e2 [-> ->].
    destruct (pg_mailboxes s1 !! _) as [mb|]; [rewrite Hn|]; eauto. }
  destruct (pg_mailboxes s !! pg_key lease) as [mb|] eqn:Hk; [|apply Hno; [done|by rewrite Hk]].
  destruct (_owns _ _ _) eqn:Hown; [|apply Hno; [done|by rewrite Hk]].
  destruct (pg_commit lease s e) as [[r s'] e'] eqn:Hrun.
  destruct (wp_run _ _ _ _ _ _ _ (commit_owned lease s e mb Hs Hk Hown) Hrun)
    as (mb' & -> & Hm & ? & ? & Ho & ? & ? & ?).
  pose proof (ad_inv _ _ _ _ (wp_run _ _ _ _ _ _ _ (commit_moves lease s e Hs) Hrun)) as Hs'.
  assert (Hk' : pg_mailboxes s' !! pg_key lease = Some mb') by (rewrite Hm; apply lookup_insert_eq).
  exists mb', s', e'. split_and!; try done; [by apply (pi_wake s' Hs')|].
  intros e2. apply Hno; [done|]. rewrite Hk'. apply not_true_iff_false. rewrite owns_spec, Ho.
  by intros (_ & _ & _ & ? & _).
Qed.

(** C2: A wake-up that Redis lost is published again: in well-formed tables, reconciling a
    mailbox that has been queued for longer than the grace period, whose head message may
    run, its retry time having passed, and whose session nobody executes, makes the
    wake-up row of its generation available again, if that row was published and last
    replayed longer ago than the cooldown and no publisher holds it; the generation stays
    and no row is added. *)
Theorem pg_reconcile_replays rc t ss s e mb it r :
  pg_inv s -> pg_mailboxes s !! (t, ss) = Some mb -> mb_status mb = QUEUED ->
  pg_items_of (t, ss) s !! (mb_resolved_sequence mb + 1) = Some it ->
  after (mi_retry_at it) (clock_at (ticks e)) = false ->
  executing (pg_sessions s !! (t, ss)) (clock_at (ticks e)) = false ->
  mb_updated_at mb <= clock_at (ticks e) - RECONCILE_READY_GRACE ->
  r ∈ pg_ready s -> replayable mb (clock_at (2 + ticks e)) rc r = true ->
  exists mb' s' e' r', pg_reconcile rc t ss s e = (Ok (Some mb'), s', e') /\
    mb_status mb' = QUEUED /\ mb_queue_generation mb' = mb_queue_generation mb /\
    ready_keys s' = ready_keys s /\ r' ∈ pg_ready s' /\
    ready_key r' = ((t, ss), mb_queue_generation mb) /\ rr_published_at r' = None /\
    rr_claimed_by r' = None /\ rr_available_at r' = clock_at (2 + ticks e).
Proof.
  intros Hs Hk Hq Hit Hdue Hex Hup Hin Hrep.
  pose proof (pi_mailbox s Hs _ _ Hk) as Hok.
  destruct (pg_reconcile rc t ss s e) as [[o s'] e'] eqn:Hrun.
  destruct (wp_run _ _ _ _ _ _ _ (reconcile_replayed rc t ss s e mb it r Hs Hk Hq Hit Hdue Hex Hup Hin Hrep) Hrun)
    as (mb' & -> & ? & ? & ? & Hrow).
  exists mb', s', e', (replay_row (clock_at (2 + ticks e)) r). split_and!; try done.
  unfold replayable, same_ready in Hrep. bool_prop.
  pose proof (mo_tenant _ _ _ Hok). pose proof (mo_session _ _ _ Hok). simpl in *.
  unfold ready_key. simpl. congruence.
Qed.
End claims.

(** ** Concrete runs: two messages of one session *)

Section demo.
#[local] Existing Instance demo_env.
#[local] Instance demo_uuid : UuidText := fun _ => None.

Definition m1 : string := "00000000-0000-4000-8000-000000000001".
Definition m2 : string := "00000000-0000-4000-8000-000000000002".

Definition pg_run_calls (cs : list pg_call) (c : PgStore * effects) : PgStore * effects :=
  fold_left (fun c cl => let '(_, s, e) := pg_exec cl c.1 c.2 in (s, e)) cs c.

Fixpoint pg_trace (key : session_key) (cs : list pg_call) (c : PgStore * effects) : list string :=
  match cs with
  | [] => []
  | cl :: cs => let '(r, s, e) := pg_exec cl c.1 c.2 in pg_resolved cl r key ++ pg_trace key cs (s, e)
  end.

Lemma pg_calls_steps cs c : rtc pg_step c (pg_run_calls cs c).
Proof.
  revert c. induction cs as [|cl cs IH]; intros [s e]; simpl; [done|].
  destruct (pg_exec cl s e) as [[r s'] e'] eqn:Hrun. eapply rtc_l; [by econstructor|apply IH].
Qed.

Lemma pg_calls_run key cs c : pg_run key c (pg_trace key cs c) (pg_run_calls cs c).
Proof.
  revert c. induction cs as [|cl cs IH]; intros [s e]; simpl; [constructor|].
  destruct (pg_exec cl s e) as [[r s'] e'] eqn:Hrun. econstructor; [done|apply IH].
Qed.

(** A tenant and two stored inbound messages. *)
Definition base : PgStore :=
  pg_empty <| pg_tenants := {["acme"%string]} |>
           <| pg_inbound := {[("acme", m1); ("acme", m2)]}%string |>.

Definition accepts : list pg_call :=
  [PAccept "acme" "s1" m1 0 None None; PAccept "acme" "s1" m2 0 None None].
Definition grant (owner : string) : pg_call := PClaim "acme" "s1" owner 3000000.
Definition lease_of (owner : string) (epoch expires attempt : Z) : MailboxLease :=
  MkMailboxLease "acme" "s1" m1 1 owner epoch expires attempt 0 0.

Abbreviation pg_demo cs := (pg_run_calls cs (base, fx0)).
Abbreviation pg_queued := (pg_demo accepts).
Abbreviation pg_claimed := (pg_demo (accepts ++ [grant "w1"])).

Lemma pg_demo_steps cs : rtc pg_step (pg_empty, fx0) ((pg_demo cs).1, (pg_demo cs).2).
Proof.
  eapply rtc_l; [apply (pg_step_outside _ base); by split|]. rewrite <-surjective_pairing.
  apply pg_calls_steps.
Qed.

Lemma pg_demo_reachable cs : pg_reachable (pg_demo cs).1 (pg_demo cs).2.
Proof. exists fx0. apply pg_demo_steps. Qed.

(** Nothing to recover: only time passes. *)
Definition wait (n : nat) : list pg_call := replicate n (PRecover "acme" "none").

Abbreviation pg_expired := (pg_demo ((accepts ++ [grant "w1"]) ++ wait 4)).

Lemma pg_demo_app cs ds :
  rtc pg_step ((pg_demo cs).1, (pg_demo cs).2) ((pg_demo (cs ++ ds)).1, (pg_demo (cs ++ ds)).2).
Proof.
  rewrite <-!surjective_pairing. unfold pg_run_calls at 2. rewrite fold_left_app. apply pg_calls_steps.
Qed.

(** The wake-ups have been published and lost. *)
Definition published (s : PgStore) : PgStore :=
  s <| pg_ready := map (fun r => r <| rr_published_at := Some 5000000 |>) (pg_ready s) |>.

Abbreviation pg_lost := (pg_demo (accepts ++ wait 6)).

Lemma published_outside s : outside s (published s).
Proof.
  split; [done|done|]. unfold ready_keys, published. simpl. rewrite map_map. by apply map_ext.
Qed.

Lemma published_reachable : pg_reachable (published pg_lost.1) pg_lost.2.
Proof.
  exists fx0. eapply rtc_r; [apply (pg_demo_steps (accepts ++ wait 6))|].
  apply pg_step_outside, published_outside.
Qed.

Lemma pg_in_order_exactly_once_witness :
  NoDup [m1].
Proof.
  set (cs := accepts ++ [grant "w1"; PCommit (lease_of "w1" 1 12000000 1)]).
  destruct (pg_in_order_exactly_once ("acme", "s1")%string fx0
    (pg_trace ("acme", "s1")%string cs (base, fx0)) (pg_demo cs).1 (pg_demo cs).2) as (_ & _ & Hnd).
  - apply (pg_run_outside _ _ base); [by split|]. rewrite <-surjective_pairing. apply pg_calls_run.
  - vm_compute in Hnd. exact Hnd.
Defined.

Lemma pg_reachable_wf_witness : pg_inv pg_claimed.1.
Proof. apply (pg_reachable_wf pg_claimed.1 pg_claimed.2). apply pg_demo_reachable. Defined.

Lemma pg_superseded_fenced_witness : exists s e, refused (pg_commit (lease_of "w1" 1 12000000 1)) s e.
Proof.
  eexists _, _.
  refine (proj1 (pg_superseded_fenced "acme" "s1" (lease_of "w1" 1 12000000 1) (lease_of "w2" 2 19000000 2)
    pg_queued.1 pg_queued.2 pg_claimed.1 pg_claimed.2 pg_expired.1 pg_expired.2 _ _ _ _ _ _ _ _ _ 1 None None)).
  - apply pg_demo_reachable.
  - apply (grants_claim _ _ _ _ _ _ _ "w1"%string 3000000). vm_compute. reflexivity.
  - exact (pg_demo_app (accepts ++ [grant "w1"]) (wait 4)).
  - apply (grants_claim _ _ _ _ _ _ _ "w2"%string 3000000). vm_compute. reflexivity.
  - apply rtc_refl.
Defined.

Lemma pg_commit_outcome_witness : exists mb' s' e',
  pg_commit (lease_of "w1" 1 12000000 1) pg_claimed.1 pg_claimed.2 = (Ok mb', s', e') /\
  mb_resolved_sequence mb' = 1.
Proof.
  pose proof (pg_commit_outcome (lease_of "w1" 1 12000000 1) pg_claimed.1 pg_claimed.2 (pg_demo_reachable _)) as Ho.
  destruct (_ !! _) as [mb|] eqn:Hk; vm_compute in Hk; [|discriminate Hk].
  injection Hk as <-. destruct (_owns _ _ _) eqn:Hown; [|vm_compute in Hown; discriminate Hown].
  destruct Ho as (mb' & s' & e' & Hrun & _ & _ & Hr & _). exists mb', s', e'. split; [exact Hrun|exact Hr].
Defined.

Lemma pg_reconcile_replays_witness : exists mb' s' e',
  pg_reconcile 5000000 "acme" "s1" (published pg_lost.1) pg_lost.2 = (Ok (Some mb'), s', e') /\
  mb_queue_generation mb' = 1.
Proof.
  destruct (pg_mailboxes (published pg_lost.1) !! ("acme", "s1")%string) as [mb|] eqn:Hk;
    [|vm_compute in Hk; discriminate Hk].
  destruct (pg_items_of ("acme", "s1")%string (published pg_lost.1) !! 1) as [it|] eqn:Hit;
    [|vm_compute in Hit; discriminate Hit].
  destruct (pg_ready (published pg_lost.1)) as [|r rest] eqn:Hr; [vm_compute in Hr; discriminate Hr|].
  assert (mb_queue_generation mb = 1 /\ mb_status mb = QUEUED /\ mb_resolved_sequence mb + 1 = 1 /\
    mb_updated_at mb = 7000000) as (Hg & Hq & Hres & Hup)
    by (vm_compute in Hk; injection Hk as <-; split_and!; reflexivity).
  assert (Hrep : replayable mb (clock_at (2 + ticks pg_lost.2)) 5000000 r = true)
    by (vm_compute in Hk; injection Hk as <-; vm_compute in Hr; injection Hr as <- <-; vm_compute; reflexivity).
  destruct (pg_reconcile_replays 5000000 "acme" "s1" (published pg_lost.1) pg_lost.2 mb it r
    (pg_reachable_inv _ _ published_reachable) Hk Hq) as (mb' & s' & e' & _ & Hrun & _ & Hg' & _).
  - rewrite Hres. exact Hit.
  - vm_compute in Hit. injection Hit as <-. reflexivity.
  - vm_compute. reflexivity.
  - rewrite Hup. vm_compute. intros Hc. discriminate Hc.
  - rewrite Hr. left.
  - exact Hrep.
  - exists mb', s', e'. split; [exact Hrun|]. by rewrite Hg'.
Defined.
End demo.
