(* ===== verification/Repository.v ===== *)
(** * The in-memory runtime repository

    [InMemoryRuntimeRepository] of [trpc_service/storage/memory.py]: acceptance
    of inbound messages, the v1 session leases, the v2 session-ready turns over
    the mailbox store, the outbox and the delivery attempts.  Every method is
    one atomic step: the locks are never contended inside one, because nothing
    it awaits suspends.  [OutboundEnvelope.model_dump] is Pydantic's; it is a
    parameter of the commits. *)

From S2P Require Import Prelude Tenant Models Mailbox.
#[local] Open Scope Z_scope.

(** The serialisation Pydantic derives for the outbound envelope. *)
Class EnvelopeDump : Type := model_dump : OutboundEnvelope -> gmap string pyval.

Abbreviation acceptance_key := (string * string * string * string)%type.
Abbreviation id_key := (string * string)%type.

Record Repository : Type := MkRepository {
  rp_routes : odict string BindingRoute;
  rp_configs : gmap (string * string * Z) TenantConfig;
  rp_acceptances : gmap acceptance_key Acceptance;
  rp_acceptances_by_id : odict string Acceptance;
  rp_acceptance_sequence : gmap string Z;
  rp_next_acceptance_sequence : Z;
  rp_sessions : gmap session_key SessionSnapshot;
  rp_leases : gmap session_key SessionLease;
  rp_committed_inbound : gset id_key;
  rp_inbound_status : gmap id_key string;
  rp_v2_turn_status : gmap id_key string;
  rp_outbox : odict string OutboxRecord;
  rp_outbox_claims : gmap string (string * Z);
  rp_dead_letters : list (OutboxRecord * string);
  rp_delivery_receipts : list DeliveryReceipt;
  rp_delivery_attempts : gmap id_key (string * Z * string);
  rp_mailbox_store : MailboxStore;
}.

#[export] Instance Repository_settable : Settable Repository := fun r =>
  MkRepository (rp_routes r) (rp_configs r) (rp_acceptances r) (rp_acceptances_by_id r)
    (rp_acceptance_sequence r) (rp_next_acceptance_sequence r) (rp_sessions r) (rp_leases r)
    (rp_committed_inbound r) (rp_inbound_status r) (rp_v2_turn_status r) (rp_outbox r)
    (rp_outbox_claims r) (rp_dead_letters r) (rp_delivery_receipts r)
    (rp_delivery_attempts r) (rp_mailbox_store r).

(** [__init__]. *)
Definition empty_repository : Repository :=
  MkRepository [] ∅ ∅ [] ∅ 1 ∅ ∅ ∅ ∅ ∅ [] ∅ [] [] ∅ empty_store.

(** A call of the mailbox store the repository owns. *)
Definition mailbox {A} (m : M MailboxStore A) : M Repository A :=
  zoom rp_mailbox_store (fun t s => s <| rp_mailbox_store := t |>) m.

(** [_owns]. *)
Definition _owns (current : option SessionLease) (expected : SessionLease) : bool :=
  match current with
  | None => false
  | Some current =>
      bool_decide (sl_worker_id current = sl_worker_id expected)
      && (sl_fencing_token current =? sl_fencing_token expected)
      && bool_decide (sl_turn_id current = sl_turn_id expected)
  end.

(** ** Routes, configurations, lookups *)

Definition add_route (route : BindingRoute) : M Repository unit :=
  modify (fun s => s <| rp_routes := dset (cb_binding_id (br_binding route)) route (rp_routes s) |>).

Definition add_config (config : TenantConfig) : M Repository unit :=
  modify (fun s => s <| rp_configs :=
    <[(cfg_tenant_id config, cfg_app_id config, cfg_version config) := config]> (rp_configs s) |>).

Definition resolve_binding (binding_id : string) : M Repository (option BindingRoute) :=
  gets (fun s => dget binding_id (rp_routes s)).

Definition list_bindings (channel : Channel) : M Repository (list ChannelBinding) :=
  gets (fun s => map br_binding (List.filter (fun route =>
    bool_decide (cb_channel (br_binding route) = channel)
    && cb_enabled (br_binding route) && br_tenant_active route) (dvalues (rp_routes s)))).

Definition get_config (tenant_id app_id : string) (version : Z) : M Repository TenantConfig :=
  let* config := gets (fun s => rp_configs s !! (tenant_id, app_id, version)) in
  match config with
  | Some config => ret config
  | None => raise (LookupError "pinned tenant configuration does not exist")
  end.

Definition get_acceptance (tenant_id inbound_id : string) : M Repository (option Acceptance) :=
  let* acceptance := gets (fun s => dget inbound_id (rp_acceptances_by_id s)) in
  match acceptance with
  | None => ret None
  | Some acceptance =>
    if negb (bool_decide (tc_tenant_id (acc_context acceptance) = tenant_id)) then ret None
    else
      let* committed := gets (fun s => bool_decide ((tenant_id, inbound_id) ∈ rp_committed_inbound s)) in
      if committed then ret (Some (acceptance <| acc_duplicate := true |>))
      else ret (Some acceptance)
  end.

Definition get_session_snapshot (tenant_id session_id : string)
    : M Repository (option SessionSnapshot) :=
  gets (fun s => rp_sessions s !! (tenant_id, session_id)).

Definition snapshot (tenant_id session_id : string) : M Repository (option SessionSnapshot) :=
  gets (fun s => rp_sessions s !! (tenant_id, session_id)).

(** ** Mailbox wake-ups in the runtime outbox *)

Definition outbox_size : M Repository nat :=
  gets (fun s => length (ms_outbox (rp_mailbox_store s))).

(** Copy the wake-ups appended since [start]; [setdefault] keeps a present one. *)
Definition _sync_new_mailbox_outbox (start : nat) : M Repository unit :=
  modify (fun s => s <| rp_outbox :=
    fold_left (fun d record => dsetdefault (ob_outbox_id record) record d)
      (drop start (ms_outbox (rp_mailbox_store s))) (rp_outbox s) |>).

Definition _mailbox_was_rescheduled (before : option SessionMailbox) (after : SessionMailbox)
    : bool :=
  bool_decide (mb_status after = QUEUED)
  && match before with
     | None => true
     | Some before =>
         negb (bool_decide (mb_status before = mb_status after))
         || negb (mb_queue_generation before =? mb_queue_generation after)
         || negb (mb_updated_at before =? mb_updated_at after)
     end.

Definition _rearm_mailbox_outbox (mailbox : SessionMailbox) : M Repository unit :=
  let* record := gets (fun s => List.find
    (is_ready_record (mb_tenant_id mailbox) (mb_session_id mailbox) (mb_queue_generation mailbox))
    (rev (ms_outbox (rp_mailbox_store s)))) in
  match record with
  | None => ret tt
  | Some record =>
    let* present := gets (fun s => dget (ob_outbox_id record) (rp_outbox s)) in
    match present with
    | Some _ => ret tt
    | None =>
      modify (fun s => s
        <| rp_outbox_claims := delete (ob_outbox_id record) (rp_outbox_claims s) |>
        <| rp_outbox := dset (ob_outbox_id record) record (rp_outbox s) |>)
    end
  end.

(** [_mailbox_lease]: the mailbox lease a session lease stands for. *)
Definition _mailbox_lease {S} (mb : SessionMailbox) (lease : SessionLease) : M S MailboxLease :=
  match mb_processing_sequence mb with
  | None => raise (FencingConflict "session mailbox lease is no longer current")
  | Some sequence =>
    raise_if (negb (bool_decide (mb_status mb = RUNNING)
                    && bool_decide (mb_processing_inbound_id mb = Some (sl_inbound_id lease))
                    && bool_decide (mb_lease_owner mb = Some (sl_worker_id lease))
                    && (mb_lease_epoch mb =? sl_fencing_token lease)))
      (FencingConflict "session mailbox lease is no longer current") ;;
    make_MailboxLease (sl_tenant_id lease) (sl_session_id lease) (sl_inbound_id lease) sequence
      (sl_worker_id lease) (sl_fencing_token lease)
      (default (sl_expires_at lease) (mb_lease_expires_at mb)) (sl_attempt lease)
      (mb_retry_count mb) (mb_priority mb)
  end.

(** ** Committing a turn *)

(** The [SequencedEvent]s of the committed events, numbered from [next];
    [sequence] is [ge=1]. *)
Fixpoint sequence_events {S} (next : Z) (events : list StoredEvent) : M S (list SequencedEvent) :=
  match events with
  | [] => ret []
  | event :: rest =>
    raise_if (next <? 1) (ValidationError "SequencedEvent") ;;
    let* others := sequence_events (next + 1) rest in
    ret (MkSequencedEvent event next :: others)
  end.

Definition outbound_event_type (channel : Channel) : string :=
  ("outbound." +:+ Channel_value channel +:+ ".ready")%string.

Definition commit_snapshot (commit : TurnCommit) (snapshot : SessionSnapshot)
    (sequenced : list SequencedEvent) : SessionSnapshot :=
  snapshot
    <| ss_version := ss_version snapshot + 1 |>
    <| ss_next_sequence := ss_next_sequence snapshot + Z.of_nat (length sequenced) |>
    <| ss_state := tn_state commit |>
    <| ss_events := ss_events snapshot ++ sequenced |>.

Definition commit_result (commit : TurnCommit) (snapshot : SessionSnapshot)
    (sequenced : list SequencedEvent) : CommitResult :=
  MkCommitResult (sl_turn_id (tn_lease commit))
    (match tn_events commit with [] => None | _ => Some (ss_next_sequence snapshot) end)
    (match sequenced with
     | [] => None
     | _ => Some (ss_next_sequence snapshot + Z.of_nat (length sequenced) - 1)
     end)
    (oe_outbound_id <$> tn_outbound commit).

Section repository.
Context `{Env} `{EnvelopeDump}.

(** The outbox record of a turn's reply. *)
Definition outbound_record (commit : TurnCommit) : M Repository (option OutboxRecord) :=
  match tn_outbound commit with
  | None => ret None
  | Some outbound =>
    let* outbox_id := uuid4 in
    ret (Some (MkOutboxRecord outbox_id (sl_tenant_id (tn_lease commit))
      (outbound_event_type (oe_channel outbound)) (oe_outbound_id outbound)
      (model_dump outbound) (oe_trace_headers outbound) 0))
  end.

Definition put_outbox (record : option OutboxRecord) : M Repository unit :=
  match record with
  | None => ret tt
  | Some record => modify (fun s => s <| rp_outbox := dset (ob_outbox_id record) record (rp_outbox s) |>)
  end.

(** ** Mailbox passthroughs *)

Definition accept_mailbox (tenant_id session_id inbound_id : string) (priority : Z)
    (retry_at : option Z) (trace_id : option string) : M Repository SessionMailbox :=
  let* outbox_start := outbox_size in
  let* mb := mailbox (accept tenant_id session_id inbound_id priority retry_at trace_id None) in
  _sync_new_mailbox_outbox outbox_start ;;
  ret mb.

Definition claim_mailbox (tenant_id session_id owner_id : string) (lease_for : Z)
    (expected_generation expected_epoch : option Z) (acceptance : option Acceptance)
    : M Repository SessionClaim :=
  mailbox (claim_session tenant_id session_id owner_id lease_for expected_generation
             expected_epoch acceptance None).

Definition renew_mailbox (lease : MailboxLease) (lease_for : Z) : M Repository MailboxLease :=
  mailbox (Mailbox.renew lease lease_for None).

Definition renew_mailboxes (leases : list MailboxLease) (lease_for : Z)
    : M Repository (list MailboxLease) :=
  mailbox (renew_many leases lease_for None).

Definition commit_mailbox (lease : MailboxLease) : M Repository SessionMailbox :=
  let* outbox_start := outbox_size in
  let* mb := mailbox (Mailbox.commit lease None) in
  _sync_new_mailbox_outbox outbox_start ;;
  ret mb.

Definition reschedule_mailbox (lease : MailboxLease) (retry_at priority : option Z)
    : M Repository SessionMailbox :=
  let* outbox_start := outbox_size in
  let* mb := mailbox (reschedule lease retry_at priority None) in
  _sync_new_mailbox_outbox outbox_start ;;
  ret mb.

Definition retry_mailbox (lease : MailboxLease) (retry_at priority : option Z)
    : M Repository SessionMailbox :=
  let* outbox_start := outbox_size in
  let* mb := mailbox (retry lease retry_at priority None) in
  _sync_new_mailbox_outbox outbox_start ;;
  ret mb.

Definition recover_mailbox (tenant_id session_id : string) : M Repository (option SessionMailbox) :=
  let* outbox_start := outbox_size in
  let* mb := mailbox (recover tenant_id session_id None) in
  _sync_new_mailbox_outbox outbox_start ;;
  ret mb.

Definition reconcile_mailbox (tenant_id session_id : string)
    : M Repository (option SessionMailbox) :=
  let* before := mailbox (get tenant_id session_id) in
  let* outbox_start := outbox_size in
  let* mb := mailbox (reconcile tenant_id session_id None) in
  _sync_new_mailbox_outbox outbox_start ;;
  match mb with
  | Some mb' =>
    (if _mailbox_was_rescheduled before mb' then _rearm_mailbox_outbox mb' else ret tt) ;;
    ret mb
  | None => ret mb
  end.

Definition sweep_expired_leases (owner_id : string) (limit : Z) : M Repository Z :=
  let* outbox_start := outbox_size in
  let* count := mailbox (Mailbox.sweep_expired_leases limit) in
  _sync_new_mailbox_outbox outbox_start ;;
  ret count.

Definition schedule_retries (owner_id : string) (limit : Z) : M Repository Z :=
  let* outbox_start := outbox_size in
  let* count := mailbox (Mailbox.schedule_retries limit) in
  _sync_new_mailbox_outbox outbox_start ;;
  ret count.

(** The loop of [reconcile_sessions] over the mailboxes after the sweep. *)
Fixpoint rearm_rescheduled (before : odict session_key SessionMailbox)
    (mailboxes : odict session_key SessionMailbox) : M Repository unit :=
  match mailboxes with
  | [] => ret tt
  | (key, mb) :: rest =>
    (if _mailbox_was_rescheduled (dget key before) mb then _rearm_mailbox_outbox mb else ret tt) ;;
    rearm_rescheduled before rest
  end.

Definition reconcile_sessions (owner_id : string) (limit : Z) : M Repository Z :=
  let* before := gets (fun s => ms_mailboxes (rp_mailbox_store s)) in
  let* outbox_start := outbox_size in
  let* count := mailbox (Mailbox.reconcile_sessions limit) in
  _sync_new_mailbox_outbox outbox_start ;;
  let* after := gets (fun s => ms_mailboxes (rp_mailbox_store s)) in
  rearm_rescheduled before after ;;
  ret count.

(** ** Session-ready turns (v2) *)

(** The wake-up a caller names must be a record of this session with a proper
    generation, the expected one if any.  [None]: the hint is stale. *)
Definition ready_generation (tenant_id session_id : string) (expected_generation : option Z)
    (ready_event : option OutboxRecord) : option Z :=
  match ready_event with
  | None => None
  | Some r =>
    match py_get "generation" (ob_payload r) with
    | PInt event_generation =>
      if negb (bool_decide (ob_tenant_id r = tenant_id))
         || negb (bool_decide (ob_event_type r = SESSION_READY_V2))
         || negb (bool_decide (ob_aggregate_id r = session_id))
         || (event_generation <? 1)
         || match expected_generation with
            | Some g => negb (event_generation =? g)
            | None => false
            end
      then None else Some event_generation
    | _ => None
    end
  end.

(** The end of [claim_session_ready]: turn a granted mailbox claim into an
    executable turn. *)
Definition execute_claim (tenant_id session_id owner_id : string) (claim : SessionClaim)
    (lease : MailboxLease) (accepted : Acceptance) : M Repository SessionClaim :=
  let key := (tenant_id, session_id) in
  let* existing := gets (fun s => rp_sessions s !! key) in
  let* snapshot :=
    match existing with
    | Some snapshot => ret snapshot
    | None =>
      let snapshot := new_snapshot tenant_id (tc_app_id (acc_context accepted)) session_id
                        (tc_principal_id (acc_context accepted)) in
      modify (fun s => s <| rp_sessions := <[key := snapshot]> (rp_sessions s) |>) ;;
      ret snapshot
    end in
  let* previous := gets (fun s => rp_leases s !! key) in
  let* turn_id :=
    match previous with
    | Some previous =>
      if bool_decide (sl_inbound_id previous = ml_inbound_id lease)
      then ret (sl_turn_id previous) else uuid4
    | None => uuid4
    end in
  let* execution := make_SessionLease tenant_id session_id turn_id (ml_inbound_id lease) owner_id
                      (ml_epoch lease) (ml_expires_at lease) (ml_attempt lease) snapshot in
  modify (fun s => s
    <| rp_leases := <[key := execution]> (rp_leases s) |>
    <| rp_v2_turn_status := <[(tenant_id, turn_id) := "processing"%string]> (rp_v2_turn_status s) |>
    <| rp_inbound_status :=
         <[(tenant_id, ml_inbound_id lease) := "processing"%string]> (rp_inbound_status s) |>) ;;
  ret (claim <| sc_acceptance := Some accepted |> <| sc_execution_lease := Some execution |>).

(** The claim of a mailbox whose session may run: what follows the v1 lease
    check. *)
Definition claim_executable (tenant_id session_id owner_id : string) (lease_for : Z)
    (expected_generation : option Z) (acceptance : option Acceptance)
    : M Repository SessionClaim :=
  let key := (tenant_id, session_id) in
  let* claim := claim_mailbox tenant_id session_id owner_id lease_for expected_generation None
                  acceptance in
  match sc_lease claim with
  | None => ret claim
  | Some lease =>
    if negb (claimed claim) then ret claim
    else
      let* accepted := gets (fun s => dget (ml_inbound_id lease) (rp_acceptances_by_id s)) in
      match accepted with
      | None => ret (claim <| sc_status := EMPTY |> <| sc_lease := None |>)
      | Some accepted =>
        let* committed := gets (fun s =>
          bool_decide ((tenant_id, ml_inbound_id lease) ∈ rp_committed_inbound s)
          || bool_decide (rp_inbound_status s !! (tenant_id, ml_inbound_id lease)
                          = Some "committed"%string)) in
        if committed then
          let* mb := mailbox (Mailbox.commit lease None) in
          modify (fun s => s <| rp_leases := delete key (rp_leases s) |>) ;;
          ret (MkSessionClaim EMPTY mb None (Some (accepted <| acc_duplicate := true |>)) None)
        else execute_claim tenant_id session_id owner_id claim lease accepted
      end
  end.

Definition claim_session_ready (tenant_id session_id owner_id : string) (lease_for : Z)
    (expected_generation : option Z) (expected_event_id : option string)
    (acceptance : option Acceptance) : M Repository SessionClaim :=
  let key := (tenant_id, session_id) in
  let* mailbox_before := mailbox (get tenant_id session_id) in
  let* mailbox_before :=
    match mailbox_before with
    | Some mb => ret mb
    | None => let* t := datetime_now in ret (new_mailbox tenant_id session_id t)
    end in
  let stale := MkSessionClaim STALE mailbox_before None acceptance None in
  let enter expected_generation :=
    let* current := gets (fun s => rp_leases s !! key) in
    let* running :=
      match current with
      | Some current => let* now := datetime_now in ret (now <? sl_expires_at current)
      | None => ret false
      end in
    if running then ret (MkSessionClaim CLAIM_RUNNING mailbox_before None acceptance None)
    else claim_executable tenant_id session_id owner_id lease_for expected_generation acceptance in
  match expected_event_id with
  | Some expected_event_id =>
    let* ready_event := gets (fun s => List.find
      (fun record => bool_decide (ob_outbox_id record = expected_event_id))
      (ms_outbox (rp_mailbox_store s))) in
    match ready_generation tenant_id session_id expected_generation ready_event with
    | None => ret stale
    | Some event_generation => enter (Some event_generation)
    end
  | None => enter expected_generation
  end.

Definition renew_session_ready (lease : SessionLease) (lease_for : Z)
    : M Repository SessionLease :=
  let key := (sl_tenant_id lease, sl_session_id lease) in
  let* current := gets (fun s => rp_leases s !! key) in
  match current with
  | None => raise (FencingConflict "session mailbox lease is no longer current")
  | Some current =>
    raise_if (negb (_owns (Some current) lease))
      (FencingConflict "session mailbox lease is no longer current") ;;
    let* mb := mailbox (get (sl_tenant_id lease) (sl_session_id lease)) in
    match mb with
    | None => raise (FencingConflict "session mailbox lease is no longer current")
    | Some mb =>
      match mb_processing_sequence mb with
      | None => raise (FencingConflict "session mailbox lease is no longer current")
      | Some sequence =>
        let* mailbox_lease := make_MailboxLease (sl_tenant_id lease) (sl_session_id lease)
          (sl_inbound_id lease) sequence (sl_worker_id lease) (sl_fencing_token lease)
          (default (sl_expires_at lease) (mb_lease_expires_at mb)) (sl_attempt lease)
          (mb_retry_count mb) (mb_priority mb) in
        let* renewed := mailbox (Mailbox.renew mailbox_lease lease_for None) in
        let updated := current <| sl_expires_at := ml_expires_at renewed |> in
        modify (fun s => s <| rp_leases := <[key := updated]> (rp_leases s) |>) ;;
        ret updated
      end
    end
  end.

Definition commit_session_ready (commit : TurnCommit) : M Repository CommitResult :=
  let lease := tn_lease commit in
  let key := (sl_tenant_id lease, sl_session_id lease) in
  let* current := gets (fun s => rp_leases s !! key) in
  raise_if (negb (_owns current lease))
    (FencingConflict "stale worker cannot commit this session") ;;
  let* mb := mailbox (get (sl_tenant_id lease) (sl_session_id lease)) in
  match mb with
  | None => raise (FencingConflict "stale worker cannot commit this session")
  | Some mb =>
    raise_if (negb (bool_decide (mb_processing_inbound_id mb = Some (sl_inbound_id lease))))
      (FencingConflict "stale worker cannot commit this session") ;;
    let* mailbox_lease := _mailbox_lease mb lease in
    let* snapshot := gets (fun s => rp_sessions s !! key) in
    match snapshot with
    | None => raise KeyError
    | Some snapshot =>
      let* sequenced := sequence_events (ss_next_sequence snapshot) (tn_events commit) in
      let* outbound := outbound_record commit in
      let* mailbox_outbox_size := outbox_size in
      try_except (mailbox (Mailbox.commit mailbox_lease None) ;; ret tt) (fun x =>
        modify (fun s => s <| rp_mailbox_store := (rp_mailbox_store s)
          <| ms_mailboxes := dset key mb (ms_mailboxes (rp_mailbox_store s)) |>
          <| ms_outbox := take mailbox_outbox_size (ms_outbox (rp_mailbox_store s)) |> |>) ;;
        raise x) ;;
      _sync_new_mailbox_outbox mailbox_outbox_size ;;
      put_outbox outbound ;;
      modify (fun s => s
        <| rp_sessions := <[key := commit_snapshot commit snapshot sequenced]> (rp_sessions s) |>
        <| rp_committed_inbound :=
             {[(sl_tenant_id lease, sl_inbound_id lease)]} ∪ rp_committed_inbound s |>
        <| rp_inbound_status := <[(sl_tenant_id lease, sl_inbound_id lease) :=
             "committed"%string]> (rp_inbound_status s) |>
        <| rp_v2_turn_status := <[(sl_tenant_id lease, sl_turn_id lease) :=
             "committed"%string]> (rp_v2_turn_status s) |>
        <| rp_leases := delete key (rp_leases s) |>) ;;
      ret (commit_result commit snapshot sequenced)
    end
  end.

Definition retry_session_ready (lease : SessionLease) (error_type : string) (delay : Z)
    : M Repository unit :=
  raise_if (delay <? 0) (ValueError "retry delay must be non-negative") ;;
  let key := (sl_tenant_id lease, sl_session_id lease) in
  let* current := gets (fun s => rp_leases s !! key) in
  raise_if (negb (_owns current lease))
    (FencingConflict "stale worker cannot retry this session") ;;
  let* mb := mailbox (get (sl_tenant_id lease) (sl_session_id lease)) in
  match mb with
  | None => raise (FencingConflict "session mailbox lease is no longer current")
  | Some mb =>
    let* now := datetime_now in
    let retry_at := now + delay in
    let* mailbox_lease := _mailbox_lease mb lease in
    mailbox (retry_without_wakeup mailbox_lease (Some retry_at) None) ;;
    modify (fun s => s
      <| rp_v2_turn_status :=
           <[(sl_tenant_id lease, sl_turn_id lease) := "failed"%string]> (rp_v2_turn_status s) |>
      <| rp_inbound_status := <[(sl_tenant_id lease, sl_inbound_id lease) :=
           "accepted"%string]> (rp_inbound_status s) |>
      <| rp_leases := delete key (rp_leases s) |>)
  end.

Definition fail_session_ready (lease : SessionLease) (error_type : string) : M Repository unit :=
  let key := (sl_tenant_id lease, sl_session_id lease) in
  let* current := gets (fun s => rp_leases s !! key) in
  raise_if (negb (_owns current lease))
    (FencingConflict "stale worker cannot fail this session") ;;
  let* mb := mailbox (get (sl_tenant_id lease) (sl_session_id lease)) in
  match mb with
  | None => raise (FencingConflict "session mailbox lease is no longer current")
  | Some mb =>
    let* outbox_start := outbox_size in
    let* mailbox_lease := _mailbox_lease mb lease in
    mailbox (Mailbox.commit mailbox_lease None) ;;
    _sync_new_mailbox_outbox outbox_start ;;
    modify (fun s => s
      <| rp_v2_turn_status :=
           <[(sl_tenant_id lease, sl_turn_id lease) := "failed"%string]> (rp_v2_turn_status s) |>
      <| rp_inbound_status := <[(sl_tenant_id lease, sl_inbound_id lease) :=
           "failed"%string]> (rp_inbound_status s) |>
      <| rp_leases := delete key (rp_leases s) |>)
  end.

(** ** Accepting inbound messages *)

Definition acceptance_key_of (context : TenantContext) (envelope : InboundEnvelope)
    : acceptance_key :=
  (tc_tenant_id context, Channel_value (ie_channel envelope), ie_account_id envelope,
   ie_external_message_id envelope).

(** Build and register a new acceptance. *)
Definition register_acceptance (context : TenantContext) (envelope : InboundEnvelope)
    : M Repository Acceptance :=
  let* inbound_id := uuid4 in
  let* accepted_at := datetime_now in
  let acceptance := MkAcceptance inbound_id context envelope accepted_at false in
  modify (fun s => s
    <| rp_acceptances := <[acceptance_key_of context envelope := acceptance]> (rp_acceptances s) |>
    <| rp_acceptances_by_id := dset inbound_id acceptance (rp_acceptances_by_id s) |>
    <| rp_acceptance_sequence :=
         <[inbound_id := rp_next_acceptance_sequence s]> (rp_acceptance_sequence s) |>
    <| rp_next_acceptance_sequence := rp_next_acceptance_sequence s + 1 |>) ;;
  ret acceptance.

Definition accept_inbound (context : TenantContext) (envelope : InboundEnvelope)
    (trace_headers : gmap string string) : M Repository Acceptance :=
  let* existing := gets (fun s => rp_acceptances s !! acceptance_key_of context envelope) in
  match existing with
  | Some existing => ret (existing <| acc_duplicate := true |>)
  | None =>
    let* acceptance := register_acceptance context envelope in
    let* outbox_id := uuid4 in
    modify (fun s => s <| rp_outbox := dset outbox_id
      (MkOutboxRecord outbox_id (tc_tenant_id context) "inbound.accepted"
         (acc_inbound_id acceptance) {["inbound_id"%string := PStr (acc_inbound_id acceptance)]}
         trace_headers 0) (rp_outbox s) |>) ;;
    ret acceptance
  end.

(** A message accepted while the head waits for its retry timer waits as long. *)
Definition effective_retry_at (mb : option SessionMailbox) (retry_at : option Z)
    : M Repository (option Z) :=
  match mb with
  | Some mb =>
    if bool_decide (mb_status mb = RETRY_WAIT) then
      match mb_retry_at mb with
      | Some waiting =>
        let* now := datetime_now in
        if now <? waiting then
          ret (match retry_at with Some r => Some (Z.max waiting r) | None => Some waiting end)
        else ret retry_at
      | None => ret retry_at
      end
    else ret retry_at
  | None => ret retry_at
  end.

Definition accept_inbound_v2 (context : TenantContext) (envelope : InboundEnvelope)
    (trace_headers : gmap string string) (priority : Z) (retry_at : option Z)
    : M Repository Acceptance :=
  let* existing := gets (fun s => rp_acceptances s !! acceptance_key_of context envelope) in
  match existing with
  | Some existing => ret (existing <| acc_duplicate := true |>)
  | None =>
    let* acceptance := register_acceptance context envelope in
    let* mailbox_outbox_start := outbox_size in
    let* mb := mailbox (get (tc_tenant_id context) (tc_session_id context)) in
    let* retry_at := effective_retry_at mb retry_at in
    mailbox (accept (tc_tenant_id context) (tc_session_id context) (acc_inbound_id acceptance)
               priority retry_at (Some (tc_trace_id context)) None) ;;
    modify (fun s => s <| rp_outbox :=
      fold_left (fun d record => dset (ob_outbox_id record) record d)
        (drop mailbox_outbox_start (ms_outbox (rp_mailbox_store s))) (rp_outbox s) |>) ;;
    ret acceptance
  end.

(** ** Session leases (v1) *)

(** [any(...)]: an uncommitted message of the session accepted before
    [current_order]. *)
Fixpoint earlier_pending (acceptance : Acceptance) (current_order : Z) (items : list Acceptance)
    : M Repository bool :=
  match items with
  | [] => ret false
  | item :: rest =>
    if bool_decide (tc_tenant_id (acc_context item) = tc_tenant_id (acc_context acceptance))
       && bool_decide (tc_session_id (acc_context item) = tc_session_id (acc_context acceptance))
    then
      let* order := gets (fun s => rp_acceptance_sequence s !! acc_inbound_id item) in
      match order with
      | None => raise KeyError
      | Some order =>
        let* committed := gets (fun s => bool_decide
          ((tc_tenant_id (acc_context item), acc_inbound_id item) ∈ rp_committed_inbound s)) in
        if (order <? current_order) && negb committed then ret true
        else earlier_pending acceptance current_order rest
      end
    else earlier_pending acceptance current_order rest
  end.

(** The end of [acquire]: nobody holds the session; take it. *)
Definition grant_lease (acceptance : Acceptance) (worker_id : string) (lease_for now : Z)
    (current : option SessionLease) : M Repository SessionLease :=
  let context := acc_context acceptance in
  let key := (tc_tenant_id context, tc_session_id context) in
  let* existing := gets (fun s => rp_sessions s !! key) in
  let* snapshot :=
    match existing with
    | Some snapshot => ret snapshot
    | None =>
      let snapshot := new_snapshot (tc_tenant_id context) (tc_app_id context)
                        (tc_session_id context) (tc_principal_id context) in
      modify (fun s => s <| rp_sessions := <[key := snapshot]> (rp_sessions s) |>) ;;
      ret snapshot
    end in
  let epoch := match current with Some c => sl_fencing_token c + 1 | None => 1 end in
  let same_turn :=
    match current with
    | Some c => if bool_decide (sl_inbound_id c = acc_inbound_id acceptance) then Some c else None
    | None => None
    end in
  let attempt := match same_turn with Some c => sl_attempt c + 1 | None => 1 end in
  let* turn_id := match same_turn with Some c => ret (sl_turn_id c) | None => uuid4 end in
  let* lease := make_SessionLease (tc_tenant_id context) (tc_session_id context) turn_id
                  (acc_inbound_id acceptance) worker_id epoch (now + lease_for) attempt snapshot in
  modify (fun s => s <| rp_leases := <[key := lease]> (rp_leases s) |>) ;;
  ret lease.

Definition acquire (acceptance : Acceptance) (worker_id : string) (lease_for : Z)
    : M Repository (option SessionLease) :=
  let context := acc_context acceptance in
  let key := (tc_tenant_id context, tc_session_id context) in
  let* committed := gets (fun s =>
    bool_decide ((tc_tenant_id context, acc_inbound_id acceptance) ∈ rp_committed_inbound s)) in
  if committed then ret None
  else
    let* mb := mailbox (get (tc_tenant_id context) (tc_session_id context)) in
    if match mb with Some mb => mb_resolved_sequence mb <? mb_accepted_sequence mb | None => false end
    then ret None
    else
      let* running :=
        match mb with
        | Some mb =>
          match mb_status mb, mb_lease_expires_at mb with
          | RUNNING, Some expires => let* now := datetime_now in ret (now <? expires)
          | _, _ => ret false
          end
        | None => ret false
        end in
      if running then ret None
      else
        let* current_order := gets (fun s => rp_acceptance_sequence s !! acc_inbound_id acceptance) in
        match current_order with
        | None => raise KeyError
        | Some current_order =>
          let* items := gets (fun s => dvalues (rp_acceptances_by_id s)) in
          let* pending := earlier_pending acceptance current_order items in
          if pending then ret None
          else
            let* now := datetime_now in
            let* current := gets (fun s => rp_leases s !! key) in
            if after (sl_expires_at <$> current) now then ret None
            else
              let* lease := grant_lease acceptance worker_id lease_for now current in
              ret (Some lease)
        end.

Definition renew (lease : SessionLease) (lease_for : Z) : M Repository SessionLease :=
  let key := (sl_tenant_id lease, sl_session_id lease) in
  let* current := gets (fun s => rp_leases s !! key) in
  let* now := datetime_now in
  match current with
  | None => raise (FencingConflict "session lease is no longer current")
  | Some current =>
    raise_if (negb (_owns (Some current) lease) || (sl_expires_at current <=? now))
      (FencingConflict "session lease is no longer current") ;;
    let expires_at := Z.max (now + lease_for) (sl_expires_at current + 1) in
    let renewed := current <| sl_expires_at := expires_at |> in
    modify (fun s => s <| rp_leases := <[key := renewed]> (rp_leases s) |>) ;;
    ret renewed
  end.

Definition commit (commit : TurnCommit) : M Repository CommitResult :=
  let lease := tn_lease commit in
  let key := (sl_tenant_id lease, sl_session_id lease) in
  let* current := gets (fun s => rp_leases s !! key) in
  match current with
  | None => raise (FencingConflict "stale worker cannot commit this session")
  | Some current =>
    raise_if (negb (_owns (Some current) lease))
      (FencingConflict "stale worker cannot commit this session") ;;
    let* now := datetime_now in
    raise_if (sl_expires_at current <=? now)
      (FencingConflict "stale worker cannot commit this session") ;;
    let* snapshot := gets (fun s => rp_sessions s !! key) in
    match snapshot with
    | None => raise KeyError
    | Some snapshot =>
      let* sequenced := sequence_events (ss_next_sequence snapshot) (tn_events commit) in
      modify (fun s => s <| rp_sessions :=
        <[key := commit_snapshot commit snapshot sequenced]> (rp_sessions s) |>) ;;
      let* outbound := outbound_record commit in
      put_outbox outbound ;;
      modify (fun s => s
        <| rp_committed_inbound :=
             {[(sl_tenant_id lease, sl_inbound_id lease)]} ∪ rp_committed_inbound s |>
        <| rp_leases := delete key (rp_leases s) |>) ;;
      ret (commit_result commit snapshot sequenced)
    end
  end.

Definition fail (lease : SessionLease) (error_type : string) : M Repository unit :=
  let key := (sl_tenant_id lease, sl_session_id lease) in
  let* current := gets (fun s => rp_leases s !! key) in
  if _owns current lease
  then modify (fun s => s <| rp_leases := delete key (rp_leases s) |>)
  else ret tt.

(** ** The outbox *)

(** [for record in self._outbox.values()]: only keys that are present are
    assigned while iterating. *)
Fixpoint claim_outbox_loop (event_type owner_id : string) (limit now expires : Z)
    (records : list OutboxRecord) (claimed : list OutboxRecord) : M Repository (list OutboxRecord) :=
  match records with
  | [] => ret claimed
  | record :: rest =>
    if negb (bool_decide (ob_event_type record = event_type))
    then claim_outbox_loop event_type owner_id limit now expires rest claimed
    else
      let* current := gets (fun s => rp_outbox_claims s !! ob_outbox_id record) in
      if after (snd <$> current) now
      then claim_outbox_loop event_type owner_id limit now expires rest claimed
      else
        let claimed_record := record <| ob_attempts := ob_attempts record + 1 |> in
        modify (fun s => s
          <| rp_outbox_claims := <[ob_outbox_id record := (owner_id, expires)]> (rp_outbox_claims s) |>
          <| rp_outbox := dset (ob_outbox_id record) claimed_record (rp_outbox s) |>) ;;
        let claimed := claimed ++ [claimed_record] in
        if limit <=? Z.of_nat (length claimed) then ret claimed
        else claim_outbox_loop event_type owner_id limit now expires rest claimed
  end.

Definition claim_outbox (event_type owner_id : string) (limit lease_for : Z)
    : M Repository (list OutboxRecord) :=
  let* now := datetime_now in
  let* records := gets (fun s => dvalues (rp_outbox s)) in
  claim_outbox_loop event_type owner_id limit now (now + lease_for) records [].

(** [claim is None or claim[0] != owner_id]. *)
Definition claim_held (outbox_id owner_id : string) (s : Repository) : bool :=
  match rp_outbox_claims s !! outbox_id with
  | Some (owner, _) => bool_decide (owner = owner_id)
  | None => false
  end.

Definition require_claim (outbox_id owner_id : string) : M Repository unit :=
  let* held := gets (claim_held outbox_id owner_id) in
  raise_if (negb held) (FencingConflict "outbox claim is no longer current").

(** Remove a record and its claim. *)
Definition drop_outbox (outbox_id : string) : M Repository unit :=
  modify (fun s => s
    <| rp_outbox := dpop outbox_id (rp_outbox s) |>
    <| rp_outbox_claims := delete outbox_id (rp_outbox_claims s) |>).

Definition mark_outbox_published (tenant_id outbox_id owner_id : string) : M Repository unit :=
  require_claim outbox_id owner_id ;;
  drop_outbox outbox_id.

Definition release_outbox (tenant_id outbox_id owner_id : string) (delay : Z) (error_type : string)
    : M Repository unit :=
  require_claim outbox_id owner_id ;;
  let* now := datetime_now in
  modify (fun s => s <| rp_outbox_claims :=
    <[outbox_id := (""%string, now + delay)]> (rp_outbox_claims s) |>).

Definition dead_letter_outbox (record : OutboxRecord) (owner_id reason : string)
    : M Repository unit :=
  require_claim (ob_outbox_id record) owner_id ;;
  modify (fun s => s <| rp_dead_letters := rp_dead_letters s ++ [(record, reason)] |>) ;;
  drop_outbox (ob_outbox_id record).

(** ** Delivery attempts *)

Definition record_delivery (tenant_id : string) (receipt : DeliveryReceipt) (retrying : bool)
    : M Repository unit :=
  modify (fun s => s <| rp_delivery_receipts := rp_delivery_receipts s ++ [receipt] |>).

Definition begin_delivery (record : OutboxRecord) (owner_id : string)
    : M Repository DeliveryAttempt :=
  require_claim (ob_outbox_id record) owner_id ;;
  let outbound_id := ob_aggregate_id record in
  let attempt_key := (ob_tenant_id record, outbound_id) in
  let* current := gets (fun s => rp_delivery_attempts s !! attempt_key) in
  match current with
  | Some (_, number, status) =>
    raise_if (bool_decide (status = "sending"%string))
      (DeliveryInProgress "provider delivery is still unresolved" (Some number)) ;;
    raise_if (bool_decide (status = "delivered"%string))
      (FencingConflict "outbound message is already delivered") ;;
    raise_if (bool_decide (status = "ambiguous"%string))
      (FencingConflict "ambiguous delivery requires manual replay")
  | None => ret tt
  end ;;
  let attempt_number := match current with Some (_, number, _) => number + 1 | None => 1 end in
  modify (fun s => s <| rp_delivery_attempts :=
    <[attempt_key := (owner_id, attempt_number, "sending"%string)]> (rp_delivery_attempts s) |>) ;;
  raise_if (attempt_number <? 1) (ValidationError "DeliveryAttempt") ;;
  ret (MkDeliveryAttempt (ob_tenant_id record) outbound_id attempt_number owner_id).

(** The attempt [finish_delivery] closes is the one that is being sent. *)
Definition attempt_sending (attempt_key : id_key) (attempt_number : Z) (s : Repository) : bool :=
  match rp_delivery_attempts s !! attempt_key with
  | Some (_, number, status) => (number =? attempt_number) && bool_decide (status = "sending"%string)
  | None => false
  end.

Definition finish_delivery (record : OutboxRecord) (owner_id : string) (attempt_number : Z)
    (receipt : DeliveryReceipt) (retry_delay : Z) : M Repository unit :=
  let attempt_key := (ob_tenant_id record, ob_aggregate_id record) in
  raise_if (negb (bool_decide (dr_outbound_id receipt = ob_aggregate_id record)))
    (ValueError "delivery receipt does not match outbox record") ;;
  let* held := gets (claim_held (ob_outbox_id record) owner_id) in
  let* sending := gets (attempt_sending attempt_key attempt_number) in
  raise_if (negb (held && sending)) (FencingConflict "delivery attempt is no longer current") ;;
  modify (fun s => s
    <| rp_delivery_receipts := rp_delivery_receipts s ++ [receipt] |>
    <| rp_delivery_attempts := <[attempt_key :=
         (owner_id, attempt_number, DeliveryStatus_value (dr_status receipt))]>
         (rp_delivery_attempts s) |>) ;;
  match dr_status receipt, dr_retryable receipt with
  | DELIVERED, _ => drop_outbox (ob_outbox_id record)
  | FAILED, true =>
    let* now := datetime_now in
    modify (fun s => s <| rp_outbox_claims :=
      <[ob_outbox_id record := (""%string, now + retry_delay)]> (rp_outbox_claims s) |>)
  | _, _ =>
    modify (fun s => s <| rp_dead_letters :=
      rp_dead_letters s ++ [(record, DeliveryStatus_value (dr_status receipt))] |>) ;;
    drop_outbox (ob_outbox_id record)
  end.

End repository.
