(* ===== verification/RepositoryInv.v ===== *)
(** * Well-formedness and progress of the runtime repository

    The invariant every method of [InMemoryRuntimeRepository] preserves, the
    order in which every method moves the repository forward, and the step
    relation over all methods. *)

From S2P Require Import Prelude Tenant Models Mailbox MailboxInv MailboxSpec Repository.
#[local] Open Scope Z_scope.

Create HintDb repo.

(** ** The invariant, one predicate per group of attributes *)

Definition outbox_ok (outbox : odict string OutboxRecord) : Prop :=
  NoDup (dkeys outbox) /\ forall id r, dget id outbox = Some r -> ob_outbox_id r = id.

(** Event numbers are 1, 2, ... without gaps and the next one follows. *)
Record session_ok (key : session_key) (ss : SessionSnapshot) : Prop := {
  so_tenant : ss_tenant_id ss = key.1;
  so_session : ss_session_id ss = key.2;
  so_version : 0 <= ss_version ss;
  so_next : ss_next_sequence ss = 1 + Z.of_nat (length (ss_events ss));
  so_events : sq_sequence <$> ss_events ss = seqZ 1 (Z.of_nat (length (ss_events ss)));
}.

Definition sessions_ok (sessions : gmap session_key SessionSnapshot) : Prop :=
  forall key ss, sessions !! key = Some ss -> session_ok key ss.

Record lease_wf (key : session_key) (l : SessionLease) : Prop := {
  lw_tenant : sl_tenant_id l = key.1;
  lw_session : sl_session_id l = key.2;
  lw_token : 1 <= sl_fencing_token l;
  lw_attempt : 1 <= sl_attempt l;
}.

Definition leases_ok (leases : gmap session_key SessionLease)
    (sessions : gmap session_key SessionSnapshot) : Prop :=
  forall key l, leases !! key = Some l -> lease_wf key l /\ is_Some (sessions !! key).

Section invariant.
Context `{Env}.

Record acceptances_ok (acc : gmap acceptance_key Acceptance) (by_id : odict string Acceptance)
    (seq : gmap string Z) (next : Z) (drawn : nat) : Prop := {
  ao_key : forall key a, acc !! key = Some a ->
    key = acceptance_key_of (acc_context a) (acc_envelope a) /\
    dget (acc_inbound_id a) by_id = Some a;
  ao_id : forall id a, dget id by_id = Some a ->
    acc_inbound_id a = id /\ acc_duplicate a = false /\
    (exists n, seq !! id = Some n /\ 1 <= n < next) /\
    (exists n, (n < drawn)%nat /\ id = uuid_at n);
  ao_nodup : NoDup (dkeys by_id);
  ao_order : forall id id' n, seq !! id = Some n -> seq !! id' = Some n -> id = id';
  ao_bound : forall id n, seq !! id = Some n -> 1 <= n < next;
  ao_drawn : forall id, is_Some (seq !! id) -> exists n, (n < drawn)%nat /\ id = uuid_at n;
  ao_next : 1 <= next;
}.

Record repo_inv (s : Repository) (e : effects) : Prop := {
  ri_store : store_inv (rp_mailbox_store s);
  ri_outbox : outbox_ok (rp_outbox s);
  ri_acceptances : acceptances_ok (rp_acceptances s) (rp_acceptances_by_id s)
    (rp_acceptance_sequence s) (rp_next_acceptance_sequence s) (uuids e);
  ri_sessions : sessions_ok (rp_sessions s);
  ri_leases : leases_ok (rp_leases s) (rp_sessions s);
}.

(** ** Progress *)

(** A delivery attempt only moves forward, and [delivered] and [ambiguous] are
    final. *)
Definition terminal (status : string) : Prop := status = "delivered"%string \/ status = "ambiguous"%string.

Definition attempts_le (a a' : gmap id_key (string * Z * string)) : Prop :=
  forall key o n st, a !! key = Some (o, n, st) ->
    exists o' n' st', a' !! key = Some (o', n', st') /\ n <= n' /\
      (terminal st -> (o', n', st') = (o, n, st)).

Definition sessions_le (m m' : gmap session_key SessionSnapshot) : Prop :=
  forall key ss, m !! key = Some ss -> exists ss', m' !! key = Some ss' /\
    ss_version ss <= ss_version ss' /\ ss_events ss `prefix_of` ss_events ss'.

Definition dict_le {V} (d d' : odict string V) : Prop :=
  forall k v, dget k d = Some v -> dget k d' = Some v.

Record repo_le (s : Repository) (e : effects) (s' : Repository) (e' : effects) : Prop := {
  rl_uuids : (uuids e <= uuids e')%nat;
  rl_store : store_le (rp_mailbox_store s) (rp_mailbox_store s');
  rl_acceptances : rp_acceptances s ⊆ rp_acceptances s';
  rl_by_id : dict_le (rp_acceptances_by_id s) (rp_acceptances_by_id s');
  rl_sequence : rp_acceptance_sequence s ⊆ rp_acceptance_sequence s';
  rl_sessions : sessions_le (rp_sessions s) (rp_sessions s');
  rl_committed : rp_committed_inbound s ⊆ rp_committed_inbound s';
  rl_dead : rp_dead_letters s `prefix_of` rp_dead_letters s';
  rl_receipts : rp_delivery_receipts s `prefix_of` rp_delivery_receipts s';
  rl_attempts : attempts_le (rp_delivery_attempts s) (rp_delivery_attempts s');
}.
End invariant.

#[export] Instance attempts_le_preorder : PreOrder attempts_le.
Proof.
  split.
  - intros a key o n st Hk. exists o, n, st. split_and!; done.
  - intros x y z Hxy Hyz key o n st Hk.
    destruct (Hxy _ _ _ _ Hk) as (o1 & n1 & st1 & Hk1 & ? & Ht1).
    destruct (Hyz _ _ _ _ Hk1) as (o2 & n2 & st2 & Hk2 & ? & Ht2).
    exists o2, n2, st2. split_and!; [done|lia|]. intros Ht. specialize (Ht1 Ht). simplify_eq.
    by apply Ht2.
Qed.

#[export] Instance sessions_le_preorder : PreOrder sessions_le.
Proof.
  split.
  - intros m key ss Hk. exists ss. split_and!; [done|lia|done].
  - intros x y z Hxy Hyz key ss Hk. destruct (Hxy _ _ Hk) as (s1 & Hk1 & ? & ?).
    destruct (Hyz _ _ Hk1) as (s2 & Hk2 & ? & ?). exists s2. split_and!; [done|lia|by etrans].
Qed.

#[export] Instance dict_le_preorder V : PreOrder (@dict_le V).
Proof. split; [by intros d k v|]. intros x y z Hxy Hyz k v Hk. auto. Qed.

Lemma repo_le_refl s e : repo_le s e s e.
Proof. split; reflexivity. Qed.

Lemma repo_le_trans s0 e0 s1 e1 s2 e2 :
  repo_le s0 e0 s1 e1 -> repo_le s1 e1 s2 e2 -> repo_le s0 e0 s2 e2.
Proof. intros [] []. split; first [lia | etrans; eassumption]. Qed.

(** ** Updates of one group of attributes *)

Lemma outbox_ok_put outbox id r :
  outbox_ok outbox -> ob_outbox_id r = id -> outbox_ok (dset id r outbox).
Proof.
  intros [Hnd Hid] <-. split; [by apply NoDup_dset|]. intros id r'. rewrite dget_dset.
  case_decide; intros; simplify_eq; auto.
Qed.

Lemma outbox_ok_set outbox r : outbox_ok outbox -> outbox_ok (dset (ob_outbox_id r) r outbox).
Proof. intros. by apply outbox_ok_put. Qed.

Lemma outbox_ok_attempts outbox r n :
  outbox_ok outbox -> outbox_ok (dset (ob_outbox_id r) (r <| ob_attempts := n |>) outbox).
Proof. intros. by apply outbox_ok_put. Qed.

Lemma outbox_ok_pop outbox id : outbox_ok outbox -> outbox_ok (dpop id outbox).
Proof.
  intros [Hnd Hid]. split; [by apply NoDup_dpop|]. intros id' r'.
  destruct (decide (id = id')) as [->|]; [by rewrite dget_dpop_eq|].
  rewrite dget_dpop_ne by done. apply Hid.
Qed.

Lemma outbox_ok_default outbox r :
  outbox_ok outbox -> outbox_ok (dsetdefault (ob_outbox_id r) r outbox).
Proof. intros Ho. unfold dsetdefault. case_match; [done|by apply outbox_ok_set]. Qed.

Lemma outbox_ok_sync outbox l :
  outbox_ok outbox ->
  outbox_ok (fold_left (fun d r => dsetdefault (ob_outbox_id r) r d) l outbox).
Proof. revert outbox. induction l; simpl; auto using outbox_ok_default. Qed.

Lemma outbox_ok_copy outbox l :
  outbox_ok outbox -> outbox_ok (fold_left (fun d r => dset (ob_outbox_id r) r d) l outbox).
Proof. revert outbox. induction l; simpl; auto using outbox_ok_set. Qed.

Lemma outbox_ok_new outbox id t ty ag p h n :
  outbox_ok outbox -> outbox_ok (dset id (MkOutboxRecord id t ty ag p h n) outbox).
Proof. intros. by apply outbox_ok_put. Qed.

Lemma session_ok_new key app principal : session_ok key (new_snapshot key.1 app key.2 principal).
Proof. by split. Qed.

Lemma sessions_ok_insert m key ss :
  sessions_ok m -> session_ok key ss -> sessions_ok (<[key := ss]> m).
Proof.
  intros Hm Hs k x. rewrite lookup_insert. case_decide; intros; simplify_eq; auto.
Qed.

Lemma sessions_ok_new m t ss app principal :
  sessions_ok m -> sessions_ok (<[(t, ss) := new_snapshot t app ss principal]> m).
Proof. intros Hm. apply sessions_ok_insert; [done|apply (session_ok_new (t, ss))]. Qed.

Lemma leases_ok_insert leases sessions key l :
  leases_ok leases sessions -> lease_wf key l -> is_Some (sessions !! key) ->
  leases_ok (<[key := l]> leases) sessions.
Proof.
  intros Hl Hw Hs k x. rewrite lookup_insert. case_decide; intros; simplify_eq; auto.
Qed.

Lemma leases_ok_delete leases sessions key :
  leases_ok leases sessions -> leases_ok (delete key leases) sessions.
Proof. intros Hl k x. rewrite lookup_delete_Some. intros [_ ?]. auto. Qed.

Lemma leases_ok_sessions leases sessions key ss :
  leases_ok leases sessions -> leases_ok leases (<[key := ss]> sessions).
Proof.
  intros Hl k x Hk. destruct (Hl k x Hk) as [Hw Hs]. split; [done|].
  rewrite lookup_insert. case_decide; eauto.
Qed.

Lemma lease_wf_renewed leases sessions key l t :
  leases_ok leases sessions -> leases !! key = Some l ->
  leases_ok (<[key := l <| sl_expires_at := t |>]> leases) sessions.
Proof.
  intros Hl Hk. destruct (Hl key l Hk) as [[] ?]. apply leases_ok_insert; [done| |done]. by split.
Qed.

Lemma leases_ok_grant leases sessions t ss turn inbound owner token ex attempt snap h :
  leases_ok leases sessions -> is_Some (sessions !! (t, ss)) -> 1 <= token -> 1 <= attempt ->
  leases_ok (<[(t, ss) := MkSessionLease t ss turn inbound owner token ex attempt snap h]> leases)
    sessions.
Proof. intros Hl Hs Ht Ha. by apply leases_ok_insert. Qed.

Lemma is_Some_insert {V} (m : gmap session_key V) key v : is_Some (<[key := v]> m !! key).
Proof. rewrite lookup_insert_eq. eauto. Qed.

Lemma sessions_le_new m key ss : m !! key = None -> sessions_le m (<[key := ss]> m).
Proof.
  intros Hn k x Hk. exists x. rewrite lookup_insert_ne by congruence. split_and!; [done|lia|done].
Qed.

Lemma sessions_le_commit m key ss ss' :
  m !! key = Some ss -> ss_version ss <= ss_version ss' ->
  ss_events ss `prefix_of` ss_events ss' -> sessions_le m (<[key := ss']> m).
Proof.
  intros Hk Hv He k x Hx. rewrite lookup_insert. case_decide; simplify_eq; [eauto|].
  exists x. split_and!; [done|lia|done].
Qed.

Lemma attempts_le_insert a key o n st :
  (forall o' n' st', a !! key = Some (o', n', st') -> n' <= n /\ ~ terminal st') ->
  attempts_le a (<[key := (o, n, st)]> a).
Proof.
  intros Hk k o' n' st' Hget. rewrite lookup_insert. case_decide; subst.
  - destruct (Hk _ _ _ Hget). eexists _, _, _. split_and!; [done|done|done].
  - eexists _, _, _. split_and!; [done|lia|done].
Qed.

Lemma attempts_le_finish s key n o st :
  attempt_sending key n s = true ->
  attempts_le (rp_delivery_attempts s) (<[key := (o, n, st)]> (rp_delivery_attempts s)).
Proof.
  intros Hs. apply attempts_le_insert. intros o' n' st' Hk. unfold attempt_sending in Hs.
  rewrite Hk in Hs. bool_prop. subst. split; [lia|]. by intros [?|?].
Qed.
#[export] Hint Resolve attempts_le_finish : repo.

#[export] Hint Resolve outbox_ok_set outbox_ok_attempts outbox_ok_pop outbox_ok_sync outbox_ok_copy
  outbox_ok_new sessions_ok_new leases_ok_delete leases_ok_sessions lease_wf_renewed
  leases_ok_grant is_Some_insert sessions_le_new mk_is_Some : repo.

(** ** What the repository relies on in a mailbox call *)

Section frames.
Context `{Env}.

Definition draws {S A} (m : M S A) : Prop :=
  forall s e, wp m (fun _ _ e' => (uuids e <= uuids e')%nat) s e.

Lemma draws_bind {S A B} (m : M S A) (k : A -> M S B) :
  draws m -> (forall a, draws (k a)) -> draws (bind m k).
Proof.
  intros Hm Hk s e. apply wp_bind. specialize (Hm s e). unfold wp in *.
  destruct (m s e) as [[[a|x] s'] e']; simpl in *; [|done].
  specialize (Hk a s' e'). unfold wp in Hk. lia.
Qed.

Lemma uuids_now n e : uuids (now_effects n e) = uuids e.
Proof. by destruct n. Qed.

Ltac solve_draws := intros s e; wp_steps; simpl; rewrite ?uuids_now; lia.

Lemma accept_draws t ss i p r tr n : draws (accept t ss i p r tr n).
Proof. unfold accept, accept_item. solve_draws. Qed.
Lemma claim_draws t ss o l n : draws (claim t ss o l n).
Proof. unfold claim. solve_draws. Qed.
Lemma claim_session_draws t ss o l g ep a n : draws (claim_session t ss o l g ep a n).
Proof.
  unfold claim_session, get. apply draws_bind; [destruct n; solve_draws|intros].
  apply draws_bind; [solve_draws|intros]. apply draws_bind; [solve_draws|intros].
  case_match; [solve_draws|]. apply draws_bind; [apply claim_draws|intros].
  apply draws_bind; [solve_draws|intros]. solve_draws.
Qed.
Lemma renew_draws l f n : draws (Mailbox.renew l f n).
Proof. unfold Mailbox.renew. solve_draws. Qed.
Lemma renew_many_draws l f n : draws (renew_many l f n).
Proof.
  induction l; simpl; [solve_draws|]. apply draws_bind; [apply renew_draws|intros].
  apply draws_bind; [done|intros]. solve_draws.
Qed.
Lemma commit_draws l n : draws (Mailbox.commit l n).
Proof. unfold Mailbox.commit. solve_draws. Qed.
Lemma release_draws l r p i n em : draws (_release l r p i n em).
Proof. unfold _release. solve_draws. Qed.
Lemma recover_draws t ss n : draws (recover t ss n).
Proof. unfold recover. solve_draws. Qed.
Lemma reconcile_draws t ss n : draws (reconcile t ss n).
Proof. unfold reconcile, _requeue_ready. solve_draws. Qed.
Lemma sweep_loop_draws eligible handle keys limit handled :
  (forall t s, draws (handle t s)) -> draws (sweep_loop eligible handle keys limit handled).
Proof.
  intros Hh. revert handled. induction keys as [|key rest IH]; intros handled; simpl; [solve_draws|].
  case_match; [solve_draws|]. apply draws_bind; [solve_draws|]. intros [mb|]; [|solve_draws].
  case_match; [|done]. by apply draws_bind.
Qed.

(** A mailbox method keeps the store well formed, moves it forward, and draws
    identifiers. *)
Definition mailbox_frame {A} (m : M MailboxStore A) : Prop :=
  preserves store_inv m /\ advances m /\ draws m.

Lemma get_frame t ss : mailbox_frame (get t ss).
Proof. split_and!; [by intros s e|intros s e _; apply wp_gets; reflexivity|intros s e; by apply wp_gets]. Qed.
Lemma accept_frame t ss i p r tr n : mailbox_frame (accept t ss i p r tr n).
Proof. split_and!; [apply accept_preserves|apply accept_advances|apply accept_draws]. Qed.
Lemma claim_session_frame t ss o l g ep a n : mailbox_frame (claim_session t ss o l g ep a n).
Proof. split_and!; [apply claim_session_preserves|apply claim_session_advances|apply claim_session_draws]. Qed.
Lemma renew_frame l f n : mailbox_frame (Mailbox.renew l f n).
Proof. split_and!; [apply renew_preserves|apply renew_advances|apply renew_draws]. Qed.
Lemma renew_many_frame l f n : mailbox_frame (renew_many l f n).
Proof. split_and!; [apply renew_many_preserves|apply renew_many_advances|apply renew_many_draws]. Qed.
Lemma commit_frame l n : mailbox_frame (Mailbox.commit l n).
Proof. split_and!; [apply commit_preserves|apply commit_advances|apply commit_draws]. Qed.
Lemma release_frame l r p i n em : mailbox_frame (_release l r p i n em).
Proof. split_and!; [apply release_preserves|apply release_advances|apply release_draws]. Qed.
Lemma recover_frame t ss n : mailbox_frame (recover t ss n).
Proof. split_and!; [apply recover_preserves|apply recover_advances|apply recover_draws]. Qed.
Lemma reconcile_frame t ss n : mailbox_frame (reconcile t ss n).
Proof. split_and!; [apply reconcile_preserves|apply reconcile_advances|apply reconcile_draws]. Qed.

Lemma sweep_frame eligible handle limit :
  (forall t x y, mailbox_frame (handle t x y)) ->
  mailbox_frame (raise_if (limit <? 1) (ValueError "recovery limit must be positive") ;;
    let* t := datetime_now in
    let* keys := gets (fun s => dkeys (ms_mailboxes s)) in
    sweep_loop (eligible t) (handle t) keys limit 0).
Proof.
  intros Hh. split_and!.
  - rewrite preserves_wp. intros s e Hs. wp_steps; [done|].
    apply sweep_loop_preserves; [|done]. intros. apply Hh.
  - apply sweep_advances. intros t s e Hs. wp_steps.
    apply sweep_loop_advances; [intros; apply Hh|intros; apply Hh|done].
  - apply draws_bind; [solve_draws|intros _]. apply draws_bind; [solve_draws|intros].
    apply draws_bind; [solve_draws|intros]. apply sweep_loop_draws. intros. apply Hh.
Qed.

Lemma sweep_expired_frame limit : mailbox_frame (Mailbox.sweep_expired_leases limit).
Proof.
  apply (sweep_frame (fun t mb => due (mb_lease_expires_at mb) t)
    (fun t x y => recover x y (Some t))). intros. apply recover_frame.
Qed.
Lemma schedule_retries_frame limit : mailbox_frame (Mailbox.schedule_retries limit).
Proof.
  apply (sweep_frame (fun t mb => bool_decide (mb_status mb = RETRY_WAIT) && due (mb_retry_at mb) t)
    (fun t x y => reconcile x y (Some t))). intros. apply reconcile_frame.
Qed.
Lemma reconcile_sessions_frame limit : mailbox_frame (Mailbox.reconcile_sessions limit).
Proof.
  apply (sweep_frame (fun _ mb => negb (bool_decide (mb_status mb = RUNNING)))
    (fun t x y => reconcile x y (Some t))). intros. apply reconcile_frame.
Qed.

(** Run a mailbox call inside the repository through its frame. *)
Lemma wp_mailbox {A} (m : M MailboxStore A) (Q : _ -> _ -> _ -> Prop) s e :
  mailbox_frame m -> store_inv (rp_mailbox_store s) ->
  (forall r t e', store_inv t -> store_le (rp_mailbox_store s) t -> (uuids e <= uuids e')%nat ->
     Q r (s <| rp_mailbox_store := t |>) e') ->
  wp (mailbox m) Q s e.
Proof.
  intros (Hp & Ha & Hd) Hs HQ. apply wp_zoom. unfold wp.
  apply HQ; [by apply Hp|by apply Ha|apply Hd].
Qed.

(** A read of the mailbox store leaves the repository as it is. *)
Lemma wp_mailbox_get t ss (Q : _ -> _ -> _ -> Prop) s e :
  Q (Ok (dget (t, ss) (ms_mailboxes (rp_mailbox_store s)))) s e -> wp (mailbox (get t ss)) Q s e.
Proof.
  intros HQ. apply wp_zoom. unfold get. apply wp_gets.
  match goal with |- Q _ ?x _ => by replace x with s by (by destruct s) end.
Qed.
End frames.

#[export] Hint Resolve get_frame accept_frame claim_session_frame renew_frame renew_many_frame
  commit_frame release_frame recover_frame reconcile_frame sweep_expired_frame
  schedule_retries_frame reconcile_sessions_frame : repo.

(** ** Every method keeps the invariant and moves forward *)

Section methods.
Context `{E : Env} `{!UniqueIds E} `{EnvelopeDump}.

Definition good (s0 : Repository) (e0 : effects) (s : Repository) (e : effects) : Prop :=
  repo_inv s e /\ repo_le s0 e0 s e.

Definition frame {A} (m : M Repository A) : Prop :=
  forall s e, repo_inv s e -> wp m (fun _ s' e' => good s e s' e') s e.

Lemma good_refl s e : repo_inv s e -> good s e s e.
Proof. intros. split; [done|apply repo_le_refl]. Qed.

Lemma frame_bind {A B} (m : M Repository A) (k : A -> M Repository B) :
  frame m -> (forall a, frame (k a)) -> frame (bind m k).
Proof.
  intros Hm Hk s e Hs. apply wp_bind. specialize (Hm s e Hs). unfold wp in *.
  destruct (m s e) as [[[a|x] s'] e']; simpl in *; [|done]. destruct Hm as [Hs' Hle].
  destruct (Hk a s' e' Hs') as [? ?]. split; [done|]. by eapply repo_le_trans.
Qed.

Lemma frame_ret {A} (a : A) : frame (ret a).
Proof. intros s e Hs. by apply wp_ret, good_refl. Qed.

Lemma frame_raise {A} x : frame (raise x : M Repository A).
Proof. intros s e Hs. by apply wp_raise, good_refl. Qed.

Lemma frame_gets {A} (f : Repository -> A) : frame (gets f).
Proof. intros s e Hs. by apply wp_gets, good_refl. Qed.

Lemma acceptances_ok_mono acc by_id seq next n n' :
  acceptances_ok acc by_id seq next n -> (n <= n')%nat -> acceptances_ok acc by_id seq next n'.
Proof.
  intros [Hkey Hid Hnd Hord Hb Hdr Hn] Hle. split; try done.
  - intros id a Hget. destruct (Hid id a Hget) as (? & ? & ? & m & ? & ?). split_and!; [done..|].
    exists m. split; [lia|done].
  - intros id Hget. destruct (Hdr id Hget) as (m & ? & ?). exists m. split; [lia|done].
Qed.

Lemma good_draw s e e' : repo_inv s e -> (uuids e <= uuids e')%nat -> good s e s e'.
Proof.
  intros [] Hle. split; split; try done; by eapply acceptances_ok_mono.
Qed.

(** A state that differs from a good one in the runtime outbox, the claims, the
    status maps or the leases. *)
Ltac inv_field :=
  first
    [ assumption
    | solve [eauto 6 using acceptances_ok_mono, ri_store, ri_outbox, ri_acceptances, ri_sessions,
               ri_leases with repo]
    | eapply acceptances_ok_mono; [eauto using ri_acceptances|simpl; lia] ].
Ltac le_field :=
  first
    [ assumption | reflexivity | simpl in *; lia
    | set_solver
    | eexists; reflexivity
    | solve [eauto 6 with repo]
    | apply attempts_le_insert; intros; simplify_eq;
      first [congruence | split; [lia|by intros [?|?]]] ].
Ltac solve_good :=
  first [ by apply good_refl
        | split; [split; simpl; [inv_field..] | split; simpl; [le_field..]] ].
Ltac rp_hook :=
  lazymatch goal with
  | |- wp (mailbox (get _ _)) _ _ _ => apply wp_mailbox_get
  | |- wp (mailbox _) _ _ _ =>
      apply wp_mailbox; [solve [eauto with repo]|by eauto using ri_store|intros]
  | |- wp outbox_size _ _ _ => unfold outbox_size
  | |- wp (_sync_new_mailbox_outbox _) _ _ _ => unfold _sync_new_mailbox_outbox
  | |- wp (require_claim _ _) _ _ _ => unfold require_claim
  | |- wp (drop_outbox _) _ _ _ => unfold drop_outbox
  | |- wp (_mailbox_lease _ _) _ _ _ => unfold _mailbox_lease
  | |- wp (make_MailboxLease _ _ _ _ _ _ _ _ _ _) _ _ _ => unfold make_MailboxLease
  | |- wp (make_SessionLease _ _ _ _ _ _ _ _ _) _ _ _ => unfold make_SessionLease
  | |- wp (outbound_record _) _ _ _ => unfold outbound_record
  | |- wp (put_outbox _) _ _ _ => unfold put_outbox
  end.
Ltac rp_step := first [wp_prim | rp_hook]; cbv beta iota zeta.
Ltac rp_steps := repeat (lazymatch goal with
  | |- wp (mailbox _) _ _ _ => rp_hook; cbv beta iota zeta
  | |- wp (match ?r with Ok _ => _ | Raise _ => _ end) _ _ _ => destruct r eqn:?
  | |- match ?r with Ok _ => _ | Raise _ => _ end => destruct r eqn:?; simplify_eq
  | _ => rp_step
  end).

Lemma add_route_frame r : frame (add_route r).
Proof. intros s e Hs. unfold add_route. rp_steps. solve_good. Qed.

Lemma add_config_frame c : frame (add_config c).
Proof. intros s e Hs. unfold add_config. rp_steps. solve_good. Qed.

Lemma accept_mailbox_frame t ss i p r tr : frame (accept_mailbox t ss i p r tr).
Proof. intros s e Hs. unfold accept_mailbox. rp_steps; solve_good. Qed.

Lemma claim_mailbox_frame t ss o l g ep a : frame (claim_mailbox t ss o l g ep a).
Proof. intros s e Hs. unfold claim_mailbox. rp_steps; solve_good. Qed.

Lemma renew_mailbox_frame l f : frame (renew_mailbox l f).
Proof. intros s e Hs. unfold renew_mailbox. rp_steps; solve_good. Qed.
Lemma renew_mailboxes_frame l f : frame (renew_mailboxes l f).
Proof. intros s e Hs. unfold renew_mailboxes. rp_steps; solve_good. Qed.
Lemma commit_mailbox_frame l : frame (commit_mailbox l).
Proof. intros s e Hs. unfold commit_mailbox. rp_steps; solve_good. Qed.
Lemma reschedule_mailbox_frame l r p : frame (reschedule_mailbox l r p).
Proof. intros s e Hs. unfold reschedule_mailbox, reschedule. rp_steps; solve_good. Qed.
Lemma retry_mailbox_frame l r p : frame (retry_mailbox l r p).
Proof. intros s e Hs. unfold retry_mailbox, retry. rp_steps; solve_good. Qed.
Lemma recover_mailbox_frame t ss : frame (recover_mailbox t ss).
Proof. intros s e Hs. unfold recover_mailbox. rp_steps; solve_good. Qed.
Lemma sweep_expired_leases_frame o l : frame (sweep_expired_leases o l).
Proof. intros s e Hs. unfold sweep_expired_leases. rp_steps; solve_good. Qed.
Lemma schedule_retries_rframe o l : frame (schedule_retries o l).
Proof. intros s e Hs. unfold schedule_retries. rp_steps; solve_good. Qed.

Lemma rearm_frame mb : frame (_rearm_mailbox_outbox mb).
Proof. intros s e Hs. unfold _rearm_mailbox_outbox. rp_steps; solve_good. Qed.

Lemma mailbox_call_frame {A} (m : M MailboxStore A) : mailbox_frame m -> frame (mailbox m).
Proof. intros Hm s e Hs. apply wp_mailbox; [done|apply Hs|]. intros. solve_good. Qed.

Lemma sync_frame n : frame (_sync_new_mailbox_outbox n).
Proof. intros s e Hs. rp_steps. solve_good. Qed.

Lemma reconcile_mailbox_frame t ss : frame (reconcile_mailbox t ss).
Proof.
  apply frame_bind; [apply mailbox_call_frame, get_frame|intros before].
  apply frame_bind; [apply frame_gets|intros start].
  apply frame_bind; [apply mailbox_call_frame, reconcile_frame|intros mb].
  apply frame_bind; [apply sync_frame|intros _]. destruct mb; [|apply frame_ret].
  apply frame_bind; [|intros; apply frame_ret]. case_match; [apply rearm_frame|apply frame_ret].
Qed.

Lemma rearm_rescheduled_frame before mbs : frame (rearm_rescheduled before mbs).
Proof.
  induction mbs as [|[key mb] rest IH]; simpl; [apply frame_ret|].
  apply frame_bind; [|done]. case_match; [apply rearm_frame|apply frame_ret].
Qed.

Lemma reconcile_sessions_rframe o l : frame (reconcile_sessions o l).
Proof.
  apply frame_bind; [apply frame_gets|intros before].
  apply frame_bind; [apply frame_gets|intros start].
  apply frame_bind; [apply mailbox_call_frame, reconcile_sessions_frame|intros n].
  apply frame_bind; [apply sync_frame|intros _]. apply frame_bind; [apply frame_gets|intros mbs].
  apply frame_bind; [apply rearm_rescheduled_frame|intros]. apply frame_ret.
Qed.

(** *** Turns *)

(** A mailbox commit that raises changed nothing. *)
Lemma commit_raise_same l n s e :
  wp (Mailbox.commit l n) (fun r s' _ => match r with Raise _ => s' = s | Ok _ => True end) s e.
Proof. unfold Mailbox.commit. wp_steps; done. Qed.

Lemma sequence_events_spec {S} next evs (s : S) e :
  wp (sequence_events next evs) (fun r s' e' => s' = s /\ e' = e /\
    match r with
    | Ok l => sq_base <$> l = evs /\ sq_sequence <$> l = seqZ next (Z.of_nat (length evs)) /\
              (evs = [] \/ 1 <= next)
    | Raise _ => next < 1
    end) s e.
Proof.
  revert next. induction evs as [|ev evs IH]; intros next; simpl.
  - apply wp_ret. split_and!; [done..|by rewrite seqZ_nil by lia|by left].
  - apply wp_bind, wp_raise_if; intros; bool_prop; [done|]. apply wp_bind.
    eapply wp_mono; [apply (IH (next + 1))|]. intros [l|x] s' e' (-> & -> & Hr); [|split_and!; [done..|lia]].
    destruct Hr as (Hb & Hq & _). apply wp_ret. split_and!; [done..| | |right; lia].
    + rewrite fmap_cons, Hb. done.
    + rewrite fmap_cons, Hq, (seqZ_cons next) by (simpl; lia). f_equal. f_equal; simpl; lia.
Qed.

Lemma session_ok_commit key ss c l :
  session_ok key ss -> sq_sequence <$> l = seqZ (ss_next_sequence ss) (Z.of_nat (length l)) ->
  session_ok key (commit_snapshot c ss l).
Proof.
  intros [Ht Hs Hv Hn He] Hl. split; simpl; [done..|lia| |].
  - rewrite length_app, Nat2Z.inj_add, Hn. lia.
  - rewrite fmap_app, He, Hl, length_app, Nat2Z.inj_add, Hn, seqZ_app by lia. done.
Qed.

Lemma sequence_length (l : list SequencedEvent) evs : sq_base <$> l = evs -> length l = length evs.
Proof. intros <-. by rewrite length_fmap. Qed.

(** What a commit writes into the session. *)
Lemma sessions_commit m key ss c l :
  sessions_ok m -> m !! key = Some ss -> sq_base <$> l = tn_events c ->
  sq_sequence <$> l = seqZ (ss_next_sequence ss) (Z.of_nat (length (tn_events c))) ->
  sessions_ok (<[key := commit_snapshot c ss l]> m) /\
  sessions_le m (<[key := commit_snapshot c ss l]> m).
Proof.
  intros Hm Hk Hb Hq. rewrite <-(sequence_length _ _ Hb) in Hq. split.
  - apply sessions_ok_insert; [done|]. by apply session_ok_commit; [apply Hm|].
  - eapply sessions_le_commit; [done|simpl; lia|]. simpl. by exists l.
Qed.

Lemma commit_rframe c : frame (commit c).
Proof.
  intros s e Hs. unfold commit. rp_steps; try solve_good.
  eapply wp_mono; [apply sequence_events_spec|].
  intros [l|x] s' e' (-> & -> & Hr); [|by apply good_draw].
  destruct Hr as (Hb & Hq & _).
  destruct (sessions_commit _ _ _ c l (ri_sessions _ _ Hs) ltac:(eassumption) Hb Hq) as [? ?].
  rp_steps; solve_good.
Qed.

(** The guarded mailbox commit of [commit_session_ready]: the handler finds
    nothing to undo. *)
Lemma wp_guarded_commit l key mb n (Q : outcome unit -> Repository -> effects -> Prop) s e :
  store_inv (rp_mailbox_store s) -> dget key (ms_mailboxes (rp_mailbox_store s)) = Some mb ->
  n = length (ms_outbox (rp_mailbox_store s)) ->
  (forall t e', store_inv t -> store_le (rp_mailbox_store s) t -> (uuids e <= uuids e')%nat ->
     Q (Ok tt) (s <| rp_mailbox_store := t |>) e') ->
  (forall x e', (uuids e <= uuids e')%nat -> Q (Raise x) s e') ->
  wp (try_except (mailbox (Mailbox.commit l None) ;; ret tt) (fun x =>
        modify (fun s => s <| rp_mailbox_store := (rp_mailbox_store s)
          <| ms_mailboxes := dset key mb (ms_mailboxes (rp_mailbox_store s)) |>
          <| ms_outbox := take n (ms_outbox (rp_mailbox_store s)) |> |>) ;;
        raise x)) Q s e.
Proof.
  intros Hs Hk -> HOk HRaise. apply wp_try, wp_bind, wp_zoom.
  pose proof (commit_preserves l None _ e Hs) as Hp. pose proof (commit_advances l None _ e Hs) as Ha.
  pose proof (commit_draws l None (rp_mailbox_store s) e) as Hd.
  pose proof (commit_raise_same l None (rp_mailbox_store s) e) as Hr. unfold wp in *.
  destruct (Mailbox.commit l None (rp_mailbox_store s) e) as [[[r|x] t] e']; simpl in *; [by apply HOk|].
  subst t. rewrite dset_same by done. rewrite firstn_all.
  match goal with |- Q _ ?x _ => replace x with s by (by destruct s as [????????????????[]]) end.
  by apply HRaise.
Qed.


Lemma commit_session_ready_frame c : frame (commit_session_ready c).
Proof.
  intros s e Hs. unfold commit_session_ready. rp_steps; try solve_good.
  eapply wp_mono; [apply sequence_events_spec|].
  intros [l|x] s' e' (-> & -> & Hr); [|by apply good_draw].
  destruct Hr as (Hb & Hq & _).
  destruct (sessions_commit _ _ _ c l (ri_sessions _ _ Hs) ltac:(eassumption) Hb Hq) as [? ?].
  repeat lazymatch goal with |- wp (try_except _ _) _ _ _ => fail | _ => rp_step end.
  all: eapply wp_guarded_commit; [apply Hs|eassumption|done|intros|intros; simpl in *].
  all: rp_steps; solve_good.
Qed.

Lemma execute_claim_frame t ss o c l a : frame (execute_claim t ss o c l a).
Proof.
  intros s e Hs. unfold execute_claim. rp_steps; bool_prop; try solve_good.
Qed.

Lemma claim_executable_frame t ss o l g a : frame (claim_executable t ss o l g a).
Proof.
  apply frame_bind; [apply claim_mailbox_frame|]. intros c.
  destruct (sc_lease c) as [lease|]; [|apply frame_ret]. case_match; [apply frame_ret|].
  apply frame_bind; [apply frame_gets|]. intros [accepted|]; [|apply frame_ret].
  apply frame_bind; [apply frame_gets|]. intros [|]; [|apply execute_claim_frame].
  intros s e Hs. rp_steps; solve_good.
Qed.

Lemma claim_session_ready_frame t ss o l g ev a : frame (claim_session_ready t ss o l g ev a).
Proof.
  unfold claim_session_ready. apply frame_bind; [apply mailbox_call_frame, get_frame|intros mb].
  apply frame_bind; [intros s e Hs; rp_steps; solve_good|intros before].
  assert (Henter : forall g, frame (let* current := gets (fun s => rp_leases s !! (t, ss)) in
    let* running := match current with
      | Some current => let* now := datetime_now in ret (now <? sl_expires_at current)
      | None => ret false end in
    if running then ret (MkSessionClaim CLAIM_RUNNING before None a None)
    else claim_executable t ss o l g a)).
  { intros g'. apply frame_bind; [apply frame_gets|intros cur].
    apply frame_bind; [intros s e Hs; rp_steps; solve_good|intros [|]];
      [apply frame_ret|apply claim_executable_frame]. }
  destruct ev; [|apply Henter]. apply frame_bind; [apply frame_gets|intros r].
  case_match; [apply Henter|apply frame_ret].
Qed.

Lemma renew_session_ready_frame l f : frame (renew_session_ready l f).
Proof. intros s e Hs. unfold renew_session_ready. rp_steps; solve_good. Qed.

Lemma retry_session_ready_frame l er d : frame (retry_session_ready l er d).
Proof. intros s e Hs. unfold retry_session_ready, retry_without_wakeup. rp_steps; solve_good. Qed.

Lemma fail_session_ready_frame l er : frame (fail_session_ready l er).
Proof. intros s e Hs. unfold fail_session_ready. rp_steps; solve_good. Qed.

Lemma renew_rframe l f : frame (renew l f).
Proof. intros s e Hs. unfold renew. rp_steps; solve_good. Qed.

Lemma fail_frame l er : frame (fail l er).
Proof. intros s e Hs. unfold fail. rp_steps; solve_good. Qed.

Lemma earlier_pending_frame a n items : frame (earlier_pending a n items).
Proof.
  induction items as [|item rest IH]; simpl; [apply frame_ret|]. case_match; [|done].
  apply frame_bind; [apply frame_gets|]. intros [order|]; [|apply frame_raise].
  apply frame_bind; [apply frame_gets|]. intros committed. case_match; [apply frame_ret|done].
Qed.

Lemma mark_outbox_published_frame t i o : frame (mark_outbox_published t i o).
Proof. intros s e Hs. unfold mark_outbox_published. rp_steps; solve_good. Qed.

Lemma release_outbox_frame t i o d er : frame (release_outbox t i o d er).
Proof. intros s e Hs. unfold release_outbox. rp_steps; solve_good. Qed.

Lemma dead_letter_outbox_frame r o re : frame (dead_letter_outbox r o re).
Proof. intros s e Hs. unfold dead_letter_outbox. rp_steps; solve_good. Qed.

Lemma record_delivery_frame t r b : frame (record_delivery t r b).
Proof. intros s e Hs. unfold record_delivery. rp_steps; solve_good. Qed.

Lemma claim_outbox_loop_frame ty o l n x rs acc : frame (claim_outbox_loop ty o l n x rs acc).
Proof.
  revert acc. induction rs as [|r rs IH]; intros acc; simpl; [apply frame_ret|].
  case_match; [done|]. apply frame_bind; [apply frame_gets|intros cur].
  case_match; [done|]. apply frame_bind; [intros s e Hs; rp_steps; solve_good|intros _].
  case_match; [apply frame_ret|done].
Qed.

Lemma claim_outbox_frame ty o l f : frame (claim_outbox ty o l f).
Proof.
  apply frame_bind; [intros s e Hs; rp_steps; solve_good|intros now].
  apply frame_bind; [apply frame_gets|intros rs]. apply claim_outbox_loop_frame.
Qed.

(** *** Deliveries *)

Lemma begin_delivery_frame r o : frame (begin_delivery r o).
Proof. intros s e Hs. unfold begin_delivery. rp_steps; bool_prop; solve_good. Qed.

Lemma finish_delivery_frame r o n rc d : frame (finish_delivery r o n rc d).
Proof. intros s e Hs. unfold finish_delivery. rp_steps; bool_prop; solve_good. Qed.

(** *** Acceptances *)

Lemma acceptances_ok_register acc by_id seq next n ctx env t :
  acceptances_ok acc by_id seq next n -> acc !! acceptance_key_of ctx env = None ->
  dget (uuid_at n) by_id = None /\ seq !! uuid_at n = None /\
  acceptances_ok (<[acceptance_key_of ctx env := MkAcceptance (uuid_at n) ctx env t false]> acc)
    (dset (uuid_at n) (MkAcceptance (uuid_at n) ctx env t false) by_id)
    (<[uuid_at n := next]> seq) (next + 1) (S n).
Proof.
  intros [Hkey Hid Hnd Hord Hb Hdr Hn] Hnew.
  assert (Hseq : seq !! uuid_at n = None).
  { apply eq_None_not_Some. intros Hs. destruct (Hdr _ Hs) as (m & Hm & Heq).
    apply uuid_at_inj in Heq. lia. }
  assert (Hfresh : dget (uuid_at n) by_id = None).
  { destruct (dget (uuid_at n) by_id) as [a|] eqn:Hget; [|done].
    destruct (Hid _ _ Hget) as (_ & _ & _ & m & Hm & Heq). apply uuid_at_inj in Heq. lia. }
  split_and!; [done..|]. split.
  - intros key a. rewrite lookup_insert. case_decide; intros; simplify_eq; simpl.
    + split; [done|apply dget_dset_eq].
    + destruct (Hkey key a) as [? Hget]; [done|]. split; [done|].
      rewrite dget_dset_ne; [done|]. congruence.
  - intros id a. rewrite dget_dset, lookup_insert. case_decide; intros; simplify_eq; simpl.
    + split_and!; [done..| |eauto]. exists next. split; [done|lia].
    + destruct (Hid id a) as (? & ? & (k & ? & ?) & m & ? & ?); [done|].
      split_and!; [done..| |]; [exists k; split; [done|lia]|exists m; split; [lia|done]].
  - by apply NoDup_dset.
  - intros id id' k. rewrite !lookup_insert. repeat case_decide; intros; simplify_eq; try done.
    + match goal with Hx : seq !! _ = Some _ |- _ => apply Hb in Hx; lia end.
    + match goal with Hx : seq !! _ = Some _ |- _ => apply Hb in Hx; lia end.
    + by eapply Hord.
  - intros id k. rewrite lookup_insert. case_decide; intros; simplify_eq; [lia|].
    match goal with Hx : seq !! _ = Some _ |- _ => apply Hb in Hx; lia end.
  - intros id. rewrite lookup_insert. case_decide; intros Hget; [eauto|].
    destruct (Hdr id Hget) as (m & ? & ?). exists m. split; [lia|done].
  - lia.
Qed.

Lemma register_good ctx env s e :
  repo_inv s e -> rp_acceptances s !! acceptance_key_of ctx env = None ->
  wp (register_acceptance ctx env) (fun r s' e' => good s e s' e') s e.
Proof.
  intros Hs Hnew. unfold register_acceptance. rp_steps.
  destruct (acceptances_ok_register _ _ _ _ _ ctx env (clock_at (ticks e))
    (ri_acceptances _ _ Hs) Hnew) as (Hfresh & Hseq & Hok).
  assert (dict_le (rp_acceptances_by_id s) (dset (uuid_at (uuids e))
    (MkAcceptance (uuid_at (uuids e)) ctx env (clock_at (ticks e)) false) (rp_acceptances_by_id s))).
  { intros k v Hk. rewrite dget_dset_ne; [done|]. congruence. }
  split; [split; simpl; [inv_field..]|].
  split; simpl; [le_field|le_field|by apply insert_subseteq|le_field|by apply insert_subseteq|le_field..].
Qed.

Lemma accept_inbound_frame ctx env h : frame (accept_inbound ctx env h).
Proof.
  intros s e Hs. unfold accept_inbound. rp_steps; try solve_good.
  eapply wp_mono; [by apply register_good|]. intros [a|x] s' e' [Hs' Hle]; [|done]. rp_steps.
  split; [split; simpl; [inv_field..]|]. eapply repo_le_trans; [exact Hle|]. split; simpl; [le_field..].
Qed.

Lemma effective_retry_at_frame mb r : frame (effective_retry_at mb r).
Proof. intros s e Hs. unfold effective_retry_at. rp_steps; solve_good. Qed.

Lemma accept_inbound_v2_frame ctx env h p r : frame (accept_inbound_v2 ctx env h p r).
Proof.
  intros s e Hs. unfold accept_inbound_v2. rp_steps; try solve_good.
  eapply wp_mono; [by apply register_good|]. intros [a|x] s' e' [Hs' Hle]; [|done].
  cut (frame (let* start := outbox_size in
    let* mb := mailbox (get (tc_tenant_id ctx) (tc_session_id ctx)) in
    let* r := effective_retry_at mb r in
    mailbox (accept (tc_tenant_id ctx) (tc_session_id ctx) (acc_inbound_id a) p r
      (Some (tc_trace_id ctx)) None) ;;
    modify (fun s => s <| rp_outbox :=
      fold_left (fun d record => dset (ob_outbox_id record) record d)
        (drop start (ms_outbox (rp_mailbox_store s))) (rp_outbox s) |>) ;;
    ret a)).
  { intros Hf. eapply wp_mono; [by apply Hf|]. intros r' s2 e2 [? Hle2]. split; [done|].
    by eapply repo_le_trans. }
  apply frame_bind; [apply frame_gets|intros start].
  apply frame_bind; [apply mailbox_call_frame, get_frame|intros mb].
  apply frame_bind; [apply effective_retry_at_frame|intros r'].
  apply frame_bind; [apply mailbox_call_frame, accept_frame|intros _].
  intros s2 e2 Hs2. rp_steps. solve_good.
Qed.

Lemma grant_lease_frame a w f now cur : frame (grant_lease a w f now cur).
Proof. intros s e Hs. unfold grant_lease. rp_steps; bool_prop; solve_good. Qed.

Lemma datetime_now_frame : frame datetime_now.
Proof. intros s e Hs. rp_steps. solve_good. Qed.

Lemma acquire_frame a w f : frame (acquire a w f).
Proof.
  apply frame_bind; [apply frame_gets|intros [|]]; [apply frame_ret|].
  apply frame_bind; [apply mailbox_call_frame, get_frame|intros mb].
  match goal with |- frame (if ?b then _ else _) => destruct b end; [apply frame_ret|].
  apply frame_bind; [intros s e Hs; rp_steps; solve_good|intros [|]]; [apply frame_ret|].
  apply frame_bind; [apply frame_gets|intros [order|]]; [|apply frame_raise].
  apply frame_bind; [apply frame_gets|intros items].
  apply frame_bind; [apply earlier_pending_frame|intros [|]]; [apply frame_ret|].
  apply frame_bind; [apply datetime_now_frame|intros now].
  apply frame_bind; [apply frame_gets|intros cur].
  destruct (after _ _); [apply frame_ret|].
  apply frame_bind; [apply grant_lease_frame|intros]. apply frame_ret.
Qed.
End methods.

(** ** The step relation over every method that changes the repository *)

Inductive rcall : Type :=
  | RAddRoute (route : BindingRoute)
  | RAddConfig (config : TenantConfig)
  | RAcceptMailbox (tenant_id session_id inbound_id : string) (priority : Z) (retry_at : option Z)
      (trace_id : option string)
  | RClaimMailbox (tenant_id session_id owner_id : string) (lease_for : Z)
      (expected_generation expected_epoch : option Z) (acceptance : option Acceptance)
  | RClaimSessionReady (tenant_id session_id owner_id : string) (lease_for : Z)
      (expected_generation : option Z) (expected_event_id : option string)
      (acceptance : option Acceptance)
  | RRenewMailbox (lease : MailboxLease) (lease_for : Z)
  | RRenewMailboxes (leases : list MailboxLease) (lease_for : Z)
  | RRenewSessionReady (lease : SessionLease) (lease_for : Z)
  | RCommitSessionReady (commit : TurnCommit)
  | RRetrySessionReady (lease : SessionLease) (error_type : string) (delay : Z)
  | RFailSessionReady (lease : SessionLease) (error_type : string)
  | RCommitMailbox (lease : MailboxLease)
  | RRescheduleMailbox (lease : MailboxLease) (retry_at priority : option Z)
  | RRetryMailbox (lease : MailboxLease) (retry_at priority : option Z)
  | RRecoverMailbox (tenant_id session_id : string)
  | RReconcileMailbox (tenant_id session_id : string)
  | RSweepExpired (owner_id : string) (limit : Z)
  | RScheduleRetries (owner_id : string) (limit : Z)
  | RReconcileSessions (owner_id : string) (limit : Z)
  | RAcceptInbound (context : TenantContext) (envelope : InboundEnvelope)
      (trace_headers : gmap string string)
  | RAcceptInboundV2 (context : TenantContext) (envelope : InboundEnvelope)
      (trace_headers : gmap string string) (priority : Z) (retry_at : option Z)
  | RAcquire (acceptance : Acceptance) (worker_id : string) (lease_for : Z)
  | RRenew (lease : SessionLease) (lease_for : Z)
  | RCommit (commit : TurnCommit)
  | RFail (lease : SessionLease) (error_type : string)
  | RClaimOutbox (event_type owner_id : string) (limit lease_for : Z)
  | RMarkPublished (tenant_id outbox_id owner_id : string)
  | RReleaseOutbox (tenant_id outbox_id owner_id : string) (delay : Z) (error_type : string)
  | RRecordDelivery (tenant_id : string) (receipt : DeliveryReceipt) (retrying : bool)
  | RBeginDelivery (record : OutboxRecord) (owner_id : string)
  | RFinishDelivery (record : OutboxRecord) (owner_id : string) (attempt_number : Z)
      (receipt : DeliveryReceipt) (retry_delay : Z)
  | RDeadLetter (record : OutboxRecord) (owner_id reason : string).

Section steps.
Context `{E : Env} `{EnvelopeDump}.

Definition rvoid {A} (m : M Repository A) : M Repository unit := m ;; ret tt.

Definition rexec (c : rcall) : M Repository unit :=
  match c with
  | RAddRoute r => add_route r
  | RAddConfig c => add_config c
  | RAcceptMailbox t s i p r tr => rvoid (accept_mailbox t s i p r tr)
  | RClaimMailbox t s o l g ep a => rvoid (claim_mailbox t s o l g ep a)
  | RClaimSessionReady t s o l g ev a => rvoid (claim_session_ready t s o l g ev a)
  | RRenewMailbox l f => rvoid (renew_mailbox l f)
  | RRenewMailboxes l f => rvoid (renew_mailboxes l f)
  | RRenewSessionReady l f => rvoid (renew_session_ready l f)
  | RCommitSessionReady c => rvoid (commit_session_ready c)
  | RRetrySessionReady l er d => retry_session_ready l er d
  | RFailSessionReady l er => fail_session_ready l er
  | RCommitMailbox l => rvoid (commit_mailbox l)
  | RRescheduleMailbox l r p => rvoid (reschedule_mailbox l r p)
  | RRetryMailbox l r p => rvoid (retry_mailbox l r p)
  | RRecoverMailbox t s => rvoid (recover_mailbox t s)
  | RReconcileMailbox t s => rvoid (reconcile_mailbox t s)
  | RSweepExpired o l => rvoid (sweep_expired_leases o l)
  | RScheduleRetries o l => rvoid (schedule_retries o l)
  | RReconcileSessions o l => rvoid (reconcile_sessions o l)
  | RAcceptInbound c v h => rvoid (accept_inbound c v h)
  | RAcceptInboundV2 c v h p r => rvoid (accept_inbound_v2 c v h p r)
  | RAcquire a w f => rvoid (acquire a w f)
  | RRenew l f => rvoid (renew l f)
  | RCommit c => rvoid (commit c)
  | RFail l er => fail l er
  | RClaimOutbox ty o l f => rvoid (claim_outbox ty o l f)
  | RMarkPublished t i o => mark_outbox_published t i o
  | RReleaseOutbox t i o d er => release_outbox t i o d er
  | RRecordDelivery t r b => record_delivery t r b
  | RBeginDelivery r o => rvoid (begin_delivery r o)
  | RFinishDelivery r o n rc d => finish_delivery r o n rc d
  | RDeadLetter r o re => dead_letter_outbox r o re
  end.

Inductive rstep : Repository * effects -> Repository * effects -> Prop :=
  | rstep_call c s e r s' e' : rexec c s e = (r, s', e') -> rstep (s, e) (s', e').

Definition rreachable (s : Repository) (e : effects) : Prop :=
  exists e0, rtc rstep (empty_repository, e0) (s, e).

Fixpoint run_rcalls (cs : list rcall) (c : Repository * effects) : Repository * effects :=
  match cs with
  | [] => c
  | cl :: cs => let '(_, s, e) := rexec cl c.1 c.2 in run_rcalls cs (s, e)
  end.

Lemma run_rcalls_steps cs c : rtc rstep c (run_rcalls cs c).
Proof.
  revert c. induction cs as [|cl cs IH]; intros [s e]; simpl; [done|].
  destruct (rexec cl s e) as [[r s'] e'] eqn:Hrun. eapply rtc_l; [by econstructor|apply IH].
Qed.

Context `{!UniqueIds E}.

Lemma repo_inv_empty e : repo_inv empty_repository e.
Proof.
  split; simpl; [apply store_inv_empty|split; [constructor|done]| |done|done].
  split; simpl; try done; try lia.
  - constructor.
  - intros id [x Hx]. by rewrite lookup_empty in Hx.
Qed.

Lemma rvoid_frame {A} (m : M Repository A) : frame m -> frame (rvoid m).
Proof. intros. apply frame_bind; [done|intros; apply frame_ret]. Qed.

Lemma rexec_frame c : frame (rexec c).
Proof.
  destruct c; simpl; try apply rvoid_frame;
    eauto using add_route_frame, add_config_frame, accept_mailbox_frame, claim_mailbox_frame,
      claim_session_ready_frame, renew_mailbox_frame, renew_mailboxes_frame,
      renew_session_ready_frame, commit_session_ready_frame, retry_session_ready_frame,
      fail_session_ready_frame, commit_mailbox_frame, reschedule_mailbox_frame,
      retry_mailbox_frame, recover_mailbox_frame, reconcile_mailbox_frame.
  all: eauto using sweep_expired_leases_frame, schedule_retries_rframe, reconcile_sessions_rframe,
      accept_inbound_frame, accept_inbound_v2_frame, acquire_frame, renew_rframe, commit_rframe,
      fail_frame, claim_outbox_frame, mark_outbox_published_frame, release_outbox_frame,
      record_delivery_frame, begin_delivery_frame, finish_delivery_frame, dead_letter_outbox_frame.
Qed.

Lemma rstep_good c c' : rstep c c' -> repo_inv c.1 c.2 -> good c.1 c.2 c'.1 c'.2.
Proof.
  intros [cl s e r s' e' Hrun] Hs. pose proof (rexec_frame cl s e Hs) as Hg.
  unfold wp in Hg. by rewrite Hrun in Hg.
Qed.

Lemma rsteps_good c c' : rtc rstep c c' -> repo_inv c.1 c.2 -> good c.1 c.2 c'.1 c'.2.
Proof.
  induction 1 as [c|x y z Hxy Hyz IH]; intros Hs; [by apply good_refl|].
  destruct (rstep_good _ _ Hxy Hs) as [Hy Hle]. destruct (IH Hy) as [Hz Hle'].
  split; [done|]. by eapply repo_le_trans.
Qed.

Lemma rreachable_inv s e : rreachable s e -> repo_inv s e.
Proof.
  intros [e0 Hsteps]. by destruct (rsteps_good _ _ Hsteps (repo_inv_empty e0)).
Qed.
End steps.
