(* ===== verification/RepositoryThms.v ===== *)
(** * Theorems about the runtime repository

    Acceptance, turns, exclusion between the two session protocols, the outbox
    and deliveries of [InMemoryRuntimeRepository]. *)

From S2P Require Import Prelude Tenant Models Mailbox MailboxInv MailboxSpec.
From S2P Require Import MailboxThms Repository RepositoryInv.
#[local] Open Scope Z_scope.

Abbreviation turn_key l := (sl_tenant_id l, sl_session_id l).

(** ** Turns *)

Section turns.
Context `{E : Env} `{!UniqueIds E} `{EnvelopeDump}.

(** What a successful commit of a turn has done. *)
Record turn_committed (c : TurnCommit) (s s' : Repository) (r : CommitResult) : Prop := {
  tcm_session : exists ss ss' new,
    rp_sessions s !! turn_key (tn_lease c) = Some ss /\
    rp_sessions s' !! turn_key (tn_lease c) = Some ss' /\
    ss_version ss' = ss_version ss + 1 /\ ss_state ss' = tn_state c /\
    ss_events ss' = ss_events ss ++ new /\ sq_base <$> new = tn_events c /\
    sq_sequence <$> new = seqZ (ss_next_sequence ss) (Z.of_nat (length (tn_events c))) /\
    ss_next_sequence ss' = ss_next_sequence ss + Z.of_nat (length (tn_events c));
  tcm_committed : (sl_tenant_id (tn_lease c), sl_inbound_id (tn_lease c)) ∈ rp_committed_inbound s';
  tcm_lease : rp_leases s' !! turn_key (tn_lease c) = None;
  tcm_outbound : forall out, tn_outbound c = Some out -> exists id rec,
    dget id (rp_outbox s') = Some rec /\ ob_aggregate_id rec = oe_outbound_id out /\
    ob_event_type rec = outbound_event_type (oe_channel out) /\ ob_payload rec = model_dump out;
  tcm_result : cr_turn_id r = sl_turn_id (tn_lease c) /\
    cr_outbound_id r = oe_outbound_id <$> tn_outbound c;
}.

(** The events a session holding [ss] commits. *)
Lemma sequence_events_ok {S} key ss c (s : S) e :
  session_ok key ss ->
  exists l, sequence_events (ss_next_sequence ss) (tn_events c) s e = (Ok l, s, e) /\
    sq_base <$> l = tn_events c /\
    sq_sequence <$> l = seqZ (ss_next_sequence ss) (Z.of_nat (length (tn_events c))).
Proof.
  intros Hok. pose proof (so_next _ _ Hok).
  pose proof (sequence_events_spec (ss_next_sequence ss) (tn_events c) s e) as Hw. unfold wp in Hw.
  destruct (sequence_events _ _ s e) as [[[l|x] s'] e']; simpl in Hw; destruct Hw as (-> & -> & Hr).
  - exists l. naive_solver.
  - lia.
Qed.

(** The session, leases and outbox after the last step of a commit. *)
Lemma turn_committed_intro c s s' ss l r :
  rp_sessions s !! turn_key (tn_lease c) = Some ss -> sq_base <$> l = tn_events c ->
  sq_sequence <$> l = seqZ (ss_next_sequence ss) (Z.of_nat (length (tn_events c))) ->
  rp_sessions s' !! turn_key (tn_lease c) = Some (commit_snapshot c ss l) ->
  (sl_tenant_id (tn_lease c), sl_inbound_id (tn_lease c)) ∈ rp_committed_inbound s' ->
  rp_leases s' !! turn_key (tn_lease c) = None ->
  (forall out, tn_outbound c = Some out -> exists id rec, dget id (rp_outbox s') = Some rec /\
     ob_aggregate_id rec = oe_outbound_id out /\
     ob_event_type rec = outbound_event_type (oe_channel out) /\ ob_payload rec = model_dump out) ->
  r = commit_result c ss l -> turn_committed c s s' r.
Proof.
  intros Hk Hb Hq Hk' Hc Hl Ho ->. split; auto.
  exists ss, (commit_snapshot c ss l), l. rewrite <-(sequence_length _ _ Hb). simpl.
  rewrite (sequence_length _ _ Hb). split_and!; done.
Qed.

Lemma lookup_key_insert {V} (m : gmap session_key V) key v : <[key := v]> m !! key = Some v.
Proof. by rewrite lookup_insert_eq. Qed.

Lemma commit_turn_ok c s e cur :
  repo_inv s e -> rp_leases s !! turn_key (tn_lease c) = Some cur ->
  _owns (Some cur) (tn_lease c) = true -> clock_at (ticks e) < sl_expires_at cur ->
  exists r s' e', commit c s e = (Ok r, s', e') /\ turn_committed c s s' r.
Proof.
  intros Hs Hk Hown Hlt. destruct (ri_leases _ _ Hs _ _ Hk) as [_ [ss Hss]].
  destruct (sequence_events_ok (turn_key (tn_lease c)) ss c s (Effects (uuids e) (S (ticks e)))
    (ri_sessions _ _ Hs _ _ Hss)) as (l & Hseq & Hb & Hq).
  unfold commit, bind at 1. unfold gets at 1. rewrite Hk. unfold bind at 1. rewrite Hown. simpl.
  unfold bind at 1, datetime_now at 1. unfold bind at 1, raise_if at 1.
  destruct (Z.leb_spec (sl_expires_at cur) (clock_at (ticks e))); [lia|]. simpl.
  unfold bind at 1, gets at 1. rewrite Hss. unfold bind at 1. rewrite Hseq.
  unfold outbound_record. destruct (tn_outbound c) as [out|] eqn:Hout; simpl.
  all: do 3 eexists; split; [reflexivity|].
  all: eapply (turn_committed_intro c s _ ss l); simpl;
    [done|done|done|apply lookup_key_insert|set_solver|apply lookup_delete_eq| |done].
  all: intros ? ?; simplify_eq.
  eexists _, _. split_and!; [apply dget_dset_eq|done..].
Qed.

(** *** Session-ready turns *)

(** The mailbox side of a lease. *)
Record lease_holds (mb : SessionMailbox) (l : MailboxLease) : Prop := {
  lh_status : mb_status mb = RUNNING;
  lh_sequence : mb_processing_sequence mb = Some (ml_sequence l);
  lh_inbound : mb_processing_inbound_id mb = Some (ml_inbound_id l);
  lh_owner : mb_lease_owner mb = Some (ml_owner_id l);
  lh_epoch : mb_lease_epoch mb = ml_epoch l;
  lh_expires : mb_lease_expires_at mb = Some (ml_expires_at l);
  lh_retry : mb_retry_count mb = ml_retry_count l;
  lh_priority : mb_priority mb = ml_priority l;
  lh_bounds : 1 <= ml_sequence l /\ 1 <= ml_epoch l /\ 1 <= ml_attempt l /\
    0 <= ml_retry_count l /\ 0 <= ml_priority l;
}.

Lemma claim_holds t ss o f n s e :
  wp (claim t ss o f n) (fun r s' _ =>
    match r with
    | Ok (Some l) => ml_tenant_id l = t /\ ml_session_id l = ss /\ ml_owner_id l = o /\
        exists mb, dget (t, ss) (ms_mailboxes s') = Some mb /\ lease_holds mb l
    | _ => True
    end) s e.
Proof.
  unfold claim. wp_steps; try done; bool_prop.
  all: split_and!; try done; eexists; (split; [simpl; apply dget_dset_eq|]); split; done.
Qed.

Lemma claim_session_holds t ss o f g ep a n s e :
  wp (claim_session t ss o f g ep a n) (fun r s' _ =>
    match r with
    | Ok c => sc_execution_lease c = None /\ forall l, sc_lease c = Some l ->
        ml_tenant_id l = t /\ ml_session_id l = ss /\ ml_owner_id l = o /\
        exists mb, dget (t, ss) (ms_mailboxes s') = Some mb /\ lease_holds mb l
    | _ => True
    end) s e.
Proof.
  unfold claim_session, get. wp_steps; try (by split).
  all: eapply wp_mono; [apply claim_holds|].
  all: intros [[l|]|x] s' e' Hl; wp_steps; try done; (split; [done|]); intros; simplify_eq/=; done.
Qed.

(** A turn the repository has handed out: its lease, its mailbox and its
    session agree. *)
Record turn_running (s : Repository) (L : SessionLease) : Prop := {
  tr_lease : rp_leases s !! turn_key L = Some L;
  tr_mailbox : exists mb l, dget (turn_key L) (ms_mailboxes (rp_mailbox_store s)) = Some mb /\
    lease_holds mb l /\ ml_tenant_id l = sl_tenant_id L /\ ml_session_id l = sl_session_id L /\
    ml_inbound_id l = sl_inbound_id L /\ ml_owner_id l = sl_worker_id L /\
    ml_epoch l = sl_fencing_token L /\ ml_expires_at l = sl_expires_at L /\
    ml_attempt l = sl_attempt L;
  tr_session : is_Some (rp_sessions s !! turn_key L);
}.

Lemma execute_claim_running t ss o c l a s e mb :
  ml_tenant_id l = t -> ml_session_id l = ss -> ml_owner_id l = o ->
  dget (t, ss) (ms_mailboxes (rp_mailbox_store s)) = Some mb -> lease_holds mb l ->
  wp (execute_claim t ss o c l a) (fun r s' _ =>
    match r with
    | Ok c' => forall L, sc_execution_lease c' = Some L -> turn_running s' L
    | _ => True
    end) s e.
Proof.
  intros <- <- <- Hk Hh. unfold execute_claim, make_SessionLease. wp_steps; try done.
  all: intros L [= <-]; split; simpl; [apply lookup_key_insert|by eauto 20|].
  all: rewrite ?lookup_insert_eq; eauto.
Qed.

Lemma claim_executable_running t ss o f g a s e :
  wp (claim_executable t ss o f g a) (fun r s' _ =>
    match r with
    | Ok c => forall L, sc_execution_lease c = Some L -> turn_running s' L
    | _ => True
    end) s e.
Proof.
  unfold claim_executable, claim_mailbox. apply wp_bind, wp_zoom.
  eapply wp_mono; [apply claim_session_holds|].
  intros [c|x] t' e' Hl; [|done]. destruct Hl as [Hp Hl]. cbv beta iota.
  assert (Hnone : forall s', forall L, sc_execution_lease c = Some L -> turn_running s' L) by congruence.
  destruct (sc_lease c) as [l|] eqn:Hc; [|by apply wp_ret, Hnone].
  destruct (Hl l eq_refl) as (Ht & Hss & Ho & mb & Hk & Hh).
  destruct (negb (claimed c)); [by apply wp_ret, Hnone|]. apply wp_bind, wp_gets.
  destruct (dget (ml_inbound_id l) _) as [accepted|]; [|by apply wp_ret, Hnone].
  apply wp_bind, wp_gets. destruct (_ || _); [|by eapply execute_claim_running].
  apply wp_bind, wp_zoom, wp_intro. intros [mb'|x] t2 e2 _; [|done]. by wp_steps.
Qed.

Lemma claim_session_ready_running t ss o f g ev a s e :
  wp (claim_session_ready t ss o f g ev a) (fun r s' _ =>
    match r with
    | Ok c => forall L, sc_execution_lease c = Some L -> turn_running s' L
    | _ => True
    end) s e.
Proof.
  unfold claim_session_ready. apply wp_bind, wp_mailbox_get. apply wp_bind.
  apply (wp_mono _ (fun r _ _ => match r with Ok _ => True | Raise _ => False end)).
  { wp_steps; done. }
  intros [before|x] s1 e1 Hb; [|done]. clear Hb. destruct ev; [apply wp_bind, wp_gets|];
    try (case_match; [|by apply wp_ret]); apply wp_bind, wp_gets.
  all: destruct (rp_leases s1 !! _); wp_steps; try done; apply claim_executable_running.
Qed.

(** The guarded mailbox commit of an owner succeeds. *)
Lemma wp_owned_commit l mb h (Q : outcome unit -> Repository -> effects -> Prop) s e :
  store_inv (rp_mailbox_store s) ->
  dget (lease_key l) (ms_mailboxes (rp_mailbox_store s)) = Some mb ->
  Mailbox._owns (Some mb) l (now_value None e) = true ->
  (forall t e', Q (Ok tt) (s <| rp_mailbox_store := t |>) e') ->
  wp (try_except (mailbox (Mailbox.commit l None) ;; ret tt) h) Q s e.
Proof.
  intros Hs Hk Hown HQ. apply wp_try, wp_bind, wp_zoom.
  eapply wp_mono; [by eapply commit_owner|]. intros r t e' (mb' & -> & _). apply wp_ret, HQ.
Qed.

(** A running turn whose lease has not lapsed commits. *)
Lemma commit_running_ok c s e :
  repo_inv s e -> turn_running s (tn_lease c) ->
  clock_at (ticks e) < sl_expires_at (tn_lease c) ->
  exists r s' e', commit_session_ready c s e = (Ok r, s', e') /\ turn_committed c s s' r.
Proof.
  intros Hs [Hl (mb & l & Hk & Hh & Ht & Hss & Hi & Ho & Hep & Hex & Hat) [ss Hsn]] Hlt.
  destruct Hh as [Hst Hsq Hin Hown Hepm Hexm Hrc Hpr (? & ? & ? & ? & ?)].
  cut (wp (commit_session_ready c) (fun r s' _ => exists res, r = Ok res /\ turn_committed c s s' res) s e).
  { unfold wp. destruct (commit_session_ready c s e) as [[r s'] e']. simpl.
    intros (res & -> & ?). eauto. }
  unfold commit_session_ready. apply wp_bind, wp_gets. rewrite Hl. apply wp_bind, wp_raise_if.
  { unfold Repository._owns. rewrite !bool_decide_true, Z.eqb_refl by done. done. }
  intros _. apply wp_bind, wp_mailbox_get. rewrite Hk. apply wp_bind, wp_raise_if.
  { rewrite bool_decide_true by congruence. done. }
  intros _. apply wp_bind. unfold _mailbox_lease, make_MailboxLease. rewrite Hsq.
  apply wp_bind, wp_raise_if.
  { rewrite !bool_decide_true by congruence. rewrite Hepm, Hep, Z.eqb_refl. done. }
  intros _. apply wp_bind, wp_raise_if.
  { intros Hx. exfalso. repeat apply orb_true_iff in Hx as [Hx|Hx]; bool_prop; lia. }
  intros _. apply wp_ret. apply wp_bind, wp_gets. rewrite Hsn.
  destruct (sequence_events_ok (turn_key (tn_lease c)) ss c s e (ri_sessions _ _ Hs _ _ Hsn))
    as (evs & Hseq & Hb & Hq).
  apply wp_bind. unfold wp at 1. rewrite Hseq. simpl.
  set (ml := MkMailboxLease _ _ _ _ _ _ _ _ _ _).
  assert (Hmown : forall e', ticks e' = ticks e -> Mailbox._owns (Some mb) ml (now_value None e') = true).
  { intros e' He. apply owns_spec. simpl. rewrite Hst, Hsq, Hin, Hown, Hexm, He.
    split_and!; try congruence. eexists. split; [done|]. congruence. }
  unfold outbound_record, outbox_size.
  repeat lazymatch goal with |- wp (try_except _ _) _ _ _ => fail | _ => wp_step end.
  all: eapply (wp_owned_commit ml mb); [apply Hs|exact Hk|by apply Hmown|intros].
  all: unfold _sync_new_mailbox_outbox; wp_steps; eexists; (split; [done|]).
  all: eapply (turn_committed_intro c s _ ss evs); simpl;
    [done|done|done|apply lookup_key_insert|set_solver|apply lookup_delete_eq| |done].
  all: intros ? ?; simplify_eq.
  eexists _, _. split_and!; [apply dget_dset_eq|done..].
Qed.

Definition unchanged_on_raise {A} (m : M Repository A) (s : Repository) (e : effects) : Prop :=
  wp m (fun r s' _ => match r with Raise _ => s' = s | Ok _ => True end) s e.

Lemma commit_session_ready_atomic c s e :
  repo_inv s e -> unchanged_on_raise (commit_session_ready c) s e.
Proof.
  intros Hs. unfold unchanged_on_raise, commit_session_ready. apply wp_bind, wp_gets, wp_bind.
  apply wp_raise_if; intros _; [done|]. apply wp_bind, wp_mailbox_get.
  destruct (dget _ _) as [mb|] eqn:Hk; [|by apply wp_raise].
  unfold _mailbox_lease, make_MailboxLease. wp_steps; try done.
  eapply wp_mono; [apply sequence_events_spec|]. intros [l|x] s' e' (-> & -> & _); [|done].
  unfold outbound_record, outbox_size.
  repeat lazymatch goal with |- wp (try_except _ _) _ _ _ => fail | _ => wp_step end.
  all: eapply wp_guarded_commit; [apply Hs|exact Hk|done|intros|intros; done].
  all: unfold _sync_new_mailbox_outbox; wp_steps; done.
Qed.

Lemma commit_atomic c s e : unchanged_on_raise (commit c) s e.
Proof.
  unfold unchanged_on_raise, commit. wp_steps; try done.
  eapply wp_mono; [apply sequence_events_spec|]. intros [l|x] s' e' (-> & -> & _); [|done].
  unfold outbound_record. wp_steps; done.
Qed.
End turns.

(** ** The outbox *)

Section outbox.
Context `{E : Env}.

(** What one pass of [claim_outbox] has done. *)
Record outbox_claimed (ty owner : string) (now expires : Z) (s s' : Repository)
    (new : list OutboxRecord) : Prop := {
  oc_nodup : NoDup (ob_outbox_id <$> new);
  oc_record : forall r, r ∈ new -> exists old,
    dget (ob_outbox_id r) (rp_outbox s) = Some old /\ r = old <| ob_attempts := ob_attempts old + 1 |> /\
    ob_event_type old = ty /\
    after (snd <$> rp_outbox_claims s !! ob_outbox_id r) now = false /\
    rp_outbox_claims s' !! ob_outbox_id r = Some (owner, expires) /\
    dget (ob_outbox_id r) (rp_outbox s') = Some r;
  oc_other : forall id, id ∉ ob_outbox_id <$> new ->
    rp_outbox_claims s' !! id = rp_outbox_claims s !! id /\
    dget id (rp_outbox s') = dget id (rp_outbox s);
}.

Lemma outbox_claimed_nil ty o now ex s : outbox_claimed ty o now ex s s [].
Proof. split; [constructor| |done]. intros r Hr. by apply elem_of_nil in Hr. Qed.

(** One record is claimed, then the rest of the pass runs. *)
Lemma outbox_claimed_cons ty o now ex s s' old new :
  dget (ob_outbox_id old) (rp_outbox s) = Some old -> ob_event_type old = ty ->
  after (snd <$> rp_outbox_claims s !! ob_outbox_id old) now = false ->
  ob_outbox_id old ∉ ob_outbox_id <$> new ->
  let r := old <| ob_attempts := ob_attempts old + 1 |> in
  let s1 := s
    <| rp_outbox_claims := <[ob_outbox_id old := (o, ex)]> (rp_outbox_claims s) |>
    <| rp_outbox := dset (ob_outbox_id old) r (rp_outbox s) |> in
  outbox_claimed ty o now ex s1 s' new -> outbox_claimed ty o now ex s s' (r :: new).
Proof.
  intros Hget Hty Haf Hni r s1 [Hnd Hrec Hoth]. split.
  - rewrite fmap_cons. constructor; [exact Hni|done].
  - intros x Hx. apply elem_of_cons in Hx as [->|Hx].
    + destruct (Hoth (ob_outbox_id old) Hni) as [Hc Hd]. exists old. simpl in *.
      rewrite Hc, Hd, lookup_insert_eq, dget_dset_eq. split_and!; done.
    + destruct (Hrec x Hx) as (old' & Hg & Hxo & Hty' & Haf' & Hc & Hd).
      assert (ob_outbox_id old <> ob_outbox_id x).
      { intros Heq. apply Hni. rewrite Heq. apply list_elem_of_fmap. by exists x. }
      exists old'. simpl in *. rewrite dget_dset_ne in Hg by done. rewrite lookup_insert_ne in Haf' by done.
      split_and!; done.
  - intros id Hid. rewrite fmap_cons, not_elem_of_cons in Hid. destruct Hid as [Hne Hid].
    destruct (Hoth id Hid) as [Hc Hd]. simpl in *. rewrite Hc, Hd, lookup_insert_ne, dget_dset_ne; done.
Qed.

Lemma claim_outbox_loop_spec ty o lim now ex rs acc s e :
  NoDup (ob_outbox_id <$> rs) ->
  (forall r, r ∈ rs -> dget (ob_outbox_id r) (rp_outbox s) = Some r) ->
  Z.of_nat (length acc) < Z.max 1 lim ->
  wp (claim_outbox_loop ty o lim now ex rs acc) (fun r s' e' => exists new,
    r = Ok (acc ++ new) /\ e' = e /\ Z.of_nat (length (acc ++ new)) <= Z.max 1 lim /\
    outbox_claimed ty o now ex s s' new /\ (forall x, x ∈ ob_outbox_id <$> new -> x ∈ ob_outbox_id <$> rs))
    s e.
Proof.
  revert acc s. induction rs as [|r rs IH]; intros acc s Hnd Hin Hlen; simpl.
  - apply wp_ret. exists []. rewrite app_nil_r. split_and!; [done..|lia|apply outbox_claimed_nil|done].
  - rewrite fmap_cons in Hnd. apply NoDup_cons in Hnd as [Hni Hnd].
    assert (Hskip : wp (claim_outbox_loop ty o lim now ex rs acc) (fun r' s' e' => exists new,
      r' = Ok (acc ++ new) /\ e' = e /\ Z.of_nat (length (acc ++ new)) <= Z.max 1 lim /\
      outbox_claimed ty o now ex s s' new /\
      (forall x, x ∈ ob_outbox_id <$> new -> x ∈ ob_outbox_id r :: (ob_outbox_id <$> rs))) s e).
    { eapply wp_mono; [apply IH; [done|set_solver|done]|]. simpl.
      intros r' s' e' (new & ? & ? & ? & ? & Hsub). exists new. split_and!; [done..|].
      intros x Hx. right. auto. }
    case_match; [exact Hskip|]. bool_prop. apply wp_bind, wp_gets.
    destruct (after _ now) eqn:Haf; [exact Hskip|]. clear Hskip. apply wp_bind, wp_modify.
    assert (Hget : dget (ob_outbox_id r) (rp_outbox s) = Some r) by (apply Hin; left).
    destruct (Z.leb_spec lim (Z.of_nat (length (acc ++ [r <| ob_attempts := ob_attempts r + 1 |>])))) as [Hl|Hl];
      rewrite length_app in Hl; simpl in Hl.
    + apply wp_ret. eexists [_]. split_and!; [done|done|rewrite length_app; simpl; lia| |].
      * apply outbox_claimed_cons; [done..|apply not_elem_of_nil|apply outbox_claimed_nil].
      * simpl. set_solver.
    + eapply wp_mono; [apply IH; [done| |]|].
      * intros r' Hr'. simpl. rewrite dget_dset_ne; [apply Hin; by right|].
        intros Heq. apply Hni. rewrite Heq. apply list_elem_of_fmap. by exists r'.
      * rewrite length_app. simpl. lia.
      * simpl. intros r' s' e' (new & -> & -> & Hle & Hcl & Hsub). eexists (_ :: new).
        rewrite <-app_assoc in *. simpl in *. split_and!; [done|done|done| |].
        -- apply outbox_claimed_cons; [done..| |done]. intros Hx. by apply Hni, Hsub.
        -- set_solver.
Qed.
End outbox.

Lemma outbox_values outbox : outbox_ok outbox ->
  ob_outbox_id <$> dvalues outbox = dkeys outbox /\
  forall r, r ∈ dvalues outbox -> dget (ob_outbox_id r) outbox = Some r.
Proof.
  intros [Hnd Hid].
  assert (Hall : forall k r, (k, r) ∈ outbox -> ob_outbox_id r = k /\ dget k outbox = Some r).
  { intros k r Hin. apply (In_dget _ _ _ Hnd) in Hin as Hg. auto. }
  split.
  - unfold dvalues, dkeys. change (map ob_outbox_id (map snd outbox) = map fst outbox).
    rewrite map_map. apply map_ext_in. intros [k r] Hin. simpl.
    by apply Hall, list_elem_of_In.
  - intros r Hr. unfold dvalues in Hr. apply list_elem_of_fmap in Hr as ([k r'] & -> & Hin).
    destruct (Hall k r' Hin) as [<- Hg]. done.
Qed.

(** A finished attempt has the status of its receipt. *)
Lemma finish_delivery_status `{Env} rec o n rc d s e :
  wp (finish_delivery rec o n rc d) (fun r s' _ => r = Ok tt ->
    rp_delivery_attempts s' !! (ob_tenant_id rec, ob_aggregate_id rec)
    = Some (o, n, DeliveryStatus_value (dr_status rc))) s e.
Proof.
  unfold finish_delivery, drop_outbox. wp_steps; try done; intros _; simpl; by rewrite lookup_insert_eq.
Qed.

Lemma claim_outbox_claims `{Env} ty o limit f s e :
  repo_inv s e ->
  exists rs s', claim_outbox ty o limit f s e = (Ok rs, s', Effects (uuids e) (S (ticks e))) /\
    Z.of_nat (length rs) <= Z.max 1 limit /\
    outbox_claimed ty o (clock_at (ticks e)) (clock_at (ticks e) + f) s s' rs.
Proof.
  intros Hs. destruct (outbox_values _ (ri_outbox _ _ Hs)) as [Hids Hget].
  pose proof (claim_outbox_loop_spec ty o limit (clock_at (ticks e)) (clock_at (ticks e) + f)
    (dvalues (rp_outbox s)) [] s (Effects (uuids e) (S (ticks e)))) as Hw.
  rewrite Hids in Hw. specialize (Hw (proj1 (ri_outbox _ _ Hs)) Hget ltac:(simpl; lia)).
  unfold claim_outbox, bind, datetime_now, gets. unfold wp in Hw.
  destruct (claim_outbox_loop _ _ _ _ _ _ _ s _) as [[r s'] e']. simpl in Hw.
  destruct Hw as (new & -> & -> & Hle & Hcl & _). eauto 10.
Qed.

(** A begun attempt is in the ledger, numbered after the previous one. *)
Lemma begin_delivery_number rec o s e :
  wp (begin_delivery rec o) (fun r s' _ => forall a, r = Ok a ->
    rp_delivery_attempts s' !! (ob_tenant_id rec, ob_aggregate_id rec)
      = Some (o, da_attempt_number a, "sending"%string) /\
    forall o' n' st', rp_delivery_attempts s !! (ob_tenant_id rec, ob_aggregate_id rec)
      = Some (o', n', st') -> da_attempt_number a = n' + 1) s e.
Proof.
  unfold begin_delivery, require_claim. wp_steps; try done; intros a [= <-]; simpl.
  all: rewrite lookup_insert_eq; split; [done|]; intros; simplify_eq; done || congruence.
Qed.

(** ** The v1 ordering test *)

Section ordering.
Context `{E : Env}.

Lemma earlier_pending_spec a n items s e :
  wp (earlier_pending a n items) (fun r s' e' => s' = s /\ e' = e /\
    match r with
    | Ok false => forall b m, b ∈ items ->
        tc_tenant_id (acc_context b) = tc_tenant_id (acc_context a) ->
        tc_session_id (acc_context b) = tc_session_id (acc_context a) ->
        rp_acceptance_sequence s !! acc_inbound_id b = Some m -> m < n ->
        (tc_tenant_id (acc_context b), acc_inbound_id b) ∈ rp_committed_inbound s
    | Ok true => True
    | Raise x => x = KeyError
    end) s e.
Proof.
  induction items as [|b items IH]; simpl.
  - apply wp_ret. split_and!; [done..|]. intros b m Hb. by apply elem_of_nil in Hb.
  - wp_steps; bool_prop; try done.
    all: eapply wp_mono; [apply IH|]; intros [[|]|x] s' e' (-> & -> & Hr); split_and!; try done.
    all: intros b' m' Hb' Ht Hss Hm Hlt; apply elem_of_cons in Hb' as [->|Hb']; [|by eapply Hr].
    + match goal with Hx : _ && _ = false |- _ => apply andb_false_iff in Hx as [Hx|Hx] end;
        bool_prop; simplify_eq; [lia|done].
    + match goal with Hx : _ && _ = false |- _ => apply andb_false_iff in Hx as [Hx|Hx] end;
        bool_prop; done.
Qed.
End ordering.

(** ** The claims *)

Section claims.
Context `{E : Env} `{!UniqueIds E} `{EnvelopeDump}.

(** C11: In every state reachable by repository calls the repository is well
    formed: acceptances, their index and their order agree; every session's
    events are numbered 1, 2, ... without gaps; every lease is on a session
    that exists; outbox keys are record ids; and the mailbox store satisfies
    its own invariant. *)
Theorem repository_reachable_wf s e : rreachable s e -> repo_inv s e.
Proof. apply rreachable_inv. Qed.

(** A provider message is accepted once: after an acceptance, whatever
    calls follow, accepting the same (tenant, channel, account, message id)
    again through either entry point returns the original acceptance marked as
    a duplicate and changes nothing. *)
Theorem accept_inbound_once ctx env h a s e s1 e1 s2 e2 :
  rreachable s e -> accept_inbound ctx env h s e = (Ok a, s1, e1) ->
  rtc rstep (s1, e1) (s2, e2) ->
  forall ctx' env' h' p r, acceptance_key_of ctx' env' = acceptance_key_of ctx env ->
    exists orig, acc_inbound_id orig = acc_inbound_id a /\
      accept_inbound ctx' env' h' s2 e2 = (Ok (orig <| acc_duplicate := true |>), s2, e2) /\
      accept_inbound_v2 ctx' env' h' p r s2 e2 = (Ok (orig <| acc_duplicate := true |>), s2, e2).
Proof.
  intros Hr Hacc Hsteps ctx' env' h' p r Hkey. apply rreachable_inv in Hr as Hs.
  pose proof (accept_inbound_frame ctx env h s e Hs) as Hg. unfold wp in Hg. rewrite Hacc in Hg.
  destruct Hg as [Hs1 _]. destruct (rsteps_good _ _ Hsteps Hs1) as [_ Hle].
  assert (exists orig, rp_acceptances s1 !! acceptance_key_of ctx env = Some orig /\
    acc_inbound_id orig = acc_inbound_id a) as (orig & Hget & Hid).
  { unfold accept_inbound, bind, gets in Hacc.
    destruct (rp_acceptances s !! acceptance_key_of ctx env) as [x|] eqn:Hx.
    - unfold ret in Hacc. simplify_eq. eauto.
    - unfold register_acceptance, bind in Hacc. simpl in Hacc. unfold ret in Hacc.
      injection Hacc as <- <- <-. simpl. rewrite lookup_insert_eq. eauto. }
  pose proof (lookup_weaken _ _ _ _ Hget (rl_acceptances _ _ _ _ Hle)) as Hget2.
  exists orig. split; [done|]. unfold accept_inbound, accept_inbound_v2, bind, gets.
  rewrite Hkey. simpl in Hget2. rewrite Hget2. done.
Qed.

(** A v1 commit is fenced and atomic: it succeeds exactly when the caller
    holds the session's lease and the lease has not expired; then the events
    are appended with the next sequence numbers, the version grows by one, the
    message is marked committed, the reply is in the outbox and the lease is
    gone.  Otherwise it raises and the repository is unchanged. *)
Theorem commit_fenced_atomic c s e :
  rreachable s e ->
  match rp_leases s !! turn_key (tn_lease c) with
  | Some cur =>
    if Repository._owns (Some cur) (tn_lease c) && (clock_at (ticks e) <? sl_expires_at cur)
    then exists r s' e', commit c s e = (Ok r, s', e') /\ turn_committed c s s' r
    else exists e', commit c s e =
      (Raise (FencingConflict "stale worker cannot commit this session"), s, e')
  | None => commit c s e = (Raise (FencingConflict "stale worker cannot commit this session"), s, e)
  end.
Proof.
  intros Hr. apply rreachable_inv in Hr as Hs.
  destruct (rp_leases s !! _) as [cur|] eqn:Hk; [|unfold commit, bind, gets; by rewrite Hk].
  destruct (Repository._owns (Some cur) (tn_lease c)) eqn:Hown; cbn [andb].
  - destruct (Z.ltb_spec (clock_at (ticks e)) (sl_expires_at cur)) as [Hlt|Hge];
      [by eapply commit_turn_ok|].
    unfold commit, bind at 1, gets at 1. rewrite Hk. unfold bind at 1. rewrite Hown. simpl.
    unfold bind at 1, datetime_now, bind at 1, raise_if at 1.
    destruct (Z.leb_spec (sl_expires_at cur) (clock_at (ticks e))); [|lia]. eauto.
  - unfold commit, bind at 1, gets at 1. rewrite Hk. unfold bind at 1. rewrite Hown. simpl. eauto.
Qed.

(** A session-ready claim that hands out an executable turn is always
    committable: while its lease has not lapsed, [commit_session_ready] of that
    turn succeeds, resolves the message in the mailbox and records the turn. *)
Theorem claimed_turn_commits t ss o f g ev a cl L c s e s1 e1 :
  rreachable s e -> claim_session_ready t ss o f g ev a s e = (Ok cl, s1, e1) ->
  sc_execution_lease cl = Some L -> tn_lease c = L -> clock_at (ticks e1) < sl_expires_at L ->
  exists r s2 e2, commit_session_ready c s1 e1 = (Ok r, s2, e2) /\ turn_committed c s1 s2 r.
Proof.
  intros Hr Hcl HL Hc Hlt. apply rreachable_inv in Hr as Hs.
  pose proof (claim_session_ready_frame t ss o f g ev a s e Hs) as Hg. unfold wp in Hg.
  rewrite Hcl in Hg. destruct Hg as [Hs1 _].
  pose proof (wp_run _ _ _ _ _ _ _ (claim_session_ready_running t ss o f g ev a s e) Hcl) as Hrun.
  simpl in Hrun. specialize (Hrun L HL). subst L. by apply commit_running_ok.
Qed.

(** A commit that raises, for whatever reason, leaves the whole repository
    as it was, the mailbox store and its wake-ups included. *)
Theorem failed_commit_changes_nothing c x s e s' e' :
  rreachable s e ->
  commit_session_ready c s e = (Raise x, s', e') \/ commit c s e = (Raise x, s', e') -> s' = s.
Proof.
  intros Hr [Hrun|Hrun]; apply rreachable_inv in Hr as Hs.
  - pose proof (commit_session_ready_atomic c s e Hs) as Hw. unfold unchanged_on_raise, wp in Hw.
    by rewrite Hrun in Hw.
  - pose proof (commit_atomic c s e) as Hw. unfold unchanged_on_raise, wp in Hw.
    by rewrite Hrun in Hw.
Qed.

(** One executor per session across both protocols: while the session has
    an unexpired lease, a v1 [acquire] grants nothing, a session-ready claim
    answers RUNNING or STALE without an executable turn, and neither changes
    the repository. *)
Theorem session_lease_exclusive t ss cur s e :
  rreachable s e -> rp_leases s !! (t, ss) = Some cur ->
  clock_at (ticks e) < sl_expires_at cur -> clock_at (S (ticks e)) < sl_expires_at cur ->
  (forall a w f, tc_tenant_id (acc_context a) = t -> tc_session_id (acc_context a) = ss ->
     exists r e', acquire a w f s e = (r, s, e') /\ (r = Ok None \/ r = Raise KeyError)) /\
  (forall o f g ev a, exists c e', claim_session_ready t ss o f g ev a s e = (Ok c, s, e') /\
     sc_execution_lease c = None /\ (sc_status c = CLAIM_RUNNING \/ sc_status c = STALE)).
Proof.
  intros Hr Hk Hlt1 Hlt2. split.
  - intros a w f Ht Hss.
    cut (wp (acquire a w f) (fun r s' _ => s' = s /\ (r = Ok None \/ r = Raise KeyError)) s e).
    { unfold wp. destruct (acquire a w f s e) as [[r s'] e']. simpl. intros [-> ?]. eauto. }
    unfold acquire. apply wp_bind, wp_gets. destruct (bool_decide _); [apply wp_ret; auto|].
    apply wp_bind, wp_mailbox_get. rewrite Ht, Hss.
    destruct (match dget _ _ with Some _ => _ | None => _ end); [apply wp_ret; auto|].
    wp_steps; auto.
    all: eapply wp_mono; [apply earlier_pending_spec|]; intros [[|]|x] s' e' (-> & -> & Hx);
      subst; auto; [apply wp_ret; auto|].
    all: apply wp_bind, wp_datetime_now, wp_bind, wp_gets; rewrite Hk; simpl;
      match goal with |- context [?x <? ?y] => destruct (Z.ltb_spec x y); [|lia] end;
      apply wp_ret; auto.
  - intros o f g ev a.
    cut (wp (claim_session_ready t ss o f g ev a) (fun r s' _ => s' = s /\ exists c, r = Ok c /\
      sc_execution_lease c = None /\ (sc_status c = CLAIM_RUNNING \/ sc_status c = STALE)) s e).
    { unfold wp. destruct (claim_session_ready t ss o f g ev a s e) as [[r s'] e']. simpl.
      intros (-> & c & -> & ?). eauto. }
    unfold claim_session_ready. apply wp_bind, wp_mailbox_get, wp_bind.
    destruct (dget _ _) as [mb|]; wp_steps; bool_prop; simplify_eq; simpl in *.
    all: first [ exfalso; first [congruence | lia]
               | split; [done|]; eexists; split_and!; [reflexivity|done|simpl; auto] ].
Qed.

(** v1 messages are processed in acceptance order: a lease is granted only
    for a message that is not committed, whose earlier messages of the session
    are all committed, and whose session has no pending mailbox message. *)
Theorem acquire_in_order a w f l s e s' e' :
  rreachable s e -> acquire a w f s e = (Ok (Some l), s', e') ->
  ((tc_tenant_id (acc_context a), acc_inbound_id a) ∉ rp_committed_inbound s) /\
  (forall b m n, dget (acc_inbound_id b) (rp_acceptances_by_id s) = Some b ->
     tc_tenant_id (acc_context b) = tc_tenant_id (acc_context a) ->
     tc_session_id (acc_context b) = tc_session_id (acc_context a) ->
     rp_acceptance_sequence s !! acc_inbound_id b = Some m ->
     rp_acceptance_sequence s !! acc_inbound_id a = Some n -> m < n ->
     (tc_tenant_id (acc_context b), acc_inbound_id b) ∈ rp_committed_inbound s) /\
  (forall mb, dget (tc_tenant_id (acc_context a), tc_session_id (acc_context a))
     (ms_mailboxes (rp_mailbox_store s)) = Some mb ->
     mb_accepted_sequence mb <= mb_resolved_sequence mb).
Proof.
  intros _ Hrun. revert Hrun.
  match goal with |- _ -> ?P => cut (wp (acquire a w f) (fun r _ _ => r = Ok (Some l) -> P) s e) end.
  { intros Hw Hrun. by apply (wp_run _ _ _ _ _ _ _ Hw Hrun). }
  unfold acquire. apply wp_bind, wp_gets. destruct (bool_decide _) eqn:Hc; [by apply wp_ret|].
  apply wp_bind, wp_mailbox_get.
  destruct (match dget _ _ with Some _ => _ | None => _ end) eqn:Hpend; [by apply wp_ret|].
  assert (Hmb : forall mb, dget (tc_tenant_id (acc_context a), tc_session_id (acc_context a))
    (ms_mailboxes (rp_mailbox_store s)) = Some mb -> mb_accepted_sequence mb <= mb_resolved_sequence mb).
  { intros mb Hk. rewrite Hk in Hpend. by bool_prop. }
  clear Hpend. bool_prop. wp_steps; try done.
  all: eapply wp_mono; [apply earlier_pending_spec|]; intros [[|]|x] s1 e1 (-> & -> & Hx); try done.
  all: apply wp_intro; intros r s2 e2 _ _; split_and!; [done| |done].
  all: intros b m n Hb Ht Hss Hm Hn Hlt; simplify_eq.
  all: eapply Hx; try done; apply dget_Some_In in Hb; unfold dvalues.
  all: apply list_elem_of_fmap; by exists (acc_inbound_id b, b).
Qed.

(** Outbox claims are exclusive and bounded: claiming returns at most
    [max 1 limit] distinct records of the requested type, none of which was
    under an unexpired claim, each with one more attempt and now held by the
    caller until the lease ends; every other record and claim is untouched. *)
Theorem claim_outbox_exclusive ty o limit f s e :
  rreachable s e ->
  exists rs s', claim_outbox ty o limit f s e = (Ok rs, s', Effects (uuids e) (S (ticks e))) /\
    Z.of_nat (length rs) <= Z.max 1 limit /\
    outbox_claimed ty o (clock_at (ticks e)) (clock_at (ticks e) + f) s s' rs.
Proof. intros Hr. by apply claim_outbox_claims, rreachable_inv. Qed.

(** A message is never sent again after a final outcome: once a delivery
    attempt has finished as delivered or ambiguous, then after any further
    calls no dispatcher can begin another attempt for that outbound message. *)
Theorem no_resend_after_final rec o n rc d s e s1 e1 s2 e2 :
  rreachable s e -> finish_delivery rec o n rc d s e = (Ok tt, s1, e1) ->
  dr_status rc = DELIVERED \/ dr_status rc = AMBIGUOUS -> rtc rstep (s1, e1) (s2, e2) ->
  forall rec' o', ob_tenant_id rec' = ob_tenant_id rec -> ob_aggregate_id rec' = ob_aggregate_id rec ->
    exists msg, begin_delivery rec' o' s2 e2 = (Raise (FencingConflict msg), s2, e2).
Proof.
  intros Hr Hfin Hst Hsteps rec' o' Ht Ha. apply rreachable_inv in Hr as Hs.
  pose proof (finish_delivery_frame rec o n rc d s e Hs) as Hg. unfold wp in Hg.
  rewrite Hfin in Hg. destruct Hg as [Hs1 _]. destruct (rsteps_good _ _ Hsteps Hs1) as [_ Hle].
  pose proof (wp_run _ _ _ _ _ _ _ (finish_delivery_status rec o n rc d s e) Hfin eq_refl) as Hat.
  destruct (rl_attempts _ _ _ _ Hle _ _ _ _ Hat) as (o2 & n2 & st2 & Hat2 & _ & Hterm).
  assert (terminal (DeliveryStatus_value (dr_status rc))) as Hte
    by (destruct Hst as [-> | ->]; [by left|by right]).
  specialize (Hterm Hte). injection Hterm as -> -> ->. simpl in Hat2.
  unfold begin_delivery, require_claim, bind, gets, raise_if. destruct (claim_held _ _ _); simpl; [|eauto].
  rewrite Ht, Ha, Hat2. destruct Hst as [Hd|Hd]; rewrite Hd; simpl; eauto.
Qed.

(** Attempt numbers fence late results: when a second attempt has begun
    for an outbound message, its number is greater than the first one's, and the
    result of the first attempt can no longer be recorded by anybody. *)
Theorem late_delivery_result_rejected rec1 rec2 o1 o2 a1 a2 s e s1 e1 s2 e2 s3 e3 :
  rreachable s e -> begin_delivery rec1 o1 s e = (Ok a1, s1, e1) ->
  rtc rstep (s1, e1) (s2, e2) -> begin_delivery rec2 o2 s2 e2 = (Ok a2, s3, e3) ->
  ob_tenant_id rec2 = ob_tenant_id rec1 -> ob_aggregate_id rec2 = ob_aggregate_id rec1 ->
  da_attempt_number a1 < da_attempt_number a2 /\
  forall o rc d, dr_outbound_id rc = ob_aggregate_id rec1 ->
    finish_delivery rec1 o (da_attempt_number a1) rc d s3 e3
    = (Raise (FencingConflict "delivery attempt is no longer current"), s3, e3).
Proof.
  intros Hr Hb1 Hsteps Hb2 Ht Ha. apply rreachable_inv in Hr as Hs.
  pose proof (begin_delivery_frame rec1 o1 s e Hs) as Hg. unfold wp in Hg. rewrite Hb1 in Hg.
  destruct Hg as [Hs1 _]. destruct (rsteps_good _ _ Hsteps Hs1) as [_ Hle]. simpl in *.
  destruct (wp_run _ _ _ _ _ _ _ (begin_delivery_number rec1 o1 s e) Hb1 _ eq_refl) as [Hk1 _].
  destruct (rl_attempts _ _ _ _ Hle _ _ _ _ Hk1) as (o' & n' & st' & Hk2 & Hn & _).
  destruct (wp_run _ _ _ _ _ _ _ (begin_delivery_number rec2 o2 s2 e2) Hb2 _ eq_refl) as [Hk3 Hnum].
  rewrite Ht, Ha in *. specialize (Hnum _ _ _ Hk2). split; [lia|]. intros o rc d Hrc.
  unfold finish_delivery, bind, raise_if, gets. rewrite bool_decide_true by done. simpl.
  unfold attempt_sending. rewrite Hk3. destruct (Z.eqb_spec (da_attempt_number a2) (da_attempt_number a1)); [lia|].
  simpl. by rewrite andb_false_r.
Qed.

(** Accepting with an invalid priority is not atomic: the call raises,
    but the acceptance it had already registered stays, so the provider's
    redelivery is answered as a duplicate although the message is in no
    mailbox and no wake-up exists for it. *)
Theorem accept_inbound_v2_leaks_acceptance ctx env h h' p s e :
  rreachable s e -> rp_acceptances s !! acceptance_key_of ctx env = None -> p < 0 ->
  str_empty (tc_tenant_id ctx) = false -> str_empty (tc_session_id ctx) = false ->
  str_empty (uuid_at (uuids e)) = false ->
  exists s1 e1 a, accept_inbound_v2 ctx env h p None s e
      = (Raise (ValueError "mailbox priority must be non-negative"), s1, e1) /\
    rp_mailbox_store s1 = rp_mailbox_store s /\ rp_outbox s1 = rp_outbox s /\
    accept_inbound_v2 ctx env h' 0 None s1 e1 = (Ok a, s1, e1) /\ acc_duplicate a = true.
Proof.
  intros _ Hnew Hp Ht Hss Hid.
  cut (wp (accept_inbound_v2 ctx env h p None) (fun r s1 e1 =>
    r = Raise (ValueError "mailbox priority must be non-negative") /\
    rp_mailbox_store s1 = rp_mailbox_store s /\ rp_outbox s1 = rp_outbox s /\
    exists a, rp_acceptances s1 !! acceptance_key_of ctx env = Some a) s e).
  { unfold wp. destruct (accept_inbound_v2 ctx env h p None s e) as [[r s1] e1]. simpl.
    intros (-> & ? & ? & a & Hget). exists s1, e1, (a <| acc_duplicate := true |>).
    split_and!; [done..| |done]. unfold accept_inbound_v2, bind, gets. by rewrite Hget. }
  unfold accept_inbound_v2, register_acceptance. apply wp_bind, wp_gets. rewrite Hnew. wp_steps.
  unfold outbox_size. wp_steps. apply wp_mailbox_get, wp_bind.
  apply (wp_mono _ (fun r s' _ => exists x, r = Ok x /\ s' = s
    <| rp_acceptances := <[acceptance_key_of ctx env :=
         MkAcceptance (uuid_at (uuids e)) ctx env (clock_at (ticks e)) false]> (rp_acceptances s) |>
    <| rp_acceptances_by_id := dset (uuid_at (uuids e))
         (MkAcceptance (uuid_at (uuids e)) ctx env (clock_at (ticks e)) false) (rp_acceptances_by_id s) |>
    <| rp_acceptance_sequence := <[uuid_at (uuids e) := rp_next_acceptance_sequence s]>
         (rp_acceptance_sequence s) |>
    <| rp_next_acceptance_sequence := rp_next_acceptance_sequence s + 1 |>)).
  { unfold effective_retry_at. wp_steps; eauto. }
  intros r s' e' (x & -> & ->). apply wp_bind, wp_zoom. unfold accept. wp_steps; bool_prop; try lia.
  - exfalso. simpl in *. rewrite Ht, Hss, Hid in *. done.
  - simpl. split_and!; [done..|]. rewrite lookup_insert_eq. eauto.
Qed.
End claims.

(** ** Concrete runs *)

Section demo.
#[local] Existing Instance demo_env.
#[local] Instance demo_dump : EnvelopeDump := fun o => {["outbound_id"%string := PStr (oe_outbound_id o)]}.

Definition demo_context : TenantContext :=
  MkTenantContext "acme" "app" 1 "binding" "p1" "s1" "req" "trace".
Definition demo_envelope (id : string) : InboundEnvelope :=
  MkInboundEnvelope FEISHU "account" id "user" DIRECT None TEXT (Some "hello"%string) [] None 0 ∅.

Definition rdemo (cs : list rcall) : Repository * effects := run_rcalls cs (empty_repository, fx0).

Lemma rdemo_reachable cs : rreachable (rdemo cs).1 (rdemo cs).2.
Proof. exists fx0. rewrite <-surjective_pairing. apply run_rcalls_steps. Qed.

Lemma rdemo_steps cs c : rtc rstep (c.1, c.2) ((run_rcalls cs c).1, (run_rcalls cs c).2).
Proof. rewrite <-!surjective_pairing. apply run_rcalls_steps. Qed.

Abbreviation r_accepted := (rdemo [RAcceptInbound demo_context (demo_envelope "m1") ∅]).

Lemma repository_reachable_wf_witness : repo_inv r_accepted.1 r_accepted.2.
Proof. apply (repository_reachable_wf r_accepted.1 r_accepted.2). apply rdemo_reachable. Defined.

Lemma accept_inbound_once_witness : exists orig s2 e2,
  accept_inbound demo_context (demo_envelope "m1") ∅ s2 e2
    = (Ok (orig <| acc_duplicate := true |>), s2, e2).
Proof.
  destruct (ok_with_run (fun _ _ _ => true)
    (accept_inbound demo_context (demo_envelope "m1") ∅ empty_repository fx0))
    as (a & s1 & e1 & Hrun & _); [vm_compute; reflexivity|].
  destruct (accept_inbound_once demo_context (demo_envelope "m1") ∅ a empty_repository fx0 s1 e1 s1 e1)
    with (ctx' := demo_context) (env' := demo_envelope "m1") (h' := (∅ : gmap string string))
      (p := 0) (r := None (A := Z)) as (orig & _ & Hacc & _).
  - exists fx0. apply rtc_refl.
  - exact Hrun.
  - apply rtc_refl.
  - reflexivity.
  - exists orig, s1, e1. exact Hacc.
Defined.

(** The session after one v1 message has been acquired. *)
Definition demo_acceptance (id ext : string) : Acceptance :=
  MkAcceptance id demo_context (demo_envelope ext) 0 false.
Abbreviation r_acquired := (rdemo [RAcceptInbound demo_context (demo_envelope "m1") ∅;
  RAcquire (demo_acceptance "id-0" "m1") "w1" (seconds 60)]).

Definition demo_event : StoredEvent := MkStoredEvent "e1" "agent" (QArith_base.inject_Z 0) ∅ ∅.
Definition demo_session_lease (turn : string) (token expires : Z) : SessionLease :=
  MkSessionLease "acme" "s1" turn "id-0" "w1" token expires 1 (new_snapshot "acme" "app" "s1" "p1") true.
Definition demo_outbound : OutboundEnvelope :=
  MkOutboundEnvelope "out-1" "acme" "binding" FEISHU "user" "s1" TEXT (Some "hi"%string) [] None ∅.
Definition demo_turn (turn : string) (token expires : Z) : TurnCommit :=
  MkTurnCommit demo_context (demo_session_lease turn token expires) ∅ [demo_event] (Some demo_outbound).

Lemma commit_fenced_atomic_witness : exists r s' e',
  commit (demo_turn "id-2" 1 0) r_acquired.1 r_acquired.2 = (Ok r, s', e') /\
  turn_committed (demo_turn "id-2" 1 0) r_acquired.1 s' r.
Proof.
  pose proof (commit_fenced_atomic (demo_turn "id-2" 1 0) r_acquired.1 r_acquired.2
    (rdemo_reachable _)) as Hc.
  assert (Hb : match rp_leases r_acquired.1 !! turn_key (tn_lease (demo_turn "id-2" 1 0)) with
    | Some cur => Repository._owns (Some cur) (tn_lease (demo_turn "id-2" 1 0))
                  && (clock_at (ticks r_acquired.2) <? sl_expires_at cur)
    | None => false end = true) by (vm_compute; reflexivity).
  destruct (rp_leases _ !! _) as [cur|]; [|discriminate Hb]. rewrite Hb in Hc. exact Hc.
Defined.

(** The same message through the session-ready protocol. *)
Abbreviation r_ready := (rdemo [RAcceptInboundV2 demo_context (demo_envelope "m1") ∅ 0 None]).

Lemma claimed_turn_commits_witness : exists cl L s1 e1 r s2 e2,
  claim_session_ready "acme" "s1" "w1" (seconds 60) None None None r_ready.1 r_ready.2
    = (Ok cl, s1, e1) /\ sc_execution_lease cl = Some L /\
  commit_session_ready (MkTurnCommit demo_context L ∅ [demo_event] None) s1 e1 = (Ok r, s2, e2).
Proof.
  destruct (ok_with_run (fun cl _ e1 => match sc_execution_lease cl with
      | Some L => clock_at (ticks e1) <? sl_expires_at L | None => false end)
    (claim_session_ready "acme" "s1" "w1" (seconds 60) None None None r_ready.1 r_ready.2))
    as (cl & s1 & e1 & Hrun & Hb); [vm_compute; reflexivity|].
  destruct (sc_execution_lease cl) as [L|] eqn:HL; [|discriminate Hb]. apply Z.ltb_lt in Hb as Hlt.
  destruct (claimed_turn_commits "acme" "s1" "w1" (seconds 60) None None None cl L
    (MkTurnCommit demo_context L ∅ [demo_event] None) r_ready.1 r_ready.2 s1 e1
    (rdemo_reachable _) Hrun HL eq_refl Hlt) as (r & s2 & e2 & Hc & _).
  exists cl, L, s1, e1, r, s2, e2. split_and!; [exact Hrun|exact HL|exact Hc].
Defined.

Lemma failed_commit_changes_nothing_witness : exists x s' e',
  commit (demo_turn "other" 1 0) r_acquired.1 r_acquired.2 = (Raise x, s', e') /\ s' = r_acquired.1.
Proof.
  destruct (raises_run (commit (demo_turn "other" 1 0) r_acquired.1 r_acquired.2))
    as (x & s' & e' & Hrun); [vm_compute; reflexivity|].
  exists x, s', e'. split; [exact Hrun|].
  exact (failed_commit_changes_nothing (demo_turn "other" 1 0) x r_acquired.1 r_acquired.2 s' e'
    (rdemo_reachable _) (or_intror Hrun)).
Defined.

Lemma session_lease_exclusive_witness : exists c e',
  claim_session_ready "acme" "s1" "w2" 1 None None None r_acquired.1 r_acquired.2
    = (Ok c, r_acquired.1, e') /\ sc_execution_lease c = None.
Proof.
  assert (Hb : match rp_leases r_acquired.1 !! ("acme", "s1")%string with
    | Some cur => (clock_at (ticks r_acquired.2) <? sl_expires_at cur)
                  && (clock_at (S (ticks r_acquired.2)) <? sl_expires_at cur)
    | None => false end = true) by (vm_compute; reflexivity).
  destruct (rp_leases r_acquired.1 !! ("acme", "s1")%string) as [cur|] eqn:Hk; [|discriminate Hb].
  apply andb_true_iff in Hb as [H1%Z.ltb_lt H2%Z.ltb_lt].
  destruct (session_lease_exclusive "acme" "s1" cur r_acquired.1 r_acquired.2 (rdemo_reachable _)
    Hk H1 H2) as [_ Hv2].
  destruct (Hv2 "w2"%string 1 None None None) as (c & e' & Hrun & Hn & _).
  exists c, e'. split; [exact Hrun|exact Hn].
Defined.

Lemma acquire_in_order_witness :
  ("acme", "id-0")%string ∉ rp_committed_inbound r_accepted.1.
Proof.
  destruct (ok_with_run (fun o _ _ => is_some o)
    (acquire (demo_acceptance "id-0" "m1") "w1" (seconds 60) r_accepted.1 r_accepted.2))
    as ([l|] & s' & e' & Hrun & Hb); [vm_compute; reflexivity| |discriminate Hb].
  exact (proj1 (acquire_in_order (demo_acceptance "id-0" "m1") "w1" (seconds 60) l r_accepted.1
    r_accepted.2 s' e' (rdemo_reachable _) Hrun)).
Defined.

Lemma claim_outbox_exclusive_witness : exists rs s' e',
  claim_outbox "inbound.accepted" "d1" 10 (seconds 30) r_accepted.1 r_accepted.2 = (Ok rs, s', e') /\
  Z.of_nat (length rs) <= 10.
Proof.
  destruct (claim_outbox_exclusive "inbound.accepted" "d1" 10 (seconds 30) r_accepted.1 r_accepted.2
    (rdemo_reachable _)) as (rs & s' & Hrun & Hle & _).
  exists rs, s', (Effects (uuids r_accepted.2) (S (ticks r_accepted.2))).
  split; [exact Hrun|exact Hle].
Defined.

(** A reply in the outbox, claimed and being sent. *)
Definition demo_record : OutboxRecord :=
  MkOutboxRecord "id-3" "acme" "outbound.feishu.ready" "out-1" ∅ ∅ 1.
Definition demo_receipt (st : DeliveryStatus) (retryable : bool) : DeliveryReceipt :=
  MkDeliveryReceipt "out-1" st None None retryable None 1.
Definition demo_delivery (cs : list rcall) : Repository * effects :=
  rdemo (RAcceptInbound demo_context (demo_envelope "m1") ∅ ::
    RAcquire (demo_acceptance "id-0" "m1") "w1" (seconds 60) :: RCommit (demo_turn "id-2" 1 0) ::
    RClaimOutbox "outbound.feishu.ready" "d1" 10 (seconds 30) :: cs).

Lemma no_resend_after_final_witness : exists s e msg,
  begin_delivery demo_record "d2" s e = (Raise (FencingConflict msg), s, e).
Proof.
  pose (c := demo_delivery [RBeginDelivery demo_record "d1"]).
  destruct (ok_with_run (fun _ _ _ => true)
    (finish_delivery demo_record "d1" 1 (demo_receipt AMBIGUOUS false) 0 c.1 c.2))
    as ([] & s1 & e1 & Hrun & _); [vm_compute; reflexivity|].
  destruct (no_resend_after_final demo_record "d1" 1 (demo_receipt AMBIGUOUS false) 0 c.1 c.2 s1 e1
    s1 e1 (rdemo_reachable _) Hrun (or_intror eq_refl) (rtc_refl _ _) demo_record "d2"
    eq_refl eq_refl) as [msg Hb].
  exists s1, e1, msg. exact Hb.
Defined.

Lemma late_delivery_result_rejected_witness : exists s e,
  finish_delivery demo_record "d1" 1 (demo_receipt DELIVERED false) 0 s e
  = (Raise (FencingConflict "delivery attempt is no longer current"), s, e).
Proof.
  pose (c := demo_delivery []).
  pose (next := fun s1 e1 => run_rcalls [RFinishDelivery demo_record "d1" 1 (demo_receipt FAILED true) 0;
    RClaimOutbox "outbound.feishu.ready" "d2" 10 (seconds 30)] (s1, e1)).
  destruct (ok_with_run (fun a1 s1 e1 => (da_attempt_number a1 =? 1)
      && ok_with (fun _ _ _ => true) (begin_delivery demo_record "d2" (next s1 e1).1 (next s1 e1).2))
    (begin_delivery demo_record "d1" c.1 c.2)) as (a1 & s1 & e1 & H1 & Hb); [vm_compute; reflexivity|].
  apply andb_true_iff in Hb as [Hn%Z.eqb_eq Hb].
  destruct (ok_with_run _ _ Hb) as (a2 & s3 & e3 & H2 & _).
  pose (c2 := next s1 e1).
  assert (Hs2 : rtc rstep (s1, e1) (c2.1, c2.2)) by exact (rdemo_steps _ (s1, e1)).
  destruct (late_delivery_result_rejected demo_record demo_record "d1" "d2" a1 a2 c.1 c.2 s1 e1
    c2.1 c2.2 s3 e3 (rdemo_reachable _) H1 Hs2 H2 eq_refl eq_refl) as [_ Hfin].
  exists s3, e3. rewrite Hn in Hfin. exact (Hfin "d1"%string (demo_receipt DELIVERED false) 0 eq_refl).
Defined.

Lemma accept_inbound_v2_leaks_acceptance_witness : exists s1 e1 a,
  accept_inbound_v2 demo_context (demo_envelope "m1") ∅ 0 None s1 e1 = (Ok a, s1, e1) /\
  acc_duplicate a = true /\ rp_outbox s1 = [].
Proof.
  destruct (accept_inbound_v2_leaks_acceptance demo_context (demo_envelope "m1") ∅ ∅ (-1)
    empty_repository fx0) as (s1 & e1 & a & _ & _ & Hout & Hacc & Hd);
    [exists fx0; apply rtc_refl|reflexivity|lia|reflexivity|reflexivity|reflexivity|].
  exists s1, e1, a. split_and!; [exact Hacc|exact Hd|exact Hout].
Defined.

(** A lost wake-up: when a session-ready claim finds that the head of the
    mailbox is already committed, it resolves it and the mailbox publishes the
    wake-up of the next message, but the record never reaches the runtime
    outbox the dispatchers read: the run below accepts two messages, commits
    the first one through the v1 path, and ends with the session queued, its
    wake-up in the mailbox store and nothing to dispatch for it. *)
Theorem committed_head_loses_wakeup :
  let c := rdemo [RAcceptInbound demo_context (demo_envelope "m1") ∅;
                  RAcquire (demo_acceptance "id-0" "m1") "w1" (seconds 60);
                  RAcceptMailbox "acme" "s1" "id-0" 0 None None;
                  RAcceptInboundV2 demo_context (demo_envelope "m2") ∅ 0 None;
                  RCommit (demo_turn "id-2" 1 0)] in
  exists cl s' e',
    claim_session_ready "acme" "s1" "w2" (seconds 60) None None None c.1 c.2 = (Ok cl, s', e') /\
    sc_status cl = EMPTY /\ mb_status (sc_mailbox cl) = QUEUED /\
    existsb (is_ready_record "acme" "s1" (mb_queue_generation (sc_mailbox cl)))
      (ms_outbox (rp_mailbox_store s')) = true /\
    existsb (is_ready_record "acme" "s1" (mb_queue_generation (sc_mailbox cl)))
      (dvalues (rp_outbox s')) = false.
Proof.
  intros c. destruct (ok_with_run (fun cl s' _ =>
      bool_decide (sc_status cl = EMPTY) && bool_decide (mb_status (sc_mailbox cl) = QUEUED)
      && existsb (is_ready_record "acme" "s1" (mb_queue_generation (sc_mailbox cl)))
           (ms_outbox (rp_mailbox_store s'))
      && negb (existsb (is_ready_record "acme" "s1" (mb_queue_generation (sc_mailbox cl)))
           (dvalues (rp_outbox s'))))
    (claim_session_ready "acme" "s1" "w2" (seconds 60) None None None c.1 c.2))
    as (cl & s' & e' & Hrun & Hb); [vm_compute; reflexivity|].
  bool_prop. eauto 10.
Qed.
End demo.
