(* ===== verification/Delivery.v ===== *)
(** * The outbox and delivery contract

    The part of the [RuntimeRepository] protocol
    ([trpc_service/storage/protocols.py]) the dispatchers use, as a class of
    operations with the laws the dispatchers rely on, and the proof that the
    in-memory repository satisfies them. *)

From S2P Require Import Prelude Tenant Models Mailbox MailboxInv Repository.
From S2P Require Import RepositoryInv RepositoryThms.
#[local] Open Scope Z_scope.

(** Pydantic's derived parser and printer of the outbound envelope; the parser
    accepts what the printer wrote. *)
Class EnvelopeCodec : Type := {
  codec_dump :: EnvelopeDump;
  model_validate : gmap string pyval -> option OutboundEnvelope;
  validate_dump : forall o, model_validate (model_dump o) = Some o;
}.

(** ** The operations *)
Class DeliveryRepository (R : Type) `{Env} : Type := {
  resolve_binding : string -> M R (option BindingRoute);
  claim_outbox : string -> string -> Z -> Z -> M R (list OutboxRecord);
  mark_outbox_published : string -> string -> string -> M R unit;
  release_outbox : string -> string -> string -> Z -> string -> M R unit;
  dead_letter_outbox : OutboxRecord -> string -> string -> M R unit;
  record_delivery : string -> DeliveryReceipt -> bool -> M R unit;
  begin_delivery : OutboxRecord -> string -> M R DeliveryAttempt;
  finish_delivery : OutboxRecord -> string -> Z -> DeliveryReceipt -> Z -> M R unit;
  (** The attempt ledger: the last attempt of an outbound message and its
      status. *)
  ledger : R -> id_key -> option (Z * string);
  (** The states the repository reaches. *)
  delivery_ok : R -> Prop;
}.

(** ** The laws *)
Section laws.
Context {R : Type} `{DeliveryRepository R}.

(** The ledger only moves forward and its final entries stay. *)
Definition ledger_le (s s' : R) : Prop :=
  forall key n st, ledger s key = Some (n, st) ->
    exists n' st', ledger s' key = Some (n', st') /\ n <= n' /\
      (terminal st -> st' = st).

#[export] Instance ledger_le_preorder : PreOrder ledger_le.
Proof.
  split.
  - intros s key n st Hk. exists n, st. split_and!; done.
  - intros x y z Hxy Hyz key n st Hk. destruct (Hxy _ _ _ Hk) as (n1 & st1 & Hk1 & ? & Ht1).
    destruct (Hyz _ _ _ Hk1) as (n2 & st2 & Hk2 & ? & Ht2). exists n2, st2.
    split_and!; [done|lia|]. intros Ht. specialize (Ht1 Ht). subst. by apply Ht2.
Qed.

Definition keeps_ledger {A} (m : M R A) : Prop :=
  forall s e, delivery_ok s -> wp m (fun _ s' _ => delivery_ok s' /\ ledger_le s s') s e.
End laws.

Class DeliveryLaws (R : Type) `{DeliveryRepository R} : Prop := {
  resolve_binding_law i s e : wp (resolve_binding i) (fun _ s' _ => s' = s) s e;
  claim_outbox_law ty o l f : keeps_ledger (claim_outbox ty o l f);
  mark_outbox_published_law t i o : keeps_ledger (mark_outbox_published t i o);
  release_outbox_law t i o d er : keeps_ledger (release_outbox t i o d er);
  dead_letter_outbox_law r o re : keeps_ledger (dead_letter_outbox r o re);
  (** The dispatcher records only unknown outcomes this way. *)
  record_delivery_law t r : dr_status r = AMBIGUOUS -> keeps_ledger (record_delivery t r false);
  begin_delivery_law r o : keeps_ledger (begin_delivery r o);
  finish_delivery_law r o n rc d : keeps_ledger (finish_delivery r o n rc d);
  (** An attempt that begins is new, is in flight, and follows one that was not
      in flight and not final. *)
  begin_delivery_fresh r o s e a s' e' :
    delivery_ok s -> begin_delivery r o s e = (Ok a, s', e') ->
    da_tenant_id a = ob_tenant_id r /\ da_outbound_id a = ob_aggregate_id r /\
    ledger s' (ob_tenant_id r, ob_aggregate_id r) = Some (da_attempt_number a, "sending"%string) /\
    forall n st, ledger s (ob_tenant_id r, ob_aggregate_id r) = Some (n, st) ->
      da_attempt_number a = n + 1 /\ st <> "sending"%string /\ ~ terminal st;
  (** A recorded result closes the attempt with the status of its receipt. *)
  finish_delivery_status r o n rc d s e s' e' :
    delivery_ok s -> finish_delivery r o n rc d s e = (Ok tt, s', e') ->
    ledger s' (ob_tenant_id r, ob_aggregate_id r) =
      Some (n, DeliveryStatus_value (dr_status rc));
}.

(** ** The in-memory repository satisfies the contract *)

Definition memory_ledger (s : Repository) (key : id_key) : option (Z * string) :=
  (fun a => (a.1.2, a.2)) <$> rp_delivery_attempts s !! key.

#[export] Instance memory_delivery `{Env} : DeliveryRepository Repository := {|
  resolve_binding := Repository.resolve_binding;
  claim_outbox := Repository.claim_outbox;
  mark_outbox_published := Repository.mark_outbox_published;
  release_outbox := Repository.release_outbox;
  dead_letter_outbox := Repository.dead_letter_outbox;
  record_delivery := Repository.record_delivery;
  begin_delivery := Repository.begin_delivery;
  finish_delivery := Repository.finish_delivery;
  ledger := memory_ledger;
  delivery_ok := fun _ => True;
|}.

Section instance.
Context `{E : Env}.

Lemma ledger_le_attempts (s s' : Repository) :
  attempts_le (rp_delivery_attempts s) (rp_delivery_attempts s') -> ledger_le s s'.
Proof.
  intros Ha key n st. simpl. unfold memory_ledger.
  destruct (rp_delivery_attempts s !! key) as [[[o m] st']|] eqn:Hk; [|done].
  intros [= -> ->]. destruct (Ha _ _ _ _ Hk) as (o2 & n2 & st2 & Hk2 & ? & Ht).
  exists n2, st2. rewrite Hk2. split_and!; [done..|]. intros Hte. specialize (Ht Hte). congruence.
Qed.

Lemma same_attempts_keeps {A} (m : M Repository A) :
  (forall s e, wp m (fun _ s' _ => rp_delivery_attempts s' = rp_delivery_attempts s) s e) ->
  keeps_ledger m.
Proof.
  intros Hm s e _. eapply wp_mono; [apply Hm|]. intros r s' e' Heq.
  split; [done|]. apply ledger_le_attempts. by rewrite Heq.
Qed.

Lemma claim_outbox_loop_attempts ty o l n x rs acc s e :
  wp (claim_outbox_loop ty o l n x rs acc)
    (fun _ s' _ => rp_delivery_attempts s' = rp_delivery_attempts s) s e.
Proof.
  revert acc s. induction rs as [|r rs IH]; intros acc s; simpl; [done|].
  case_match; [apply IH|]. apply wp_bind, wp_gets. destruct (after _ _); [apply IH|].
  apply wp_bind, wp_modify. case_match; [done|]. eapply wp_mono; [apply IH|]. by intros.
Qed.

#[export] Instance memory_delivery_laws : DeliveryLaws Repository.
Proof.
  split.
  - intros i s e. by apply wp_gets.
  - intros ty o l f. apply same_attempts_keeps. intros s e. simpl. unfold Repository.claim_outbox.
    wp_steps. apply claim_outbox_loop_attempts.
  - intros t i o. apply same_attempts_keeps. intros s e. simpl.
    unfold Repository.mark_outbox_published, require_claim, drop_outbox. wp_steps; done.
  - intros t i o d er. apply same_attempts_keeps. intros s e. simpl.
    unfold Repository.release_outbox, require_claim. wp_steps; done.
  - intros r o re. apply same_attempts_keeps. intros s e. simpl.
    unfold Repository.dead_letter_outbox, require_claim, drop_outbox. wp_steps; done.
  - intros t r _. apply same_attempts_keeps. intros s e. simpl. unfold Repository.record_delivery.
    wp_steps; done.
  - intros r o s e _. simpl. unfold Repository.begin_delivery, require_claim. wp_steps; bool_prop.
    all: split; [done|].
    all: apply ledger_le_attempts; try reflexivity; simpl.
    all: apply attempts_le_insert; intros; simplify_eq; first [congruence|split; [lia|by intros [?|?]]].
  - intros r o n rc d s e _. simpl. unfold Repository.finish_delivery, drop_outbox.
    wp_steps; bool_prop; (split; [done|]); apply ledger_le_attempts; try reflexivity; simpl; by apply attempts_le_finish.
  - intros r o s e a s' e' _ Hrun. revert Hrun. simpl.
    match goal with |- _ -> ?P => cut (wp (Repository.begin_delivery r o)
      (fun x t _ => x = Ok a -> t = s' -> P) s e) end.
    { intros Hw Hrun. by apply (wp_run _ _ _ _ _ _ _ Hw Hrun). }
    unfold Repository.begin_delivery, require_claim, memory_ledger.
    wp_steps; bool_prop; try done; intros [= <-] <-; simpl; rewrite lookup_insert_eq.
    all: split_and!; [done..|]; intros n st Hn.
    + simplify_eq/=. split_and!; [done..|by intros [?|?]].
    + by simplify_eq/=.
  - intros r o n rc d s e s' e' _ Hrun. simpl in *. unfold memory_ledger.
    by rewrite (wp_run _ _ _ _ _ _ _ (RepositoryThms.finish_delivery_status r o n rc d s e) Hrun eq_refl).
Qed.
End instance.

(** ** A codec that satisfies the law

    Any injective encoding will do: the whole envelope as one number. *)

#[export] Instance Channel_countable : Countable Channel.
Proof.
  refine (inj_countable' (fun c => match c with WECOM_AI_BOT => true | FEISHU => false end)
    (fun b => if b : bool then WECOM_AI_BOT else FEISHU) _). by intros [].
Defined.

#[export] Instance PayloadKind_eq_dec : EqDecision PayloadKind.
Proof. solve_decision. Defined.
#[export] Instance PayloadKind_countable : Countable PayloadKind.
Proof.
  refine (inj_countable'
    (fun k => match k with TEXT => 0 | IMAGE => 1 | FILE => 2 | VIDEO => 3 | VOICE => 4 | MIXED => 5
              | EVENT => 6 end%nat)
    (fun n => match n with 0 => TEXT | 1 => IMAGE | 2 => FILE | 3 => VIDEO | 4 => VOICE | 5 => MIXED
              | _ => EVENT end%nat) _). by intros [].
Defined.

#[export] Instance MediaReference_eq_dec : EqDecision MediaReference.
Proof. solve_decision. Defined.
#[export] Instance MediaReference_countable : Countable MediaReference.
Proof.
  refine (inj_countable' (fun m => (mr_provider_url m, mr_provider_media_id m,
      mr_encryption_key_ref m, mr_filename m, mr_content_type m))
    (fun '(a, b, c, d, e) => MkMediaReference a b c d e) _). by intros [].
Defined.

#[export] Instance OutboundEnvelope_eq_dec : EqDecision OutboundEnvelope.
Proof. solve_decision. Defined.
#[export] Instance OutboundEnvelope_countable : Countable OutboundEnvelope.
Proof.
  refine (inj_countable' (fun o => (oe_outbound_id o, oe_tenant_id o, oe_binding_id o, oe_channel o,
      oe_target_id o, oe_session_id o, oe_payload_kind o, oe_text o, oe_media o, oe_in_reply_to o,
      oe_trace_headers o))
    (fun '(a, b, c, d, e, f, g, h, i, j, k) => MkOutboundEnvelope a b c d e f g h i j k) _).
  by intros [].
Defined.

Definition number_dump (o : OutboundEnvelope) : gmap string pyval :=
  {["envelope"%string := PInt (Zpos (encode o))]}.
Definition number_validate (p : gmap string pyval) : option OutboundEnvelope :=
  match p !! "envelope"%string with Some (PInt (Zpos x)) => decode x | _ => None end.

Lemma number_codec_law o : number_validate (number_dump o) = Some o.
Proof.
  unfold number_validate, number_dump. rewrite lookup_singleton_eq. apply decode_encode.
Qed.

Definition number_codec : EnvelopeCodec := {|
  codec_dump := number_dump;
  model_validate := number_validate;
  validate_dump := number_codec_law;
|}.
