(* ===== verification/ChannelDispatcher.v ===== *)
(** * The channel dispatcher

    [ChannelDispatcher] of [trpc_service/channels/dispatcher.py]: one cycle
    claims a batch of outbound records, delivers each through the provider
    adapter of its channel, and records every result.  The repository is any
    implementation of the delivery contract; the provider is a parameter: the
    n-th call of an adapter returns a receipt, returns something else, or
    raises.  Every call of a provider is recorded in the world's log of sends.
    A provider call that is cancelled raises [CancelledError], which every handler
    passes on; cancellation elsewhere, logging, metrics and tracing are not modelled. *)

From S2P Require Import Prelude PyText Tenant Models Repository RepositoryInv Delivery.
From Stdlib Require Import QArith Qround Lqa.
#[local] Close Scope Q_scope.
#[local] Open Scope Z_scope.


(** [timedelta(seconds=q)] in microseconds, rounded half to even. *)
Definition timedelta_seconds (q : Q) : Z :=
  let us := (q * inject_Z 1000000)%Q in
  let f := Qfloor us in
  match Qcompare (us - inject_Z f)%Q (1 # 2) with
  | Lt => f
  | Gt => f + 1
  | Eq => if Z.even f then f else f + 1
  end.

(** What [await adapter.send(envelope, binding)] does. *)
Inductive send_outcome : Type :=
  | SendReceipt (receipt : DeliveryReceipt)
  | SendOther
  | SendRaises (x : exn).

Class Provider : Type := provider_send :
  nat -> OutboundEnvelope -> ChannelBinding -> send_outcome.

(** One call of a provider: the outbound row it was made for, the attempt it
    belongs to, and what was handed over. *)
Record Send : Type := MkSend {
  sd_key : id_key;
  sd_attempt : option Z;
  sd_envelope : OutboundEnvelope;
  sd_binding : ChannelBinding;
}.

Record World (R : Type) : Type := MkWorld { w_repo : R; w_sends : list Send }.
Arguments MkWorld {R} w_repo w_sends.
Arguments w_repo {R} w.
Arguments w_sends {R} w.

Record ChannelDispatcher : Type := MkChannelDispatcher {
  cd_adapters : list Channel;
  cd_owner_id : string;
  cd_event_type : string;
  cd_max_attempts : Z;
  cd_batch_limit : Z;
  cd_lease_seconds : Q;
  cd_retry_jitter : Q -> pyfloat;
  cd_binding_ready : option (ChannelBinding -> bool);
}.

(** [__init__]: the two arguments it validates. *)
Definition make_ChannelDispatcher (adapters : list Channel) (owner_id event_type : string)
    (max_attempts batch_limit : Z) (lease_seconds : Q) (retry_jitter : Q -> pyfloat)
    (binding_ready : option (ChannelBinding -> bool)) : outcome ChannelDispatcher :=
  if batch_limit <? 1 then Raise (ValueError "batch_limit must be positive")
  else if Qle_bool lease_seconds 0 then Raise (ValueError "lease_seconds must be positive")
  else Ok (MkChannelDispatcher adapters owner_id event_type max_attempts batch_limit lease_seconds
             retry_jitter binding_ready).

(** [DeliveryReceipt(outbound_id=..., status=AMBIGUOUS, provider_code=...)]. *)
Definition ambiguous_receipt (outbound_id code : string) : DeliveryReceipt :=
  MkDeliveryReceipt outbound_id AMBIGUOUS None (Some code) false None 1.

Definition _normalize_receipt (receipt : DeliveryReceipt) (envelope : OutboundEnvelope)
    : DeliveryReceipt :=
  if bool_decide (dr_outbound_id receipt = oe_outbound_id envelope) then receipt
  else receipt
    <| dr_outbound_id := oe_outbound_id envelope |>
    <| dr_status := AMBIGUOUS |>
    <| dr_provider_code := Some "receipt_mismatch"%string |>
    <| dr_retryable := false |>.

(** Python's [min] on numbers. *)
Definition py_min (a b : Q) : Q := if Qle_bool a b then a else b.

Definition _retry_delay {S} (jitter : Q -> pyfloat) (receipt : DeliveryReceipt) (attempts : Z)
    : M S Z :=
  match dr_retry_after_seconds receipt with
  | Some retry_after => ret (timedelta_seconds retry_after)
  | None =>
    let base_seconds := inject_Z (Z.min (2 ^ attempts) 60) in
    match jitter base_seconds with
    | Finite retry_after =>
      raise_if (negb (Qle_bool 0 retry_after))
        (ValueError "retry jitter must return a finite non-negative delay") ;;
      ret (timedelta_seconds (py_min retry_after 60))
    | NonFinite => raise (ValueError "retry jitter must return a finite non-negative delay")
    end
  end.

Section dispatcher.
Context {R : Type} `{DeliveryRepository R} `{EnvelopeCodec} `{Provider}.
Context (d : ChannelDispatcher).

(** A call of the repository. *)
Definition repo {A} (m : M R A) : M (World R) A :=
  zoom w_repo (fun r w => MkWorld r (w_sends w)) m.

(** [await adapter.send(envelope, binding)], recorded. *)
Definition send (key : id_key) (attempt : option Z) (envelope : OutboundEnvelope)
    (binding : ChannelBinding) : M (World R) send_outcome :=
  let* n := gets (fun w => length (w_sends w)) in
  modify (fun w => MkWorld (w_repo w) (w_sends w ++ [MkSend key attempt envelope binding])) ;;
  ret (provider_send n envelope binding).

Definition _retry_or_dead_letter (record : OutboxRecord) (reason : string) (delay : Z)
    : M (World R) unit :=
  if cd_max_attempts d <=? ob_attempts record
  then repo (dead_letter_outbox record (cd_owner_id d) reason)
  else repo (release_outbox (ob_tenant_id record) (ob_outbox_id record) (cd_owner_id d) delay reason).

Definition _dead_letter_record (record : OutboxRecord) (reason : string) : M (World R) bool :=
  except_Exception (repo (dead_letter_outbox record (cd_owner_id d) reason) ;; ret true)
    (fun _ => ret false).

Definition retries (receipt : DeliveryReceipt) (attempts : Z) : bool :=
  bool_decide (dr_status receipt = FAILED) && dr_retryable receipt
  && (attempts <? cd_max_attempts d).

(** Returns the receipt, whether the message will be retried, and whether the
    result was persisted. *)
Definition _dispatch_atomic (record : OutboxRecord) (envelope : OutboundEnvelope)
    (binding : ChannelBinding) : M (World R) (DeliveryReceipt * bool * bool) :=
  let* attempt := repo (begin_delivery record (cd_owner_id d)) in
  raise_if (negb (bool_decide (da_tenant_id attempt = ob_tenant_id record))
            || negb (bool_decide (da_owner_id attempt = cd_owner_id d))
            || negb (bool_decide (da_outbound_id attempt = oe_outbound_id envelope)))
    (ValueError "repository returned a mismatched delivery attempt") ;;
  let* sent := send (ob_tenant_id record, ob_aggregate_id record)
                 (Some (da_attempt_number attempt)) envelope binding in
  let* receipt :=
    match sent with
    | SendReceipt raw => ret (_normalize_receipt raw envelope)
    | SendRaises CancelledError => raise CancelledError
    | SendOther | SendRaises _ => ret (ambiguous_receipt (oe_outbound_id envelope) "transport_unknown")
    end in
  let retrying := retries receipt (da_attempt_number attempt) in
  let receipt :=
    if bool_decide (dr_status receipt = FAILED) && dr_retryable receipt && negb retrying
    then receipt <| dr_retryable := false |> else receipt in
  let* retry_delay := _retry_delay (cd_retry_jitter d) receipt (da_attempt_number attempt) in
  except_Exception
    (repo (finish_delivery record (cd_owner_id d) (da_attempt_number attempt) receipt retry_delay) ;;
     ret (receipt, retrying, true))
    (fun _ => ret (receipt, retrying, false)).

Definition _resolve_in_progress (record : OutboxRecord) (envelope : OutboundEnvelope)
    (attempt_number : option Z) : M (World R) (DeliveryReceipt * bool) :=
  let receipt := ambiguous_receipt (oe_outbound_id envelope) "delivery_in_progress" in
  let compatibility :=
    except_Exception
      (repo (record_delivery (ob_tenant_id record) receipt false) ;;
       repo (dead_letter_outbox record (cd_owner_id d)
               (str_or (dr_provider_code receipt) "delivery_in_progress")) ;;
       ret (receipt, true))
      (fun _ => ret (receipt, false)) in
  match attempt_number with
  | Some n =>
    if 0 <? n then
      repo (finish_delivery record (cd_owner_id d) n receipt 0) ;;
      ret (receipt, true)
    else compatibility
  | None => compatibility
  end.

(** The delivery through the attempt ledger, with its four exception handlers:
    [None] is a stale claim or an attempt that could not start. *)
Definition deliver_atomic (record : OutboxRecord) (envelope : OutboundEnvelope)
    (binding : ChannelBinding) : M (World R) bool :=
  let* result :=
    try_except
      (let* r := _dispatch_atomic record envelope binding in ret (Some r))
      (fun x =>
        match x with
        | DeliveryInProgress _ attempt_number =>
          let* resolved := _resolve_in_progress record envelope attempt_number in
          ret (Some (resolved.1, false, resolved.2))
        | CancelledError => raise CancelledError
        | _ => ret None
        end) in
  match result with
  | Some (_, retrying, persisted) => ret (persisted && negb retrying)
  | None => ret false
  end.

(** The legacy path for a repository without an attempt ledger. *)
Definition deliver_legacy (record : OutboxRecord) (envelope : OutboundEnvelope)
    (binding : ChannelBinding) : M (World R) bool :=
  let* sent := send (ob_tenant_id record, ob_aggregate_id record) None envelope binding in
  match sent with
  | SendRaises x => raise x
  | SendOther => raise (TypeError "AttributeError")
  | SendReceipt raw =>
    let receipt := _normalize_receipt raw envelope in
    let retrying := retries receipt (ob_attempts record) in
    repo (record_delivery (ob_tenant_id record) receipt retrying) ;;
    (if retrying then
       let* delay := _retry_delay (cd_retry_jitter d) receipt (ob_attempts record) in
       repo (release_outbox (ob_tenant_id record) (ob_outbox_id record) (cd_owner_id d) delay
               (str_or (dr_provider_code receipt) "delivery_failed"))
     else
       match dr_status receipt with
       | FAILED | AMBIGUOUS =>
         repo (dead_letter_outbox record (cd_owner_id d)
           (str_or (dr_provider_code receipt) (DeliveryStatus_value (dr_status receipt))))
       | DELIVERED =>
         repo (mark_outbox_published (ob_tenant_id record) (ob_outbox_id record) (cd_owner_id d))
       end) ;;
    ret (negb retrying)
  end.

(** The route an envelope may use: an existing binding of the same tenant, the
    record's tenant, and the same channel. *)
Definition route_matches (record : OutboxRecord) (envelope : OutboundEnvelope)
    (route : BindingRoute) : bool :=
  bool_decide (cb_binding_id (br_binding route) = oe_binding_id envelope)
  && bool_decide (cb_tenant_id (br_binding route) = ob_tenant_id record)
  && bool_decide (cb_tenant_id (br_binding route) = oe_tenant_id envelope)
  && bool_decide (cb_channel (br_binding route) = oe_channel envelope).

Definition minutes (n : Z) : Z := n * 60 * 1000000.

(** The body of [_dispatch_record] for a parsed envelope. *)
Definition dispatch_envelope (atomic : bool) (record : OutboxRecord) (envelope : OutboundEnvelope)
    : M (World R) bool :=
  let* route := repo (resolve_binding (oe_binding_id envelope)) in
  match route with
  | None => _retry_or_dead_letter record "binding_unavailable" (minutes 5) ;; ret false
  | Some route =>
    if negb (route_matches record envelope route) then
      _retry_or_dead_letter record "binding_unavailable" (minutes 5) ;; ret false
    else if negb (bool_decide (oe_channel envelope ∈ cd_adapters d)) then
      _retry_or_dead_letter record "adapter_unavailable" (minutes 5) ;; ret false
    else if match cd_binding_ready d with
            | Some ready => negb (ready (br_binding route))
            | None => false
            end then
      repo (release_outbox (ob_tenant_id record) (ob_outbox_id record) (cd_owner_id d)
              (100 * 1000) "adapter_standby") ;;
      ret false
    else if atomic then deliver_atomic record envelope (br_binding route)
    else deliver_legacy record envelope (br_binding route)
  end.

(** The last handler: after the provider may have been called, never retry
    blindly; record an ambiguous result if the repository can be reached. *)
Definition record_unknown (record : OutboxRecord) (envelope : OutboundEnvelope)
    : M (World R) bool :=
  except_Exception
    (repo (record_delivery (ob_tenant_id record)
             (ambiguous_receipt (oe_outbound_id envelope) "dispatcher_unknown") false) ;;
     repo (dead_letter_outbox record (cd_owner_id d) "dispatcher_unknown"))
    (fun _ => ret tt) ;;
  ret false.

(** [atomic] is [_supports_atomic_delivery()]. *)
Definition _dispatch_record (atomic : bool) (record : OutboxRecord) : M (World R) bool :=
  match model_validate (ob_payload record) with
  | None => _dead_letter_record record "invalid_outbound_payload"
  | Some envelope =>
    except_Exception (dispatch_envelope atomic record envelope)
      (fun _ => record_unknown record envelope)
  end.

(** [for pending in records[index:]] when the dispatcher is draining. *)
Fixpoint release_pending (records : list OutboxRecord) : M (World R) unit :=
  match records with
  | [] => ret tt
  | pending :: rest =>
    except_Exception
      (repo (release_outbox (ob_tenant_id pending) (ob_outbox_id pending) (cd_owner_id d) 0
               "dispatcher_draining"))
      (fun _ => ret tt) ;;
    release_pending rest
  end.

(** The batch loop; [stopped index] is [stop_event.is_set()] before the record
    at [index]. *)
Fixpoint dispatch_loop (atomic : bool) (stopped : nat -> bool) (index : nat)
    (records : list OutboxRecord) (completed : Z) : M (World R) Z :=
  match records with
  | [] => ret completed
  | record :: rest =>
    if stopped index then release_pending records ;; ret completed
    else
      let* processed :=
        except_Exception (_dispatch_record atomic record)
          (fun _ => _dead_letter_record record "dispatcher_item_failed") in
      dispatch_loop atomic stopped (S index) rest (if processed then completed + 1 else completed)
  end.

Definition dispatch_once (atomic : bool) (stopped : nat -> bool) : M (World R) Z :=
  let* records := repo (claim_outbox (cd_event_type d) (cd_owner_id d) (cd_batch_limit d)
                          (timedelta_seconds (cd_lease_seconds d))) in
  dispatch_loop atomic stopped 0 records 0.
End dispatcher.
