(* ===== verification/ChannelDispatcherThms.v ===== *)
(** * Theorems about the channel dispatcher

    Over any repository that satisfies the delivery contract: every provider
    call belongs to its own attempt, stays inside its tenant, and stops for
    good after a final outcome; retry delays are bounded. *)

From S2P Require Import Prelude PyText Tenant Models Mailbox Repository RepositoryInv.
From S2P Require Import RepositoryThms Delivery ChannelDispatcher.
From Stdlib Require Import QArith Qround Lqa.
#[local] Close Scope Q_scope.
#[local] Open Scope Z_scope.

(** ** Delays *)

Lemma timedelta_seconds_bounds q k :
  (0 <= q)%Q -> (q <= inject_Z k)%Q -> 0 <= timedelta_seconds q <= k * 1000000.
Proof.
  intros H0 Hk. unfold timedelta_seconds. set (us := (q * inject_Z 1000000)%Q).
  assert (Hm : inject_Z 1000000 = (1000000 # 1)%Q) by done.
  assert (Hus0 : (0 <= us)%Q) by (unfold us; rewrite Hm; lra).
  assert (Husk : (us <= inject_Z (k * 1000000))%Q) by (unfold us; rewrite inject_Z_mult, Hm; lra).
  clearbody us. pose proof (Qfloor_le us) as Hf.
  assert (Hf0 : 0 <= Qfloor us).
  { change 0 with (Qfloor 0). by apply Qfloor_resp_le. }
  assert (Hfk : Qfloor us <= k * 1000000).
  { rewrite <-(Qfloor_Z (k * 1000000)). by apply Qfloor_resp_le. }
  destruct (decide (Qfloor us = k * 1000000)) as [Heq|Hne].
  - rewrite Heq in Hf. set (z := inject_Z (k * 1000000)) in *.
    assert (Hc : ((us - inject_Z (Qfloor us)) ?= (1 # 2))%Q = Lt).
    { apply -> Qlt_alt. rewrite Heq. fold z. clearbody z. lra. }
    rewrite Hc. lia.
  - destruct (Qcompare _ _); [destruct (Z.even _)| |]; lia.
Qed.

Lemma retry_delay_bounds {S} jitter rc n (s : S) e :
  match dr_retry_after_seconds rc with Some q => (0 <= q)%Q /\ (q <= 3600)%Q | None => True end ->
  wp (_retry_delay jitter rc n) (fun r s' _ => s' = s /\
    forall v, r = Ok v -> 0 <= v /\
      v <= match dr_retry_after_seconds rc with Some _ => 3600 | None => 60 end * 1000000) s e.
Proof.
  intros Hrc. unfold _retry_delay. wp_steps; (split; [done|]); intros v; try done; intros [= <-].
  - destruct Hrc. by apply timedelta_seconds_bounds.
  - bool_prop. match goal with Hx : Qle_bool 0 _ = true |- _ => apply Qle_bool_iff in Hx end.
    apply timedelta_seconds_bounds; unfold py_min; destruct (Qle_bool q 60) eqn:Hq;
      try apply Qle_bool_iff in Hq; try done; lra.
Qed.

(** ** The log of sends *)

Section sends.
Context {R : Type} `{DeliveryLaws R} `{EnvelopeCodec} `{Provider}.

Definition attempts_of (log : list Send) : list (id_key * Z) :=
  omap (fun sd => pair (sd_key sd) <$> sd_attempt sd) log.

Definition sends_for (key : id_key) (log : list Send) : list Send :=
  List.filter (fun sd => bool_decide (sd_key sd = key)) log.

(** What was handed to a provider belongs to the tenant of its outbound row
    and uses a binding of that tenant on the envelope's own channel. *)
Definition isolated (sd : Send) : Prop :=
  cb_tenant_id (sd_binding sd) = (sd_key sd).1 /\ oe_tenant_id (sd_envelope sd) = (sd_key sd).1 /\
  oe_outbound_id (sd_envelope sd) = (sd_key sd).2 /\
  cb_binding_id (sd_binding sd) = oe_binding_id (sd_envelope sd) /\
  cb_channel (sd_binding sd) = oe_channel (sd_envelope sd).

Record sends_ok (w : World R) : Prop := {
  sk_ok : delivery_ok (w_repo w);
  sk_distinct : NoDup (attempts_of (w_sends w));
  sk_ledger : forall key n, (key, n) ∈ attempts_of (w_sends w) ->
    exists m st, ledger (w_repo w) key = Some (m, st) /\ n <= m;
  sk_isolated : forall sd, sd ∈ w_sends w -> isolated sd;
}.

Record world_le (w w' : World R) : Prop := {
  wl_ledger : ledger_le (w_repo w) (w_repo w');
  wl_sends : w_sends w `prefix_of` w_sends w';
  wl_final : forall key n st, ledger (w_repo w) key = Some (n, st) -> terminal st ->
    sends_for key (w_sends w') = sends_for key (w_sends w);
}.

#[export] Instance world_le_preorder : PreOrder world_le.
Proof.
  split.
  - intros w. split; [reflexivity|done|done].
  - intros x y z [Hl1 Hp1 Hf1] [Hl2 Hp2 Hf2]. split; [by etrans|by etrans|].
    intros key n st Hk Ht. rewrite <-(Hf1 key n st Hk Ht).
    destruct (Hl1 key n st Hk) as (n' & st' & Hk' & _ & Heq). specialize (Heq Ht).
    subst st'. by eapply Hf2.
Qed.

Definition wframe {A} (m : M (World R) A) : Prop :=
  forall w e, sends_ok w -> wp m (fun _ w' _ => sends_ok w' /\ world_le w w') w e.

Lemma wframe_bind {A B} (m : M (World R) A) (k : A -> M (World R) B) :
  wframe m -> (forall a, wframe (k a)) -> wframe (bind m k).
Proof.
  intros Hm Hk w e Hw. apply wp_bind. specialize (Hm w e Hw). unfold wp in *.
  destruct (m w e) as [[[a|x] w'] e']; simpl in *; [|done]. destruct Hm as [Hw' Hle].
  destruct (Hk a w' e' Hw') as [? ?]. split; [done|by etrans].
Qed.

Lemma wframe_try {A} (m : M (World R) A) h :
  wframe m -> (forall x, wframe (h x)) -> wframe (try_except m h).
Proof.
  intros Hm Hh w e Hw. apply wp_try. specialize (Hm w e Hw). unfold wp in *.
  destruct (m w e) as [[[a|x] w'] e']; simpl in *; [done|]. destruct Hm as [Hw' Hle].
  destruct (Hh x w' e' Hw') as [? ?]. split; [done|by etrans].
Qed.

Lemma wframe_except {A} (m : M (World R) A) h :
  wframe m -> (forall x, wframe (h x)) -> wframe (except_Exception m h).
Proof.
  intros Hm Hh. apply wframe_try; [done|]. intros x. destruct x; try apply Hh.
  intros w e Hw. apply wp_raise. split; [done|reflexivity].
Qed.

Lemma wframe_ret {A} (a : A) : wframe (ret a).
Proof. intros w e Hw. apply wp_ret. split; [done|reflexivity]. Qed.

Lemma wframe_raise {A} x : wframe (raise x : M (World R) A).
Proof. intros w e Hw. apply wp_raise. split; [done|reflexivity]. Qed.

Lemma world_repo w s :
  sends_ok w -> delivery_ok s -> ledger_le (w_repo w) s ->
  sends_ok (MkWorld s (w_sends w)) /\ world_le w (MkWorld s (w_sends w)).
Proof.
  intros [Hok Hd Hl Hi] Hs Hle. split; split; simpl; try done.
  intros key n Hin. destruct (Hl key n Hin) as (m & st & Hk & ?).
  destruct (Hle key m st Hk) as (m' & st' & Hk' & ? & _). exists m', st'. split; [done|lia].
Qed.

Lemma wframe_repo {A} (m : M R A) : keeps_ledger m -> wframe (repo m).
Proof.
  intros Hm w e Hw. apply wp_zoom. eapply wp_mono; [apply Hm, Hw|]. intros r s e' [Hs Hle]. by apply world_repo.
Qed.

(** Sending for an attempt that has just begun. *)
Lemma send_fresh w key n env b :
  sends_ok w -> ledger (w_repo w) key = Some (n, "sending"%string) ->
  (forall m, (key, m) ∈ attempts_of (w_sends w) -> m < n) ->
  isolated (MkSend key (Some n) env b) ->
  let w' := MkWorld (w_repo w) (w_sends w ++ [MkSend key (Some n) env b]) in
  sends_ok w' /\ world_le w w'.
Proof.
  intros [Hok Hd Hl Hi] Hk Hfresh Hiso. simpl.
  assert (Ha : attempts_of (w_sends w ++ [MkSend key (Some n) env b])
    = attempts_of (w_sends w) ++ [(key, n)]) by (unfold attempts_of; by rewrite omap_app).
  split; split; simpl.
  - done.
  - rewrite Ha. apply NoDup_app. split_and!; [done| |apply NoDup_singleton].
    intros x Hx Hx'. apply list_elem_of_singleton in Hx' as ->. apply Hfresh in Hx. lia.
  - intros key' m. rewrite Ha, elem_of_app, list_elem_of_singleton. intros [Hin|Heq]; [by apply Hl|].
    simplify_eq. exists n, "sending"%string. split; [done|lia].
  - intros sd. rewrite elem_of_app, list_elem_of_singleton. intros [?| ->]; auto.
  - reflexivity.
  - by eexists.
  - intros key' m st Hk' Ht. unfold sends_for. rewrite List.filter_app. simpl.
    rewrite bool_decide_false; [apply app_nil_r|]. intros <-. rewrite Hk in Hk'. simplify_eq.
    by destruct Ht.
Qed.

(** An attempt that begins is above every attempt sent before. *)
Lemma begin_above w r o e a s' e' m :
  sends_ok w -> begin_delivery r o (w_repo w) e = (Ok a, s', e') ->
  ((ob_tenant_id r, ob_aggregate_id r), m) ∈ attempts_of (w_sends w) -> m < da_attempt_number a.
Proof.
  intros [Hok _ Hl _] Hb Hin. destruct (begin_delivery_fresh _ _ _ _ _ _ _ Hok Hb) as (_ & _ & _ & Hold).
  destruct (Hl _ _ Hin) as (m' & st & Hk & ?). destruct (Hold _ _ Hk). lia.
Qed.

Lemma resolve_binding_keeps i : keeps_ledger (resolve_binding i).
Proof. intros s e Hs. eapply wp_mono; [apply resolve_binding_law|]. intros ? ? ? ->. by split. Qed.

Ltac wframes := eauto using resolve_binding_keeps, claim_outbox_law, mark_outbox_published_law,
  release_outbox_law, dead_letter_outbox_law, record_delivery_law, begin_delivery_law,
  finish_delivery_law, wframe_repo, wframe_ret, wframe_raise.

Lemma wframe_raise_if b x : wframe (raise_if b x : M (World R) unit).
Proof. destruct b; [apply wframe_raise|apply wframe_ret]. Qed.

Lemma wframe_retry_delay j rc n : wframe (_retry_delay j rc n).
Proof.
  unfold _retry_delay. repeat case_match; try apply wframe_ret; try apply wframe_raise.
  apply wframe_bind; [apply wframe_raise_if|intros; apply wframe_ret].
Qed.

Context (d : ChannelDispatcher).

Lemma retry_or_dead_letter_wframe r re dl : wframe (_retry_or_dead_letter d r re dl).
Proof. unfold _retry_or_dead_letter. case_match; wframes. Qed.

Lemma dead_letter_record_wframe r re : wframe (_dead_letter_record d r re).
Proof.
  apply wframe_except; [apply wframe_bind; wframes|wframes].
Qed.

Lemma resolve_in_progress_wframe r env n : wframe (_resolve_in_progress d r env n).
Proof.
  assert (Hc : wframe (except_Exception
      (repo (record_delivery (ob_tenant_id r)
         (ambiguous_receipt (oe_outbound_id env) "delivery_in_progress") false) ;;
       repo (dead_letter_outbox r (cd_owner_id d) "delivery_in_progress") ;;
       ret (ambiguous_receipt (oe_outbound_id env) "delivery_in_progress", true))
      (fun _ => ret (ambiguous_receipt (oe_outbound_id env) "delivery_in_progress", false)))).
  { apply wframe_except; [|wframes]. apply wframe_bind; [wframes|intros].
    apply wframe_bind; [wframes|intros]. wframes. }
  unfold _resolve_in_progress. destruct n as [n|]; [|exact Hc]. destruct (0 <? n); [|exact Hc].
  apply wframe_bind; wframes.
Qed.

Lemma dispatch_atomic_wframe r env route :
  route_matches r env route = true -> wframe (_dispatch_atomic d r env (br_binding route)).
Proof.
  intros Hroute w e Hw. unfold _dispatch_atomic. apply wp_bind, wp_zoom, wp_intro.
  intros b s e1 Hb. pose proof (begin_delivery_law r (cd_owner_id d) (w_repo w) e (sk_ok w Hw)) as Hle.
  unfold wp in Hle. rewrite Hb in Hle. simpl in Hle. destruct Hle as [Hs Hle].
  destruct (world_repo w s Hw Hs Hle) as [Hw1 Hle1].
  destruct b as [a|x]; [|by split]. apply wp_bind, wp_raise_if; [by split|]. intros Hm.
  destruct (begin_delivery_fresh _ _ _ _ _ _ _ (sk_ok w Hw) Hb) as (Hat & Hao & Hk & _).
  assert (Hiso : isolated (MkSend (ob_tenant_id r, ob_aggregate_id r)
    (Some (da_attempt_number a)) env (br_binding route))).
  { unfold route_matches in Hroute. bool_prop. unfold isolated. simpl. split_and!; congruence. }
  destruct (send_fresh (MkWorld s (w_sends w)) _ _ env (br_binding route) Hw1 Hk
    (fun m Hin => begin_above w r _ e a s e1 m Hw Hb Hin) Hiso) as [Hw2 Hle2].
  unfold send. apply wp_bind, wp_bind, wp_gets, wp_bind, wp_modify, wp_ret. cbv beta iota zeta.
  match goal with |- wp (bind ?m ?k) _ ?w2 ?e2 => assert (Hf : wframe (bind m k)) end.
  { apply wframe_bind; [repeat case_match; wframes|intros receipt]. apply wframe_bind; [apply wframe_retry_delay|intros delay].
    apply wframe_except; [apply wframe_bind; wframes|wframes]. }
  eapply wp_mono; [apply Hf; exact Hw2|]. intros r' w' e' [? Hle3]. split; [done|].
  etrans; [exact Hle1|]. etrans; [exact Hle2|done].
Qed.

Lemma deliver_atomic_wframe r env route :
  route_matches r env route = true -> wframe (deliver_atomic d r env (br_binding route)).
Proof.
  intros Hroute. apply wframe_bind.
  - apply wframe_try; [apply wframe_bind; [by apply dispatch_atomic_wframe|wframes]|].
    intros x. destruct x; wframes. apply wframe_bind; [apply resolve_in_progress_wframe|wframes].
  - intros [[[? ?] ?]|]; wframes.
Qed.

Lemma dispatch_envelope_wframe r env : wframe (dispatch_envelope d true r env).
Proof.
  apply wframe_bind; [wframes|]. intros [route|];
    [|apply wframe_bind; [apply retry_or_dead_letter_wframe|wframes]].
  destruct (route_matches r env route) eqn:Hroute; simpl;
    [|apply wframe_bind; [apply retry_or_dead_letter_wframe|wframes]].
  destruct (negb _); [apply wframe_bind; [apply retry_or_dead_letter_wframe|wframes]|].
  match goal with |- wframe (if ?b then _ else _) => destruct b end;
    [apply wframe_bind; wframes|by apply deliver_atomic_wframe].
Qed.

Lemma dispatch_record_wframe r : wframe (_dispatch_record d true r).
Proof.
  unfold _dispatch_record. case_match; [|apply dead_letter_record_wframe].
  apply wframe_except; [apply dispatch_envelope_wframe|intros _].
  apply wframe_bind; [|wframes]. apply wframe_except; [|wframes]. apply wframe_bind; wframes.
Qed.

Lemma release_pending_wframe rs : wframe (release_pending d rs).
Proof.
  induction rs as [|r rs IH]; simpl; [wframes|]. apply wframe_bind; [|done].
  apply wframe_except; wframes.
Qed.

Lemma dispatch_loop_wframe stopped i rs n : wframe (dispatch_loop d true stopped i rs n).
Proof.
  revert i n. induction rs as [|r rs IH]; intros i n; simpl; [wframes|].
  case_match; [apply wframe_bind; [apply (release_pending_wframe (r :: rs))|wframes]|].
  apply wframe_bind; [|done]. apply wframe_except; [apply dispatch_record_wframe|].
  intros. apply dead_letter_record_wframe.
Qed.

Lemma dispatch_once_wframe stopped : wframe (dispatch_once d true stopped).
Proof. apply wframe_bind; [wframes|]. intros. apply dispatch_loop_wframe. Qed.
End sends.
(** ** When nothing is sent *)

Create HintDb silent.

Section silence.
Context {R : Type} `{DeliveryLaws R} `{EnvelopeCodec} `{Provider}.

Definition silent {A} (m : M (World R) A) : Prop :=
  forall w e, wp m (fun _ w' _ => w_sends w' = w_sends w) w e.

Lemma silent_bind {A B} (m : M (World R) A) (k : A -> M (World R) B) :
  silent m -> (forall a, silent (k a)) -> silent (bind m k).
Proof.
  intros Hm Hk w e. apply wp_bind. eapply wp_mono; [apply Hm|]. intros [a|x] w' e' Heq; [|done].
  eapply wp_mono; [apply Hk|]. simpl. congruence.
Qed.

Lemma silent_try {A} (m : M (World R) A) h :
  silent m -> (forall x, silent (h x)) -> silent (try_except m h).
Proof.
  intros Hm Hh w e. apply wp_try. eapply wp_mono; [apply Hm|]. intros [a|x] w' e' Heq; [done|].
  eapply wp_mono; [apply Hh|]. simpl. congruence.
Qed.

Lemma silent_except {A} (m : M (World R) A) h :
  silent m -> (forall x, silent (h x)) -> silent (except_Exception m h).
Proof. intros Hm Hh. apply silent_try; [done|]. intros x. destruct x; try apply Hh. by intros w e. Qed.

Lemma silent_ret {A} (a : A) : silent (ret a).
Proof. by intros w e. Qed.

Lemma silent_raise {A} x : silent (raise x : M (World R) A).
Proof. by intros w e. Qed.

Lemma silent_repo {A} (m : M R A) : silent (repo m).
Proof. intros w e. apply wp_zoom, wp_intro. done. Qed.

#[local] Hint Resolve silent_bind silent_try silent_except silent_raise silent_ret silent_repo : silent.

Lemma resolve_in_progress_silent d r env n : silent (_resolve_in_progress d r env n).
Proof. unfold _resolve_in_progress. repeat case_match; eauto 10 with silent. Qed.

(** A record whose attempt cannot begin is handled without a send. *)
Lemma dispatch_record_silent d r w e :
  (forall o e1 a s' e2, begin_delivery r o (w_repo w) e1 <> (Ok a, s', e2)) ->
  wp (_dispatch_record d true r) (fun _ w' _ => w_sends w' = w_sends w) w e.
Proof.
  intros Hno. unfold _dispatch_record, _dead_letter_record. case_match; [|by apply silent_except; eauto with silent].
  unfold except_Exception at 1. apply wp_try.
  cut (wp (dispatch_envelope d true r o) (fun _ w' _ => w_sends w' = w_sends w) w e).
  { intros Hd. eapply wp_mono; [exact Hd|]. intros [b|x] w' e' Heq; [done|].
    rewrite <-Heq. assert (Hu : silent (record_unknown d r o)); [|by destruct x; try apply Hu].
    unfold record_unknown. apply silent_bind; [apply silent_except; eauto with silent|eauto with silent]. }
  unfold dispatch_envelope. apply wp_bind, wp_zoom. eapply wp_mono; [apply resolve_binding_law|].
  intros [route|x] s' e' ->; [|done].
  replace (MkWorld (w_repo w) (w_sends w)) with w by (by destruct w).
  assert (Hdl : forall re dl, silent (_retry_or_dead_letter d r re dl ;; ret false)).
  { intros re dl. apply silent_bind; [|eauto with silent]. unfold _retry_or_dead_letter.
    case_match; eauto with silent. }
  destruct route as [route|]; [|apply Hdl]. destruct (negb (route_matches _ _ _)); [apply Hdl|].
  destruct (negb _); [apply Hdl|].
  match goal with |- wp (if ?b then _ else _) _ _ _ => destruct b end; [by apply silent_bind; eauto with silent|].
  unfold deliver_atomic, _dispatch_atomic. apply wp_bind, wp_try, wp_bind, wp_bind, wp_zoom, wp_intro.
  intros [a|x] s2 e2 Hb; [by destruct (Hno _ _ _ _ _ Hb)|].
  apply (wp_mono _ (fun r0 w' _ => w_sends w' = w_sends w)).
  - match goal with |- wp ?m _ _ _ => assert (Hs : silent m) end.
    { destruct x; eauto using resolve_in_progress_silent with silent. }
    eapply wp_mono; [apply Hs|]. by intros.
  - intros [[[[? ?] ?]|]|?] w2 e3 Heq; wp_steps; done.
Qed.
End silence.

(** ** The claims *)

Section claims.
Context {R : Type} `{DeliveryLaws R} `{EnvelopeCodec} `{Provider}.

(** Any number of dispatchers, draining or not, in whole cycles or one record at a time, and
    any other use of the repository that keeps its ledger of attempts, in any order. *)
Inductive dstep : World R * effects -> World R * effects -> Prop :=
  | dstep_record d record w e r w' e' :
      _dispatch_record d true record w e = (r, w', e') -> dstep (w, e) (w', e')
  | dstep_dispatch d stopped w e r w' e' :
      dispatch_once d true stopped w e = (r, w', e') -> dstep (w, e) (w', e')
  | dstep_repo A (m : M R A) w e r w' e' :
      keeps_ledger m -> repo m w e = (r, w', e') -> dstep (w, e) (w', e').

Lemma dsteps_frame c c' :
  rtc dstep c c' -> sends_ok c.1 -> sends_ok c'.1 /\ world_le c.1 c'.1.
Proof.
  assert (Hframe : forall A (m : M (World R) A) w e r w' e', wframe m -> m w e = (r, w', e') ->
    sends_ok w -> sends_ok w' /\ world_le w w').
  { intros A m w e r w' e' Hf Hrun Hw. specialize (Hf w e Hw). unfold wp in Hf.
    by rewrite Hrun in Hf. }
  induction 1 as [c|x y z Hxy Hyz IH]; intros Hw; [split; [done|reflexivity]|].
  assert (sends_ok y.1 /\ world_le x.1 y.1) as [Hy Hle].
  { destruct Hxy as [d record w e r w' e' Hrun|d stopped w e r w' e' Hrun|A m w e r w' e' Hm Hrun].
    - by eapply Hframe; [apply dispatch_record_wframe|exact Hrun|].
    - by eapply Hframe; [apply dispatch_once_wframe|exact Hrun|].
    - by eapply Hframe; [apply wframe_repo, Hm|exact Hrun|]. }
  destruct (IH Hy) as [Hz Hle']. split; [done|by etrans].
Qed.

Lemma sends_ok_init (s : R) : delivery_ok s -> sends_ok (MkWorld s []).
Proof.
  intros Hs. split; simpl; [done|constructor|..]; intros *; by rewrite elem_of_nil.
Qed.

(** C12: Every provider call is its own attempt and stays inside its tenant:
    whatever dispatchers run in whatever order, no two calls share an outbound
    message and attempt number, and each call hands over an envelope of the
    tenant and outbound id of its row through a binding of that tenant on the
    envelope's channel. *)
Theorem provider_calls_distinct_isolated s0 e0 w e :
  delivery_ok s0 -> rtc dstep (MkWorld s0 [], e0) (w, e) ->
  NoDup (attempts_of (w_sends w)) /\ forall sd, sd ∈ w_sends w -> isolated sd.
Proof.
  intros Hs Hsteps. destruct (dsteps_frame _ _ Hsteps (sends_ok_init s0 Hs)) as [[] _]. done.
Qed.

(** Once an outbound message's attempt has ended as delivered or ambiguous,
    no dispatcher ever calls a provider for it again. *)
Theorem no_provider_call_after_final s0 e0 w e w' e' key n st :
  delivery_ok s0 -> rtc dstep (MkWorld s0 [], e0) (w, e) -> ledger (w_repo w) key = Some (n, st) -> terminal st ->
  rtc dstep (w, e) (w', e') -> sends_for key (w_sends w') = sends_for key (w_sends w).
Proof.
  intros Hs Hsteps Hk Ht Hsteps'. destruct (dsteps_frame _ _ Hsteps (sends_ok_init s0 Hs)) as [Hw _].
  destruct (dsteps_frame _ _ Hsteps' Hw) as [_ Hle]. by eapply wl_final.
Qed.

(** While another attempt is in flight, taking the record over never
    starts a second provider request: the record is handled without a send. *)
Theorem no_send_while_in_flight d r w e n st :
  delivery_ok (w_repo w) -> ledger (w_repo w) (ob_tenant_id r, ob_aggregate_id r) = Some (n, st) ->
  st = "sending"%string \/ terminal st ->
  w_sends (_dispatch_record d true r w e).1.2 = w_sends w.
Proof.
  intros Hok Hk Hst. apply (dispatch_record_silent d r w e). intros o e1 a s' e2 Hb.
  destruct (begin_delivery_fresh _ _ _ _ _ _ _ Hok Hb) as (_ & _ & _ & Hold).
  destruct (Hold _ _ Hk) as (_ & ? & ?). naive_solver.
Qed.

(** C14: An unknown provider outcome is never retried: when the provider call raises, unless
    it was cancelled, or returns something that is not a receipt, the attempt is reported as
    ambiguous and not retried, and once the result is persisted the ledger of attempts says
    so. *)
Theorem unknown_outcome_is_ambiguous d r env b w e rc retrying persisted w' e' :
  delivery_ok (w_repo w) -> _dispatch_atomic d r env b w e = (Ok (rc, retrying, persisted), w', e') ->
  (forall raw, provider_send (length (w_sends w)) env b <> SendReceipt raw) ->
  dr_status rc = AMBIGUOUS /\ retrying = false /\
  (persisted = true -> exists n,
     ledger (w_repo w') (ob_tenant_id r, ob_aggregate_id r) = Some (n, "ambiguous"%string)).
Proof.
  intros Hok Hrun Hno. revert Hrun.
  match goal with |- _ -> ?P => cut (wp (_dispatch_atomic d r env b)
    (fun x t _ => x = Ok (rc, retrying, persisted) -> t = w' -> P) w e) end.
  { intros Hw Hrun. by apply (wp_run _ _ _ _ _ _ _ Hw Hrun). }
  unfold _dispatch_atomic, send. apply wp_bind, wp_zoom, wp_intro. intros [a|x] s e1 Hb; [|done].
  pose proof (begin_delivery_law r (cd_owner_id d) (w_repo w) e Hok) as Hok1. unfold wp in Hok1. rewrite Hb in Hok1.
  destruct Hok1 as [Hok1 _]. simpl in Hok1.
  apply wp_bind, wp_raise_if; [done|]. intros _.
  apply wp_bind, wp_bind, wp_gets, wp_bind, wp_modify, wp_ret. cbv beta iota zeta. simpl.
  match goal with |- wp (bind _ ?k) ?Q ?t ?e => assert (Hk : wp (k (ambiguous_receipt (oe_outbound_id env) "transport_unknown")) Q t e) end.
  { apply wp_bind. unfold _retry_delay. simpl. wp_steps; try done. unfold except_Exception.
    all: apply wp_try, wp_bind, wp_zoom, wp_intro; intros [[]|x'] s2 e2 Hf; [|destruct x']; wp_steps; try done; intros [= <- <- <-] <-.
    all: split_and!; try done; intros _; eexists; simpl.
    all: by apply (finish_delivery_status _ _ _ _ _ _ _ _ _ Hok1) in Hf. }
  destruct (provider_send _ env b) as [raw| |x] eqn:Hs; [by destruct (Hno raw)|apply wp_bind, wp_ret, Hk|].
  destruct x; first [apply wp_bind, wp_ret, Hk|by apply wp_bind, wp_raise].
Qed.
End claims.

(** Retry delays are bounded: with a jitter that stays between zero and its
    base, the delay always exists, is non-negative, follows a provider hint up
    to an hour, and otherwise is at most the exponential backoff capped at a
    minute. *)
Theorem retry_delay_bounded {S} jitter rc n (s : S) e :
  match dr_retry_after_seconds rc with Some q => (0 <= q)%Q /\ (q <= 3600)%Q | None => True end ->
  (forall base, (0 <= base)%Q -> exists q, jitter base = Finite q /\ (0 <= q)%Q /\ (q <= base)%Q) ->
  0 <= n ->
  exists v, _retry_delay jitter rc n s e = (Ok v, s, e) /\ 0 <= v /\
    v <= match dr_retry_after_seconds rc with Some _ => 3600 | None => Z.min (2 ^ n) 60 end * 1000000.
Proof.
  intros Hrc Hj Hn. unfold _retry_delay. destruct (dr_retry_after_seconds rc) as [q|].
  - eexists. split; [done|]. destruct Hrc. by apply timedelta_seconds_bounds.
  - assert (0 < 2 ^ n) by (apply Z.pow_pos_nonneg; lia).
    assert (Hb : (0 <= inject_Z (Z.min (2 ^ n) 60))%Q) by (change 0%Q with (inject_Z 0); rewrite <-Zle_Qle; lia).
    destruct (Hj _ Hb) as (q & -> & Hq0 & Hq).
    apply Qle_bool_iff in Hq0 as Hq0'. unfold bind, raise_if. rewrite Hq0'. simpl.
    eexists. split; [done|]. unfold py_min. destruct (Qle_bool q 60) eqn:H60.
    + by apply timedelta_seconds_bounds.
    + exfalso. apply not_true_iff_false in H60. apply H60, Qle_bool_iff.
      assert (inject_Z (Z.min (2 ^ n) 60) <= inject_Z 60)%Q by (rewrite <-Zle_Qle; lia).
      change (inject_Z 60) with 60%Q in *. lra.
Qed.

(** ** Concrete runs *)

Section demo.
#[local] Existing Instance demo_env.
#[local] Existing Instance number_codec.
#[local] Instance failing_provider : Provider := fun _ _ _ => SendRaises (RuntimeError "reset").

Definition demo_binding : ChannelBinding := MkChannelBinding "binding" "acme" "app" FEISHU "account" ∅ true 1 ∅.
Definition demo_dispatcher : ChannelDispatcher :=
  MkChannelDispatcher [FEISHU] "d1" "outbound.feishu.ready" 5 25 30 Finite None.

Definition demo_outbox : list rcall :=
  [RAddRoute (MkBindingRoute demo_binding true 1 None 0);
   RAcceptInbound demo_context (demo_envelope "m1") ∅;
   RAcquire (demo_acceptance "id-0" "m1") "w1" (MailboxThms.seconds 60);
   RCommit (demo_turn "id-2" 1 0)].
Definition demo_world : World Repository * effects :=
  let c := run_rcalls demo_outbox (empty_repository, fx0) in (MkWorld c.1 [], c.2).
Definition demo_dispatched : World Repository * effects :=
  let '(_, w, e) := dispatch_once demo_dispatcher true (fun _ => false) demo_world.1 demo_world.2 in
  (w, e).

Lemma demo_dispatched_steps : rtc dstep demo_world (demo_dispatched.1, demo_dispatched.2).
Proof.
  unfold demo_dispatched. destruct demo_world as [w e]. simpl.
  destruct (dispatch_once demo_dispatcher true (fun _ => false) w e) as [[r w'] e'] eqn:Hrun.
  eapply rtc_once, dstep_dispatch, Hrun.
Qed.

Lemma provider_calls_distinct_isolated_witness :
  length (w_sends demo_dispatched.1) = 1%nat /\ NoDup (attempts_of (w_sends demo_dispatched.1)).
Proof.
  split; [vm_compute; reflexivity|].
  exact (proj1 (provider_calls_distinct_isolated _ _ _ _ ltac:(exact I) demo_dispatched_steps)).
Defined.

Definition demo_again : World Repository * effects :=
  let '(_, w, e) := dispatch_once demo_dispatcher true (fun _ => false) demo_dispatched.1
                      demo_dispatched.2 in (w, e).

Lemma demo_again_steps :
  rtc dstep (demo_dispatched.1, demo_dispatched.2) (demo_again.1, demo_again.2).
Proof.
  unfold demo_again. destruct demo_dispatched as [w e]. simpl.
  destruct (dispatch_once demo_dispatcher true (fun _ => false) w e) as [[r w'] e'] eqn:Hrun.
  eapply rtc_once, dstep_dispatch, Hrun.
Qed.

Lemma no_provider_call_after_final_witness :
  sends_for ("acme", "out-1")%string (w_sends demo_again.1)
  = sends_for ("acme", "out-1")%string (w_sends demo_dispatched.1).
Proof.
  apply (no_provider_call_after_final _ _ demo_dispatched.1 demo_dispatched.2 demo_again.1
    demo_again.2 ("acme", "out-1")%string 1 "ambiguous" ltac:(exact I) demo_dispatched_steps).
  - vm_compute. reflexivity.
  - right. reflexivity.
  - exact demo_again_steps.
Defined.

Lemma no_send_while_in_flight_witness :
  w_sends (_dispatch_record demo_dispatcher true demo_record demo_dispatched.1 demo_dispatched.2).1.2
  = w_sends demo_dispatched.1.
Proof.
  apply (no_send_while_in_flight demo_dispatcher demo_record demo_dispatched.1 demo_dispatched.2 1
    "ambiguous" ltac:(exact I)).
  - vm_compute. reflexivity.
  - right. right. reflexivity.
Defined.

(** The same record, claimed, delivered by hand. *)
Definition demo_claimed_world : World Repository * effects :=
  let c := run_rcalls (demo_outbox ++ [RClaimOutbox "outbound.feishu.ready" "d1" 25 1])
             (empty_repository, fx0) in (MkWorld c.1 [], c.2).

Lemma unknown_outcome_is_ambiguous_witness : exists rc retrying persisted w' e',
  _dispatch_atomic demo_dispatcher demo_record demo_outbound demo_binding demo_claimed_world.1
    demo_claimed_world.2 = (Ok (rc, retrying, persisted), w', e') /\ dr_status rc = AMBIGUOUS.
Proof.
  destruct (ok_with_run (fun _ _ _ => true) (_dispatch_atomic demo_dispatcher demo_record demo_outbound
    demo_binding demo_claimed_world.1 demo_claimed_world.2))
    as ([[rc retrying] persisted] & w' & e' & Hrun & _); [vm_compute; reflexivity|].
  exists rc, retrying, persisted, w', e'. split; [exact Hrun|].
  refine (proj1 (unknown_outcome_is_ambiguous demo_dispatcher demo_record demo_outbound demo_binding
    _ _ rc retrying persisted w' e' ltac:(exact I) Hrun _)). discriminate.
Defined.

Lemma retry_delay_bounded_witness : exists v,
  _retry_delay Finite (demo_receipt FAILED true) 3 tt fx0 = (Ok v, tt, fx0) /\ 0 <= v /\ v <= 8000000.
Proof.
  destruct (retry_delay_bounded Finite (demo_receipt FAILED true) 3 tt fx0) as (v & Hrun & Hv & Hle).
  - exact I.
  - intros base Hb. exists base. split; [reflexivity|split; [exact Hb|apply Qle_refl]].
  - lia.
  - exists v. split; [exact Hrun|split; [exact Hv|exact Hle]].
Defined.
End demo.
