(* ===== verification/PgDelivery.v ===== *)
(** * The PostgreSQL outbox and delivery ledger

    The outbox and delivery methods of [PostgresRuntimeRepository]
    ([trpc_service/storage/postgres.py]) over the tables of migrations 0001 and 0021: the
    outbox rows, the outbound messages, the delivery attempts, the dead letters and the
    audit log.  A transaction that raises is rolled back; [now()] is the time at which it
    began.  Rows are locked before they are changed, so transactions on one row run one
    after the other.  Columns that no method reads, integer column widths, row-level
    security and the write barrier of migrations are not modelled. *)

From S2P Require Import Prelude PyText Tenant TenantRules Models Mailbox Repository.
From Stdlib Require Import QArith.
#[local] Close Scope Q_scope.
#[local] Open Scope Z_scope.

(** ** Tables *)

Record EventRow : Type := MkEventRow {
  ev_aggregate_id : string;
  ev_event_type : string;
  ev_payload : gmap string pyval;
  ev_trace_headers : gmap string string;
  ev_attempts : Z;
  ev_available_at : Z;
  ev_claimed_by : option string;
  ev_claim_expires_at : option Z;
  ev_published_at : option Z;
  ev_last_error_type : option string;
  ev_created_at : Z;
}.

#[export] Instance EventRow_settable : Settable EventRow := fun r =>
  MkEventRow (ev_aggregate_id r) (ev_event_type r) (ev_payload r) (ev_trace_headers r) (ev_attempts r)
    (ev_available_at r) (ev_claimed_by r) (ev_claim_expires_at r) (ev_published_at r)
    (ev_last_error_type r) (ev_created_at r).

(** A row of [outbound_messages]. *)
Record MessageRow : Type := MkMessageRow {
  om_status : string;
  om_provider_message_id : option string;
  om_last_error_type : option string;
  om_updated_at : Z;
}.

#[export] Instance MessageRow_settable : Settable MessageRow := fun r =>
  MkMessageRow (om_status r) (om_provider_message_id r) (om_last_error_type r) (om_updated_at r).

Record AttemptRow : Type := MkAttemptRow {
  at_status : string;
  at_provider_code : option string;
  at_retry_after_seconds : option Q;
  at_completed_at : option Z;
}.

#[export] Instance AttemptRow_settable : Settable AttemptRow := fun r =>
  MkAttemptRow (at_status r) (at_provider_code r) (at_retry_after_seconds r) (at_completed_at r).

Record DeadLetterRow : Type := MkDeadLetterRow {
  dl_tenant_id : string;
  dl_source_type : string;
  dl_source_id : string;
  dl_reason : string;
  dl_payload : gmap string pyval;
}.

(** What [record_delivery] writes to [audit_logs]. *)
Record DeliveryAudit : Type := MkDeliveryAudit {
  au_tenant_id : string;
  au_decision : string;
  au_error_type : option string;
  au_trace_id : string;
}.

(** Rows are keyed by tenant and identifier; [pd_routes] are the rows of the join behind
    [resolve_channel_binding]. *)
Record PgDelivery : Type := MkPgDelivery {
  pd_routes : list BindingRoute;
  pd_outbox : gmap id_key EventRow;
  pd_outbound : gmap id_key MessageRow;
  pd_attempts : gmap (id_key * Z) AttemptRow;
  pd_dead_letters : list DeadLetterRow;
  pd_audit : list DeliveryAudit;
}.

#[export] Instance PgDelivery_settable : Settable PgDelivery := fun s =>
  MkPgDelivery (pd_routes s) (pd_outbox s) (pd_outbound s) (pd_attempts s) (pd_dead_letters s) (pd_audit s).

(** ** Statements *)

(** [UPDATE ... WHERE] of the row with a key; the answer is whether a row was updated. *)
Definition update_event (key : id_key) (cond : EventRow -> bool) (f : EventRow -> EventRow) : M PgDelivery bool :=
  let* row := gets (fun s => pd_outbox s !! key) in
  match row with
  | Some r =>
    if cond r then modify (fun s => s <| pd_outbox := <[key := f r]> (pd_outbox s) |>) ;; ret true else ret false
  | None => ret false
  end.

Definition update_message (key : id_key) (cond : MessageRow -> bool) (f : MessageRow -> MessageRow) : M PgDelivery bool :=
  let* row := gets (fun s => pd_outbound s !! key) in
  match row with
  | Some r =>
    if cond r then modify (fun s => s <| pd_outbound := <[key := f r]> (pd_outbound s) |>) ;; ret true else ret false
  | None => ret false
  end.

Definition update_attempt (key : id_key * Z) (cond : AttemptRow -> bool) (f : AttemptRow -> AttemptRow) : M PgDelivery bool :=
  let* row := gets (fun s => pd_attempts s !! key) in
  match row with
  | Some r =>
    if cond r then modify (fun s => s <| pd_attempts := <[key := f r]> (pd_attempts s) |>) ;; ret true else ret false
  | None => ret false
  end.

(** The foreign key of [delivery_attempts]; its numbers are unique per message. *)
Definition insert_attempt (key : id_key) (number : Z) (row : AttemptRow) : M PgDelivery unit :=
  let* known := gets (fun s => bool_decide (is_Some (pd_outbound s !! key))) in
  raise_if (negb known) (IntegrityError "delivery_attempts_tenant_id_outbound_id_fkey") ;;
  let* taken := gets (fun s => bool_decide (is_Some (pd_attempts s !! (key, number)))) in
  raise_if taken (IntegrityError "delivery_attempts_tenant_id_outbound_id_attempt_number_key") ;;
  modify (fun s => s <| pd_attempts := <[(key, number) := row]> (pd_attempts s) |>).

(** [coalesce(max(attempt_number),0)]. *)
Fixpoint max_of (l : list Z) : option Z :=
  match l with
  | [] => None
  | n :: rest => Some (match max_of rest with Some m => Z.max n m | None => n end)
  end.

Definition attempt_numbers (key : id_key) (attempts : gmap (id_key * Z) AttemptRow) : list Z :=
  omap (fun x => if decide (x.1.1 = key) then Some x.1.2 else None) (map_to_list attempts).

Definition last_attempt (key : id_key) (s : PgDelivery) : Z := default 0 (max_of (attempt_numbers key (pd_attempts s))).

(** The CHECK of migration 0021. *)
Definition retry_after_ok (q : option Q) : bool :=
  match q with Some q => Qle_bool 0 q && Qle_bool q 3600 | None => true end.

Definition insert_dead_letter (row : DeadLetterRow) : M PgDelivery unit :=
  modify (fun s => s <| pd_dead_letters := pd_dead_letters s ++ [row] |>).

Definition claim_lost : exn := FencingConflict "outbox claim is no longer current".

(** [claimed_by=$3] and [published_at IS NULL]. *)
Definition held_by (owner_id : string) (r : EventRow) : bool := bool_decide (ev_claimed_by r = Some owner_id).
Definition unpublished (r : EventRow) : bool := bool_decide (ev_published_at r = None).
Definition status_in (statuses : list string) (r : MessageRow) : bool := bool_decide (om_status r ∈ statuses).

(** [SET published_at=now(), claimed_by=NULL, claim_expires_at=NULL]. *)
Definition retire (now : Z) (r : EventRow) : EventRow :=
  r <| ev_published_at := Some now |> <| ev_claimed_by := None |> <| ev_claim_expires_at := None |>.

(** [SET claimed_by=NULL, claim_expires_at=NULL, available_at=now()+delay, last_error_type=...]. *)
Definition reschedule (now delay : Z) (error_type : option string) (r : EventRow) : EventRow :=
  r <| ev_claimed_by := None |> <| ev_claim_expires_at := None |> <| ev_available_at := now + delay |>
    <| ev_last_error_type := error_type |>.

Section methods.
Context `{Env} `{UuidText}.

Definition as_uuid (text : string) : M PgDelivery string :=
  match parse_uuid text with
  | Some u => ret u
  | None => raise (ValueError "badly formed hexadecimal UUID string")
  end.

(** [async with self._tenant_transaction(tenant_id)]: the body is given [now()]. *)
Definition _tenant_transaction {A} (body : Z -> M PgDelivery A) : M PgDelivery A :=
  rollback (let* now := datetime_now in body now).

(** ** The outbox *)

Definition resolve_binding (binding_id : string) : M PgDelivery (option BindingRoute) :=
  let* rows := gets (fun s => List.filter (fun r => bool_decide (cb_binding_id (br_binding r) = binding_id)) (pd_routes s)) in
  match rows with
  | [] => ret None
  | row :: _ =>
    raise_if (negb (ChannelBinding_ok (br_binding row))) (ValidationError "ChannelBinding") ;;
    ret (Some row)
  end.

(** [round(x)] of a number of microseconds, in seconds. *)
Definition round_seconds (us : Z) : Z :=
  let q := us / 1000000 in
  match (us mod 1000000) ?= 500000 with
  | Lt => q
  | Gt => q + 1
  | Eq => if Z.even q then q else q + 1
  end.

(** The condition of [claim_outbox_events]. *)
Definition claimable (event_type : string) (now : Z) (r : EventRow) : bool :=
  bool_decide (ev_event_type r = event_type) && unpublished r && (ev_available_at r <=? now)
  && match ev_claim_expires_at r with Some t => t <=? now | None => true end.

Definition claim_order : relation (Z * Z) := lex Z.le Z.le.

(** [ORDER BY available_at, created_at ... LIMIT greatest(1, least(p_limit, 1000))]; the order of
    rows that agree in both is the planner's. *)
Definition candidates (event_type : string) (now limit : Z) (outbox : gmap id_key EventRow) : list (id_key * EventRow) :=
  take (Z.to_nat (Z.max 1 (Z.min limit 1000)))
    (sorted_by claim_order (fun x => (ev_available_at x.2, ev_created_at x.2))
       (List.filter (fun x => claimable event_type now x.2) (map_to_list outbox))).

Definition claim_row (owner_id : string) (now seconds : Z) (r : EventRow) : EventRow :=
  r <| ev_claimed_by := Some owner_id |> <| ev_claim_expires_at := Some (now + seconds * 1000000) |>
    <| ev_attempts := ev_attempts r + 1 |>.

Definition outbox_record (key : id_key) (r : EventRow) : OutboxRecord :=
  MkOutboxRecord key.2 key.1 (ev_event_type r) (ev_aggregate_id r) (ev_payload r) (ev_trace_headers r) (ev_attempts r).

Fixpoint claim_rows (owner_id : string) (now seconds : Z) (rows : list (id_key * EventRow)) : M PgDelivery (list OutboxRecord) :=
  match rows with
  | [] => ret []
  | (key, r) :: rest =>
    let claimed := claim_row owner_id now seconds r in
    modify (fun s => s <| pd_outbox := <[key := claimed]> (pd_outbox s) |>) ;;
    let* more := claim_rows owner_id now seconds rest in
    ret (outbox_record key claimed :: more)
  end.

Definition claim_outbox (event_type owner_id : string) (limit lease_for : Z) : M PgDelivery (list OutboxRecord) :=
  _tenant_transaction (fun now =>
    let* outbox := gets pd_outbox in
    claim_rows owner_id now (round_seconds lease_for) (candidates event_type now limit outbox)).

Definition mark_outbox_published (tenant_id outbox_id owner_id : string) : M PgDelivery unit :=
  let* updated := _tenant_transaction (fun now =>
    let* id := as_uuid outbox_id in
    update_event (tenant_id, id) (fun r => held_by owner_id r && unpublished r) (retire now)) in
  raise_if (negb updated) claim_lost.

Definition release_outbox (tenant_id outbox_id owner_id : string) (delay : Z) (error_type : string) : M PgDelivery unit :=
  _tenant_transaction (fun now =>
    let* id := as_uuid outbox_id in
    let* updated := update_event (tenant_id, id) (held_by owner_id) (reschedule now delay (Some error_type)) in
    raise_if (negb updated) claim_lost).

Definition dead_letter_outbox (record : OutboxRecord) (owner_id reason : string) : M PgDelivery unit :=
  _tenant_transaction (fun now =>
    let* id := as_uuid (ob_outbox_id record) in
    let* updated := update_event (ob_tenant_id record, id) (fun r => held_by owner_id r && unpublished r)
      (fun r => retire now r <| ev_last_error_type := Some reason |>) in
    raise_if (negb updated) claim_lost ;;
    insert_dead_letter (MkDeadLetterRow (ob_tenant_id record) (ob_event_type record) (ob_aggregate_id record)
                          reason (ob_payload record))).

(** ** The delivery ledger *)

(** The aggregate of the first statement always has a row, so the test for [None] never
    succeeds; an unknown message violates the foreign key. *)
Definition record_delivery (tenant_id : string) (receipt : DeliveryReceipt) (retrying : bool) : M PgDelivery unit :=
  let* outbound_uuid := as_uuid (dr_outbound_id receipt) in
  let key := (tenant_id, outbound_uuid) in
  let status := if retrying then "pending"%string else DeliveryStatus_value (dr_status receipt) in
  _tenant_transaction (fun now =>
    let* last := gets (last_attempt key) in
    insert_attempt key (last + 1)
      (MkAttemptRow (DeliveryStatus_value (dr_status receipt)) (dr_provider_code receipt) None (Some now)) ;;
    let* updated := update_message key (status_in ["pending"; "sending"; "failed"; "ambiguous"])
      (fun r => MkMessageRow status (dr_provider_message_id receipt) (dr_provider_code receipt) now) in
    raise_if (negb updated) (FencingConflict "outbound delivery state is already terminal") ;;
    modify (fun s => s <| pd_audit := pd_audit s ++
      [MkDeliveryAudit tenant_id ("outbound_" +:+ DeliveryStatus_value (dr_status receipt)) (dr_provider_code receipt)
         ("delivery:" +:+ outbound_uuid)] |>)).

(** [outbox is None or outbox["claimed_by"] != owner_id or outbox["published_at"] is not None]. *)
Definition require_event (key : id_key) (owner_id : string) : M PgDelivery unit :=
  let* row := gets (fun s => pd_outbox s !! key) in
  raise_if (negb match row with Some r => held_by owner_id r && unpublished r | None => false end) claim_lost.

Definition begin_delivery (record : OutboxRecord) (owner_id : string) : M PgDelivery DeliveryAttempt :=
  let* outbound_uuid := as_uuid (ob_aggregate_id record) in
  let key := (ob_tenant_id record, outbound_uuid) in
  let* attempt := _tenant_transaction (fun now =>
    let* id := as_uuid (ob_outbox_id record) in
    require_event (ob_tenant_id record, id) owner_id ;;
    let* row := gets (fun s => pd_outbound s !! key) in
    match row with
    | None => raise (LookupError "outbound message does not exist")
    | Some outbound =>
      let* latest := gets (last_attempt key) in
      raise_if (bool_decide (om_status outbound = "sending"%string))
        (DeliveryInProgress "provider delivery is still unresolved" (if latest =? 0 then None else Some latest)) ;;
      raise_if (bool_decide (om_status outbound = "delivered"%string))
        (FencingConflict "outbound message is already delivered") ;;
      raise_if (bool_decide (om_status outbound = "ambiguous"%string))
        (FencingConflict "ambiguous delivery requires manual replay") ;;
      insert_attempt key (latest + 1) (MkAttemptRow "sending" None None None) ;;
      let* updated := update_message key (status_in ["pending"; "failed"; "ambiguous"])
        (fun r => r <| om_status := "sending"%string |> <| om_last_error_type := None |> <| om_updated_at := now |>) in
      raise_if (negb updated) (FencingConflict "outbound delivery state changed before begin") ;;
      ret (latest + 1)
    end) in
  raise_if (attempt <? 1) (ValidationError "DeliveryAttempt") ;;
  ret (MkDeliveryAttempt (ob_tenant_id record) (ob_aggregate_id record) attempt owner_id).

(** The last part of [finish_delivery]: what becomes of the outbox row. *)
Definition close_event (record : OutboxRecord) (id owner_id : string) (receipt : DeliveryReceipt) (retry_delay now : Z)
    : M PgDelivery unit :=
  let key := (ob_tenant_id record, id) in
  let mine := fun r => held_by owner_id r && unpublished r in
  match dr_status receipt, dr_retryable receipt with
  | DELIVERED, _ =>
    let* updated := update_event key mine (retire now) in
    raise_if (negb updated) (FencingConflict "outbox claim was lost while finishing delivery")
  | FAILED, true =>
    let* updated := update_event key mine (reschedule now retry_delay (dr_provider_code receipt)) in
    raise_if (negb updated) (FencingConflict "outbox claim was lost while scheduling retry")
  | _, _ =>
    let* updated := update_event key mine (fun r => retire now r
      <| ev_last_error_type := Some (str_or (dr_provider_code receipt) (DeliveryStatus_value (dr_status receipt))) |>) in
    raise_if (negb updated) (FencingConflict "outbox claim was lost while closing delivery") ;;
    insert_dead_letter (MkDeadLetterRow (ob_tenant_id record) "outbound" (ob_aggregate_id record)
                          (DeliveryStatus_value (dr_status receipt)) (ob_payload record))
  end.

Definition finish_delivery (record : OutboxRecord) (owner_id : string) (attempt_number : Z) (receipt : DeliveryReceipt)
    (retry_delay : Z) : M PgDelivery unit :=
  let* outbound_uuid := as_uuid (ob_aggregate_id record) in
  let key := (ob_tenant_id record, outbound_uuid) in
  raise_if (negb (bool_decide (dr_outbound_id receipt = ob_aggregate_id record)))
    (ValueError "delivery receipt does not match outbox record") ;;
  raise_if (retry_delay <? 0) (ValueError "retry delay must be non-negative") ;;
  _tenant_transaction (fun now =>
    let* id := as_uuid (ob_outbox_id record) in
    require_event (ob_tenant_id record, id) owner_id ;;
    let* attempt := gets (fun s => pd_attempts s !! (key, attempt_number)) in
    raise_if (negb match attempt with Some a => bool_decide (at_status a = "sending"%string) | None => false end)
      (FencingConflict "delivery attempt is no longer current") ;;
    raise_if (negb (retry_after_ok (dr_retry_after_seconds receipt)))
      (IntegrityError "delivery_attempts_retry_after_seconds_check") ;;
    let* changed := update_attempt (key, attempt_number) (fun a => bool_decide (at_status a = "sending"%string))
      (fun _ => MkAttemptRow (DeliveryStatus_value (dr_status receipt)) (dr_provider_code receipt)
                  (dr_retry_after_seconds receipt) (Some now)) in
    raise_if (negb changed) (FencingConflict "delivery attempt changed before finish") ;;
    let* updated := update_message key (status_in ["sending"])
      (fun r => MkMessageRow (DeliveryStatus_value (dr_status receipt)) (dr_provider_message_id receipt)
                  (dr_provider_code receipt) now) in
    raise_if (negb updated) (FencingConflict "outbound delivery state is no longer sending") ;;
    close_event record id owner_id receipt retry_delay now).
End methods.
