(* ===== verification/PgDeliveryThms.v ===== *)
(** * Theorems on the PostgreSQL delivery ledger

    The PostgreSQL repository satisfies the delivery contract, so the theorems on the
    dispatcher hold of it; a result is recorded only for the attempt that is being sent. *)

From S2P Require Import Prelude PyText Tenant TenantRules Models Mailbox Repository RepositoryInv RepositoryThms PgDelivery Delivery ChannelDispatcher ChannelDispatcherThms.
From Stdlib Require Import QArith.
#[local] Close Scope Q_scope.
#[local] Open Scope Z_scope.

(** ** The last attempt *)

Lemma max_of_None l : max_of l = None <-> l = [].
Proof. by destruct l. Qed.

Lemma max_of_Some l n : max_of l = Some n <-> n ∈ l /\ forall m, m ∈ l -> m <= n.
Proof.
  revert n. induction l as [|x l IH]; intros n; simpl.
  { split; [done|]. intros [Hn _]. by apply not_elem_of_nil in Hn. }
  destruct (max_of l) as [m|] eqn:E.
  - destruct (proj1 (IH m) eq_refl) as [Hm Hmax]. split.
    + intros [= <-]. split.
      * destruct (Z.max_spec x m) as [[_ ->]|[_ ->]]; [by right|left].
      * intros y [->|Hy]%elem_of_cons; [lia|]. specialize (Hmax y Hy). lia.
    + intros [Hn Hle]. f_equal. apply Z.le_antisymm.
      * apply Z.max_lub; apply Hle; [left|by right].
      * apply elem_of_cons in Hn as [->|Hn]; [lia|]. specialize (Hmax n Hn). lia.
  - apply max_of_None in E as ->. split.
    + intros [= ->]. split; [left|]. intros y Hy%list_elem_of_singleton. lia.
    + intros [Hn%list_elem_of_singleton _]. congruence.
Qed.

Lemma elem_of_attempt_numbers (key : id_key) (n : Z) (tbl : gmap (id_key * Z) AttemptRow) : n ∈ attempt_numbers key tbl <-> is_Some (tbl !! (key, n)).
Proof.
  unfold attempt_numbers. rewrite list_elem_of_omap. split.
  - intros ([[k m] a] & Hin & Hd). apply elem_of_map_to_list in Hin. simpl in Hd. case_decide; simplify_eq/=. by exists a.
  - intros [a Ha]. exists ((key, n), a). split; [by apply elem_of_map_to_list|]. simpl. by rewrite decide_True.
Qed.

(** [n] is the last attempt of the message. *)
Definition last_is (tbl : gmap (id_key * Z) AttemptRow) (key : id_key) (n : Z) : Prop :=
  is_Some (tbl !! (key, n)) /\ forall m, is_Some (tbl !! (key, m)) -> m <= n.

Lemma max_last tbl key (n : Z) : max_of (attempt_numbers key tbl) = Some n <-> last_is tbl key n.
Proof.
  rewrite max_of_Some. unfold last_is. rewrite elem_of_attempt_numbers.
  split; (intros [Hn Hle]; split; [done|]); intros m Hm; apply Hle; by apply elem_of_attempt_numbers.
Qed.

Lemma last_is_unique tbl key n m : last_is tbl key n -> last_is tbl key m -> n = m.
Proof. intros [Hn Hn'] [Hm Hm']. apply Z.le_antisymm; auto. Qed.

(** ** The ledger *)

Definition ledger_at (msgs : gmap id_key MessageRow) (tbl : gmap (id_key * Z) AttemptRow) (key : id_key) : option (Z * string) :=
  n ← max_of (attempt_numbers key tbl); m ← msgs !! key; Some (n, om_status m).

Definition pg_ledger `{UuidText} (s : PgDelivery) (key : id_key) : option (Z * string) :=
  u ← parse_uuid key.2; ledger_at (pd_outbound s) (pd_attempts s) (key.1, u).

Lemma ledger_at_Some msgs tbl key n st :
  ledger_at msgs tbl key = Some (n, st) <->
  last_is tbl key n /\ exists m, msgs !! key = Some m /\ om_status m = st.
Proof.
  unfold ledger_at. rewrite <-max_last. destruct (max_of _) as [n'|]; simpl.
  - destruct (msgs !! key) as [m|]; simpl; split.
    + intros [= -> <-]. eauto.
    + intros [[= ->] (m' & [= <-] & <-)]. done.
    + done.
    + intros (_ & m' & Hm & _). done.
  - split; [done|]. by intros [? _].
Qed.

(** The states the methods reach: attempts belong to messages and are numbered from one; of a
    message that is being sent exactly the last attempt is being sent, and of one that waits
    for another attempt none is. *)
Definition waiting (st : string) : Prop := st = "pending"%string \/ st = "failed"%string.

Record tables_ok (msgs : gmap id_key MessageRow) (tbl : gmap (id_key * Z) AttemptRow) : Prop := {
  to_message : forall key n a, tbl !! (key, n) = Some a -> is_Some (msgs !! key) /\ 1 <= n;
  to_waiting : forall key n a m, tbl !! (key, n) = Some a -> at_status a = "sending"%string ->
    msgs !! key = Some m -> ~ waiting (om_status m);
  to_last : forall key n a m, tbl !! (key, n) = Some a -> at_status a = "sending"%string ->
    msgs !! key = Some m -> om_status m = "sending"%string -> last_is tbl key n;
  to_current : forall key m, msgs !! key = Some m -> om_status m = "sending"%string ->
    exists n a, tbl !! (key, n) = Some a /\ at_status a = "sending"%string;
}.

Definition pg_delivery_ok (s : PgDelivery) : Prop := tables_ok (pd_outbound s) (pd_attempts s).

(** The ledger of every key moves forward. *)
Definition tables_le (msgs : gmap id_key MessageRow) (tbl : gmap (id_key * Z) AttemptRow) (msgs' : gmap id_key MessageRow) (tbl' : gmap (id_key * Z) AttemptRow) : Prop :=
  forall key n st, ledger_at msgs tbl key = Some (n, st) ->
    exists n' st', ledger_at msgs' tbl' key = Some (n', st') /\ n <= n' /\ (terminal st -> st' = st).

Lemma last_is_insert_new tbl key (n : Z) a :
  (forall m, is_Some (tbl !! (key, m)) -> m < n) -> last_is (<[(key, n) := a]> tbl) key n.
Proof.
  intros Hlt. split; [rewrite lookup_insert_eq; eauto|]. intros m Hm.
  destruct (decide (m = n)) as [->|Hne]; [lia|]. rewrite lookup_insert_ne in Hm by congruence.
  specialize (Hlt m Hm). lia.
Qed.

Lemma is_Some_insert_old {K A} `{Countable K} (m : gmap K A) k k' a :
  is_Some (m !! k) -> is_Some (<[k := a]> m !! k') <-> is_Some (m !! k').
Proof.
  intros Hk. destruct (decide (k' = k)) as [->|Hne].
  - rewrite lookup_insert_eq. split; eauto.
  - by rewrite lookup_insert_ne.
Qed.

(** Changing a row that exists changes no number. *)
Lemma last_is_insert_old tbl key' n' a key n :
  is_Some (tbl !! (key', n')) -> last_is (<[(key', n') := a]> tbl) key n <-> last_is tbl key n.
Proof.
  intros Hs. unfold last_is. rewrite is_Some_insert_old by done. split; intros [Hn Hle]; (split; [done|]);
    intros m Hm; apply Hle; by rewrite is_Some_insert_old in *.
Qed.

Lemma last_is_insert_other tbl key' n' a key n :
  key <> key' -> last_is (<[(key', n') := a]> tbl) key n <-> last_is tbl key n.
Proof.
  intros Hne. unfold last_is. rewrite lookup_insert_ne by congruence. split; intros [Hn Hle]; (split; [done|]);
    intros m Hm; apply Hle; by rewrite lookup_insert_ne in * by congruence.
Qed.

(** ** The three changes of the ledger *)

(** The row of one message and one attempt are written. *)
Lemma tables_le_write msgs tbl key m m' n a :
  msgs !! key = Some m -> last_is (<[(key, n) := a]> tbl) key n -> (terminal (om_status m) -> om_status m' = om_status m) ->
  tables_le msgs tbl (<[key := m']> msgs) (<[(key, n) := a]> tbl).
Proof.
  intros Hm Hlast Ht key' k st (Hk & m0 & Hm0 & <-)%ledger_at_Some. destruct (decide (key' = key)) as [->|Hne].
  - simplify_eq. exists n, (om_status m'). split; [|split; [|done]].
    + apply ledger_at_Some. split; [done|]. exists m'. by rewrite lookup_insert_eq.
    + apply Hlast. destruct (decide (k = n)) as [->|Hkn]; [rewrite lookup_insert_eq; eauto|].
      rewrite lookup_insert_ne by congruence. apply Hk.
  - exists k, (om_status m0). split; [|split; [lia|done]]. apply ledger_at_Some. rewrite last_is_insert_other by done.
    split; [done|]. exists m0. by rewrite lookup_insert_ne.
Qed.

(** What the invariant says of one message. *)
Record message_ok (m : option MessageRow) (rows : Z -> option AttemptRow) : Prop := {
  mo_message : forall n a, rows n = Some a -> is_Some m /\ 1 <= n;
  mo_waiting : forall n a m', rows n = Some a -> at_status a = "sending"%string -> m = Some m' -> ~ waiting (om_status m');
  mo_last : forall n a m', rows n = Some a -> at_status a = "sending"%string -> m = Some m' ->
    om_status m' = "sending"%string -> forall k, is_Some (rows k) -> k <= n;
  mo_current : forall m', m = Some m' -> om_status m' = "sending"%string ->
    exists n a, rows n = Some a /\ at_status a = "sending"%string;
}.

Lemma tables_ok_messages msgs tbl :
  tables_ok msgs tbl <-> forall key, message_ok (msgs !! key) (fun n => tbl !! (key, n)).
Proof.
  split.
  - intros [H1 H2 H3 H4] key. split; [eauto..|eauto].
    intros n a m' Ha Hs Hm Hst k Hk. by apply (H3 key n a m').
  - intros Hall. split.
    + intros key n a. apply (Hall key).
    + intros key n a m. apply (Hall key).
    + intros key n a m Ha Hs Hm Hst. split; [eauto|]. by apply (mo_last _ _ (Hall key) n a m).
    + intros key m. apply (Hall key).
Qed.

Lemma message_ok_ext m rows rows' : (forall k, rows' k = rows k) -> message_ok m rows -> message_ok m rows'.
Proof.
  intros E [H1 H2 H3 H4]. split.
  - intros n a. rewrite E. eauto.
  - intros n a m'. rewrite E. eauto.
  - intros n a m'. rewrite E. intros Ha Hs Hm Hst k. rewrite E. by eapply H3.
  - intros m' Hm Hst. destruct (H4 m' Hm Hst) as (n & a & Ha & Hs). exists n, a. by rewrite E.
Qed.

Definition written (rows : Z -> option AttemptRow) (n : Z) (a : AttemptRow) (k : Z) : option AttemptRow :=
  if decide (k = n) then Some a else rows k.

(** Only one message and one of its attempts change. *)
Lemma tables_ok_write msgs tbl key m' n a :
  tables_ok msgs tbl -> message_ok (Some m') (written (fun k => tbl !! (key, k)) n a) ->
  tables_ok (<[key := m']> msgs) (<[(key, n) := a]> tbl).
Proof.
  rewrite !tables_ok_messages. intros Hall Hnew key'. destruct (decide (key' = key)) as [->|Hne].
  - rewrite lookup_insert_eq. eapply message_ok_ext; [|exact Hnew]. intros k. unfold written.
    case_decide as Hk; [by rewrite Hk, lookup_insert_eq|]. by rewrite lookup_insert_ne by congruence.
  - rewrite lookup_insert_ne by done. eapply message_ok_ext; [|exact (Hall key')]. intros k.
    by rewrite lookup_insert_ne by congruence.
Qed.

Section changes.
Context (msgs : gmap id_key MessageRow) (tbl : gmap (id_key * Z) AttemptRow) (key : id_key) (m m' : MessageRow).
Context (Hok : tables_ok msgs tbl) (Hm : msgs !! key = Some m).

Definition outcome_status (st : string) : Prop := st = "failed"%string \/ terminal st.

(** Numbers above all others. *)
Definition above (n : Z) : Prop := 1 <= n /\ forall k, is_Some (tbl !! (key, k)) -> k < n.

Lemma written_rows n a k b : written (fun k => tbl !! (key, k)) n a k = Some b -> (k = n /\ b = a) \/ (k <> n /\ tbl !! (key, k) = Some b).
Proof. unfold written. case_decide; [intros [= ->]; by left|by right]. Qed.

(** An attempt begins. *)
Lemma begin_change n a :
  waiting (om_status m) -> om_status m' = "sending"%string -> at_status a = "sending"%string -> above n ->
  tables_ok (<[key := m']> msgs) (<[(key, n) := a]> tbl) /\ tables_le msgs tbl (<[key := m']> msgs) (<[(key, n) := a]> tbl).
Proof.
  intros Hw Hs Ha [H1 Habove]. split.
  - apply tables_ok_write; [done|]. split.
    + intros k b [[-> ->]|[Hne Hb]]%written_rows; [eauto|]. split; [eauto|]. by eapply to_message.
    + intros k b mm _ _ [= <-] [E|E]; rewrite Hs in E; done.
    + intros k b mm [[-> ->]|[Hne Hb]]%written_rows Hbs [= <-] _ i [c [[-> ->]|[_ Hi]]%written_rows]; [lia| | |].
      * assert (i < n) by (apply Habove; eauto). lia.
      * by destruct (to_waiting _ _ Hok _ _ _ _ Hb Hbs Hm).
      * by destruct (to_waiting _ _ Hok _ _ _ _ Hb Hbs Hm).
    + intros mm _ _. exists n, a. unfold written. by rewrite decide_True.
  - eapply tables_le_write; [done|by apply last_is_insert_new|]. intros Ht.
    destruct Hw as [E|E]; rewrite E in Ht; by destruct Ht.
Qed.

(** The attempt that is being sent ends. *)
Lemma finish_change n a a' :
  om_status m = "sending"%string -> tbl !! (key, n) = Some a -> at_status a = "sending"%string ->
  outcome_status (om_status m') -> at_status a' <> "sending"%string ->
  tables_ok (<[key := m']> msgs) (<[(key, n) := a']> tbl) /\ tables_le msgs tbl (<[key := m']> msgs) (<[(key, n) := a']> tbl) /\
  ledger_at (<[key := m']> msgs) (<[(key, n) := a']> tbl) key = Some (n, om_status m').
Proof.
  intros Hst Ha Has Hout Ha'. pose proof (to_last _ _ Hok key n a m Ha Has Hm Hst) as Hlast.
  assert (Hl : last_is (<[(key, n) := a']> tbl) key n) by (apply last_is_insert_old; [eauto|done]).
  assert (Hns : om_status m' <> "sending"%string) by (intros E; rewrite E in Hout; by destruct Hout as [?|[?|?]]).
  split_and!.
  - apply tables_ok_write; [done|]. split.
    + intros k b [[-> ->]|[Hne Hb]]%written_rows; (split; [eauto|]); by eapply to_message.
    + intros k b mm [[-> ->]|[Hne Hb]]%written_rows Hbs [= <-]; [done|].
      destruct Hne. eapply last_is_unique; [|exact Hlast]. by eapply to_last.
    + intros k b mm _ _ [= <-] E. done.
    + intros mm [= <-] E. done.
  - eapply tables_le_write; [done..|]. rewrite Hst. by intros [?|?].
  - apply ledger_at_Some. split; [done|]. exists m'. by rewrite lookup_insert_eq.
Qed.

(** An unknown outcome is recorded beside the attempts. *)
Lemma record_change n a :
  om_status m <> "delivered"%string -> om_status m' = "ambiguous"%string -> at_status a = "ambiguous"%string -> above n ->
  tables_ok (<[key := m']> msgs) (<[(key, n) := a]> tbl) /\ tables_le msgs tbl (<[key := m']> msgs) (<[(key, n) := a]> tbl).
Proof.
  intros Hnd Hs Ha [H1 Habove]. split.
  - apply tables_ok_write; [done|]. split.
    + intros k b [[-> ->]|[Hne Hb]]%written_rows; [eauto|]. split; [eauto|]. by eapply to_message.
    + intros k b mm _ _ [= <-] [E|E]; rewrite Hs in E; done.
    + intros k b mm _ _ [= <-] E. by rewrite Hs in E.
    + intros mm [= <-] E. by rewrite Hs in E.
  - eapply tables_le_write; [done|by apply last_is_insert_new|]. intros [E|E]; congruence.
Qed.
End changes.

(** ** The methods *)

Section methods.
Context `{Env} `{UuidText}.

Lemma last_attempt_above s key : pg_delivery_ok s -> above (pd_attempts s) key (last_attempt key s + 1).
Proof.
  intros Hok. unfold last_attempt, above. destruct (max_of _) as [n|] eqn:E; simpl.
  - apply max_last in E as [[a Ha] Hle]. destruct (to_message _ _ Hok _ _ _ Ha) as [_ ?].
    split; [lia|]. intros k Hk. specialize (Hle k Hk). lia.
  - split; [lia|]. intros k Hk%elem_of_attempt_numbers. apply max_of_None in E. rewrite E in Hk.
    by apply not_elem_of_nil in Hk.
Qed.

Lemma DeliveryStatus_outcome st : outcome_status (DeliveryStatus_value st) /\ DeliveryStatus_value st <> "sending"%string.
Proof. destruct st; (split; [|done]); [right; by left|by left|right; by right]. Qed.

Lemma status_in_spec l m : status_in l m = true <-> om_status m ∈ l.
Proof. unfold status_in. by rewrite bool_decide_eq_true. Qed.

(** Methods that write neither messages nor attempts. *)
Definition same_ledger {A} (m : M PgDelivery A) : Prop :=
  forall s e, wp m (fun _ s' _ => pd_outbound s' = pd_outbound s /\ pd_attempts s' = pd_attempts s) s e.

Lemma same_ledger_bind {A B} (m : M PgDelivery A) (k : A -> M PgDelivery B) :
  same_ledger m -> (forall a, same_ledger (k a)) -> same_ledger (bind m k).
Proof.
  intros Hm Hk s e. apply wp_bind. eapply wp_mono; [apply Hm|]. intros [a|x] s' e' [E1 E2]; [|done].
  eapply wp_mono; [apply Hk|]. intros r s2 e2 [E3 E4]. split; congruence.
Qed.

Lemma same_ledger_transaction {A} (body : Z -> M PgDelivery A) :
  (forall now, same_ledger (body now)) -> same_ledger (_tenant_transaction body).
Proof.
  intros Hb s e. apply wp_rollback, wp_bind, wp_datetime_now. eapply wp_mono; [apply Hb|].
  intros [a|x] s' e' Hs; done.
Qed.

Lemma same_ledger_ret {A} (a : A) : same_ledger (ret a).
Proof. by intros s e. Qed.

Lemma same_ledger_raise_if b x : same_ledger (raise_if b x).
Proof. intros s e. by destruct b. Qed.

Lemma as_uuid_same text : same_ledger (as_uuid text).
Proof. intros s e. unfold as_uuid. by destruct (parse_uuid text). Qed.

Lemma update_event_same key cond f : same_ledger (update_event key cond f).
Proof. intros s e. unfold update_event. wp_steps; done. Qed.

Lemma insert_dead_letter_same row : same_ledger (insert_dead_letter row).
Proof. by intros s e. Qed.

#[local] Hint Resolve same_ledger_bind same_ledger_transaction same_ledger_ret same_ledger_raise_if
  as_uuid_same update_event_same insert_dead_letter_same : core.

Lemma claim_rows_same o now secs rows : same_ledger (claim_rows o now secs rows).
Proof.
  induction rows as [|[key r] rows IH]; cbn [claim_rows]; [auto|]. apply same_ledger_bind; [by intros s e|]. auto.
Qed.

Lemma claim_outbox_same ty o l f : same_ledger (PgDelivery.claim_outbox ty o l f).
Proof. apply same_ledger_transaction. intros now. apply same_ledger_bind; [by intros s e|]. intros. apply claim_rows_same. Qed.

Lemma mark_same t i o : same_ledger (PgDelivery.mark_outbox_published t i o).
Proof. apply same_ledger_bind; auto. Qed.

Lemma release_same t i o d er : same_ledger (PgDelivery.release_outbox t i o d er).
Proof. apply same_ledger_transaction; auto. Qed.

Lemma dead_letter_same r o re : same_ledger (PgDelivery.dead_letter_outbox r o re).
Proof. apply same_ledger_transaction; auto. Qed.

Lemma close_event_same r i o rc d now : same_ledger (close_event r i o rc d now).
Proof. unfold close_event. repeat case_match; auto. Qed.

(** A method either changes nothing or does one of the three changes. *)
Lemma pg_begin_spec r o s e :
  pg_delivery_ok s ->
  wp (PgDelivery.begin_delivery r o) (fun res s' _ =>
    match res with
    | Raise _ => s' = s
    | Ok a => exists u m, parse_uuid (ob_aggregate_id r) = Some u /\
        let key := (ob_tenant_id r, u) in let n := last_attempt key s + 1 in
        pd_outbound s !! key = Some m /\ waiting (om_status m) /\
        (exists m', om_status m' = "sending"%string /\ pd_outbound s' = <[key := m']> (pd_outbound s)) /\
        pd_attempts s' = <[(key, n) := MkAttemptRow "sending" None None None]> (pd_attempts s) /\
        a = MkDeliveryAttempt (ob_tenant_id r) (ob_aggregate_id r) n o
    end) s e.
Proof.
  intros Hok. unfold PgDelivery.begin_delivery, as_uuid, _tenant_transaction, require_event, insert_attempt, update_message.
  wp_steps; try done.
  all: change (pd_outbound _ !! _) with (pd_outbound s !! (ob_tenant_id r, s0)) in Heqo3.
  - destruct (last_attempt_above s (ob_tenant_id r, s0) Hok). bool_prop. lia.
  - exists s0, m. split_and!; [done..| |eexists; split; [|reflexivity]; reflexivity|done|done].
    simplify_eq. apply status_in_spec in Heqb. bool_prop. unfold waiting.
    rewrite !elem_of_cons, elem_of_nil in Heqb. by destruct Heqb as [?|[?|[?|?]]]; auto.
Qed.

Lemma pg_record_spec t rc s e :
  dr_status rc = AMBIGUOUS ->
  wp (PgDelivery.record_delivery t rc false) (fun res s' _ =>
    s' = s \/ exists u m m' a, let key := (t, u) in
      pd_outbound s !! key = Some m /\ om_status m <> "delivered"%string /\
      pd_outbound s' = <[key := m']> (pd_outbound s) /\ pd_attempts s' = <[(key, last_attempt key s + 1) := a]> (pd_attempts s) /\
      om_status m' = "ambiguous"%string /\ at_status a = "ambiguous"%string) s e.
Proof.
  intros Hrc. unfold PgDelivery.record_delivery, as_uuid, _tenant_transaction, insert_attempt, update_message. rewrite Hrc.
  wp_steps; try (by left). right. change (pd_outbound _ !! _) with (pd_outbound s !! (t, s0)) in Heqo0.
  exists s0, m. do 2 eexists. split_and!; [done| |reflexivity..].
  apply status_in_spec in Heqb. intros E. rewrite E, !elem_of_cons, elem_of_nil in Heqb. by destruct Heqb as [?|[?|[?|[?|?]]]].
Qed.

Lemma pg_finish_spec r o n rc d s e :
  wp (PgDelivery.finish_delivery r o n rc d) (fun res s' _ =>
    match res with
    | Raise _ => s' = s
    | Ok _ => exists u m m' a a', let key := (ob_tenant_id r, u) in
        parse_uuid (ob_aggregate_id r) = Some u /\ pd_outbound s !! key = Some m /\ om_status m = "sending"%string /\
        pd_attempts s !! (key, n) = Some a /\ at_status a = "sending"%string /\
        pd_outbound s' = <[key := m']> (pd_outbound s) /\ pd_attempts s' = <[(key, n) := a']> (pd_attempts s) /\
        om_status m' = DeliveryStatus_value (dr_status rc) /\ at_status a' = DeliveryStatus_value (dr_status rc)
    end) s e.
Proof.
  unfold PgDelivery.finish_delivery, as_uuid, _tenant_transaction, require_event, update_attempt, update_message.
  wp_steps; try done. bool_prop. eapply wp_mono; [apply close_event_same|]. intros [u|x] s' e' [E1 E2]; [|done].
  change (pd_outbound _ !! _) with (pd_outbound s !! (ob_tenant_id r, s0)) in Heqo3.
  exists s0, m. do 3 eexists. split_and!; [done|done| |done|done|exact E1|exact E2|reflexivity..].
  apply status_in_spec in Heqb0. by apply list_elem_of_singleton in Heqb0.
Qed.

#[export] Instance pg_delivery : DeliveryRepository PgDelivery := {|
  resolve_binding := PgDelivery.resolve_binding;
  claim_outbox := PgDelivery.claim_outbox;
  mark_outbox_published := PgDelivery.mark_outbox_published;
  release_outbox := PgDelivery.release_outbox;
  dead_letter_outbox := PgDelivery.dead_letter_outbox;
  record_delivery := PgDelivery.record_delivery;
  begin_delivery := PgDelivery.begin_delivery;
  finish_delivery := PgDelivery.finish_delivery;
  ledger := pg_ledger;
  delivery_ok := pg_delivery_ok;
|}.

Lemma ledger_le_tables (s s' : PgDelivery) :
  tables_le (pd_outbound s) (pd_attempts s) (pd_outbound s') (pd_attempts s') -> ledger_le s s'.
Proof.
  intros Hle [t a] n st. simpl. unfold pg_ledger. simpl. destruct (parse_uuid a) as [u|]; [|done]. simpl. apply Hle.
Qed.

Lemma same_ledger_keeps {A} (m : M PgDelivery A) : same_ledger m -> keeps_ledger m.
Proof.
  intros Hm s e Hs. eapply wp_mono; [apply Hm|]. intros r s' e' [E1 E2]. simpl in *. unfold pg_delivery_ok in *.
  rewrite E1, E2. split; [done|]. apply ledger_le_tables. rewrite E1, E2. intros key n st Hk. exists n, st. split_and!; done.
Qed.

Lemma ledger_le_same (s s' : PgDelivery) : s' = s -> delivery_ok s -> delivery_ok s' /\ ledger_le s s'.
Proof. intros -> Hs. split; [done|reflexivity]. Qed.

(** The PostgreSQL repository satisfies the contract of the dispatchers. *)
#[export] Instance pg_delivery_laws : DeliveryLaws PgDelivery.
Proof.
  split.
  - intros i s e. simpl. unfold PgDelivery.resolve_binding. wp_steps; done.
  - intros. apply same_ledger_keeps, claim_outbox_same.
  - intros. apply same_ledger_keeps, mark_same.
  - intros. apply same_ledger_keeps, release_same.
  - intros. apply same_ledger_keeps, dead_letter_same.
  - intros t rc Hrc s e Hs. eapply wp_mono; [apply pg_record_spec, Hrc|].
    intros res s' e' [E|(u & m & m' & a & Hm & Hnd & E1 & E2 & Hm' & Ha)]; [by apply ledger_le_same|].
    destruct (record_change _ _ (t, u) m m' Hs Hm _ a Hnd Hm' Ha (last_attempt_above s _ Hs)) as [Hok Hle].
    simpl. unfold pg_delivery_ok. rewrite E1, E2. split; [done|]. apply ledger_le_tables. by rewrite E1, E2.
  - intros r o s e Hs. eapply wp_mono; [by apply pg_begin_spec|]. intros [a|x] s' e'; [|intros E; by apply ledger_le_same].
    intros (u & m & Hu & Hm & Hw & (m' & Hm' & E1) & E2 & _).
    destruct (begin_change _ _ _ m m' Hs Hm _ (MkAttemptRow "sending" None None None) Hw Hm' eq_refl (last_attempt_above s _ Hs)) as [Hok Hle].
    simpl. unfold pg_delivery_ok. rewrite E1, E2. split; [done|]. apply ledger_le_tables. by rewrite E1, E2.
  - intros r o n rc d s e Hs. eapply wp_mono; [apply pg_finish_spec|]. intros [a|x] s' e'; [|intros E; by apply ledger_le_same].
    intros (u & m & m' & a0 & a' & Hu & Hm & Hst & Ha & Has & E1 & E2 & Hm' & Ha').
    destruct (DeliveryStatus_outcome (dr_status rc)) as [Hout Hns].
    destruct (finish_change _ _ _ m m' Hs Hm n a0 a' Hst Ha Has ltac:(by rewrite Hm') ltac:(by rewrite Ha')) as (Hok & Hle & _).
    simpl. unfold pg_delivery_ok. rewrite E1, E2. split; [done|]. apply ledger_le_tables. by rewrite E1, E2.
  - intros r o s e a s' e' Hs Hrun. pose proof (wp_run _ _ _ _ _ _ _ (pg_begin_spec r o s e Hs) Hrun) as Hb. simpl in Hb.
    destruct Hb as (u & m & Hu & Hm & Hw & (m' & Hm' & E1) & E2 & ->).
    pose proof (last_attempt_above s (ob_tenant_id r, u) Hs) as [H1 Habove]. simpl. unfold pg_ledger. simpl. rewrite Hu. simpl.
    split_and!; [done|done| |].
    + apply ledger_at_Some. rewrite E1, E2. split; [by apply last_is_insert_new|]. exists m'. by rewrite lookup_insert_eq.
    + intros n st (Hl & m0 & Hm0 & <-)%ledger_at_Some. simplify_eq. split_and!.
      * unfold last_attempt. apply max_last in Hl. by rewrite Hl.
      * intros E. rewrite E in Hw. by destruct Hw.
      * intros Ht. destruct Hw as [E|E]; rewrite E in Ht; by destruct Ht.
  - intros r o n rc d s e s' e' Hs Hrun. pose proof (wp_run _ _ _ _ _ _ _ (pg_finish_spec r o n rc d s e) Hrun) as Hf. simpl in Hf.
    destruct Hf as (u & m & m' & a0 & a' & Hu & Hm & Hst & Ha & Has & E1 & E2 & Hm' & Ha').
    destruct (DeliveryStatus_outcome (dr_status rc)) as [Hout Hns].
    destruct (finish_change _ _ _ m m' Hs Hm n a0 a' Hst Ha Has ltac:(by rewrite Hm') ltac:(by rewrite Ha')) as (_ & _ & Hl).
    simpl. unfold pg_ledger. simpl. rewrite Hu. simpl. by rewrite E1, E2, Hl, Hm'.
Qed.

(** ** Finishing an attempt *)

(** The claim is held, and the attempt and the message are being sent. *)
Definition finish_ready (r : OutboxRecord) (o : string) (n : Z) (rc : DeliveryReceipt) (d : Z) (s : PgDelivery)
    : option (string * string * EventRow) :=
  u ← parse_uuid (ob_aggregate_id r); id ← parse_uuid (ob_outbox_id r);
  ev ← pd_outbox s !! (ob_tenant_id r, id); a ← pd_attempts s !! ((ob_tenant_id r, u), n);
  m ← pd_outbound s !! (ob_tenant_id r, u);
  if bool_decide (dr_outbound_id rc = ob_aggregate_id r) && (0 <=? d) && (held_by o ev && unpublished ev) &&
     bool_decide (at_status a = "sending"%string) && retry_after_ok (dr_retry_after_seconds rc) && status_in ["sending"] m
  then Some (u, id, ev) else None.

(** The outbox row and the dead letters after the result. *)
Definition closed_event (rc : DeliveryReceipt) (d now : Z) (ev : EventRow) : EventRow :=
  match dr_status rc, dr_retryable rc with
  | DELIVERED, _ => retire now ev
  | FAILED, true => reschedule now d (dr_provider_code rc) ev
  | _, _ => retire now ev <| ev_last_error_type := Some (str_or (dr_provider_code rc) (DeliveryStatus_value (dr_status rc))) |>
  end.

Definition closing_letters (r : OutboxRecord) (rc : DeliveryReceipt) : list PgDelivery.DeadLetterRow :=
  match dr_status rc, dr_retryable rc with
  | DELIVERED, _ | FAILED, true => []
  | _, _ => [MkDeadLetterRow (ob_tenant_id r) "outbound" (ob_aggregate_id r) (DeliveryStatus_value (dr_status rc)) (ob_payload r)]
  end.

Definition finished (r : OutboxRecord) (u id : string) (n : Z) (rc : DeliveryReceipt) (d now : Z) (ev : EventRow) (s : PgDelivery)
    : PgDelivery :=
  let st := DeliveryStatus_value (dr_status rc) in
  MkPgDelivery (pd_routes s)
    (<[(ob_tenant_id r, id) := closed_event rc d now ev]> (pd_outbox s))
    (<[(ob_tenant_id r, u) := MkMessageRow st (dr_provider_message_id rc) (dr_provider_code rc) now]> (pd_outbound s))
    (<[((ob_tenant_id r, u), n) := MkAttemptRow st (dr_provider_code rc) (dr_retry_after_seconds rc) (Some now)]> (pd_attempts s))
    (pd_dead_letters s ++ closing_letters r rc) (pd_audit s).

Lemma close_event_run r id o rc d now ev s e :
  pd_outbox s !! (ob_tenant_id r, id) = Some ev -> held_by o ev && unpublished ev = true ->
  close_event r id o rc d now s e =
    (Ok tt, MkPgDelivery (pd_routes s) (<[(ob_tenant_id r, id) := closed_event rc d now ev]> (pd_outbox s)) (pd_outbound s)
              (pd_attempts s) (pd_dead_letters s ++ closing_letters r rc) (pd_audit s), e).
Proof.
  intros Hev Hmine. unfold close_event, closed_event, closing_letters, update_event, insert_dead_letter.
  destruct (dr_status rc), (dr_retryable rc); unfold bind, gets, modify, raise_if, ret; rewrite Hev; cbv beta iota;
    rewrite Hmine; cbn; rewrite ?app_nil_r; reflexivity.
Qed.

Lemma finish_ready_Some r o n rc d s u id ev :
  finish_ready r o n rc d s = Some (u, id, ev) <->
  parse_uuid (ob_aggregate_id r) = Some u /\ parse_uuid (ob_outbox_id r) = Some id /\
  pd_outbox s !! (ob_tenant_id r, id) = Some ev /\ dr_outbound_id rc = ob_aggregate_id r /\ 0 <= d /\
  held_by o ev && unpublished ev = true /\ retry_after_ok (dr_retry_after_seconds rc) = true /\
  exists a m, pd_attempts s !! ((ob_tenant_id r, u), n) = Some a /\ at_status a = "sending"%string /\
    pd_outbound s !! (ob_tenant_id r, u) = Some m /\ status_in ["sending"] m = true.
Proof.
  unfold finish_ready. split.
  - intros Hf. repeat (apply bind_Some in Hf as (? & ? & Hf)). case_match eqn:Hc; simplify_eq.
    apply andb_true_iff in Hc as [[[[[? ?]%andb_true_iff ?]%andb_true_iff ?]%andb_true_iff ?]%andb_true_iff ?].
    rewrite ->bool_decide_eq_true in *. split_and!; try done; [lia|]. by do 2 eexists.
  - intros (-> & -> & Hev & Hrc & Hd & Hmine & Hq & a & m & Ha & Hs & Hm & Hst). cbn [mbind option_bind].
    rewrite Hev. cbn [mbind option_bind]. rewrite Ha. cbn [mbind option_bind]. rewrite Hm. cbn [mbind option_bind].
    rewrite Hmine, Hq, Hst, !bool_decide_eq_true_2 by done. by replace (0 <=? d) with true by lia.
Qed.

(** The result is recorded. *)
Lemma finish_run_ready r o n rc d s e u id ev :
  finish_ready r o n rc d s = Some (u, id, ev) ->
  wp (PgDelivery.finish_delivery r o n rc d)
    (fun res s' _ => res = Ok tt /\ s' = finished r u id n rc d (clock_at (ticks e)) ev s) s e.
Proof.
  intros (Hu & Hid & Hev & Hrc & Hd & Hmine & Hq & a & m & Ha & Hs & Hm & Hst)%finish_ready_Some.
  unfold PgDelivery.finish_delivery, as_uuid, _tenant_transaction, require_event, update_attempt, update_message.
  rewrite Hu, Hid. apply wp_bind, wp_ret. apply wp_bind, wp_raise_if; [rewrite bool_decide_eq_true_2 by done; done|intros _].
  apply wp_bind, wp_raise_if; [lia|intros _]. apply wp_rollback, wp_bind, wp_datetime_now, wp_bind, wp_ret.
  apply wp_bind, wp_bind, wp_gets. rewrite Hev, Hmine. apply wp_raise_if; [done|intros _].
  apply wp_bind, wp_gets. rewrite Ha, bool_decide_eq_true_2 by done. apply wp_bind, wp_raise_if; [done|intros _].
  rewrite Hq. apply wp_bind, wp_raise_if; [done|intros _].
  apply wp_bind, wp_bind, wp_gets. rewrite Ha, bool_decide_eq_true_2 by done. apply wp_bind, wp_modify, wp_ret.
  apply wp_bind, wp_raise_if; [done|intros _]. apply wp_bind, wp_bind, wp_gets.
  change (pd_outbound _ !! _) with (pd_outbound s !! (ob_tenant_id r, u)). rewrite Hm, Hst.
  apply wp_bind, wp_modify, wp_ret. apply wp_bind, wp_raise_if; [done|intros _].
  unfold wp. rewrite (close_event_run _ _ _ _ _ _ ev) by done. done.
Qed.

(** The result is refused. *)
Lemma finish_run_refused r o n rc d s e :
  finish_ready r o n rc d s = None ->
  wp (PgDelivery.finish_delivery r o n rc d) (fun res s' _ => (exists x, res = Raise x) /\ s' = s) s e.
Proof.
  intros Hno. unfold PgDelivery.finish_delivery, as_uuid, _tenant_transaction, require_event, update_attempt, update_message.
  wp_steps; try (split; [by eexists|done]); try done. exfalso.
  change (pd_outbound _ !! _) with (pd_outbound s !! (ob_tenant_id r, s0)) in Heqo3. bool_prop.
  destruct (pd_outbox s !! (ob_tenant_id r, s1)) as [ev|] eqn:Hev; [|done].
  assert (Hyes : finish_ready r o n rc d s = Some (s0, s1, ev)); [|by rewrite Hno in Hyes].
  apply finish_ready_Some. split_and!; try done. by exists a, m.
Qed.

(** A result is recorded exactly when the caller holds the claim of the unpublished
    outbox row and both the attempt and its message are being sent; then the attempt, the
    message, the outbox row and the dead letters are written together, and in every
    reachable state that attempt is the last one.  Otherwise the call raises and nothing
    changes: a late response cannot overwrite a newer attempt. *)
Theorem pg_finish_outcome r o n rc d s e :
  match finish_ready r o n rc d s with
  | Some (u, id, ev) =>
    (exists e', PgDelivery.finish_delivery r o n rc d s e =
       (Ok tt, finished r u id n rc d (clock_at (ticks e)) ev s, e')) /\
    (pg_delivery_ok s -> last_is (pd_attempts s) (ob_tenant_id r, u) n)
  | None => exists x e', PgDelivery.finish_delivery r o n rc d s e = (Raise x, s, e')
  end.
Proof.
  destruct (PgDelivery.finish_delivery r o n rc d s e) as [[res s'] e'] eqn:Hr.
  destruct (finish_ready r o n rc d s) as [[[u id] ev]|] eqn:E.
  - destruct (wp_run _ _ _ _ _ _ _ (finish_run_ready _ _ _ _ _ _ e _ _ _ E) Hr) as [-> ->]. split; [by exists e'|].
    apply finish_ready_Some in E as (_ & _ & _ & _ & _ & _ & _ & a & m & Ha & Hs & Hm & Hst).
    intros Hok. apply status_in_spec in Hst. apply list_elem_of_singleton in Hst. by eapply (to_last _ _ Hok).
  - destruct (wp_run _ _ _ _ _ _ _ (finish_run_refused _ _ _ _ _ _ e E) Hr) as [[x ->] ->]. by exists x, e'.
Qed.

(** C13: With the PostgreSQL repository no provider attempt is made twice: along any sequence of
    deliveries of single records and of whole dispatch cycles, by whatever dispatchers and in
    whatever order, but one after the other, interleaved with transactions that keep the ledger of
    attempts, every provider call has its own message and attempt number and stays inside its
    tenant, and after a message was delivered or its outcome is unknown no provider is called for
    it again.  The replay of a message by an administrator resets its ledger on purpose, and is
    not among these transactions. *)
Theorem pg_deliveries_at_most_once `{EnvelopeCodec} `{Provider} (s0 : PgDelivery) e0 w e :
  pg_delivery_ok s0 -> rtc dstep (MkWorld s0 [], e0) (w, e) ->
  NoDup (attempts_of (w_sends w)) /\ (forall sd, sd ∈ w_sends w -> isolated sd) /\
  forall w' e' key n st, pg_ledger (w_repo w) key = Some (n, st) -> terminal st -> rtc dstep (w, e) (w', e') ->
    sends_for key (w_sends w') = sends_for key (w_sends w).
Proof.
  intros Hs Hsteps. assert (Hok : delivery_ok s0) by exact Hs.
  destruct (dsteps_frame _ _ Hsteps (sends_ok_init s0 Hok)) as [Hw _].
  split_and!; [apply Hw..|]. intros w' e' key n st Hk Ht Hsteps'.
  destruct (dsteps_frame _ _ Hsteps' Hw) as [_ Hle]. by eapply (wl_final _ _ Hle).
Qed.
End methods.

(** ** A concrete run *)

Section demo.
#[local] Existing Instance demo_env.
#[local] Existing Instance number_codec.
#[local] Instance lost_provider : Provider := fun _ _ _ => SendRaises (RuntimeError "reset").
#[local] Instance ascii_uuid : UuidText := fun _ => None.

Definition pg_outbound_id : string := "11111111-1111-4111-8111-111111111111".
Definition pg_outbox_id : string := "22222222-2222-4222-8222-222222222222".
Definition pg_envelope : OutboundEnvelope := 
  MkOutboundEnvelope pg_outbound_id "acme" "binding" FEISHU "user" "s1" TEXT (Some "hi"%string) [] None ∅.
Definition pg_demo : PgDelivery :=
  MkPgDelivery [MkBindingRoute demo_binding true 1 None 0]
    {[("acme", pg_outbox_id)%string := MkEventRow pg_outbound_id "outbound.feishu.ready" (number_dump pg_envelope) ∅ 0 0 None
        None None None 0]}
    {[("acme", pg_outbound_id)%string := MkMessageRow "pending" None None 0]} ∅ [] [].

Lemma pg_demo_ok : pg_delivery_ok pg_demo.
Proof.
  split; simpl; [intros key n a; by rewrite lookup_empty..|]. intros key m Hm Hs.
  apply lookup_singleton_Some in Hm as [_ <-]. done.
Qed.

Definition pg_dispatched : World PgDelivery * effects :=
  let '(_, w, e) := dispatch_once demo_dispatcher true (fun _ => false) (MkWorld pg_demo []) fx0 in (w, e).

Lemma pg_dispatched_steps : rtc dstep (MkWorld pg_demo [], fx0) (pg_dispatched.1, pg_dispatched.2).
Proof.
  unfold pg_dispatched.
  destruct (dispatch_once demo_dispatcher true (fun _ => false) (MkWorld pg_demo []) fx0) as [[r w'] e'] eqn:Hrun.
  eapply rtc_once, dstep_dispatch, Hrun.
Qed.

Lemma pg_deliveries_at_most_once_witness :
  length (w_sends pg_dispatched.1) = 1%nat /\ NoDup (attempts_of (w_sends pg_dispatched.1)) /\
  pg_ledger (w_repo pg_dispatched.1) ("acme", pg_outbound_id)%string = Some (1, "ambiguous"%string).
Proof.
  split_and!; [vm_compute; reflexivity| |vm_compute; reflexivity].
  exact (proj1 (pg_deliveries_at_most_once _ _ _ _ pg_demo_ok pg_dispatched_steps)).
Defined.
End demo.
