(* ===== verification/OutboxDispatcher.v ===== *)
(** * The outbox dispatcher

    [OutboxDispatcher] of [trpc_service/queue/dispatcher.py]: one cycle claims a
    batch of outbox records, publishes each to a queue and marks it published,
    or puts it back with a capped exponential delay.  The repository is any
    implementation of the delivery contract; the queue is a parameter: the n-th
    [publish] returns or raises.  What was handed to the queue is kept in the
    world.  Metrics, logging and trace headers are not modelled. *)

From S2P Require Import Prelude Tenant Models Repository RepositoryInv RepositoryThms Delivery.
#[local] Open Scope Z_scope.

(** [await queue.publish(record)]: [None] returns, [Some x] raises. *)
Class Queue : Type := queue_publish : nat -> OutboxRecord -> option exn.

Record QWorld (R : Type) : Type := MkQWorld { q_repo : R; q_published : list OutboxRecord }.
Arguments MkQWorld {R} q_repo q_published.
Arguments q_repo {R} q.
Arguments q_published {R} q.

Record OutboxDispatcher : Type := MkOutboxDispatcher {
  od_owner_id : string;
  od_event_type : string;
  od_batch_size : Z;
}.

(** [timedelta(seconds=min(2 ** min(record.attempts, 6), 60))]. *)
Definition backoff (attempts : Z) : Z := Z.min (2 ^ Z.min attempts 6) 60 * 1000000.

Section dispatcher.
Context {R : Type} `{DeliveryRepository R} `{Queue}.
Context (d : OutboxDispatcher).

Definition qrepo {A} (m : M R A) : M (QWorld R) A :=
  zoom q_repo (fun r w => MkQWorld r (q_published w)) m.

(** [await self._queue.publish(queued)], recorded when it returns. *)
Definition publish (record : OutboxRecord) : M (QWorld R) unit :=
  let* n := gets (fun w => length (q_published w)) in
  match queue_publish n record with
  | Some x => raise x
  | None => modify (fun w => MkQWorld (q_repo w) (q_published w ++ [record]))
  end.

(** [type(exc).__name__]. *)
Definition exn_name (x : exn) : string :=
  match x with
  | ValueError _ => "ValueError" | TypeError _ => "TypeError" | LookupError _ => "LookupError"
  | KeyError => "KeyError" | RuntimeError _ => "RuntimeError" | ValidationError _ => "ValidationError"
  | FencingConflict _ => "FencingConflict" | DeliveryInProgress _ _ => "DeliveryInProgress"
  | ConfirmationError _ => "ConfirmationError" | HumanReviewRequired _ => "HumanReviewRequired"
  | AuthorizationError _ => "AuthorizationError" | UnknownBinding _ => "UnknownBinding"
  | BindingMismatch _ => "BindingMismatch" | IdempotencyConflict _ => "IdempotencyConflict"
  | ControlVersionConflict _ => "ControlVersionConflict" | IntegrityError _ => "IntegrityError"
  | MigrationManifestConflict _ => "MigrationManifestConflict"
  | MigrationGuardError _ => "MigrationGuardError" | MigrationLeaseLost _ => "MigrationLeaseLost"
  | UnicodeDecodeError => "UnicodeDecodeError" | OverflowError => "OverflowError"
  | ResponseError _ => "ResponseError" | AttributeError _ => "AttributeError"
  | IndeterminateDatatypeError _ => "IndeterminateDatatypeError"
  | MigrationLeaseConflict _ => "MigrationLeaseConflict"
  | MigrationTargetNotEmpty _ => "MigrationTargetNotEmpty" | InvalidTag => "InvalidTag"
  | BinasciiError _ => "Error" | PostgresError _ => "PostgresError" | RedisError _ => "RedisError"
  | ToolExecutionConflict _ => "ToolExecutionConflict" | CancelledError => "CancelledError"
  | OtherError name _ => name
  end.

(** One record: whether it was published. *)
Definition publish_record (record : OutboxRecord) : M (QWorld R) bool :=
  except_Exception
    (publish record ;;
     qrepo (mark_outbox_published (ob_tenant_id record) (ob_outbox_id record) (od_owner_id d)) ;;
     ret true)
    (fun x =>
       qrepo (release_outbox (ob_tenant_id record) (ob_outbox_id record) (od_owner_id d)
                (backoff (ob_attempts record)) (exn_name x)) ;;
       ret false).

Fixpoint release_all (records : list OutboxRecord) : M (QWorld R) unit :=
  match records with
  | [] => ret tt
  | pending :: rest =>
    qrepo (release_outbox (ob_tenant_id pending) (ob_outbox_id pending) (od_owner_id d) 0
             "dispatcher_draining") ;;
    release_all rest
  end.

Fixpoint publish_loop (stopped : nat -> bool) (index : nat) (records : list OutboxRecord)
    (published : Z) : M (QWorld R) Z :=
  match records with
  | [] => ret published
  | record :: rest =>
    if stopped index then release_all records ;; ret published
    else
      let* ok := publish_record record in
      publish_loop stopped (S index) rest (if ok then published + 1 else published)
  end.

Definition dispatch_once (stopped : nat -> bool) : M (QWorld R) Z :=
  let* records := qrepo (claim_outbox (od_event_type d) (od_owner_id d) (od_batch_size d)
                           (30 * 1000000)) in
  publish_loop stopped 0 records 0.
End dispatcher.

(** ** The loop over the in-memory repository *)

Section memory.
Context `{E : Env} `{!UniqueIds E} `{EnvelopeDump} `{Queue}.
Context (d : OutboxDispatcher) (Hqueue : forall n r, queue_publish n r <> Some CancelledError).

(** [w] holds the claim of every record of [rs] for [o]. *)
Definition holds (o : string) (rs : list OutboxRecord) (s : Repository) : Prop :=
  NoDup (ob_outbox_id <$> rs) /\
  forall r, r ∈ rs -> claim_held (ob_outbox_id r) o s = true /\
    exists r', dget (ob_outbox_id r) (rp_outbox s) = Some r'.

(** What a cycle does with one claimed record: it is gone and was published, or
    it is still there, released, with a bounded delay. *)
Definition handled (w : QWorld Repository) (r : OutboxRecord) : Prop :=
  (r ∈ q_published w /\ dget (ob_outbox_id r) (rp_outbox (q_repo w)) = None) \/
  (exists t, rp_outbox_claims (q_repo w) !! ob_outbox_id r = Some (""%string, t)) /\
  (exists r', dget (ob_outbox_id r) (rp_outbox (q_repo w)) = Some r').

Lemma backoff_bounds n : 0 <= n -> 0 < backoff n <= 60 * 1000000.
Proof.
  intros Hn. unfold backoff. assert (0 < 2 ^ Z.min n 6) by (apply Z.pow_pos_nonneg; lia). lia.
Qed.

(** Only the record at hand changes, and what was published stays so. *)
Definition only_touches (id : string) (w w' : QWorld Repository) : Prop :=
  (forall id', id' <> id ->
     rp_outbox_claims (q_repo w') !! id' = rp_outbox_claims (q_repo w) !! id' /\
     dget id' (rp_outbox (q_repo w')) = dget id' (rp_outbox (q_repo w))) /\
  q_published w `prefix_of` q_published w'.

Lemma publish_record_spec r r' w e :
  claim_held (ob_outbox_id r) (od_owner_id d) (q_repo w) = true ->
  NoDup (dkeys (rp_outbox (q_repo w))) -> dget (ob_outbox_id r) (rp_outbox (q_repo w)) = Some r' ->
  wp (publish_record d r) (fun x w' _ => (exists b, x = Ok b) /\ handled w' r /\
    only_touches (ob_outbox_id r) w w' /\ NoDup (dkeys (rp_outbox (q_repo w')))) w e.
Proof.
  intros Hc Hnd Hg. unfold publish_record, publish, except_Exception. apply wp_try, wp_bind, wp_bind, wp_gets.
  destruct (queue_publish _ r) as [x|] eqn:Hx.
  - apply wp_raise. replace (match x with CancelledError => _ | _ => _ end) with
      (qrepo (Repository.release_outbox (ob_tenant_id r) (ob_outbox_id r) (od_owner_id d) (backoff (ob_attempts r)) (exn_name x)) ;; ret false)
      by (destruct x; try done; by apply Hqueue in Hx).
    apply wp_bind, wp_zoom. simpl. unfold Repository.release_outbox, require_claim.
    apply wp_bind, wp_bind, wp_gets. rewrite Hc. simpl. wp_steps. split_and!; [eauto| | |done].
    + right. simpl. rewrite lookup_insert_eq. eauto.
    + split; [|done]. intros id' Hne. simpl. by rewrite lookup_insert_ne.
  - apply wp_modify, wp_bind, wp_zoom. simpl. unfold Repository.mark_outbox_published, require_claim, drop_outbox.
    apply wp_bind, wp_bind, wp_gets. rewrite Hc. simpl. wp_steps. split_and!; [eauto| | |by apply NoDup_dpop].
    + left. simpl. split; [set_solver|by apply dget_dpop_eq].
    + split; [|simpl; by eexists]. intros id' Hne. simpl.
      by rewrite lookup_delete_ne, dget_dpop_ne.
Qed.

Lemma handled_stable r r' w w' :
  handled w r -> only_touches (ob_outbox_id r') w w' -> ob_outbox_id r <> ob_outbox_id r' -> handled w' r.
Proof.
  intros Hh [Ho Hp] Hne. destruct (Ho _ Hne) as [Hc Hd]. unfold handled in *. rewrite Hc, Hd.
  destruct Hh as [[Hin ?]|?]; [left|by right]. split; [|done].
  destruct Hp as [l ->]. set_solver.
Qed.

Lemma publish_loop_spec i rs n w e :
  holds (od_owner_id d) rs (q_repo w) -> NoDup (dkeys (rp_outbox (q_repo w))) ->
  wp (publish_loop d (fun _ => false) i rs n) (fun x w' _ =>
    (exists m, x = Ok m /\ n <= m <= n + Z.of_nat (length rs)) /\
    (forall r, r ∈ rs -> handled w' r) /\
    (forall r, ob_outbox_id r ∉ ob_outbox_id <$> rs -> handled w r -> handled w' r)) w e.
Proof.
  revert i n w e. induction rs as [|r rs IH]; intros i n w e [Hnd Hall] Hd; simpl.
  - apply wp_ret. split_and!; [eexists; split; [done|lia]| |done]. intros r Hr. by apply elem_of_nil in Hr.
  - rewrite fmap_cons in Hnd. apply NoDup_cons in Hnd as [Hni Hnd].
    destruct (Hall r) as [Hc [r' Hg]]; [left|]. apply wp_bind.
    eapply wp_mono; [by apply (publish_record_spec r r')|].
    intros x w1 e1 ((b & ->) & Hh & [Ho Hp] & Hd1).
    assert (Hholds : holds (od_owner_id d) rs (q_repo w1)).
    { split; [done|]. intros y Hy. assert (ob_outbox_id y <> ob_outbox_id r).
      { intros Heq. apply Hni. rewrite <-Heq. apply list_elem_of_fmap. by exists y. }
      destruct (Ho _ ltac:(eassumption)) as [Hcy Hdy]. unfold claim_held. rewrite Hcy, Hdy.
      apply Hall. by right. }
    eapply wp_mono; [apply (IH _ _ w1 e1 Hholds Hd1)|].
    intros x w2 e2 ((m & -> & Hm) & Hrs & Hold). split_and!.
    + exists m. split; [done|]. destruct b; lia.
    + intros y Hy. apply elem_of_cons in Hy as [->|Hy]; auto.
    + intros y Hy Hyh. apply not_elem_of_cons in Hy as [Hne Hy].
      apply Hold; [done|]. by eapply handled_stable.
Qed.
End memory.

(** ** The claim *)

Section claims.
Context `{E : Env} `{!UniqueIds E} `{EnvelopeDump} `{Queue}.

(** No claimed record is lost: a full dispatch cycle over the in-memory
    repository returns unless the queue is cancelled, and every record it claimed was either handed to
    the queue and removed from the outbox, or is still in the outbox, released
    for a later cycle; the returned count is at most the number claimed. *)
Theorem outbox_cycle_loses_nothing d s e p :
  (forall n r, queue_publish n r <> Some CancelledError) -> rreachable s e ->
  exists n w' e' rs s1,
    dispatch_once d (fun _ => false) (MkQWorld s p) e = (Ok n, w', e') /\
    Repository.claim_outbox (od_event_type d) (od_owner_id d) (od_batch_size d) (30 * 1000000) s e
      = (Ok rs, s1, Effects (uuids e) (S (ticks e))) /\
    0 <= n <= Z.of_nat (length rs) /\ forall r, r ∈ rs -> handled w' r.
Proof.
  intros Hq Hr. destruct (claim_outbox_claims (od_event_type d) (od_owner_id d) (od_batch_size d)
    (30 * 1000000) s e (rreachable_inv _ _ Hr)) as (rs & s1 & Hrun & _ & Hcl).
  pose proof (claim_outbox_frame (od_event_type d) (od_owner_id d) (od_batch_size d) (30 * 1000000)
    s e (rreachable_inv _ _ Hr)) as Hg. unfold wp in Hg. rewrite Hrun in Hg.
  destruct Hg as [Hs1 _]. simpl in Hs1.
  assert (Hh : holds (od_owner_id d) rs (q_repo (MkQWorld s1 p))).
  { split; [apply (oc_nodup _ _ _ _ _ _ _ Hcl)|]. intros r Hin.
    destruct (oc_record _ _ _ _ _ _ _ Hcl r Hin) as (old & _ & _ & _ & _ & Hc & Hd).
    unfold claim_held. simpl. rewrite Hc, bool_decide_true by done. eauto. }
  pose proof (publish_loop_spec d Hq 0 rs 0 (MkQWorld s1 p) (Effects (uuids e) (S (ticks e))) Hh
    (proj1 (ri_outbox _ _ Hs1))) as Hw.
  unfold dispatch_once, bind, qrepo, zoom. simpl. rewrite Hrun. unfold wp in Hw.
  destruct (publish_loop d _ _ _ _ _ _) as [[x w'] e']. simpl in Hw.
  destruct Hw as ((m & -> & Hm) & Hall & _). exists m, w', e', rs, s1.
  split_and!; [done|done|lia|lia|done].
Qed.
End claims.

Section demo.
#[local] Existing Instance demo_env.
#[local] Existing Instance number_codec.
#[local] Instance flaky_queue : Queue := fun n _ => if Nat.eqb n 0 then None else Some (RuntimeError "down").

Definition demo_accepted : Repository * effects :=
  run_rcalls [RAcceptInbound demo_context (demo_envelope "m1") ∅;
              RAcceptInbound demo_context (demo_envelope "m2") ∅] (empty_repository, fx0).

Lemma demo_accepted_reachable : rreachable demo_accepted.1 demo_accepted.2.
Proof. exists fx0. rewrite <-surjective_pairing. apply run_rcalls_steps. Qed.

Lemma outbox_cycle_loses_nothing_witness : exists n w' e',
  dispatch_once (MkOutboxDispatcher "d1" "inbound.accepted" 100) (fun _ => false)
    (MkQWorld demo_accepted.1 []) demo_accepted.2 = (Ok n, w', e') /\ 0 <= n.
Proof.
  destruct (outbox_cycle_loses_nothing (MkOutboxDispatcher "d1" "inbound.accepted" 100)
    demo_accepted.1 demo_accepted.2 [] ltac:(by intros [] ?) demo_accepted_reachable)
    as (n & w' & e' & rs & s1 & Hrun & _ & Hn & _).
  exists n, w', e'. split; [exact Hrun|lia].
Defined.
End demo.
