(* ===== verification/Tools.v ===== *)
(** * Tool governance

    [trpc_service/tool]: one-time confirmation tokens ([confirmation.py]), the
    ordered governance pipeline ([governance.py]) and the execution ledger that
    keeps a non-idempotent tool from running twice ([execution.py]), with the
    in-memory ledgers of the same files.  Message authentication, hashing and
    the JSON/base64 encoding of tokens are parameters; the SDK's safety guard
    and the tool call itself are parameters.  Fault-injection checkpoints and
    the redaction of audit arguments are not modelled. *)

From S2P Require Import Prelude PyText Tenant.
From Stdlib Require Import Ascii.
#[local] Open Scope Z_scope.

(** [int(time.time())]. *)
Definition time_time {S} `{Env} : M S Z := let* t := datetime_now in ret (t / 1000000).

(** ** Confirmation tokens *)
Module Confirmation.

Record ConfirmationScope : Type := MkConfirmationScope {
  cs_tenant_id : string;
  cs_principal_id : string;
  cs_session_id : string;
  cs_tool_name : string;
  cs_arguments_hash : string;
}.

(** [asdict(scope)]. *)
Definition asdict (scope : ConfirmationScope) : list (string * string) :=
  [("tenant_id", cs_tenant_id scope); ("principal_id", cs_principal_id scope);
   ("session_id", cs_session_id scope); ("tool_name", cs_tool_name scope);
   ("arguments_hash", cs_arguments_hash scope)]%string.

(** [value == s] for a string [s]. *)
Definition py_eq_str (v : pyval) (s : string) : bool :=
  match v with PStr x => bool_decide (x = s) | _ => false end.

(** The signature of an encoded payload under the service's key, and the
    payload encoding ([_encode] of the JSON text, [_decode] and [json.loads]). *)
Class TokenCodec : Type := {
  sign : string -> string;
  encode_payload : gmap string pyval -> string;
  decode_payload : string -> option (gmap string pyval);
}.

(** The in-memory ledger: expiry and whether the token was used. *)
Record Ledger : Type := MkLedger { tokens : gmap string (Z * bool) }.

Definition ledger_issue (token_id : string) (expires_at : Z) : M Ledger unit :=
  modify (fun s => MkLedger (<[token_id := (expires_at, false)]> (tokens s))).

Definition ledger_consume `{Env} (token_id : string) : M Ledger bool :=
  let* current := gets (fun s => tokens s !! token_id : option (Z * bool)) in
  match current with
  | None => ret false
  | Some (expires, used) =>
    if used then ret false
    else
      let* now := time_time in
      if expires <? now then ret false
      else
        modify (fun s => MkLedger (<[token_id := (expires, true)]> (tokens s))) ;;
        ret true
  end.

(** [token.split(".", 1)]: the text before and after the first dot. *)
Fixpoint split_dot (s : string) : option (string * string) :=
  match s with
  | EmptyString => None
  | String c rest =>
    if Ascii.eqb c "."%char then Some (EmptyString, rest)
    else match split_dot rest with
         | Some (a, b) => Some (String c a, b)
         | None => None
         end
  end.

Section service.
Context `{Env} `{TokenCodec}.

Definition invalid : exn := ConfirmationError "confirmation token is invalid".

Definition payload_of (jti : string) (expires : Z) (scope : ConfirmationScope) : gmap string pyval :=
  list_to_map (("v", PInt 1) :: ("jti", PStr jti) :: ("exp", PInt expires) :: (prod_map id PStr <$> asdict scope))%string.

Definition issue (ttl_seconds : Z) (scope : ConfirmationScope) : M Ledger string :=
  let* now := time_time in
  let expires := now + ttl_seconds in
  let* jti := uuid4 in
  let encoded := encode_payload (payload_of jti expires scope) in
  let signature := sign encoded in
  ledger_issue jti expires ;;
  ret (encoded +:+ "." +:+ signature)%string.

(** The first [try] block of [consume]: the authenticated payload. *)
Definition parse_token (token : string) : option (gmap string pyval) :=
  if 16384 <? char_len token then None
  else match split_dot token with
  | None => None
  | Some (encoded, supplied) =>
    if str_empty encoded || str_empty supplied || (match split_dot supplied with Some _ => true | None => false end)
    then None
    else if negb (bool_decide (sign encoded = supplied)) then None
    else decode_payload encoded
  end.

Definition consume (token : string) (expected : ConfirmationScope) : M Ledger unit :=
  match parse_token token with
  | None => raise invalid
  | Some payload =>
    match py_get "exp" payload with
    | PInt expires =>
      let* now := time_time in
      raise_if (expires <? now) (ConfirmationError "confirmation token expired") ;;
      raise_if (existsb (fun '(field, value) => negb (py_eq_str (py_get field payload) value))
                  (asdict expected))
        (ConfirmationError "confirmation token scope mismatch") ;;
      match py_get "jti" payload with
      | PStr token_id =>
        raise_if (str_empty token_id) invalid ;;
        let* ok := ledger_consume token_id in
        raise_if (negb ok) (ConfirmationError "confirmation token was already used")
      | _ => raise invalid
      end
    | _ => raise invalid
    end
  end.
End service.
End Confirmation.

(** ** Governance *)
Module Governance.
Import Confirmation.

Inductive Decision : Type := ALLOW | DENY | NEEDS_CONFIRMATION.

#[export] Instance Decision_eq_dec : EqDecision Decision.
Proof. solve_decision. Defined.

(** The tenants' ledgers, and the audit trail when the pipeline has a sink. *)
Record State : Type := MkState {
  spent : gmap string Z;
  confirmations : Ledger;
  audit : option (list (string * string * Decision * string));
}.

#[export] Instance State_settable : Settable State := fun s =>
  MkState (spent s) (confirmations s) (audit s).

(** [InMemoryBudgetLedger.reserve]. *)
Definition reserve (tenant_id : string) (cost_units monthly_limit : Z) : M State bool :=
  let* current := gets (fun s => default 0 (spent s !! tenant_id)) in
  if monthly_limit <? current + cost_units then ret false
  else
    modify (fun s => s <| spent := <[tenant_id := current + cost_units]> (spent s) |>) ;;
    ret true.

(** The verdict of the SDK's guard on one script. *)
Inductive SdkDecision : Type := SDK_ALLOW | SDK_DENY | SDK_NEEDS_HUMAN_REVIEW.

Class Guard : Type := guard_check : string -> string -> string -> SdkDecision.

Definition FIELDS : list string :=
  ["script"; "code"; "command"; "cmd"; "python_code"; "bash_code"; "code_blocks"]%string.

Section scanner.
Context `{Guard}.

(** The scripts of one field; [None] is an immediate denial. *)
Fixpoint scan_values (tool_name language : string) (values : list pyval) (result : Decision)
    : option Decision :=
  match values with
  | [] => Some result
  | PStr script :: rest =>
    match guard_check script language tool_name with
    | SDK_DENY => None
    | SDK_NEEDS_HUMAN_REVIEW => scan_values tool_name language rest NEEDS_CONFIRMATION
    | SDK_ALLOW => scan_values tool_name language rest result
    end
  | _ :: rest => scan_values tool_name language rest result
  end.

Fixpoint scan_fields (tool_name : string) (arguments : gmap string pyval) (fields : list string)
    (result : Decision) : Decision :=
  match fields with
  | [] => result
  | field :: rest =>
    let value := py_get field arguments in
    if negb (truthy value) then scan_fields tool_name arguments rest result
    else
      let values := match value with PList l => l | _ => [value] end in
      let language := if bool_decide (field = "python_code"%string) then "python"%string else "bash"%string in
      match scan_values tool_name language values result with
      | None => DENY
      | Some result => scan_fields tool_name arguments rest result
      end
  end.

(** [SdkToolSafetyScanner.scan]. *)
Definition scan (tool_name : string) (arguments : gmap string pyval) : Decision :=
  scan_fields tool_name arguments FIELDS ALLOW.
End scanner.

(** [GovernanceAuditSink.record], a statement on the database: what it raises, if it does. *)
Class AuditSink : Type :=
  audit_error : list (string * string * Decision * string) -> string * string * Decision * string -> option exn.

(** [arguments_hash]: the SHA-256 of the canonical JSON of the arguments. *)
Class ArgumentsHash : Type := arguments_hash : gmap string pyval -> string.

Section pipeline.
Context `{Env} `{TokenCodec} `{Guard} `{AuditSink} `{ArgumentsHash}.

Definition confirm {A} (m : M Ledger A) : M State A :=
  zoom confirmations (fun l s => s <| confirmations := l |>) m.

Definition _result (tenant_id tool_name : string) (decision : Decision) (reason : string)
    : M State (Decision * string) :=
  let* sink := gets audit in
  match sink with
  | None => ret (decision, reason)
  | Some trail =>
    let record := (tenant_id, tool_name, decision, reason) in
    match audit_error trail record with
    | Some x => raise x
    | None =>
      modify (fun s => s <| audit := Some (trail ++ [record]) |>) ;;
      ret (decision, reason)
    end
  end.

Definition scope_of (context : TenantContext) (tool_name : string) (arguments : gmap string pyval)
    : ConfirmationScope :=
  MkConfirmationScope (tc_tenant_id context) (tc_principal_id context) (tc_session_id context)
    tool_name (arguments_hash arguments).

Definition requires_confirmation (config : TenantConfig) (tool_name : string)
    (arguments : gmap string pyval) : bool :=
  bool_decide (scan tool_name arguments = NEEDS_CONFIRMATION)
  || bool_decide (tool_name ∈ tp_require_confirmation (cfg_tools config)).

Definition evaluate (context : TenantContext) (config : TenantConfig) (tool_name : string)
    (arguments : gmap string pyval) (estimated_cost : Z) (confirmation_token : option string)
    : M State (Decision * string) :=
  let result := _result (tc_tenant_id context) tool_name in
  if negb (bool_decide (tc_tenant_id context = cfg_tenant_id config))
     || negb (bool_decide (tc_app_id context = cfg_app_id config))
  then result DENY "identity_mismatch"
  else if negb (bool_decide (tool_name ∈ tp_allow (cfg_tools config)))
  then result DENY "tool_not_allowed"
  else
    let safety := scan tool_name arguments in
    if bool_decide (safety = DENY) then result DENY "safety_policy"
    else
      let budget :=
        let* reserved := reserve (tc_tenant_id context) estimated_cost
                           (bp_monthly_cost_units (cfg_budget config)) in
        if negb reserved then result DENY "budget_exhausted" else result ALLOW "policy_passed" in
      if requires_confirmation config tool_name arguments then
        if str_empty (str_or confirmation_token "") then
          result NEEDS_CONFIRMATION "confirmation_required"
        else
          confirm (consume (str_or confirmation_token "") (scope_of context tool_name arguments)) ;;
          budget
      else budget.
End pipeline.
End Governance.

(** ** Execution *)
Module Execution.

Inductive ExecutionStatus : Type := STARTED | SUCCEEDED | FAILED | AMBIGUOUS.

#[export] Instance ExecutionStatus_eq_dec : EqDecision ExecutionStatus.
Proof. solve_decision. Defined.

Record ExecutionRecord : Type := MkExecutionRecord {
  er_execution_key : string;
  er_status : ExecutionStatus;
  er_result : option pyval;
  er_fresh : bool;
  er_replay_terminal : bool;
}.

(** The in-memory ledger, and every invocation of a tool with its key and
    risk. *)
Record State : Type := MkState {
  records : gmap string ExecutionRecord;
  calls : list (string * ToolRisk);
}.

#[export] Instance State_settable : Settable State := fun s => MkState (records s) (calls s).

(** [InMemoryExecutionLedger.begin]. *)
Definition begin (key : string) (risk : ToolRisk) : M State ExecutionRecord :=
  let* existing := gets (fun s => records s !! key : option ExecutionRecord) in
  match existing with
  | Some existing =>
    if bool_decide (er_status existing = SUCCEEDED)
       && match er_result existing with None => true | Some _ => false end
       && bool_decide (risk = IDEMPOTENT)
    then ret (MkExecutionRecord key (er_status existing) None false true)
    else ret existing
  | None =>
    modify (fun s => s <| records :=
      <[key := MkExecutionRecord key STARTED None false false]> (records s) |>) ;;
    ret (MkExecutionRecord key STARTED None true false)
  end.

(** [InMemoryExecutionLedger.finish]. *)
Definition finish (key : string) (status : ExecutionStatus) (result : option pyval)
    : M State unit :=
  modify (fun s => s <| records :=
    <[key := MkExecutionRecord key status result false false]> (records s) |>).

(** The part of [execute] before the tool is called: an answer, or the call may
    be made ([replay_terminal] says whether the ledger is already final). *)
Inductive admission : Type :=
  | Answer (result : pyval)
  | Call (replay_terminal : bool).

Definition execute_begin (key : string) (risk : ToolRisk) : M State admission :=
  let* record := begin key risk in
  let replay_terminal := bool_decide (er_status record = SUCCEEDED) && er_replay_terminal record in
  match er_status record, er_result record with
  | SUCCEEDED, Some result => ret (Answer result)
  | _, _ =>
    raise_if (bool_decide (er_status record = SUCCEEDED) && negb (bool_decide (risk = IDEMPOTENT)))
      (HumanReviewRequired "tool succeeded previously; result is unavailable") ;;
    raise_if (negb (er_fresh record)
              && (bool_decide (er_status record = STARTED) || bool_decide (er_status record = AMBIGUOUS))
              && negb (bool_decide (risk = IDEMPOTENT)))
      (HumanReviewRequired "non-idempotent tool outcome is unknown") ;;
    modify (fun s => s <| calls := calls s ++ [(key, risk)] |>) ;;
    ret (Call replay_terminal)
  end.

(** The part after the call: [outcome] is what [await call()] returned (Python's
    [None] is [None]) or raised. *)
Definition execute_finish (key : string) (risk : ToolRisk) (replay_terminal : bool)
    (result : outcome (option pyval)) : M State (option pyval) :=
  match result with
  | Raise x =>
    if replay_terminal then raise x
    else
      let status := if bool_decide (risk = IDEMPOTENT) then FAILED else AMBIGUOUS in
      finish key status None ;;
      raise_if (bool_decide (status = AMBIGUOUS))
        (HumanReviewRequired "non-idempotent tool outcome is unknown") ;;
      raise x
  | Ok result =>
    (if negb replay_terminal then finish key SUCCEEDED result else ret tt) ;;
    ret result
  end.

(** [execute] without interleaving. *)
Definition execute (key : string) (risk : ToolRisk) (call : outcome (option pyval))
    : M State (option pyval) :=
  let* admitted := execute_begin key risk in
  match admitted with
  | Answer result => ret (Some result)
  | Call replay_terminal => execute_finish key risk replay_terminal call
  end.

(** [key_for]: the keyed hash of the five parts the key is bound to. *)
Class KeyedHash : Type := keyed_hash : list string -> string.

Definition key_for `{KeyedHash} `{Governance.ArgumentsHash} (context : TenantContext)
    (turn_id tool_name : string) (arguments : gmap string pyval) : string :=
  keyed_hash [tc_tenant_id context; tc_session_id context; turn_id; tool_name;
              Governance.arguments_hash arguments].
End Execution.
