(* ===== verification/ToolsThms.v ===== *)
(** * Theorems about tool governance

    Confirmation tokens work once and only for their scope, governance allows
    only what every check passed and charges only what it allows, and a
    non-idempotent tool is called at most once per execution key. *)

From S2P Require Import Prelude PyText Tenant Tools.
#[local] Open Scope Z_scope.

(** ** Confirmation tokens *)
Section confirmation.
Import Confirmation.
Context `{E : Env} `{!UniqueIds E} `{TokenCodec}.

(** What the code relies on in base64, JSON and the MAC: texts without dots
    that decode to what was encoded and fit the size limit. *)
Definition codec_ok (payload : gmap string pyval) : Prop :=
  let encoded := encode_payload payload in
  decode_payload encoded = Some payload /\
  split_dot encoded = None /\ split_dot (sign encoded) = None /\
  encoded <> ""%string /\ sign encoded <> ""%string /\
  char_len (encoded +:+ "." +:+ sign encoded)%string <= 16384.

Lemma split_dot_app a b :
  split_dot a = None -> split_dot (a +:+ "." +:+ b)%string = Some (a, b).
Proof.
  induction a as [|c a IH]; simpl; [done|]. destruct (Ascii.eqb c _); [done|].
  destruct (split_dot a) as [[? ?]|]; [done|]. intros _. by rewrite IH.
Qed.

Lemma str_empty_false s : s <> ""%string -> str_empty s = false.
Proof. intros. unfold str_empty. by rewrite bool_decide_false. Qed.

Lemma parse_issued payload :
  codec_ok payload ->
  parse_token (encode_payload payload +:+ "." +:+ sign (encode_payload payload))%string = Some payload.
Proof.
  intros (Hdec & Hs1 & Hs2 & Hn1 & Hn2 & Hlen). unfold parse_token.
  destruct (Z.ltb_spec 16384 (char_len (encode_payload payload +:+ "." +:+ sign (encode_payload payload)))%string);
    [lia|].
  rewrite split_dot_app, !str_empty_false, Hs2 by done. simpl. by rewrite bool_decide_true.
Qed.

(** The fields of an issued payload. *)
Lemma payload_fields jti exp scope :
  let p := payload_of jti exp scope in
  py_get "exp" p = PInt exp /\ py_get "jti" p = PStr jti /\
  forall other, existsb (fun '(field, value) => negb (py_eq_str (py_get field p) value)) (asdict other)
    = negb (bool_decide (cs_tenant_id scope = cs_tenant_id other)
            && bool_decide (cs_principal_id scope = cs_principal_id other)
            && bool_decide (cs_session_id scope = cs_session_id other)
            && bool_decide (cs_tool_name scope = cs_tool_name other)
            && bool_decide (cs_arguments_hash scope = cs_arguments_hash other)).
Proof.
  simpl. split_and!; [done..|]. intros other. simpl.
  change (py_get "tenant_id" _) with (PStr (cs_tenant_id scope)).
  change (py_get "principal_id" _) with (PStr (cs_principal_id scope)).
  change (py_get "session_id" _) with (PStr (cs_session_id scope)).
  change (py_get "tool_name" _) with (PStr (cs_tool_name scope)).
  change (py_get "arguments_hash" _) with (PStr (cs_arguments_hash scope)).
  simpl. repeat case_bool_decide; done.
Qed.

Definition scope_eqb (a b : ConfirmationScope) : bool :=
  bool_decide (cs_tenant_id a = cs_tenant_id b)
  && bool_decide (cs_principal_id a = cs_principal_id b)
  && bool_decide (cs_session_id a = cs_session_id b)
  && bool_decide (cs_tool_name a = cs_tool_name b)
  && bool_decide (cs_arguments_hash a = cs_arguments_hash b).

Lemma scope_eqb_spec a b : scope_eqb a b = true <-> a = b.
Proof.
  unfold scope_eqb. rewrite !andb_true_iff, !bool_decide_eq_true.
  destruct a, b; simpl; split; [intros; destruct_and!; by subst|intros [=]; by subst].
Qed.

(** What consuming a token does whose payload was issued. *)
Definition consumed (jti : string) (scope expected : ConfirmationScope) (now : Z) (s : Ledger)
    (r : outcome unit) (s' : Ledger) : Prop :=
  if scope_eqb scope expected then
    match tokens s !! jti with
    | Some (x, false) =>
      if x <? now
      then r = Raise (ConfirmationError "confirmation token was already used") /\ s' = s
      else r = Ok tt /\ s' = MkLedger (<[jti := (x, true)]> (tokens s))
    | _ => r = Raise (ConfirmationError "confirmation token was already used") /\ s' = s
    end
  else r = Raise (ConfirmationError "confirmation token scope mismatch") /\ s' = s.

Lemma consume_issued jti exp scope expected s e token :
  parse_token token = Some (payload_of jti exp scope) -> jti <> ""%string ->
  clock_at (ticks e) / 1000000 <= exp ->
  wp (consume token expected) (fun r s' _ =>
    consumed jti scope expected (clock_at (S (ticks e)) / 1000000) s r s') s e.
Proof.
  intros Hp Hj Hexp. unfold consume, consumed. rewrite Hp.
  destruct (payload_fields jti exp scope) as (He & Hid & Hsc). rewrite He.
  apply wp_bind, wp_bind, wp_datetime_now, wp_ret, wp_bind, wp_raise_if;
    intros Hx; bool_prop; [simpl in *; lia|]. clear Hx.
  apply wp_bind. rewrite Hsc. fold (scope_eqb scope expected). apply wp_raise_if; intros Hx;
    bool_prop; rewrite Hx; [done|]. rewrite Hid.
  apply wp_bind, wp_raise_if; intros Hy; [by rewrite str_empty_false in Hy|].
  unfold ledger_consume, time_time. destruct (tokens s !! jti) as [[x [|]]|] eqn:Hget;
    apply wp_bind, wp_bind, wp_gets; rewrite Hget; wp_steps; try done.
  all: simpl in *; by rewrite Heqb.
Qed.

(** The calls of the service, in any order, with what they answered. *)
Inductive token_call : Type :=
  | TIssue (scope : ConfirmationScope)
  | TConsume (token : string) (expected : ConfirmationScope).

Definition token_exec (ttl_seconds : Z) (c : token_call) : M Ledger unit :=
  match c with
  | TIssue scope => issue ttl_seconds scope ;; ret tt
  | TConsume token expected => consume token expected
  end.

Inductive token_run (ttl : Z) : Ledger * effects -> list (token_call * outcome unit) -> Ledger * effects -> Prop :=
  | token_run_nil c : token_run ttl c [] c
  | token_run_call c s e r s' e' tr c' :
      token_exec ttl c s e = (r, s', e') -> token_run ttl (s', e') tr c' -> token_run ttl (s, e) ((c, r) :: tr) c'.

(** The identifier that an authenticated token carries. *)
Definition token_id (token : string) : option string :=
  match parse_token token with
  | Some payload => match py_get "jti" payload with PStr jti => Some jti | _ => None end
  | None => None
  end.

(** A call that consumed a token with the identifier [jti]. *)
Definition redeems (jti : string) (x : token_call * outcome unit) : bool :=
  match x with
  | (TConsume token _, Ok _) => bool_decide (token_id token = Some jti)
  | _ => false
  end.

(** What [consume] does, for any token. *)
Lemma consume_cases token expected s e :
  wp (consume token expected) (fun r s' e' => uuids e' = uuids e /\ match r with
    | Ok _ => exists jti ex, token_id token = Some jti /\ tokens s !! jti = Some (ex, false) /\
        s' = MkLedger (<[jti := (ex, true)]> (tokens s))
    | Raise x => s' = s /\ exists msg, x = ConfirmationError msg
    end) s e.
Proof.
  unfold consume, token_id, invalid. destruct (parse_token token) as [p|]; [|by wp_steps; eauto].
  destruct (py_get "exp" p); try (by wp_steps; eauto).
  destruct (py_get "jti" p); unfold ledger_consume, time_time; wp_steps; simpl in *; try done; eauto 10.
Qed.

(** One call: the entry of [jti] stays, is used when it is redeemed, and never twice. *)
Lemma token_exec_entry ttl c jti ex b s e :
  tokens s !! jti = Some (ex, b) -> (forall n, uuid_at n = jti -> (n < uuids e)%nat) ->
  wp (token_exec ttl c) (fun r s' e' => (uuids e <= uuids e')%nat /\ tokens s' !! jti = Some (ex, b || redeems jti (c, r)) /\
    (b = true -> redeems jti (c, r) = false)) s e.
Proof.
  intros Hk Hn. destruct c as [scope|token expected]; simpl.
  - unfold issue, ledger_issue, time_time. wp_steps. simpl. split_and!; [lia| |done]. rewrite orb_false_r.
    rewrite lookup_insert_ne; [done|]. intros Eq. specialize (Hn _ Eq). simpl in Hn. lia.
  - eapply wp_mono; [apply consume_cases|]. intros [[]|x] s' e' [Hu Hr]; simpl.
    + destruct Hr as (j & ex' & Hj & Hget & ->). split; [lia|]. rewrite Hj. simpl. rewrite lookup_insert.
      case_decide as Hd; simplify_eq/=; [by rewrite bool_decide_eq_true_2|].
      rewrite bool_decide_eq_false_2 by congruence. by rewrite orb_false_r.
    + destruct Hr as [-> _]. rewrite orb_false_r. split_and!; [lia|done|done].
Qed.

Lemma token_run_entry ttl c tr c' jti ex b :
  token_run ttl c tr c' -> tokens c.1 !! jti = Some (ex, b) -> (forall n, uuid_at n = jti -> (n < uuids c.2)%nat) ->
  tokens c'.1 !! jti = Some (ex, b || existsb (redeems jti) tr) /\
  (length (List.filter (redeems jti) tr) <= (if b then 0 else 1))%nat.
Proof.
  intros Hrun. revert b. induction Hrun as [c|cl s e r s' e' tr c' Hc _ IH]; intros b Hk Hn; cbn [fst snd existsb List.filter] in *.
  - rewrite orb_false_r. split; [done|]. case_match; simpl; lia.
  - pose proof (wp_run _ _ _ _ _ _ _ (token_exec_entry ttl cl jti ex b s e Hk Hn) Hc) as (Hu & Hk' & Hb).
    destruct (IH _ Hk') as [Hend Hlen]; [intros n En; specialize (Hn n En); lia|].
    split; [by rewrite orb_assoc|]. destruct (redeems jti (cl, r)) eqn:Hr.
    + destruct b; [by specialize (Hb eq_refl)|]. simpl in *. lia.
    + by rewrite orb_false_r in Hlen.
Qed.

(** A token that was issued carries the identifier that was drawn for it. *)
Lemma issued_token_id jti exp scope token : parse_token token = Some (payload_of jti exp scope) -> token_id token = Some jti.
Proof. intros Hp. unfold token_id. by rewrite Hp. Qed.

Lemma wrong_scope_refused jti exp scope other s e token :
  parse_token token = Some (payload_of jti exp scope) -> other <> scope ->
  wp (consume token other) (fun r s' _ => s' = s /\ exists msg, r = Raise (ConfirmationError msg)) s e.
Proof.
  intros Hp Hne. unfold consume. rewrite Hp. destruct (payload_fields jti exp scope) as (He & Hid & Hsc). rewrite He.
  apply wp_bind, wp_bind, wp_datetime_now, wp_ret, wp_bind, wp_raise_if; intros Hx; [by eauto|].
  apply wp_bind. rewrite Hsc. fold (scope_eqb scope other). apply wp_raise_if; intros Hy; [by eauto|].
  apply negb_false_iff, scope_eqb_spec in Hy. congruence.
Qed.

Lemma run_scope jti exp scope token ttl c tr c' other r :
  parse_token token = Some (payload_of jti exp scope) -> token_run ttl c tr c' ->
  (TConsume token other, Ok r) ∈ tr -> other = scope.
Proof.
  intros Hp Hrun. induction Hrun as [c|cl s e o s' e' tr c' Hc _ IH]; [by intros ?%elem_of_nil|].
  intros [Eq|?]%elem_of_cons; [|by apply IH]. injection Eq as <- <-. destruct (scope_eqb scope other) eqn:Hs; [by apply scope_eqb_spec in Hs|].
  assert (other <> scope) as Hne by (intros ->; by rewrite (proj2 (scope_eqb_spec scope scope)) in Hs). simpl in Hc.
  pose proof (wp_run _ _ _ _ _ _ _ (wrong_scope_refused jti exp scope other s e token Hp Hne) Hc) as [_ [msg Hr]]. done.
Qed.

(** C15: A confirmation token is valid for its scope, once, whatever the service does: along any
    sequence of issues and consumptions of any tokens after it was issued, at most one consumption
    of it returns, with the scope it was issued for; after the sequence, consuming it with another
    scope raises and changes nothing; once it was consumed, consuming it again with any scope
    raises and changes nothing; and as long as no token with its identifier was consumed and it has
    not expired by the two clock readings, consuming it with its scope returns. *)
Theorem confirmation_one_time ttl scope s e token s1 e1 tr s2 e2 :
  issue ttl scope s e = (Ok token, s1, e1) ->
  codec_ok (payload_of (uuid_at (uuids e)) (clock_at (ticks e) / 1000000 + ttl) scope) ->
  uuid_at (uuids e) <> ""%string -> token_run ttl (s1, e1) tr (s2, e2) ->
  let refused x := exists msg e', consume token x s2 e2 = (Raise (ConfirmationError msg), s2, e') in
  let redeemed := existsb (redeems (uuid_at (uuids e))) tr in
  (length (List.filter (redeems (uuid_at (uuids e))) tr) <= 1)%nat /\
  (forall x r, (TConsume token x, Ok r) ∈ tr -> redeemed = true /\ x = scope) /\
  (forall other, other <> scope -> refused other) /\
  (redeemed = true -> forall x, refused x) /\
  (redeemed = false -> (forall n, (n <= 1)%nat -> clock_at (ticks e2 + n) / 1000000 <= clock_at (ticks e) / 1000000 + ttl) ->
     exists s3 e3, consume token scope s2 e2 = (Ok tt, s3, e3)).
Proof.
  intros Hissue Hok Hj Hrun refused redeemed. unfold issue, bind, time_time, bind, datetime_now, ret, uuid4 in Hissue.
  simpl in Hissue. injection Hissue as <- <- <-. set (jti := uuid_at (uuids e)) in *. set (exp := clock_at (ticks e) / 1000000 + ttl) in *.
  pose proof (parse_issued _ Hok) as Hp. set (token := (_ +:+ _)%string) in *. clearbody token.
  assert (Hget : tokens (MkLedger (<[jti := (exp, false)]> (tokens s))) !! jti = Some (exp, false)) by apply lookup_insert_eq.
  destruct (token_run_entry ttl _ _ _ jti exp false Hrun Hget) as [Hend Hlen]; [intros n En; simpl; apply (inj uuid_at) in En; lia|].
  simpl in Hend. split_and!; [done| | | |].
  - intros x r Hin. split; [|by eapply run_scope]. apply existsb_exists. exists (TConsume token x, Ok r).
    split; [by apply list_elem_of_In|]. simpl. rewrite (issued_token_id _ _ _ _ Hp). by apply bool_decide_eq_true_2.
  - intros other Hne. unfold refused. pose proof (wrong_scope_refused jti exp scope other s2 e2 token Hp Hne) as Hw. unfold wp in Hw.
    destruct (consume token other s2 e2) as [[r s3] e3]. simpl in Hw. destruct Hw as [-> [msg ->]]. eauto.
  - intros Hred x. unfold refused. pose proof (consume_cases token x s2 e2) as Hw. unfold wp in Hw. fold redeemed in Hend. rewrite Hred in Hend.
    destruct (consume token x s2 e2) as [[[[]|y] s3] e3]; simpl in Hw; destruct Hw as [_ Hw].
    + destruct Hw as (j & ex & Hid & Hj2 & _). rewrite (issued_token_id _ _ _ _ Hp) in Hid. congruence.
    + destruct Hw as [-> [msg ->]]. eauto.
  - intros Hred Hclock. fold redeemed in Hend. rewrite Hred in Hend. pose proof (Hclock 0%nat ltac:(lia)) as H0.
    pose proof (Hclock 1%nat ltac:(lia)) as H1. rewrite Nat.add_0_r in H0. rewrite Nat.add_1_r in H1.
    pose proof (consume_issued jti exp scope scope s2 e2 token Hp Hj H0) as Hw. unfold wp, consumed in Hw. rewrite Hend in Hw.
    rewrite (proj2 (scope_eqb_spec scope scope) eq_refl) in Hw. destruct (consume token scope s2 e2) as [[r s3] e3]. simpl in Hw.
    destruct (Z.ltb_spec exp (clock_at (S (ticks e2)) / 1000000)); [lia|]. destruct Hw as [-> _]. eauto.
Qed.
End confirmation.

(** ** Governance *)
Section governance.
Import Confirmation Governance.
Context `{E : Env} `{TokenCodec} `{Guard} `{AuditSink} `{ArgumentsHash}.

(** The checks that must pass before a tool may run. *)
Record permitted (context : TenantContext) (config : TenantConfig) (tool_name : string)
    (arguments : gmap string pyval) (token : option string) : Prop := {
  pm_tenant : tc_tenant_id context = cfg_tenant_id config;
  pm_app : tc_app_id context = cfg_app_id config;
  pm_allowed : tool_name ∈ tp_allow (cfg_tools config);
  pm_safe : scan tool_name arguments <> DENY;
  pm_confirmed : requires_confirmation config tool_name arguments = true ->
    exists t, token = Some t /\ t <> ""%string;
}.

Definition charge (s : State) (tenant : string) : Z := default 0 (spent s !! tenant).

Lemma reserve_spec t cost limit s e :
  wp (reserve t cost limit) (fun r s' _ =>
    if limit <? charge s t + cost then r = Ok false /\ s' = s
    else r = Ok true /\ s' = s <| spent := <[t := charge s t + cost]> (spent s) |>) s e.
Proof. unfold reserve, charge. wp_steps; done. Qed.

(** The sink failed on the record of a decision. *)
Definition audit_failed (s : State) (tenant_id tool_name : string) (decision : Decision) (x : exn) : Prop :=
  exists trail why, audit s = Some trail /\ audit_error trail (tenant_id, tool_name, decision, why) = Some x.

(** Every way [evaluate] can end: it allows the tool, it charges the tenant and the sink fails, or
    it charges nobody. *)
Definition evaluated ctx cfg tool args cost token (s : State) (r : outcome (Decision * string))
    (s' : State) : Prop :=
  (((exists why, r = Ok (ALLOW, why)) \/ exists x, r = Raise x /\ audit_failed s (tc_tenant_id ctx) tool ALLOW x) /\
     permitted ctx cfg tool args token /\
     charge s (tc_tenant_id ctx) + cost <= bp_monthly_cost_units (cfg_budget cfg) /\
     spent s' = <[tc_tenant_id ctx := charge s (tc_tenant_id ctx) + cost]> (spent s) /\
     if requires_confirmation cfg tool args
     then exists e1 e2, consume (str_or token "") (scope_of ctx tool args) (confirmations s) e1
                        = (Ok tt, confirmations s', e2)
     else confirmations s' = confirmations s) \/
  (spent s' = spent s /\ forall why, r <> Ok (ALLOW, why)).

(** What recording a decision does. *)
Lemma result_spec t tool d why s e :
  wp (_result t tool d why) (fun r s' _ => spent s' = spent s /\ confirmations s' = confirmations s /\
    (r = Ok (d, why) \/ exists x, r = Raise x /\ audit_failed s t tool d x)) s e.
Proof.
  unfold _result. wp_steps; split_and!; try done; first [by left|right; eexists; split; [done|]; by eexists _, _].
Qed.

(** The end of [evaluate], after the confirmation check. *)
Lemma budget_cases t tool cost limit s e :
  wp (let* reserved := reserve t cost limit in
      if negb reserved then _result t tool DENY "budget_exhausted"
      else _result t tool ALLOW "policy_passed") (fun r s' _ =>
    (((exists why, r = Ok (ALLOW, why)) \/ exists x, r = Raise x /\ audit_failed s t tool ALLOW x) /\
     charge s t + cost <= limit /\
     spent s' = <[t := charge s t + cost]> (spent s) /\ confirmations s' = confirmations s) \/
    (spent s' = spent s /\ forall why, r <> Ok (ALLOW, why))) s e.
Proof.
  apply wp_bind. eapply wp_mono; [apply reserve_spec|]. intros r s' e' Hr.
  destruct (Z.ltb_spec limit (charge s t + cost)); destruct Hr as [-> ->]; simpl; (eapply wp_mono; [apply result_spec|]).
  - intros r s1 e1 (Hsp & _ & Hr). right. split; [done|]. intros why ->. destruct Hr as [[=]|(x & [=] & _)].
  - intros r s1 e1 (Hsp & Hcf & Hr). left. split_and!; [|lia|done|done].
    destruct Hr as [->|(x & -> & Hx)]; [left; by eexists|right; by exists x].
Qed.

Lemma evaluate_cases ctx cfg tool args cost token s e :
  wp (evaluate ctx cfg tool args cost token) (fun r s' _ =>
    evaluated ctx cfg tool args cost token s r s') s e.
Proof.
  assert (Hno : forall d why (w : string), d <> ALLOW ->
    wp (_result (tc_tenant_id ctx) tool d why) (fun r s' _ =>
      evaluated ctx cfg tool args cost token s r s') s e).
  { intros d why w Hd. eapply wp_mono; [apply result_spec|]. intros r s' e' (Hsp & _ & Hr). right. split; [done|].
    intros ? ->. destruct Hr as [[= <- _]|(x & [=] & _)]. done. }
  unfold evaluate. cbv zeta. destruct (_ || _) eqn:Hid; [by apply (Hno _ _ ""%string)|]. bool_prop.
  destruct (negb _) eqn:Hall; [by apply (Hno _ _ ""%string)|]. bool_prop.
  destruct (bool_decide (scan tool args = DENY)) eqn:Hsafe; [by apply (Hno _ _ ""%string)|]. bool_prop.
  destruct (requires_confirmation cfg tool args) eqn:Hreq.
  - destruct (str_empty (str_or token "")) eqn:Htok; [by apply (Hno _ _ ""%string)|].
    assert (permitted ctx cfg tool args token) as Hperm.
    { split; try done. intros _. destruct token as [x|]; [|done]. exists x. split; [done|].
      intros ->. done. }
    apply wp_bind, wp_zoom, wp_intro. intros [[]|x] l e1 Hc; [|by right].
    eapply wp_mono; [apply budget_cases|]. intros r s' e' [(Hr & Hle & Hsp & Hcf)|[Hsp Hr]]; [left|by right].
    rewrite Hreq. split_and!; [done|done|done|done|]. exists e, e1. simpl in Hcf. by rewrite Hcf.
  - assert (permitted ctx cfg tool args token) as Hperm by (split; try done; congruence).
    eapply wp_mono; [apply budget_cases|]. intros r s' e' [(Hr & Hle & Hsp & Hcf)|[Hsp Hr]]; [left|by right].
    rewrite Hreq. split_and!; done.
Qed.

(** C16: Governance is sound and charges only what passed every check: a tool is allowed only
    when the caller's tenant and app own the configuration, the tool is on the allow list, the
    safety scan did not deny it, a required confirmation token was consumed, and the cost fits the
    monthly budget, which is charged exactly once.  An answer that does not allow the tool leaves
    every budget unchanged.  So does an exception, with one exception: when the audit sink fails on
    the record of an allowed tool, the tenant has been charged, after all the checks, for a tool
    that is not run. *)
Theorem governance_sound ctx cfg tool args cost token s e r s' e' :
  evaluate ctx cfg tool args cost token s e = (r, s', e') ->
  let charged := permitted ctx cfg tool args token /\
      charge s' (tc_tenant_id ctx) = charge s (tc_tenant_id ctx) + cost /\
      charge s' (tc_tenant_id ctx) <= bp_monthly_cost_units (cfg_budget cfg) /\
      (forall t, t <> tc_tenant_id ctx -> charge s' t = charge s t) /\
      (requires_confirmation cfg tool args = true -> exists e1 e2,
         consume (str_or token "") (scope_of ctx tool args) (confirmations s) e1
           = (Ok tt, confirmations s', e2)) in
  match r with
  | Ok (ALLOW, _) => charged
  | Ok _ => forall t, charge s' t = charge s t
  | Raise x => (forall t, charge s' t = charge s t) \/ charged /\ audit_failed s (tc_tenant_id ctx) tool ALLOW x
  end.
Proof.
  intros Hrun charged. pose proof (wp_run _ _ _ _ _ _ _ (evaluate_cases ctx cfg tool args cost token s e) Hrun)
    as Hc. destruct Hc as [(Hr & Hp & Hle & Hsp & Hcf)|[Hsp Hr]].
  - assert (charged) as Hch.
    { unfold charged, charge in *. rewrite Hsp, lookup_insert_eq. split_and!; [done|done|done| |].
      - intros t Ht. by rewrite lookup_insert_ne.
      - intros Hreq. by rewrite Hreq in Hcf. }
    destruct Hr as [[why ->]|(x & -> & Hx)]; [done|by right].
  - assert (forall t, charge s' t = charge s t) by (intros t; unfold charge; by rewrite Hsp).
    destruct r as [[[| |] why]|x]; [by destruct (Hr why)|done..|by left].
Qed.
End governance.

(** ** Execution *)
Section execution.
Import Execution.
Context (risk_of : string -> ToolRisk).

(** Executions interleave at the tool call: one is admitted, later its call
    ends. *)
Record Pool : Type := MkPool {
  ledger : State;
  in_flight : list (string * bool);
}.

Inductive estep : Pool -> Pool -> Prop :=
  | estep_admit key s e fl rt s' e' :
      execute_begin key (risk_of key) s e = (Ok (Call rt), s', e') ->
      estep (MkPool s fl) (MkPool s' (fl ++ [(key, rt)]))
  | estep_settle key s e fl r s' e' :
      execute_begin key (risk_of key) s e = (r, s', e') -> (forall rt, r <> Ok (Call rt)) ->
      estep (MkPool s fl) (MkPool s' fl)
  | estep_finish key rt s e fl1 fl2 result r s' e' :
      execute_finish key (risk_of key) rt result s e = (r, s', e') ->
      estep (MkPool s (fl1 ++ (key, rt) :: fl2)) (MkPool s' (fl1 ++ fl2)).

(** The keys of the tools that were called and may not be called twice. *)
Definition once_calls (s : State) : list string :=
  (List.filter (fun c => negb (bool_decide (c.2 = IDEMPOTENT))) (calls s)).*1.

Record pool_ok (p : Pool) : Prop := {
  po_once : NoDup (once_calls (ledger p));
  po_known : forall key, key ∈ once_calls (ledger p) ->
    risk_of key <> IDEMPOTENT /\ is_Some (records (ledger p) !! key);
  po_records : forall key r, records (ledger p) !! key = Some r ->
    er_fresh r = false /\ (risk_of key <> IDEMPOTENT -> er_status r <> FAILED);
}.

Lemma once_calls_app s s' key :
  calls s' = calls s ++ [(key, risk_of key)] ->
  once_calls s' = once_calls s ++ (if bool_decide (risk_of key = IDEMPOTENT) then [] else [key]).
Proof.
  intros Hc. unfold once_calls. rewrite Hc, List.filter_app, fmap_app. simpl.
  by destruct (bool_decide (risk_of key = IDEMPOTENT)).
Qed.

(** The record of a key after [execute_begin]. *)
Definition begun (key : string) (s s' : State) : Prop :=
  is_Some (records s !! key) /\ records s' = records s \/
  records s !! key = None /\
  records s' = <[key := MkExecutionRecord key STARTED None false false]> (records s).

Lemma begin_spec key s e :
  wp (execute_begin key (risk_of key)) (fun r s' _ =>
    begun key s s' /\
    ((calls s' = calls s /\ forall rt, r <> Ok (Call rt)) \/
     (calls s' = calls s ++ [(key, risk_of key)] /\ (exists rt, r = Ok (Call rt)) /\
      (risk_of key = IDEMPOTENT \/ records s !! key = None \/
       exists x, records s !! key = Some x /\ (er_fresh x = true \/ er_status x = FAILED))))) s e.
Proof.
  unfold execute_begin, begin, begun. wp_steps; simpl; (split; [by eauto|]);
    try (left; split; [done|naive_solver]).
  all: right; (split; [done|split; [by eauto|]]); bool_prop; simpl in *; simplify_eq; auto.
  all: destruct (decide (risk_of key = IDEMPOTENT)) as [|Hni]; [auto|right; right].
  all: eexists; (split; [reflexivity|]).
  all: match goal with Hx : negb (er_fresh ?r) && _ && _ = false |- _ =>
    destruct (er_fresh r) eqn:?, (er_status r) eqn:?; auto; simpl in *;
    rewrite ?bool_decide_false in * by done; simpl in *; try done end.
Qed.

Lemma finish_spec key rt result s e :
  wp (execute_finish key (risk_of key) rt result) (fun _ s' _ =>
    calls s' = calls s /\
    (records s' = records s \/ exists r, records s' = <[key := r]> (records s) /\ er_fresh r = false /\
      (risk_of key <> IDEMPOTENT -> er_status r <> FAILED))) s e.
Proof.
  unfold execute_finish, finish. destruct result; wp_steps; simpl; (split; [done|]); auto.
  all: right; eexists; (split; [done|]); simpl; (split; [done|]); try done.
  all: intros Hni; by rewrite bool_decide_false.
Qed.

(** What holds of every record survives an insertion that has it. *)
Lemma records_insert (s s' : State) key r (P : string -> ExecutionRecord -> Prop) :
  records s' = <[key := r]> (records s) -> P key r ->
  (forall k x, records s !! k = Some x -> P k x) -> forall k x, records s' !! k = Some x -> P k x.
Proof.
  intros -> Hr Hall k x [[-> <-]|[_ Hx]]%lookup_insert_Some; [done|by apply Hall].
Qed.

Lemma known_insert (s s' : State) key r k :
  records s' = <[key := r]> (records s) -> is_Some (records s !! k) -> is_Some (records s' !! k).
Proof.
  intros -> Hk. destruct (decide (key = k)) as [<-|]; [rewrite lookup_insert_eq|rewrite lookup_insert_ne]; eauto.
Qed.

Lemma begun_ok key s s' fl fl' :
  begun key s s' -> pool_ok (MkPool s fl) -> once_calls s' = once_calls s -> pool_ok (MkPool s' fl').
Proof.
  intros [[_ Hr]|[_ Hr]] [Ho Hk Hs] Hc; simpl in *; split; simpl; rewrite ?Hc; auto.
  - intros k. rewrite Hr. apply Hk.
  - intros k r. rewrite Hr. apply Hs.
  - intros k [? Hin]%Hk. split; [done|]. by apply (known_insert _ _ _ _ _ Hr).
  - by apply (records_insert _ _ _ _ (fun k r => er_fresh r = false /\ (risk_of k <> IDEMPOTENT -> _)) Hr).
Qed.

(** A key that is not idempotent is admitted once, before it has a record. *)
Lemma admitted_fresh key s e fl r s' e' :
  execute_begin key (risk_of key) s e = (r, s', e') -> pool_ok (MkPool s fl) ->
  begun key s s' /\
  (once_calls s' = once_calls s \/
   once_calls s' = once_calls s ++ [key] /\ risk_of key <> IDEMPOTENT /\ records s !! key = None /\
   records s' = <[key := MkExecutionRecord key STARTED None false false]> (records s)).
Proof.
  intros Hrun [_ _ Hs]; simpl in Hs.
  destruct (wp_run _ _ _ _ _ _ _ (begin_spec key s e) Hrun) as [Hb [[Hc _]|(Hc & _ & Hwhy)]]; (split; [done|]).
  { left. unfold once_calls. by rewrite Hc. }
  apply once_calls_app in Hc. case_bool_decide as Hi; [left; by rewrite Hc, app_nil_r|right].
  assert (records s !! key = None) as Hnone.
  { destruct Hwhy as [?|[?|(x & Hx & Hx')]]; [done|done|]. destruct (Hs _ _ Hx) as [Hf Hst].
    destruct Hx' as [Hx'|Hx']; [congruence|by destruct (Hst Hi)]. }
  destruct Hb as [[[? Hsome] _]|[_ Hrec]]; [congruence|done].
Qed.

Lemma pool_ok_begin key s e fl fl' r s' e' :
  execute_begin key (risk_of key) s e = (r, s', e') -> pool_ok (MkPool s fl) -> pool_ok (MkPool s' fl').
Proof.
  intros Hrun Hp. destruct (admitted_fresh _ _ _ _ _ _ _ Hrun Hp) as [Hb [Hc|(Hc & Hi & Hnone & Hrec)]];
    [by eapply begun_ok|]. destruct Hp as [Ho Hk Hs]; simpl in *. split; simpl; rewrite ?Hc.
  - apply NoDup_app. split_and!; [done| |apply NoDup_singleton].
    intros k Hin ->%list_elem_of_singleton. destruct (Hk _ Hin) as [_ []]. congruence.
  - intros k [[? Hin]%Hk| ->%list_elem_of_singleton]%elem_of_app; (split; [done|]).
    + by apply (known_insert _ _ _ _ _ Hrec).
    + rewrite Hrec, lookup_insert_eq. eauto.
  - by apply (records_insert _ _ _ _ (fun k r => er_fresh r = false /\ (risk_of k <> IDEMPOTENT -> _)) Hrec).
Qed.

Lemma pool_ok_finish key rt result s e fl fl' r s' e' :
  execute_finish key (risk_of key) rt result s e = (r, s', e') ->
  pool_ok (MkPool s fl) -> pool_ok (MkPool s' fl').
Proof.
  intros Hrun [Ho Hk Hs]; simpl in *.
  destruct (wp_run _ _ _ _ _ _ _ (finish_spec key rt result s e) Hrun) as [Hc Hr].
  assert (once_calls s' = once_calls s) as Hc' by (unfold once_calls; by rewrite Hc).
  destruct Hr as [Hr|(x & Hr & Hx1 & Hx2)]; split; simpl; rewrite ?Hc'; auto.
  - intros k. rewrite Hr. apply Hk.
  - intros k y. rewrite Hr. apply Hs.
  - intros k [? Hin]%Hk. split; [done|]. by apply (known_insert _ _ _ _ _ Hr).
  - by apply (records_insert _ _ _ _ (fun k r => er_fresh r = false /\ (risk_of k <> IDEMPOTENT -> _)) Hr).
Qed.

Lemma pool_ok_steps p q : rtc estep p q -> pool_ok p -> pool_ok q.
Proof.
  induction 1 as [|p q r Hstep _ IH]; [done|]. intros Hp. apply IH.
  destruct Hstep; eauto using pool_ok_begin, pool_ok_finish.
Qed.

Definition empty_pool : Pool := MkPool (MkState ∅ []) [].

Lemma empty_pool_ok : pool_ok empty_pool.
Proof. split; simpl; [constructor|by intros ? ?%elem_of_nil|done]. Qed.

(** A key that was called is answered from the ledger or refused. *)
Lemma called_not_again key s fl e r s' e' :
  pool_ok (MkPool s fl) -> key ∈ once_calls s ->
  execute_begin key (risk_of key) s e = (r, s', e') ->
  s' = s /\ ((exists v, r = Ok (Answer v)) \/ exists msg, r = Raise (HumanReviewRequired msg)).
Proof.
  intros [_ Hk Hs] Hin Hrun; simpl in *. destruct (Hk _ Hin) as [Hi [x Hx]].
  destruct (Hs _ _ Hx) as [Hf Hst]. specialize (Hst Hi).
  cut (wp (execute_begin key (risk_of key)) (fun r s' _ => s' = s /\
    ((exists v, r = Ok (Answer v)) \/ exists msg, r = Raise (HumanReviewRequired msg))) s e).
  { intros Hw. exact (wp_run _ _ _ _ _ _ _ Hw Hrun). }
  clear Hrun r s' e'. unfold execute_begin, begin. wp_steps; simpl in *; try done; eauto.
  all: exfalso; bool_prop; simplify_eq; rewrite ?Hf, ?(bool_decide_false (risk_of key = IDEMPOTENT)) in * by done.
  all: destruct (er_status x); done.
Qed.

(** A tool that is not idempotent is called at most once per execution
    key, however executions of it overlap: from an empty ledger no sequence of
    admissions and completions records two calls of the same key, and a key that
    was called is from then on answered with the recorded result or refused for
    human review, without changing the ledger. *)
Theorem nonidempotent_called_once p :
  rtc estep empty_pool p ->
  NoDup (once_calls (ledger p)) /\
  forall key e r s' e', key ∈ once_calls (ledger p) ->
    execute_begin key (risk_of key) (ledger p) e = (r, s', e') ->
    s' = ledger p /\ ((exists v, r = Ok (Answer v)) \/ exists msg, r = Raise (HumanReviewRequired msg)).
Proof.
  intros Hp%pool_ok_steps; [|apply empty_pool_ok]. split; [apply Hp|].
  intros key e r s' e' Hin Hrun. destruct p as [s fl]. by eapply called_not_again.
Qed.
End execution.

(** ** Witnesses *)
Section demo.
Import Confirmation Governance.
#[local] Existing Instance demo_env.

Definition demo_scope : ConfirmationScope := MkConfirmationScope "t1" "p1" "s1" "shell" "hash".
Definition demo_payload : gmap string pyval := payload_of "id-0" 300 demo_scope.

(** An encoding that knows one payload. *)
#[local] Instance demo_codec : TokenCodec := {|
  sign := fun text => ("sig-" +:+ text)%string;
  encode_payload := fun p => if py_eq_str (py_get "jti" p) "id-0" then "payload"%string else "other"%string;
  decode_payload := fun text => if bool_decide (text = "payload"%string) then Some demo_payload else None;
|}.

Definition demo_other : ConfirmationScope := MkConfirmationScope "t2" "p1" "s1" "shell" "hash".
Definition demo_ledger : Ledger := MkLedger {["id-0"%string := (300, false)]}.

Lemma demo_issue :
  issue 300 demo_scope (MkLedger ∅) fx0 = (Ok "payload.sig-payload"%string, demo_ledger, Effects 1 1).
Proof. vm_compute. reflexivity. Qed.

Lemma demo_codec_ok : codec_ok demo_payload.
Proof. split_and!; vm_compute; done. Qed.

Lemma confirmation_one_time_witness :
  let token := "payload.sig-payload"%string in
  exists s2 e2, consume token demo_scope demo_ledger (Effects 1 1) = (Ok tt, s2, e2) /\
    exists msg e', consume token demo_scope s2 e2 = (Raise (ConfirmationError msg), s2, e').
Proof.
  intros token. destruct (consume token demo_scope demo_ledger (Effects 1 1)) as [[r s2] e2] eqn:Hc.
  assert (r = Ok tt) as -> by (vm_compute in Hc; injection Hc as <- _ _; reflexivity).
  destruct (confirmation_one_time 300 demo_scope (MkLedger ∅) fx0 token demo_ledger (Effects 1 1)
    [(TConsume token demo_scope, Ok tt)] s2 e2 demo_issue demo_codec_ok ltac:(discriminate)) as (_ & _ & _ & Hused & _).
  - eapply token_run_call; [exact Hc|apply token_run_nil].
  - exists s2, e2. split; [reflexivity|]. apply Hused. vm_compute. reflexivity.
Defined.

Definition demo_ctx : TenantContext := MkTenantContext "t1" "app" 1 "b1" "p1" "s1" "r1" "trace".

Definition demo_tools_config : TenantConfig :=
  MkTenantConfig "t1" "app" 1
    (MkModelPolicy "openai" "m" None None (QArith_base.Qmake 30 1) None None [] None None None)
    (MkToolPolicy {["shell"%string]} {["shell"%string]} ∅) (MkBudgetPolicy 1000 100 1)
    (MkAuditPolicy 30 false) (MkMediaPolicy false 1 1 1 1 1 false)
    (MkStorageSelection "p" "postgres" "postgres" "local" "postgres") "" 1 0.

#[local] Instance demo_sink : AuditSink := fun _ _ => None.
#[local] Instance demo_guard : Guard := fun script _ _ =>
  if bool_decide (script = "rm -rf /"%string) then SDK_DENY else SDK_ALLOW.
#[local] Instance demo_hash : ArgumentsHash := fun _ => "hash"%string.

Definition demo_args : gmap string pyval := {["command"%string := PStr "ls"]}.

Definition demo_token : option string := Some "payload.sig-payload"%string.
Definition demo_before : State := MkState ∅ demo_ledger (Some []).
Definition demo_after : State :=
  MkState {["t1"%string := 40]} (MkLedger {["id-0"%string := (300, true)]})
    (Some [("t1", "shell", ALLOW, "policy_passed")]%string).

Lemma demo_evaluate :
  evaluate demo_ctx demo_tools_config "shell" demo_args 40 demo_token demo_before fx0
  = (Ok (ALLOW, "policy_passed"%string), demo_after, Effects 0 2).
Proof. vm_compute. reflexivity. Qed.

Lemma governance_sound_witness :
  permitted demo_ctx demo_tools_config "shell" demo_args demo_token /\
  charge demo_after "t1" = 40 /\ charge demo_after "t1" <= 100.
Proof.
  destruct (governance_sound demo_ctx demo_tools_config "shell" demo_args 40 demo_token demo_before fx0
    _ _ _ demo_evaluate) as (Hp & Hc & Hle & _).
  split; [exact Hp|]. split; [exact Hc|exact Hle].
Defined.
End demo.

Section execution_demo.
Import Execution.
#[local] Existing Instance demo_env.
Definition pay : string -> ToolRisk := fun _ => NON_IDEMPOTENT.

(** One execution is admitted, an overlapping one is refused, and the first
    fails with an unknown outcome. *)
Lemma nonidempotent_called_once_witness : exists p,
  rtc (estep pay) empty_pool p /\ once_calls (ledger p) = ["k"%string] /\
  (exists msg, (execute_begin "k" NON_IDEMPOTENT (ledger p) fx0).1.1 = Raise (HumanReviewRequired msg)) /\
  NoDup (once_calls (ledger p)).
Proof.
  set (p := MkPool (MkState {["k"%string := MkExecutionRecord "k" AMBIGUOUS None false false]}
                            [("k"%string, NON_IDEMPOTENT)]) []).
  assert (Hrtc : rtc (estep pay) empty_pool p).
  { eapply rtc_l; [eapply (estep_admit pay "k" _ fx0); vm_compute; reflexivity|].
    eapply rtc_l; [eapply (estep_settle pay "k" _ fx0); [vm_compute; reflexivity|done]|].
    eapply rtc_l; [eapply (estep_finish pay "k" _ _ fx0 [] [] (Raise (RuntimeError "timeout")));
      vm_compute; reflexivity|].
    apply rtc_refl. }
  exists p. split; [exact Hrtc|]. split; [reflexivity|]. split; [eexists; reflexivity|].
  apply (nonidempotent_called_once pay p Hrtc).
Defined.

(** In the in-memory ledger a late failure downgrades a recorded success:
    when two executions of an idempotent key overlap and the second fails after
    the first has recorded its result, the key ends as failed, the result is
    gone and the next execution calls the tool again. *)
Theorem late_failure_downgrades_success key v x e : exists s1 s2 s3 s4 s5,
  execute_begin key IDEMPOTENT (MkState ∅ []) e = (Ok (Call false), s1, e) /\
  execute_begin key IDEMPOTENT s1 e = (Ok (Call false), s2, e) /\
  execute_finish key IDEMPOTENT false (Ok (Some v)) s2 e = (Ok (Some v), s3, e) /\
  records s3 !! key = Some (MkExecutionRecord key SUCCEEDED (Some v) false false) /\
  execute_finish key IDEMPOTENT false (Raise x) s3 e = (Raise x, s4, e) /\
  records s4 !! key = Some (MkExecutionRecord key FAILED None false false) /\
  execute_begin key IDEMPOTENT s4 e = (Ok (Call false), s5, e) /\
  calls s5 = [(key, IDEMPOTENT); (key, IDEMPOTENT); (key, IDEMPOTENT)].
Proof.
  do 5 eexists.
  split; [unfold execute_begin, begin, bind, gets; simpl; rewrite lookup_empty; reflexivity|].
  split; [unfold execute_begin, begin, bind, gets; simpl; rewrite lookup_insert_eq; reflexivity|].
  split; [reflexivity|]. split; [simpl; apply lookup_insert_eq|].
  split; [reflexivity|]. split; [simpl; apply lookup_insert_eq|].
  split; [unfold execute_begin, begin, bind, gets; simpl; rewrite lookup_insert_eq; reflexivity|].
  reflexivity.
Qed.
End execution_demo.
