(* ===== verification/Runtime.v ===== *)
(** * Tenant routing

    [trpc_service/tenant/session_id.py] and [trpc_service/runtime.py]: session
    and principal identifiers derived with a keyed hash, the rollout bucket of a
    session, the choice of the configuration version, and [TenantRuntime], which
    resolves an authenticated binding and accepts a message into the repository
    under the identity of the binding.  The keyed hash, the float product and
    the current trace are parameters. *)

From S2P Require Import Prelude PyText Base64 Tenant Models Mailbox Repository.
From Stdlib Require Import QArith Qround Ascii.
#[local] Close Scope Q_scope.
#[local] Open Scope Z_scope.

(** [hmac.new(key, canonical, sha256).digest()] of a purpose and its parts under
    the routing key: 32 bytes. *)
Class Mac : Type := {
  _mac : string -> list string -> list Z;
  _mac_length : forall purpose parts, length (_mac purpose parts) = 32%nat;
  _mac_bytes : forall purpose parts, Forall (fun b => 0 <= b < 256) (_mac purpose parts);
}.

(** The product of two finite floats: the exact product rounded, so it is
    monotone for a non-negative factor, and exact where the product is an
    integer below [2 ^ 53]. *)
Class FloatMul : Type := {
  fmul : Q -> Q -> Q;
  fmul_mono : forall a b c, (0 <= c)%Q -> (a <= b)%Q -> (fmul a c <= fmul b c)%Q;
  fmul_exact : forall a b n, (a * b == inject_Z n)%Q -> Z.abs n < 2 ^ 53 -> (fmul a b == inject_Z n)%Q;
}.

(** [int.from_bytes(bytes, "big")]. *)
Definition from_bytes (bytes : list Z) : Z := fold_left (fun n b => 256 * n + b) bytes 0.

(** [round(x)] of a float: to the nearest integer, halves to even. *)
Definition py_round (x : Q) : Z :=
  let f := Qfloor x in
  match Qcompare (x - inject_Z f)%Q (1 # 2) with
  | Lt => f
  | Gt => f + 1
  | Eq => if Z.even f then f else f + 1
  end.

Section routing.
Context `{Mac} `{FloatMul}.

Definition session_parts (tenant_id binding_id : string) (kind : ConversationKind)
    (subject : string) : list string :=
  [tenant_id; binding_id; ConversationKind_value kind; subject].

Definition make_session_id {S} (tenant_id binding_id : string) (kind : ConversationKind)
    (external_user_id : string) (external_conversation_id : option string) : M S string :=
  let* subject :=
    (if bool_decide (kind = GROUP) then
       raise_if (str_empty (str_or external_conversation_id ""))
         (ValueError "group conversations require an external conversation id") ;;
       ret (str_or external_conversation_id "")
     else ret external_user_id) in
  ret ("s1_" +:+ b64 (_mac "session" (session_parts tenant_id binding_id kind subject)))%string.

Definition make_principal_id (tenant_id binding_id external_user_id : string) : string :=
  ("p1_" +:+ b64 (_mac "principal" [tenant_id; binding_id; external_user_id]))%string.

Definition rollout_bucket (tenant_id app_id session_id : string) : Z :=
  from_bytes (take 8 (_mac "rollout" [tenant_id; app_id; session_id])) mod 10000.

Definition select_config_version {S} (active_version : Z) (candidate_version : option Z)
    (candidate_percent : Q) (bucket : Z) : M S Z :=
  raise_if (negb (Qle_bool 0 candidate_percent && Qle_bool candidate_percent 100))
    (ValueError "candidate percentage must be between 0 and 100") ;;
  match candidate_version with
  | None => ret active_version
  | Some candidate_version =>
    if Qeq_bool candidate_percent 0 then ret active_version
    else if bucket <? py_round (fmul candidate_percent 100) then ret candidate_version
    else ret active_version
  end.
End routing.

(** ** [TenantRuntime] *)

Record PreparedInbound : Type := MkPreparedInbound {
  pi_context : TenantContext;
  pi_envelope : InboundEnvelope;
  pi_trace_headers : gmap string string;
}.

Inductive SchedulerVersion : Type := V1 | V2.

#[export] Instance SchedulerVersion_eq_dec : EqDecision SchedulerVersion.
Proof. solve_decision. Defined.

(** [Field(min_length=1, max_length=n)]. *)
Definition length_ok (n : Z) (s : string) : bool := (1 <=? char_len s) && (char_len s <=? n).

(** [TenantContext(...)] with its field constraints. *)
Definition make_TenantContext {S} (tenant_id app_id : string) (config_version : Z)
    (channel_binding_id principal_id session_id request_id trace_id : string) : M S TenantContext :=
  raise_if (negb (length_ok 128 tenant_id && length_ok 128 app_id && (1 <=? config_version)
                  && length_ok 256 channel_binding_id && length_ok 256 principal_id
                  && length_ok 256 session_id && length_ok 128 request_id && length_ok 64 trace_id))
    (ValidationError "TenantContext") ;;
  ret (MkTenantContext tenant_id app_id config_version channel_binding_id principal_id session_id
         request_id trace_id).

(** The identifier of the current trace (or a random one) and the headers that
    propagate it. *)
Class Tracing : Type := {
  current_trace_id : string;
  inject_trace_headers : gmap string string;
}.

Section runtime.
Context `{Env} `{Mac} `{FloatMul} `{Tracing}.

Definition unavailable : exn := UnknownBinding "channel binding is unavailable".

Definition prepare {S} (route : BindingRoute) (envelope : InboundEnvelope) : M S PreparedInbound :=
  let binding := br_binding route in
  raise_if (negb (cb_enabled binding) || negb (br_tenant_active route)) unavailable ;;
  raise_if (negb (bool_decide (ie_channel envelope = cb_channel binding))
            || negb (bool_decide (ie_account_id envelope = cb_account_id binding)))
    (BindingMismatch "verified callback does not match its channel binding") ;;
  let* session_id := make_session_id (cb_tenant_id binding) (cb_binding_id binding)
                       (ie_conversation_kind envelope) (ie_external_user_id envelope)
                       (ie_external_conversation_id envelope) in
  let bucket := rollout_bucket (cb_tenant_id binding) (cb_app_id binding) session_id in
  let* config_version := select_config_version (br_active_config_version route)
                           (br_candidate_config_version route) (br_candidate_percent route) bucket in
  let* request_id := uuid4 in
  let* context := make_TenantContext (cb_tenant_id binding) (cb_app_id binding) config_version
                    (cb_binding_id binding)
                    (make_principal_id (cb_tenant_id binding) (cb_binding_id binding)
                       (ie_external_user_id envelope))
                    session_id request_id current_trace_id in
  ret (MkPreparedInbound context envelope inject_trace_headers).

Definition accept_prepared (scheduler_version : SchedulerVersion) (prepared : PreparedInbound)
    : M Repository Acceptance :=
  let context := pi_context prepared in
  get_config (tc_tenant_id context) (tc_app_id context) (tc_config_version context) ;;
  if bool_decide (scheduler_version = V2)
  then accept_inbound_v2 context (pi_envelope prepared) (pi_trace_headers prepared) 0 None
  else accept_inbound context (pi_envelope prepared) (pi_trace_headers prepared).

Definition accept (scheduler_version : SchedulerVersion) (binding_id : string)
    (envelope : InboundEnvelope) : M Repository Acceptance :=
  let* route := resolve_binding binding_id in
  match route with
  | None => raise unavailable
  | Some route =>
    raise_if (negb (cb_enabled (br_binding route)) || negb (br_tenant_active route)) unavailable ;;
    let* prepared := prepare route envelope in
    accept_prepared scheduler_version prepared
  end.
End runtime.
