(* ===== verification/RuntimeThms.v ===== *)
(** * Theorems about tenant routing

    Session identifiers separate conversations, the rollout choice is stable and
    monotone in the percentage, and [TenantRuntime.accept] accepts a message only
    under the identity of its binding, pinned to an existing configuration. *)

From S2P Require Import Prelude PyText Base64 Tenant Models Mailbox MailboxInv Repository RepositoryInv Runtime.
From Stdlib Require Import QArith Qround Ascii Lqa.
#[local] Close Scope Q_scope.
#[local] Open Scope Z_scope.

(** ** Identifiers *)
Section identifiers.
Context `{Mac}.

Lemma digest_inj p x q y : b64 (_mac p x) = b64 (_mac q y) -> _mac p x = _mac q y.
Proof. intros Heq. by apply b64_inj; [apply _mac_bytes..|]. Qed.

(** The conversation a session identifier stands for. *)
Definition subject_of (kind : ConversationKind) (external_user_id : string)
    (external_conversation_id : option string) : string :=
  if bool_decide (kind = GROUP) then str_or external_conversation_id "" else external_user_id.

Lemma make_session_id_eq {S} t b k u c (s : S) e id s' e' :
  make_session_id t b k u c s e = (Ok id, s', e') ->
  id = ("s1_" +:+ b64 (_mac "session" (session_parts t b k (subject_of k u c))))%string /\ s' = s /\ e' = e.
Proof.
  unfold make_session_id, subject_of, bind, raise_if, raise, ret. destruct (bool_decide (k = GROUP)).
  - destruct (str_empty _); [done|]. by intros [= <- <- <-].
  - by intros [= <- <- <-].
Qed.

(** Session identifiers keep conversations apart: two messages get the same
    identifier only when tenant, binding, kind of conversation and the
    conversation's subject (the group, or the user of a direct message) agree,
    or when the keyed hash itself collides on them; and the identifier of a
    session never is that of a principal. *)
Theorem session_ids_separate {S} t b k u c t' b' k' u' c' (s : S) e id s1 e1 s2 e2 :
  make_session_id t b k u c s e = (Ok id, s1, e1) ->
  make_session_id t' b' k' u' c' s e = (Ok id, s2, e2) ->
  ((t, b, k, subject_of k u c) = (t', b', k', subject_of k' u' c') \/
   session_parts t b k (subject_of k u c) <> session_parts t' b' k' (subject_of k' u' c') /\
   _mac "session" (session_parts t b k (subject_of k u c))
   = _mac "session" (session_parts t' b' k' (subject_of k' u' c'))) /\
  forall t0 b0 u0, make_principal_id t0 b0 u0 <> id.
Proof.
  intros (-> & _)%make_session_id_eq (Heq & _)%make_session_id_eq. split; [|done].
  injection Heq as Heq. apply digest_inj in Heq.
  destruct (decide (session_parts t b k (subject_of k u c) = session_parts t' b' k' (subject_of k' u' c')))
    as [Hp|Hp]; [left|by right]. unfold session_parts in Hp. injection Hp as -> -> Hk ->.
  do 3 f_equal. by destruct k, k'.
Qed.
End identifiers.

(** ** Rollout *)

Lemma py_round_bounds x : Qfloor x <= py_round x <= Qfloor x + 1.
Proof. unfold py_round. destruct (_ ?= _)%Q; [destruct (Z.even _)|..]; lia. Qed.

Lemma py_round_mono x y : (x <= y)%Q -> py_round x <= py_round y.
Proof.
  intros Hle. pose proof (Qfloor_resp_le _ _ Hle) as Hf.
  destruct (decide (Qfloor x = Qfloor y)) as [Heq|Hne].
  - unfold py_round. rewrite Heq. set (f := Qfloor y) in *.
    destruct (Qcompare_spec (x - inject_Z f) (1 # 2)), (Qcompare_spec (y - inject_Z f) (1 # 2));
      try destruct (Z.even f); try lia; exfalso; lra.
  - pose proof (py_round_bounds x). pose proof (py_round_bounds y). lia.
Qed.

Lemma py_round_int x n : (x == inject_Z n)%Q -> py_round x = n.
Proof.
  intros Hx. assert (Qfloor x = n) as Hf by (rewrite (Qfloor_comp _ _ Hx); apply Qfloor_Z).
  unfold py_round. rewrite Hf. destruct (Qcompare_spec (x - inject_Z n) (1 # 2)); [|lia|]; exfalso; lra.
Qed.

Section rollout.
Context `{Mac} `{FloatMul}.

(** How many of the 10000 buckets a percentage selects. *)
Definition threshold (p : Q) : Z := py_round (fmul p 100).

Lemma threshold_mono p q : (p <= q)%Q -> threshold p <= threshold q.
Proof. intros Hle. apply py_round_mono, fmul_mono; [lra|done]. Qed.

Lemma threshold_ends : threshold 0 = 0 /\ threshold 100 = 10000.
Proof.
  unfold threshold. split; apply py_round_int, fmul_exact; try lia; vm_compute; reflexivity.
Qed.

Lemma bucket_range t a s : 0 <= rollout_bucket t a s < 10000.
Proof. apply Z.mod_pos_bound. lia. Qed.

Lemma select_run {S} active cand p bucket (s : S) e :
  (0 <= p <= 100)%Q -> 0 <= bucket ->
  select_config_version active (Some cand) p bucket s e
  = (Ok (if bucket <? threshold p then cand else active), s, e).
Proof.
  intros [Hp0 Hp1] Hb. unfold select_config_version, raise_if, bind, ret.
  rewrite (proj2 (Qle_bool_iff 0 p) Hp0), (proj2 (Qle_bool_iff p 100) Hp1). simpl.
  destruct (Qeq_bool p 0) eqn:Hz; [|by destruct (_ <? _)].
  apply Qeq_bool_iff in Hz. destruct (Z.ltb_spec bucket (threshold p)); [|done].
  assert (threshold p <= threshold 0) by (apply threshold_mono; lra).
  destruct threshold_ends. lia.
Qed.

(** The canary choice is stable and monotone: a percentage in [0, 100]
    selects exactly the buckets below a threshold between 0 and 10000, none at 0
    percent and all at 100, and raising the percentage never moves a session
    that already uses the candidate back to the active version.  A percentage
    outside the range is refused. *)
Theorem rollout_monotone {S} t a sid active cand p q (s : S) e :
  (0 <= p)%Q -> (p <= q)%Q -> (q <= 100)%Q ->
  let bucket := rollout_bucket t a sid in
  0 <= threshold p <= threshold q /\ threshold q <= 10000 /\
  select_config_version active (Some cand) 0 bucket s e = (Ok active, s, e) /\
  select_config_version active (Some cand) 100 bucket s e = (Ok cand, s, e) /\
  select_config_version active (Some cand) p bucket s e
    = (Ok (if bucket <? threshold p then cand else active), s, e) /\
  (active <> cand -> select_config_version active (Some cand) p bucket s e = (Ok cand, s, e) ->
   select_config_version active (Some cand) q bucket s e = (Ok cand, s, e)) /\
  (forall r, (r < 0 \/ 100 < r)%Q -> exists x,
     select_config_version active (Some cand) r bucket s e = (Raise x, s, e)).
Proof.
  intros Hp Hle Hq bucket. pose proof (bucket_range t a sid) as Hb. fold bucket in Hb.
  destruct threshold_ends as [Hz Hf].
  pose proof (threshold_mono 0 p Hp). pose proof (threshold_mono p q Hle). pose proof (threshold_mono q 100 Hq).
  rewrite !select_run by (try lra; lia). rewrite Hz, Hf.
  destruct (Z.ltb_spec bucket 0), (Z.ltb_spec bucket 10000); try lia. split_and!; try done; try lia.
  - intros Hne [= Hsel]. destruct (Z.ltb_spec bucket (threshold p)); [|congruence].
    by destruct (Z.ltb_spec bucket (threshold q)); [|lia].
  - intros r Hr. eexists. unfold select_config_version, raise_if, bind.
    destruct (Qle_bool 0 r) eqn:E0, (Qle_bool r 100) eqn:E1; try reflexivity.
    apply Qle_bool_iff in E0, E1. exfalso. destruct Hr; lra.
Qed.
End rollout.

(** ** Accepting a message *)
Section accepting.
Context `{E : Env} `{!UniqueIds E} `{EnvelopeDump} `{Mac} `{FloatMul} `{Tracing}.

(** A mailbox accepts every well-formed message. *)
Lemma mailbox_accept_ok t sid i tr s e :
  store_inv s -> str_empty t = false -> str_empty sid = false -> str_empty i = false ->
  1 <= char_len tr <= 512 ->
  forall r, wp (Mailbox.accept t sid i 0 r (Some tr) None) (fun res _ _ => exists mb, res = Ok mb) s e.
Proof.
  intros Hs Ht Hsid Hi Htr r.
  assert (Hitem : forall mb now s e, 0 <= mb_accepted_sequence mb ->
    wp (accept_item (t, sid) mb i 0 r (Some tr) now) (fun res _ _ => exists mb, res = Ok mb) s e).
  { intros mb now s0 e0 Hseq. unfold accept_item. wp_steps; eauto. exfalso.
    assert (str_or (Some tr) i = tr) as Htr'.
    { simpl. unfold str_empty. case_bool_decide; [|done]. subst. unfold char_len in Htr. simpl in Htr. lia. }
    rewrite Htr' in *. rewrite !orb_true_iff, !Z.ltb_lt in *. lia. }
  unfold Mailbox.accept. wp_steps; eauto; bool_prop; try lia.
  - exfalso. simpl in *. rewrite Ht, Hsid, Hi in *. done.
  - apply Hitem. match goal with Hk : dget _ _ = Some _ |- _ => apply (si_mailbox _ Hs) in Hk as Hok end.
    pose proof (mo_bounds _ _ _ Hok). lia.
  - by apply Hitem.
Qed.

(** What a prepared message is bound to. *)
Record prepared_for (route : BindingRoute) (env : InboundEnvelope) (p : PreparedInbound) : Prop := {
  pf_envelope : pi_envelope p = env;
  pf_enabled : cb_enabled (br_binding route) = true;
  pf_active : br_tenant_active route = true;
  pf_channel : ie_channel env = cb_channel (br_binding route);
  pf_account : ie_account_id env = cb_account_id (br_binding route);
  pf_tenant : tc_tenant_id (pi_context p) = cb_tenant_id (br_binding route);
  pf_app : tc_app_id (pi_context p) = cb_app_id (br_binding route);
  pf_binding : tc_channel_binding_id (pi_context p) = cb_binding_id (br_binding route);
  pf_session : tc_session_id (pi_context p) = ("s1_" +:+ b64 (_mac "session" (session_parts
    (cb_tenant_id (br_binding route)) (cb_binding_id (br_binding route)) (ie_conversation_kind env)
    (subject_of (ie_conversation_kind env) (ie_external_user_id env) (ie_external_conversation_id env)))))%string;
  pf_version : tc_config_version (pi_context p) = br_active_config_version route \/
    br_candidate_config_version route = Some (tc_config_version (pi_context p));
  pf_ids : str_empty (tc_tenant_id (pi_context p)) = false /\ str_empty (tc_session_id (pi_context p)) = false /\
    1 <= char_len (tc_trace_id (pi_context p)) <= 512;
}.

Lemma char_len_nonempty s : 1 <= char_len s -> str_empty s = false.
Proof. unfold str_empty. case_bool_decide; [|done]. subst. simpl. lia. Qed.

Lemma prepare_spec {S} route env (s : S) e :
  wp (prepare route env) (fun r s' e' => s' = s /\ (uuids e <= uuids e')%nat /\
    forall p, r = Ok p -> prepared_for route env p) s e.
Proof.
  unfold prepare. apply wp_bind, wp_raise_if; intros Hav; [done|].
  apply wp_bind, wp_raise_if; intros Hm; [done|]. bool_prop.
  apply wp_bind, wp_intro. intros [sid|x] s1 e1 Hsid.
  2: { assert (s1 = s /\ e1 = e) as [-> ->]; [|by split_and!].
       revert Hsid. unfold make_session_id, bind, raise_if, raise, ret. repeat case_match; intros; simplify_eq; auto. }
  apply make_session_id_eq in Hsid as (Hsid & -> & ->).
  apply wp_bind, wp_intro. intros [ver|x] s1 e1 Hver.
  2: { assert (s1 = s /\ e1 = e) as [-> ->]; [|by split_and!].
       revert Hver. unfold select_config_version, bind, raise_if, raise, ret. repeat case_match; intros; simplify_eq; auto. }
  assert (s1 = s /\ e1 = e /\ (ver = br_active_config_version route \/ br_candidate_config_version route = Some ver))
    as (-> & -> & Hver').
  { revert Hver. unfold select_config_version, bind, raise_if, raise, ret.
    repeat case_match; intros; simplify_eq; auto. }
  unfold make_TenantContext. wp_steps; simpl; (split; [done|]);
    (split; [lia|]); try done. intros p [= <-]. unfold length_ok in *. bool_prop.
  split; simpl; try done. split_and!; try apply char_len_nonempty; lia.
Qed.
(** The outcome of accepting a prepared message into the repository. *)
Definition accepted_as (ctx : TenantContext) (env : InboundEnvelope) (s : Repository)
    (r : outcome Acceptance) (s' : Repository) : Prop :=
  exists a, r = Ok a /\
  if acc_duplicate a then s' = s /\ acceptance_key_of (acc_context a) (acc_envelope a) = acceptance_key_of ctx env
  else acc_context a = ctx /\ acc_envelope a = env /\
       rp_acceptances s' !! acceptance_key_of ctx env = Some a /\ rp_configs s' = rp_configs s.

Lemma duplicate_as ctx env a s e :
  repo_inv s e -> rp_acceptances s !! acceptance_key_of ctx env = Some a ->
  accepted_as ctx env s (Ok (a <| acc_duplicate := true |>)) s.
Proof.
  intros Hs Ha. eexists. split; [done|]. simpl. split; [done|].
  by destruct (ao_key _ _ _ _ _ (ri_acceptances _ _ Hs) _ _ Ha) as [-> _].
Qed.

Lemma accept_inbound_as ctx env h s e :
  repo_inv s e -> wp (accept_inbound ctx env h) (fun r s' _ => accepted_as ctx env s r s') s e.
Proof.
  intros Hs. unfold accept_inbound. apply wp_bind, wp_gets.
  destruct (rp_acceptances s !! acceptance_key_of ctx env) as [a|] eqn:Ha.
  - apply wp_ret. by eapply duplicate_as.
  - unfold register_acceptance. wp_steps. eexists. split; [done|]. simpl. rewrite lookup_insert_eq. done.
Qed.

Lemma accept_inbound_v2_as ctx env h s e :
  repo_inv s e -> str_empty (tc_tenant_id ctx) = false -> str_empty (tc_session_id ctx) = false ->
  str_empty (uuid_at (uuids e)) = false -> 1 <= char_len (tc_trace_id ctx) <= 512 ->
  wp (accept_inbound_v2 ctx env h 0 None) (fun r s' _ => accepted_as ctx env s r s') s e.
Proof.
  intros Hs Ht Hsid Hid Htr. unfold accept_inbound_v2. apply wp_bind, wp_gets.
  destruct (rp_acceptances s !! acceptance_key_of ctx env) as [a|] eqn:Ha.
  { apply wp_ret. by eapply duplicate_as. }
  unfold register_acceptance, outbox_size. wp_steps. apply wp_mailbox_get, wp_bind.
  set (s1 := set_field _ _). set (a := MkAcceptance _ _ _ _ _).
  apply (wp_mono _ (fun r s' _ => exists x, r = Ok x /\ s' = s1)).
  { unfold effective_retry_at. wp_steps; eauto. }
  intros r s' e' (x & -> & ->). apply wp_bind, wp_zoom.
  eapply wp_mono; [apply mailbox_accept_ok; [apply Hs|done..]|]. intros r t e2 [mb ->]. wp_steps.
  exists a. split; [done|]. simpl. rewrite lookup_insert_eq. done.
Qed.

(** What [TenantRuntime.accept] promises. *)
Definition accept_outcome (binding_id : string) (env : InboundEnvelope) (s : Repository)
    (r : outcome Acceptance) (s' : Repository) : Prop :=
  match r with
  | Raise _ => s' = s
  | Ok a => exists route p,
      dget binding_id (rp_routes s) = Some route /\ prepared_for route env p /\
      is_Some (rp_configs s !! (tc_tenant_id (pi_context p), tc_app_id (pi_context p),
                                tc_config_version (pi_context p))) /\
      accepted_as (pi_context p) env s r s'
  end.

Lemma accept_cases v binding_id env s e :
  repo_inv s e -> (forall n, str_empty (uuid_at n) = false) ->
  wp (accept v binding_id env) (fun r s' _ => accept_outcome binding_id env s r s') s e.
Proof.
  intros Hs Hid. unfold accept, resolve_binding. apply wp_bind, wp_gets.
  destruct (dget binding_id (rp_routes s)) as [route|] eqn:Hr; [|by apply wp_raise].
  apply wp_bind, wp_raise_if; intros _; [done|]. apply wp_bind.
  eapply wp_mono; [apply prepare_spec|]. intros [p|x] s1 e1 (-> & Hle & Hp); [|done].
  specialize (Hp p eq_refl). unfold accept_prepared, get_config.
  apply wp_bind, wp_bind, wp_gets.
  destruct (rp_configs s !! _) as [cfg|] eqn:Hcfg; [apply wp_ret|by apply wp_raise].
  assert (Hs1 : repo_inv s e1) by by apply (good_draw s e e1 Hs Hle).
  destruct (pf_ids _ _ _ Hp) as (Ht & Hsid & Htr). pose proof (pf_envelope _ _ _ Hp) as Henv.
  assert (Hdone : forall r s', accepted_as (pi_context p) (pi_envelope p) s r s' ->
    accept_outcome binding_id env s r s').
  { intros r s' Hacc. rewrite Henv in Hacc. destruct (Hacc) as (a & -> & _). exists route, p.
    split_and!; try done. }
  destruct (bool_decide (v = V2)); (eapply wp_mono; [|intros r s' e'; apply Hdone]).
  - by apply accept_inbound_v2_as.
  - by apply accept_inbound_as.
Qed.

(** C24: A message is accepted under its binding's identity or not at all: when
    [TenantRuntime.accept] returns, the binding exists, is enabled, its tenant is
    active and the envelope came over the binding's channel and account; a new
    acceptance carries the tenant, application, binding and session of the
    binding and a configuration version that is the active or the candidate one
    and exists; a duplicate is the earlier acceptance of the same message of the
    same tenant and changes nothing.  When it raises, the repository is
    unchanged. *)
Theorem runtime_accept_isolated v binding_id env s e r s' e' :
  rreachable s e -> (forall n, str_empty (uuid_at n) = false) ->
  accept v binding_id env s e = (r, s', e') ->
  match r with
  | Raise _ => s' = s
  | Ok a => exists route p,
      dget binding_id (rp_routes s) = Some route /\ prepared_for route env p /\
      tc_tenant_id (acc_context a) = cb_tenant_id (br_binding route) /\
      is_Some (rp_configs s !! (tc_tenant_id (pi_context p), tc_app_id (pi_context p),
                                tc_config_version (pi_context p))) /\
      if acc_duplicate a then s' = s /\ acceptance_key_of (acc_context a) (acc_envelope a)
                                         = acceptance_key_of (pi_context p) env
      else acc_context a = pi_context p /\ acc_envelope a = env /\
           rp_acceptances s' !! acceptance_key_of (pi_context p) env = Some a
  end.
Proof.
  intros Hs%rreachable_inv Hid Hrun.
  pose proof (wp_run _ _ _ _ _ _ _ (accept_cases v binding_id env s e Hs Hid) Hrun) as Hc.
  destruct r as [a|x]; [|exact Hc]. destruct Hc as (route & p & Hr & Hp & Hcfg & a' & [= <-] & Ha).
  exists route, p. rewrite <-(pf_tenant _ _ _ Hp).
  destruct (acc_duplicate a); destruct_and!; split_and!; try done; [|congruence].
  match goal with Hk : acceptance_key_of _ _ = _ |- _ => unfold acceptance_key_of in Hk; congruence end.
Qed.
End accepting.

(** ** Concrete runs *)
Section demo.
#[local] Existing Instance demo_env.

Fixpoint bytes_of (s : string) : list Z :=
  match s with
  | EmptyString => []
  | String c rest => Z.of_N (N_of_ascii c) :: bytes_of rest
  end.

(** A hash that keeps the first 32 bytes of its input. *)
Definition prefix_mac (purpose : string) (parts : list string) : list Z :=
  take 32 (flat_map bytes_of (purpose :: parts) ++ repeat 0 32).

Lemma prefix_mac_bytes purpose parts : Forall (fun b => 0 <= b < 256) (prefix_mac purpose parts).
Proof.
  apply Forall_take, Forall_app. split; [|apply Forall_forall; intros x Hx%list_elem_of_In%repeat_spec; lia].
  induction (purpose :: parts) as [|s l IH]; simpl; [constructor|]. apply Forall_app. split; [|done].
  induction s as [|c s IHs]; simpl; constructor; [|done]. pose proof (N_ascii_bounded c). lia.
Qed.

Lemma prefix_mac_length purpose parts : length (prefix_mac purpose parts) = 32%nat.
Proof. unfold prefix_mac. rewrite length_take, length_app, repeat_length. lia. Qed.

#[local] Instance demo_mac : Mac :=
  {| _mac := prefix_mac; _mac_length := prefix_mac_length; _mac_bytes := prefix_mac_bytes |}.

(** Exact products. *)
Lemma qmult_mono a b c : (0 <= c)%Q -> (a <= b)%Q -> (a * c <= b * c)%Q.
Proof. intros. by apply Qmult_le_compat_r. Qed.

#[local] Instance demo_fmul : FloatMul :=
  {| fmul := Qmult; fmul_mono := qmult_mono; fmul_exact := fun _ _ _ Hx _ => Hx |}.

#[local] Instance demo_tracing : Tracing := {| current_trace_id := "trace"; inject_trace_headers := ∅ |}.

Lemma session_ids_separate_witness : exists id,
  make_session_id "acme" "b1" DIRECT "user" None tt fx0 = (Ok id, tt, fx0) /\
  make_principal_id "acme" "b1" "user" <> id.
Proof.
  eexists. split; [reflexivity|].
  apply (session_ids_separate (S := unit) "acme" "b1" DIRECT "user" None "acme" "b1" DIRECT "user" None
    tt fx0 _ tt fx0 tt fx0); reflexivity.
Defined.

Lemma rollout_monotone_witness :
  threshold 5 = 500 /\ threshold 5 <= threshold 50 /\ threshold 50 = 5000.
Proof.
  split; [reflexivity|]. split; [|reflexivity].
  apply (rollout_monotone (S := unit) "acme" "app" "s1" 1 2 5 50 tt fx0); vm_compute; discriminate.
Defined.

Definition route_binding : ChannelBinding :=
  MkChannelBinding "b1" "acme" "app" FEISHU "account" ∅ true 1 ∅.
Definition demo_route : BindingRoute := MkBindingRoute route_binding true 1 None 0.
Definition demo_config : TenantConfig :=
  MkTenantConfig "acme" "app" 1 (MkModelPolicy "openai" "m" None None 60 None None [] None None None)
    (MkToolPolicy ∅ ∅ ∅) (MkBudgetPolicy 1 0 1) (MkAuditPolicy 1 false)
    (MkMediaPolicy true 1 1024 1024 1 256 true)
    (MkStorageSelection "p" "postgresql" "postgresql" "s3" "pgvector") "" 1 0.
Definition demo_message : InboundEnvelope :=
  MkInboundEnvelope FEISHU "account" "m1" "user" DIRECT None TEXT (Some "hello"%string) [] None 0 ∅.

#[local] Instance demo_dump : EnvelopeDump := fun _ => ∅.
Definition configured : Repository * effects :=
  run_rcalls [RAddRoute demo_route; RAddConfig demo_config] (empty_repository, fx0).

Lemma configured_reachable : rreachable configured.1 configured.2.
Proof. exists fx0. rewrite <-surjective_pairing. apply run_rcalls_steps. Qed.

Lemma demo_ids n : str_empty (uuid_at n) = false.
Proof. reflexivity. Qed.

Lemma runtime_accept_isolated_witness : exists a s' e' route p,
  accept V2 "b1" demo_message configured.1 configured.2 = (Ok a, s', e') /\
  prepared_for route demo_message p /\ acc_duplicate a = false /\ acc_context a = pi_context p /\
  tc_tenant_id (acc_context a) = cb_tenant_id (br_binding route).
Proof.
  destruct (ok_with_run (fun a _ _ => negb (acc_duplicate a)) (accept V2 "b1" demo_message configured.1 configured.2))
    as (a & s' & e' & Hrun & Hdup); [vm_compute; reflexivity|].
  destruct (runtime_accept_isolated V2 "b1" demo_message _ _ _ _ _ configured_reachable demo_ids Hrun)
    as (route & p & _ & Hp & Ht & _ & Ha). bool_prop. rewrite Hdup in Ha. destruct Ha as (Hc & _).
  by exists a, s', e', route, p.
Defined.
End demo.
