(* ===== verification/Control.v ===== *)
(** * The tenant control plane

    The administrative writes of [PostgresControlPlaneRepository]
    ([trpc_service/tenant/control.py]): creating a tenant, storing a channel
    binding, adding and activating configuration revisions and replaying a
    delivery, each one SQL transaction guarded by an idempotency key and by the
    tenant's control version.  The tables are finite maps keyed by their primary
    keys, with the constraints the statements can violate; a transaction that
    raises is rolled back, and transactions run one after the other (the tenant
    row is locked for update before anything is written).  The hash of a
    configuration, UUID parsing and the decimal column's rounding of a float are
    parameters.  Row-level security and the read-only evidence queries are not
    modelled. *)

From S2P Require Import Prelude Datetime PyText Tenant TenantRules Models.
From Stdlib Require Import QArith.
#[local] Close Scope Q_scope.
#[local] Open Scope Z_scope.

(** JSON values of a response. *)
Inductive json : Type :=
  | JNull
  | JBool (b : bool)
  | JInt (z : Z)
  | JNum (q : Q)
  | JStr (s : string).

Definition response : Type := list (string * json).

(** ** Tables *)

Record TenantRow : Type := MkTenantRow {
  ten_display_name : string;
  ten_status : string;
  ten_control_version : Z;
  ten_created_at : Z;
  ten_updated_at : Z;
}.

#[export] Instance TenantRow_settable : Settable TenantRow := fun r =>
  MkTenantRow (ten_display_name r) (ten_status r) (ten_control_version r) (ten_created_at r)
    (ten_updated_at r).

Record AppRow : Type := MkAppRow {
  app_display_name : string;
  app_active_config_version : Z;
  app_candidate_config_version : option Z;
  app_candidate_percent : Q;
  app_control_version : Z;
  app_updated_at : Z;
}.

#[export] Instance AppRow_settable : Settable AppRow := fun r =>
  MkAppRow (app_display_name r) (app_active_config_version r) (app_candidate_config_version r)
    (app_candidate_percent r) (app_control_version r) (app_updated_at r).

Record RevisionRow : Type := MkRevisionRow {
  rev_config : TenantConfig;
  rev_checksum : string;
  rev_created_by : string;
  rev_created_at : Z;
}.

Record BindingRow : Type := MkBindingRow {
  bin_app_id : string;
  bin_channel : Channel;
  bin_account_id : string;
  bin_secret_refs : gmap string string;
  bin_capabilities : gset string;
  bin_enabled : bool;
  bin_control_version : Z;
  bin_updated_at : Z;
}.

Record IdempotencyRow : Type := MkIdempotencyRow {
  ide_operation : string;
  ide_request_hash : string;
  ide_response_status : Z;
  ide_response : response;
  ide_expires_at : Z;
}.

Record AuditRow : Type := MkAuditRow {
  aud_tenant_id : string;
  aud_user_id : string;
  aud_decision : string;
  aud_trace_id : string;
  aud_idempotency_key : string;
}.

Record OutboundRow : Type := MkOutboundRow {
  out_channel : string;
  out_payload : gmap string pyval;
  out_trace_headers : gmap string string;
  out_status : string;
  out_manual_replay_approved : bool;
  out_updated_at : Z;
}.

#[export] Instance OutboundRow_settable : Settable OutboundRow := fun r =>
  MkOutboundRow (out_channel r) (out_payload r) (out_trace_headers r) (out_status r)
    (out_manual_replay_approved r) (out_updated_at r).

(** The columns of [outbox_events] the replay writes. *)
Record OutboxEvent : Type := MkOutboxEvent {
  oev_tenant_id : string;
  oev_aggregate_id : string;
  oev_event_type : string;
  oev_payload : gmap string pyval;
  oev_trace_headers : gmap string string;
  oev_published : bool;
}.

Record DeadLetterRow : Type := MkDeadLetterRow {
  dlr_tenant_id : string;
  dlr_source_id : string;
  dlr_status : string;
  dlr_resolved_at : option Z;
}.

Record Database : Type := MkDatabase {
  db_tenants : gmap string TenantRow;
  db_apps : gmap (string * string) AppRow;
  db_revisions : gmap (string * string * Z) RevisionRow;
  db_bindings : gmap (string * string) BindingRow;
  db_idempotency : gmap (string * string) IdempotencyRow;
  db_audit : list AuditRow;
  db_outbound : gmap (string * string) OutboundRow;
  db_outbox : list OutboxEvent;
  db_dead_letters : list DeadLetterRow;
}.

#[export] Instance Database_settable : Settable Database := fun r =>
  MkDatabase (db_tenants r) (db_apps r) (db_revisions r) (db_bindings r) (db_idempotency r)
    (db_audit r) (db_outbound r) (db_outbox r) (db_dead_letters r).

Definition empty_database : Database := MkDatabase ∅ ∅ ∅ ∅ ∅ [] ∅ [] [].

(** ** Parameters *)

(** [hashlib.sha256(validated.model_dump_json())]. *)
Class Checksum : Type := config_checksum : TenantConfig -> string.

(** A float stored in a [numeric(5,2)] column: rounded to two decimals. *)
Class Numeric : Type := {
  numeric_5_2 : Q -> Q;
  numeric_range : forall q, (0 <= q <= 100)%Q -> (0 <= numeric_5_2 q <= 100)%Q;
}.

(** ** Transactions *)

Section transactions.
Context `{Env}.

(** [async with self._transaction(tenant_id)]: [now()] is the time the
    transaction started; an exception rolls the database back. *)
Definition _transaction {A} (body : Z -> M Database A) : M Database A := fun s e =>
  match bind datetime_now body s e with
  | (Ok a, s', e') => (Ok a, s', e')
  | (Raise x, _, e') => (Raise x, s, e')
  end.

Definition _cached (now : Z) (tenant_id key request_hash : string) : M Database (option response) :=
  let* row := gets (fun s => db_idempotency s !! (tenant_id, key) : option IdempotencyRow) in
  match row with
  | None => ret None
  | Some row =>
    if ide_expires_at row <=? now then ret None
    else
      raise_if (negb (bool_decide (ide_request_hash row = request_hash)))
        (IdempotencyConflict "idempotency key was used for another request") ;;
      ret (Some (ide_response row))
  end.

(** [if cached: return cached]. *)
Definition cached_or (cached : option response) (body : M Database response) : M Database response :=
  match cached with
  | Some (field :: rest) => ret (field :: rest)
  | _ => body
  end.

Definition hours (n : Z) : Z := n * 3600 * 1000000.

(** The insert violates the primary key when a row with the key exists, expired
    or not. *)
Definition _store_idempotency (tenant_id key operation request_hash : string) (resp : response)
    (status : Z) : M Database unit :=
  let* now := datetime_now in
  let* row := gets (fun s => db_idempotency s !! (tenant_id, key) : option IdempotencyRow) in
  match row with
  | Some _ => raise (IntegrityError "admin_idempotency_pkey")
  | None =>
    modify (fun s => s <| db_idempotency :=
      <[(tenant_id, key) := MkIdempotencyRow operation request_hash status resp (now + hours 24)]>
        (db_idempotency s) |>)
  end.

Definition _lock_version (tenant_id : string) (expected : Z) : M Database Z :=
  let* row := gets (fun s => db_tenants s !! tenant_id : option TenantRow) in
  match row with
  | None => raise (LookupError "tenant does not exist")
  | Some row =>
    raise_if (negb (ten_control_version row =? expected))
      (ControlVersionConflict "tenant control version changed") ;;
    ret (ten_control_version row)
  end.

(** [int(None)] raises when no row has the current version. *)
Definition _bump_version (now : Z) (tenant_id : string) (current : Z) : M Database Z :=
  let* row := gets (fun s => db_tenants s !! tenant_id : option TenantRow) in
  match row with
  | None => raise (TypeError "int() argument must be a string or a number")
  | Some row =>
    if negb (ten_control_version row =? current)
    then raise (TypeError "int() argument must be a string or a number")
    else
      modify (fun s => s <| db_tenants := <[tenant_id := row
        <| ten_control_version := ten_control_version row + 1 |> <| ten_updated_at := now |>]>
          (db_tenants s) |>) ;;
      ret (ten_control_version row + 1)
  end.

Definition _audit (tenant_id actor decision key : string) : M Database unit :=
  modify (fun s => s <| db_audit := db_audit s ++
    [MkAuditRow tenant_id actor decision ("admin:" +:+ key)%string key] |>).

(** ** Tenants *)

Definition tenant_json (tenant_id : string) (row : TenantRow) : response :=
  [("tenant_id", JStr tenant_id); ("display_name", JStr (ten_display_name row));
   ("status", JStr (ten_status row)); ("control_version", JInt (ten_control_version row));
   ("created_at", JStr (isoformat (ten_created_at row)))]%string.

Definition create_tenant (tenant_id display_name actor idempotency_key request_hash : string)
    : M Database response :=
  _transaction (fun now =>
    let* cached := _cached now tenant_id idempotency_key request_hash in
    cached_or cached (
      let* existing := gets (fun s => db_tenants s !! tenant_id : option TenantRow) in
      match existing with
      | Some _ => raise (ControlVersionConflict "tenant already exists")
      | None =>
        let inserted := MkTenantRow display_name "active" 1 now now in
        modify (fun s => s <| db_tenants := <[tenant_id := inserted]> (db_tenants s) |>) ;;
        let resp := tenant_json tenant_id inserted in
        _store_idempotency tenant_id idempotency_key "create_tenant" request_hash resp 201 ;;
        _audit tenant_id actor "tenant_created" idempotency_key ;;
        ret resp
      end)).

Definition get_tenant (tenant_id : string) : M Database (option response) :=
  _transaction (fun _ =>
    let* row := gets (fun s => db_tenants s !! tenant_id : option TenantRow) in
    ret ((fun r => (tenant_json tenant_id r ++
      [("updated_at"%string, JStr (isoformat (ten_updated_at r)))])%list) <$> row)).

(** ** Bindings *)

(** A row that violates [UNIQUE (binding_id)] or
    [UNIQUE (tenant_id, channel, account_id)]. *)
Definition binding_conflict (tenant_id : string) (b : ChannelBinding) (s : Database) : bool :=
  existsb (fun '(key, row) =>
    negb (bool_decide (key = (tenant_id, cb_binding_id b)))
    && (bool_decide (key.2 = cb_binding_id b)
        || bool_decide (key.1 = tenant_id) && bool_decide (bin_channel row = cb_channel b)
           && bool_decide (bin_account_id row = cb_account_id b)))
    (map_to_list (db_bindings s)).

Definition binding_row (now version : Z) (b : ChannelBinding) : BindingRow :=
  MkBindingRow (cb_app_id b) (cb_channel b) (cb_account_id b) (cb_secret_refs b)
    (cb_capabilities b) (cb_enabled b) version now.

(** [INSERT ... ON CONFLICT (tenant_id,binding_id) DO UPDATE]. *)
Definition upsert_binding (now : Z) (tenant_id : string) (b : ChannelBinding)
    : M Database BindingRow :=
  let* has_app := gets (fun s => is_none (db_apps s !! (tenant_id, cb_app_id b))) in
  let* conflict := gets (binding_conflict tenant_id b) in
  raise_if conflict (IntegrityError "channel_bindings_unique") ;;
  raise_if has_app (IntegrityError "channel_bindings_app_fkey") ;;
  let* current := gets (fun s => db_bindings s !! (tenant_id, cb_binding_id b) : option BindingRow) in
  let version := match current with Some row => bin_control_version row + 1 | None => 1 end in
  modify (fun s => s <| db_bindings :=
    <[(tenant_id, cb_binding_id b) := binding_row now version b]> (db_bindings s) |>) ;;
  ret (binding_row now version b).

Definition put_binding (tenant_id binding_id : string) (binding : ChannelBinding) (actor : string)
    (expected_version : Z) (idempotency_key request_hash : string) : M Database response :=
  raise_if (negb (bool_decide (cb_tenant_id binding = tenant_id))
            || negb (bool_decide (cb_binding_id binding = binding_id)))
    (ValueError "binding identity does not match the request path") ;;
  _transaction (fun now =>
    let* cached := _cached now tenant_id idempotency_key request_hash in
    cached_or cached (
      let* current := _lock_version tenant_id expected_version in
      let* row := upsert_binding now tenant_id binding in
      let* new_version := _bump_version now tenant_id current in
      let resp := [("binding_id", JStr binding_id); ("app_id", JStr (bin_app_id row));
                   ("channel", JStr (Channel_value (bin_channel row)));
                   ("account_id", JStr (bin_account_id row)); ("enabled", JBool (bin_enabled row));
                   ("control_version", JInt (bin_control_version row));
                   ("tenant_control_version", JInt new_version)]%string in
      _store_idempotency tenant_id idempotency_key "put_binding" request_hash resp 200 ;;
      _audit tenant_id actor "binding_updated" idempotency_key ;;
      ret resp)).

(** ** Configuration revisions *)

(** [coalesce(max(version),0)] over the revisions of an application. *)
Definition max_version (tenant_id app_id : string) (s : Database) : Z :=
  fold_right (fun '(key, _) n => if bool_decide (key.1 = (tenant_id, app_id)) then Z.max key.2 n else n)
    0 (map_to_list (db_revisions s)).

(** [UPDATE agent_apps SET ... WHERE tenant_id=$1 AND app_id=$2]. *)
Definition update_app (tenant_id app_id : string) (f : AppRow -> AppRow) : M Database unit :=
  modify (fun s => s <| db_apps := alter f (tenant_id, app_id) (db_apps s) |>).

Definition bump_app (now : Z) (a : AppRow) : AppRow :=
  a <| app_control_version := app_control_version a + 1 |> <| app_updated_at := now |>.

Section revisions.
Context `{Checksum} `{UrlLibrary} `{Numeric}.

(** [{**config, "tenant_id": ..., "app_id": ..., "version": ...}]. *)
Definition revision_payload (config : TenantConfig) (tenant_id app_id : string) (version : Z)
    : TenantConfig :=
  MkTenantConfig tenant_id app_id version (cfg_model config) (cfg_tools config) (cfg_budget config)
    (cfg_audit config) (cfg_media config) (cfg_storage config) (cfg_instructions config)
    (cfg_policy_version config) (cfg_created_at config).

Definition create_config_revision (tenant_id app_id : string) (config : TenantConfig)
    (actor : string) (expected_version : Z) (idempotency_key request_hash : string)
    : M Database response :=
  _transaction (fun now =>
    let* cached := _cached now tenant_id idempotency_key request_hash in
    cached_or cached (
      let* current := _lock_version tenant_id expected_version in
      let* app_exists := gets (fun s => negb (is_none (db_apps s !! (tenant_id, app_id)))) in
      (if app_exists then ret tt
       else modify (fun s => s <| db_apps :=
              <[(tenant_id, app_id) := MkAppRow app_id 1 None 0 1 now]> (db_apps s) |>)) ;;
      let* newest := gets (max_version tenant_id app_id) in
      let version := newest + 1 in
      let validated := revision_payload config tenant_id app_id version in
      raise_if (negb (TenantConfig_ok validated)) (ValidationError "TenantConfig") ;;
      let checksum := config_checksum validated in
      modify (fun s => s <| db_revisions :=
        <[(tenant_id, app_id, version) := MkRevisionRow validated checksum actor now]> (db_revisions s) |>) ;;
      update_app tenant_id app_id (bump_app now) ;;
      let* new_version := _bump_version now tenant_id current in
      let resp := [("tenant_id", JStr tenant_id); ("app_id", JStr app_id); ("version", JInt version);
                   ("checksum", JStr checksum); ("tenant_control_version", JInt new_version)]%string in
      _store_idempotency tenant_id idempotency_key "create_config_revision" request_hash resp 201 ;;
      _audit tenant_id actor "config_created" idempotency_key ;;
      ret resp)).

(** The three updates of [activate_config]. *)
Definition rollout (version : Z) (percentage : Q) (a : AppRow) : AppRow :=
  if Qeq_bool percentage 100 then
    a <| app_active_config_version := version |> <| app_candidate_config_version := None |>
      <| app_candidate_percent := 0%Q |>
  else if Qeq_bool percentage 0 then
    a <| app_candidate_config_version := None |> <| app_candidate_percent := 0%Q |>
  else
    a <| app_candidate_config_version := Some version |>
      <| app_candidate_percent := numeric_5_2 percentage |>.

(** [operation] is ["activate_config"] or ["rollback_config"]. *)
Definition activate_config (tenant_id app_id : string) (version : Z) (percentage : Q)
    (actor : string) (expected_version : Z) (idempotency_key request_hash operation : string)
    : M Database response :=
  raise_if (negb (Qle_bool 0 percentage && Qle_bool percentage 100))
    (ValueError "rollout percentage must be between 0 and 100") ;;
  _transaction (fun now =>
    let* cached := _cached now tenant_id idempotency_key request_hash in
    cached_or cached (
      let* current := _lock_version tenant_id expected_version in
      let* missing := gets (fun s => is_none (db_revisions s !! (tenant_id, app_id, version))) in
      raise_if missing (LookupError "configuration revision does not exist") ;;
      update_app tenant_id app_id (fun a => bump_app now (rollout version percentage a)) ;;
      let* new_version := _bump_version now tenant_id current in
      let resp := [("tenant_id", JStr tenant_id); ("app_id", JStr app_id); ("version", JInt version);
                   ("percentage", JNum percentage); ("tenant_control_version", JInt new_version)]%string in
      _store_idempotency tenant_id idempotency_key operation request_hash resp 200 ;;
      _audit tenant_id actor operation idempotency_key ;;
      ret resp)).
End revisions.

(** ** Replaying a delivery *)

Section replay.
Context `{UuidText}.

(** [INSERT INTO outbox_events ... ON CONFLICT DO NOTHING]: an unpublished event
    of the same aggregate and type conflicts. *)
Definition insert_outbox (event : OutboxEvent) (outbox : list OutboxEvent) : list OutboxEvent :=
  if existsb (fun o => bool_decide (oev_tenant_id o = oev_tenant_id event)
                       && bool_decide (oev_aggregate_id o = oev_aggregate_id event)
                       && bool_decide (oev_event_type o = oev_event_type event)
                       && negb (oev_published o)) outbox
  then outbox else outbox ++ [event].

Definition resolve_dead_letter (now : Z) (tenant_id source_id : string) (d : DeadLetterRow)
    : DeadLetterRow :=
  if bool_decide (dlr_tenant_id d = tenant_id) && bool_decide (dlr_source_id d = source_id)
     && bool_decide (dlr_status d = "open"%string)
  then MkDeadLetterRow (dlr_tenant_id d) (dlr_source_id d) "replayed" (Some now) else d.

Definition replay_outbound (tenant_id outbound_id : string) (confirm_ambiguous : bool)
    (actor : string) (expected_version : Z) (idempotency_key request_hash : string)
    : M Database response :=
  _transaction (fun now =>
    let* cached := _cached now tenant_id idempotency_key request_hash in
    cached_or cached (
      let* current := _lock_version tenant_id expected_version in
      match parse_uuid outbound_id with
      | None => raise (ValueError "badly formed hexadecimal UUID string")
      | Some uuid =>
        let* row := gets (fun s => db_outbound s !! (tenant_id, uuid) : option OutboundRow) in
        match row with
        | None => raise (LookupError "outbound message does not exist")
        | Some row =>
          let status := out_status row in
          (if bool_decide (status = "ambiguous"%string) then
             raise_if (negb confirm_ambiguous)
               (ValueError "ambiguous delivery requires explicit confirmation")
           else
             raise_if (negb (bool_decide (status = "failed"%string)))
               (ValueError
                  "only failed or explicitly confirmed ambiguous deliveries can be replayed")) ;;
          modify (fun s => s
            <| db_outbound := <[(tenant_id, uuid) := row
                 <| out_status := "pending"%string |>
                 <| out_manual_replay_approved :=
                      bool_decide (status = "ambiguous"%string) && confirm_ambiguous |>
                 <| out_updated_at := now |>]> (db_outbound s) |>
            <| db_outbox := insert_outbox
                 (MkOutboxEvent tenant_id outbound_id
                    ("outbound." +:+ out_channel row +:+ ".ready")%string
                    (out_payload row) (out_trace_headers row) false) (db_outbox s) |>
            <| db_dead_letters :=
                 map (resolve_dead_letter now tenant_id outbound_id) (db_dead_letters s) |>) ;;
          let* new_version := _bump_version now tenant_id current in
          let resp := [("outbound_id", JStr outbound_id); ("status", JStr "pending");
                       ("tenant_control_version", JInt new_version)]%string in
          _store_idempotency tenant_id idempotency_key "replay_outbound" request_hash resp 202 ;;
          _audit tenant_id actor "outbound_replayed" idempotency_key ;;
          ret resp
        end
      end)).
End replay.
End transactions.
