(* ===== verification/ControlThms.v ===== *)
(** * Theorems about the control plane

    Administrative writes happen once per idempotency key and never overwrite a
    change they have not seen, and the configuration versions they leave are
    consistent: revisions are numbered without gaps and the active and candidate
    versions exist. *)

From S2P Require Import Prelude Datetime PyText Tenant TenantRules Models Control.
From Stdlib Require Import QArith Lqa.
#[local] Close Scope Q_scope.
#[local] Open Scope Z_scope.

(** ** Calls *)

Inductive ccall : Type :=
  | CCreateTenant (tenant_id display_name actor key hash : string)
  | CPutBinding (tenant_id binding_id : string) (binding : ChannelBinding) (actor : string)
      (expected : Z) (key hash : string)
  | CCreateConfig (tenant_id app_id : string) (config : TenantConfig) (actor : string)
      (expected : Z) (key hash : string)
  | CActivate (tenant_id app_id : string) (version : Z) (percentage : Q) (actor : string)
      (expected : Z) (key hash operation : string)
  | CReplay (tenant_id outbound_id : string) (confirm : bool) (actor : string)
      (expected : Z) (key hash : string).

Definition call_tenant (c : ccall) : string :=
  match c with
  | CCreateTenant t _ _ _ _ | CPutBinding t _ _ _ _ _ _ | CCreateConfig t _ _ _ _ _ _
  | CActivate t _ _ _ _ _ _ _ _ | CReplay t _ _ _ _ _ _ => t
  end.

Definition call_key (c : ccall) : string :=
  match c with
  | CCreateTenant _ _ _ k _ | CPutBinding _ _ _ _ _ k _ | CCreateConfig _ _ _ _ _ k _
  | CActivate _ _ _ _ _ _ k _ _ | CReplay _ _ _ _ _ k _ => k
  end.

Definition call_hash (c : ccall) : string :=
  match c with
  | CCreateTenant _ _ _ _ h | CPutBinding _ _ _ _ _ _ h | CCreateConfig _ _ _ _ _ _ h
  | CActivate _ _ _ _ _ _ _ h _ | CReplay _ _ _ _ _ _ h => h
  end.

(** The control version the caller has seen. *)
Definition call_expected (c : ccall) : option Z :=
  match c with
  | CCreateTenant _ _ _ _ _ => None
  | CPutBinding _ _ _ _ v _ _ | CCreateConfig _ _ _ _ v _ _ | CActivate _ _ _ _ _ v _ _ _
  | CReplay _ _ _ _ v _ _ => Some v
  end.

Section calls.
Context `{E : Env} `{Checksum} `{UrlLibrary} `{Numeric} `{UuidText}.

Definition cexec (c : ccall) : M Database response :=
  match c with
  | CCreateTenant t d a k h => create_tenant t d a k h
  | CPutBinding t b bd a v k h => put_binding t b bd a v k h
  | CCreateConfig t a cfg ac v k h => create_config_revision t a cfg ac v k h
  | CActivate t a ver p ac v k h op => activate_config t a ver p ac v k h op
  | CReplay t o cf a v k h => replay_outbound t o cf a v k h
  end.

(** A request whose arguments are refused before the transaction. *)
Definition malformed (c : ccall) : option exn :=
  match c with
  | CPutBinding t b bd _ _ _ _ =>
    if negb (bool_decide (cb_tenant_id bd = t)) || negb (bool_decide (cb_binding_id bd = b))
    then Some (ValueError "binding identity does not match the request path") else None
  | CActivate _ _ _ p _ _ _ _ _ =>
    if negb (Qle_bool 0 p && Qle_bool p 100)
    then Some (ValueError "rollout percentage must be between 0 and 100") else None
  | _ => None
  end.

(** The database between the writes of the control plane: other services move
    deliveries, nothing else. *)
Inductive cstep : Database * effects -> Database * effects -> Prop :=
  | cstep_call c s e r s' e' : cexec c s e = (r, s', e') -> cstep (s, e) (s', e')
  | cstep_delivery s e outbound outbox dead e' :
      cstep (s, e) (s <| db_outbound := outbound |> <| db_outbox := outbox |>
                      <| db_dead_letters := dead |>, e').

(** What a write does that is not a replay of an earlier one; [lo] to [hi] are the readings of the
    clock that it made. *)
Record wrote (c : ccall) (lo hi : nat) (s s' : Database) (resp : response) : Prop := {
  wr_fresh : db_idempotency s !! (call_tenant c, call_key c) = None;
  wr_row : exists row,
    db_idempotency s' = <[(call_tenant c, call_key c) := row]> (db_idempotency s) /\
    ide_request_hash row = call_hash c /\ ide_response row = resp /\
    exists n, (lo <= n < hi)%nat /\ ide_expires_at row = clock_at n + hours 24;
  wr_resp : resp <> [];
  wr_version : exists row', db_tenants s' = <[call_tenant c := row']> (db_tenants s) /\
    match call_expected c with
    | None => db_tenants s !! call_tenant c = None /\ ten_control_version row' = 1
    | Some v => exists row, db_tenants s !! call_tenant c = Some row /\
        ten_control_version row = v /\ ten_control_version row' = v + 1
    end;
}.

(** How a request ends: an error changes nothing; an answer is the stored one of
    the same request, or that of a write made now. *)
Definition answered (c : ccall) (lo hi : nat) (s : Database) (now : Z) (r : outcome response) (s' : Database) : Prop :=
  match r with
  | Raise _ => s' = s
  | Ok resp =>
    (exists row, db_idempotency s !! (call_tenant c, call_key c) = Some row /\ now < ide_expires_at row /\
       ide_request_hash row = call_hash c /\ ide_response row = resp /\ resp <> [] /\ s' = s) \/
    wrote c lo hi s s' resp
  end.

Definition guarded (c : ccall) (body : Z -> M Database response) : M Database response :=
  _transaction (fun now =>
    let* cached := _cached now (call_tenant c) (call_key c) (call_hash c) in
    cached_or cached (body now)).

Definition conflict : exn := IdempotencyConflict "idempotency key was used for another request".

(** The idempotency test answers, or the body runs in a transaction. *)
Lemma guarded_run c body s e :
  (exists row e', db_idempotency s !! (call_tenant c, call_key c) = Some row /\
     clock_at (ticks e) < ide_expires_at row /\
     (ide_request_hash row <> call_hash c /\ guarded c body s e = (Raise conflict, s, e') \/
      ide_request_hash row = call_hash c /\ ide_response row <> [] /\
      guarded c body s e = (Ok (ide_response row), s, e'))) \/
  (exists e1, (ticks e <= ticks e1)%nat /\ guarded c body s e =
     match body (clock_at (ticks e)) s e1 with
     | (Ok a, s', e') => (Ok a, s', e')
     | (Raise x, _, e') => (Raise x, s, e')
     end /\
   forall row, db_idempotency s !! (call_tenant c, call_key c) = Some row ->
     ide_expires_at row <= clock_at (ticks e) \/ ide_response row = []).
Proof.
  unfold guarded, _transaction, _cached, bind, datetime_now, gets, raise_if.
  set (now := clock_at (ticks e)). set (e1 := Effects _ _).
  destruct (db_idempotency s !! (call_tenant c, call_key c)) as [row|] eqn:Hrow; [|right; exists e1; split_and!; [subst e1; simpl; lia|done|done]].
  destruct (Z.leb_spec (ide_expires_at row) now).
  { right. exists e1. split_and!; [subst e1; simpl; lia|done|]. intros ? [= <-]. by left. }
  case_bool_decide as Hh; simpl; [|left; exists row, e1; split_and!; [done..|]; by left].
  destruct (ide_response row) as [|f rest] eqn:Hresp.
  { right. exists e1. split_and!; [subst e1; simpl; lia|done|]. intros ? [= <-]. by right. }
  left. exists row, e1. split_and!; [done..|]. right. by rewrite Hresp.
Qed.

Lemma guarded_answered c body s e :
  (forall now e0, (ticks e <= ticks e0)%nat ->
     wp (body now) (fun r s' e' => forall resp, r = Ok resp -> wrote c (ticks e) (ticks e') s s' resp) s e0) ->
  wp (guarded c body) (fun r s' e' => answered c (ticks e) (ticks e') s (clock_at (ticks e)) r s') s e.
Proof.
  intros Hbody. apply wp_intro. intros r s' e' Hrun.
  destruct (guarded_run c body s e) as [(row & e1 & Hrow & Hx & [[_ Heq]|(Hh & Hne & Heq)])|(e1 & Htk & Heq & _)];
    rewrite Heq in Hrun; simplify_eq; [done|left; by exists row|].
  specialize (Hbody (clock_at (ticks e)) e1 Htk). unfold wp in Hbody.
  destruct (body (clock_at (ticks e)) s e1) as [[[a|x] s1] e2]; simplify_eq; [|done].
  right. by apply Hbody.
Qed.

(** The last statements of every write. *)
Lemma wp_record c lo resp operation actor decision status s0 s e :
  (lo <= ticks e)%nat -> db_idempotency s = db_idempotency s0 -> resp <> [] ->
  (exists row', db_tenants s = <[call_tenant c := row']> (db_tenants s0) /\
    match call_expected c with
    | None => db_tenants s0 !! call_tenant c = None /\ ten_control_version row' = 1
    | Some v => exists row, db_tenants s0 !! call_tenant c = Some row /\
        ten_control_version row = v /\ ten_control_version row' = v + 1
    end) ->
  wp (_store_idempotency (call_tenant c) (call_key c) operation (call_hash c) resp status ;;
      _audit (call_tenant c) actor decision (call_key c) ;; ret resp)
    (fun r s' e' => forall resp', r = Ok resp' -> wrote c lo (ticks e') s0 s' resp') s e.
Proof.
  intros Hlo Hi Hne Hv. unfold _store_idempotency, _audit. wp_steps; [done|].
  intros resp' [= <-]. rewrite Hi in *. split; simpl; [done| |done|done].
  eexists. split_and!; [done..|]. exists (ticks e). split; [simpl; lia|done].
Qed.

Lemma wp_bump c now v s0 s e Q :
  call_expected c = Some v -> db_tenants s = db_tenants s0 ->
  (exists row, db_tenants s0 !! call_tenant c = Some row /\ ten_control_version row = v) ->
  (forall row', ten_control_version row' = v + 1 ->
     Q (Ok (v + 1)) (s <| db_tenants := <[call_tenant c := row']> (db_tenants s0) |>) e) ->
  wp (_bump_version now (call_tenant c) v) Q s e.
Proof.
  intros Hexp Ht (row & Hrow & Hv) HQ. unfold _bump_version. apply wp_bind, wp_gets. rewrite Ht, Hrow, <-Hv, Z.eqb_refl.
  cbn [negb]. apply wp_bind, wp_modify, wp_ret. rewrite Ht. subst v. by apply HQ.
Qed.

Lemma wp_lock t v (Q : outcome Z -> Database -> effects -> Prop) s e :
  (forall x, Q (Raise x) s e) ->
  (forall row, db_tenants s !! t = Some row -> ten_control_version row = v -> Q (Ok v) s e) ->
  wp (_lock_version t v) Q s e.
Proof.
  intros Hraise Hok. unfold _lock_version. wp_steps; [apply Hraise| |apply Hraise].
  bool_prop. match goal with Hv : ten_control_version ?r = v |- _ => rewrite Hv; by apply (Hok r) end.
Qed.

Ltac tail c row :=
  match goal with |- wp (_bump_version _ _ ?v) _ _ _ => eapply (wp_bump c _ v) end;
  [done|done|by exists row|]; let row' := fresh in let Hv' := fresh in intros row' Hv';
  apply (wp_record c); [simpl; lia|done|done|]; exists row'; (split; [done|]); by exists row.

Lemma cexec_answered c s e :
  wp (cexec c) (fun r s' e' => answered c (ticks e) (ticks e') s (clock_at (ticks e)) r s') s e.
Proof.
  destruct c as [t d a k h|t b bd a v k h|t a cfg ac v k h|t a ver p ac v k h op|t o cf a v k h]; simpl.
  - refine (guarded_answered (CCreateTenant t d a k h) _ s e _). intros now e' Hlo.
    apply wp_bind, wp_gets. destruct (db_tenants s !! t) eqn:Ht; [by apply wp_raise|].
    apply wp_bind, wp_modify. apply (wp_record (CCreateTenant t d a k h)); [simpl; lia|done|done|].
    eexists. split; [done|]. by split.
  - set (c := CPutBinding t b bd a v k h). apply wp_bind, wp_raise_if; intros Hm; [done|].
    refine (guarded_answered c _ s e _). intros now e' Hlo.
    apply wp_bind, wp_lock; [done|]. intros row Hrow Hv. apply wp_bind. unfold upsert_binding.
    wp_steps; try done.
    all: tail c row.
  - set (c := CCreateConfig t a cfg ac v k h). refine (guarded_answered c _ s e _). intros now e' Hlo.
    apply wp_bind, wp_lock; [done|]. intros row Hrow Hv. unfold update_app.
    wp_steps; try done; tail c row.
  - set (c := CActivate t a ver p ac v k h op). apply wp_bind, wp_raise_if; intros Hm; [done|].
    refine (guarded_answered c _ s e _). intros now e' Hlo.
    apply wp_bind, wp_lock; [done|]. intros row Hrow Hv. unfold update_app. wp_steps; try done. tail c row.
  - set (c := CReplay t o cf a v k h). refine (guarded_answered c _ s e _). intros now e' Hlo.
    apply wp_bind, wp_lock; [done|]. intros row Hrow Hv. wp_steps; try done; tail c row.
Qed.
(** A request whose key is stored answers from the store. *)
Lemma cexec_stored c row s e :
  malformed c = None -> db_idempotency s !! (call_tenant c, call_key c) = Some row ->
  clock_at (ticks e) < ide_expires_at row -> ide_response row <> [] ->
  exists e', cexec c s e =
    ((if bool_decide (ide_request_hash row = call_hash c) then Ok (ide_response row)
      else Raise conflict), s, e').
Proof.
  intros Hm Hrow Hx Hne.
  assert (Hg : forall body, exists e', guarded c body s e =
    ((if bool_decide (ide_request_hash row = call_hash c) then Ok (ide_response row)
      else Raise conflict), s, e')).
  { intros body. destruct (guarded_run c body s e) as [(row' & e1 & Hrow' & _ & Hc)|(e1 & _ & _ & Hno)].
    - simplify_eq. exists e1. by destruct Hc as [[Hh ->]|(Hh & _ & ->)]; case_bool_decide.
    - destruct (Hno row Hrow); [lia|done]. }
  destruct c; simpl in Hm |- *; try (eapply Hg).
  all: match type of Hm with (if ?b then _ else _) = _ => destruct b eqn:Hb; [done|] end.
  all: unfold put_binding, activate_config, raise_if, bind at 1; rewrite Hb; unfold ret at 1; eapply Hg.
Qed.

(** Writes keep the stored answers and never lower a control version. *)
Definition ctl_le (s s' : Database) : Prop :=
  db_idempotency s ⊆ db_idempotency s' /\
  forall t row, db_tenants s !! t = Some row -> exists row', db_tenants s' !! t = Some row' /\
    ten_control_version row <= ten_control_version row'.

#[export] Instance ctl_le_preorder : PreOrder ctl_le.
Proof.
  split; [intros s; split; [done|eauto with lia]|].
  intros s1 s2 s3 [Hi1 Ht1] [Hi2 Ht2]. split; [by etrans|]. intros t row Hrow.
  destruct (Ht1 _ _ Hrow) as (row' & Hrow' & ?). destruct (Ht2 _ _ Hrow') as (row'' & ? & ?).
  exists row''. split; [done|lia].
Qed.

Lemma wrote_le c lo hi s s' resp : wrote c lo hi s s' resp -> ctl_le s s'.
Proof.
  intros [Hf (row & Hi & _) _ (row' & Ht & Hv)]. unfold ctl_le. rewrite Hi, Ht.
  split; [by apply insert_subseteq|]. intros t r Hr. destruct (decide (t = call_tenant c)) as [->|Hne].
  - exists row'. rewrite lookup_insert_eq. split; [done|].
    destruct (call_expected c); destruct_and?; [|congruence]. destruct Hv as (r0 & Hr0 & ? & ?).
    simplify_eq. lia.
  - exists r. by rewrite lookup_insert_ne.
Qed.

Lemma csteps_le x y : rtc cstep x y -> ctl_le x.1 y.1.
Proof.
  induction 1 as [x|x y z Hxy _ IH]; [done|]. etrans; [|exact IH].
  destruct Hxy as [c s e r s' e' Hrun|s e o q d e']; [|by split; [|eauto with lia]].
  pose proof (wp_run _ _ _ _ _ _ _ (cexec_answered c s e) Hrun) as Ha. simpl.
  destruct r as [resp|x]; simpl in Ha; [|by subst].
  destruct Ha as [(_ & _ & _ & _ & _ & _ & ->)|Hw]; [done|by eapply wrote_le].
Qed.

(** C25: An administrative request takes effect once: after a write under an idempotency key that
    was not in use, whatever other requests follow, repeating it with the same key and the same
    request hash within 24 hours of a reading of the clock that the write made returns the same
    answer and changes nothing, and a request that uses the key with another hash is refused with a
    conflict and changes nothing.  Requests whose arguments are refused before the transaction, a
    binding that does not match the path or a percentage out of range, are not meant. *)
Theorem control_write_once c resp s e s1 e1 :
  cexec c s e = (Ok resp, s1, e1) -> db_idempotency s !! (call_tenant c, call_key c) = None ->
  exists n, (ticks e <= n < ticks e1)%nat /\
    forall s2 e2 c', rtc cstep (s1, e1) (s2, e2) -> clock_at (ticks e2) < clock_at n + hours 24 ->
      call_tenant c' = call_tenant c -> call_key c' = call_key c -> malformed c' = None ->
      exists e3, cexec c' s2 e2 = ((if bool_decide (call_hash c' = call_hash c) then Ok resp else Raise conflict), s2, e3).
Proof.
  intros Hrun Hnew.
  destruct (wp_run _ _ _ _ _ _ _ (cexec_answered c s e) Hrun) as [(r & Hr & _)|[Hf (row & Hi & Hh & Hr & n & Hn & Hx) Hne _]]; [congruence|].
  exists n. split; [done|]. intros s2 e2 c' Hsteps Hclock Ht Hk Hm. destruct (csteps_le _ _ Hsteps) as [Hsub _]. simpl in Hsub.
  assert (Hrow : db_idempotency s1 !! (call_tenant c', call_key c') = Some row) by (by rewrite Hi, Ht, Hk, lookup_insert_eq).
  destruct (cexec_stored c' row s2 e2) as [e3 He3]; [done|by eapply lookup_weaken|lia|congruence|].
  exists e3. rewrite He3, Hh, Hr. repeat case_bool_decide; congruence.
Qed.

(** No update is lost: a write that takes effect moves the tenant's control
    version from the one its caller had seen to the next, and from then on a
    request of another key that still expects the old version raises and changes
    nothing. *)
Theorem control_no_lost_update c v resp s e s1 e1 s2 e2 c' r s3 e3 :
  cexec c s e = (Ok resp, s1, e1) -> call_expected c = Some v ->
  db_idempotency s !! (call_tenant c, call_key c) = None ->
  rtc cstep (s1, e1) (s2, e2) ->
  call_tenant c' = call_tenant c -> call_expected c' = Some v ->
  db_idempotency s2 !! (call_tenant c', call_key c') = None ->
  cexec c' s2 e2 = (r, s3, e3) ->
  (exists row row1, db_tenants s !! call_tenant c = Some row /\ ten_control_version row = v /\
     db_tenants s1 !! call_tenant c = Some row1 /\ ten_control_version row1 = v + 1) /\
  (exists x, r = Raise x) /\ s3 = s2.
Proof.
  intros Hrun Hv Hnew Hsteps Ht Hv' Hnew' Hrun'.
  destruct (wp_run _ _ _ _ _ _ _ (cexec_answered c s e) Hrun) as [(? & ? & _)|[_ _ _ (row1 & Ht1 & Hx)]];
    [congruence|]. rewrite Hv in Hx. destruct Hx as (row & Hrow & Hrv & Hrv1).
  assert (Hrow1 : db_tenants s1 !! call_tenant c = Some row1) by by rewrite Ht1, lookup_insert_eq.
  split; [by exists row, row1|].
  destruct (csteps_le _ _ Hsteps) as [_ Hmono]. destruct (Hmono _ _ Hrow1) as (row2 & Hrow2 & Hle). simpl in Hrow2.
  pose proof (wp_run _ _ _ _ _ _ _ (cexec_answered c' s2 e2) Hrun') as Ha.
  destruct r as [resp'|x]; simpl in Ha; [|by eauto]. exfalso.
  destruct Ha as [(? & ? & _)|[_ _ _ (row3 & _ & Hx)]]; [congruence|].
  rewrite Hv', Ht in Hx. destruct Hx as (row4 & ? & ? & _). simplify_eq. lia.
Qed.
End calls.

(** ** Configuration versions *)

Lemma fold_max_upper ta (l : list ((string * string * Z) * RevisionRow)) m :
  0 <= m -> (forall k r, (k, r) ∈ l -> k.1 = ta -> k.2 <= m) ->
  fold_right (fun '(key, _) n => if bool_decide (key.1 = ta) then Z.max key.2 n else n) 0 l <= m.
Proof.
  induction l as [|[k r] l IH]; simpl; [done|]. intros Hm Hall.
  assert (fold_right (fun '(key, _) n => if bool_decide (key.1 = ta) then Z.max key.2 n else n) 0 l <= m)
    by (apply IH; [done|]; intros; eapply Hall; [right|]; eauto).
  case_bool_decide; [|done]. pose proof (Hall k r ltac:(left) ltac:(done)). lia.
Qed.

Lemma fold_max_lower ta (l : list ((string * string * Z) * RevisionRow)) :
  0 <= fold_right (fun '(key, _) n => if bool_decide (key.1 = ta) then Z.max key.2 n else n) 0 l /\
  forall n r, ((ta, n), r) ∈ l ->
    n <= fold_right (fun '(key, _) n => if bool_decide (key.1 = ta) then Z.max key.2 n else n) 0 l.
Proof.
  induction l as [|[k r] l [IH0 IH]]; simpl; [split; [done|]; by intros ? ? ?%elem_of_nil|].
  split; [case_bool_decide; lia|]. intros n r' [Heq|Hin]%elem_of_cons.
  - simplify_eq. simpl. rewrite bool_decide_true by done. lia.
  - specialize (IH _ _ Hin). case_bool_decide; lia.
Qed.

(** The newest version of an application whose revisions are [1..m]. *)
Lemma max_version_dense t a m s :
  0 <= m -> (forall n, is_Some (db_revisions s !! (t, a, n)) <-> 1 <= n <= m) -> max_version t a s = m.
Proof.
  intros Hm Hd. unfold max_version. destruct (fold_max_lower (t, a) (map_to_list (db_revisions s))) as [H0 Hl].
  apply Z.le_antisymm.
  - apply fold_max_upper; [done|]. intros [ta n] r Hin%elem_of_map_to_list Heq. simpl in *. subst ta.
    assert (1 <= n <= m) by (apply Hd; eauto). lia.
  - destruct (decide (m = 0)) as [->|]; [done|]. destruct (Hd m) as [_ Hx].
    destruct Hx as [r Hr]; [lia|]. apply (Hl m r). by apply elem_of_map_to_list.
Qed.

Section configurations.
Context `{E : Env} `{Checksum} `{UrlLibrary} `{Numeric} `{UuidText}.

(** Revisions are numbered from 1 without gaps and carry their own identity;
    applications and bindings refer to what exists. *)
Record config_ok (s : Database) : Prop := {
  co_dense : forall t a, exists m, 0 <= m /\ (is_Some (db_apps s !! (t, a)) <-> 1 <= m) /\
    forall n, is_Some (db_revisions s !! (t, a, n)) <-> 1 <= n <= m;
  co_revision : forall t a n r, db_revisions s !! (t, a, n) = Some r ->
    cfg_tenant_id (rev_config r) = t /\ cfg_app_id (rev_config r) = a /\
    cfg_version (rev_config r) = n /\ TenantConfig_ok (rev_config r) = true;
  co_active : forall t a app, db_apps s !! (t, a) = Some app ->
    is_Some (db_revisions s !! (t, a, app_active_config_version app)) /\
    (forall n, app_candidate_config_version app = Some n -> is_Some (db_revisions s !! (t, a, n))) /\
    (0 <= app_candidate_percent app <= 100)%Q /\
    (app_candidate_config_version app = None -> app_candidate_percent app = 0%Q);
  co_binding : forall t b row, db_bindings s !! (t, b) = Some row -> is_Some (db_apps s !! (t, bin_app_id row));
  co_unique : forall t b row t' b' row',
    db_bindings s !! (t, b) = Some row -> db_bindings s !! (t', b') = Some row' ->
    b = b' \/ t = t' /\ bin_channel row = bin_channel row' /\ bin_account_id row = bin_account_id row' ->
    (t, b) = (t', b');
}.

(** Revisions are never changed or removed. *)
Definition config_le (s s' : Database) : Prop := db_revisions s ⊆ db_revisions s'.

Definition cgood (s s' : Database) : Prop := config_ok s' /\ config_le s s'.

Lemma config_ok_same s s' :
  db_apps s' = db_apps s -> db_revisions s' = db_revisions s -> db_bindings s' = db_bindings s ->
  config_ok s -> config_ok s'.
Proof. intros Ha Hr Hb [? ? ? ? ?]. split; rewrite ?Ha, ?Hr, ?Hb; done. Qed.

Lemma guarded_good c body s e :
  config_ok s ->
  (forall now e', wp (body now) (fun r s' _ => forall resp, r = Ok resp -> cgood s s') s e') ->
  wp (guarded c body) (fun _ s' _ => cgood s s') s e.
Proof.
  intros Hs Hbody. assert (Hrefl : cgood s s) by (split; [done|unfold config_le; reflexivity]).
  apply wp_intro. intros r s' e' Hrun.
  destruct (guarded_run c body s e) as [(row & e1 & _ & _ & [[_ Heq]|(_ & _ & Heq)])|(e1 & _ & Heq & _)];
    rewrite Heq in Hrun; simplify_eq; [done|done|].
  specialize (Hbody (clock_at (ticks e)) e1). unfold wp in Hbody.
  destruct (body (clock_at (ticks e)) s e1) as [[[a|x] s1] e2]; simplify_eq; [|done].
  by eapply Hbody.
Qed.

Lemma no_conflict t bd s t' b' row :
  binding_conflict t bd s = false -> db_bindings s !! (t', b') = Some row ->
  b' = cb_binding_id bd \/
    t' = t /\ bin_channel row = cb_channel bd /\ bin_account_id row = cb_account_id bd ->
  (t', b') = (t, cb_binding_id bd).
Proof.
  intros Hc Hrow Hwhy. destruct (decide ((t', b') = (t, cb_binding_id bd))) as [|Hne]; [done|].
  assert (binding_conflict t bd s = true); [|congruence].
  apply existsb_exists. exists ((t', b'), row). split; [by apply list_elem_of_In, elem_of_map_to_list|].
  rewrite bool_decide_false by done. simpl. apply orb_true_iff. destruct Hwhy as [->|(-> & -> & ->)].
  - left. by apply bool_decide_eq_true.
  - right. by rewrite !bool_decide_true.
Qed.

Lemma config_ok_binding t bd now version s :
  config_ok s -> is_Some (db_apps s !! (t, cb_app_id bd)) -> binding_conflict t bd s = false ->
  config_ok (s <| db_bindings :=
    <[(t, cb_binding_id bd) := binding_row now version bd]> (db_bindings s) |>).
Proof.
  intros [? ? ? Hb Hu] Happ Hc. split; simpl; [done..| |].
  - intros t' b' row [[[= <- <-] <-]|[_ Hrow]]%lookup_insert_Some; [done|by eapply Hb].
  - intros t1 b1 row1 t2 b2 row2 Hr1 Hr2 Hwhy.
    apply lookup_insert_Some in Hr1 as [[[= <- <-] <-]|[Hne1 Hr1]];
      apply lookup_insert_Some in Hr2 as [[[= <- <-] <-]|[Hne2 Hr2]]; [done|..]; simpl in *.
    + symmetry. eapply (no_conflict t bd s); [done|done|]. naive_solver.
    + eapply (no_conflict t bd s); [done|done|]. naive_solver.
    + by eapply Hu.
Qed.

Lemma rollout_active version p a :
  app_active_config_version (rollout version p a) = version \/
  app_active_config_version (rollout version p a) = app_active_config_version a.
Proof. unfold rollout. destruct (Qeq_bool p 100); [by left|]. destruct (Qeq_bool p 0); by right. Qed.

Lemma rollout_candidate version p a n :
  app_candidate_config_version (rollout version p a) = Some n -> n = version.
Proof.
  unfold rollout. destruct (Qeq_bool p 100); [done|]. destruct (Qeq_bool p 0); simpl; congruence.
Qed.

Lemma rollout_percent version p a :
  (0 <= p <= 100)%Q -> (0 <= app_candidate_percent (rollout version p a) <= 100)%Q /\
  (app_candidate_config_version (rollout version p a) = None ->
   app_candidate_percent (rollout version p a) = 0%Q).
Proof.
  intros Hp. unfold rollout. destruct (Qeq_bool p 100); simpl; [split; [lra|done]|].
  destruct (Qeq_bool p 0); simpl; [split; [lra|done]|]. split; [by apply numeric_range|done].
Qed.

Lemma config_ok_rollout t a version p now s :
  config_ok s -> is_Some (db_revisions s !! (t, a, version)) -> (0 <= p <= 100)%Q ->
  config_ok (s <| db_apps :=
    alter (fun x => bump_app now (rollout version p x)) (t, a) (db_apps s) |>).
Proof.
  intros [Hd Hr Ha Hb Hu] Hv Hp. split; simpl; try done.
  - intros t' a'. setoid_rewrite lookup_alter_is_Some. apply Hd.
  - intros t' a' app. destruct (decide ((t', a') = (t, a))) as [[= -> ->]|Hne].
    + rewrite lookup_alter_eq. intros (app0 & Happ & ->)%fmap_Some. destruct (Ha _ _ _ Happ) as (Hact & _).
      simpl. destruct (rollout_percent version p app0 Hp) as [[? ?] ?]. split_and!; try done.
      * destruct (rollout_active version p app0) as [-> | ->]; done.
      * by intros n ->%rollout_candidate.
    + rewrite lookup_alter_ne by done. apply Ha.
  - intros t' b row Hrow. rewrite lookup_alter_is_Some. by eapply Hb.
Qed.
(** The application row after a revision was added: as before, or new with
    version 1 active. *)
Definition app_kept (s : Database) (t a : string) (apps' : gmap (string * string) AppRow) : Prop :=
  (forall k, k <> (t, a) -> apps' !! k = db_apps s !! k) /\
  exists app', apps' !! (t, a) = Some app' /\
    match db_apps s !! (t, a) with
    | Some app => app_active_config_version app' = app_active_config_version app /\
        app_candidate_config_version app' = app_candidate_config_version app /\
        app_candidate_percent app' = app_candidate_percent app
    | None => app_active_config_version app' = 1 /\ app_candidate_config_version app' = None /\
        app_candidate_percent app' = 0%Q
    end.

Lemma revision_lookup (revs : gmap (string * string * Z) RevisionRow) t a n r k :
  is_Some (revs !! k) -> is_Some (<[(t, a, n) := r]> revs !! k).
Proof.
  intros Hk. destruct (decide ((t, a, n) = k)) as [<-|];
    [rewrite lookup_insert_eq; eauto|by rewrite lookup_insert_ne].
Qed.

Lemma app_kept_some s t a apps' k :
  app_kept s t a apps' -> is_Some (db_apps s !! k) -> is_Some (apps' !! k).
Proof.
  intros [Hother (app' & Happ & _)] Hk.
  destruct (decide (k = (t, a))) as [->|]; [by rewrite Happ|by rewrite Hother].
Qed.

Lemma config_ok_revision s t a apps' row :
  config_ok s -> app_kept s t a apps' ->
  let version := max_version t a s + 1 in
  cfg_tenant_id (rev_config row) = t -> cfg_app_id (rev_config row) = a ->
  cfg_version (rev_config row) = version -> TenantConfig_ok (rev_config row) = true ->
  config_ok (s <| db_apps := apps' |>
               <| db_revisions := <[(t, a, version) := row]> (db_revisions s) |>) /\
  db_revisions s !! (t, a, version) = None.
Proof.
  intros [Hd Hr Ha Hb Hu] Hkept version Ht Happ Hver Hok.
  destruct (Hd t a) as (m & Hm & Happs & Hdense). pose proof (max_version_dense t a m s Hm Hdense) as Hmax.
  assert (Hnone : db_revisions s !! (t, a, version) = None).
  { apply eq_None_not_Some. intros Hx%Hdense. unfold version in Hx. lia. }
  split; [|done]. pose proof Hkept as [Hother (app' & Happ' & Hcases)]. split; simpl.
  - intros t' a'. destruct (decide ((t', a') = (t, a))) as [[= -> ->]|Hne].
    + exists (m + 1). split; [lia|]. split; [rewrite Happ'; split; [lia|eauto]|]. intros n.
      destruct (decide (n = version)) as [->|Hn].
      * rewrite lookup_insert_eq. unfold version. rewrite Hmax. split; [lia|eauto].
      * rewrite lookup_insert_ne by congruence. rewrite Hdense. unfold version in Hn. lia.
    + destruct (Hd t' a') as (m' & ? & ? & Hdense'). exists m'. rewrite Hother by done. split_and!; [done..|].
      intros n. rewrite lookup_insert_ne by congruence. done.
  - intros t' a' n r [[[= <- <- <-] <-]|[_ Hx]]%lookup_insert_Some; [done|by apply Hr].
  - intros t' a' app Hget. destruct (decide ((t', a') = (t, a))) as [[= -> ->]|Hne].
    + assert (app = app') as -> by congruence. destruct (db_apps s !! (t, a)) as [app0|] eqn:Happ0.
      * destruct Hcases as (-> & -> & ->). destruct (Ha _ _ _ Happ0) as (? & Hc & [? ?] & ?).
        split_and!; try done; [by apply revision_lookup|]. intros n Hn. by apply revision_lookup, Hc.
      * destruct Hcases as (-> & -> & ->). assert (m = 0) as Hm0.
        { destruct (decide (1 <= m)) as [Hx%Happs|]; [by destruct Hx|lia]. }
        assert (version = 1) as Hv1 by (unfold version; lia). rewrite Hv1, lookup_insert_eq.
        split_and!; try done; try lra.
    + rewrite Hother in Hget by done. destruct (Ha _ _ _ Hget) as (? & Hc & [? ?] & ?).
      split_and!; try done; [by apply revision_lookup|]. intros n Hn. by apply revision_lookup, Hc.
  - intros t' b row' Hrow. eapply app_kept_some; [done|]. by eapply Hb.
  - done.
Qed.

Lemma cgood_same s0 s s' :
  db_apps s' = db_apps s -> db_revisions s' = db_revisions s -> db_bindings s' = db_bindings s ->
  cgood s0 s -> cgood s0 s'.
Proof.
  intros Ha Hr Hb [Hok Hle]. split; [by eapply config_ok_same; [..|exact Hok]|]. unfold config_le. by rewrite Hr.
Qed.

(** The last statements of a write leave the configuration as it is. *)
Lemma wp_bump_good now t v s0 s e (Q : outcome Z -> Database -> effects -> Prop) :
  cgood s0 s -> (forall x, Q (Raise x) s e) -> (forall n s', cgood s0 s' -> Q (Ok n) s' e) ->
  wp (_bump_version now t v) Q s e.
Proof.
  intros Hs Hraise Hok. unfold _bump_version. wp_steps; try apply Hraise. apply Hok.
  by eapply cgood_same; [..|exact Hs].
Qed.

Lemma wp_record_good t k operation h resp status actor decision s0 s e :
  cgood s0 s ->
  wp (_store_idempotency t k operation h resp status ;; _audit t actor decision k ;; ret resp)
    (fun r s' _ => forall resp', r = Ok resp' -> cgood s0 s') s e.
Proof.
  intros Hs. unfold _store_idempotency, _audit. wp_steps; [done|]. intros _ _.
  by eapply cgood_same; [..|exact Hs].
Qed.

Ltac good_tail :=
  eapply wp_bump_good; [|done|intros ? ? ?; by eapply wp_record_good].

Lemma put_binding_good now t bd s e (Q : outcome BindingRow -> Database -> effects -> Prop) :
  config_ok s -> (forall x, Q (Raise x) s e) -> (forall row s', cgood s s' -> Q (Ok row) s' e) ->
  wp (upsert_binding now t bd) Q s e.
Proof.
  intros Hs Hraise Hok. unfold upsert_binding. wp_steps; try apply Hraise; apply Hok.
  all: split; [|unfold config_le; simpl; reflexivity].
  all: apply config_ok_binding; [done| |done].
  all: match goal with Hx : is_none ?o = false |- _ => by destruct o end.
Qed.

(** Adding a revision to a new or an existing application. *)
Lemma revision_good s t a now apps' cfg checksum actor :
  config_ok s -> app_kept s t a apps' ->
  TenantConfig_ok (revision_payload cfg t a (max_version t a s + 1)) = true ->
  cgood s (s <| db_apps := apps' |> <| db_revisions := <[(t, a, max_version t a s + 1) :=
    MkRevisionRow (revision_payload cfg t a (max_version t a s + 1)) checksum actor now]> (db_revisions s) |>).
Proof.
  intros Hs Hkept Hok. set (row := MkRevisionRow _ _ _ _).
  destruct (config_ok_revision s t a apps' row Hs Hkept) as [Hx Hnone]; [done..|].
  split; [exact Hx|]. by apply insert_subseteq.
Qed.

Lemma cexec_good c s e : config_ok s -> wp (cexec c) (fun _ s' _ => cgood s s') s e.
Proof.
  intros Hs. assert (Hrefl : cgood s s) by (split; [done|unfold config_le; reflexivity]).
  destruct c as [t d a k h|t b bd a v k h|t a cfg ac v k h|t a ver p ac v k h op|t o cf a v k h]; simpl.
  - refine (guarded_good (CCreateTenant t d a k h) _ s e Hs _). intros now e'.
    apply wp_bind, wp_gets. destruct (db_tenants s !! t); [by apply wp_raise|].
    apply wp_bind, wp_modify, wp_record_good. by eapply cgood_same; [..|exact Hrefl].
  - apply wp_bind, wp_raise_if; intros Hm; [done|].
    refine (guarded_good (CPutBinding t b bd a v k h) _ s e Hs _). intros now e'.
    apply wp_bind, wp_lock; [done|]. intros row Hrow Hv.
    apply wp_bind, put_binding_good; [done|done|]. intros brow s' Hg. apply wp_bind. good_tail. done.
  - refine (guarded_good (CCreateConfig t a cfg ac v k h) _ s e Hs _). intros now e'.
    apply wp_bind, wp_lock; [done|]. intros row Hrow Hv. unfold update_app.
    wp_steps; try done; good_tail; bool_prop.
    all: [> set (apps := alter (bump_app now) (t, a) (db_apps s))
         | set (apps := alter (bump_app now) (t, a) (<[(t, a) := MkAppRow a 1 None 0 1 now]> (db_apps s)))].
    all: eapply cgood_same; [..|eapply (revision_good s t a now apps cfg _ ac Hs)]; try reflexivity; try done.
    all: subst apps; (split; [intros ? ?; by rewrite ?lookup_alter_ne, ?lookup_insert_ne|]).
    + rewrite lookup_alter_eq. destruct (db_apps s !! (t, a)) as [app|]; [|done]. by eexists.
    + rewrite lookup_alter_eq, lookup_insert_eq. destruct (db_apps s !! (t, a)) as [app|]; [done|]. by eexists.
  - apply wp_bind, wp_raise_if; intros Hm; [done|].
    refine (guarded_good (CActivate t a ver p ac v k h op) _ s e Hs _). intros now e'.
    apply wp_bind, wp_lock; [done|]. intros row Hrow Hv. unfold update_app. wp_steps; try done. good_tail.
    bool_prop. split; [|unfold config_le; simpl; reflexivity]. apply config_ok_rollout; [done| |].
    + match goal with Hx : is_none (db_revisions s !! ?k) = false |- _ => by destruct (db_revisions s !! k) end.
    + split; by apply Qle_bool_iff.
  - refine (guarded_good (CReplay t o cf a v k h) _ s e Hs _). intros now e'.
    apply wp_bind, wp_lock; [done|]. intros row Hrow Hv. wp_steps; try done; good_tail.
    all: by eapply cgood_same; [..|exact Hrefl].
Qed.

Definition creachable (s : Database) (e : effects) : Prop :=
  exists e0, rtc cstep (empty_database, e0) (s, e).

Lemma config_ok_empty : config_ok empty_database.
Proof.
  split; simpl; try done.
  intros t a. exists 0. setoid_rewrite lookup_empty. split_and!; [done|..].
  - split; [by intros []|lia].
  - intros n. split; [by intros []|lia].
Qed.

Lemma csteps_good x y : rtc cstep x y -> config_ok x.1 -> cgood x.1 y.1.
Proof.
  induction 1 as [x|x y z Hxy _ IH]; intros Hx; [split; [done|unfold config_le; reflexivity]|].
  assert (Hy : cgood x.1 y.1).
  { destruct Hxy as [c s e r s' e' Hrun|s e o q d e']; simpl in *.
    - exact (wp_run _ _ _ _ _ _ _ (cexec_good c s e Hx) Hrun).
    - eapply cgood_same; [..|split; [exact Hx|unfold config_le; reflexivity]]; done. }
  destruct Hy as [Hy Hle]. destruct (IH Hy) as [Hz Hle']. split; [done|]. unfold config_le in *. by etrans.
Qed.

(** Configuration revisions are immutable and referenced correctly: in
    every database the control plane can reach from an empty one, the revisions
    of an application are numbered from 1 without gaps, valid and stored under
    their own identity, an application exists exactly when it has a revision,
    its active and candidate versions exist and the candidate's share is between
    0 and 100 percent, a binding refers to an existing application, binding
    identifiers are unique and so are the accounts of a tenant's channel; and a
    stored revision never changes afterwards. *)
Theorem config_revisions_wf s e s' e' :
  creachable s e -> rtc cstep (s, e) (s', e') ->
  config_ok s' /\ forall key r, db_revisions s !! key = Some r -> db_revisions s' !! key = Some r.
Proof.
  intros [e0 Hs] Hsteps. destruct (csteps_good _ _ Hs config_ok_empty) as [Hok _].
  destruct (csteps_good _ _ Hsteps Hok) as [Hok' Hle]. split; [done|].
  intros key r Hr. by eapply lookup_weaken; [exact Hr|exact Hle].
Qed.

(** An idempotency key stays blocked after it has expired: the answer is no
    longer replayed, but its row still violates the primary key, so the request
    raises and changes nothing. *)
Lemma expired_key_blocks c row s e :
  malformed c = None -> db_idempotency s !! (call_tenant c, call_key c) = Some row ->
  ide_expires_at row <= clock_at (ticks e) ->
  exists x e', cexec c s e = (Raise x, s, e').
Proof.
  intros Hm Hrow Hx. pose proof (cexec_answered c s e) as Ha. unfold wp in Ha.
  destruct (cexec c s e) as [[[resp|x] s'] e'] eqn:Hrun; simpl in Ha; [|subst; by eauto].
  exfalso. destruct Ha as [(row' & Hrow' & ? & _)|Hw]; [simplify_eq; lia|].
  pose proof (wr_fresh _ _ _ _ _ _ Hw). congruence.
Qed.
End configurations.

(** ** Concrete runs *)
Section demo.
#[local] Existing Instance demo_env.
#[local] Instance demo_checksum : Checksum := fun _ => "checksum"%string.
#[local] Instance demo_urls : UrlLibrary := {| urlsplit := fun _ => None; ip_address_special := fun _ => None |}.
#[local] Instance demo_numeric : Numeric := {| numeric_5_2 := fun q => q; numeric_range := fun _ Hq => Hq |}.
#[local] Instance demo_uuid : UuidText := fun _ => None.

Definition draft : TenantConfig :=
  MkTenantConfig "" "" 0 (MkModelPolicy "openai" "m" None None 60 None None [] None None None)
    (MkToolPolicy ∅ ∅ ∅) (MkBudgetPolicy 32000 0 1) (MkAuditPolicy 180 false)
    (MkMediaPolicy true 4 1024 1024 40 256 true)
    (MkStorageSelection "p" "postgresql" "postgresql" "s3" "pgvector") "" 1 0.

Definition create_acme : ccall := CCreateTenant "acme" "Acme" "root" "key-1" "h1".
Definition first_config : ccall := CCreateConfig "acme" "app" draft "root" 1 "key-2" "h2".
Definition canary : ccall := CActivate "acme" "app" 1 25 "root" 2 "key-3" "h3" "activate_config".
Definition late_writer : ccall := CCreateConfig "acme" "app" draft "bob" 1 "key-4" "h4".

Definition crun (cs : list ccall) (x : Database * effects) : Database * effects :=
  fold_left (fun x c => let '(_, s, e) := cexec c x.1 x.2 in (s, e)) cs x.

Lemma crun_steps cs x : rtc cstep x (crun cs x).
Proof.
  revert x. induction cs as [|c cs IH]; intros [s e]; simpl; [apply rtc_refl|].
  destruct (cexec c s e) as [[r s'] e'] eqn:Hrun. eapply rtc_l; [by econstructor|apply IH].
Qed.

Abbreviation created := (crun [create_acme] (empty_database, fx0)).
Abbreviation configured := (crun [create_acme; first_config] (empty_database, fx0)).

Lemma control_write_once_witness : exists e3 resp s1 e1,
  cexec first_config created.1 created.2 = (Ok resp, s1, e1) /\
  cexec first_config (crun [canary] (s1, e1)).1 (crun [canary] (s1, e1)).2
  = (Ok resp, (crun [canary] (s1, e1)).1, e3).
Proof.
  destruct (ok_with_run (fun resp s1 e1 => Nat.ltb (ticks (crun [canary] (s1, e1)).2) 1000) (cexec first_config created.1 created.2))
    as (resp & s1 & e1 & Hrun & Hx); [vm_compute; reflexivity|]. apply Nat.ltb_lt in Hx.
  destruct (control_write_once first_config resp _ _ s1 e1 Hrun) as (n & Hn & Hagain); [vm_compute; reflexivity|].
  destruct (Hagain (crun [canary] (s1, e1)).1 (crun [canary] (s1, e1)).2 first_config) as [e3 He3]; try reflexivity.
  - rewrite <-surjective_pairing. apply crun_steps.
  - change (1000000 * Z.of_nat (ticks (crun [canary] (s1, e1)).2) < 1000000 * Z.of_nat n + 86400000000). lia.
  - exists e3, resp, s1, e1. split; [exact Hrun|exact He3].
Defined.

Lemma control_no_lost_update_witness : exists resp s1 e1 x s3 e3,
  cexec first_config created.1 created.2 = (Ok resp, s1, e1) /\
  cexec late_writer s1 e1 = (Raise x, s3, e3) /\ s3 = s1.
Proof.
  destruct (ok_with_run (fun _ s1 _ => is_none (db_idempotency s1 !! ("acme", "key-4")%string))
    (cexec first_config created.1 created.2)) as (resp & s1 & e1 & Hrun & Hx); [vm_compute; reflexivity|].
  assert (Hnone : db_idempotency s1 !! ("acme", "key-4")%string = None) by (by destruct (_ !! _)).
  destruct (cexec late_writer s1 e1) as [[r s3] e3] eqn:Hlate.
  destruct (control_no_lost_update first_config 1 resp _ _ s1 e1 s1 e1 late_writer r s3 e3
    Hrun eq_refl ltac:(vm_compute; reflexivity) (rtc_refl _ _) eq_refl eq_refl Hnone Hlate) as (_ & [x ->] & Hs).
  exists resp, s1, e1, x, s3, e3. split; [exact Hrun|]. split; [exact Hlate|exact Hs].
Defined.

Lemma config_revisions_wf_witness :
  config_ok (crun [canary] configured).1 /\
  is_none (db_revisions configured.1 !! ("acme", "app", 1)%string) = false.
Proof.
  split; [|vm_compute; reflexivity].
  apply (config_revisions_wf configured.1 configured.2 _ (crun [canary] configured).2).
  - exists fx0. rewrite <-surjective_pairing. apply crun_steps.
  - rewrite <-!surjective_pairing. apply crun_steps.
Defined.
End demo.
