(* ===== verification/SessionReady.v ===== *)
(** * The session-ready transport

    The wake-up notices of [trpc_service/queue/session_ready.py]: the record,
    the seven-field codec, the explicit receive/ack queue and the reclaimer of
    abandoned deliveries.  Redis is a parameter: what a command answers may
    depend on every command sent before it.  The world keeps the commands sent
    and the reclaimer's cursor.  Metrics, logging, sleeping and task
    cancellation are not modelled; the reclaimer's [run] loop is the repetition
    of [reclaim]. *)

From S2P Require Import Prelude Datetime PyText.
From Stdlib Require Import Ascii QArith.
#[local] Close Scope Q_scope.
#[local] Open Scope Z_scope.

Definition SESSION_READY_STREAM_V2 : string := "trpc:session-ready:v2".
Definition SESSION_READY_GROUP_V2 : string := "trpc-session-ready-v2".

Definition SESSION_READY_FIELDS : list string :=
  ["event_id"; "tenant_id"; "session_id"; "generation"; "priority"; "trace_id"; "created_at"]%string.

(** ** Timestamps *)

(** A Python [datetime]: the wall clock in microseconds since 1970-01-01 and,
    when it is aware, its offset from UTC. *)
Record datetime : Type := MkDatetime { dt_wall : Z; dt_offset : option Z }.

#[export] Instance representable_dec t : Decision (representable t).
Proof. unfold representable. apply _. Defined.

(** [d.replace(tzinfo=UTC)] for a naive value, [d.astimezone(UTC)] otherwise. *)
Definition to_utc (d : datetime) : outcome Z :=
  match dt_offset d with
  | None => Ok (dt_wall d)
  | Some off => if decide (representable (dt_wall d - off)) then Ok (dt_wall d - off) else Raise OverflowError
  end.

(** [datetime.fromisoformat] of text in another than the canonical form. *)
Class IsoReader : Type := fromisoformat_other : string -> option datetime.

Definition fromisoformat `{IsoReader} (s : string) : option datetime :=
  match read_canonical s with
  | Some (Some t) => Some (MkDatetime t (Some 0))
  | Some None => None
  | None => fromisoformat_other s
  end.

(** ** The record *)

Record SessionReady : Type := MkSessionReady {
  sr_event_id : string;
  sr_tenant_id : string;
  sr_session_id : string;
  sr_generation : Z;
  sr_priority : Z;
  sr_trace_id : string;
  sr_created_at : datetime;
}.

Definition length_in (lo hi : Z) (s : string) : bool := (lo <=? char_len s) && (char_len s <=? hi).

(** The field constraints of the model. *)
Definition SessionReady_ok (m : SessionReady) : bool :=
  length_in 1 512 (sr_event_id m) && length_in 1 512 (sr_tenant_id m)
  && length_in 1 512 (sr_session_id m) && (1 <=? sr_generation m) && (0 <=? sr_priority m)
  && length_in 1 512 (sr_trace_id m).

Record SessionReadyDelivery : Type := MkSessionReadyDelivery {
  srd_stream_id : string;
  srd_message : SessionReady;
}.

(** ** The codec *)

Definition encode (m : SessionReady) : outcome (odict string string) :=
  match to_utc (sr_created_at m) with
  | Raise x => Raise x
  | Ok t =>
    match py_str_int (sr_generation m), py_str_int (sr_priority m) with
    | Some generation, Some priority =>
      Ok [("event_id", sr_event_id m); ("tenant_id", sr_tenant_id m);
          ("session_id", sr_session_id m); ("generation", generation); ("priority", priority);
          ("trace_id", sr_trace_id m);
          ("created_at", py_replace "+00:00" "Z" (isoformat t))]%string
    | _, _ => Raise (ValueError "Exceeds the limit (4300 digits) for integer string conversion")
    end
  end.

(** [_text(value)]. *)
Definition _text (v : text) : outcome string :=
  match v with
  | TStr s => Ok s
  | TBytes b => if utf8_valid b then Ok b else Raise UnicodeDecodeError
  end.

(** [{_text(key): _text(value) for key, value in fields.items()}]. *)
Fixpoint normalize (acc : odict string string) (fields : list (text * text))
    : outcome (odict string string) :=
  match fields with
  | [] => Ok acc
  | (k, v) :: rest =>
    match _text k with
    | Raise x => Raise x
    | Ok k =>
      match _text v with
      | Raise x => Raise x
      | Ok v => normalize (dset k v acc) rest
      end
    end
  end.

Definition key_set (d : odict string string) : gset string := list_to_set (dkeys d).

Definition expected_keys : gset string := list_to_set SESSION_READY_FIELDS.

(** The message of the field mismatch. *)
Definition field_details (keys : gset string) : string :=
  let missing := py_sorted (elements (expected_keys ∖ keys)) in
  let extra := py_sorted (elements (keys ∖ expected_keys)) in
  let details :=
    ((match missing with [] => [] | _ => [("missing=" +:+ join "," missing)%string] end) ++
     (match extra with [] => [] | _ => [("extra=" +:+ join "," extra)%string] end))%list in
  ("invalid session-ready:v2 fields (" +:+ join "; " details +:+ ")")%string.

Section codec.
Context `{UnicodeInt} `{IsoReader}.

(** The values converted and validated; a missing or malformed one is the same
    [ValueError]. *)
Definition build (d : odict string string) : option SessionReady :=
  event_id ← dget "event_id"%string d; tenant_id ← dget "tenant_id"%string d;
  session_id ← dget "session_id"%string d;
  generation ← dget "generation"%string d ≫= py_int;
  priority ← dget "priority"%string d ≫= py_int;
  trace_id ← dget "trace_id"%string d;
  created_at ← dget "created_at"%string d ≫= (fun s => fromisoformat (py_replace "Z" "+00:00" s));
  let m := MkSessionReady event_id tenant_id session_id generation priority trace_id created_at in
  if SessionReady_ok m then Some m else None.

Definition decode (fields : list (text * text)) : outcome SessionReady :=
  match normalize [] fields with
  | Raise x => Raise x
  | Ok normalized =>
    if bool_decide (key_set normalized = expected_keys) then
      match build normalized with
      | Some m => Ok m
      | None => Raise (ValueError "invalid session-ready:v2 field value")
      end
    else Raise (ValueError (field_details (key_set normalized)))
  end.
End codec.

(** ** Redis *)

Inductive command : Type :=
  | XGroupCreate (stream group : string)
  | XAdd (stream : string) (fields : odict string string)
  | XReadGroup (group consumer stream : string) (count : Z) (block : option Z)
  | XAck (stream group id : string)
  | XDel (stream id : string)
  | XAutoclaim (stream group consumer : string) (min_idle : Z) (start : string) (count : Z).

(** An entry of a reply: a pair of an identifier and fields, the placeholder of a
    deleted entry [(None, None)], or something that is not a pair. *)
Inductive row : Type :=
  | Row (id : text) (fields : list (text * text))
  | NilRow
  | OddRow (first : option text).

(** The rows of one stream, or something that is not a pair. *)
Inductive group_row : Type :=
  | GroupRow (entries : list row)
  | OddGroupRow.

(** The answer to a command, given every command sent up to and including it. *)
Class Redis : Type := {
  xgroup_create : list command -> outcome unit;
  xadd : list command -> outcome text;
  xreadgroup : list command -> outcome (list group_row);
  xack : list command -> outcome Z;
  xdel : list command -> outcome Z;
  (** Falsy, or the next cursor and, unless cut short, the claimed entries. *)
  xautoclaim : list command -> outcome (option (text * option (list row)));
}.

Record World : Type := MkWorld { w_log : list command; w_cursor : string }.

#[export] Instance World_settable : Settable World := fun w => MkWorld (w_log w) (w_cursor w).

Definition lift {S A} (o : outcome A) : M S A :=
  match o with Ok a => ret a | Raise x => raise x end.

(** Send a command and wait for its answer. *)
Definition send {A} (answer : list command -> outcome A) (c : command) : M World A :=
  modify (fun w => w <| w_log := w_log w ++ [c] |>) ;;
  let* log := gets w_log in
  lift (answer log).

(** [needle in s]. *)
Definition py_in (needle s : string) : bool :=
  match String.index 0 needle s with Some _ => true | None => false end.

Section transport.
Context `{UnicodeInt} `{IsoReader} `{Redis}.

Definition _ensure_group (stream group : string) : M World unit :=
  try_except (send xgroup_create (XGroupCreate stream group))
    (fun x => match x with
              | ResponseError msg => if py_in "BUSYGROUP" msg then ret tt else raise x
              | _ => raise x
              end).

(** ** The queue *)

Record SessionReadyQueue : Type := MkSessionReadyQueue {
  q_stream : string;
  q_group : string;
  q_xdel_attempts : nat;
}.

(** The constructor's guards; the retry delay only postpones the next attempt and
    is not kept. *)
Definition make_queue (stream group : string) (xdel_attempts : Z) (xdel_retry_delay_seconds : pyfloat)
    : outcome SessionReadyQueue :=
  if xdel_attempts <? 1 then Raise (ValueError "xdel_attempts must be positive")
  else
    match xdel_retry_delay_seconds with
    | Finite delay =>
      if Qle_bool 0 delay then Ok (MkSessionReadyQueue stream group (Z.to_nat xdel_attempts))
      else Raise (ValueError "xdel_retry_delay_seconds must be non-negative and finite")
    | NonFinite => Raise (ValueError "xdel_retry_delay_seconds must be non-negative and finite")
    end.

Section queue.
Context (q : SessionReadyQueue).

Definition ensure_group : M World unit := _ensure_group (q_stream q) (q_group q).

Definition publish (m : SessionReady) : M World string :=
  let* fields := lift (encode m) in
  let* stream_id := send xadd (XAdd (q_stream q) fields) in
  lift (_text stream_id).

(** [attempt] runs from 1 to [xdel_attempts]: [remaining] are left. *)
Fixpoint delete_attempts (remaining : nat) (stream_id : string) : M World unit :=
  match remaining with
  | O => ret tt
  | S remaining =>
    try_except (send xdel (XDel (q_stream q) stream_id) ;; ret tt)
      (fun _ => match remaining with O => ret tt | S _ => delete_attempts remaining stream_id end)
  end.

Definition _delete_after_ack (stream_id : string) : M World unit :=
  delete_attempts (q_xdel_attempts q) stream_id.

Definition ack (delivery : SessionReadyDelivery) : M World bool :=
  let* acknowledged := send xack (XAck (q_stream q) (q_group q) (srd_stream_id delivery)) in
  if acknowledged =? 0 then ret false
  else _delete_after_ack (srd_stream_id delivery) ;; ret true.

(** [_safe_stream_id(row)]; the placeholder's identifier is [None], which is not
    used. *)
Definition _safe_stream_id (r : row) : string :=
  match r with
  | Row id _ | OddRow (Some id) => match _text id with Ok s => s | Raise _ => ""%string end
  | OddRow None | NilRow => ""%string
  end.

(** [except Exception] around the cleanup: it never fails. *)
Definition _quarantine (stream_id : string) : M World unit :=
  try_except
    (send xack (XAck (q_stream q) (q_group q) stream_id) ;; _delete_after_ack stream_id)
    (fun _ => ret tt).

(** [raw_stream_id, fields = row; SessionReadyDelivery(...)]. *)
Definition read_row (r : row) : outcome SessionReadyDelivery :=
  match r with
  | Row id fields =>
    match _text id with
    | Raise x => Raise x
    | Ok stream_id =>
      match decode fields with
      | Raise x => Raise x
      | Ok m => Ok (MkSessionReadyDelivery stream_id m)
      end
    end
  | NilRow => Raise (AttributeError "'NoneType' object has no attribute 'items'")
  | OddRow _ => Raise (ValueError "not enough values to unpack")
  end.

(** [except (TypeError, ValueError, UnicodeError)]: [UnicodeDecodeError] is a
    [ValueError]. *)
Definition poison (x : exn) : bool :=
  match x with
  | TypeError _ | ValueError _ | UnicodeDecodeError => true
  | _ => false
  end.

(** One pass over entries, with what is done about a poison entry. *)
Fixpoint decode_entries (cleanup : string -> M World unit) (entries : list row)
    : M World (list SessionReadyDelivery) :=
  match entries with
  | [] => ret []
  | r :: rest =>
    match read_row r with
    | Ok d => let* ds := decode_entries cleanup rest in ret (d :: ds)
    | Raise x =>
      if poison x then cleanup (_safe_stream_id r) ;; decode_entries cleanup rest else raise x
    end
  end.

Fixpoint _decode_rows_safely (rows : list group_row) : M World (list SessionReadyDelivery) :=
  match rows with
  | [] => ret []
  | OddGroupRow :: rest => _decode_rows_safely rest
  | GroupRow entries :: rest =>
    let* ds := decode_entries _quarantine entries in
    let* more := _decode_rows_safely rest in
    ret (ds ++ more)
  end.

(** [XREADGROUP]; a missing group (Redis lost its data) is created again and the
    read repeated once. *)
Definition read_rows (consumer : string) (count : Z) (block_ms : option Z)
    : M World (list group_row) :=
  let block := match block_ms with Some b => if 0 <? b then Some b else None | None => None end in
  let read := send xreadgroup (XReadGroup (q_group q) consumer (q_stream q) count block) in
  try_except read
    (fun x => match x with
              | ResponseError msg =>
                if py_in "NOGROUP" msg then ensure_group ;; read else raise x
              | _ => raise x
              end).

Definition receive_new (consumer : string) (count : Z) (block_ms : option Z)
    : M World (list SessionReadyDelivery) :=
  raise_if (str_empty consumer) (ValueError "consumer must not be empty") ;;
  raise_if (count <? 1) (ValueError "count must be positive") ;;
  let* rows := read_rows consumer count block_ms in
  _decode_rows_safely rows.
End queue.

(** ** The reclaimer *)

Record SessionReadyReclaimer : Type := MkSessionReadyReclaimer {
  r_stream : string;
  r_group : string;
  r_consumer : string;
  r_min_idle_ms : Z;
  r_count : Z;
  (** [on_delivery] and [permit]. *)
  r_on_delivery : option (SessionReadyDelivery -> M World unit);
  r_permit : option (M World bool);
}.

(** [poll_seconds], a finite float here, only paces the [run] loop. *)
Definition make_reclaimer (stream group consumer : string) (min_idle_ms count : Z) (poll_seconds : Q)
    (on_delivery : option (SessionReadyDelivery -> M World unit)) (permit : option (M World bool))
    : outcome SessionReadyReclaimer :=
  if str_empty consumer then Raise (ValueError "consumer must not be empty")
  else if min_idle_ms <? 0 then Raise (ValueError "min_idle_ms must be non-negative")
  else if count <? 1 then Raise (ValueError "count must be positive")
  else if negb (Qle_bool 0 poll_seconds) then Raise (ValueError "poll_seconds must be non-negative")
  else Ok (MkSessionReadyReclaimer stream group consumer min_idle_ms count on_delivery permit).

Section reclaimer.
Context (r : SessionReadyReclaimer).

Definition _delete_reclaimed (stream_id : string) : M World unit :=
  try_except (send xdel (XDel (r_stream r) stream_id) ;; ret tt) (fun _ => ret tt).

Definition quarantine_reclaimed (stream_id : string) : M World unit :=
  try_except
    (send xack (XAck (r_stream r) (r_group r) stream_id) ;; _delete_reclaimed stream_id)
    (fun _ => ret tt).

(** [_unpack_xautoclaim(result)]. *)
Definition _unpack_xautoclaim (result : option (text * option (list row)))
    : outcome (string * list row) :=
  match result with
  | None => Ok ("0-0"%string, [])
  | Some (next_cursor, entries) =>
    match _text next_cursor with
    | Raise x => Raise x
    | Ok next_cursor => Ok (if str_empty next_cursor then "0-0"%string else next_cursor, default [] entries)
    end
  end.

Fixpoint deliver_all (handler : SessionReadyDelivery -> M World unit)
    (ds : list SessionReadyDelivery) : M World unit :=
  match ds with
  | [] => ret tt
  | d :: rest => handler d ;; deliver_all handler rest
  end.

(** A page claimed from the current cursor; [None] when the group was missing and
    has been created again. *)
Definition claim_page : M World (option (option (text * option (list row)))) :=
  let* cursor := gets w_cursor in
  try_except
    (let* result := send xautoclaim (XAutoclaim (r_stream r) (r_group r) (r_consumer r)
                                       (r_min_idle_ms r) cursor (r_count r)) in
     ret (Some result))
    (fun x => match x with
              | ResponseError msg =>
                if py_in "NOGROUP" msg then
                  _ensure_group (r_stream r) (r_group r) ;;
                  modify (fun w => w <| w_cursor := "0-0"%string |>) ;;
                  ret None
                else raise x
              | _ => raise x
              end).

Definition reclaim : M World (list SessionReadyDelivery) :=
  let* permitted := match r_permit r with Some p => p | None => ret true end in
  if negb permitted then ret []
  else
    let* page := claim_page in
    match page with
    | None => ret []
    | Some result =>
      let* unpacked := lift (_unpack_xautoclaim result) in
      modify (fun w => w <| w_cursor := unpacked.1 |>) ;;
      let* deliveries := decode_entries quarantine_reclaimed unpacked.2 in
      match r_on_delivery r with
      | Some handler => deliver_all handler deliveries ;; ret deliveries
      | None => ret deliveries
      end
    end.
End reclaimer.
End transport.
