(* ===== verification/SessionReadyThms.v ===== *)
(** * Theorems on the session-ready transport

    The codec inverts itself on every representation Redis may return, and the
    queue and the reclaimer touch an entry only the way the protocol allows. *)

From S2P Require Import Prelude Datetime PyText SessionReady.
From Stdlib Require Import Ascii QArith.
#[local] Close Scope Q_scope.
#[local] Open Scope Z_scope.

(** ** The text of a timestamp *)

(** The characters before the offset. *)
Definition iso_char (c : ascii) : bool :=
  byte_in 48 57 c || Ascii.eqb c "-" || Ascii.eqb c ":" || Ascii.eqb c "T" || Ascii.eqb c ".".

Lemma string_all_impl (f g : ascii -> bool) s :
  (forall c, f c = true -> g c = true) -> string_all f s = true -> string_all g s = true.
Proof.
  intros Hfg. induction s as [|c s IH]; [done|]. simpl. intros Hf. bool_prop.
  rewrite Hfg, IH; done.
Qed.

Lemma iso_char_spec c :
  iso_char c = true ->
  byte_in 0 127 c = true /\ Ascii.eqb "+" c = false /\ Ascii.eqb "Z" c = false.
Proof. destruct c as [[] [] [] [] [] [] [] []]; vm_compute; intros; repeat split; discriminate || done. Qed.

Lemma digit_char_iso d : 0 <= d < 10 -> iso_char (digit_char d) = true.
Proof. intros Hd. by apply (range_forall (fun d => iso_char (digit_char d)) 10); [vm_compute|]. Qed.

Lemma pad_iso w : forall n, string_all iso_char (pad w n) = true.
Proof.
  induction w as [|w IH]; intros n; [done|]. simpl. rewrite string_all_app, IH. simpl.
  rewrite digit_char_iso; [done|]. apply Z.mod_pos_bound. lia.
Qed.

Lemma fraction_iso f : string_all iso_char (fraction f) = true.
Proof.
  unfold fraction. case_match; [done|]. rewrite string_all_app, pad_iso. done.
Qed.

Lemma isoformat_body t : exists body, isoformat t = body +:+ "+00:00" /\ string_all iso_char body = true.
Proof.
  unfold isoformat. destruct (civil _) as [[y m] d].
  rewrite <-!string_app_assoc. eexists. split; [done|].
  repeat rewrite string_all_app. rewrite !pad_iso, fraction_iso. done.
Qed.

Lemma zulu_text t :
  exists body, py_replace "+00:00" "Z" (isoformat t) = body +:+ "Z" /\
    py_replace "Z" "+00:00" (body +:+ "Z") = isoformat t /\ string_all iso_char body = true.
Proof.
  destruct (isoformat_body t) as (body & -> & Hb). exists body.
  split_and!; [| |done]; rewrite replace_keep; try done;
    eapply string_all_impl, Hb; intros c Hc; destruct (iso_char_spec c Hc) as (_ & Hp & Hz); by rewrite ?Hp, ?Hz.
Qed.

(** ** Text that decodes *)

Lemma ascii_utf8 s : is_ascii s = true -> utf8_valid s = true.
Proof.
  induction s as [|c s IH]; [done|]. unfold is_ascii. simpl string_all. intros Hs. bool_prop.
  cbn [utf8_valid]. rewrite H. by apply IH.
Qed.

Definition content (v : text) : string := match v with TStr s | TBytes s => s end.

Lemma text_content v : utf8_valid (content v) = true -> _text v = Ok (content v).
Proof. destruct v; simpl; [done|]. by intros ->. Qed.

(** ** Dictionaries *)

Lemma foldl_dset {V} (l acc : odict string V) :
  NoDup (dkeys acc ++ dkeys l) -> foldl (fun d '(k, v) => dset k v d) acc l = acc ++ l.
Proof.
  revert acc. induction l as [|[k v] l IH]; intros acc Hnd; simpl; [by rewrite app_nil_r|].
  assert (Hk : dset k v acc = acc ++ [(k, v)]).
  { apply NoDup_app in Hnd as (_ & Hd & _). simpl in Hd.
    assert (Hni : k ∉ dkeys acc) by set_solver. clear -Hni.
    induction acc as [|[k0 v0] acc IH]; simpl in *; [done|]. rewrite decide_False by set_solver.
    rewrite IH; [done|set_solver]. }
  rewrite Hk, IH; [by rewrite <-app_assoc|]. unfold dkeys in *. rewrite map_app. simpl.
  by rewrite <-app_assoc.
Qed.

Definition plain (wire : list (text * text)) : odict string string :=
  (fun kv => (content kv.1, content kv.2)) <$> wire.

Lemma normalize_plain wire acc :
  Forall (fun kv => utf8_valid kv.1 = true /\ utf8_valid kv.2 = true) (plain wire) ->
  normalize acc wire = Ok (foldl (fun d '(k, v) => dset k v d) acc (plain wire)).
Proof.
  revert acc. induction wire as [|[k v] wire IH]; intros acc Hall; simpl; [done|].
  inversion Hall as [|? ? [Hk Hv] Hrest]; subst. simpl in *.
  rewrite !text_content by done. by apply IH.
Qed.

Lemma dget_perm {V} (d d' : odict string V) k :
  NoDup (dkeys d) -> d' ≡ₚ d -> dget k d' = dget k d.
Proof.
  intros Hnd Hp. assert (Hnd' : NoDup (dkeys d')) by (unfold dkeys; by rewrite Hp).
  destruct (dget k d) as [v|] eqn:Hg.
  - apply In_dget; [done|]. rewrite Hp. by apply dget_Some_In.
  - apply dget_None_keys. rewrite dget_None_keys in Hg. unfold dkeys in *. by rewrite Hp.
Qed.

(** ** The round trip *)

Section codec.
Context `{UnicodeInt} `{IsoReader}.

(** Python text without surrogates, the only text a stream can carry. *)
Definition encodable (m : SessionReady) : bool :=
  utf8_valid (sr_event_id m) && utf8_valid (sr_tenant_id m) && utf8_valid (sr_session_id m)
  && utf8_valid (sr_trace_id m).

(** The notice with its timestamp in UTC. *)
Definition in_utc (m : SessionReady) (t : Z) : SessionReady :=
  MkSessionReady (sr_event_id m) (sr_tenant_id m) (sr_session_id m) (sr_generation m)
    (sr_priority m) (sr_trace_id m) (MkDatetime t (Some 0)).

(** What [decode] computes from the dictionary it normalised. *)
Lemma decode_plain wire d m :
  Forall (fun kv => utf8_valid kv.1 = true /\ utf8_valid kv.2 = true) d ->
  dkeys d = SESSION_READY_FIELDS -> plain wire ≡ₚ d -> build d = Some m -> decode wire = Ok m.
Proof.
  intros Hv Hk Hp Hb. assert (Hnd : NoDup (dkeys d)) by (rewrite Hk; by apply (bool_decide_eq_true _)).
  unfold decode. rewrite normalize_plain by (by rewrite Hp). rewrite foldl_dset; simpl.
  2: { unfold dkeys in *. by rewrite Hp. }
  assert (Hks : key_set (plain wire) = expected_keys).
  { unfold key_set, expected_keys, dkeys in *. rewrite <-Hk. apply leibniz_equiv. by rewrite Hp. }
  rewrite Hks, bool_decide_eq_true_2 by done.
  unfold build in *. by rewrite !(dget_perm d (plain wire)), Hb.
Qed.

Lemma to_utc_representable d t : representable (dt_wall d) -> to_utc d = Ok t -> representable t.
Proof. unfold to_utc. destruct (dt_offset d); [|naive_solver]. by case_decide; naive_solver. Qed.

(** What [encode] writes of a valid notice reads back. *)
Lemma decode_encoded m t d :
  SessionReady_ok m = true -> encodable m = true -> representable (dt_wall (sr_created_at m)) ->
  to_utc (sr_created_at m) = Ok t -> encode m = Ok d -> forall wire, plain wire ≡ₚ d -> decode wire = Ok (in_utc m t).
Proof.
  intros Hok Henc Hrep Ht Hd wire Hw. unfold encode in Hd. rewrite Ht in Hd.
  destruct (py_str_int (sr_generation m)) as [g|] eqn:Hg; [|done].
  destruct (py_str_int (sr_priority m)) as [p|] eqn:Hp; [|done]. injection Hd as <-.
  pose proof (to_utc_representable _ _ Hrep Ht) as Hrt.
  destruct (zulu_text t) as (body & Hz & Hback & Hb). rewrite Hz in Hw.
  pose proof Hok as Hok'. unfold SessionReady_ok, encodable in Hok', Henc. bool_prop.
  refine (decode_plain wire _ _ _ _ Hw _); [|done|].
  - repeat constructor; simpl; try done; apply ascii_utf8; [eapply py_str_ascii; [|done]; lia..|].
    unfold is_ascii. rewrite string_all_app. simpl. rewrite andb_true_r.
    eapply string_all_impl, Hb. intros c Hc. apply (iso_char_spec c Hc).
  - unfold build. simpl. rewrite Hback.
    rewrite (py_int_str (sr_generation m) g), (py_int_str (sr_priority m) p) by (done || lia). simpl.
    unfold fromisoformat. rewrite read_isoformat by done. simpl.
    by replace (SessionReady_ok _) with true.
Qed.

(** A notice that was published is received unchanged: [encode] accepts every
    valid notice, and whatever order the fields of the stream entry come back in,
    as text or as bytes, [decode] returns the notice with its timestamp in UTC. *)
Theorem session_ready_roundtrip m t g p :
  SessionReady_ok m = true -> encodable m = true -> representable (dt_wall (sr_created_at m)) ->
  to_utc (sr_created_at m) = Ok t ->
  py_str_int (sr_generation m) = Some g -> py_str_int (sr_priority m) = Some p ->
  exists d, encode m = Ok d /\ forall wire, plain wire ≡ₚ d -> decode wire = Ok (in_utc m t).
Proof.
  intros Hok Henc Hrep Ht Hg Hp. assert (Hd : exists d, encode m = Ok d) by (unfold encode; rewrite Ht, Hg, Hp; by eexists).
  destruct Hd as [d Hd]. exists d. split; [exact Hd|]. by eapply decode_encoded.
Qed.
End codec.

(** ** The commands the transport sends *)

Section transport.
Context `{UnicodeInt} `{IsoReader} `{Redis}.

Lemma wp_send {A} (answer : list command -> outcome A) c Q w e :
  Q (answer (w_log w ++ [c])) (MkWorld (w_log w ++ [c]) (w_cursor w)) e -> wp (send answer c) Q w e.
Proof.
  intros HQ. unfold send, wp, bind, modify, gets, lift. simpl.
  by destruct (answer (w_log w ++ [c])).
Qed.

(** An acknowledgement of the entry was sent and answered. *)
Definition ack_answered (stream group id : string) (log : list command) : Prop :=
  exists l1 l2 n, log = l1 ++ XAck stream group id :: l2 /\
    xack (l1 ++ [XAck stream group id]) = Ok n.

(** No entry is deleted before its acknowledgement was answered. *)
Definition deletes_acked (group : string) (log : list command) : Prop :=
  forall l1 l2 stream id, log = l1 ++ XDel stream id :: l2 -> ack_answered stream group id l1.

Lemma ack_answered_app stream group id l l' :
  ack_answered stream group id l -> ack_answered stream group id (l ++ l').
Proof. intros (l1 & l2 & n & -> & Hn). exists l1, (l2 ++ l'), n. by rewrite <-app_assoc. Qed.

Lemma ack_answered_snoc stream group id l n :
  xack (l ++ [XAck stream group id]) = Ok n ->
  ack_answered stream group id (l ++ [XAck stream group id]).
Proof. intros Hn. by exists l, [], n. Qed.

Lemma deletes_acked_snoc group log c :
  deletes_acked group log ->
  (forall stream id, c = XDel stream id -> ack_answered stream group id log) ->
  deletes_acked group (log ++ [c]).
Proof.
  intros Hlog Hc l1 l2 stream id Heq. destruct l2 as [|x l2 _] using rev_ind.
  - apply app_inj_tail in Heq as [-> ->]. auto.
  - rewrite app_comm_cons, app_assoc in Heq. apply app_inj_tail in Heq as [-> _]. eauto.
Qed.

(** [safe group] as an invariant of the world. *)
Definition safe (group : string) (w : World) : Prop := deletes_acked group (w_log w).

Lemma send_safe {A} (answer : list command -> outcome A) c group :
  (forall stream id, c <> XDel stream id) -> preserves (safe group) (send answer c).
Proof.
  intros Hc w e Hw. apply (wp_send answer c (fun _ w' _ => safe group w')).
  apply deletes_acked_snoc; [done|]. intros stream id ->. by destruct (Hc stream id).
Qed.

(** Deleting an entry whose acknowledgement was answered. *)
Lemma wp_xdel stream group id Q w e :
  safe group w -> ack_answered stream group id (w_log w) ->
  (forall r w', safe group w' -> ack_answered stream group id (w_log w') -> Q r w' e) ->
  wp (send xdel (XDel stream id)) Q w e.
Proof.
  intros Hs Ha HQ. apply wp_send, HQ; simpl; [|by apply ack_answered_app].
  apply deletes_acked_snoc; [done|]. by intros ? ? [= <- <-].
Qed.

Lemma delete_attempts_safe q n group id w e :
  safe group w -> ack_answered (q_stream q) group id (w_log w) ->
  wp (delete_attempts q n id) (fun r w' _ => r = Ok tt /\ safe group w') w e.
Proof.
  revert w e. induction n as [|n IH]; intros w e Hs Ha; [by apply wp_ret|]. simpl.
  apply wp_try, wp_bind. apply (wp_xdel _ group); [done..|]. intros [z|x] w' Hs' Ha'.
  - by apply wp_ret.
  - destruct n; [by apply wp_ret|]. by apply IH.
Qed.

Lemma preserves_lift {S A} (I : S -> Prop) (o : outcome A) : preserves I (lift o).
Proof. destruct o; [apply preserves_ret|apply preserves_raise]. Qed.

Lemma ack_safe q d : preserves (safe (q_group q)) (ack q d).
Proof.
  apply preserves_wp. intros w e Hs. apply wp_bind, wp_send. destruct (xack _) as [n|x] eqn:Hx.
  - assert (Hs' : safe (q_group q) (MkWorld (w_log w ++ [XAck (q_stream q) (q_group q) (srd_stream_id d)])
      (w_cursor w))) by (apply deletes_acked_snoc; [done|congruence]).
    destruct (n =? 0); [by apply wp_ret|]. apply wp_bind. eapply wp_mono.
    + apply (delete_attempts_safe q _ (q_group q)); [done|]. by eapply ack_answered_snoc.
    + intros r w' e' [-> Hw']. by apply wp_ret.
  - apply deletes_acked_snoc; [done|congruence].
Qed.

(** Acknowledging and then deleting, with failures ignored. *)
Lemma cleanup_safe stream group id (delete : M World unit) :
  (forall w e, safe group w -> ack_answered stream group id (w_log w) ->
     wp delete (fun _ w' _ => safe group w') w e) ->
  preserves (safe group)
    (try_except (send xack (XAck stream group id) ;; delete) (fun _ => ret tt)).
Proof.
  intros Hd. apply preserves_try; [|intros; apply preserves_ret]. apply preserves_wp.
  intros w e Hs. apply wp_bind, wp_send.
  destruct (xack _) as [n|x] eqn:Hx; [apply Hd|]; try (apply deletes_acked_snoc; [done|congruence]).
  by eapply ack_answered_snoc.
Qed.

Lemma quarantine_safe q id : preserves (safe (q_group q)) (_quarantine q id).
Proof.
  apply cleanup_safe. intros w e Hs Ha. eapply wp_mono; [by apply (delete_attempts_safe q _ (q_group q))|].
  by intros ? ? ? [_ ?].
Qed.

Lemma quarantine_reclaimed_safe r id : preserves (safe (r_group r)) (quarantine_reclaimed r id).
Proof.
  apply cleanup_safe. intros w e Hs Ha. apply wp_try, wp_bind.
  apply (wp_xdel _ (r_group r)); [done..|]. by intros [z|x] w' Hs' _.
Qed.

Lemma decode_entries_preserves (I : World -> Prop) cleanup entries :
  (forall id, preserves I (cleanup id)) -> preserves I (decode_entries cleanup entries).
Proof.
  intros Hc. induction entries as [|r entries IH]; simpl; [apply preserves_ret|].
  destruct (read_row r) as [d|x].
  - apply preserves_bind; [done|]. intros; apply preserves_ret.
  - destruct (poison x); [|apply preserves_raise]. by apply preserves_bind.
Qed.

Lemma decode_rows_safe q rows : preserves (safe (q_group q)) (_decode_rows_safely q rows).
Proof.
  induction rows as [|[entries|] rows IH]; simpl; [apply preserves_ret| |done].
  apply preserves_bind; [apply decode_entries_preserves, quarantine_safe|]. intros ds.
  apply preserves_bind; [done|]. intros; apply preserves_ret.
Qed.

Lemma ensure_group_safe stream group g : preserves (safe g) (_ensure_group stream group).
Proof.
  apply preserves_try; [by apply send_safe|].
  intros []; try apply preserves_raise. case_match; [apply preserves_ret|apply preserves_raise].
Qed.

Lemma receive_safe q consumer count block : preserves (safe (q_group q)) (receive_new q consumer count block).
Proof.
  repeat (apply preserves_bind; [|intros ?]); [apply preserves_raise_if..| |apply decode_rows_safe].
  apply preserves_try; [by apply send_safe|]. intros []; try apply preserves_raise.
  case_match; [|apply preserves_raise].
  apply preserves_bind; [apply ensure_group_safe|]. intros _. by apply send_safe.
Qed.

Lemma publish_safe q m g : preserves (safe g) (publish q m).
Proof.
  apply preserves_bind; [apply preserves_lift|]. intros fields.
  apply preserves_bind; [by apply send_safe|]. intros. apply preserves_lift.
Qed.

Lemma claim_page_safe r g : preserves (safe g) (claim_page r).
Proof.
  apply preserves_bind; [apply preserves_gets|]. intros cursor. apply preserves_try.
  - apply preserves_bind; [by apply send_safe|]. intros. apply preserves_ret.
  - intros []; try apply preserves_raise. case_match; [|apply preserves_raise].
    apply preserves_bind; [apply ensure_group_safe|]. intros _.
    apply preserves_bind; [by apply preserves_modify|]. intros. apply preserves_ret.
Qed.

(** The callbacks of a reclaimer keep the discipline themselves. *)
Definition callbacks_safe (r : SessionReadyReclaimer) : Prop :=
  (forall handler d, r_on_delivery r = Some handler -> preserves (safe (r_group r)) (handler d)) /\
  (forall permit, r_permit r = Some permit -> preserves (safe (r_group r)) permit).

Lemma reclaim_safe r : callbacks_safe r -> preserves (safe (r_group r)) (reclaim r).
Proof.
  intros [Hh Hp]. apply preserves_bind.
  { destruct (r_permit r); [by apply Hp|apply preserves_ret]. }
  intros []; [simpl|apply preserves_ret]. apply preserves_bind; [apply claim_page_safe|].
  intros [result|]; [|apply preserves_ret]. apply preserves_bind; [apply preserves_lift|]. intros [c es].
  apply preserves_bind; [by apply preserves_modify|]. intros _.
  apply preserves_bind; [apply decode_entries_preserves, quarantine_reclaimed_safe|]. intros ds.
  destruct (r_on_delivery r) as [handler|] eqn:Hr; [|apply preserves_ret].
  apply preserves_bind; [|intros; apply preserves_ret].
  induction ds as [|d ds IH]; simpl; [apply preserves_ret|].
  apply preserves_bind; [by apply Hh|done].
Qed.

(** ** Runs of the transport *)

(** One call of a worker that shares a stream and a group. *)
Inductive tstep (q : SessionReadyQueue) (r : SessionReadyReclaimer)
    : World * effects -> World * effects -> Prop :=
  | step_publish m w e o w' e' :
    publish q m w e = (o, w', e') -> tstep q r (w, e) (w', e')
  | step_receive consumer count block w e o w' e' :
    receive_new q consumer count block w e = (o, w', e') -> tstep q r (w, e) (w', e')
  | step_ack d w e o w' e' :
    ack q d w e = (o, w', e') -> tstep q r (w, e) (w', e')
  | step_reclaim w e o w' e' :
    reclaim r w e = (o, w', e') -> tstep q r (w, e) (w', e').

Lemma preserves_run {S A} (I : S -> Prop) (m : M S A) s e o s' e' :
  preserves I m -> m s e = (o, s', e') -> I s -> I s'.
Proof. intros Hm Heq Hs. specialize (Hm s e Hs). by rewrite Heq in Hm. Qed.

(** C26: An entry is deleted from the stream only after Redis has answered its
    acknowledgement, whatever notices are published, received, acknowledged and
    reclaimed and however often Redis fails. *)
Theorem delete_only_after_ack q r w e :
  r_group r = q_group q -> callbacks_safe r ->
  rtc (tstep q r) (MkWorld [] "0-0", fx0) (w, e) ->
  forall l1 l2 stream id, w_log w = l1 ++ XDel stream id :: l2 ->
    ack_answered stream (q_group q) id l1.
Proof.
  intros Hg Hcb Hrtc. change (safe (q_group q) w).
  assert (Hinit : safe (q_group q) (MkWorld [] "0-0", fx0).1) by (intros [|??] ????; discriminate).
  change w with (w, e).1. revert Hrtc Hinit. generalize (MkWorld [] "0-0", fx0). intros x Hrtc Hx.
  induction Hrtc as [|x y z Hstep _ IH]; [done|]. apply IH. clear IH.
  destruct Hstep; eapply preserves_run; try done; simpl in *.
  - apply publish_safe.
  - apply receive_safe.
  - apply ack_safe.
  - rewrite <-Hg. by apply reclaim_safe.
Qed.

(** ** What one call sends *)

Definition extend (w : World) (log : list command) : World := MkWorld (w_log w ++ log) (w_cursor w).

Lemma extend_app w l l' : extend (extend w l) l' = extend w (l ++ l').
Proof. unfold extend. simpl. by rewrite app_assoc. Qed.

Lemma run_send {A} (answer : list command -> outcome A) c w e :
  send answer c w e = (answer (w_log w ++ [c]), extend w [c], e).
Proof. unfold send, bind, modify, gets, lift. simpl. by destruct (answer _). Qed.

Lemma delete_attempts_log q n id w e :
  exists k, (k <= n)%nat /\ (1 <= n -> 1 <= k)%nat /\
    delete_attempts q n id w e = (Ok tt, extend w (replicate k (XDel (q_stream q) id)), e).
Proof.
  revert w. induction n as [|n IH]; intros w.
  - exists 0%nat. split_and!; [done..|]. unfold extend. simpl. rewrite app_nil_r. by destruct w.
  - simpl. unfold try_except, bind. rewrite run_send. destruct (xdel _) as [z|x].
    + exists 1%nat. split_and!; [lia..|done].
    + destruct n as [|n]; [exists 1%nat; split_and!; [lia..|done]|].
      destruct (IH (extend w [XDel (q_stream q) id])) as (k & Hk & _ & ->).
      exists (S k). split_and!; [lia..|]. by rewrite extend_app.
Qed.

(** An acknowledgement says what Redis answered: it fails only when [XACK]
    fails, it is [False] exactly when [XACK] counted nothing, and then nothing is
    deleted; otherwise the entry's deletion is tried at least once and at most
    [xdel_attempts] times, and its failure does not change the answer. *)
Theorem ack_reports_xack stream group n delay q d w e :
  make_queue stream group n delay = Ok q ->
  let id := srd_stream_id d in
  let acked := extend w [XAck stream group id] in
  match xack (w_log acked) with
  | Raise x => ack q d w e = (Raise x, acked, e)
  | Ok count =>
    if count =? 0 then ack q d w e = (Ok false, acked, e)
    else exists k, 1 <= Z.of_nat k <= n /\
      ack q d w e = (Ok true, extend acked (replicate k (XDel stream id)), e)
  end.
Proof.
  unfold make_queue. destruct (Z.ltb_spec n 1); [done|].
  destruct delay as [delay|]; [destruct (Qle_bool 0 delay); [|done]|done]. intros [= <-]. cbv zeta.
  unfold ack, bind. rewrite run_send. simpl w_log. simpl q_stream. simpl q_group.
  destruct (xack _) as [count|x]; [|done]. destruct (count =? 0); [done|].
  unfold _delete_after_ack.
  destruct (delete_attempts_log (MkSessionReadyQueue stream group (Z.to_nat n)) (Z.to_nat n)
    (srd_stream_id d) (extend w [XAck stream group (srd_stream_id d)]) e) as (k & Hk & Hk1 & Hrun).
  simpl q_xdel_attempts. rewrite Hrun. exists k. split; [lia|done].
Qed.

(** The entries of a reply, those that decode and those that do not. *)
Definition entries_of (rows : list group_row) : list row :=
  concat ((fun g => match g with GroupRow es => es | OddGroupRow => [] end) <$> rows).

Definition good (es : list row) : list SessionReadyDelivery :=
  omap (fun r => match read_row r with Ok d => Some d | Raise _ => None end) es.

Definition undecodable (r : row) : bool := match read_row r with Ok _ => false | Raise _ => true end.

Definition bad (es : list row) : list row := List.filter undecodable es.

(** The commands that remove poison entries: each is acknowledged, then deleted
    at most [xdel_attempts] times. *)
Inductive cleaned (q : SessionReadyQueue) : list row -> list command -> Prop :=
  | cleaned_nil : cleaned q [] []
  | cleaned_cons r rs k log :
    (k <= q_xdel_attempts q)%nat -> cleaned q rs log ->
    cleaned q (r :: rs) (XAck (q_stream q) (q_group q) (_safe_stream_id r)
      :: replicate k (XDel (q_stream q) (_safe_stream_id r)) ++ log).

Lemma cleaned_app q rs rs' l l' : cleaned q rs l -> cleaned q rs' l' -> cleaned q (rs ++ rs') (l ++ l').
Proof. induction 1; intros; simpl; [done|]. rewrite <-app_assoc. constructor; auto. Qed.

Lemma text_poison v x : _text v = Raise x -> poison x = true.
Proof. destruct v; simpl; [done|]. case_match; naive_solver. Qed.

Lemma decode_poison fields x : decode fields = Raise x -> poison x = true.
Proof.
  unfold decode. destruct (normalize [] fields) as [d|y] eqn:Hn.
  - repeat case_match; intros [= <-]; done.
  - intros [= <-]. revert Hn. generalize (@nil (string * string)).
    induction fields as [|[k v] fields IH]; intros acc; simpl; [done|].
    destruct (_text k) eqn:Hk; [destruct (_text v) eqn:Hv; [apply IH|]|];
      intros [= <-]; by eapply text_poison.
Qed.

Lemma read_row_poison r x : r <> NilRow -> read_row r = Raise x -> poison x = true.
Proof.
  destruct r as [id fields| |first]; simpl; [|done|naive_solver]. intros _.
  destruct (_text id) eqn:Ht.
  - destruct (decode fields) eqn:Hd; [done|]. intros [= <-]. by eapply decode_poison.
  - intros [= <-]. by eapply text_poison.
Qed.

Lemma quarantine_log q id w e :
  exists k, (k <= q_xdel_attempts q)%nat /\ _quarantine q id w e =
    (Ok tt, extend w (XAck (q_stream q) (q_group q) id :: replicate k (XDel (q_stream q) id)), e).
Proof.
  unfold _quarantine, try_except, bind. rewrite run_send. destruct (xack _) as [n|x].
  - unfold _delete_after_ack.
    destruct (delete_attempts_log q (q_xdel_attempts q) id (extend w [XAck (q_stream q) (q_group q) id]) e)
      as (k & Hk & _ & ->). exists k. by rewrite extend_app.
  - exists 0%nat. split; [lia|done].
Qed.

Lemma decode_entries_run q es w e :
  NilRow ∉ es ->
  exists log, cleaned q (bad es) log /\
    decode_entries (_quarantine q) es w e = (Ok (good es), extend w log, e).
Proof.
  revert w. induction es as [|r es IH]; intros w Hnil.
  { exists []. split; [constructor|]. unfold extend. rewrite app_nil_r. by destruct w. }
  apply not_elem_of_cons in Hnil as [Hr Hnil]. unfold bad, good, undecodable. simpl.
  destruct (read_row r) as [d|x] eqn:Hrow; simpl.
  - destruct (IH w Hnil) as (log & Hc & Hrun). exists log. split; [done|].
    unfold bind. by rewrite Hrun.
  - rewrite (read_row_poison r x) by congruence. unfold bind.
    destruct (quarantine_log q (_safe_stream_id r) w e) as (k & Hk & ->).
    destruct (IH (extend w (XAck (q_stream q) (q_group q) (_safe_stream_id r)
      :: replicate k (XDel (q_stream q) (_safe_stream_id r)))) Hnil) as (log & Hc & ->).
    rewrite extend_app. eexists. split; [|done]. by constructor.
Qed.

Lemma decode_rows_run q rows w e :
  NilRow ∉ entries_of rows ->
  exists log, cleaned q (bad (entries_of rows)) log /\
    _decode_rows_safely q rows w e = (Ok (good (entries_of rows)), extend w log, e).
Proof.
  revert w. induction rows as [|[es|] rows IH]; intros w Hnil; simpl.
  - exists []. split; [constructor|]. unfold extend. rewrite app_nil_r. by destruct w.
  - unfold entries_of in *. simpl in *. rewrite not_elem_of_app in Hnil. destruct Hnil as [He Hrest].
    destruct (decode_entries_run q es w e He) as (log & Hc & Hrun). unfold bind. rewrite Hrun.
    destruct (IH (extend w log) Hrest) as (log' & Hc' & ->). rewrite extend_app.
    exists (log ++ log'). split.
    + unfold bad. rewrite List.filter_app. by apply cleaned_app.
    + unfold good. by rewrite omap_app.
  - by apply IH.
Qed.

(** A batch is received exactly: the deliveries are the entries of the reply
    that decode, in their order, none lost and none made up; every entry that
    does not decode is acknowledged and deleted with a bounded number of
    commands, so that it cannot block the others, and no command touches an entry
    that was delivered. *)
Theorem receive_exact q consumer count block rows w e w1 e1 :
  consumer <> ""%string -> 1 <= count ->
  read_rows q consumer count block w e = (Ok rows, w1, e1) -> NilRow ∉ entries_of rows ->
  exists log, cleaned q (bad (entries_of rows)) log /\
    receive_new q consumer count block w e = (Ok (good (entries_of rows)), extend w1 log, e1).
Proof.
  intros Hne Hcount Hread Hnil. destruct (decode_rows_run q rows w1 e1 Hnil) as (log & Hc & Hrun).
  exists log. split; [done|]. unfold receive_new, raise_if, str_empty.
  rewrite bool_decide_eq_false_2, (proj2 (Z.ltb_ge _ _)) by done.
  unfold bind, ret. by rewrite Hread.
Qed.

(** A worker survives the loss of Redis: when the group is missing it is created
    again, or found created by another worker, and the read is repeated. *)
Lemma read_rows_recovers q consumer count w e msg rows :
  let read := XReadGroup (q_group q) consumer (q_stream q) count None in
  let create := XGroupCreate (q_stream q) (q_group q) in
  xreadgroup (w_log w ++ [read]) = Raise (ResponseError msg) -> py_in "NOGROUP" msg = true ->
  (xgroup_create (w_log w ++ [read; create]) = Ok tt \/
   exists busy, xgroup_create (w_log w ++ [read; create]) = Raise (ResponseError busy) /\
     py_in "BUSYGROUP" busy = true) ->
  xreadgroup (w_log w ++ [read; create; read]) = Ok rows ->
  read_rows q consumer count None w e = (Ok rows, extend w [read; create; read], e).
Proof.
  cbv zeta. intros Hread Hmsg Hcreate Hagain. unfold read_rows, try_except. rewrite run_send, Hread, Hmsg.
  unfold bind, ensure_group, _ensure_group, try_except. rewrite run_send. unfold extend at 1. simpl w_log.
  rewrite <-app_assoc. simpl app.
  destruct Hcreate as [->|(busy & -> & Hbusy)]; rewrite ?Hbusy; unfold ret;
    rewrite run_send; unfold extend; simpl w_log; rewrite <-!app_assoc; simpl app; by rewrite Hagain.
Qed.
End transport.

(** ** Concrete runs *)

Definition no_int : UnicodeInt := fun _ => None.
Definition no_iso : IsoReader := fun _ => None.

(** 2000-02-29T08:00:00.000001+08:00. *)
Definition demo_notice : SessionReady :=
  MkSessionReady "e-1" "tenant" "session" 12 0 "trace" (MkDatetime (951811200 * 1000000 + 1) (Some (8 * 3600 * 1000000))).

Definition demo_fields : list (text * text) :=
  [(TBytes "created_at", TBytes "2000-02-29T00:00:00.000001Z"); (TStr "event_id", TStr "e-1");
   (TBytes "tenant_id", TBytes "tenant"); (TBytes "session_id", TBytes "session");
   (TBytes "generation", TBytes "12"); (TBytes "priority", TBytes "0");
   (TBytes "trace_id", TBytes "trace")]%string.

(** A server that returns one good and one malformed entry and whose first two
    deletions fail. *)
Definition demo_redis : Redis := {|
  xgroup_create := fun _ => Ok tt;
  xadd := fun _ => Ok (TStr "1-0");
  xreadgroup := fun _ => Ok [GroupRow [Row (TBytes "1-0") demo_fields; OddRow (Some (TStr "2-0"))]];
  xack := fun _ => Ok 1;
  xdel := fun log => if Nat.leb (length log) 4 then Raise (RuntimeError "timeout") else Ok 1;
  xautoclaim := fun _ => Ok None;
|}.

Definition demo_queue : SessionReadyQueue :=
  MkSessionReadyQueue SESSION_READY_STREAM_V2 SESSION_READY_GROUP_V2 3.

Definition demo_reclaimer : SessionReadyReclaimer :=
  MkSessionReadyReclaimer SESSION_READY_STREAM_V2 SESSION_READY_GROUP_V2 "worker" 60000 100
    (Some (fun d => @ack demo_redis demo_queue d ;; ret tt)) None.

Lemma session_ready_roundtrip_witness :
  exists d, encode demo_notice = Ok d /\
    (forall wire, plain wire ≡ₚ d ->
      @decode no_int no_iso wire = Ok (in_utc demo_notice (951782400 * 1000000 + 1))) /\
    plain demo_fields ≡ₚ d.
Proof.
  destruct (@session_ready_roundtrip no_int no_iso demo_notice (951782400 * 1000000 + 1) "12" "0")
    as (d & Hd & Hall);
    [vm_compute; reflexivity|vm_compute; reflexivity|by apply (bool_decide_unpack _)
    |vm_compute; reflexivity|vm_compute; reflexivity|vm_compute; reflexivity|].
  exists d. split_and!; [done|exact Hall|]. vm_compute in Hd. injection Hd as <-.
  change (plain demo_fields) with ([("created_at", "2000-02-29T00:00:00.000001Z")]%string ++
    [("event_id", "e-1"); ("tenant_id", "tenant"); ("session_id", "session");
     ("generation", "12"); ("priority", "0"); ("trace_id", "trace")]%string)%list.
  apply Permutation_app_comm.
Defined.

Lemma delete_only_after_ack_witness :
  exists w e, rtc (@tstep no_int no_iso demo_redis demo_queue demo_reclaimer)
      (MkWorld [] "0-0", fx0) (w, e) /\
    existsb (fun c => match c with XDel _ _ => true | _ => false end) (w_log w) = true /\
    forall l1 l2 stream id, w_log w = l1 ++ XDel stream id :: l2 ->
      @ack_answered demo_redis stream SESSION_READY_GROUP_V2 id l1.
Proof.
  destruct (ok_with_run (fun _ w _ => existsb (fun c => match c with XDel _ _ => true | _ => false end) (w_log w))
    (@receive_new no_int no_iso demo_redis demo_queue "worker" 10 None (MkWorld [] "0-0") fx0))
    as (ds & w & e & Hrun & Hdel); [vm_compute; reflexivity|].
  assert (Hrtc : rtc (@tstep no_int no_iso demo_redis demo_queue demo_reclaimer)
    (MkWorld [] "0-0", fx0) (w, e)) by (by eapply rtc_once, step_receive).
  exists w, e. split_and!; [done|done|].
  apply (@delete_only_after_ack no_int no_iso demo_redis demo_queue demo_reclaimer w e); [done| |done].
  split; [|done]. intros handler d [= <-].
  apply preserves_bind; [apply (@ack_safe demo_redis demo_queue)|]. intros. apply preserves_ret.
Defined.

Lemma ack_reports_xack_witness :
  exists k, 1 <= Z.of_nat k <= 3 /\
    @ack demo_redis demo_queue (MkSessionReadyDelivery "1-0" demo_notice) (MkWorld [] "0-0") fx0 =
      (Ok true, extend (MkWorld [XAck SESSION_READY_STREAM_V2 SESSION_READY_GROUP_V2 "1-0"] "0-0")
         (replicate k (XDel SESSION_READY_STREAM_V2 "1-0")), fx0).
Proof.
  exact (@ack_reports_xack demo_redis SESSION_READY_STREAM_V2 SESSION_READY_GROUP_V2 3 (Finite (1 # 20))
    demo_queue (MkSessionReadyDelivery "1-0" demo_notice) (MkWorld [] "0-0") fx0 eq_refl).
Defined.

Lemma receive_exact_witness :
  exists w log, cleaned demo_queue [OddRow (Some (TStr "2-0"))] log /\
    @receive_new no_int no_iso demo_redis demo_queue "worker" 10 None (MkWorld [] "0-0") fx0 =
      (Ok [MkSessionReadyDelivery "1-0" (in_utc demo_notice (951782400 * 1000000 + 1))],
       extend w log, fx0).
Proof.
  eexists. refine (@receive_exact no_int no_iso demo_redis demo_queue "worker" 10 None
    [GroupRow [Row (TBytes "1-0") demo_fields; OddRow (Some (TStr "2-0"))]]
    (MkWorld [] "0-0") fx0 _ fx0 _ _ eq_refl _); [done|done|].
  unfold entries_of. cbn [fmap list_fmap concat app].
  rewrite !not_elem_of_cons. split_and!; [done|done|apply not_elem_of_nil].
Defined.
