(* ===== verification/SessionWorker.v ===== *)
(** * The session worker

    [SessionWorkerConsumer] of [trpc_service/queue/session_worker_consumer.py]:
    two source loops (new notices and reclaimed ones) and the delivery tasks
    they start, all bounded by one semaphore.  The coroutines interleave at
    their awaits, so the worker is a state machine whose steps are the code
    between two awaits; what the queue, the reclaimer, the claimer and the
    executor answer is arbitrary, and a task or a loop may be cancelled at every
    await.  The world keeps which permit leases are held and what each task did.
    Logging, fault checkpoints and the pauses between polls are not modelled. *)

From S2P Require Import Prelude Models PyText SessionReady.
From Stdlib Require Import QArith.
#[local] Close Scope Q_scope.
#[local] Open Scope Z_scope.

(** ** State *)

(** [_receive_loop] and [_reclaim_loop]. *)
Inductive source : Type := Receive | Reclaim.

#[export] Instance source_eq_dec : EqDecision source.
Proof. solve_decision. Defined.

(** A loop is before [_take_permit]; in it, awaiting the race of [acquire_task] and [stop_task],
    with the permit once [acquire_task] is done, or awaiting the end of the cancelled [stop_task]
    with a permit that has no lease yet; awaits its source with the lease; or has ended, and may
    have lost the permit that it had no lease for. *)
Inductive loop_state : Type :=
  | Waiting
  | Racing (permit : option nat)
  | Settling (permit : nat)
  | Holding (permit : nat)
  | Stopped (lost : option nat).

Definition permit_of (l : loop_state) : option nat :=
  match l with
  | Waiting => None
  | Racing permit => permit
  | Settling permit | Holding permit => Some permit
  | Stopped lost => lost
  end.

(** A delivery task: created and not yet scheduled, at each of its awaits, or
    done (its callback still to run). *)
Inductive stage : Type :=
  | Created
  | Claiming
  | Acking (claim : SessionClaim)
  | Executing (claim : SessionClaim)
  | Done.

Record Task : Type := MkTask {
  t_delivery : SessionReadyDelivery;
  t_permit : nat;
  t_stage : stage;
}.

(** What a task did. *)
Inductive event : Type :=
  | EvClaim (result : outcome SessionClaim)
  | EvAck (result : outcome bool)
  | EvExecute (claim : SessionClaim).

(** [c_held]: the permits that were taken from the semaphore and not given back
    ([_PermitLease._released] is [False], or there is no lease). *)
Record Consumer : Type := MkConsumer {
  c_permits : Z;
  c_held : gset nat;
  c_loops : source -> loop_state;
  c_in_flight : gmap nat Task;
  c_stop : bool;
  c_next_permit : nat;
  c_next_task : nat;
  c_log : list (nat * event);
}.

#[export] Instance Consumer_settable : Settable Consumer := fun c =>
  MkConsumer (c_permits c) (c_held c) (c_loops c) (c_in_flight c) (c_stop c) (c_next_permit c)
    (c_next_task c) (c_log c).

Definition fresh_consumer (concurrency : Z) : Consumer :=
  MkConsumer concurrency ∅ (fun _ => Waiting) ∅ false 0 0 [].

(** The constructor with its guards, without fault stages. *)
Definition make_consumer (consumer_id : string) (concurrency receive_block_ms : Z)
    (reclaimer_poll_seconds : Q) (ack_timeout_seconds shutdown_grace_seconds : pyfloat)
    : outcome Consumer :=
  let positive f := match f with Finite q => negb (Qle_bool q 0) | NonFinite => false end in
  if str_empty consumer_id then Raise (ValueError "consumer_id must not be empty")
  else if concurrency <? 1 then Raise (ValueError "concurrency must be positive")
  else if receive_block_ms <? 1 then Raise (ValueError "receive_block_ms must be positive and finite")
  else if negb (Qle_bool 0 reclaimer_poll_seconds)
  then Raise (ValueError "reclaimer_poll_seconds must be non-negative")
  else if negb (positive ack_timeout_seconds)
  then Raise (ValueError "ack_timeout_seconds must be positive and finite")
  else if negb (positive shutdown_grace_seconds)
  then Raise (ValueError "shutdown_grace_seconds must be positive and finite")
  else Ok (fresh_consumer concurrency).

(** ** Permits *)

(** [_PermitLease.release()]: only the first call gives the permit back. *)
Definition release (permit : nat) (c : Consumer) : Consumer :=
  if bool_decide (permit ∈ c_held c)
  then c <| c_held := c_held c ∖ {[permit]} |> <| c_permits := c_permits c + 1 |>
  else c.

Definition set_loop (src : source) (l : loop_state) (c : Consumer) : Consumer :=
  c <| c_loops := fun s => if decide (s = src) then l else c_loops c s |>.

(** The permit goes back to the semaphore. *)
Definition give_back (permit : nat) (c : Consumer) : Consumer :=
  c <| c_held := c_held c ∖ {[permit]} |> <| c_permits := c_permits c + 1 |>.

(** [_take_permit] up to its first await: a set stop event ends the loop, otherwise
    [acquire_task] and [stop_task] are started. *)
Definition _take_permit (src : source) (c : Consumer) : option Consumer :=
  match c_loops c src with
  | Waiting => Some (set_loop src (if c_stop c then Stopped None else Racing None) c)
  | _ => None
  end.

(** [acquire_task] is done: the semaphore had a permit. *)
Definition acquire_done (src : source) (c : Consumer) : option Consumer :=
  match c_loops c src with
  | Racing None =>
    if 0 <? c_permits c then
      Some (set_loop src (Racing (Some (c_next_permit c)))
        (c <| c_permits := c_permits c - 1 |> <| c_held := {[c_next_permit c]} ∪ c_held c |>
           <| c_next_permit := S (c_next_permit c) |>))
    else None
  | _ => None
  end.

(** [asyncio.wait] returned; [stopped] says whether [stop_task] is done.  If it is, the permit, if
    there is one, is given back, or [acquire_task] is cancelled and takes none, and the loop ends;
    otherwise [acquire_task] is done, and [stop_task] is cancelled and awaited. *)
Definition race_answer (src : source) (stopped : bool) (c : Consumer) : option Consumer :=
  match c_loops c src with
  | Racing permit =>
    if stopped then
      if c_stop c then
        Some (set_loop src (Stopped None) (match permit with Some p => give_back p c | None => c end))
      else None
    else match permit with Some p => Some (set_loop src (Settling p) c) | None => None end
  | _ => None
  end.

(** [stop_task] has ended: [_take_permit] returns the lease and the loop awaits its source. *)
Definition stop_task_ended (src : source) (c : Consumer) : option Consumer :=
  match c_loops c src with
  | Settling permit => Some (set_loop src (Holding permit) c)
  | _ => None
  end.

(** ** The source loops *)

Definition _start_delivery (delivery : SessionReadyDelivery) (permit : nat) (c : Consumer) : Consumer :=
  c <| c_in_flight := <[c_next_task c := MkTask delivery permit Created]> (c_in_flight c) |>
    <| c_next_task := S (c_next_task c) |>.

(** The source answered: [receive_new] with a count of one, or [reclaim], of
    which the first delivery is taken. *)
Definition source_answer (src : source) (answer : outcome (list SessionReadyDelivery)) (c : Consumer)
    : option Consumer :=
  match c_loops c src with
  | Holding permit =>
    Some (match answer with
          | Ok (delivery :: _) => set_loop src Waiting (_start_delivery delivery permit c)
          | Ok [] | Raise _ => set_loop src Waiting (release permit c)
          end)
  | _ => None
  end.

(** A loop cancelled while it awaits its source gives the permit back.  Inside [_take_permit] there
    is no lease yet: cancelling an [acquire_task] that is done has no effect, and nobody gives its
    permit back. *)
Definition cancel_loop (src : source) (c : Consumer) : Consumer :=
  match c_loops c src with
  | Holding permit => set_loop src (Stopped None) (release permit c)
  | l => set_loop src (Stopped (permit_of l)) c
  end.

(** ** Delivery tasks *)

Definition set_stage (t : nat) (st : stage) (c : Consumer) : Consumer :=
  c <| c_in_flight := alter (fun tk => MkTask (t_delivery tk) (t_permit tk) st) t (c_in_flight c) |>.

Definition record_event (t : nat) (ev : event) (c : Consumer) : Consumer :=
  c <| c_log := c_log c ++ [(t, ev)] |>.

(** [_process_delivery]'s [finally]. *)
Definition finish (t : nat) (permit : nat) (c : Consumer) : Consumer := release permit (set_stage t Done c).

(** The task gets its first turn and awaits the claim. *)
Definition start_task (t : nat) (c : Consumer) : option Consumer :=
  match c_in_flight c !! t with
  | Some (MkTask _ _ Created) => Some (set_stage t Claiming c)
  | _ => None
  end.

(** [_claim_ack_execute] up to the acknowledgement: a failed claim ends the task
    with the notice unacknowledged. *)
Definition claim_answer (t : nat) (answer : outcome SessionClaim) (c : Consumer) : option Consumer :=
  match c_in_flight c !! t with
  | Some (MkTask _ permit Claiming) =>
    let c := record_event t (EvClaim answer) c in
    Some (match answer with
          | Ok claim => set_stage t (Acking claim) c
          | Raise _ => finish t permit c
          end)
  | _ => None
  end.

(** [_ack_safely] returned, whatever the acknowledgement's outcome (a deadline
    counts as an exception): only a claimed turn is executed. *)
Definition ack_answer (t : nat) (answer : outcome bool) (c : Consumer) : option Consumer :=
  match c_in_flight c !! t with
  | Some (MkTask _ permit (Acking claim)) =>
    let c := record_event t (EvAck answer) c in
    Some (if claimed claim then set_stage t (Executing claim) (record_event t (EvExecute claim) c)
          else finish t permit c)
  | _ => None
  end.

(** The executor returned or raised. *)
Definition execute_answer (t : nat) (c : Consumer) : option Consumer :=
  match c_in_flight c !! t with
  | Some (MkTask _ permit (Executing _)) => Some (finish t permit c)
  | _ => None
  end.

(** [task.cancel()]: before its first turn the coroutine has no [finally] to
    run. *)
Definition cancel_task (t : nat) (c : Consumer) : option Consumer :=
  match c_in_flight c !! t with
  | Some (MkTask _ _ Created) => Some (set_stage t Done c)
  | Some (MkTask _ _ Done) | None => None
  | Some (MkTask _ permit _) => Some (finish t permit c)
  end.

(** [_finish_delivery_task], the callback of a task that is done. *)
Definition _finish_delivery_task (t : nat) (c : Consumer) : option Consumer :=
  match c_in_flight c !! t with
  | Some (MkTask _ permit Done) => Some (release permit (c <| c_in_flight := delete t (c_in_flight c) |>))
  | _ => None
  end.

(** ** Shutdown *)

Definition is_done (tk : Task) : bool := match t_stage tk with Done => true | _ => false end.

Definition is_stopped (l : loop_state) : bool := match l with Stopped _ => true | _ => false end.

(** The end of [_drain_in_flight] and of [_cancel_in_flight]: the sources and the
    tasks have ended, the leases of the tasks whose callback did not run are
    released and the table is cleared. *)
Definition clear_in_flight (c : Consumer) : option Consumer :=
  if is_stopped (c_loops c Receive) && is_stopped (c_loops c Reclaim)
     && forallb (fun kv => is_done kv.2) (map_to_list (c_in_flight c))
  then Some ((fold_right (fun kv => release (t_permit kv.2)) c (map_to_list (c_in_flight c)))
             <| c_in_flight := ∅ |>)
  else None.

(** ** Steps *)

Inductive action : Type :=
  | ATakePermit (src : source)
  | AAcquired (src : source)
  | ARace (src : source) (stopped : bool)
  | AStopTask (src : source)
  | ASource (src : source) (answer : outcome (list SessionReadyDelivery))
  | ACancelLoop (src : source)
  | AStart (t : nat)
  | AClaim (t : nat) (answer : outcome SessionClaim)
  | AAck (t : nat) (answer : outcome bool)
  | AExecuted (t : nat)
  | ACancel (t : nat)
  | ACallback (t : nat)
  | AStop
  | AClear.

Definition perform (a : action) (c : Consumer) : option Consumer :=
  match a with
  | ATakePermit src => _take_permit src c
  | AAcquired src => acquire_done src c
  | ARace src stopped => race_answer src stopped c
  | AStopTask src => stop_task_ended src c
  | ASource src answer => source_answer src answer c
  | ACancelLoop src => Some (cancel_loop src c)
  | AStart t => start_task t c
  | AClaim t answer => claim_answer t answer c
  | AAck t answer => ack_answer t answer c
  | AExecuted t => execute_answer t c
  | ACancel t => cancel_task t c
  | ACallback t => _finish_delivery_task t c
  | AStop => Some (c <| c_stop := true |>)
  | AClear => clear_in_flight c
  end.

Definition wstep (c c' : Consumer) : Prop := exists a, perform a c = Some c'.

(** The tasks that have not ended. *)
Definition running (c : Consumer) : list (nat * Task) :=
  List.filter (fun kv => negb (is_done kv.2)) (map_to_list (c_in_flight c)).

Definition events_of (t : nat) (c : Consumer) : list event :=
  omap (fun '(t', ev) => if decide (t' = t) then Some ev else None) (c_log c).
