(* ===== verification/SessionWorkerThms.v ===== *)
(** * Theorems on the session worker

    The permits bound what runs and are accounted for, and every task follows the
    claim, acknowledge, execute protocol, for every interleaving of the loops and
    tasks and every answer and cancellation. *)

From S2P Require Import Prelude Models PyText SessionReady SessionWorker.
From Stdlib Require Import QArith.
#[local] Close Scope Q_scope.
#[local] Open Scope Z_scope.

(** ** Owners of permits *)

Inductive owner : Type := OLoop (src : source) | OTask (t : nat).

Definition owns (c : Consumer) (o : owner) (l : nat) : Prop :=
  match o with
  | OLoop src => permit_of (c_loops c src) = Some l
  | OTask t => t_permit <$> c_in_flight c !! t = Some l
  end.

(** An owner that still needs its permit: not a task that is done. *)
Definition active (c : Consumer) (o : owner) (l : nat) : Prop :=
  match o with
  | OLoop src => permit_of (c_loops c src) = Some l
  | OTask t => exists tk, c_in_flight c !! t = Some tk /\ is_done tk = false /\ t_permit tk = l
  end.

Record consumer_wf (n : Z) (c : Consumer) : Prop := {
  wf_count : c_permits c + Z.of_nat (size (c_held c)) = n;
  wf_nonneg : 0 <= c_permits c;
  wf_active o l : active c o l -> l ∈ c_held c;
  wf_held l : l ∈ c_held c -> exists o, owns c o l;
  wf_owner o o' l : owns c o l -> owns c o' l -> o = o';
  wf_next_permit o l : owns c o l -> (l < c_next_permit c)%nat;
  wf_next_task t l : owns c (OTask t) l -> (t < c_next_task c)%nat;
}.

Lemma active_owns c o l : active c o l -> owns c o l.
Proof. destruct o; simpl; [done|]. intros (tk & -> & _ & <-). done. Qed.

(** Steps that change neither permits nor owners. *)
Lemma wf_keep n c c1 :
  consumer_wf n c -> c_permits c1 = c_permits c -> c_held c1 = c_held c ->
  c_next_permit c1 = c_next_permit c -> c_next_task c1 = c_next_task c ->
  (forall o l, owns c1 o l <-> owns c o l) -> (forall o l, active c1 o l -> active c o l) ->
  consumer_wf n c1.
Proof.
  intros [Hc Hn Ha Hh Ho Hp Ht] Ep Eh En Et Hown Hact. split; rewrite ?Ep, ?Eh, ?En, ?Et; try done.
  - intros o l Hl. eauto.
  - intros l Hl. destruct (Hh l Hl) as [o Hol]. exists o. by apply Hown.
  - intros o o' l H1 H2. apply (Ho o o' l); by apply Hown.
  - intros o l Hl. eapply Hp, Hown, Hl.
  - intros t l Hl. eapply Ht, Hown, Hl.
Qed.

(** An owner gives up its permit and releases it. *)
Lemma wf_release n c c1 l :
  consumer_wf n c -> c_permits c1 = c_permits c -> c_held c1 = c_held c ->
  c_next_permit c1 = c_next_permit c -> c_next_task c1 = c_next_task c ->
  (forall o l', owns c1 o l' -> owns c o l') ->
  (forall o l', l' <> l -> owns c o l' -> owns c1 o l') ->
  (forall o l', active c1 o l' -> active c o l' /\ l' <> l) ->
  consumer_wf n (release l c1).
Proof.
  intros [Hc Hn Ha Hh Ho Hp Ht] Ep Eh En Et Hown Hkeep Hact.
  assert (Howned : forall l', l' ∈ c_held c -> l' <> l -> exists o, owns c1 o l').
  { intros l' Hl' Hne. destruct (Hh l' Hl') as [o Hol]. exists o. by apply Hkeep. }
  unfold release. destruct (bool_decide_reflect (l ∈ c_held c1)) as [Hl|Hl].
  - split; simpl; change (owns (set_field _ _)) with (owns c1); try (rewrite Eh in *).
    + rewrite Ep, <-Hc, size_difference by set_solver. rewrite size_singleton.
      assert (size (c_held c) <> 0)%nat; [|lia]. rewrite size_non_empty_iff. set_solver.
    + lia.
    + intros o l' Hl'. apply Hact in Hl' as [Hl' Hne]. apply Ha in Hl'. set_solver.
    + intros l' Hl'. apply Howned; set_solver.
    + intros o o' l' H1 H2. eapply (Ho o o'); eauto.
    + intros o l' Hl'. rewrite En. eauto.
    + intros t l' Hl'. rewrite Et. eapply (Ht t l'), (Hown (OTask t)), Hl'.
  - split; rewrite ?Ep, ?Eh, ?En, ?Et; try done.
    + intros o l' Hl'. apply Hact in Hl' as [Hl' _]. eauto.
    + intros l' Hl'. apply Howned; [done|]. intros ->. by rewrite Eh in Hl.
    + intros o o' l' H1 H2. eapply (Ho o o'); eauto.
    + intros o l' Hl'. eauto.
    + intros t l' Hl'. eapply (Ht t l'), (Hown (OTask t)), Hl'.
Qed.

Lemma owns_set_stage t st c o l : owns (set_stage t st c) o l <-> owns c o l.
Proof.
  destruct o as [src|t']; simpl; [done|]. destruct (decide (t' = t)) as [->|].
  - rewrite lookup_alter_eq. by destruct (c_in_flight c !! t).
  - by rewrite lookup_alter_ne.
Qed.

(** A task moves on: it was not done. *)
Lemma active_set_stage t tk st c o l :
  c_in_flight c !! t = Some tk -> is_done tk = false ->
  active (set_stage t st c) o l -> active c o l.
Proof.
  intros Ht Hd. destruct o as [src|t']; simpl; [done|]. destruct (decide (t' = t)) as [->|].
  - rewrite lookup_alter_eq, Ht. intros (? & [= <-] & _ & <-). eauto.
  - by rewrite lookup_alter_ne.
Qed.

(** A task ends: it no longer needs its permit. *)
Lemma active_done t tk n c o l :
  consumer_wf n c -> c_in_flight c !! t = Some tk ->
  active (set_stage t Done c) o l -> active c o l /\ l <> t_permit tk.
Proof.
  intros Hwf Ht Ha. assert (Hne : o <> OTask t).
  { intros ->. simpl in Ha. rewrite lookup_alter_eq, Ht in Ha. destruct Ha as (? & [= <-] & ? & _). done. }
  split.
  - destruct o as [src|t']; simpl in *; [done|]. by rewrite lookup_alter_ne in Ha by congruence.
  - intros ->. apply Hne. apply (wf_owner n c Hwf o (OTask t) (t_permit tk)).
    + eapply owns_set_stage, active_owns, Ha.
    + simpl. by rewrite Ht.
Qed.

Lemma wf_set_stage n t tk st c :
  consumer_wf n c -> c_in_flight c !! t = Some tk -> is_done tk = false ->
  consumer_wf n (set_stage t st c).
Proof.
  intros Hwf Ht Hd. apply (wf_keep n c); try done.
  - intros o l. apply owns_set_stage.
  - intros o l. by eapply active_set_stage.
Qed.

Lemma wf_record n t ev c : consumer_wf n c -> consumer_wf n (record_event t ev c).
Proof. intros Hwf. apply (wf_keep n c); try done. Qed.

Lemma wf_finish n t tk c :
  consumer_wf n c -> c_in_flight c !! t = Some tk -> consumer_wf n (finish t (t_permit tk) c).
Proof.
  intros Hwf Ht. apply (wf_release n c); try done.
  - intros o l. by apply owns_set_stage.
  - intros o l _. by apply owns_set_stage.
  - intros o l. by eapply active_done.
Qed.

Lemma set_loop_release src ls l c : set_loop src ls (release l c) = release l (set_loop src ls c).
Proof. unfold release. simpl. by destruct (bool_decide _). Qed.

Lemma owns_set_loop src ls c o l :
  owns (set_loop src ls c) o l <->
  match o with OLoop s => if decide (s = src) then permit_of ls = Some l else owns c o l | OTask _ => owns c o l end.
Proof. destruct o as [s|t]; simpl; [|done]. by case_decide. Qed.

(** A loop gives its permit back. *)
Lemma wf_loop_release n src l ls c :
  consumer_wf n c -> permit_of (c_loops c src) = Some l -> permit_of ls = None ->
  consumer_wf n (release l (set_loop src ls c)).
Proof.
  intros Hwf Hl Hls. apply (wf_release n c); try done.
  - intros o l'. rewrite owns_set_loop. destruct o as [s|t]; [|done]. case_decide; [congruence|done].
  - intros o l' Hne Ho. apply owns_set_loop. destruct o as [s|t]; [|done]. case_decide; [|done].
    subst. simpl in Ho. congruence.
  - intros o l' Ha. pose proof (active_owns _ _ _ Ha) as Ho. apply owns_set_loop in Ho.
    destruct o as [s|t]; simpl in Ho.
    + case_decide as Hs; [congruence|]. split; [simpl in Ha; by rewrite decide_False in Ha|]. intros ->.
      apply Hs. assert (OLoop s = OLoop src) by (by eapply (wf_owner n c Hwf)). congruence.
    + split; [done|]. intros ->. assert (OTask t = OLoop src) by (by eapply (wf_owner n c Hwf)). done.
Qed.

(** A loop keeps what it has. *)
Lemma wf_loop_idle n src ls c :
  consumer_wf n c -> permit_of ls = permit_of (c_loops c src) -> consumer_wf n (set_loop src ls c).
Proof.
  intros Hwf Hls. apply (wf_keep n c); try done.
  - intros o l. rewrite owns_set_loop. destruct o as [s|t]; [|done]. case_decide; [|done].
    subst. simpl. by rewrite Hls.
  - intros [s|t] l; [simpl|done]. case_decide; [subst; by rewrite Hls|done].
Qed.

Lemma wf_acquired n src c c' : consumer_wf n c -> acquire_done src c = Some c' -> consumer_wf n c'.
Proof.
  intros Hwf. unfold acquire_done. destruct (c_loops c src) as [|[]| | |] eqn:Hl; try done.
  destruct (Z.ltb_spec 0 (c_permits c)); [|done]. intros [= <-].
  assert (Hnew : forall o l, owns c o l -> l <> c_next_permit c)
    by (intros o l Ho ->; apply (wf_next_permit n c Hwf) in Ho; lia).
  assert (Hni : c_next_permit c ∉ c_held c)
    by (intros Hin; destruct (wf_held n c Hwf _ Hin) as [o Ho]; by eapply Hnew).
  set (c1 := c <| c_permits := _ |> <| c_held := _ |> <| c_next_permit := _ |>).
  assert (Hown : forall o l, owns (set_loop src (Racing (Some (c_next_permit c))) c1) o l ->
    (o = OLoop src /\ l = c_next_permit c) \/ (o <> OLoop src /\ owns c o l)).
  { intros o l Ho. apply owns_set_loop in Ho. destruct o as [s|t]; [|by right].
    case_decide; [left; naive_solver|right]. split; [congruence|done]. }
  split.
  - simpl. rewrite <-(wf_count n c Hwf), size_union by set_solver. rewrite size_singleton. lia.
  - simpl. lia.
  - intros o l Ha. simpl. destruct (Hown o l (active_owns _ _ _ Ha)) as [[_ ->]|[_ Ho]]; [set_solver|].
    assert (active c o l) by (destruct o; [exact Ho|exact Ha]).
    apply elem_of_union_r. by eapply wf_active.
  - simpl. intros l [->%elem_of_singleton|Hin]%elem_of_union.
    + exists (OLoop src). simpl. by rewrite decide_True.
    + destruct (wf_held n c Hwf l Hin) as [o Ho]. exists o. apply owns_set_loop.
      destruct o as [s|t]; [|done]. case_decide; [|done]. subst. simpl in Ho. by rewrite Hl in Ho.
  - intros o o' l [[-> ->]|[? Ho]]%Hown [[-> Hl']|[? Ho']]%Hown; try done.
    + by apply Hnew in Ho'.
    + subst. by apply Hnew in Ho.
    + by eapply (wf_owner n c Hwf).
  - intros o l [[-> ->]|[_ Ho]]%Hown; simpl; [lia|]. apply (wf_next_permit n c Hwf) in Ho. lia.
  - intros t l Ho. apply owns_set_loop in Ho. by apply (wf_next_task n c Hwf) in Ho.
Qed.

(** A permit that is held can be given back. *)
Lemma give_back_release p c : p ∈ c_held c -> give_back p c = release p c.
Proof. intros Hp. unfold release. by rewrite bool_decide_eq_true_2. Qed.

Lemma wf_race n src stopped c c' : consumer_wf n c -> race_answer src stopped c = Some c' -> consumer_wf n c'.
Proof.
  intros Hwf. unfold race_answer. destruct (c_loops c src) as [|[p|]| | |] eqn:Hl; try done.
  - assert (Hp : permit_of (c_loops c src) = Some p) by (by rewrite Hl).
    destruct stopped; [destruct (c_stop c)|]; intros [= <-]; [|by apply wf_loop_idle; rewrite ?Hl].
    rewrite give_back_release, set_loop_release by (by apply (wf_active n c Hwf (OLoop src))). by apply wf_loop_release.
  - destruct stopped; [destruct (c_stop c)|]; intros [= <-]. by apply wf_loop_idle; rewrite ?Hl.
Qed.

(** The permit passes from the loop to the new task. *)
Lemma wf_start_delivery n src l d c :
  consumer_wf n c -> permit_of (c_loops c src) = Some l ->
  consumer_wf n (set_loop src Waiting (_start_delivery d l c)).
Proof.
  intros Hwf Hl. set (c' := set_loop _ _ _).
  assert (Hfresh : c_in_flight c !! c_next_task c = None).
  { apply eq_None_not_Some. intros [tk Htk].
    assert (owns c (OTask (c_next_task c)) (t_permit tk)) as Ho by (simpl; by rewrite Htk).
    apply (wf_next_task n c Hwf) in Ho. lia. }
  assert (Hown : forall o l', owns c' o l' ->
    (o = OTask (c_next_task c) /\ l' = l) \/
    (o <> OTask (c_next_task c) /\ o <> OLoop src /\ owns c o l')).
  { intros o l' Ho. apply owns_set_loop in Ho. destruct o as [s|t].
    - case_decide; [done|]. right. split_and!; [done|congruence|done].
    - simpl in Ho. destruct (decide (t = c_next_task c)) as [->|Hne].
      + rewrite lookup_insert_eq in Ho. left. naive_solver.
      + rewrite lookup_insert_ne in Ho by done. right. split_and!; [congruence|done|done]. }
  split.
  - apply (wf_count n c Hwf).
  - apply (wf_nonneg n c Hwf).
  - intros o l' Ha. destruct (Hown o l' (active_owns _ _ _ Ha)) as [[-> ->]|(Hne & _ & Ho)].
    + by apply (wf_active n c Hwf (OLoop src) l).
    + apply (wf_active n c Hwf o l'). destruct o as [s|t]; [exact Ho|].
      simpl in Ha. rewrite lookup_insert_ne in Ha by congruence. exact Ha.
  - intros l' Hin. destruct (wf_held n c Hwf l' Hin) as [o Ho].
    destruct o as [s|t]; [destruct (decide (s = src)) as [->|Hne]|].
    + exists (OTask (c_next_task c)). simpl. rewrite lookup_insert_eq. simpl in *. congruence.
    + exists (OLoop s). apply owns_set_loop. by rewrite decide_False.
    + exists (OTask t). simpl in *. rewrite lookup_insert_ne; [done|]. intros <-. by rewrite Hfresh in Ho.
  - intros o o' l' [[-> ->]|(? & ? & Ho)]%Hown [[-> Hl']|(? & ? & Ho')]%Hown; try done.
    + assert (o' = OLoop src) by (by eapply (wf_owner n c Hwf)). done.
    + subst. assert (o = OLoop src) by (by eapply (wf_owner n c Hwf)). done.
    + by eapply (wf_owner n c Hwf).
  - intros o l' [[-> ->]|(_ & _ & Ho)]%Hown; simpl.
    + by apply (wf_next_permit n c Hwf (OLoop src)).
    + by eapply (wf_next_permit n c Hwf).
  - intros t l' [[[= ->] ->]|(_ & _ & Ho)]%Hown; simpl; [lia|].
    apply (wf_next_task n c Hwf) in Ho. lia.
Qed.

(** ** Shutdown *)

(** What the releases of a shutdown leave. *)
Lemma release_all_spec (l : list (nat * Task)) c :
  let c' := fold_right (fun kv => release (t_permit kv.2)) c l in
  c_held c' = c_held c ∖ list_to_set ((fun kv => t_permit kv.2) <$> l) /\
  c_permits c' + Z.of_nat (size (c_held c')) = c_permits c + Z.of_nat (size (c_held c)) /\
  c_permits c <= c_permits c' /\ c_loops c' = c_loops c /\ c_log c' = c_log c /\
  c_next_task c' = c_next_task c /\ c_next_permit c' = c_next_permit c.
Proof.
  induction l as [|[t tk] l IH]; cbv zeta in *; simpl.
  { split_and!; [set_solver|done..]. }
  destruct IH as (Hh & Hc & Hp & Hl & Hlog & Hnt & Hnp). set (c1 := fold_right _ c l) in *.
  unfold release. destruct (bool_decide_reflect (t_permit tk ∈ c_held c1)) as [Hin|Hin]; simpl.
  - split_and!; [set_solver| |lia|done..]. rewrite size_difference by set_solver.
    rewrite size_singleton. assert (size (c_held c1) <> 0)%nat; [|lia].
    rewrite size_non_empty_iff. set_solver.
  - split_and!; [set_solver|lia|lia|done..].
Qed.

Lemma wf_clear n c c' : consumer_wf n c -> clear_in_flight c = Some c' -> consumer_wf n c'.
Proof.
  intros Hwf. unfold clear_in_flight. case_match eqn:Hg; [|done]. intros [= <-].
  bool_prop. destruct (release_all_spec (map_to_list (c_in_flight c)) c) as (Hh & Hc & Hp & Hl & _ & _ & Hnp).
  set (c1 := fold_right _ _ _) in *.
  assert (Hheld : forall l, l ∈ c_held c1 -> exists src, permit_of (c_loops c src) = Some l).
  { intros l. rewrite Hh. intros [Hin Hni]%elem_of_difference. destruct (wf_held n c Hwf l Hin) as [[s|t] Ho]; [by exists s|].
    exfalso. apply Hni. apply elem_of_list_to_set, list_elem_of_fmap. simpl in Ho.
    destruct (c_in_flight c !! t) as [tk|] eqn:Ht; [|done]. exists (t, tk).
    split; [naive_solver|by apply elem_of_map_to_list]. }
  assert (Hown : forall o l, owns (c1 <| c_in_flight := ∅ |>) o l -> exists src, o = OLoop src /\ owns c o l).
  { intros [s|t] l; simpl; [rewrite Hl; by exists s|by rewrite lookup_empty]. }
  assert (Hkept : forall src l, permit_of (c_loops c src) = Some l -> l ∈ c_held c1).
  { intros src l Hs. rewrite Hh. apply elem_of_difference. split; [by apply (wf_active n c Hwf (OLoop src))|].
    rewrite elem_of_list_to_set, list_elem_of_fmap. intros ([t tk] & -> & Htk%elem_of_map_to_list).
    assert (OLoop src = OTask t); [|done]. apply (wf_owner n c Hwf _ _ (t_permit tk)); [done|]. simpl in *. by rewrite Htk. }
  pose proof (wf_count n c Hwf). pose proof (wf_nonneg n c Hwf).
  split; change (c_permits (c1 <| c_in_flight := ∅ |>)) with (c_permits c1); change (c_held (c1 <| c_in_flight := ∅ |>)) with (c_held c1).
  - lia.
  - lia.
  - intros o l Ha%active_owns. destruct (Hown o l Ha) as (src & -> & Ho). by eapply Hkept.
  - intros l Hin. destruct (Hheld l Hin) as [src Hs]. exists (OLoop src). simpl. by rewrite Hl.
  - intros o o' l Ho Ho'. destruct (Hown _ _ Ho) as (s & -> & Hs). destruct (Hown _ _ Ho') as (s' & -> & Hs').
    by eapply (wf_owner n c Hwf).
  - intros o l Ho. destruct (Hown _ _ Ho) as (s & -> & Hs). apply (wf_next_permit n c Hwf) in Hs.
    change (c_next_permit (c1 <| c_in_flight := ∅ |>)) with (c_next_permit c1). by rewrite Hnp.
  - intros t l Ho. by destruct (Hown _ _ Ho) as (s & [=] & _).
Qed.

(** ** Every step keeps the accounts *)

Lemma perform_wf n a c c' : consumer_wf n c -> perform a c = Some c' -> consumer_wf n c'.
Proof.
  intros Hwf. destruct a as [src|src|src stopped|src|src answer|src|t|t answer|t answer|t|t|t| |]; simpl.
  - unfold _take_permit. destruct (c_loops c src) eqn:Hl; try done. intros [= <-]. apply wf_loop_idle; [done|].
    rewrite Hl. by destruct (c_stop c).
  - by apply wf_acquired.
  - by apply wf_race.
  - unfold stop_task_ended. destruct (c_loops c src) eqn:Hl; try done. intros [= <-]. by apply wf_loop_idle; rewrite ?Hl.
  - unfold source_answer. destruct (c_loops c src) eqn:Hl; try done.
    destruct answer as [[|d ds]|x]; intros [= <-]; rewrite ?set_loop_release;
      [apply wf_loop_release|apply wf_start_delivery|apply wf_loop_release]; by rewrite ?Hl.
  - intros [= <-]. unfold cancel_loop. destruct (c_loops c src) eqn:Hl; rewrite ?set_loop_release;
      [apply wf_loop_idle..|apply wf_loop_release|apply wf_loop_idle]; by rewrite ?Hl.
  - unfold start_task. destruct (c_in_flight c !! t) as [[d p []]|] eqn:Ht; try done. intros [= <-].
    by eapply wf_set_stage.
  - unfold claim_answer. destruct (c_in_flight c !! t) as [[d p []]|] eqn:Ht; try done. intros [= <-].
    destruct answer as [claim|x].
    + eapply wf_set_stage; [by apply wf_record|done|done].
    + eapply (wf_finish n t (MkTask d p Claiming)); [by apply wf_record|done].
  - unfold ack_answer. destruct (c_in_flight c !! t) as [[d p []]|] eqn:Ht; try done. intros [= <-].
    destruct (claimed claim).
    + eapply wf_set_stage; [by do 2 apply wf_record|done|done].
    + eapply (wf_finish n t (MkTask d p (Acking claim))); [by apply wf_record|done].
  - unfold execute_answer. destruct (c_in_flight c !! t) as [[d p []]|] eqn:Ht; try done. intros [= <-].
    by eapply (wf_finish n t (MkTask d p (Executing claim))).
  - unfold cancel_task. destruct (c_in_flight c !! t) as [[d p []]|] eqn:Ht; try done; intros [= <-];
      [by eapply wf_set_stage|by eapply (wf_finish n t (MkTask d p _))..].
  - unfold _finish_delivery_task. destruct (c_in_flight c !! t) as [[d p []]|] eqn:Ht; try done.
    intros [= <-]. apply (wf_release n c); try done; intros [s|t'] l; simpl; try done.
    + destruct (decide (t = t')) as [->|]; [by rewrite lookup_delete_eq|by rewrite lookup_delete_ne].
    + intros Hne. destruct (decide (t = t')) as [->|]; [|by rewrite lookup_delete_ne].
      rewrite Ht. simpl. congruence.
    + intros Hs. split; [done|]. intros ->.
      assert (OLoop s = OTask t); [|done]. apply (wf_owner n c Hwf _ _ p); [done|]. simpl. by rewrite Ht.
    + destruct (decide (t = t')) as [->|]; [rewrite lookup_delete_eq; naive_solver|].
      rewrite lookup_delete_ne by done. intros (tk & Htk & Hd & <-). split; [by exists tk|]. intros Hp.
      assert (OTask t' = OTask t); [|congruence]. apply (wf_owner n c Hwf _ _ p); simpl; [|by rewrite Ht].
      rewrite Htk. simpl. congruence.
  - intros [= <-]. by apply (wf_keep n c).
  - by apply wf_clear.
Qed.

Lemma wsteps_wf n c c' : consumer_wf n c -> rtc wstep c c' -> consumer_wf n c'.
Proof.
  intros Hwf Hrtc. induction Hrtc as [|? ? ? [a Ha] _ IH]; [done|].
  apply IH. by eapply perform_wf.
Qed.

(** ** The bound *)

(** The permits that are in use: those of the loops, the ones that they lost included, and of the
    tasks that have not ended. *)
Definition loop_lease (c : Consumer) (src : source) : option nat := permit_of (c_loops c src).

(** The permits that the loops lost. *)
Definition lost_permits (c : Consumer) : list nat :=
  omap (fun src => match c_loops c src with Stopped lost => lost | _ => None end) [Receive; Reclaim].

Definition active_leases (c : Consumer) : list nat :=
  omap (loop_lease c) [Receive; Reclaim] ++ ((fun kv => t_permit kv.2) <$> running c).

Lemma running_spec c t tk :
  (t, tk) ∈ running c <-> c_in_flight c !! t = Some tk /\ is_done tk = false.
Proof.
  unfold running. rewrite list_elem_of_In, filter_In, <-list_elem_of_In, elem_of_map_to_list. simpl.
  destruct (is_done tk); naive_solver.
Qed.

Lemma running_NoDup n c : consumer_wf n c -> NoDup ((fun kv => t_permit kv.2) <$> running c).
Proof.
  intros Hwf. apply NoDup_fmap_2_strong.
  - intros [t tk] [t' tk'] [Ht _]%running_spec [Ht' _]%running_spec Heq. simpl in Heq.
    assert (OTask t = OTask t') as [= ->]; [|congruence].
    apply (wf_owner n c Hwf _ _ (t_permit tk)); simpl; [by rewrite Ht|rewrite Ht'; simpl; congruence].
  - unfold running. apply NoDup_ListNoDup, List.NoDup_filter, NoDup_ListNoDup, NoDup_map_to_list.
Qed.

Lemma loop_lease_spec c l :
  l ∈ omap (loop_lease c) [Receive; Reclaim] <-> exists src, permit_of (c_loops c src) = Some l.
Proof.
  rewrite list_elem_of_omap. unfold loop_lease. split.
  - intros (src & _ & Hl). by exists src.
  - intros [src Hl]. exists src. split; [destruct src; set_solver|done].
Qed.

Lemma active_leases_bound n c :
  consumer_wf n c -> (length (active_leases c) <= size (c_held c))%nat.
Proof.
  intros Hwf. assert (Hsub : forall l, l ∈ active_leases c -> l ∈ c_held c).
  { intros l. unfold active_leases. rewrite elem_of_app, loop_lease_spec, list_elem_of_fmap.
    intros [[src Hl]|([t tk] & -> & Htk)].
    - by apply (wf_active n c Hwf (OLoop src)).
    - apply running_spec in Htk as [Ht Hd]. apply (wf_active n c Hwf (OTask t)). by exists tk. }
  assert (Hnd : NoDup (active_leases c)).
  { apply NoDup_app. split_and!.
    - unfold omap, list_omap, loop_lease. destruct (permit_of (c_loops c Receive)) as [l|] eqn:H1, (permit_of (c_loops c Reclaim)) as [l'|] eqn:H2;
        repeat constructor; try set_solver. rewrite list_elem_of_singleton. intros <-.
      assert (OLoop Receive = OLoop Reclaim); [|done]. by apply (wf_owner n c Hwf _ _ l).
    - intros l [src Hl]%loop_lease_spec ([t tk] & -> & [Ht _]%running_spec)%list_elem_of_fmap.
      assert (OLoop src = OTask t); [|done]. apply (wf_owner n c Hwf _ _ (t_permit tk)); [done|].
      simpl. by rewrite Ht.
    - by eapply running_NoDup. }
  rewrite <-(size_list_to_set (C := gset nat)) by done. apply subseteq_size. intros l.
  rewrite elem_of_list_to_set. apply Hsub.
Qed.

Lemma wf_fresh_consumer n : 0 <= n -> consumer_wf n (fresh_consumer n).
Proof.
  intros Hn. split; try done.
  - unfold fresh_consumer. cbn [c_permits c_held]. rewrite size_empty. lia.
  - intros [s|t] l; simpl; [done|]. intros (tk & Htk & _). by rewrite lookup_empty in Htk.
  - intros [s|t] ? l; simpl; [done|]. by rewrite lookup_empty.
  - intros [s|t] l; simpl; [done|]. by rewrite lookup_empty.
Qed.

Lemma make_consumer_fresh id n block poll ack grace c :
  make_consumer id n block poll ack grace = Ok c -> 1 <= n /\ c = fresh_consumer n.
Proof.
  unfold make_consumer. repeat case_match; try done. intros [= <-]. bool_prop. split; [lia|done].
Qed.

(** With both loops ended and no task, only the lost permits are in use. *)
Lemma stopped_leases c :
  (forall src, is_stopped (c_loops c src) = true) -> c_in_flight c = ∅ -> active_leases c = lost_permits c.
Proof.
  intros Hstop Hempty. unfold active_leases, running. rewrite Hempty, map_to_list_empty. simpl.
  rewrite app_nil_r. unfold lost_permits, loop_lease. simpl. pose proof (Hstop Receive). pose proof (Hstop Reclaim).
  by destruct (c_loops c Receive), (c_loops c Reclaim).
Qed.

Lemma size_list_to_set_le (l : list nat) : (size (list_to_set l : gset nat) <= length l)%nat.
Proof.
  induction l as [|x l IH]; [done|]. rewrite list_to_set_cons, size_union_alt, size_singleton. cbn [length].
  apply le_n_S. etrans; [|exact IH]. apply subseteq_size. set_solver.
Qed.

Lemma stopped_held n c :
  consumer_wf n c -> (forall src, is_stopped (c_loops c src) = true) -> c_in_flight c = ∅ ->
  (size (c_held c) <= length (lost_permits c))%nat.
Proof.
  intros Hwf Hstop Hempty. rewrite <-(stopped_leases c Hstop Hempty).
  etrans; [|apply size_list_to_set_le]. apply subseteq_size. intros l Hl.
  apply elem_of_list_to_set, elem_of_app. left. apply loop_lease_spec.
  destruct (wf_held n c Hwf l Hl) as [[s|t] Ho]; [by exists s|]. simpl in Ho. by rewrite Hempty, lookup_empty in Ho.
Qed.

(** The only step that loses a permit. *)
Lemma permit_lost a c c' :
  perform a c = Some c' -> lost_permits c' <> lost_permits c ->
  exists src p, a = ACancelLoop src /\ (c_loops c src = Racing (Some p) \/ c_loops c src = Settling p).
Proof.
  assert (Hlost : forall src ls c1, c_loops c1 = c_loops c -> permit_of ls = None \/ is_stopped ls = false ->
    is_stopped (c_loops c src) = false -> lost_permits (set_loop src ls c1) = lost_permits c).
  { intros src ls c1 Hc1 Hls Hs. unfold lost_permits, set_loop. simpl. rewrite Hc1.
    destruct src, ls, (c_loops c Receive), (c_loops c Reclaim); simpl in *; naive_solver. }
  assert (Hrel : forall l c1, c_loops (release l c1) = c_loops c1) by (intros; unfold release; by case_match).
  assert (Hsame : forall c1, c_loops c1 = c_loops c -> lost_permits c1 = lost_permits c)
    by (intros c1 Hc1; unfold lost_permits; by rewrite Hc1).
  destruct a as [src|src|src stopped|src|src answer|src|t|t answer|t answer|t|t|t| |]; simpl.
  - unfold _take_permit. destruct (c_loops c src) eqn:Hl; try done. intros [= <-] []. apply Hlost; rewrite ?Hl; [done| |done].
    destruct (c_stop c); auto.
  - unfold acquire_done. destruct (c_loops c src) as [|[]| | |] eqn:Hl; try done. case_match; [|done].
    intros [= <-] []. apply Hlost; rewrite ?Hl; auto.
  - unfold race_answer. destruct (c_loops c src) as [|p| | |] eqn:Hl; try done.
    repeat case_match; try done; intros [= <-] []; apply Hlost; rewrite ?Hl; auto.
  - unfold stop_task_ended. destruct (c_loops c src) eqn:Hl; try done. intros [= <-] []. apply Hlost; rewrite ?Hl; auto.
  - unfold source_answer. destruct (c_loops c src) eqn:Hl; try done.
    intros [= <-] []. repeat case_match; apply Hlost; rewrite ?Hrel, ?Hl; auto.
  - intros [= <-]. unfold cancel_loop. destruct (c_loops c src) as [|[p|]|p|p|lost] eqn:Hl; [|eauto 6| |eauto 6| |]; intros [].
    1-3: apply Hlost; rewrite ?Hrel, ?Hl; auto.
    destruct src; unfold lost_permits, set_loop; simpl; by rewrite ?Hl.
  - unfold start_task. repeat case_match; try done. by intros [= <-] [].
  - unfold claim_answer, finish. repeat case_match; try done; intros [= <-] []; by apply Hsame; rewrite ?Hrel.
  - unfold ack_answer, finish. repeat case_match; try done; intros [= <-] []; by apply Hsame; rewrite ?Hrel.
  - unfold execute_answer, finish. repeat case_match; try done; intros [= <-] []; by apply Hsame; rewrite ?Hrel.
  - unfold cancel_task, finish. repeat case_match; try done; intros [= <-] []; by apply Hsame; rewrite ?Hrel.
  - unfold _finish_delivery_task. repeat case_match; try done; intros [= <-] []; by apply Hsame; rewrite ?Hrel.
  - by intros [= <-] [].
  - unfold clear_in_flight. case_match; [|done]. intros [= <-] []. apply Hsame. simpl. apply release_all_spec.
Qed.

(** C28: The worker's concurrency is bounded and its permits are accounted for: however the
    loops and tasks interleave, fail or are cancelled, the free permits and the
    uses of a permit (those of the loops, and of the tasks that have not ended) never
    exceed the configured concurrency; when no permit is free, some loop or task
    in the table holds one; and when both loops have ended and the table is empty
    every permit is back, but for those that the loops lost.  A loop loses at most one, and
    only when it is cancelled inside [_take_permit] after the semaphore granted the permit
    and before there is a lease for it. *)
Theorem worker_permits_conserved id n block poll ack grace c0 c :
  make_consumer id n block poll ack grace = Ok c0 -> rtc wstep c0 c ->
  0 <= c_permits c /\
  c_permits c + Z.of_nat (length (active_leases c)) <= n /\
  (c_permits c = 0 -> exists o l, owns c o l) /\
  ((forall src, is_stopped (c_loops c src) = true) -> c_in_flight c = ∅ ->
   c_permits c + Z.of_nat (length (lost_permits c)) = n) /\
  (forall a c', perform a c = Some c' -> lost_permits c' <> lost_permits c ->
   exists src p, a = ACancelLoop src /\
     (c_loops c src = Racing (Some p) \/ c_loops c src = Settling p)).
Proof.
  intros [Hn ->]%make_consumer_fresh Hrtc.
  assert (Hwf : consumer_wf n c) by (eapply wsteps_wf; [apply wf_fresh_consumer; lia|done]).
  pose proof (wf_count n c Hwf) as Hcount. pose proof (wf_nonneg n c Hwf).
  pose proof (active_leases_bound n c Hwf) as Hbound. split_and!; [done|lia| | |by intros; eapply permit_lost].
  - intros Hz. destruct (decide (c_held c = ∅)) as [He|He].
    + rewrite He, size_empty in Hcount. lia.
    + apply set_choose_L in He as [l Hl]. destruct (wf_held n c Hwf l Hl) as [o Ho]. eauto.
  - intros Hstop Hempty. rewrite (stopped_leases c Hstop Hempty) in Hbound.
    pose proof (stopped_held n c Hwf Hstop Hempty). lia.
Qed.

(** ** The protocol of a task *)

(** What a task may have done: nothing, a claim that failed, a claim, a claim that
    was refused and acknowledged, or a granted claim, its acknowledgement and then
    the execution of what was claimed. *)
Inductive protocol : list event -> Prop :=
  | protocol_nothing : protocol []
  | protocol_failed x : protocol [EvClaim (Raise x)]
  | protocol_claimed claim : protocol [EvClaim (Ok claim)]
  | protocol_refused claim r : claimed claim = false -> protocol [EvClaim (Ok claim); EvAck r]
  | protocol_executed claim r :
    claimed claim = true -> protocol [EvClaim (Ok claim); EvAck r; EvExecute claim].

(** What a task at a stage has done. *)
Definition stage_trace (st : stage) (tr : list event) : Prop :=
  match st with
  | Created | Claiming => tr = []
  | Acking claim => tr = [EvClaim (Ok claim)]
  | Executing claim =>
    claimed claim = true /\ exists r, tr = [EvClaim (Ok claim); EvAck r; EvExecute claim]
  | Done => protocol tr
  end.

Lemma stage_trace_protocol st tr : stage_trace st tr -> protocol tr.
Proof. destruct st; simpl; [intros ->|intros ->|intros ->|intros (? & r & ->)|]; auto using protocol. Qed.

Record trace_ok (c : Consumer) : Prop := {
  tr_protocol t : protocol (events_of t c);
  tr_stage t tk : c_in_flight c !! t = Some tk -> stage_trace (t_stage tk) (events_of t c);
  tr_new t : (c_next_task c <= t)%nat -> events_of t c = [] /\ c_in_flight c !! t = None;
}.

Lemma events_of_record t t' ev c :
  events_of t' (record_event t ev c) =
  if decide (t = t') then events_of t' c ++ [ev] else events_of t' c.
Proof.
  unfold events_of. simpl. rewrite omap_app. simpl. case_decide; simpl; [done|]. by rewrite app_nil_r.
Qed.

(** Steps of the loops. *)
Lemma trace_keep c c1 :
  trace_ok c -> c_log c1 = c_log c -> c_in_flight c1 = c_in_flight c -> c_next_task c1 = c_next_task c ->
  trace_ok c1.
Proof.
  intros [Hp Hs Hn] Hl Hi Ht.
  assert (He : forall t, events_of t c1 = events_of t c) by (intros; unfold events_of; by rewrite Hl).
  split; intros t; rewrite He, ?Hi, ?Ht; auto.
Qed.

Lemma trace_release l c : trace_ok c -> trace_ok (release l c).
Proof. intros Hc. unfold release. case_match; [|done]. by apply (trace_keep c). Qed.

(** A task appends events (or none) and moves to the stage they lead to. *)
Lemma trace_move t tk st evs c :
  trace_ok c -> c_in_flight c !! t = Some tk -> stage_trace st (events_of t c ++ evs) ->
  trace_ok (set_stage t st (fold_left (fun c ev => record_event t ev c) evs c)).
Proof.
  intros Hc Ht Hst. set (c1 := fold_left _ evs c).
  assert (Hlog : forall t', events_of t' c1 = if decide (t = t') then events_of t' c ++ evs else events_of t' c).
  { intros t'. subst c1. clear -t'. revert c. induction evs as [|ev evs IH]; intros c; simpl.
    - rewrite app_nil_r. by case_decide.
    - rewrite IH, events_of_record. case_decide; [|done]. by rewrite <-app_assoc. }
  assert (Hrest : c_in_flight c1 = c_in_flight c /\ c_next_task c1 = c_next_task c).
  { subst c1. clear. revert c. induction evs as [|ev evs IH]; intros c; simpl; [done|]. by rewrite !(proj1 (IH _)), !(proj2 (IH _)). }
  destruct Hrest as [Hi Hn], Hc as [Hp Hs Hnew]. split; intros t'; simpl; rewrite ?Hi, ?Hn;
    change (events_of t' (set_stage t st c1)) with (events_of t' c1); rewrite Hlog.
  - case_decide; [subst; by eapply stage_trace_protocol|done].
  - intros tk'. case_decide; subst.
    + rewrite lookup_alter_eq, Ht. intros [= <-]. done.
    + rewrite lookup_alter_ne by done. auto.
  - intros Hle. destruct (Hnew t' Hle) as [He Hnone]. case_decide; [subst; congruence|].
    rewrite lookup_alter_ne by done. done.
Qed.

Lemma trace_perform a c c' : trace_ok c -> perform a c = Some c' -> trace_ok c'.
Proof.
  intros Hc. destruct a as [src|src|src stopped|src|src answer|src|t|t answer|t answer|t|t|t| |]; simpl.
  - unfold _take_permit. repeat case_match; try done; intros [= <-]; by apply (trace_keep c).
  - unfold acquire_done. repeat case_match; try done; intros [= <-]; by apply (trace_keep c).
  - unfold race_answer. repeat case_match; try done; intros [= <-]; by apply (trace_keep c).
  - unfold stop_task_ended. repeat case_match; try done; intros [= <-]; by apply (trace_keep c).
  - unfold source_answer. destruct (c_loops c src); try done.
    destruct answer as [[|d ds]|x]; intros [= <-]; rewrite ?set_loop_release;
      [apply trace_release; by apply (trace_keep c)| |apply trace_release; by apply (trace_keep c)].
    destruct Hc as [Hp Hs Hn]. split; simpl; [done| |].
    + intros t tk. change (events_of t _) with (events_of t c). destruct (decide (t = c_next_task c)) as [->|].
      * rewrite lookup_insert_eq. intros [= <-]. simpl. by apply Hn.
      * rewrite lookup_insert_ne by done. auto.
    + intros t Ht. rewrite lookup_insert_ne by lia. apply Hn. lia.
  - intros [= <-]. unfold cancel_loop. case_match; rewrite ?set_loop_release; try apply trace_release;
      by apply (trace_keep c).
  - unfold start_task. destruct (c_in_flight c !! t) as [[d p []]|] eqn:Ht; try done. intros [= <-].
    eapply (trace_move t _ Claiming []); [done..|]. rewrite app_nil_r. by apply (tr_stage c Hc t _ Ht).
  - unfold claim_answer. destruct (c_in_flight c !! t) as [[d p []]|] eqn:Ht; try done. intros [= <-].
    pose proof (tr_stage c Hc t _ Ht) as Htr. simpl in Htr.
    destruct answer as [claim|x]; [|apply trace_release]; eapply (trace_move t _ _ [EvClaim _]); try done;
      rewrite Htr; simpl; auto using protocol.
  - unfold ack_answer. destruct (c_in_flight c !! t) as [[d p []]|] eqn:Ht; try done. intros [= <-].
    pose proof (tr_stage c Hc t _ Ht) as Htr. simpl in Htr.
    destruct (claimed claim) eqn:Hcl.
    + eapply (trace_move t _ _ [EvAck _; EvExecute _]); try done. rewrite Htr. simpl. eauto.
    + apply trace_release. eapply (trace_move t _ _ [EvAck _]); try done. rewrite Htr. simpl. by constructor.
  - unfold execute_answer. destruct (c_in_flight c !! t) as [[d p []]|] eqn:Ht; try done. intros [= <-].
    apply trace_release. eapply (trace_move t _ _ []); [done..|]. rewrite app_nil_r. apply (tr_protocol c Hc).
  - unfold cancel_task. destruct (c_in_flight c !! t) as [[d p []]|] eqn:Ht; try done; intros [= <-];
      [|apply trace_release..]; eapply (trace_move t _ _ []); try done;
      rewrite app_nil_r; apply (tr_protocol c Hc).
  - unfold _finish_delivery_task. destruct (c_in_flight c !! t) as [[d p []]|] eqn:Ht; try done.
    intros [= <-]. apply trace_release. destruct Hc as [Hp Hs Hn]. split; simpl; [done| |].
    + intros t' tk [_ Htk]%lookup_delete_Some. by apply Hs in Htk.
    + intros t' Hle. destruct (Hn t' Hle) as [He Hnone]. split; [done|]. by apply lookup_delete_None; right.
  - intros [= <-]. by apply (trace_keep c).
  - unfold clear_in_flight. case_match; [|done]. intros [= <-].
    destruct (release_all_spec (map_to_list (c_in_flight c)) c) as (_ & _ & _ & _ & Hlog & Hnt & _).
    set (c1 := fold_right _ _ _) in *.
    assert (He : forall t, events_of t (c1 <| c_in_flight := ∅ |>) = events_of t c)
      by (intros; unfold events_of; simpl; by rewrite Hlog).
    split; intros t; rewrite He; simpl.
    + apply (tr_protocol c Hc).
    + by rewrite lookup_empty.
    + rewrite Hnt, lookup_empty. intros Hle. split; [|done]. by apply (tr_new c Hc).
Qed.

(** C29: Every delivery is claimed before it is acknowledged and acknowledged before
    it is executed: in every run of the worker, what a task has done is a prefix
    of claim, acknowledgement, execution; a failed claim leaves the notice
    unacknowledged; and exactly the granted claims whose acknowledgement ended, whatever
    its outcome, are executed, once, with what was claimed.  A granted claim that is cancelled while
    its acknowledgement is under way is not executed. *)
Theorem worker_claim_ack_execute id n block poll ack grace c0 c t :
  make_consumer id n block poll ack grace = Ok c0 -> rtc wstep c0 c -> protocol (events_of t c).
Proof.
  intros [_ ->]%make_consumer_fresh Hrtc. apply tr_protocol.
  assert (Hinit : trace_ok (fresh_consumer n)).
  { split; intros t'; [constructor|intros ?|intros _]; unfold fresh_consumer; simpl;
      [by rewrite lookup_empty|split; [done|apply lookup_empty]]. }
  revert Hinit Hrtc. generalize (fresh_consumer n). intros c1 Hc1 Hrtc.
  induction Hrtc as [|? ? ? [a Ha] _ IH]; [done|]. apply IH. by eapply trace_perform.
Qed.

(** ** A concrete run *)

Fixpoint perform_all (l : list action) (c : Consumer) : option Consumer :=
  match l with
  | [] => Some c
  | a :: rest => match perform a c with Some c1 => perform_all rest c1 | None => None end
  end.

Lemma perform_all_steps l c c' : perform_all l c = Some c' -> rtc wstep c c'.
Proof.
  revert c. induction l as [|a l IH]; intros c; simpl; [by intros [= ->]|].
  destruct (perform a c) as [c1|] eqn:Ha; [|done]. intros Hl. eapply rtc_l; [by exists a|auto].
Qed.

Definition granted : SessionClaim :=
  MkSessionClaim CLAIMED (MkSessionMailbox "tenant" "session" RUNNING 1 0 (Some 1) (Some "i-1") 1
    (Some "worker") 1 (Some 0) 0 1 0 None 0) None None None.

Definition demo_delivery : SessionReadyDelivery :=
  MkSessionReadyDelivery "1-0" (MkSessionReady "e-1" "tenant" "session" 1 0 "trace" (MkDatetime 0 None)).

(** A loop gets its permit. *)
Definition permit_actions (src : source) : list action :=
  [ATakePermit src; AAcquired src; ARace src false; AStopTask src].

(** Two deliveries under a concurrency of three: one is executed although its
    acknowledgement failed, the other's claim fails; then one loop is cancelled while it awaits
    its source, and the other just after the semaphore granted it a permit, which is lost. *)
Definition demo_actions : list action :=
  permit_actions Receive ++ [ASource Receive (Ok [demo_delivery])] ++
  permit_actions Reclaim ++ [ASource Reclaim (Ok [demo_delivery]); AStart 0; AStart 1;
   AClaim 1 (Raise (RuntimeError "database")); AClaim 0 (Ok granted); ACallback 1;
   AAck 0 (Raise (RuntimeError "redis"))] ++ permit_actions Receive ++
  [ATakePermit Reclaim; AAcquired Reclaim; AStop; ACancelLoop Receive; ACancelLoop Reclaim;
   AExecuted 0; AClear].

Lemma worker_permits_conserved_witness :
  exists c0 c, make_consumer "worker" 3 5000 5 (Finite 3) (Finite 30) = Ok c0 /\
    perform_all demo_actions c0 = Some c /\ c_permits c = 2 /\ lost_permits c = [3%nat] /\
    c_permits c + Z.of_nat (length (active_leases c)) <= 3 /\
    c_permits c + Z.of_nat (length (lost_permits c)) = 3.
Proof.
  exists (fresh_consumer 3). destruct (perform_all demo_actions (fresh_consumer 3)) as [c|] eqn:Hrun;
    [|vm_compute in Hrun; discriminate].
  destruct (worker_permits_conserved "worker" 3 5000 5 (Finite 3) (Finite 30) (fresh_consumer 3) c)
    as (Hge & Hle & _ & Hall & _); [vm_compute; reflexivity|by eapply perform_all_steps|].
  exists c. assert (Hlost : lost_permits c = [3%nat]) by (vm_compute in Hrun; injection Hrun as <-; reflexivity).
  assert (Hend : c_permits c + Z.of_nat (length (lost_permits c)) = 3)
    by (apply Hall; vm_compute in Hrun; injection Hrun as <-; [by intros []|reflexivity]).
  split_and!; [vm_compute; reflexivity|done| |done|done|done]. rewrite Hlost in Hend. simpl in Hend. lia.
Defined.

Lemma worker_claim_ack_execute_witness :
  exists c, perform_all demo_actions (fresh_consumer 3) = Some c /\
    events_of 0 c = [EvClaim (Ok granted); EvAck (Raise (RuntimeError "redis")); EvExecute granted] /\
    protocol (events_of 0 c).
Proof.
  destruct (perform_all demo_actions (fresh_consumer 3)) as [c|] eqn:Hrun;
    [|vm_compute in Hrun; discriminate].
  exists c. split_and!; [done| |].
  - vm_compute in Hrun. injection Hrun as <-. reflexivity.
  - apply (worker_claim_ack_execute "worker" 3 5000 5 (Finite 3) (Finite 30) (fresh_consumer 3));
      [vm_compute; reflexivity|by eapply perform_all_steps].
Defined.
