(* ===== verification/JsonText.v ===== *)
(** * JSON arrays of strings

    [json.dumps(values, ensure_ascii=False, separators=(",", ":"))] of strings, and the
    text it writes read back; [json.loads] of any other text is a parameter. *)

From S2P Require Import Prelude Datetime PyText Base64.
From Stdlib Require Import Ascii.
#[local] Open Scope Z_scope.

Definition quote : ascii := ascii_of_N 34.
Definition backslash : ascii := ascii_of_N 92.

(** ** Writing *)

(** The escape of one character. *)
Definition json_char (c : ascii) : string :=
  if Ascii.eqb c quote then String backslash (String quote EmptyString)
  else if Ascii.eqb c backslash then String backslash (String backslash EmptyString)
  else if code c =? 10 then String backslash (String "n" EmptyString)
  else if code c =? 13 then String backslash (String "r" EmptyString)
  else if code c =? 9 then String backslash (String "t" EmptyString)
  else if code c =? 12 then String backslash (String "f" EmptyString)
  else if code c =? 8 then String backslash (String "b" EmptyString)
  else if code c <? 32 then String backslash (String "u" (hex_text 4 (code c) EmptyString))
  else String c EmptyString.

Fixpoint json_chars (s : string) : string :=
  match s with
  | EmptyString => EmptyString
  | String c rest => (json_char c +:+ json_chars rest)%string
  end.

Definition json_string (s : string) : string :=
  String quote (json_chars s +:+ String quote EmptyString)%string.

Definition json_strings (values : list string) : string :=
  ("[" +:+ join "," (map json_string values) +:+ "]")%string.

(** ** Reading *)

Definition unescape (c : ascii) : option ascii :=
  if Ascii.eqb c quote then Some quote
  else if Ascii.eqb c backslash then Some backslash
  else if Ascii.eqb c "n" then Some (ascii_of_N 10)
  else if Ascii.eqb c "r" then Some (ascii_of_N 13)
  else if Ascii.eqb c "t" then Some (ascii_of_N 9)
  else if Ascii.eqb c "f" then Some (ascii_of_N 12)
  else if Ascii.eqb c "b" then Some (ascii_of_N 8)
  else None.

(** The characters of a string up to its closing quote, and the rest; [None] where the
    text has a form that [json_string] does not write. *)
Fixpoint read_chars (s : string) : option (string * string) :=
  match s with
  | EmptyString => None
  | String c rest =>
    if Ascii.eqb c quote then Some (EmptyString, rest)
    else if Ascii.eqb c backslash then
      match rest with
      | EmptyString => None
      | String d rest =>
        match unescape d with
        | Some x => '(v, tail) ← read_chars rest; Some (String x v, tail)
        | None =>
          match d, rest with
          | "u"%char, String "0" (String "0" (String h (String l rest))) =>
            match hex_digit h, hex_digit l with
            | Some h, Some l =>
              if 16 * h + l <? 32
              then '(v, tail) ← read_chars rest; Some (String (ascii_of_N (Z.to_N (16 * h + l))) v, tail)
              else None
            | _, _ => None
            end
          | _, _ => None
          end
        end
      end
    else if code c <? 32 then None
    else '(v, tail) ← read_chars rest; Some (String c v, tail)
  end.

Definition read_string (s : string) : option (string * string) :=
  match s with
  | String c rest => if Ascii.eqb c quote then read_chars rest else None
  | EmptyString => None
  end.

(** The three strings of a text in the form [json_strings] writes. *)
Definition read_three (s : string) : option (string * string * string) :=
  match s with
  | String "[" s =>
    '(a, s) ← read_string s;
    match s with
    | String "," s =>
      '(b, s) ← read_string s;
      match s with
      | String "," s =>
        '(c, s) ← read_string s;
        match s with String "]" EmptyString => Some (a, b, c) | _ => None end
      | _ => None
      end
    | _ => None
    end
  | _ => None
  end.

(** [json.loads] of text in another form, when it is an array of three strings. *)
Class JsonReader : Type := loads_three_other : string -> option (string * string * string).

(** [json.loads(text)], a list of three strings; [None] for anything else. *)
Definition loads_three `{JsonReader} (text : string) : option (string * string * string) :=
  match read_three text with
  | Some v => Some v
  | None => loads_three_other text
  end.

(** ** The round trip *)

Lemma read_json_char c s :
  read_chars (json_char c +:+ s) = ('(v, tail) ← read_chars s; Some (String c v, tail)).
Proof. destruct c as [[] [] [] [] [] [] [] []]; reflexivity. Qed.

Lemma append_assoc (a b c : string) : ((a +:+ b) +:+ c)%string = (a +:+ b +:+ c)%string.
Proof. induction a as [|x a IH]; [done|]. rewrite !append_cons. by rewrite IH. Qed.

Lemma read_json_string s rest : read_string (json_string s +:+ rest) = Some (s, rest).
Proof.
  unfold json_string. rewrite append_cons. change (read_chars ((json_chars s +:+ String quote EmptyString) +:+ rest) = Some (s, rest)).
  rewrite append_assoc. induction s as [|c s IH]; [done|]. cbn [json_chars]. by rewrite append_assoc, read_json_char, IH.
Qed.

Lemma read_json_strings a b c : read_three (json_strings [a; b; c]) = Some (a, b, c).
Proof.
  unfold json_strings. cbn [map join]. rewrite !append_assoc, !append_cons, !append_nil.
  unfold read_three. rewrite read_json_string. cbn. rewrite read_json_string. cbn. by rewrite read_json_string.
Qed.

Lemma loads_json_strings `{JsonReader} a b c : loads_three (json_strings [a; b; c]) = Some (a, b, c).
Proof. unfold loads_three. by rewrite read_json_strings. Qed.
