(* ===== verification/Projection.v ===== *)
(** * The Redis session projection

    [RedisProjectionStore] of [trpc_service/storage/redis_projection.py]: its
    delimiter-safe key, the script that stores a projection only when it is newer, and
    the read that a stale projection does not satisfy.  The database keeps hashes and
    their time to live; it may drop a key at any time ([forget]).  Lua's comparison of
    two numerals and JSON are parameters. *)

From S2P Require Import Prelude Datetime PyText Base64.
From Stdlib Require Import Ascii.
#[local] Open Scope Z_scope.

(** [tonumber(a)] compared with [tonumber(b)]: doubles, or [None] when one of them is not
    a number. *)
Class Lua : Type := lua_compare : string -> string -> option comparison.

(** The nearest double is monotone in the number, and exact up to [2 ^ 53]. *)
Class LuaLaws (L : Lua) : Prop := {
  lua_lt : forall a b, lua_compare (pretty a) (pretty b) = Some Lt -> a < b;
  lua_gt : forall a b, lua_compare (pretty a) (pretty b) = Some Gt -> b < a;
  lua_number : forall a b : Z, is_Some (lua_compare (pretty a) (pretty b));
  lua_exact : forall a b, Z.abs a <= 2 ^ 53 -> Z.abs b <= 2 ^ 53 ->
    lua_compare (pretty a) (pretty b) = Some (a ?= b);
}.

(** [json.dumps(value, ...)] and [json.loads(text)]; [None] is a [JSONDecodeError]. *)
Class Json : Type := {
  json_dumps : pyval -> string;
  json_loads : string -> option pyval;
}.

Record RedisDb : Type := MkRedisDb {
  rd_hashes : gmap string (gmap string string);
  rd_ttl : gmap string Z;
}.

#[export] Instance RedisDb_settable : Settable RedisDb := fun r => MkRedisDb (rd_hashes r) (rd_ttl r).

(** [RedisProjectionStore.key]. *)
Definition projection_prefix : string := "trpc:projection:session:v2:".

Definition projection_key (tenant_id session_id : string) : string :=
  (projection_prefix +:+ b64 (str_bytes tenant_id) +:+ "." +:+ b64 (str_bytes session_id))%string.

(** ** Redis *)

Definition hget (key field : string) (db : RedisDb) : option string := rd_hashes db !! key ≫= lookup field.

Definition hset (key field value : string) (db : RedisDb) : RedisDb :=
  db <| rd_hashes := <[key := <[field := value]> (default ∅ (rd_hashes db !! key))]> (rd_hashes db) |>.

(** The key is gone: it expired or was evicted. *)
Definition forget (key : string) (db : RedisDb) : RedisDb :=
  MkRedisDb (delete key (rd_hashes db)) (delete key (rd_ttl db)).

(** [EXPIRE]: a time to live that is not positive deletes the key. *)
Definition expire (key : string) (ttl : Z) (db : RedisDb) : RedisDb :=
  if ttl <=? 0 then forget key db
  else if bool_decide (is_Some (rd_hashes db !! key)) then db <| rd_ttl := <[key := ttl]> (rd_ttl db) |>
  else db.

Section projection.
Context `{Lua} `{Json} `{UnicodeInt}.

Definition _PUT_LUA (key sequence payload : string) (ttl : Z) : M RedisDb Z :=
  let* current := gets (hget key "sequence") in
  match current with
  | None =>
    modify (fun db => expire key ttl (hset key "payload" payload (hset key "sequence" sequence db))) ;; ret 1
  | Some current =>
    match lua_compare current sequence with
    | None => raise (ResponseError "attempt to compare nil with number")
    | Some Gt => ret 0
    | Some Eq =>
      let* current_payload := gets (hget key "payload") in
      if bool_decide (current_payload = Some payload) then modify (expire key ttl) ;; ret 1 else ret 0
    | Some Lt =>
      modify (fun db => expire key ttl (hset key "payload" payload (hset key "sequence" sequence db))) ;; ret 1
    end
  end.

Definition put_session (ttl_seconds : Z) (tenant_id session_id : string) (sequence : Z) (value : pyval) : M RedisDb unit :=
  match py_str_int sequence with
  | None => raise (ValueError "Exceeds the limit (4300 digits) for integer string conversion")
  | Some text =>
    let* applied := _PUT_LUA (projection_key tenant_id session_id) text (json_dumps value) ttl_seconds in
    raise_if (negb (applied =? 1)) (ValueError "projection attempted to move backwards")
  end.

Definition get_session (tenant_id session_id : string) (minimum_sequence : Z) : M RedisDb (option pyval) :=
  let key := projection_key tenant_id session_id in
  let* sequence := gets (hget key "sequence") in
  let* payload := gets (hget key "payload") in
  match sequence, payload with
  | Some sequence, Some payload =>
    match py_int sequence with
    | None => raise (ValueError "invalid literal for int() with base 10")
    | Some sequence =>
      if sequence <? minimum_sequence then ret None
      else if negb (utf8_valid payload) then raise UnicodeDecodeError
      else
        match json_loads payload with
        | None => raise (ValueError "JSONDecodeError")
        | Some (PDict d) => ret (Some (PDict d))
        | Some _ => raise (ValueError "invalid Redis session projection")
        end
    end
  | _, _ => ret None
  end.
End projection.
