(* ===== verification/ProjectionThms.v ===== *)
(** * Theorems about the session projection

    A stored projection is only replaced by a newer one, whatever writers race; a read
    returns what was written last, or nothing when it is older than asked for; and the
    key of a session names its tenant and session, so no two sessions share one. *)

From S2P Require Import Prelude Datetime PyText Base64 Projection.
From Stdlib Require Import Ascii.
#[local] Open Scope Z_scope.

(** ** Keys *)

(** [text.partition(".")] of text with one dot. *)
Lemma dot_split a b a' b' :
  string_all (fun c => negb (Ascii.eqb c ".")) a = true -> string_all (fun c => negb (Ascii.eqb c ".")) a' = true ->
  (a +:+ "." +:+ b)%string = (a' +:+ "." +:+ b')%string -> a = a' /\ b = b'.
Proof.
  revert a'. induction a as [|c a IH]; intros [|c' a']; rewrite ?append_cons, ?append_nil; cbn [string_all].
  - intros _ _ [= ->]. done.
  - intros _ [Hc _]%andb_true_iff [= <- _]. by rewrite Ascii.eqb_refl in Hc.
  - intros [Hc _]%andb_true_iff _ [= -> _]. by rewrite Ascii.eqb_refl in Hc.
  - intros [_ Ha]%andb_true_iff [_ Ha']%andb_true_iff [= -> E]. by destruct (IH a' Ha Ha' E) as [-> ->].
Qed.

Lemma append_inj_l (p a b : string) : (p +:+ a)%string = (p +:+ b)%string -> a = b.
Proof. induction p as [|c p IH]; [done|]. rewrite !append_cons. intros [= E]. by apply IH. Qed.

Lemma b64_no_dot s : string_all (fun c => negb (Ascii.eqb c ".")) (b64 (str_bytes s)) = true.
Proof.
  apply b64_all; [|apply str_bytes_byte]. intros i Hi. destruct (b64_char_spec i Hi) as (_ & _ & _ & -> & _). done.
Qed.

Lemma str_b64_inj s s' : b64 (str_bytes s) = b64 (str_bytes s') -> s = s'.
Proof.
  intros E. apply b64_inj in E; [|apply str_bytes_byte..]. by rewrite <-(bytes_str_bytes s), E, bytes_str_bytes.
Qed.

Lemma projection_key_inj t s t' s' : projection_key t s = projection_key t' s' -> t = t' /\ s = s'.
Proof.
  unfold projection_key. intros E%append_inj_l. apply dot_split in E as [Et Es]; [|apply b64_no_dot..].
  by split; apply str_b64_inj.
Qed.

(** ** The script *)

Section projection.
Context `{HL : LuaLaws} `{Json} `{UnicodeInt}.

(** A hash that this store wrote: the sequence is a numeral. *)
Definition stored (key : string) (db : RedisDb) (n : Z) (payload : string) : Prop :=
  0 <= n /\ (exists text, py_str_int n = Some text /\ hget key "sequence" db = Some text) /\
  hget key "payload" db = Some payload.

(** Every projection of the database is one. *)
Definition db_ok (db : RedisDb) : Prop :=
  forall key, hget key "sequence" db = None \/ exists n payload, stored key db n payload.

Lemma str_int_pretty n text : py_str_int n = Some text -> text = pretty n.
Proof. unfold py_str_int. case_match; [|done]. by intros [= <-]. Qed.

Lemma hget_hset key field value db key' field' :
  hget key' field' (hset key field value db) =
  if decide (key' = key /\ field' = field) then Some value else hget key' field' db.
Proof.
  unfold hget, hset. cbn. rewrite lookup_insert. destruct (decide (key = key')) as [->|Hk]; cbn.
  - rewrite lookup_insert. case_decide as Hf; [subst; by rewrite decide_True|]. rewrite decide_False by naive_solver.
    by destruct (rd_hashes db !! key').
  - by rewrite decide_False by naive_solver.
Qed.

Lemma hget_expire key ttl db key' field : 0 < ttl -> hget key' field (expire key ttl db) = hget key' field db.
Proof. intros Ht. unfold expire. rewrite (proj2 (Z.leb_gt ttl 0)) by done. by case_match. Qed.

Lemma stored_same key db db' n payload :
  (forall field, hget key field db' = hget key field db) -> stored key db n payload -> stored key db' n payload.
Proof. intros E (Hn & (text & Ht & Hs) & Hp). split; [done|]. rewrite !E. eauto. Qed.

Lemma stored_fun key db n p n' p' : stored key db n p -> stored key db n' p' -> n = n' /\ p = p'.
Proof.
  intros (Hn & (x & Hx & Hs) & Hp) (Hn' & (x' & Hx' & Hs') & Hp'). split; [|congruence].
  rewrite Hs in Hs'. injection Hs' as <-. apply py_int_str in Hx, Hx'; [|done..]. congruence.
Qed.

Definition untouched (key : string) (db db' : RedisDb) : Prop := forall field, hget key field db' = hget key field db.

(** Two hashes of the same fields are both fine. *)
Lemma db_ok_change key db db' :
  db_ok db -> (forall key', key' <> key -> untouched key' db db') ->
  (untouched key db db' \/ exists n payload, stored key db' n payload) -> db_ok db'.
Proof.
  intros Hok Ho Hk key'. assert (Hu : untouched key' db db' -> hget key' "sequence" db' = None \/ exists n p, stored key' db' n p).
  { intros E. destruct (Hok key') as [Hn|(n & p & Hs)]; [left; by rewrite E|right; eauto using stored_same]. }
  destruct (decide (key' = key)) as [->|Hne]; [|auto]. destruct Hk as [E|?]; [auto|by right].
Qed.

Section put.
Context (key text payload : string) (n ttl : Z) (Httl : 0 < ttl) (Hn : 0 <= n) (Ht : py_str_int n = Some text).

Definition hput (db : RedisDb) : RedisDb :=
  expire key ttl (hset key "payload" payload (hset key "sequence" text db)).

Lemma hput_stored db : stored key (hput db) n payload.
Proof.
  unfold hput. split; [done|]. split; [exists text; split; [done|]|]; rewrite hget_expire, !hget_hset by done.
  - by rewrite decide_False, decide_True by naive_solver.
  - by rewrite decide_True.
Qed.

Lemma hput_other db key' : key' <> key -> untouched key' db (hput db).
Proof. intros Hne field. unfold hput. rewrite hget_expire, !hget_hset by done. by rewrite !decide_False by naive_solver. Qed.

(** What the script does: it changes no other hash, and this one only for a newer
    projection. *)
Lemma put_spec db e : db_ok db ->
  wp (_PUT_LUA key text payload ttl) (fun r db' _ =>
    (forall key', key' <> key -> untouched key' db db') /\
    ((untouched key db db' /\
       (r <> Ok 1 \/ exists m, stored key db' m payload /\ lua_compare (pretty m) (pretty n) = Some Eq)) \/
     (r = Ok 1 /\ stored key db' n payload /\ forall m p, stored key db m p -> m < n))) db e.
Proof.
  intros Hok. pose proof (str_int_pretty n text Ht) as Htext. unfold _PUT_LUA. apply wp_bind, wp_gets.
  destruct (hget key "sequence" db) as [current|] eqn:Hc.
  2:{ apply wp_bind, wp_modify, wp_ret. split; [apply hput_other|]. right. split; [done|]. split; [apply hput_stored|].
      intros m p (_ & (x & _ & Hx) & _). congruence. }
  destruct (Hok key) as [|(m & p & Hs)]; [congruence|]. pose proof Hs as (Hm & (x & Hx & Hx') & Hp).
  assert (current = pretty m) as -> by (apply str_int_pretty in Hx; congruence). rewrite Htext.
  destruct (lua_compare (pretty m) (pretty n)) as [[]|] eqn:Hcmp.
  - apply wp_bind, wp_gets. rewrite Hp. case_bool_decide as Hpp.
    + injection Hpp as ->. apply wp_bind, wp_modify, wp_ret.
      assert (Hu : forall key', untouched key' db (expire key ttl db)) by (intros key' f; by apply hget_expire).
      split; [auto|]. left. split; [auto|]. right. exists m. split; [exact (stored_same _ _ _ _ _ (Hu key) Hs)|done].
    + apply wp_ret. split; [done|]. left. split; [done|]. by left.
  - apply wp_bind, wp_modify, wp_ret. rewrite <-Htext. split; [apply hput_other|]. right. split; [done|]. split; [apply hput_stored|].
    intros m' p' Hs'. destruct (stored_fun _ _ _ _ _ _ Hs Hs') as [<- <-]. by apply lua_lt.
  - apply wp_ret. split; [done|]. left. split; [done|]. by left.
  - destruct (lua_number m n). congruence.
Qed.
End put.

(** [put_session] in terms of what it stored; a put that raised changed nothing. *)
Lemma put_session_spec ttl t s n v db e :
  0 < ttl -> 0 <= n -> db_ok db ->
  wp (put_session ttl t s n v) (fun r db' _ =>
    let key := projection_key t s in
    (forall key', key' <> key -> untouched key' db db') /\
    ((untouched key db db' /\
       (r <> Ok tt \/ exists m, stored key db' m (json_dumps v) /\ lua_compare (pretty m) (pretty n) = Some Eq)) \/
     (stored key db' n (json_dumps v) /\ forall m p, stored key db m p -> m < n))) db e.
Proof.
  intros Httl Hn Hok. unfold put_session. destruct (py_str_int n) as [text|] eqn:Ht.
  - apply wp_bind. eapply wp_mono; [by apply put_spec|]. intros [z|x] db' e' [Ho Hk].
    + apply wp_raise_if; intros Hz; bool_prop; subst; (split; [done|]); naive_solver.
    + split; [done|]. naive_solver.
  - apply wp_raise. split; [done|]. left. split; [done|]. by left.
Qed.

(** What writers and the server may do while the hash of [keep] is not dropped. *)
Inductive projection_step (keep : string) (db : RedisDb) : RedisDb -> Prop :=
  | step_put ttl t s n v e r db' e' :
      0 < ttl -> 0 <= n -> put_session ttl t s n v db e = (r, db', e') -> projection_step keep db db'
  | step_forget key : key <> keep -> projection_step keep db (forget key db).

Lemma hget_forget key key' field db :
  hget key' field (forget key db) = if decide (key = key') then None else hget key' field db.
Proof. unfold hget, forget. cbn. rewrite lookup_delete. by case_decide. Qed.

Lemma step_spec keep db db' :
  projection_step keep db db' -> db_ok db ->
  db_ok db' /\ (untouched keep db db' \/ exists n p, stored keep db' n p /\ forall m q, stored keep db m q -> m < n).
Proof.
  intros [ttl t s n v e r db1 e' Httl Hn E|key Hk] Hok.
  - pose proof (put_session_spec ttl t s n v db e Httl Hn Hok) as Hp. unfold wp in Hp. rewrite E in Hp. cbn in Hp.
    destruct Hp as [Ho Hk]. split.
    + eapply db_ok_change; [done|exact Ho|]. naive_solver.
    + destruct (decide (keep = projection_key t s)) as [->|Hne]; [naive_solver|]. left. by apply Ho.
  - assert (Hu : forall key', key' <> key -> untouched key' db (forget key db)).
    { intros key' Hne field. rewrite hget_forget. by rewrite decide_False. }
    split; [|left; by apply Hu]. intros key'. rewrite hget_forget. case_decide as Hd; [by left|].
    destruct (Hok key') as [?|(n & p & Hs)]; [by left|]. right. exists n, p. eapply stored_same; [|exact Hs].
    intros field. rewrite hget_forget. by rewrite decide_False.
Qed.

Lemma steps_spec keep db db' :
  rtc (projection_step keep) db db' -> db_ok db ->
  db_ok db' /\ forall n p, stored keep db n p -> exists n' p', stored keep db' n' p' /\ (n < n' \/ (n' = n /\ p' = p)).
Proof.
  induction 1 as [db|db db1 db' Hs _ IH]; [naive_solver|]. intros Hok. destruct (step_spec _ _ _ Hs Hok) as [Hok1 H1].
  destruct (IH Hok1) as [Hok' H2]. split; [done|]. intros n p Hst. destruct H1 as [Hu|(n1 & p1 & Hs1 & Hlt)].
  - apply H2. by eapply stored_same.
  - destruct (H2 n1 p1 Hs1) as (n' & p' & Hs' & Hc). exists n', p'. split; [done|]. left. specialize (Hlt n p Hst). lia.
Qed.

(** while the server does not drop it, the stored projection of a session only ever
    moves forward: after any sequence of puts by any writers, for any sessions and in any
    order, it is either the same projection or one of a strictly greater sequence. *)
Theorem projection_only_advances (t s : string) db db' n p :
  db_ok db -> rtc (projection_step (projection_key t s)) db db' -> stored (projection_key t s) db n p ->
  exists n' p', stored (projection_key t s) db' n' p' /\ (n < n' \/ (n' = n /\ p' = p)).
Proof. intros Hok Hs Hst. destruct (steps_spec _ _ _ Hs Hok) as [_ H2]. by apply H2. Qed.

(** a put of a projection that was accepted is what a read of that session returns,
    for every minimum up to its sequence, and a read that asks for more gets nothing;
    other sessions, of this and of other tenants, are not changed. *)
Theorem projection_read_your_write ttl (t s : string) n d db db' e e' e2 :
  db_ok db -> 0 < ttl -> 0 <= n <= 2 ^ 53 -> (forall m p, stored (projection_key t s) db m p -> m <= 2 ^ 53) ->
  utf8_valid (json_dumps (PDict d)) = true -> json_loads (json_dumps (PDict d)) = Some (PDict d) ->
  put_session ttl t s n (PDict d) db e = (Ok tt, db', e') ->
  (forall minimum, get_session t s minimum db' e2 = (Ok (if n <? minimum then None else Some (PDict d)), db', e2)) /\
  (forall t' s', (t', s') <> (t, s) -> forall minimum,
     (get_session t' s' minimum db' e2).1.1 = (get_session t' s' minimum db e2).1.1).
Proof.
  intros Hok Httl Hn Hm Hu Hj E. pose proof (put_session_spec ttl t s n (PDict d) db e Httl (proj1 Hn) Hok) as Hp.
  unfold wp in Hp. rewrite E in Hp. cbn in Hp. destruct Hp as [Ho Hk].
  assert (Hs : stored (projection_key t s) db' n (json_dumps (PDict d))).
  { destruct Hk as [[Hk [?|(m & Hs & Hc)]]|[Hs _]]; [done| |done].
    assert (Hm' : m <= 2 ^ 53) by (eapply Hm, stored_same; [|exact Hs]; intros f; by rewrite Hk).
    rewrite lua_exact in Hc by (destruct Hs; lia). injection Hc as Hc%Z.compare_eq. by subst. }
  split.
  - intros minimum. destruct Hs as (_ & (text & Ht & Hseq) & Hpay). unfold get_session, bind, gets, ret. cbn.
    rewrite Hseq, Hpay. apply py_int_str in Ht; [|lia]. rewrite Ht. destruct (n <? minimum); [done|]. rewrite Hu. cbn.
    by rewrite Hj.
  - intros t' s' Hne minimum.
    assert (Hu' : untouched (projection_key t' s') db db').
    { apply Ho. intros [-> ->]%projection_key_inj. done. }
    unfold get_session, bind, gets, ret. cbn. rewrite !Hu'. by repeat case_match.
Qed.
End projection.

(** ** A database *)

(** Exact comparison of decimal numerals. *)
Definition read_numeral (s : string) : option Z :=
  match s with
  | String "-" rest => Z.opp <$> (fst <$> int_digits 0 0 false rest)
  | _ => fst <$> int_digits 0 0 false s
  end.

#[local] Instance exact_lua : Lua := fun a b =>
  match read_numeral a, read_numeral b with
  | Some a, Some b => Some (a ?= b)
  | _, _ => None
  end.

Lemma read_numeral_pretty z : read_numeral (pretty z) = Some z.
Proof.
  assert (Hp : forall x, fst <$> int_digits 0 0 false (pretty_N_go (N.pos x) "") = Some (Z.pos x)).
  { intros x. destruct (int_digits_go (N.pos x) "" 0 false ltac:(done)) as [-> _]. done. }
  destruct z as [|x|x]; [done| |].
  - change (pretty (Z.pos x)) with (pretty_N_go (N.pos x) "").
    destruct (pretty_go_head (N.pos x) "" ltac:(done)) as (d & r & _ & Hhead). rewrite <-(Hp x), Hhead.
    by apply (digit_char_ind (fun c => read_numeral (String c r) = fst <$> int_digits 0 0 false (String c r))).
  - change (pretty (Z.neg x)) with (String "-" (pretty_N_go (N.pos x) "")). simpl. by rewrite Hp.
Qed.

#[local] Instance exact_lua_laws : LuaLaws exact_lua.
Proof.
  split; unfold lua_compare, exact_lua; intros a b; rewrite !read_numeral_pretty.
  - by intros [= ?%Z.compare_lt_iff].
  - by intros [= ?%Z.compare_gt_iff].
  - eauto.
  - done.
Qed.

#[local] Instance empty_json : Json := {|
  json_dumps := fun _ => "{}"%string;
  json_loads := fun _ => Some (PDict []);
|}.

#[local] Instance ascii_int : UnicodeInt := fun _ => None.

Definition one_put (n : Z) (db : RedisDb) : RedisDb :=
  (put_session 60 "t" "s" n (PDict []) db (Effects 0 0)).1.2.

Lemma one_put_stored : stored (projection_key "t" "s") (one_put 1 (MkRedisDb ∅ ∅)) 1 "{}".
Proof. split; [lia|]. split; [exists "1"%string|]; vm_compute; auto. Qed.

Lemma one_put_step n db : 0 <= n -> projection_step (projection_key "t" "s") db (one_put n db).
Proof.
  intros Hn. unfold one_put. destruct (put_session _ _ _ _ _ _ _) as [[r db'] e'] eqn:E.
  by eapply (step_put _ _ 60 "t" "s" n (PDict []) (Effects 0 0)).
Defined.

Lemma projection_only_advances_witness :
  exists n' p', stored (projection_key "t" "s") (one_put 2 (one_put 1 (MkRedisDb ∅ ∅))) n' p' /\
    (1 < n' \/ (n' = 1 /\ p' = "{}"%string)).
Proof.
  apply (projection_only_advances "t" "s" (one_put 1 (MkRedisDb ∅ ∅))); [| |exact one_put_stored].
  - refine (proj1 (step_spec _ _ _ (one_put_step 1 _ _) _)); [lia|]. intros key. by left.
  - apply rtc_once, one_put_step. lia.
Defined.

Lemma projection_read_your_write_witness :
  get_session "t" "s" 1 (one_put 1 (MkRedisDb ∅ ∅)) (Effects 0 0)
  = (Ok (Some (PDict [])), one_put 1 (MkRedisDb ∅ ∅), Effects 0 0).
Proof.
  refine (proj1 (projection_read_your_write 60 "t" "s" 1 [] (MkRedisDb ∅ ∅) _ (Effects 0 0) (Effects 0 0) (Effects 0 0)
    _ _ _ _ _ _ _) 1); try done.
  - intros key. by left.
  - intros m p (_ & (x & _ & Hx) & _). by vm_compute in Hx.
Defined.
