(* ===== verification/MigrationGuard.v ===== *)
(** * The migration guard

    [PostgresMigrationGuard] of [trpc_service/storage/migration.py]: the manifest that
    fixes the scope of a tenant's migration, the lease that fences the process
    running it, and the write barrier that keeps everybody else out of the target
    tables.  Every method is one transaction under the tenant's advisory lock;
    [now()] is the time the transaction started, so a transaction that waited for
    the lock may read an earlier time than the one before it: nothing is assumed of
    the order of clock readings.  The trigger function
    [migration_write_barrier_guard] of migration 0013 is part of the model.
    Row-level security is not. *)

From S2P Require Import Prelude PyText.
#[local] Open Scope Z_scope.

(** ** Records *)

Inductive MigrationSourceKind : Type := REDIS | LOCAL_VECTOR | EXTERNAL_VECTOR | EXTERNAL_MEMORY.

#[export] Instance MigrationSourceKind_eq_dec : EqDecision MigrationSourceKind.
Proof. solve_decision. Defined.

Definition _MIGRATION_RECORD_KINDS : list string :=
  ["session"; "memory"; "summary"; "artifact"; "knowledge"]%string.
Definition CANONICAL_REDIS_MIGRATION_KINDS : list string := ["session"; "memory"]%string.
Definition MAX_MIGRATION_EXPECTED_RECORDS : Z := 1000000.

Definition str_in (x : string) (l : list string) : bool := bool_decide (x ∈ l).

(** [canonical_migration_kinds]: the order of the kinds never depends on the caller. *)
Definition canonical_migration_kinds (kinds : list string) : outcome (list string) :=
  if bool_decide (kinds = []) || existsb str_empty kinds
  then Raise (ValueError "migration kinds must contain at least one non-empty string")
  else if negb (bool_decide (NoDup kinds)) then Raise (ValueError "migration kinds must be unique")
  else
    let unsupported := List.filter (fun k => negb (str_in k _MIGRATION_RECORD_KINDS)) kinds in
    if negb (bool_decide (unsupported = []))
    then Raise (ValueError ("migration manifest contains unsupported kinds: "
                            +:+ join ", " (py_sorted unsupported)))
    else if forallb (fun k => str_in k CANONICAL_REDIS_MIGRATION_KINDS) kinds
            && forallb (fun k => str_in k kinds) CANONICAL_REDIS_MIGRATION_KINDS
    then Ok CANONICAL_REDIS_MIGRATION_KINDS
    else Ok (py_sorted kinds).

Record MigrationScopeManifest : Type := MkManifest {
  mf_tenant_id : string;
  mf_migration_id : string;
  mf_source_kind : MigrationSourceKind;
  mf_kinds : list string;
  mf_source_snapshot_id : string;
  mf_source_count : Z;
  mf_source_checksum : string;
  mf_app_id : string;
  mf_app_revision : Z;
  mf_config_version : Z;
  mf_binding_id : string;
  mf_binding_revision : Z;
}.

#[export] Instance MigrationScopeManifest_eq_dec : EqDecision MigrationScopeManifest.
Proof. solve_decision. Defined.

(** [Field(min_length=1, max_length=256)]. *)
Definition short_text (s : string) : bool := (1 <=? char_len s) && (char_len s <=? 256).

(** [Field(pattern=r"^[0-9a-f]{64}$")]. *)
Definition sha256_hex (s : string) : bool :=
  Nat.eqb (String.length s) 64 && string_all (fun c => byte_in 48 57 c || byte_in 97 102 c) s.

(** Validation of the model, [_validate_kinds] included. *)
Definition make_manifest (m : MigrationScopeManifest) : outcome MigrationScopeManifest :=
  match canonical_migration_kinds (mf_kinds m) with
  | Raise _ => Raise (ValidationError "MigrationScopeManifest")
  | Ok kinds =>
    if forallb short_text [mf_tenant_id m; mf_migration_id m; mf_source_snapshot_id m; mf_app_id m; mf_binding_id m]
       && Nat.leb (length (mf_kinds m)) (length _MIGRATION_RECORD_KINDS)
       && (0 <=? mf_source_count m) && (mf_source_count m <=? MAX_MIGRATION_EXPECTED_RECORDS)
       && sha256_hex (mf_source_checksum m)
       && (1 <=? mf_app_revision m) && (1 <=? mf_config_version m) && (1 <=? mf_binding_revision m)
    then Ok (MkManifest (mf_tenant_id m) (mf_migration_id m) (mf_source_kind m) kinds
               (mf_source_snapshot_id m) (mf_source_count m) (mf_source_checksum m) (mf_app_id m)
               (mf_app_revision m) (mf_config_version m) (mf_binding_id m) (mf_binding_revision m))
    else Raise (ValidationError "MigrationScopeManifest")
  end.

Record MigrationLease : Type := MkMigrationLease {
  le_tenant_id : string;
  le_migration_id : string;
  le_owner_id : string;
  le_owner_instance : string;
  le_lease_epoch : Z;
  le_expires_at : Z;
}.

#[export] Instance MigrationLease_eq_dec : EqDecision MigrationLease.
Proof. solve_decision. Defined.

(** ** Tables *)

(** A row of [migration_leases]; tenant and migration are its key. *)
Record LeaseRow : Type := MkLeaseRow {
  lr_owner_id : string;
  lr_owner_instance : string;
  lr_lease_epoch : Z;
  lr_expires_at : Z;
}.

(** A row of [migration_write_barriers]; the tenant is its key. *)
Record Barrier : Type := MkBarrier {
  b_migration_id : string;
  b_owner_instance : string;
  b_lease_epoch : Z;
  b_active : bool;
}.

(** [gd_rows]: how many rows of a tenant each of the other guarded tables has. *)
Record GuardDb : Type := MkGuardDb {
  gd_tenants : gset string;
  gd_manifests : gmap (string * string) MigrationScopeManifest;
  gd_leases : gmap (string * string) LeaseRow;
  gd_barriers : gmap string Barrier;
  gd_rows : gmap (string * string) nat;
}.

#[export] Instance GuardDb_settable : Settable GuardDb := fun r =>
  MkGuardDb (gd_tenants r) (gd_manifests r) (gd_leases r) (gd_barriers r) (gd_rows r).

Definition guard_empty (tenants : gset string) : GuardDb := MkGuardDb tenants ∅ ∅ ∅ ∅.

(** [_TARGET_EMPTY_TABLES]. *)
Definition _TARGET_EMPTY_TABLES : list string :=
  ["inbound_messages"; "outbound_messages"; "delivery_attempts"; "sessions"; "session_turns";
   "turn_intents"; "session_events"; "memories"; "session_summaries"; "artifacts"; "knowledge_items";
   "knowledge_embeddings"; "outbox_events"; "dead_letters"; "tool_executions"; "confirmation_challenges";
   "audit_logs"; "session_mailboxes"; "session_mailbox_items"; "wecom_connection_state";
   "im_acceptance_evidence_events"; "im_acceptance_runs"; "migration_checkpoints";
   "migration_scope_manifests"; "migration_leases"]%string.

(** [_BARRIER_TABLES] of migration 0013: the tables whose writes the trigger checks. *)
Definition _BARRIER_TABLES : list string :=
  ["inbound_messages"; "outbound_messages"; "delivery_attempts"; "sessions"; "session_turns";
   "turn_intents"; "session_events"; "session_summaries"; "memories"; "artifacts"; "knowledge_items";
   "knowledge_embeddings"; "outbox_events"; "dead_letters"; "tool_executions"; "confirmation_challenges";
   "audit_logs"; "session_mailboxes"; "session_mailbox_items"]%string.

(** The rows of a tenant in a map keyed by tenant and migration. *)
Definition rows_of {A} (tenant_id : string) (m : gmap (string * string) A) : nat :=
  length (List.filter (fun kv => bool_decide (kv.1.1 = tenant_id)) (map_to_list m)).

(** [SELECT count( * ) FROM table WHERE tenant_id=$1]. *)
Definition count_table (tenant_id : string) (db : GuardDb) (table : string) : Z :=
  if bool_decide (table = "migration_scope_manifests"%string) then Z.of_nat (rows_of tenant_id (gd_manifests db))
  else if bool_decide (table = "migration_leases"%string) then Z.of_nat (rows_of tenant_id (gd_leases db))
  else Z.of_nat (default 0%nat (gd_rows db !! (tenant_id, table))).

Record TargetEmptyPreflight : Type := MkPreflight {
  tp_tenant_id : string;
  tp_checked_tables : list string;
  tp_table_counts : list (string * Z);
  tp_non_empty_tables : list string;
}.

(** [_validate_lease_for] and [_validate_identifier]. *)
Definition guard_validate_lease_for (max_lease_for lease_for : Z) : M GuardDb unit :=
  raise_if ((lease_for <=? 0) || (max_lease_for <? lease_for))
    (ValueError "migration lease duration exceeds the configured safety bound").

Definition _validate_identifier (value label : string) : M GuardDb unit :=
  raise_if (str_empty value || (256 <? char_len value)) (ValueError (label +:+ " must be 1-256 characters")).

(** [__init__]: the longest lease, in microseconds. *)
Definition make_guard (max_lease_for : Z) : outcome Z :=
  if (max_lease_for <=? 0) || (3600 * 1000000 <? max_lease_for)
  then Raise (ValueError "migration guard max lease must be between 0 and 1 hour")
  else Ok max_lease_for.

Section guard.
Context `{Env}.

(** A transaction, with the time it started. *)
Definition guard_transaction {A} (body : Z -> M GuardDb A) : M GuardDb A :=
  let* now := datetime_now in
  rollback (body now).

Definition lease_key (lease : MigrationLease) : string * string := (le_tenant_id lease, le_migration_id lease).

Definition _lease_from_row (key : string * string) (row : LeaseRow) : M GuardDb MigrationLease :=
  raise_if (negb (forallb short_text [key.1; key.2; lr_owner_id row; lr_owner_instance row])
            || (lr_lease_epoch row <? 1)) (ValidationError "MigrationLease") ;;
  ret (MkMigrationLease key.1 key.2 (lr_owner_id row) (lr_owner_instance row) (lr_lease_epoch row)
         (lr_expires_at row)).

(** The row of the lease, when it is current and not expired. *)
Definition row_owned (lease : MigrationLease) (row : LeaseRow) (now : Z) : bool :=
  bool_decide (lr_owner_id row = le_owner_id lease)
  && bool_decide (lr_owner_instance row = le_owner_instance lease)
  && (lr_lease_epoch row =? le_lease_epoch lease) && (now <? lr_expires_at row).

(** The barrier names this lease. *)
Definition barrier_matches (lease : MigrationLease) (b : Barrier) : bool :=
  bool_decide (b_migration_id b = le_migration_id lease)
  && bool_decide (b_owner_instance b = le_owner_instance lease)
  && (b_lease_epoch b =? le_lease_epoch lease) && b_active b.

(** Both: the condition of every fenced statement. *)
Definition lease_active (db : GuardDb) (lease : MigrationLease) (now : Z) : bool :=
  match gd_leases db !! lease_key lease, gd_barriers db !! le_tenant_id lease with
  | Some row, Some b => row_owned lease row now && barrier_matches lease b
  | _, _ => false
  end.

(** ** Acquiring *)

Definition _ensure_manifest (manifest : MigrationScopeManifest) : M GuardDb unit :=
  let key := (mf_tenant_id manifest, mf_migration_id manifest) in
  let* tenants := gets gd_tenants in
  let* existing := gets (fun db => gd_manifests db !! key) in
  raise_if (negb (bool_decide (is_Some existing)) && bool_decide (mf_tenant_id manifest ∉ tenants))
    (IntegrityError "migration_scope_manifests_tenant_id_fkey") ;;
  modify (fun db => match gd_manifests db !! key with
                    | Some _ => db
                    | None => db <| gd_manifests := <[key := manifest]> (gd_manifests db) |>
                    end) ;;
  let* row := gets (fun db => gd_manifests db !! key) in
  match row with
  | None => raise (MigrationGuardError "migration manifest was not persisted")
  | Some row =>
    match make_manifest row with
    | Raise x => raise x
    | Ok stored =>
      raise_if (negb (bool_decide (stored = manifest)))
        (MigrationManifestConflict "migration manifest is immutable and does not match the stored scope")
    end
  end.

(** Some lease of the tenant is active. *)
Definition active_lease (tenant_id : string) (now : Z) (db : GuardDb) : bool :=
  existsb (fun kv => bool_decide (kv.1.1 = tenant_id) && (now <? lr_expires_at kv.2))
    (map_to_list (gd_leases db)).

Definition _acquire_locked (manifest : MigrationScopeManifest) (owner_id owner_instance : string)
    (lease_for now : Z) : M GuardDb MigrationLease :=
  let key := (mf_tenant_id manifest, mf_migration_id manifest) in
  let* current := gets (active_lease (mf_tenant_id manifest) now) in
  raise_if current
    (MigrationLeaseConflict ("tenant " +:+ mf_tenant_id manifest +:+ " already has an active migration lease")) ;;
  let* row := gets (fun db => gd_leases db !! key) in
  let epoch :=
    match row with
    | None => Some 1
    | Some row => if lr_expires_at row <=? now then Some (lr_lease_epoch row + 1) else None
    end in
  match epoch with
  | None => raise (MigrationLeaseConflict "migration lease CAS did not win")
  | Some epoch =>
    let row := MkLeaseRow owner_id owner_instance epoch (now + lease_for) in
    modify (fun db => db <| gd_leases := <[key := row]> (gd_leases db) |>) ;;
    _lease_from_row key row
  end.

Definition _ensure_write_barrier (lease : MigrationLease) (create : bool) : M GuardDb unit :=
  let* row := gets (fun db => gd_barriers db !! le_tenant_id lease) in
  raise_if (negb create && negb (bool_decide (is_Some row))) (MigrationLeaseLost "migration write barrier is missing") ;;
  modify (fun db => db <| gd_barriers := <[le_tenant_id lease :=
    MkBarrier (le_migration_id lease) (le_owner_instance lease) (le_lease_epoch lease) true]> (gd_barriers db) |>).

Definition acquire (max_lease_for : Z) (manifest : MigrationScopeManifest) (owner_id : string) (lease_for : Z)
    : M GuardDb MigrationLease :=
  guard_validate_lease_for max_lease_for lease_for ;;
  _validate_identifier owner_id "migration lease owner" ;;
  let* owner_instance := uuid4 in
  guard_transaction (fun now =>
    _ensure_manifest manifest ;;
    let* lease := _acquire_locked manifest owner_id owner_instance lease_for now in
    _ensure_write_barrier lease false ;;
    ret lease).

Definition tables_in_both (names : list string) : list string * list string * list string :=
  (List.filter (fun t => negb (str_in t names)) _TARGET_EMPTY_TABLES,
   List.filter (fun t => negb (str_in t _TARGET_EMPTY_TABLES)) names,
   List.filter (fun t => Nat.ltb 1 (length (List.filter (fun u => bool_decide (u = t)) names))) names).

(** The tables the query names, in its order. *)
Definition preflight_query (tenant_id : string) (db : GuardDb) : list (string * Z) :=
  map (fun t => (t, count_table tenant_id db t)) (py_sorted _TARGET_EMPTY_TABLES).

Definition count_of (table : string) (counts : list (string * Z)) : Z :=
  match List.find (fun kv => bool_decide (kv.1 = table)) counts with
  | Some kv => kv.2
  | None => 0
  end.

Definition _target_empty_preflight (tenant_id : string) : M GuardDb TargetEmptyPreflight :=
  let* count_rows := gets (preflight_query tenant_id) in
  let '(missing, unexpected, duplicates) := tables_in_both (map fst count_rows) in
  raise_if (negb (bool_decide (missing = [])) || negb (bool_decide (unexpected = []))
            || negb (bool_decide (duplicates = [])))
    (MigrationGuardError "target empty preflight did not return the exact guarded table set") ;;
  let non_empty := List.filter (fun t => 0 <? count_of t count_rows) _TARGET_EMPTY_TABLES in
  raise_if (negb (bool_decide (non_empty = [])))
    (MigrationTargetNotEmpty ("target tenant is not empty: " +:+ join ", " non_empty)) ;;
  ret (MkPreflight tenant_id _TARGET_EMPTY_TABLES
         (map (fun t => (t, count_of t count_rows)) _TARGET_EMPTY_TABLES) non_empty).

Definition acquire_with_target_preflight (max_lease_for : Z) (manifest : MigrationScopeManifest)
    (owner_id : string) (lease_for : Z) : M GuardDb (MigrationLease * TargetEmptyPreflight) :=
  guard_validate_lease_for max_lease_for lease_for ;;
  _validate_identifier owner_id "migration lease owner" ;;
  let* owner_instance := uuid4 in
  guard_transaction (fun now =>
    let* preflight := _target_empty_preflight (mf_tenant_id manifest) in
    _ensure_manifest manifest ;;
    let* lease := _acquire_locked manifest owner_id owner_instance lease_for now in
    _ensure_write_barrier lease true ;;
    ret (lease, preflight)).

Definition preflight_target_empty (tenant_id : string) : M GuardDb TargetEmptyPreflight :=
  _validate_identifier tenant_id "tenant id" ;;
  guard_transaction (fun _ => _target_empty_preflight tenant_id).

Definition load_manifest (tenant_id migration_id : string) : M GuardDb (option MigrationScopeManifest) :=
  _validate_identifier tenant_id "tenant id" ;;
  _validate_identifier migration_id "migration id" ;;
  let* row := guard_transaction (fun _ => gets (fun db => gd_manifests db !! (tenant_id, migration_id))) in
  match row with
  | None => ret None
  | Some row => match make_manifest row with Ok m => ret (Some m) | Raise x => raise x end
  end.

(** ** Fenced operations *)

Definition lost : exn := MigrationLeaseLost "migration lease is stale or expired".

Definition renew (max_lease_for : Z) (lease : MigrationLease) (lease_for : Z) : M GuardDb MigrationLease :=
  guard_validate_lease_for max_lease_for lease_for ;;
  guard_transaction (fun now =>
    let* active := gets (fun db => lease_active db lease now) in
    let* row := gets (fun db => gd_leases db !! lease_key lease) in
    match row with
    | Some row =>
      raise_if (negb active) lost ;;
      let row := MkLeaseRow (lr_owner_id row) (lr_owner_instance row) (lr_lease_epoch row)
                   (Z.max (lr_expires_at row + 1) (now + lease_for)) in
      modify (fun db => db <| gd_leases := <[lease_key lease := row]> (gd_leases db) |>) ;;
      _lease_from_row (lease_key lease) row
    | None => raise lost
    end).

(** The barrier is released first, then the lease; the second failure undoes the
    first write. *)
Definition release (lease : MigrationLease) : M GuardDb bool :=
  guard_transaction (fun now =>
    let* barrier := gets (fun db => gd_barriers db !! le_tenant_id lease) in
    match barrier with
    | Some b =>
      raise_if (negb (barrier_matches lease b)) (MigrationLeaseLost "migration write barrier is stale or missing") ;;
      modify (fun db => db <| gd_barriers := <[le_tenant_id lease :=
        MkBarrier (b_migration_id b) (b_owner_instance b) (b_lease_epoch b) false]> (gd_barriers db) |>) ;;
      let* row := gets (fun db => gd_leases db !! lease_key lease) in
      match row with
      | Some row =>
        raise_if (negb (row_owned lease row now)) lost ;;
        modify (fun db => db <| gd_leases := <[lease_key lease :=
          MkLeaseRow (lr_owner_id row) (lr_owner_instance row) (lr_lease_epoch row) now]> (gd_leases db) |>) ;;
        ret true
      | None => raise lost
      end
    | None => raise (MigrationLeaseLost "migration write barrier is stale or missing")
    end).

Definition assert_active (lease : MigrationLease) : M GuardDb unit :=
  let* active := guard_transaction (fun now => gets (fun db => lease_active db lease now)) in
  raise_if (negb active) lost.

(** ** The write barrier *)

(** The session settings a migration transaction carries. *)
Record Fence : Type := MkFence {
  fe_migration_id : string;
  fe_owner_instance : string;
  fe_lease_epoch : Z;
}.

(** [migration_write_barrier_guard]: a write is let through unless the tenant has an
    active barrier that the settings of the transaction do not name. *)
Definition barrier_admits (db : GuardDb) (tenant_id : string) (fence : option Fence) : bool :=
  match gd_barriers db !! tenant_id with
  | Some b =>
    if b_active b then
      match fence with
      | Some f => bool_decide (fe_migration_id f = b_migration_id b)
                  && bool_decide (fe_owner_instance f = b_owner_instance b)
                  && (fe_lease_epoch f =? b_lease_epoch b)
      | None => false
      end
    else true
  | None => true
  end.

(** A statement of the rest of the service that inserts a row of [tenant_id]. *)
Definition target_insert (tenant_id table : string) (fence : option Fence) : M GuardDb unit :=
  let* admitted := gets (fun db => barrier_admits db tenant_id fence) in
  raise_if (str_in table _BARRIER_TABLES && negb admitted)
    (PostgresError "tenant is protected by an active migration write barrier") ;;
  modify (fun db => db <| gd_rows :=
    <[(tenant_id, table) := S (default 0%nat (gd_rows db !! (tenant_id, table)))]> (gd_rows db) |>).

(** [_tenant_transaction] of [PostgresMigrationTarget]: the fence of every target
    transaction of a bound lease, checked against the current time. *)
Definition target_transaction {A} (lease : option MigrationLease) (require_barrier : bool)
    (body : option Fence -> M GuardDb A) : M GuardDb A :=
  rollback (
    match lease with
    | Some lease =>
      let* now := datetime_now in
      let* active := gets (fun db => lease_active db lease now) in
      raise_if (negb active) (MigrationLeaseLost "migration lease or write barrier is stale or missing") ;;
      body (Some (MkFence (le_migration_id lease) (le_owner_instance lease) (le_lease_epoch lease)))
    | None =>
      raise_if require_barrier (MigrationLeaseLost "migration write barrier requires a bound lease") ;;
      body None
    end).

Definition release_write_barrier (lease : option MigrationLease) : M GuardDb unit :=
  match lease with
  | None => ret tt
  | Some l =>
    target_transaction lease true (fun _ =>
      let* barrier := gets (fun db => gd_barriers db !! le_tenant_id l) in
      match barrier with
      | Some b =>
        raise_if (negb (barrier_matches l b)) (MigrationLeaseLost "migration write barrier is stale or missing") ;;
        modify (fun db => db <| gd_barriers := <[le_tenant_id l :=
          MkBarrier (b_migration_id b) (b_owner_instance b) (b_lease_epoch b) false]> (gd_barriers db) |>)
      | None => raise (MigrationLeaseLost "migration write barrier is stale or missing")
      end)
  end.

(** [bind_migration_lease]: renewing may change the expiry and nothing else. *)
Definition bind_migration_lease (manifest : option MigrationScopeManifest) (bound : option MigrationLease)
    (lease : MigrationLease) : outcome MigrationLease :=
  let outside :=
    match manifest with
    | Some m => negb (bool_decide (mf_tenant_id m = le_tenant_id lease))
                || negb (bool_decide (mf_migration_id m = le_migration_id lease))
    | None => false
    end in
  let moved :=
    match bound with
    | Some b => negb (bool_decide (le_tenant_id b = le_tenant_id lease))
                || negb (bool_decide (le_migration_id b = le_migration_id lease))
                || negb (bool_decide (le_owner_id b = le_owner_id lease))
                || negb (bool_decide (le_owner_instance b = le_owner_instance lease))
                || negb (le_lease_epoch b =? le_lease_epoch lease)
    | None => false
    end in
  if outside then Raise (MigrationManifestConflict "migration target lease is outside the manifest scope")
  else if moved then Raise (MigrationManifestConflict "migration target lease cannot change owner or epoch")
  else Ok lease.
End guard.
