(* ===== verification/MigrationGuardThms.v ===== *)
(** * Theorems about the migration guard

    A lease that was superseded can never act again, whatever the clocks say; the
    barrier of a migration keeps every other writer out of the target from the
    moment the target was seen empty; and the scope of a migration does not depend
    on how the caller spelled it. *)

From S2P Require Import Prelude PyText MigrationGuard.
#[local] Open Scope Z_scope.

(** ** Calls *)

Inductive gcall : Type :=
  | GAcquire (max_lease_for : Z) (manifest : MigrationScopeManifest) (owner_id : string) (lease_for : Z)
  | GAcquirePreflight (max_lease_for : Z) (manifest : MigrationScopeManifest) (owner_id : string) (lease_for : Z)
  | GRenew (max_lease_for : Z) (lease : MigrationLease) (lease_for : Z)
  | GRelease (lease : MigrationLease)
  | GAssert (lease : MigrationLease)
  | GReleaseBarrier (lease : MigrationLease)
  | GInsert (tenant_id table : string) (fence : option Fence).

Ltac wp_hook ::=
  lazymatch goal with
  | |- wp (guard_transaction _) _ _ _ => unfold guard_transaction
  | |- wp (target_transaction _ _ _) _ _ _ => unfold target_transaction
  | |- wp (guard_validate_lease_for _ _) _ _ _ => unfold guard_validate_lease_for
  | |- wp (_validate_identifier _ _) _ _ _ => unfold _validate_identifier
  | |- wp (_lease_from_row _ _) _ _ _ => unfold _lease_from_row
  | |- wp (_target_empty_preflight _) _ _ _ => unfold _target_empty_preflight
  | |- wp (_ensure_manifest _) _ _ _ => unfold _ensure_manifest
  | |- wp (_acquire_locked _ _ _ _ _) _ _ _ => unfold _acquire_locked
  | |- wp (_ensure_write_barrier _ _) _ _ _ => unfold _ensure_write_barrier
  end.

Section runs.
Context `{Env}.

Definition gexec (c : gcall) : M GuardDb unit :=
  match c with
  | GAcquire mx m o lf => acquire mx m o lf ;; ret tt
  | GAcquirePreflight mx m o lf => acquire_with_target_preflight mx m o lf ;; ret tt
  | GRenew mx l lf => renew mx l lf ;; ret tt
  | GRelease l => release l ;; ret tt
  | GAssert l => assert_active l
  | GReleaseBarrier l => release_write_barrier (Some l)
  | GInsert t table f => target_insert t table f
  end.

Inductive gstep (ok : gcall -> Prop) : GuardDb * effects -> GuardDb * effects -> Prop :=
  | gstep_call c s e r s' e' : ok c -> gexec c s e = (r, s', e') -> gstep ok (s, e) (s', e').

Definition any (c : gcall) : Prop := True.

(** ** What a call writes *)

(** The lease rows only move forward, a new barrier names the lease row it was
    written with, and manifests stay. *)
Record forward (db db' : GuardDb) : Prop := {
  fw_lease key row : gd_leases db !! key = Some row ->
    exists row', gd_leases db' !! key = Some row' /\ lr_lease_epoch row <= lr_lease_epoch row';
  fw_barrier t b' : gd_barriers db' !! t = Some b' ->
    (exists b, gd_barriers db !! t = Some b /\ b_migration_id b' = b_migration_id b) \/
    (exists row', gd_leases db' !! (t, b_migration_id b') = Some row' /\
       forall row, gd_leases db !! (t, b_migration_id b') = Some row -> lr_lease_epoch row < lr_lease_epoch row');
  fw_barrier_stays t b : gd_barriers db !! t = Some b -> is_Some (gd_barriers db' !! t);
  fw_manifest key m : gd_manifests db !! key = Some m -> gd_manifests db' !! key = Some m;
}.

Lemma forward_refl db : forward db db.
Proof. split; [eauto with lia| |eauto|done]. intros t b' Hb. left. eauto. Qed.

Definition keeps_forward {A} (m : M GuardDb A) : Prop :=
  forall s e, wp m (fun r s' _ => match r with Ok _ => forward s s' | Raise _ => s' = s end) s e.

(** A granted lease: the manifest and the lease row were written, then the barrier. *)
Record granted (m : MigrationScopeManifest) (now lf : Z) (lease : MigrationLease) (db db' : GuardDb) : Prop := {
  gr_key : lease_key lease = (mf_tenant_id m, mf_migration_id m);
  gr_idle : active_lease (mf_tenant_id m) now db = false;
  gr_manifest : gd_manifests db' = match gd_manifests db !! lease_key lease with
                                   | Some _ => gd_manifests db
                                   | None => <[lease_key lease := m]> (gd_manifests db)
                                   end;
  gr_scope : exists row, gd_manifests db' !! lease_key lease = Some row /\ make_manifest row = Ok m;
  gr_leases : gd_leases db' = <[lease_key lease := MkLeaseRow (le_owner_id lease) (le_owner_instance lease)
    (le_lease_epoch lease) (le_expires_at lease)]> (gd_leases db);
  gr_epoch : le_lease_epoch lease = match gd_leases db !! lease_key lease with
                                    | Some row => lr_lease_epoch row + 1 | None => 1 end;
  gr_expires : le_expires_at lease = now + lf;
  gr_barrier : gd_barriers db' = <[le_tenant_id lease := MkBarrier (le_migration_id lease)
    (le_owner_instance lease) (le_lease_epoch lease) true]> (gd_barriers db);
  gr_rows : gd_rows db' = gd_rows db;
}.

Ltac solve_granted s m :=
  let Hm := fresh "Hm" in let Hl := fresh "Hl" in
  destruct (gd_manifests s !! (mf_tenant_id m, mf_migration_id m)) eqn:Hm; simpl in *;
  destruct (gd_leases s !! (mf_tenant_id m, mf_migration_id m)) eqn:Hl; repeat case_match; simplify_eq;
  (split; unfold lease_key; simpl; rewrite ?Hm, ?Hl; try done);
  rewrite ?lookup_insert_eq in *; simplify_eq; try (eexists; split; [reflexivity|]; done).

(** The transaction both methods share. *)
Lemma grant_body {A} (f : MigrationLease -> A) m o inst lf now create s e :
  wp (_ensure_manifest m ;;
      let* lease := _acquire_locked m o inst lf now in
      _ensure_write_barrier lease create ;; ret (f lease)) (fun r s' _ => match r with
    | Ok a => exists lease, a = f lease /\ granted m now lf lease s s' | Raise _ => True end) s e.
Proof. wp_steps; try done; bool_prop. eexists. split; [done|]. solve_granted s m. Qed.

Lemma acquire_grants mx m o lf s e :
  wp (acquire mx m o lf) (fun r s' _ => match r with
    | Ok lease => granted m (clock_at (ticks e)) lf lease s s' | Raise _ => s' = s end) s e.
Proof.
  unfold acquire, guard_validate_lease_for, _validate_identifier, guard_transaction.
  apply wp_bind, wp_raise_if; intros _; [done|]. apply wp_bind, wp_raise_if; intros _; [done|].
  apply wp_bind, wp_uuid4, wp_bind, wp_datetime_now, wp_rollback. eapply wp_mono; [apply (grant_body id)|].
  intros [a|x] s' e'; [|done]. by intros (lease & -> & Hg).
Qed.

Lemma count_of_map (g : string -> Z) t l : t ∈ l -> count_of t (map (fun u => (u, g u)) l) = g t.
Proof.
  unfold count_of. induction l as [|u l IH]; [intros Hi; by apply elem_of_nil in Hi|].
  intros Hi. cbn [map List.find fst]. destruct (decide (u = t)) as [->|Hne].
  - by rewrite bool_decide_eq_true_2.
  - rewrite bool_decide_eq_false_2 by done. apply IH. by apply elem_of_cons in Hi as [->|].
Qed.

Lemma count_table_nonneg t s table : 0 <= count_table t s table.
Proof. unfold count_table. repeat case_match; lia. Qed.

Lemma filter_empty {A} (f : A -> bool) l x : List.filter f l = [] -> x ∈ l -> f x = false.
Proof.
  intros Hf Hx. apply not_true_iff_false. intros Ht. apply (in_nil (a := x)). rewrite <-Hf.
  apply filter_In. split; [by apply list_elem_of_In|done].
Qed.

(** The preflight only reads, and passes when every guarded table is empty. *)
Lemma preflight_reads t s e :
  wp (_target_empty_preflight t) (fun r s' e' => s' = s /\ e' = e /\
    (forall p, r = Ok p -> forall table, table ∈ _TARGET_EMPTY_TABLES -> count_table t s table = 0)) s e.
Proof.
  unfold _target_empty_preflight. apply wp_bind, wp_gets. destruct (tables_in_both _) as [[mi un] du].
  apply wp_bind, wp_raise_if; intros _; [done|]. apply wp_bind, wp_raise_if; intros Hne; [done|].
  apply wp_ret. split_and!; [done|done|]. intros p _ table Ht. bool_prop.
  pose proof (filter_empty _ _ table Hne Ht) as Hz. cbv beta in Hz. bool_prop.
  unfold preflight_query in Hz. rewrite count_of_map in Hz.
  - pose proof (count_table_nonneg t s table). lia.
  - by rewrite py_sorted_Permutation.
Qed.

Lemma acquire_preflight_grants mx m o lf s e :
  wp (acquire_with_target_preflight mx m o lf) (fun r s' _ => match r with
    | Ok (lease, _) => granted m (clock_at (ticks e)) lf lease s s' /\
        (forall table, table ∈ _TARGET_EMPTY_TABLES -> count_table (mf_tenant_id m) s table = 0)
    | Raise _ => s' = s end) s e.
Proof.
  unfold acquire_with_target_preflight, guard_validate_lease_for, _validate_identifier, guard_transaction.
  apply wp_bind, wp_raise_if; intros _; [done|]. apply wp_bind, wp_raise_if; intros _; [done|].
  apply wp_bind, wp_uuid4, wp_bind, wp_datetime_now, wp_rollback. apply wp_bind. eapply wp_mono; [apply preflight_reads|].
  intros [p|x] s' e' (-> & -> & Hz); [|done].
  eapply wp_mono; [apply (grant_body (fun l => (l, p)))|].
  intros [a|x] s2 e2; [|done]. intros (lease & -> & Hg). split; [done|]. by apply (Hz p).
Qed.

Lemma granted_forward m now lf lease db db' : granted m now lf lease db db' -> forward db db'.
Proof.
  intros [Hk _ Hm _ Hl He _ Hb _]. split.
  - intros key row Hr. rewrite Hl, lookup_insert. case_decide; subst; [|eauto with lia].
    eexists. split; [done|]. rewrite Hr in He. simpl. lia.
  - intros t b'. rewrite Hb, lookup_insert. case_decide; intros; simplify_eq; [|left; eauto].
    right. eexists. rewrite Hl. split; [apply lookup_insert_eq|]. simpl. intros row Hr.
    unfold lease_key in He. rewrite Hr in He. lia.
  - intros t b. rewrite Hb, lookup_insert. case_decide; eauto.
  - intros key m' Hm'. rewrite Hm. destruct (gd_manifests db !! lease_key lease) eqn:E; [done|].
    rewrite lookup_insert. case_decide; [congruence|done].
Qed.

(** A barrier or a lease row that is rewritten for the same migration. *)
Lemma forward_barrier t b b' s :
  gd_barriers s !! t = Some b -> b_migration_id b' = b_migration_id b ->
  forward s (s <| gd_barriers := <[t := b']> (gd_barriers s) |>).
Proof.
  intros Hb Hm. split; simpl; [eauto with lia| | |done].
  - intros t' b2. rewrite lookup_insert. case_decide; intros; simplify_eq; left; eauto.
  - intros t' b2. rewrite lookup_insert. case_decide; eauto.
Qed.

Lemma forward_lease key row row' s :
  gd_leases s !! key = Some row -> lr_lease_epoch row' = lr_lease_epoch row ->
  forward s (s <| gd_leases := <[key := row']> (gd_leases s) |>).
Proof.
  intros Hr He. split; simpl; [|intros; left; eauto|eauto|done].
  intros k r. rewrite lookup_insert. case_decide; intros; simplify_eq; eauto with lia.
Qed.

Lemma forward_trans db1 db2 db3 : forward db1 db2 -> forward db2 db3 -> forward db1 db3.
Proof.
  intros [L1 B1 S1 M1] [L2 B2 S2 M2]. split; [| |intros t b Hb; destruct (S1 _ _ Hb) as [b2 Hb2]; by eapply S2|auto].
  - intros key row Hr. destruct (L1 _ _ Hr) as (r2 & Hr2 & ?). destruct (L2 _ _ Hr2) as (r3 & ? & ?).
    exists r3. split; [done|lia].
  - intros t b3 Hb3. destruct (B2 _ _ Hb3) as [(b2 & Hb2 & E)|(r3 & Hr3 & Hlt)].
    + destruct (B1 _ _ Hb2) as [(b1 & Hb1 & E1)|(r2 & Hr2 & Hlt)]; [left; exists b1; split; congruence|].
      right. rewrite E. destruct (L2 _ _ Hr2) as (r3 & ? & ?). exists r3. split; [done|].
      intros row Hrow. specialize (Hlt row Hrow). lia.
    + right. exists r3. split; [done|]. intros row Hrow. destruct (L1 _ _ Hrow) as (r2 & Hr2 & ?).
      specialize (Hlt _ Hr2). lia.
Qed.

Lemma renew_forward mx l lf : keeps_forward (renew mx l lf).
Proof. intros s e. unfold renew. wp_steps; try done. by eapply forward_lease. Qed.

Lemma release_forward l : keeps_forward (release l).
Proof.
  intros s e. unfold release. wp_steps; try done. simpl in *.
  eapply forward_trans; [apply (forward_barrier _ b (MkBarrier (b_migration_id b) (b_owner_instance b) (b_lease_epoch b) false) s Heqo eq_refl)|].
  by refine (forward_lease _ l0 _ _ _ _).
Qed.

Lemma insert_forward t table f : keeps_forward (target_insert t table f).
Proof.
  intros s e. unfold target_insert. wp_steps; [done|]. split; simpl; [eauto with lia| |eauto|done].
  intros t' b Hb. left. eauto.
Qed.

Lemma barrier_forward l : keeps_forward (release_write_barrier (Some l)).
Proof. intros s e. unfold release_write_barrier. wp_steps; try done. by eapply forward_barrier. Qed.

Lemma gexec_forward c s e : wp (gexec c) (fun r s' _ => forward s s') s e.
Proof.
  destruct c; cbn [gexec]; [apply wp_bind..| | |].
  - eapply wp_mono; [apply acquire_grants|]. intros [l|x] s' e' Hq; [by eapply granted_forward|subst; apply forward_refl].
  - eapply wp_mono; [apply acquire_preflight_grants|].
    intros [[l p]|x] s' e' Hq; [destruct Hq; by eapply granted_forward|subst; apply forward_refl].
  - eapply wp_mono; [apply renew_forward|]. intros [l|x] s' e' Hq; [done|subst; apply forward_refl].
  - eapply wp_mono; [apply release_forward|]. intros [l|x] s' e' Hq; [done|subst; apply forward_refl].
  - unfold assert_active. wp_steps; apply forward_refl.
  - eapply wp_mono; [apply barrier_forward|]. intros [l|x] s' e' Hq; [done|subst; apply forward_refl].
  - eapply wp_mono; [apply insert_forward|]. intros [l|x] s' e' Hq; [done|subst; apply forward_refl].
Qed.

Lemma gsteps_forward ok x y : rtc (gstep ok) x y -> forward x.1 y.1.
Proof.
  induction 1 as [x|x y z [c s e r s' e' _ Hrun] _ IH]; [apply forward_refl|].
  eapply forward_trans; [|exact IH]. exact (wp_run _ _ _ _ _ _ _ (gexec_forward c s e) Hrun).
Qed.

(** ** Superseded leases *)

(** A later lease of the tenant was granted: of this migration, or of another one
    that holds the barrier. *)
Definition superseded (l : MigrationLease) (db : GuardDb) : Prop :=
  exists row, gd_leases db !! lease_key l = Some row /\ le_lease_epoch l <= lr_lease_epoch row /\
    (le_lease_epoch l < lr_lease_epoch row \/
     exists b, gd_barriers db !! le_tenant_id l = Some b /\ b_migration_id b <> le_migration_id l).

Lemma superseded_forward l db db' : superseded l db -> forward db db' -> superseded l db'.
Proof.
  intros (row & Hr & Hle & Hs) [Hl Hb Hst _]. destruct (Hl _ _ Hr) as (row' & Hr' & ?).
  exists row'. split_and!; [done|lia|]. destruct Hs as [?|(b & Hbt & Hne)]; [left; lia|].
  destruct (Hst _ _ Hbt) as [b' Hb']. destruct (Hb _ _ Hb') as [(b0 & Hb0 & E)|(r2 & Hr2 & Hlt)].
  - right. exists b'. split; [done|]. simplify_eq. congruence.
  - destruct (decide (b_migration_id b' = le_migration_id l)) as [E|]; [left|right; eauto].
    unfold lease_key in *. rewrite E in *. simplify_eq. specialize (Hlt _ Hr). lia.
Qed.

Lemma superseded_inactive l db now : superseded l db -> lease_active db l now = false.
Proof.
  intros (row & Hr & Hle & Hs). unfold lease_active. rewrite Hr.
  destruct (gd_barriers db !! le_tenant_id l) as [b|] eqn:Hb; [|done]. apply not_true_iff_false.
  unfold row_owned, barrier_matches. intros Hx. bool_prop.
  destruct Hs as [?|(b0 & Hb0 & Hne)]; [lia|]. simplify_eq.
Qed.

(** The lease is refused by every operation that names it. *)
Definition refused_db {A} (m : M GuardDb A) (s : GuardDb) (e : effects) : Prop :=
  exists x e', m s e = (Raise x, s, e').

Lemma refused_db_wp {A} (m : M GuardDb A) s e :
  wp m (fun r s' _ => (exists x, r = Raise x) /\ s' = s) s e -> refused_db m s e.
Proof. unfold wp, refused_db. destruct (m s e) as [[r s'] e']. simpl. intros [[x ->] ->]. eauto. Qed.

Lemma guard_superseded_refused l s e :
  superseded l s -> forall mx lf,
    refused_db (renew mx l lf) s e /\ refused_db (release l) s e /\ refused_db (assert_active l) s e /\
    refused_db (release_write_barrier (Some l)) s e /\
    (forall A b (body : option Fence -> M GuardDb A), refused_db (target_transaction (Some l) b body) s e).
Proof.
  intros Hs mx lf. pose proof (fun now => superseded_inactive l s now Hs) as Hi. split_and!.
  - apply refused_db_wp. unfold renew. wp_steps; eauto. by rewrite Hi in *.
  - apply refused_db_wp. unfold release. wp_steps; eauto. exfalso. bool_prop. specialize (Hi (clock_at (ticks e))).
    unfold lease_active in Hi. simpl in *. repeat case_match; simplify_eq; bool_prop.
    by rewrite H0, H1 in Hi.
  - apply refused_db_wp. unfold assert_active. wp_steps; eauto. by rewrite Hi in *.
  - apply refused_db_wp. unfold release_write_barrier. wp_steps; eauto; by rewrite Hi in *.
  - intros A b body. apply refused_db_wp. wp_steps; eauto. by rewrite Hi in *.
Qed.
End runs.

(** ** The barrier *)

Section barrier.
Context `{Env}.

(** The tenant is under an active barrier and its data tables are empty. *)
Definition protected (t : string) (db : GuardDb) : Prop :=
  (exists b, gd_barriers db !! t = Some b /\ b_active b = true) /\
  (forall table, table ∈ _BARRIER_TABLES -> default 0%nat (gd_rows db !! (t, table)) = 0%nat).

(** Calls that neither lift the barrier of [t] nor write behind its fence. *)
Definition unfenced (t : string) (c : gcall) : Prop :=
  match c with
  | GRelease l | GReleaseBarrier l => le_tenant_id l <> t
  | GInsert t' _ (Some _) => t' <> t
  | _ => True
  end.

Lemma granted_protected t m now lf lease db db' :
  granted m now lf lease db db' -> protected t db -> protected t db'.
Proof.
  intros [_ _ _ _ _ _ _ Hb Hr] [(b & Hbt & Ha) Hz]. split; [|by rewrite Hr].
  rewrite Hb, lookup_insert. case_decide; eauto.
Qed.

Lemma barrier_refuses t s : (exists b, gd_barriers s !! t = Some b /\ b_active b = true) -> barrier_admits s t None = false.
Proof. intros (b & Hb & Ha). unfold barrier_admits. by rewrite Hb, Ha. Qed.

Lemma insert_protected t t' table f s e :
  protected t s -> (t' = t -> f = None) -> wp (target_insert t' table f) (fun _ s' _ => protected t s') s e.
Proof.
  intros [Hb Hz] Hf. unfold target_insert. wp_steps; [by split|]. split; [done|]. simpl. intros tb Htb.
  rewrite lookup_insert. case_decide as E; [|auto]. simplify_eq. exfalso.
  rewrite (Hf eq_refl), (barrier_refuses t s Hb) in *. unfold str_in in *.
  rewrite (bool_decide_eq_true_2 _ Htb) in *. done.
Qed.

Lemma protected_call t c s e : unfenced t c -> protected t s -> wp (gexec c) (fun _ s' _ => protected t s') s e.
Proof.
  intros Hc Hp. destruct c; cbn [gexec unfenced] in *; [apply wp_bind..| | |].
  - eapply wp_mono; [apply acquire_grants|]. intros [l|x] s' e' Hq; [by eapply granted_protected|by subst].
  - eapply wp_mono; [apply acquire_preflight_grants|].
    intros [[l p]|x] s' e' Hq; [destruct Hq; by eapply granted_protected|by subst].
  - unfold renew. wp_steps; exact Hp.
  - unfold release. wp_steps; try done. destruct Hp as [(b0 & Hb & Ha) Hz]. split; [|done].
    simpl. rewrite lookup_insert_ne by done. eauto.
  - unfold assert_active. wp_steps; exact Hp.
  - unfold release_write_barrier. wp_steps; try done. destruct Hp as [(b0 & Hb & Ha) Hz]. split; [|done].
    simpl. rewrite lookup_insert_ne by done. eauto.
  - apply insert_protected; [done|]. destruct fence; naive_solver.
Qed.

Lemma protected_steps t x y : rtc (gstep (unfenced t)) x y -> protected t x.1 -> protected t y.1.
Proof.
  induction 1 as [x|x y z [c s e r s' e' Hok Hrun] _ IH]; [done|]. intros Hp. apply IH.
  exact (wp_run _ _ _ _ _ _ _ (protected_call t c s e Hok Hp) Hrun).
Qed.

Lemma barrier_tables_counted table : table ∈ _BARRIER_TABLES ->
  table ∈ _TARGET_EMPTY_TABLES /\ forall t s, count_table t s table = Z.of_nat (default 0%nat (gd_rows s !! (t, table))).
Proof.
  intros Ht. assert (Hall : Forall (fun table => table ∈ _TARGET_EMPTY_TABLES /\
    table <> "migration_scope_manifests"%string /\ table <> "migration_leases"%string) _BARRIER_TABLES).
  { apply (bool_decide_eq_true_1 _). vm_compute. reflexivity. }
  rewrite Forall_forall in Hall. destruct (Hall _ Ht) as (? & ? & ?). split; [done|]. intros t s.
  unfold count_table. by rewrite !bool_decide_eq_false_2.
Qed.
End barrier.

(** ** Kinds *)

Lemma existsb_perm {A} (f : A -> bool) l l' : l ≡ₚ l' -> existsb f l = existsb f l'.
Proof. induction 1; simpl; [done|congruence|destruct (f x), (f y); done|congruence]. Qed.

Lemma forallb_perm {A} (f : A -> bool) l l' : l ≡ₚ l' -> forallb f l = forallb f l'.
Proof. induction 1; simpl; [done|congruence|destruct (f x), (f y); done|congruence]. Qed.

Lemma filter_perm {A} (f : A -> bool) l l' : l ≡ₚ l' -> List.filter f l ≡ₚ List.filter f l'.
Proof.
  induction 1; simpl; [done|case_match; auto|repeat case_match; auto using perm_swap|by etrans].
Qed.

Lemma nil_perm {A} `{EqDecision A} (l l' : list A) : l ≡ₚ l' -> bool_decide (l = []) = bool_decide (l' = []).
Proof.
  intros Hp. apply bool_decide_ext. split; intros ->; [by apply Permutation_nil|].
  by apply Permutation_nil_r.
Qed.

Lemma canonical_perm kinds kinds' :
  kinds ≡ₚ kinds' -> canonical_migration_kinds kinds = canonical_migration_kinds kinds'.
Proof.
  intros Hp. unfold canonical_migration_kinds.
  pose proof (filter_perm (fun k => negb (str_in k _MIGRATION_RECORD_KINDS)) _ _ Hp) as Hf.
  rewrite (nil_perm _ _ Hp), (existsb_perm _ _ _ Hp), (bool_decide_ext (NoDup kinds) (NoDup kinds')) by (by rewrite Hp).
  rewrite (nil_perm _ _ Hf), (py_sorted_perm _ _ Hf), (forallb_perm _ _ _ Hp), (py_sorted_perm _ _ Hp).
  replace (forallb (fun k => str_in k kinds) CANONICAL_REDIS_MIGRATION_KINDS)
    with (forallb (fun k => str_in k kinds') CANONICAL_REDIS_MIGRATION_KINDS); [done|].
  unfold str_in. cbn [forallb CANONICAL_REDIS_MIGRATION_KINDS].
  f_equal; [|f_equal]; try apply bool_decide_ext; by rewrite ?Hp.
Qed.

Lemma forallb_in l l' : forallb (fun k => str_in k l') l = true <-> forall k, k ∈ l -> k ∈ l'.
Proof.
  rewrite forallb_forall. unfold str_in. setoid_rewrite <-list_elem_of_In. setoid_rewrite bool_decide_eq_true. done.
Qed.

Lemma canonical_same kinds ks : canonical_migration_kinds kinds = Ok ks -> ks ≡ₚ kinds /\ NoDup kinds.
Proof.
  unfold canonical_migration_kinds. repeat case_match; try done; intros [= <-]; bool_prop.
  - split; [|done]. apply NoDup_Permutation; [repeat constructor; set_solver|done|]. intros k.
    repeat match goal with Hx : forallb _ _ = true |- _ => rewrite forallb_in in Hx end. split; auto.
  - split; [apply py_sorted_Permutation|done].
Qed.

(** ** The claims *)

Section claims.
Context `{Env}.

(** A lease of the tenant that one of the two methods handed out. *)
Inductive hands_out (t : string) (l : MigrationLease) (s : GuardDb) (e : effects) (s' : GuardDb) (e' : effects) : Prop :=
  | hands_acquire mx m o lf : mf_tenant_id m = t -> acquire mx m o lf s e = (Ok l, s', e') -> hands_out t l s e s' e'
  | hands_preflight mx m o lf p : mf_tenant_id m = t ->
      acquire_with_target_preflight mx m o lf s e = (Ok (l, p), s', e') -> hands_out t l s e s' e'.

Lemma hands_out_granted t l s e s' e' :
  hands_out t l s e s' e' -> exists m now lf, mf_tenant_id m = t /\ granted m now lf l s s'.
Proof.
  intros [mx m o lf Ht Hrun|mx m o lf p Ht Hrun]; exists m, (clock_at (ticks e)), lf; (split; [done|]).
  - exact (wp_run _ _ _ _ _ _ _ (acquire_grants mx m o lf s e) Hrun).
  - exact (proj1 (wp_run _ _ _ _ _ _ _ (acquire_preflight_grants mx m o lf s e) Hrun)).
Qed.

(** C34: One migration per tenant, fenced for good: once a later lease of the tenant
    was handed out, of the same migration or of another one, the earlier lease is
    refused by renew, release, assert_active, the release of the barrier and every
    target transaction, whatever calls happen in between and whatever the clocks
    read, and nothing changes. *)
Theorem migration_superseded_fenced t l1 l2 s0 e0 s1 e1 s2 e2 s3 e3 s e :
  hands_out t l1 s0 e0 s1 e1 -> rtc (gstep any) (s1, e1) (s2, e2) ->
  hands_out t l2 s2 e2 s3 e3 -> rtc (gstep any) (s3, e3) (s, e) ->
  forall mx lf,
    refused_db (renew mx l1 lf) s e /\ refused_db (release l1) s e /\ refused_db (assert_active l1) s e /\
    refused_db (release_write_barrier (Some l1)) s e /\
    (forall A b (body : option Fence -> M GuardDb A), refused_db (target_transaction (Some l1) b body) s e).
Proof.
  intros (m1 & n1 & lf1 & Ht1 & G1)%hands_out_granted H12%gsteps_forward (m2 & n2 & lf2 & Ht2 & G2)%hands_out_granted
    H3%gsteps_forward. apply guard_superseded_refused. eapply superseded_forward; [|exact H3]. simpl in *.
  destruct (fw_lease _ _ H12 (lease_key l1) (MkLeaseRow (le_owner_id l1) (le_owner_instance l1)
    (le_lease_epoch l1) (le_expires_at l1))) as (row & Hr & Hle); [rewrite (gr_leases _ _ _ _ _ _ G1); apply lookup_insert_eq|].
  simpl in Hle. pose proof (gr_key _ _ _ _ _ _ G1) as [= Hk1 Hm1]. pose proof (gr_key _ _ _ _ _ _ G2) as [= Hk2 Hm2].
  destruct (decide (le_migration_id l1 = le_migration_id l2)) as [E|Hne].
  - assert (Hkey : lease_key l1 = lease_key l2) by (unfold lease_key; congruence).
    eexists. rewrite (gr_leases _ _ _ _ _ _ G2), Hkey. split; [apply lookup_insert_eq|].
    pose proof (gr_epoch _ _ _ _ _ _ G2) as He. rewrite <-Hkey, Hr in He. simpl. lia.
  - assert (Hkey : lease_key l1 <> lease_key l2) by (unfold lease_key; congruence).
    exists row. rewrite (gr_leases _ _ _ _ _ _ G2), lookup_insert_ne by done. split_and!; [done|lia|]. right.
    eexists. rewrite (gr_barrier _ _ _ _ _ _ G2). replace (le_tenant_id l1) with (le_tenant_id l2) by congruence.
    split; [apply lookup_insert_eq|]. simpl. congruence.
Qed.

(** The preflight has no race: a migration that starts with
    acquire_with_target_preflight saw every guarded table of the tenant empty, and
    from then on, until a lease of the tenant is released, a writer without the
    migration's fence is refused: the data tables stay empty of its rows. *)
Theorem preflight_race_free mx m o lf s e l p s1 e1 s2 e2 :
  acquire_with_target_preflight mx m o lf s e = (Ok (l, p), s1, e1) ->
  rtc (gstep (unfenced (mf_tenant_id m))) (s1, e1) (s2, e2) ->
  (forall table, table ∈ _TARGET_EMPTY_TABLES -> count_table (mf_tenant_id m) s table = 0) /\
  (forall table, table ∈ _BARRIER_TABLES -> count_table (mf_tenant_id m) s2 table = 0) /\
  (forall table, table ∈ _BARRIER_TABLES -> refused_db (target_insert (mf_tenant_id m) table None) s2 e2).
Proof.
  intros Hrun Hsteps.
  destruct (wp_run _ _ _ _ _ _ _ (acquire_preflight_grants mx m o lf s e) Hrun) as [G Hz].
  assert (Hp : protected (mf_tenant_id m) s1).
  { pose proof (gr_key _ _ _ _ _ _ G) as [= Hk _]. split.
    - eexists. rewrite (gr_barrier _ _ _ _ _ _ G), <-Hk. split; [apply lookup_insert_eq|done].
    - intros table Ht. destruct (barrier_tables_counted table Ht) as [Hin Hc]. rewrite (gr_rows _ _ _ _ _ _ G).
      specialize (Hz table Hin). rewrite Hc in Hz. lia. }
  destruct (protected_steps _ _ _ Hsteps Hp) as [Hb Hz2]. cbn [fst] in Hb, Hz2.
  split_and!; [done| |].
  - intros table Ht. destruct (barrier_tables_counted table Ht) as [_ ->]. by rewrite (Hz2 table Ht).
  - intros table Ht. apply refused_db_wp. unfold target_insert. wp_steps; [eauto|]. exfalso.
    simpl in *. rewrite (barrier_refuses _ _ Hb) in *. unfold str_in in *. rewrite (bool_decide_eq_true_2 _ Ht) in *. done.
Qed.

(** The scope of a migration does not depend on its spelling: kinds listed in
    another order are accepted or refused alike and give the same manifest order,
    which lists each kind once and is its own normal form. *)
Theorem canonical_kinds_spelling kinds kinds' :
  kinds ≡ₚ kinds' ->
  canonical_migration_kinds kinds = canonical_migration_kinds kinds' /\
  (forall ks, canonical_migration_kinds kinds = Ok ks ->
     ks ≡ₚ kinds /\ NoDup ks /\ canonical_migration_kinds ks = Ok ks).
Proof.
  intros Hp. split; [by apply canonical_perm|]. intros ks Hks. destruct (canonical_same _ _ Hks) as [Hs Hnd].
  split_and!; [done|by rewrite Hs|]. by rewrite (canonical_perm _ _ Hs).
Qed.
End claims.

(** ** Concrete runs *)

Section demo.
#[local] Existing Instance demo_env.

Definition zeros : string := hex_text 64 0 EmptyString.

Definition scope (migration_id : string) : MigrationScopeManifest :=
  MkManifest "acme" migration_id REDIS ["session"; "memory"]%string "snap" 0 zeros "app" 1 1 "binding" 1.

Definition minute : Z := 60 * 1000000.
Definition tables0 : GuardDb := guard_empty {["acme"%string]}.

Definition grun (cs : list gcall) (c : GuardDb * effects) : GuardDb * effects :=
  fold_left (fun c cl => let '(_, s, e) := gexec cl c.1 c.2 in (s, e)) cs c.

Lemma grun_steps ok cs c : Forall ok cs -> rtc (gstep ok) c (grun cs c).
Proof.
  intros Hok. revert c. induction Hok as [|cl cs Hcl _ IH]; intros [s e]; simpl; [done|].
  destruct (gexec cl s e) as [[r s'] e'] eqn:Hrun. eapply rtc_l; [by econstructor|apply IH].
Qed.

Definition first_lease : MigrationLease := MkMigrationLease "acme" "m1" "w1" "id-0" 1 2000000.
Definition second_lease : MigrationLease := MkMigrationLease "acme" "m2" "w2" "id-1" 1 63000000.

(** The first process: an empty target, a lease of two seconds. *)
Definition started : GuardDb * effects :=
  grun [GAcquirePreflight minute (scope "m1") "w1" 2000000] (tables0, fx0).

(** Time passes until the lease is over. *)
Definition expired : GuardDb * effects :=
  grun [GAssert first_lease; GAssert first_lease; GInsert "acme" "sessions" None] started.

Lemma migration_superseded_fenced_witness : exists s e, refused_db (assert_active first_lease) s e.
Proof.
  eexists _, _.
  eapply (migration_superseded_fenced "acme" first_lease second_lease tables0 fx0 started.1 started.2
    expired.1 expired.2 _ _ _ _) with (mx := 1) (lf := 1).
  - eapply (hands_preflight _ _ _ _ _ _ minute (scope "m1") "w1" 2000000); [reflexivity|vm_compute; reflexivity].
  - rewrite <-!surjective_pairing. apply grun_steps. repeat constructor.
  - eapply (hands_acquire _ _ _ _ _ _ minute (scope "m2") "w2" minute); [reflexivity|vm_compute; reflexivity].
  - apply rtc_refl.
Defined.

Lemma preflight_race_free_witness :
  count_table "acme" expired.1 "sessions" = 0 /\ refused_db (target_insert "acme" "sessions" None) expired.1 expired.2.
Proof.
  destruct (preflight_race_free minute (scope "m1") "w1" 2000000 tables0 fx0 first_lease
    (MkPreflight "acme" _TARGET_EMPTY_TABLES (map (fun t => (t, 0)) _TARGET_EMPTY_TABLES) [])
    started.1 started.2 expired.1 expired.2) as (_ & Hz & Hr).
  - vm_compute. reflexivity.
  - rewrite <-!surjective_pairing. apply grun_steps. repeat constructor.
  - split; [apply (Hz "sessions"%string)|apply (Hr "sessions"%string)]; do 3 right; left.
Defined.

Lemma canonical_kinds_spelling_witness :
  canonical_migration_kinds ["memory"; "session"]%string = Ok ["session"; "memory"]%string.
Proof.
  destruct (canonical_kinds_spelling ["memory"; "session"]%string ["session"; "memory"]%string) as [-> _].
  - apply perm_swap.
  - vm_compute. reflexivity.
Defined.
End demo.
