(* ===== verification/Migration.v ===== *)
(** * The migration coordinator

    [MigrationCoordinator] of [trpc_service/storage/migration.py]: the phases of a
    migration, the paged copy and its checkpoints, the comparison, and the lease
    that fences them.  Source, target, checkpoint store and guard are protocols in
    the code and a class of operations here ([MigrationWorld]); what they do is
    stated as laws where a theorem needs it.  The heartbeat task runs whenever the
    coroutine waits: before every awaited call it may renew the lease, as [beats]
    decides.  The loops over pages have no counter in the code; here they have fuel,
    one unit per record that may still come, and [MigrationThms] shows that it never
    runs out. *)

From S2P Require Import Prelude PyText Tenant Models MigrationGuard.
#[local] Open Scope Z_scope.

(** ** Records *)

Inductive MigrationPhase : Type :=
  | PREPARE | BACKFILL | SHADOW_READ | DUAL_WRITE | CUTOVER | VERIFY | CLEANUP | ROLLBACK.

#[export] Instance MigrationPhase_eq_dec : EqDecision MigrationPhase.
Proof. solve_decision. Defined.

Definition _ORDER : list MigrationPhase :=
  [PREPARE; BACKFILL; SHADOW_READ; DUAL_WRITE; CUTOVER; VERIFY; CLEANUP].

Definition MAX_MIGRATION_BATCH_SIZE : Z := 10000.

Record MigrationRecord : Type := MkMigrationRecord {
  rec_kind : string;
  rec_resource_id : string;
  rec_payload : gmap string pyval;
}.

Record MigrationSourceSnapshot : Type := MkSnapshot {
  sn_source_snapshot_id : string;
  sn_source_count : Z;
  sn_source_checksum : string;
}.

(** ["0" * 64]. *)
Definition zero_checksum : string := hex_text 64 0 EmptyString.

Record MigrationCheckpoint : Type := MkCheckpoint {
  cp_tenant_id : string;
  cp_migration_id : string;
  cp_phase : MigrationPhase;
  cp_cursor : option string;
  cp_source_count : Z;
  cp_target_count : Z;
  cp_checksum : string;
  cp_differences : list string;
  cp_completed : bool;
}.

#[export] Instance MigrationCheckpoint_settable : Settable MigrationCheckpoint := fun r =>
  MkCheckpoint (cp_tenant_id r) (cp_migration_id r) (cp_phase r) (cp_cursor r) (cp_source_count r)
    (cp_target_count r) (cp_checksum r) (cp_differences r) (cp_completed r).

Definition new_checkpoint (tenant_id migration_id : string) (phase : MigrationPhase) : MigrationCheckpoint :=
  MkCheckpoint tenant_id migration_id phase None 0 0 zero_checksum [] false.

(** [case_deltas] of the result, with the verdict. *)
Record MigrationResult : Type := MkMigrationResult {
  res_phase : MigrationPhase;
  res_source_count : Z;
  res_target_count : Z;
  res_checksum : string;
  res_target_checksum : string;
  res_differences : list string;
  res_gate_pass : bool;
}.

(** SHA-256 of the canonical JSON of a record, and of two digests. *)
Class MigrationHash : Type := {
  record_checksum : MigrationRecord -> string;
  _rolling_checksum : string -> string -> string;
}.

(** The rolling checksum of a list of records: what a migration is compared by. *)
Definition checksum_from `{MigrationHash} (checksum : string) (records : list MigrationRecord) : string :=
  fold_left (fun c r => _rolling_checksum c (record_checksum r)) records checksum.

(** ** Collaborators *)

(** [MigrationSource], [MigrationTarget], [MigrationCheckpointStore] and the guard;
    [None] where an adapter does not have the method. *)
Class MigrationWorld (W : Type) : Type := {
  src_fetch : string -> option string -> Z -> M W (list MigrationRecord * option string);
  src_snapshot : option (string -> M W MigrationSourceSnapshot);
  tgt_prepare : string -> M W unit;
  tgt_upsert : string -> MigrationRecord -> M W unit;
  tgt_read : string -> string -> string -> M W (option MigrationRecord);
  tgt_set_dual_write : string -> bool -> M W unit;
  tgt_cutover : string -> M W unit;
  tgt_cleanup : string -> M W unit;
  tgt_rollback : string -> M W unit;
  tgt_list : option (string -> string -> option Z -> M W (list MigrationRecord));
  tgt_page : option (string -> string -> option string -> Z -> M W (list MigrationRecord * option string));
  tgt_bind : option (MigrationLease -> M W unit);
  ck_load : string -> string -> M W (option MigrationCheckpoint);
  ck_save : MigrationCheckpoint -> M W unit;
  guard_renew : MigrationLease -> Z -> M W MigrationLease;
  guard_assert_active : MigrationLease -> M W unit;
}.

(** [InMemoryMigrationCheckpointStore]. *)
Abbreviation Checkpoints := (gmap (string * string) MigrationCheckpoint).

Definition memory_load (tenant_id migration_id : string) : M Checkpoints (option MigrationCheckpoint) :=
  gets (fun values => values !! (tenant_id, migration_id)).

Definition memory_save (checkpoint : MigrationCheckpoint) : M Checkpoints unit :=
  modify (fun values => <[(cp_tenant_id checkpoint, cp_migration_id checkpoint) := checkpoint]> values).

(** When the heartbeat fires. *)
Class Schedule : Type := beats : nat -> bool.

(** The configuration of a coordinator, and its changing fields. *)
Record MigrationCoordinator : Type := MkCoordinator {
  mc_batch_size : Z;
  mc_guarded : bool;
  mc_manifest : option MigrationScopeManifest;
  mc_lease_for : Z;
}.

Record Coord (W : Type) : Type := MkCoord {
  co_lease : option MigrationLease;
  co_heartbeat_error : option exn;
  co_world : W;
}.
Arguments MkCoord {W} _ _ _.
Arguments co_lease {W} _.
Arguments co_heartbeat_error {W} _.
Arguments co_world {W} _.

#[export] Instance Coord_settable W : Settable (Coord W) := fun r =>
  MkCoord (co_lease r) (co_heartbeat_error r) (co_world r).

(** [__init__]; the heartbeat interval defaults to a third of the lease, between half
    a second and thirty seconds. *)
Definition make_coordinator (batch_size : Z) (guarded : bool) (lease : option MigrationLease)
    (manifest : option MigrationScopeManifest) (lease_for : Z) (heartbeat_interval : option Z)
    : outcome MigrationCoordinator :=
  let interval := int_or heartbeat_interval (Z.min (Z.max (lease_for / 3) 500000) 30000000) in
  if (batch_size <? 1) || (MAX_MIGRATION_BATCH_SIZE <? batch_size)
  then Raise (ValueError "migration batch size must be a positive integer no greater than 10000")
  else if lease_for <=? 0 then Raise (ValueError "migration lease duration must be positive")
  else if (interval <=? 0) || (lease_for <=? interval)
  then Raise (ValueError "migration lease heartbeat interval must be positive and shorter than the lease")
  else if negb (Bool.eqb (negb guarded) (bool_decide (lease = None)))
  then Raise (ValueError "migration guard and lease must be supplied together")
  else
    match manifest, lease with
    | Some m, Some l =>
      if negb (bool_decide (le_tenant_id l = mf_tenant_id m)) || negb (bool_decide (le_migration_id l = mf_migration_id m))
      then Raise (MigrationManifestConflict "migration lease does not match manifest scope")
      else Ok (MkCoordinator batch_size guarded manifest lease_for)
    | _, _ => Ok (MkCoordinator batch_size guarded manifest lease_for)
    end.

(** [except ValueError]. *)
Definition is_value_error (x : exn) : bool :=
  match x with
  | ValueError _ | ValidationError _ | UnicodeDecodeError | BinasciiError _ => true
  | _ => false
  end.

Definition is_type_error (x : exn) : bool := match x with TypeError _ => true | _ => false end.

Definition _ensure_record_count {S} (value : Z) (label : string) : M S unit :=
  raise_if ((value <? 0) || (MAX_MIGRATION_EXPECTED_RECORDS <? value))
    (MigrationGuardError (label +:+ " exceeds MAX_MIGRATION_EXPECTED_RECORDS")).

(** The fuel of a page loop ran out. *)
Definition out_of_fuel : exn := RuntimeError "out of fuel".

(** One unit for every record that may still come, and one for the last page. *)
Definition page_fuel (count : Z) : nat := S (Z.to_nat (MAX_MIGRATION_EXPECTED_RECORDS - count)).

Section coordinator.
Context {W : Type} `{MigrationWorld W} `{MigrationHash} `{Schedule}.
Context (c : MigrationCoordinator).

Definition world {A} (m : M W A) : M (Coord W) A := zoom co_world (fun w s => s <| co_world := w |>) m.

(** ** The lease *)

(** Any other error is reported as a lost lease. *)
Definition _raise_heartbeat_error : M (Coord W) unit :=
  let* error := gets co_heartbeat_error in
  match error with
  | None => ret tt
  | Some (MigrationLeaseLost msg) => raise (MigrationLeaseLost msg)
  | Some _ => raise (MigrationLeaseLost "migration lease heartbeat failed")
  end.

Definition _renew_lease : M (Coord W) unit :=
  let* lease := gets co_lease in
  match lease with
  | Some lease =>
    if mc_guarded c then
      _raise_heartbeat_error ;;
      let* renewed := world (guard_renew lease (mc_lease_for c)) in
      modify (fun s => s <| co_lease := Some renewed |>) ;;
      match tgt_bind with
      | Some bind_lease => world (bind_lease renewed)
      | None => ret tt
      end
    else ret tt
  | None => ret tt
  end.

(** One turn of [_heartbeat_loop]: an error stops it. *)
Definition heartbeat : M (Coord W) unit := fun s e =>
  if mc_guarded c && beats (ticks e) && bool_decide (is_Some (co_lease s))
     && negb (bool_decide (is_Some (co_heartbeat_error s)))
  then
    try_except _renew_lease (fun x => modify (fun s => s <| co_heartbeat_error := Some x |>))
      s (Effects (uuids e) (S (ticks e)))
  else (Ok tt, s, Effects (uuids e) (S (ticks e))).

(** [await]: the heartbeat may run first. *)
Definition await {A} (m : M W A) : M (Coord W) A := heartbeat ;; world m.

Definition _assert_lease : M (Coord W) unit :=
  _raise_heartbeat_error ;;
  let* lease := gets co_lease in
  match lease with
  | Some lease =>
    if mc_guarded c then await (guard_assert_active lease) ;; _raise_heartbeat_error else ret tt
  | None => ret tt
  end.

(** [async with self._lease_liveness()]. *)
Definition _lease_liveness {A} (body : M (Coord W) A) : M (Coord W) A :=
  modify (fun s => s <| co_heartbeat_error := None |>) ;;
  _assert_lease ;;
  let* a := body in
  _raise_heartbeat_error ;;
  heartbeat ;;
  _raise_heartbeat_error ;;
  ret a.

(** ** Checks *)

Definition _validate_scope (tenant_id migration_id : string) : M (Coord W) unit :=
  match mc_manifest c with
  | None => ret tt
  | Some m =>
    raise_if (negb (bool_decide (mf_tenant_id m = tenant_id)) || negb (bool_decide (mf_migration_id m = migration_id)))
      (MigrationManifestConflict "requested migration is outside the immutable manifest")
  end.

Definition _validate_source_snapshot (tenant_id : string) : M (Coord W) unit :=
  match mc_manifest c with
  | None => ret tt
  | Some m =>
    match src_snapshot with
    | None => raise (MigrationGuardError "guarded migration source must provide a source snapshot")
    | Some snapshot =>
      let* observed := await (snapshot tenant_id) in
      _ensure_record_count (sn_source_count observed) "source snapshot" ;;
      raise_if (negb (bool_decide (sn_source_snapshot_id observed = mf_source_snapshot_id m))
                || negb (sn_source_count observed =? mf_source_count m)
                || negb (bool_decide (sn_source_checksum observed = mf_source_checksum m)))
        (MigrationManifestConflict "migration source changed after the immutable manifest was created")
    end
  end.

Definition _validate_manifest_totals (source_count : Z) (checksum : string) (completed : bool) : M (Coord W) unit :=
  match mc_manifest c with
  | None => ret tt
  | Some m =>
    if completed then
      raise_if (negb (source_count =? mf_source_count m))
        (MigrationManifestConflict "migration source count does not match the immutable manifest") ;;
      raise_if (negb (bool_decide (checksum = mf_source_checksum m)))
        (MigrationManifestConflict "migration source checksum does not match the immutable manifest")
    else ret tt
  end.

(** [_ORDER.index(phase)]. *)
Fixpoint order_index (phase : MigrationPhase) (order : list MigrationPhase) : option nat :=
  match order with
  | [] => None
  | p :: rest => if bool_decide (p = phase) then Some 0%nat else S <$> order_index phase rest
  end.

Definition _validate_transition (current : option MigrationCheckpoint) (requested : MigrationPhase)
    : M (Coord W) unit :=
  if bool_decide (requested = ROLLBACK) then ret tt
  else
    match current with
    | None => raise_if (negb (bool_decide (requested = PREPARE))) (ValueError "migration must start with prepare")
    | Some current =>
      if bool_decide (cp_phase current = requested) && negb (cp_completed current) then ret tt
      else
        raise_if (negb (cp_completed current)) (ValueError "current migration phase has not completed") ;;
        match order_index (cp_phase current) _ORDER with
        | None => raise (ValueError "tuple.index(x): x not in tuple")
        | Some i =>
          raise_if (negb (bool_decide (_ORDER !! S i = Some requested)))
            (ValueError "migration phases must run in order")
        end
    end.

Definition _save_checkpoint (checkpoint : MigrationCheckpoint) : M (Coord W) unit :=
  (if mc_guarded c then _renew_lease else ret tt) ;;
  await (ck_save checkpoint).

(** ** Backfill *)

Fixpoint copy_records (tenant_id : string) (records : list MigrationRecord) : M (Coord W) unit :=
  match records with
  | [] => ret tt
  | record :: rest =>
    _assert_lease ;;
    await (tgt_upsert tenant_id record) ;;
    copy_records tenant_id rest
  end.

Definition no_next (next_cursor : option string) : bool := bool_decide (next_cursor = None).

(** [while True] of [_copy_all]. *)
Fixpoint copy_pages (fuel : nat) (checkpoint : MigrationCheckpoint) (cursor : option string) (count : Z)
    (checksum : string) : M (Coord W) MigrationCheckpoint :=
  match fuel with
  | O => raise out_of_fuel
  | S fuel =>
    let* answer := await (src_fetch (cp_tenant_id checkpoint) cursor (mc_batch_size c)) in
    let '(records, next_cursor) := answer in
    raise_if (mc_batch_size c <? Z.of_nat (length records))
      (MigrationGuardError "source page exceeded the migration batch bound") ;;
    _ensure_record_count (count + Z.of_nat (length records)) "migration backfill" ;;
    copy_records (cp_tenant_id checkpoint) records ;;
    let checksum := checksum_from checksum records in
    let count := count + Z.of_nat (length records) in
    let checkpoint := checkpoint <| cp_cursor := next_cursor |> <| cp_source_count := count |>
      <| cp_target_count := count |> <| cp_checksum := checksum |> <| cp_completed := no_next next_cursor |> in
    _validate_manifest_totals count checksum (no_next next_cursor) ;;
    _save_checkpoint checkpoint ;;
    if no_next next_cursor then ret checkpoint
    else
      raise_if (bool_decide (records = []) || bool_decide (next_cursor = cursor))
        (MigrationGuardError "source pagination did not advance") ;;
      copy_pages fuel checkpoint next_cursor count checksum
  end.

Definition _copy_all (checkpoint : MigrationCheckpoint) : M (Coord W) MigrationCheckpoint :=
  copy_pages (page_fuel (cp_source_count checkpoint)) checkpoint (cp_cursor checkpoint)
    (cp_source_count checkpoint) (cp_checksum checkpoint).

(** ** Enumerating the target *)

Fixpoint target_pages (fuel : nat)
    (page : string -> string -> option string -> Z -> M W (list MigrationRecord * option string))
    (tenant_id kind : string) (cursor : option string) (values : list MigrationRecord)
    : M (Coord W) (list MigrationRecord) :=
  match fuel with
  | O => raise out_of_fuel
  | S fuel =>
    let* answer := await (page tenant_id kind cursor (mc_batch_size c)) in
    let '(records, next_cursor) := answer in
    raise_if (mc_batch_size c <? Z.of_nat (length records))
      (MigrationGuardError "target page exceeded the migration batch bound") ;;
    let values := values ++ records in
    _ensure_record_count (Z.of_nat (length values)) "target enumeration" ;;
    if no_next next_cursor then ret values
    else
      raise_if (bool_decide (records = []) || bool_decide (next_cursor = cursor))
        (MigrationGuardError "target pagination did not advance") ;;
      target_pages fuel page tenant_id kind next_cursor values
  end.

Definition _enumerate_target_kind (tenant_id kind : string) : M (Coord W) (list MigrationRecord) :=
  match tgt_page, tgt_list with
  | Some page, _ => target_pages (page_fuel 0) page tenant_id kind None []
  | None, None => raise (MigrationGuardError "target does not expose complete enumeration")
  | None, Some target_list =>
    let* page :=
      try_except (await (target_list tenant_id kind (Some MAX_MIGRATION_EXPECTED_RECORDS)))
        (fun x => if is_type_error x then await (target_list tenant_id kind None) else raise x) in
    _ensure_record_count (Z.of_nat (length page)) "target enumeration" ;;
    raise_if (MAX_MIGRATION_EXPECTED_RECORDS <=? Z.of_nat (length page))
      (MigrationGuardError "target enumeration is not provably complete; use keyset pagination") ;;
    ret page
  end.

Definition migration_kinds : list string :=
  match mc_manifest c with Some m => mf_kinds m | None => CANONICAL_REDIS_MIGRATION_KINDS end.

(** [sorted(values, key=lambda record: record.resource_id)], a stable sort. *)
Fixpoint insert_record (r : MigrationRecord) (l : list MigrationRecord) : list MigrationRecord :=
  match l with
  | [] => [r]
  | x :: rest =>
    if bool_decide (String.le (rec_resource_id r) (rec_resource_id x)) then r :: l else x :: insert_record r rest
  end.

Definition sort_records (l : list MigrationRecord) : list MigrationRecord := foldr insert_record [] l.

(** [None] when a kind cannot be enumerated. *)
Fixpoint snapshot_kinds (tenant_id : string) (kinds : list string) (records : list MigrationRecord)
    : M (Coord W) (option (list MigrationRecord)) :=
  match kinds with
  | [] => ret (Some records)
  | kind :: rest =>
    let* values :=
      try_except (let* v := _enumerate_target_kind tenant_id kind in ret (Some v))
        (fun x => if is_value_error x then ret None else raise x) in
    match values with
    | None => ret None
    | Some values => snapshot_kinds tenant_id rest (records ++ sort_records values)
    end
  end.

Definition target_enumerable : bool :=
  bool_decide (is_Some tgt_list) || bool_decide (is_Some tgt_page).

Definition _target_snapshot (tenant_id : string) : M (Coord W) (option (Z * string)) :=
  if negb target_enumerable then ret None
  else
    let* records := snapshot_kinds tenant_id migration_kinds [] in
    match records with
    | None => ret None
    | Some records => ret (Some (Z.of_nat (length records), checksum_from zero_checksum records))
    end.

(** ** Comparing *)

(** The records of every kind, as far as the target could be enumerated: [None] when
    it could not. *)
Fixpoint enumerate_kinds (tenant_id : string) (kinds : list string)
    (found : list (string * list MigrationRecord)) (target_count : Z)
    : M (Coord W) (option (list (string * list MigrationRecord) * Z)) :=
  match kinds with
  | [] => ret (Some (found, target_count))
  | kind :: rest =>
    let* values :=
      try_except (let* v := _enumerate_target_kind tenant_id kind in ret (Some v))
        (fun x => if is_value_error x then ret None else raise x) in
    match values with
    | None => ret None
    | Some values =>
      let target_count := target_count + Z.of_nat (length values) in
      _ensure_record_count target_count "target verification" ;;
      enumerate_kinds tenant_id rest (found ++ [(kind, values)]) target_count
    end
  end.

Definition kind_records (kind : string) (found : list (string * list MigrationRecord)) : list MigrationRecord :=
  match List.find (fun kv => bool_decide (kv.1 = kind)) found with Some kv => kv.2 | None => [] end.

(** [target_checksums.get(kind, {}).get(resource_id)]: the last record of a resource
    counts. *)
Definition target_checksum (found : list (string * list MigrationRecord)) (kind resource_id : string) : option string :=
  record_checksum <$> last (List.filter (fun r => bool_decide (rec_resource_id r = resource_id)) (kind_records kind found)).

Definition record_path (record : MigrationRecord) : string :=
  rec_kind record +:+ "/" +:+ rec_resource_id record.

(** One page of the comparison. *)
Fixpoint compare_records (tenant_id : string) (found : option (list (string * list MigrationRecord)))
    (records : list MigrationRecord) (target_count : Z) (differences : list string)
    : M (Coord W) (Z * list string) :=
  match records with
  | [] => ret (target_count, differences)
  | record :: rest =>
    match found with
    | Some found =>
      let same := bool_decide (target_checksum found (rec_kind record) (rec_resource_id record)
                               = Some (record_checksum record)) in
      compare_records tenant_id (Some found) rest target_count
        (if same then differences else differences ++ [record_path record])
    | None =>
      let* target := await (tgt_read tenant_id (rec_kind record) (rec_resource_id record)) in
      let same := match target with
                  | Some t => bool_decide (record_checksum t = record_checksum record)
                  | None => false
                  end in
      compare_records tenant_id None rest (match target with Some _ => target_count + 1 | None => target_count end)
        (if same then differences else differences ++ [record_path record])
    end
  end.

Fixpoint compare_pages (fuel : nat) (tenant_id : string) (found : option (list (string * list MigrationRecord)))
    (cursor : option string) (source : list MigrationRecord) (target_count : Z) (differences : list string)
    : M (Coord W) (list MigrationRecord * Z * list string) :=
  match fuel with
  | O => raise out_of_fuel
  | S fuel =>
    _assert_lease ;;
    let* answer := await (src_fetch tenant_id cursor (mc_batch_size c)) in
    let '(records, next_cursor) := answer in
    _ensure_record_count (Z.of_nat (length source) + Z.of_nat (length records)) "source verification" ;;
    raise_if (negb (no_next next_cursor) && (bool_decide (records = []) || bool_decide (next_cursor = cursor)))
      (MigrationGuardError "source pagination did not advance") ;;
    let* answer := compare_records tenant_id found records target_count differences in
    let '(target_count, differences) := answer in
    let source := source ++ records in
    if no_next next_cursor then ret (source, target_count, differences)
    else compare_pages fuel tenant_id found next_cursor source target_count differences
  end.

(** The resources of the target that the source does not have, in order. *)
Definition target_only (source : list MigrationRecord) (found : list (string * list MigrationRecord)) : list string :=
  flat_map (fun kv =>
    let ids := remove_dups (map rec_resource_id kv.2) in
    let known := map rec_resource_id (List.filter (fun r => bool_decide (rec_kind r = kv.1)) source) in
    map (fun id => "target-only:" +:+ kv.1 +:+ "/" +:+ id)%string
      (py_sorted (List.filter (fun id => negb (str_in id known)) ids))) found.

Definition _compare_all (checkpoint : MigrationCheckpoint) (reject_differences : bool)
    : M (Coord W) MigrationCheckpoint :=
  let tenant_id := cp_tenant_id checkpoint in
  let* enumerated := if target_enumerable then enumerate_kinds tenant_id migration_kinds [] 0 else ret None in
  let found := fst <$> enumerated in
  let target_count := match enumerated with Some (_, n) => n | None => 0 end in
  let* answer := compare_pages (page_fuel 0) tenant_id found None [] target_count [] in
  let '(source, target_count, differences) := answer in
  let differences := differences ++ target_only source (default [] found) in
  let source_count := Z.of_nat (length source) in
  let checksum := checksum_from zero_checksum source in
  let completed := bool_decide (differences = []) in
  let result := checkpoint <| cp_source_count := source_count |> <| cp_target_count := target_count |>
    <| cp_checksum := checksum |> <| cp_differences := differences |> <| cp_completed := completed |> in
  _validate_manifest_totals source_count checksum completed ;;
  _save_checkpoint result ;;
  raise_if (reject_differences && negb completed) (ValueError "migration verification found differences") ;;
  ret result.

(** ** Phases *)

(** The checkpoint a phase starts from. *)
Definition start_checkpoint (current : option MigrationCheckpoint) (tenant_id migration_id : string)
    (phase : MigrationPhase) : MigrationCheckpoint :=
  match current with
  | None => new_checkpoint tenant_id migration_id phase
  | Some current =>
    if bool_decide (cp_phase current = phase) && negb (cp_completed current) then current
    else current <| cp_phase := phase |> <| cp_cursor := None |> <| cp_completed := false |>
  end.

Definition run_phase (tenant_id : string) (checkpoint : MigrationCheckpoint) (phase : MigrationPhase)
    : M (Coord W) MigrationCheckpoint :=
  match phase with
  | PREPARE => _assert_lease ;; await (tgt_prepare tenant_id) ;; ret (checkpoint <| cp_completed := true |>)
  | BACKFILL => _copy_all checkpoint
  | SHADOW_READ => _compare_all checkpoint false
  | DUAL_WRITE =>
    _assert_lease ;; await (tgt_set_dual_write tenant_id true) ;; ret (checkpoint <| cp_completed := true |>)
  | CUTOVER => _assert_lease ;; await (tgt_cutover tenant_id) ;; ret (checkpoint <| cp_completed := true |>)
  | VERIFY => _compare_all checkpoint true
  | CLEANUP =>
    _assert_lease ;; await (tgt_cleanup tenant_id) ;;
    _assert_lease ;; await (tgt_set_dual_write tenant_id false) ;; ret (checkpoint <| cp_completed := true |>)
  | ROLLBACK =>
    _assert_lease ;; await (tgt_rollback tenant_id) ;;
    _assert_lease ;; await (tgt_set_dual_write tenant_id false) ;; ret (checkpoint <| cp_completed := true |>)
  end.

Definition _run_once (tenant_id migration_id : string) (phase : MigrationPhase) : M (Coord W) MigrationResult :=
  _validate_scope tenant_id migration_id ;;
  _validate_source_snapshot tenant_id ;;
  let* current := await (ck_load tenant_id migration_id) in
  _validate_transition current phase ;;
  let* checkpoint := run_phase tenant_id (start_checkpoint current tenant_id migration_id phase) phase in
  _save_checkpoint checkpoint ;;
  _validate_source_snapshot tenant_id ;;
  let* target_snapshot := _target_snapshot tenant_id in
  let '(target_count, target_checksum) :=
    default (cp_target_count checkpoint, cp_checksum checkpoint) target_snapshot in
  ret (MkMigrationResult phase (cp_source_count checkpoint) target_count (cp_checksum checkpoint) target_checksum
         (cp_differences checkpoint) (bool_decide (cp_differences checkpoint = []))).

Definition run (tenant_id migration_id : string) (phase : MigrationPhase) : M (Coord W) MigrationResult :=
  if mc_guarded c then _lease_liveness (_run_once tenant_id migration_id phase)
  else _run_once tenant_id migration_id phase.
End coordinator.
