(* ===== verification/MigrationThms.v ===== *)
(** * Theorems about the migration coordinator

    Its page loops end whatever the source and the target answer; and along any
    sequence of runs, in any phase, each failing anywhere, the checkpoint that was
    saved last describes what the target holds, so a migration is never cut over
    before every record of the source was copied. *)

From S2P Require Import Prelude PyText Tenant Models MigrationGuard Migration.
#[local] Open Scope Z_scope.

(** ** Page loops end *)

(** [m] never runs out of fuel. *)
Definition fueled {S A} (m : M S A) : Prop := forall s e, wp m (fun r _ _ => r <> Raise out_of_fuel) s e.

Section fueled.
Context {S : Type}.

Lemma fueled_ret {A} (a : A) : fueled (ret a : M S A).
Proof. by intros s e. Qed.

Lemma fueled_raise {A} x : x <> out_of_fuel -> fueled (raise x : M S A).
Proof. intros Hx s e. apply wp_raise. congruence. Qed.

Lemma fueled_gets {A} (f : S -> A) : fueled (gets f).
Proof. by intros s e. Qed.

Lemma fueled_modify (f : S -> S) : fueled (modify f).
Proof. by intros s e. Qed.

Lemma fueled_bind {A B} (m : M S A) (k : A -> M S B) : fueled m -> (forall a, fueled (k a)) -> fueled (bind m k).
Proof.
  intros Hm Hk s e. apply wp_bind. eapply wp_mono; [apply Hm|]. intros [a|x] s' e' Hr; [apply Hk|congruence].
Qed.

Lemma fueled_raise_if b x : x <> out_of_fuel -> fueled (raise_if b x : M S unit).
Proof. intros Hx. destruct b; [by apply fueled_raise|apply fueled_ret]. Qed.

(** The test that did not raise is known in what follows. *)
Lemma fueled_guard {A} b x (k : M S A) :
  x <> out_of_fuel -> (b = false -> fueled k) -> fueled (raise_if b x ;; k).
Proof.
  intros Hx Hk s e. apply wp_bind, wp_raise_if; intros Hb; [congruence|]. by apply Hk.
Qed.

Lemma fueled_try {A} (m : M S A) h : fueled m -> (forall x, x <> out_of_fuel -> fueled (h x)) -> fueled (try_except m h).
Proof.
  intros Hm Hh s e. apply wp_try. eapply wp_mono; [apply Hm|]. intros [a|x] s' e' Hr; [done|]. apply Hh. congruence.
Qed.

Lemma fueled_zoom {T A} get put (m : M T A) : fueled m -> fueled (zoom get put m : M S A).
Proof. intros Hm s e. apply wp_zoom. eapply wp_mono; [apply Hm|]. done. Qed.
End fueled.

Create HintDb fuel.
#[export] Hint Resolve fueled_ret fueled_gets fueled_modify fueled_zoom fueled_raise_if : fuel.
#[export] Hint Extern 1 (_ <> out_of_fuel) => discriminate : fuel.

Ltac fueled_step :=
  lazymatch goal with
  | |- forall _, _ => intro
  | |- fueled (bind _ _) => apply fueled_bind
  | |- fueled (try_except _ _) => apply fueled_try
  | |- fueled (raise _) => apply fueled_raise; solve [auto with fuel]
  | |- fueled (match ?x with _ => _ end) => destruct x
  | |- fueled _ => solve [auto with fuel]
  end.
Ltac fueled := repeat fueled_step.

Section loops.
Context {W : Type} `{MigrationWorld W} `{MigrationHash} `{Schedule}.
Context (c : MigrationCoordinator).

(** No collaborator reports the model's own marker. *)
Record world_fueled : Prop := {
  wf_fetch t cur lim : fueled (src_fetch t cur lim);
  wf_snapshot f t : src_snapshot = Some f -> fueled (f t);
  wf_prepare t : fueled (tgt_prepare t);
  wf_upsert t r : fueled (tgt_upsert t r);
  wf_read t k i : fueled (tgt_read t k i);
  wf_dual t b : fueled (tgt_set_dual_write t b);
  wf_cutover t : fueled (tgt_cutover t);
  wf_cleanup t : fueled (tgt_cleanup t);
  wf_rollback t : fueled (tgt_rollback t);
  wf_list f t k n : tgt_list = Some f -> fueled (f t k n);
  wf_page f t k cur n : tgt_page = Some f -> fueled (f t k cur n);
  wf_bind f l : tgt_bind = Some f -> fueled (f l);
  wf_load t m : fueled (ck_load t m);
  wf_save cp : fueled (ck_save cp);
  wf_renew l n : fueled (guard_renew l n);
  wf_assert l : fueled (guard_assert_active l);
}.

Context (HW : world_fueled).

Lemma world_fueled_op {A} (m : M W A) : fueled m -> fueled (world m).
Proof. apply fueled_zoom. Qed.

Lemma heartbeat_error_fueled : fueled (_raise_heartbeat_error (W := W)).
Proof. unfold _raise_heartbeat_error. fueled. Qed.

Hint Resolve heartbeat_error_fueled world_fueled_op wf_renew wf_assert : fuel.

Lemma renew_fueled : fueled (_renew_lease c).
Proof.
  unfold _renew_lease. destruct tgt_bind as [f|] eqn:Hf; fueled. apply world_fueled_op. by eapply wf_bind.
Qed.

Lemma heartbeat_fueled : fueled (heartbeat c).
Proof.
  intros s e. unfold heartbeat, wp. destruct (_ && _); [|done].
  apply (fueled_try _ _ renew_fueled). intros. apply fueled_modify.
Qed.

Lemma await_fueled {A} (m : M W A) : fueled m -> fueled (await c m).
Proof. intros Hm. unfold await. apply fueled_bind; [apply heartbeat_fueled|]. intros. by apply world_fueled_op. Qed.

Lemma assert_fueled : fueled (_assert_lease c).
Proof.
  unfold _assert_lease. fueled. by apply await_fueled, wf_assert.
Qed.

Hint Resolve renew_fueled heartbeat_fueled assert_fueled : fuel.
Hint Resolve await_fueled wf_fetch wf_prepare wf_upsert wf_read wf_dual wf_cutover wf_cleanup wf_rollback wf_load wf_save : fuel.

Lemma count_fueled n l : fueled (_ensure_record_count n l : M (Coord W) unit).
Proof. unfold _ensure_record_count. fueled. Qed.

Lemma save_fueled cp : fueled (_save_checkpoint c cp).
Proof. unfold _save_checkpoint. fueled. Qed.

Lemma totals_fueled n s b : fueled (_validate_manifest_totals c n s b : M (Coord W) unit).
Proof. unfold _validate_manifest_totals. fueled. Qed.

Hint Resolve count_fueled save_fueled totals_fueled : fuel.

Lemma copy_records_fueled t l : fueled (copy_records c t l).
Proof. induction l as [|r l IH]; cbn [copy_records]; fueled. Qed.

(** A page that is not the last one holds a record, and there are at most
    [MAX_MIGRATION_EXPECTED_RECORDS]. *)
Lemma more_pages (fuel : nat) count (l : list MigrationRecord) :
  (Z.to_nat (MAX_MIGRATION_EXPECTED_RECORDS - count) < S fuel)%nat -> l <> [] ->
  count + Z.of_nat (length l) <= MAX_MIGRATION_EXPECTED_RECORDS ->
  (Z.to_nat (MAX_MIGRATION_EXPECTED_RECORDS - (count + Z.of_nat (length l))) < fuel)%nat.
Proof. destruct l; [done|]. cbn [length]. lia. Qed.

Lemma copy_pages_fueled fuel cp cur count sum :
  (Z.to_nat (MAX_MIGRATION_EXPECTED_RECORDS - count) < fuel)%nat -> fueled (copy_pages c fuel cp cur count sum).
Proof.
  revert cp cur count sum. induction fuel as [|fuel IH]; intros cp cur count sum Hf; [lia|]. cbn [copy_pages].
  apply fueled_bind; [auto with fuel|]. intros [records next]. apply fueled_guard; [discriminate|]. intros _.
  apply fueled_guard; [discriminate|]. intros Hc. bool_prop.
  apply fueled_bind; [apply copy_records_fueled|]. intros _. apply fueled_bind; [auto with fuel|]. intros _.
  apply fueled_bind; [auto with fuel|]. intros _. destruct (no_next next); [auto with fuel|].
  apply fueled_guard; [discriminate|]. intros Hn. bool_prop. apply IH. by apply more_pages.
Qed.

Lemma target_pages_fueled fuel page t k cur vs :
  (forall t k cur n, fueled (page t k cur n)) ->
  (Z.to_nat (MAX_MIGRATION_EXPECTED_RECORDS - Z.of_nat (length vs)) < fuel)%nat ->
  fueled (target_pages c fuel page t k cur vs).
Proof.
  intros Hp. revert cur vs. induction fuel as [|fuel IH]; intros cur vs Hf; [lia|]. cbn [target_pages].
  apply fueled_bind; [auto with fuel|]. intros [records next]. apply fueled_guard; [discriminate|]. intros _.
  apply fueled_guard; [discriminate|]. intros Hc. bool_prop. destruct (no_next next); [auto with fuel|].
  apply fueled_guard; [discriminate|]. intros Hn. bool_prop. apply IH.
  rewrite length_app, Nat2Z.inj_add in *. by apply more_pages.
Qed.

Lemma enumerate_fueled t k : fueled (_enumerate_target_kind c t k).
Proof.
  unfold _enumerate_target_kind. destruct tgt_page as [page|] eqn:Hp.
  - apply target_pages_fueled; [intros; by apply HW|]. unfold page_fuel. simpl. lia.
  - destruct tgt_list as [f|] eqn:Hl; [|fueled]. fueled.
    all: apply await_fueled; by eapply wf_list.
Qed.

Lemma snapshot_kinds_fueled t ks l : fueled (snapshot_kinds c t ks l).
Proof.
  revert l. induction ks as [|k ks IH]; intros l; cbn [snapshot_kinds]; fueled; apply enumerate_fueled.
Qed.

Lemma enumerate_kinds_fueled t ks l n : fueled (enumerate_kinds c t ks l n).
Proof.
  revert l n. induction ks as [|k ks IH]; intros l n; cbn [enumerate_kinds]; fueled; apply enumerate_fueled.
Qed.

Lemma compare_records_fueled t found l n d : fueled (compare_records c t found l n d).
Proof. revert n d. induction l as [|r l IH]; intros n d; cbn [compare_records]; fueled; auto with fuel. Qed.

Lemma compare_pages_fueled fuel t found cur src n d :
  (Z.to_nat (MAX_MIGRATION_EXPECTED_RECORDS - Z.of_nat (length src)) < fuel)%nat ->
  fueled (compare_pages c fuel t found cur src n d).
Proof.
  revert cur src n d. induction fuel as [|fuel IH]; intros cur src n d Hf; [lia|]. cbn [compare_pages].
  apply fueled_bind; [auto with fuel|]. intros _.
  apply fueled_bind; [auto with fuel|]. intros [records next]. apply fueled_guard; [discriminate|]. intros Hc.
  apply fueled_guard; [discriminate|]. intros Hn. apply fueled_bind; [apply compare_records_fueled|].
  intros [n' d']. destruct (no_next next); [auto with fuel|]. simpl in Hn. bool_prop. apply IH.
  rewrite length_app, Nat2Z.inj_add. by apply more_pages.
Qed.

Lemma compare_all_fueled cp b : fueled (_compare_all c cp b).
Proof.
  unfold _compare_all. apply fueled_bind.
  { destruct target_enumerable; [apply enumerate_kinds_fueled|fueled]. }
  intros en. apply fueled_bind; [apply compare_pages_fueled; unfold page_fuel; simpl; lia|].
  intros [[src n] d]. fueled.
Qed.

Lemma run_phase_fueled t cp p : fueled (run_phase c t cp p).
Proof.
  destruct p; cbn [run_phase]; fueled; try apply compare_all_fueled.
  apply copy_pages_fueled. unfold page_fuel. lia.
Qed.

Lemma transition_fueled cur p : fueled (_validate_transition cur p : M (Coord W) unit).
Proof. unfold _validate_transition. fueled. Qed.

Lemma source_snapshot_fueled t : fueled (_validate_source_snapshot c t).
Proof.
  unfold _validate_source_snapshot. destruct src_snapshot as [f|] eqn:Hf; fueled. apply await_fueled.
  by eapply wf_snapshot.
Qed.

Lemma target_snapshot_fueled t : fueled (_target_snapshot c t).
Proof. unfold _target_snapshot. fueled. apply snapshot_kinds_fueled. Qed.

Lemma run_once_fueled t m p : fueled (_run_once c t m p).
Proof.
  unfold _run_once. fueled; auto using run_phase_fueled, transition_fueled, source_snapshot_fueled, target_snapshot_fueled.
  unfold _validate_scope. fueled.
Qed.

Lemma run_fueled t m p : fueled (run c t m p).
Proof. unfold run, _lease_liveness. fueled; auto using run_once_fueled. Qed.
End loops.

(** ** What the checkpoint says *)

Definition rec_key (r : MigrationRecord) : string * string := (rec_kind r, rec_resource_id r).

(** [m] leaves the stored records and the checkpoint alone. *)
Definition leaves {W A : Type} (tgt : W -> gmap (string * string) MigrationRecord)
    (ck : W -> option MigrationCheckpoint) (m : M W A) : Prop :=
  forall w e, wp m (fun _ w' _ => tgt w' = tgt w /\ ck w' = ck w) w e.

(** What the theorems need of the collaborators, for one migration of one tenant:
    the source serves the pages of a fixed list of records with distinct resources,
    upserting a record stores it, saving a checkpoint stores it, and nothing else
    touches stored records or checkpoints.  A write that raised may have happened;
    cutover and cleanup may do anything to a target that lacks a record of the source,
    so that the theorems also say that they are never called then. *)
Class MigrationLaws {W : Type} (WW : MigrationWorld W) (t mid : string) (records : list MigrationRecord)
    (pos : option string -> nat) (tgt : W -> gmap (string * string) MigrationRecord)
    (ck : W -> option MigrationCheckpoint) : Prop := {
  law_start : pos None = 0%nat;
  law_distinct : NoDup (map rec_key records);
  law_fetch cur lim w e : wp (src_fetch t cur lim) (fun r w' _ => (tgt w' = tgt w /\ ck w' = ck w) /\
    forall page next, r = Ok (page, next) ->
      page = take (length page) (drop (pos cur) records) /\ (pos cur <= length records)%nat /\
      match next with
      | None => (pos cur + length page)%nat = length records
      | Some _ => pos next = (pos cur + length page)%nat
      end) w e;
  law_upsert r w e : wp (tgt_upsert t r) (fun o w' _ => ck w' = ck w /\
    (tgt w' = <[rec_key r := r]> (tgt w) \/ (tgt w' = tgt w /\ o <> Ok tt))) w e;
  law_load w e : wp (ck_load t mid) (fun r w' _ => (tgt w' = tgt w /\ ck w' = ck w) /\
    forall cp, r = Ok cp -> cp = ck w) w e;
  law_save cp w e : cp_tenant_id cp = t -> cp_migration_id cp = mid ->
    wp (ck_save cp) (fun r w' _ => tgt w' = tgt w /\
      (ck w' = Some cp \/ (ck w' = ck w /\ r <> Ok tt))) w e;
  law_snapshot f : src_snapshot = Some f -> leaves tgt ck (f t);
  law_prepare : leaves tgt ck (tgt_prepare t);
  law_read k i : leaves tgt ck (tgt_read t k i);
  law_dual b : leaves tgt ck (tgt_set_dual_write t b);
  law_cutover w e : (forall r, r ∈ records -> tgt w !! rec_key r = Some r) ->
    wp (tgt_cutover t) (fun _ w' _ => tgt w' = tgt w /\ ck w' = ck w) w e;
  law_cleanup w e : (forall r, r ∈ records -> tgt w !! rec_key r = Some r) ->
    wp (tgt_cleanup t) (fun _ w' _ => tgt w' = tgt w /\ ck w' = ck w) w e;
  law_rollback : leaves tgt ck (tgt_rollback t);
  law_list f k n : tgt_list = Some f -> leaves tgt ck (f t k n);
  law_page f k cur n : tgt_page = Some f -> leaves tgt ck (f t k cur n);
  law_bind f l : tgt_bind = Some f -> leaves tgt ck (f l);
  law_renew l n : leaves tgt ck (guard_renew l n);
  law_assert l : leaves tgt ck (guard_assert_active l);
}.

Section invariant.
Context {W : Type} {WW : MigrationWorld W} `{MigrationHash}.
Context {t mid : string} {records : list MigrationRecord} {pos : option string -> nat}.
Context {tgt : W -> gmap (string * string) MigrationRecord} {ck : W -> option MigrationCheckpoint}.
Context `{!MigrationLaws WW t mid records pos tgt ck}.

(** The first [n] records are in the target. *)
Definition copied (n : nat) (w : W) : Prop :=
  forall r, r ∈ take n records -> tgt w !! rec_key r = Some r.

(** [w'] has every record of the source that [w] has. *)
Definition holds (w w' : W) : Prop :=
  forall r, r ∈ records -> tgt w !! rec_key r = Some r -> tgt w' !! rec_key r = Some r.

(** The totals of the first [n] records. *)
Definition totals (n : nat) (cp : MigrationCheckpoint) : Prop :=
  cp_source_count cp = Z.of_nat n /\ cp_checksum cp = checksum_from zero_checksum (take n records).

(** What a stored checkpoint says about the target. *)
Definition truthful (cp : MigrationCheckpoint) (w : W) : Prop :=
  cp_tenant_id cp = t /\ cp_migration_id cp = mid /\
  match cp_phase cp with
  | PREPARE => totals 0 cp /\ cp_cursor cp = None
  | BACKFILL =>
    if cp_completed cp then copied (length records) w /\ totals (length records) cp
    else (pos (cp_cursor cp) <= length records)%nat /\ copied (pos (cp_cursor cp)) w /\ totals (pos (cp_cursor cp)) cp
  | ROLLBACK => True
  | _ => copied (length records) w /\ totals (length records) cp
  end.

Definition migration_ok (w : W) : Prop :=
  match ck w with None => True | Some cp => truthful cp w end.

#[export] Instance holds_preorder : PreOrder holds.
Proof. split; [by intros w r|]. intros x y z Hxy Hyz r Hr Hx. auto. Qed.

Lemma copied_holds n w w' : copied n w -> holds w w' -> copied n w'.
Proof. intros Hc Hh r Hr. apply Hh; [|by apply Hc]. eapply elem_of_sublist; [exact Hr|apply sublist_take]. Qed.

Lemma truthful_holds cp w w' : truthful cp w -> holds w w' -> truthful cp w'.
Proof.
  intros (? & ? & Hcp) Hh. split_and!; [done..|].
  destruct (cp_phase cp); try destruct (cp_completed cp); naive_solver eauto using copied_holds.
Qed.

(** Storing a record of the source keeps the others: resources are distinct. *)
Lemma holds_insert w w' r : r ∈ records -> tgt w' = <[rec_key r := r]> (tgt w) -> holds w w'.
Proof.
  intros Hr Ht r0 Hr0 Hw. rewrite Ht, lookup_insert. case_decide as E; [|done].
  f_equal. apply list_elem_of_lookup in Hr as [i Hi]. apply list_elem_of_lookup in Hr0 as [j Hj].
  assert (i = j) as ->; [|congruence].
  apply (NoDup_lookup (map rec_key records) i j (rec_key r) law_distinct).
  - by rewrite list_lookup_fmap, Hi.
  - by rewrite list_lookup_fmap, Hj, E.
Qed.

(** ** Code that saves nothing *)

Definition keeps (s s' : Coord W) : Prop :=
  ck (co_world s') = ck (co_world s) /\ holds (co_world s) (co_world s').

#[export] Instance keeps_preorder : PreOrder keeps.
Proof.
  split; [by intros s; split|]. intros x y z [E1 H1] [E2 H2]. split; [congruence|]. by etrans.
Qed.

Definition kept {A} (m : M (Coord W) A) : Prop := forall s e, wp m (fun _ s' _ => keeps s s') s e.

Lemma kept_ret {A} (a : A) : kept (ret a).
Proof. intros s e. apply wp_ret. reflexivity. Qed.

Lemma kept_raise {A} x : kept (raise x : M (Coord W) A).
Proof. intros s e. apply wp_raise. reflexivity. Qed.

Lemma kept_gets {A} (f : Coord W -> A) : kept (gets f).
Proof. intros s e. apply wp_gets. reflexivity. Qed.

Lemma kept_raise_if b x : kept (raise_if b x).
Proof. destruct b; [apply kept_raise|apply kept_ret]. Qed.

Lemma kept_modify f : (forall s, co_world (f s) = co_world s) -> kept (modify f).
Proof. intros Hf s e. apply wp_modify. split; rewrite Hf; [done|reflexivity]. Qed.

Lemma kept_bind {A B} (m : M (Coord W) A) (k : A -> M (Coord W) B) :
  kept m -> (forall a, kept (k a)) -> kept (bind m k).
Proof.
  intros Hm Hk s e. apply wp_bind. eapply wp_mono; [apply Hm|]. intros [a|x] s' e' H1; [|done].
  eapply wp_mono; [apply Hk|]. intros r s2 e2 H2. by etrans.
Qed.

Lemma kept_try {A} (m : M (Coord W) A) h : kept m -> (forall x, kept (h x)) -> kept (try_except m h).
Proof.
  intros Hm Hh s e. apply wp_try. eapply wp_mono; [apply Hm|]. intros [a|x] s' e' H1; [done|].
  eapply wp_mono; [apply Hh|]. intros r s2 e2 H2. by etrans.
Qed.

Lemma kept_world {A} (m : M W A) : leaves tgt ck m -> kept (world m).
Proof.
  intros Hm s e. apply wp_zoom. eapply wp_mono; [apply Hm|]. intros r w' e' [Ht Hc]. split; [done|].
  intros r0 _. simpl. by rewrite Ht.
Qed.

Context `{Schedule} (c : MigrationCoordinator).

Lemma kept_heartbeat_error : kept _raise_heartbeat_error.
Proof.
  unfold _raise_heartbeat_error. apply kept_bind; [apply kept_gets|]. intros [[]|]; first [apply kept_ret|apply kept_raise].
Qed.

Lemma kept_renew : kept (_renew_lease c).
Proof.
  unfold _renew_lease. apply kept_bind; [apply kept_gets|]. intros [l|]; [|apply kept_ret].
  destruct (mc_guarded c); [|apply kept_ret]. apply kept_bind; [apply kept_heartbeat_error|]. intros _.
  apply kept_bind; [apply kept_world, law_renew|]. intros l'. apply kept_bind; [by apply kept_modify|]. intros _.
  destruct tgt_bind as [f|] eqn:Hf; [|apply kept_ret]. apply kept_world. by apply law_bind.
Qed.

Lemma kept_heartbeat : kept (heartbeat c).
Proof.
  intros s e. unfold heartbeat, wp. destruct (_ && _); [|simpl; reflexivity].
  apply (kept_try _ _ kept_renew). intros. by apply kept_modify.
Qed.

Lemma kept_await {A} (m : M W A) : leaves tgt ck m -> kept (await c m).
Proof. intros Hm. apply kept_bind; [apply kept_heartbeat|]. intros _. by apply kept_world. Qed.

(** A call whose outcome matters: the heartbeat before it changes nothing. *)
Lemma wp_await {A} (m : M W A) Q s e :
  (forall s1 e1, keeps s s1 -> wp m (fun r w' e' => Q r (s1 <| co_world := w' |>) e') (co_world s1) e1) ->
  (forall x s1 e1, keeps s s1 -> Q (Raise x) s1 e1) -> wp (await c m) Q s e.
Proof.
  intros Hm Hx. apply wp_bind. eapply wp_mono; [apply kept_heartbeat|]. intros [[]|x] s1 e1 H1; [|by apply Hx].
  apply wp_zoom. by apply Hm.
Qed.

Lemma kept_assert : kept (_assert_lease c).
Proof.
  unfold _assert_lease. apply kept_bind; [apply kept_heartbeat_error|]. intros _.
  apply kept_bind; [apply kept_gets|]. intros [l|]; [|apply kept_ret]. destruct (mc_guarded c); [|apply kept_ret].
  apply kept_bind; [apply kept_await, law_assert|]. intros _. apply kept_heartbeat_error.
Qed.
End invariant.

Create HintDb kept.
#[export] Hint Resolve kept_ret kept_raise kept_gets kept_raise_if kept_heartbeat_error : kept.

Section phases.
Context {W : Type} {WW : MigrationWorld W} `{MigrationHash} `{Schedule}.
Context {t mid : string} {records : list MigrationRecord} {pos : option string -> nat}.
Context {tgt : W -> gmap (string * string) MigrationRecord} {ck : W -> option MigrationCheckpoint}.
Context `{HL : !MigrationLaws WW t mid records pos tgt ck}.
Context (c : MigrationCoordinator).

Abbreviation kept := (kept (records := records) (tgt := tgt) (ck := ck)).
Abbreviation keeps := (keeps (records := records) (tgt := tgt) (ck := ck)).
Abbreviation truthful := (truthful (t := t) (mid := mid) (records := records) (pos := pos) (tgt := tgt)).
Abbreviation migration_ok := (migration_ok (t := t) (mid := mid) (records := records) (pos := pos) (tgt := tgt) (ck := ck)).
Abbreviation holds := (holds (records := records) (tgt := tgt)).
Abbreviation copied := (copied (records := records) (tgt := tgt)).
Abbreviation totals := (totals (records := records)).

Lemma kept_count n l : kept (_ensure_record_count n l).
Proof. unfold _ensure_record_count. auto with kept. Qed.

Lemma kept_target_pages fuel page k cur vs :
  (forall k cur n, leaves tgt ck (page t k cur n)) -> kept (target_pages c fuel page t k cur vs).
Proof.
  intros Hp. revert cur vs. induction fuel as [|fuel IH]; intros cur vs; cbn [target_pages]; [auto with kept|].
  apply kept_bind; [by apply kept_await|]. intros [l next]. apply kept_bind; [auto with kept|]. intros _.
  apply kept_bind; [apply kept_count|]. intros _. destruct (no_next next); [auto with kept|].
  apply kept_bind; [auto with kept|]. intros _. apply IH.
Qed.

Lemma kept_enumerate k : kept (_enumerate_target_kind c t k).
Proof.
  unfold _enumerate_target_kind. destruct tgt_page as [page|] eqn:Hp.
  - apply kept_target_pages. intros. by apply law_page.
  - destruct tgt_list as [f|] eqn:Hl; [|auto with kept].
    apply kept_bind; [|intros l; apply kept_bind; [apply kept_count|]; intros _; apply kept_bind; auto with kept].
    apply kept_try; [by apply kept_await, law_list|]. intros x. destruct (is_type_error x); [|auto with kept].
    by apply kept_await, law_list.
Qed.

Lemma kept_enumerate_kinds ks l n : kept (enumerate_kinds c t ks l n).
Proof.
  revert l n. induction ks as [|k ks IH]; intros l n; cbn [enumerate_kinds]; [auto with kept|].
  apply kept_bind.
  - apply kept_try; [apply kept_bind; [apply kept_enumerate|]; auto with kept|].
    intros x. destruct (is_value_error x); auto with kept.
  - intros [v|]; [|auto with kept]. apply kept_bind; [apply kept_count|]. intros _. apply IH.
Qed.

Lemma kept_snapshot_kinds ks l : kept (snapshot_kinds c t ks l).
Proof.
  revert l. induction ks as [|k ks IH]; intros l; cbn [snapshot_kinds]; [auto with kept|].
  apply kept_bind.
  - apply kept_try; [apply kept_bind; [apply kept_enumerate|]; auto with kept|].
    intros x. destruct (is_value_error x); auto with kept.
  - intros [v|]; [apply IH|auto with kept].
Qed.

Lemma kept_target_snapshot : kept (_target_snapshot c t).
Proof.
  unfold _target_snapshot. destruct (negb _); [auto with kept|]. apply kept_bind; [apply kept_snapshot_kinds|].
  intros [l|]; auto with kept.
Qed.

Lemma kept_source_snapshot : kept (_validate_source_snapshot c t).
Proof.
  unfold _validate_source_snapshot. destruct (mc_manifest c); [|auto with kept].
  destruct src_snapshot as [f|] eqn:Hf; [|auto with kept]. apply kept_bind; [by apply kept_await, law_snapshot|].
  intros o. apply kept_bind; [apply kept_count|]. auto with kept.
Qed.

Lemma kept_totals n s b : kept (_validate_manifest_totals c n s b).
Proof.
  unfold _validate_manifest_totals. destruct (mc_manifest c); [|auto with kept]. destruct b; [|auto with kept].
  apply kept_bind; auto with kept.
Qed.

Lemma kept_transition cur p : kept (_validate_transition cur p).
Proof.
  unfold _validate_transition. repeat first [case_match|apply kept_bind]; auto with kept.
Qed.

Lemma kept_scope : kept (_validate_scope c t mid).
Proof. unfold _validate_scope. case_match; auto with kept. Qed.

Lemma kept_compare_records found l n d : kept (compare_records c t found l n d).
Proof.
  revert n d. induction l as [|r l IH]; intros n d; cbn [compare_records]; [auto with kept|].
  destruct found; [apply IH|]. apply kept_bind; [apply kept_await, law_read|]. intros. apply IH.
Qed.

(** A sequence of calls that keep everything, with what the last one returned. *)
Lemma wp_kept {A B} (m : M (Coord W) A) (k : A -> M (Coord W) B) (Q : outcome B -> Coord W -> Prop) s e :
  kept m -> (forall x s1, keeps s s1 -> Q (Raise x) s1) ->
  (forall a s1 e1, keeps s s1 -> wp (k a) (fun r s' _ => Q r s') s1 e1) ->
  wp (bind m k) (fun r s' _ => Q r s') s e.
Proof.
  intros Hm Hx Hk. apply wp_bind. eapply wp_mono; [apply Hm|]. intros [a|x] s1 e1 H1; [by apply Hk|by apply Hx].
Qed.

(** [fetch], with the page it returned. *)
Lemma wp_fetch {B} cur (k : _ -> M (Coord W) B) (Q : outcome B -> Coord W -> Prop) s e :
  (forall x s1, keeps s s1 -> Q (Raise x) s1) ->
  (forall page next s1 e1, keeps s s1 ->
     page = take (length page) (drop (pos cur) records) -> (pos cur <= length records)%nat ->
     match next with
     | None => (pos cur + length page)%nat = length records
     | Some _ => pos next = (pos cur + length page)%nat
     end -> wp (k (page, next)) (fun r s' _ => Q r s') s1 e1) ->
  wp (bind (await c (src_fetch t cur (mc_batch_size c))) k) (fun r s' _ => Q r s') s e.
Proof.
  intros Hx Hk. apply wp_bind, wp_await; [|intros; by apply Hx]. intros s1 e1 H1.
  eapply wp_mono; [apply law_fetch|]. intros r w' e' [[Ht Hc] Hp].
  assert (H2 : keeps s (s1 <| co_world := w' |>)).
  { destruct H1 as [E1 H1]. split; [simpl; congruence|]. intros r0 Hr0 Hw. simpl. rewrite Ht. by apply H1. }
  destruct r as [[page next]|x]; [|by apply Hx]. destruct (Hp page next eq_refl) as (? & ? & ?). by apply Hk.
Qed.

Lemma page_take (n : nat) (page : list MigrationRecord) :
  page = take (length page) (drop n records) -> take (n + length page) records = take n records ++ page.
Proof. intros Hp. rewrite Hp at 2. by rewrite take_take_drop. Qed.

(** The comparison reads the whole source. *)
Lemma compare_pages_source fuel found cur n d s e :
  wp (compare_pages c fuel t found cur (take (pos cur) records) n d) (fun r s' _ =>
    keeps s s' /\ forall src n' d', r = Ok (src, n', d') -> src = records) s e.
Proof.
  revert cur n d s e. induction fuel as [|fuel IH]; intros cur n d s e; cbn [compare_pages].
  { apply wp_raise. split; [reflexivity|done]. }
  apply wp_kept; [apply kept_assert|intros x s1 H1; by split|]. intros _ s1 e1 H1. apply wp_fetch.
  { intros x s2 H2. split; [by etrans|done]. }
  intros page next s2 e2 H2 Hp Hle Hn.
  apply wp_kept; [apply kept_count|intros x s3 H3; split; [by do 2 (etrans; [eassumption|])|done]|]. intros _ s3 e3 H3.
  apply wp_kept; [apply kept_raise_if|intros x s4 H4; split; [by do 3 (etrans; [eassumption|])|done]|]. intros _ s4 e4 H4.
  apply wp_kept; [apply kept_compare_records|intros x s5 H5; split; [by do 4 (etrans; [eassumption|])|done]|].
  intros [n' d'] s5 e5 H5. assert (Hk : keeps s s5) by (do 4 (etrans; [eassumption|]); done).
  rewrite <-(page_take _ _ Hp). destruct next as [cur'|]; simpl.
  - rewrite <-Hn. eapply wp_mono; [apply IH|]. intros r s6 e6 [H6 Hr]. split; [by etrans|done].
  - rewrite Hn, firstn_all. apply wp_ret. split; [done|]. by intros ? ? ? [= <- _ _].
Qed.

(** ** Code that saves checkpoints *)

(** The target only gains records, and the stored checkpoint is truthful. *)
Definition advances (s s' : Coord W) : Prop :=
  holds (co_world s) (co_world s') /\ migration_ok (co_world s').

Lemma keeps_ok s s' : keeps s s' -> migration_ok (co_world s) -> migration_ok (co_world s').
Proof.
  intros [E Hh]. unfold migration_ok. rewrite E. destruct (ck (co_world s)); [|done]. intros. by eapply truthful_holds.
Qed.

Lemma keeps_advances s s' : keeps s s' -> migration_ok (co_world s) -> advances s s'.
Proof. intros Hk Hok. split; [apply Hk|by eapply keeps_ok]. Qed.

Lemma advances_after s s1 s2 : holds (co_world s) (co_world s1) -> advances s1 s2 -> advances s s2.
Proof. intros H1 [H2 Hok]. split; [by etrans|done]. Qed.

Lemma save_advances cp s e :
  migration_ok (co_world s) -> truthful cp (co_world s) ->
  wp (_save_checkpoint c cp) (fun _ s' _ => advances s s') s e.
Proof.
  intros Hok Hcp. unfold _save_checkpoint. apply (wp_kept _ _ (fun _ s' => advances s s')).
  - destruct (mc_guarded c); [apply kept_renew|apply kept_ret].
  - intros x s1 H1. by apply keeps_advances.
  - intros _ s1 e1 H1. apply wp_await; [|intros x s2 e2 H2; apply keeps_advances; [by etrans|done]].
    intros s2 e2 H2. assert (H12 : keeps s s2) by by etrans.
    eapply wp_mono; [apply law_save; apply Hcp|]. intros r w' e' [Ht Hc].
    assert (Hh : holds (co_world s) w').
    { intros r0 Hr0 Hw. rewrite Ht. by apply H12. }
    split; [done|]. unfold migration_ok. simpl. destruct Hc as [->|[-> _]].
    + by eapply truthful_holds.
    + pose proof (keeps_ok _ _ H12 Hok) as Hok2. unfold migration_ok in Hok2. destruct (ck (co_world s2)); [|done].
      eapply truthful_holds; [exact Hok2|]. intros r0 _ Hw. by rewrite Ht.
Qed.

Lemma copy_records_copied l s e :
  (forall r, r ∈ l -> r ∈ records) ->
  wp (copy_records c t l) (fun o s' _ => keeps s s' /\
    (o = Ok tt -> forall r, r ∈ l -> tgt (co_world s') !! rec_key r = Some r)) s e.
Proof.
  revert s e. induction l as [|r l IH]; intros s e Hin; cbn [copy_records].
  { apply wp_ret. split; [reflexivity|]. intros _ r Hr. by apply elem_of_nil in Hr. }
  apply wp_kept; [apply kept_assert|intros x s1 H1; by split|]. intros _ s1 e1 H1.
  apply wp_bind, wp_await; [|intros x s2 e2 H2; split; [by etrans|done]]. intros s2 e2 H2.
  eapply wp_mono; [apply law_upsert|]. intros o w' e' [Hc Hu].
  assert (H3 : keeps s (s2 <| co_world := w' |>)).
  { etrans; [by etrans|]. split; [done|]. simpl. destruct Hu as [Hu|[Hu _]].
    - eapply holds_insert; [apply Hin; left|done].
    - intros r0 _ Hw. by rewrite Hu. }
  destruct o as [[]|x]; [|by split]. eapply wp_mono; [apply IH; intros; apply Hin; by right|].
  intros o s4 e4 [H4 Hl]. split; [by etrans|]. intros Ho r0 [->|Hr0]%elem_of_cons; [|by apply Hl].
  apply H4; [apply Hin; left|]. simpl. destruct Hu as [->|[_ Hu]]; [apply lookup_insert_eq|done].
Qed.

Lemma page_in n (page : list MigrationRecord) r :
  page = take (length page) (drop n records) -> r ∈ page -> r ∈ records.
Proof.
  intros Hp Hr. rewrite Hp in Hr. eapply elem_of_sublist; [exact Hr|].
  etrans; [apply sublist_take|apply sublist_drop].
Qed.

Lemma checksum_app a l1 l2 : checksum_from a (l1 ++ l2) = checksum_from (checksum_from a l1) l2.
Proof. apply fold_left_app. Qed.

Lemma copy_pages_ok fuel cp cur s e :
  migration_ok (co_world s) -> cp_tenant_id cp = t -> cp_migration_id cp = mid -> cp_phase cp = BACKFILL ->
  (pos cur <= length records)%nat -> copied (pos cur) (co_world s) ->
  wp (copy_pages c fuel cp cur (Z.of_nat (pos cur)) (checksum_from zero_checksum (take (pos cur) records)))
    (fun r s' _ => advances s s' /\ forall cp', r = Ok cp' -> truthful cp' (co_world s')) s e.
Proof.
  revert cp cur s e. induction fuel as [|fuel IH]; intros cp cur s e Hok Ht Hm Hp Hle Hcp; cbn [copy_pages].
  { apply wp_raise. split; [split; [reflexivity|done]|done]. }
  rewrite Ht. set (Q := fun (r : outcome MigrationCheckpoint) s' =>
    advances s s' /\ forall cp', r = Ok cp' -> truthful cp' (co_world s')).
  assert (Hx : forall x s1, keeps s s1 -> Q (Raise x) s1) by (intros x s1 H1; split; [by apply keeps_advances|done]).
  apply (wp_fetch cur _ Q); [done|]. intros page next s1 e1 H1 Hpg _ Hn.
  assert (Hlen : (pos cur + length page <= length records)%nat).
  { pose proof (f_equal length Hpg) as Hl. rewrite length_take, length_drop in Hl. lia. }
  apply (wp_kept _ _ Q); [apply kept_raise_if|intros; apply Hx; by etrans|]. intros _ s2 e2 H2.
  apply (wp_kept _ _ Q); [apply kept_count|intros; apply Hx; by do 2 (etrans; [eassumption|])|]. intros _ s3 e3 H3.
  assert (H03 : keeps s s3) by (do 2 (etrans; [eassumption|]); done).
  apply wp_bind. eapply wp_mono; [apply copy_records_copied; intros r; by apply (page_in (pos cur))|].
  intros [[]|x] s4 e4 [H4 Hl]; [|apply Hx; by etrans]. specialize (Hl eq_refl).
  assert (H04 : keeps s s4) by by etrans. pose proof (keeps_ok _ _ H04 Hok) as Hok4.
  rewrite <-checksum_app, <-(page_take _ _ Hpg), <-Nat2Z.inj_add.
  assert (Hcp4 : copied (pos cur + length page) (co_world s4)).
  { intros r. rewrite (page_take _ _ Hpg). intros [Hr|Hr]%elem_of_app; [|by apply Hl].
    eapply copied_holds; [exact Hcp|apply H04|exact Hr]. }
  apply (wp_kept _ _ Q); [apply kept_totals|intros; apply Hx; by etrans|]. intros _ s5 e5 H5.
  assert (H05 : keeps s s5) by by etrans. pose proof (keeps_ok _ _ H05 Hok) as Hok5.
  pose proof (copied_holds _ _ _ Hcp4 (proj2 H5)) as Hcp5.
  apply wp_bind. eapply wp_mono; [apply save_advances; [done|]|].
  - split_and!; [done|done|]. simpl. rewrite Hp. destruct next as [cur'|]; simpl.
    + rewrite Hn. split; [exact Hlen|]. split; [exact Hcp5|done].
    + rewrite <-Hn. done.
  - intros [[]|x] s6 e6 H6.
    2:{ split; [|done]. eapply advances_after; [apply H05|exact H6]. }
    assert (H06 : advances s s6) by (eapply advances_after; [apply H05|exact H6]).
    assert (Hcp6 : copied (pos cur + length page) (co_world s6)) by (eapply copied_holds; [exact Hcp5|apply H6]).
    destruct next as [cur'|]; simpl.
    + apply (wp_kept _ _ Q); [apply kept_raise_if| |].
      { intros x s7 H7. split; [|done]. eapply advances_after; [apply H06|]. apply keeps_advances; [done|apply H6]. }
      intros _ s7 e7 H7. rewrite <-Hn. eapply wp_mono; [apply IH; try done|].
      * eapply keeps_ok; [exact H7|apply H6].
      * by rewrite Hn.
      * rewrite Hn. eapply copied_holds; [exact Hcp6|apply H7].
      * intros r s8 e8 [H8 Hr]. split; [|done]. eapply advances_after; [|exact H8]. etrans; [apply H06|apply H7].
    + apply wp_ret. split; [done|]. intros cp' [= <-]. split_and!; [done|done|]. simpl. rewrite Hp. rewrite <-Hn. done.
Qed.

(** ** Phases *)

(** What [_validate_transition] accepts. *)
Definition allowed (current : option MigrationCheckpoint) (p : MigrationPhase) : Prop :=
  p = ROLLBACK \/
  match current with
  | None => p = PREPARE
  | Some cp =>
    (cp_phase cp = p /\ cp_completed cp = false) \/
    (cp_completed cp = true /\ exists i, order_index (cp_phase cp) _ORDER = Some i /\ _ORDER !! S i = Some p)
  end.

Lemma transition_allowed cur p (s : Coord W) e :
  wp (_validate_transition cur p) (fun r s' _ => s' = s /\ (r = Ok tt -> allowed cur p)) s e.
Proof.
  unfold _validate_transition, allowed. destruct (bool_decide (p = ROLLBACK)) eqn:Hr; [bool_prop; subst; apply wp_ret; by auto|].
  destruct cur as [cp|].
  - destruct (bool_decide (cp_phase cp = p) && _) eqn:Hb; [bool_prop; apply wp_ret; naive_solver|].
    apply wp_bind, wp_raise_if; [done|]. intros Hc. bool_prop.
    destruct (order_index _ _) as [i|] eqn:Hi; [|by apply wp_raise].
    apply wp_raise_if; [done|]. intros Hn. bool_prop. naive_solver.
  - apply wp_raise_if; [done|]. intros Hn. bool_prop. naive_solver.
Qed.

Lemma start_ok cur p w :
  allowed cur p -> match cur with None => True | Some cp => truthful cp w end ->
  let cp := start_checkpoint cur t mid p in truthful cp w /\ cp_phase cp = p /\ cp_completed cp = false.
Proof.
  intros Ha Hw. destruct cur as [cp|]; simpl.
  2:{ destruct Ha as [->| ->]; by split_and!. }
  destruct (bool_decide (cp_phase cp = p) && _) eqn:Hb; [bool_prop; naive_solver|].
  destruct Hw as (Ht & Hm & Hw). destruct Ha as [->|[[<- Hc]|(Hc & i & Hi & Hn)]].
  - by split_and!.
  - by rewrite Hc, bool_decide_true in Hb.
  - split_and!; [split_and!; [done|done|]|done|done]. rewrite Hc in Hw.
    destruct (cp_phase cp); try discriminate Hi; injection Hi as <-; first [discriminate Hn|injection Hn as <-]; try done.
    simpl. rewrite law_start. split; [lia|]. split; [by intros r Hr%elem_of_nil|apply Hw].
Qed.

(** What a run keeps true, with the checkpoint it returns. *)
Definition run_ok (s : Coord W) (r : outcome MigrationCheckpoint) (s' : Coord W) : Prop :=
  advances s s' /\ forall cp, r = Ok cp -> truthful cp (co_world s').

Lemma keeps_run_ok s s' x : keeps s s' -> migration_ok (co_world s) -> run_ok s (Raise x) s'.
Proof. intros Hk Hok. split; [by apply keeps_advances|done]. Qed.

Lemma completed_truthful cp w : cp_phase cp <> BACKFILL -> truthful cp w -> truthful (cp <| cp_completed := true |>) w.
Proof. intros Hp (? & ? & Hcp). split_and!; [done..|]. simpl. by destruct (cp_phase cp). Qed.

(** The phases that make one call and complete. *)
Lemma simple_phase {A} (m : M (Coord W) A) cp s e :
  migration_ok (co_world s) -> truthful cp (co_world s) -> cp_phase cp <> BACKFILL ->
  wp m (fun _ s' _ => keeps s s') s e ->
  wp (m ;; ret (cp <| cp_completed := true |>)) (fun r s' _ => run_ok s r s') s e.
Proof.
  intros Hok Hcp Hp Hm. apply wp_bind. eapply wp_mono; [exact Hm|]. intros [a|x] s' e' Hk; [|by apply keeps_run_ok].
  apply wp_ret. split; [by apply keeps_advances|]. intros cp' [= <-]. apply completed_truthful; [done|].
  eapply truthful_holds; [exact Hcp|apply Hk].
Qed.

(** A call that may rely on what the target holds. *)
Lemma await_copied {A} (m : M W A) s e :
  copied (length records) (co_world s) ->
  (forall w e, (forall r, r ∈ records -> tgt w !! rec_key r = Some r) ->
     wp m (fun _ w' _ => tgt w' = tgt w /\ ck w' = ck w) w e) ->
  wp (_assert_lease c ;; await c m) (fun _ s' _ => keeps s s') s e.
Proof.
  intros Hc Hm. apply (wp_kept _ _ (fun _ s' => keeps s s')); [apply kept_assert|done|]. intros _ s1 e1 H1.
  apply wp_await; [|intros x s2 e2 H2; by etrans]. intros s2 e2 H2. assert (H02 : keeps s s2) by by etrans.
  eapply wp_mono.
  - apply Hm. intros r Hr. eapply copied_holds; [exact Hc|apply H02|]. by rewrite firstn_all.
  - intros r w' e' [Ht Hk]. etrans; [exact H02|]. split; [done|]. intros r0 _. simpl. by rewrite Ht.
Qed.

Lemma compare_all_ok cp b s e :
  migration_ok (co_world s) -> cp_phase cp = SHADOW_READ \/ cp_phase cp = VERIFY -> truthful cp (co_world s) ->
  wp (_compare_all c cp b) (fun r s' _ => run_ok s r s') s e.
Proof.
  intros Hok Hp (Ht & Hm & Hcp). unfold _compare_all. rewrite Ht.
  apply (wp_kept _ _ (run_ok s)); [|intros; by apply keeps_run_ok|].
  { destruct target_enumerable; [apply kept_enumerate_kinds|apply kept_ret]. }
  intros en s1 e1 H1. apply wp_bind. eapply wp_mono.
  { rewrite <-(take_0 records), <-law_start. apply compare_pages_source. }
  intros [[[src n] d]|x] s2 e2 [H2 Hs]; [|apply keeps_run_ok; [by etrans|done]].
  rewrite (Hs _ _ _ eq_refl). assert (H02 : keeps s s2) by by etrans.
  apply (wp_kept _ _ (run_ok s)); [apply kept_totals|intros; apply keeps_run_ok; [by etrans|done]|]. intros _ s3 e3 H3.
  assert (H03 : keeps s s3) by by etrans.
  match goal with |- context [_save_checkpoint c ?r] => set (result := r) end.
  assert (Hr : truthful result (co_world s3)).
  { split_and!; [done|done|]. simpl. assert (Hcp' : copied (length records) (co_world s)) by (destruct Hp as [E|E]; rewrite E in Hcp; apply Hcp).
    pose proof (copied_holds _ _ _ Hcp' (proj2 H03)) as Hc3.
    by destruct Hp as [->| ->]; (split; [done|]); (split; [done|]); rewrite firstn_all. }
  apply wp_bind. eapply wp_mono; [apply save_advances; [by eapply keeps_ok|exact Hr]|].
  intros [[]|x] s4 e4 H4; (assert (H04 : advances s s4) by (eapply advances_after; [apply H03|exact H4])); [|by split].
  apply (wp_kept _ _ (run_ok s)); [apply kept_raise_if| |].
  - intros x s5 H5. split; [|done]. eapply advances_after; [apply H04|]. apply keeps_advances; [done|apply H4].
  - intros _ s5 e5 H5. apply wp_ret. split.
    + eapply advances_after; [apply H04|]. apply keeps_advances; [done|apply H4].
    + intros cp' [= <-]. eapply truthful_holds; [exact Hr|]. etrans; [apply H4|apply H5].
Qed.

Lemma wp_assoc {A B D} (m : M (Coord W) A) (k1 : A -> M (Coord W) B) (k2 : B -> M (Coord W) D) Q s e :
  wp (bind (bind m k1) k2) Q s e -> wp (bind m (fun a => bind (k1 a) k2)) Q s e.
Proof. unfold wp, bind. by destruct (m s e) as [[[a|x] s'] e']. Qed.

Lemma wp_keeps_bind {A B} (m : M (Coord W) A) (k : A -> M (Coord W) B) s e :
  wp m (fun _ s' _ => keeps s s') s e -> (forall a, kept (k a)) -> wp (bind m k) (fun _ s' _ => keeps s s') s e.
Proof.
  intros Hm Hk. apply wp_bind. eapply wp_mono; [exact Hm|]. intros [a|x] s1 e1 H1; [|done].
  eapply wp_mono; [apply Hk|]. intros r s2 e2 H2. by etrans.
Qed.

Lemma kept_call {A} (m : M W A) : leaves tgt ck m -> kept (_assert_lease c ;; await c m).
Proof. intros Hm. apply kept_bind; [apply kept_assert|]. intros _. by apply kept_await. Qed.

Lemma run_phase_ok cp p s e :
  migration_ok (co_world s) -> truthful cp (co_world s) -> cp_phase cp = p -> cp_completed cp = false ->
  wp (run_phase c t cp p) (fun r s' _ => run_ok s r s') s e.
Proof.
  intros Hok Hcp Hp Hc. pose proof Hcp as (Ht & Hm & Hw). rewrite Hp in Hw. destruct p; cbn [run_phase].
  - apply wp_assoc, simple_phase; [done..|congruence|]. apply kept_call, law_prepare.
  - rewrite Hc in Hw. destruct Hw as (Hle & Hcopied & Hn & Hsum). unfold _copy_all. rewrite Hn, Hsum.
    by apply copy_pages_ok.
  - apply compare_all_ok; auto.
  - apply wp_assoc, simple_phase; [done..|congruence|]. apply kept_call, law_dual.
  - apply wp_assoc, simple_phase; [done..|congruence|]. apply await_copied; [apply Hw|]. apply law_cutover.
  - apply compare_all_ok; auto.
  - do 3 apply wp_assoc. apply simple_phase; [done..|congruence|]. apply wp_keeps_bind; [apply wp_keeps_bind|]; [|intros _..].
    + apply await_copied; [apply Hw|]. apply law_cleanup.
    + apply kept_assert.
    + apply kept_await, law_dual.
  - do 3 apply wp_assoc. apply simple_phase; [done..|congruence|]. apply kept_bind; [apply kept_bind|]; [|intros _..].
    + apply kept_call, law_rollback.
    + apply kept_assert.
    + apply kept_await, law_dual.
Qed.

Lemma run_once_ok p s e :
  migration_ok (co_world s) -> wp (_run_once c t mid p) (fun _ s' _ => advances s s') s e.
Proof.
  intros Hok. unfold _run_once. set (Q := fun (_ : outcome MigrationResult) s' => advances s s').
  assert (Hx : forall r s1, keeps s s1 -> Q r s1) by (intros; by apply keeps_advances).
  apply (wp_kept _ _ Q); [apply kept_scope|intros; by apply Hx|]. intros _ s1 e1 H1.
  apply (wp_kept _ _ Q); [apply kept_source_snapshot|intros; apply Hx; by etrans|]. intros _ s2 e2 H2.
  assert (H02 : keeps s s2) by by etrans. apply wp_bind, wp_await; [|intros x s3 e3 H3; apply Hx; by etrans].
  intros s3 e3 H3. eapply wp_mono; [apply law_load|]. intros r w' e' [[Ht Hc] Hl]. set (s4 := s3 <| co_world := w' |>).
  assert (H04 : keeps s s4).
  { etrans; [exact H02|]. etrans; [exact H3|]. split; [done|]. intros r0 _. simpl. by rewrite Ht. }
  pose proof (keeps_ok _ _ H04 Hok) as Hok4. destruct r as [cur|x]; [|by apply Hx].
  assert (Hcur : match cur with None => True | Some cp => truthful cp (co_world s4) end).
  { rewrite (Hl cur eq_refl), <-Hc. exact Hok4. }
  apply wp_bind. eapply wp_mono; [apply transition_allowed|]. intros [[]|x] ? e5 [-> Ha]; [|by apply Hx].
  destruct (start_ok cur p (co_world s4) (Ha eq_refl) Hcur) as (Hs & Hp & Hf).
  apply wp_bind. eapply wp_mono; [by apply run_phase_ok|]. intros r s5 e6 [H5 Hr].
  assert (H05 : advances s s5) by (eapply advances_after; [apply H04|exact H5]). destruct r as [cp|x]; [|done].
  apply wp_bind. eapply wp_mono; [apply save_advances; [apply H05|by apply Hr]|]. intros r s6 e7 H6.
  assert (H06 : advances s s6) by (eapply advances_after; [apply H05|exact H6]). destruct r as [_|x]; [|done].
  assert (Hy : forall r s7, keeps s6 s7 -> Q r s7).
  { intros r s7 H7. eapply advances_after; [apply H06|]. apply keeps_advances; [done|apply H06]. }
  apply (wp_kept _ _ Q); [apply kept_source_snapshot|intros; by apply Hy|]. intros _ s7 e8 H7.
  apply (wp_kept _ _ Q); [apply kept_target_snapshot|intros; apply Hy; by etrans|]. intros o s8 e9 H8.
  destruct (default _ o). apply wp_ret, Hy. by etrans.
Qed.

Lemma coordinator_run_ok p s e : migration_ok (co_world s) -> wp (run c t mid p) (fun _ s' _ => advances s s') s e.
Proof.
  intros Hok. unfold run. destruct (mc_guarded c); [|by apply run_once_ok]. unfold _lease_liveness.
  set (Q := fun (_ : outcome MigrationResult) s' => advances s s').
  apply (wp_kept _ _ Q); [by apply kept_modify|intros; by apply keeps_advances|]. intros _ s1 e1 H1.
  apply (wp_kept _ _ Q); [apply kept_assert|intros; apply keeps_advances; [by etrans|done]|]. intros _ s2 e2 H2.
  assert (H02 : keeps s s2) by by etrans. apply wp_bind.
  eapply wp_mono; [apply run_once_ok; by eapply keeps_ok|]. intros r s3 e3 H3.
  assert (H03 : advances s s3) by (eapply advances_after; [apply H02|exact H3]). destruct r as [a|x]; [|done].
  apply (wp_mono _ (fun _ s' _ => keeps s3 s')).
  - apply kept_bind; [apply kept_heartbeat_error|intros _]. apply kept_bind; [apply kept_heartbeat|intros _].
    apply kept_bind; [apply kept_heartbeat_error|intros _]. apply kept_ret.
  - intros r s4 e4 H4. eapply advances_after; [apply H03|]. apply keeps_advances; [done|apply H3].
Qed.
End phases.

(** ** Sequences of runs *)

Section history.
Context {W : Type} {WW : MigrationWorld W} `{MigrationHash}.
Context {t mid : string} {records : list MigrationRecord} {pos : option string -> nat}.
Context {tgt : W -> gmap (string * string) MigrationRecord} {ck : W -> option MigrationCheckpoint}.
Context `{HL : !MigrationLaws WW t mid records pos tgt ck}.

(** One run of one process: any coordinator with any lease, any phase, any schedule of
    the heartbeat, any outcome. *)
Inductive run_step (w : W) : W -> Prop :=
  | run_step_run (schedule : Schedule) (c : MigrationCoordinator) (lease : option MigrationLease) (error : option exn)
      (p : MigrationPhase) (e : effects) r s' e' :
      run c t mid p (MkCoord lease error w) e = (r, s', e') -> run_step w (co_world s').

Abbreviation migration_ok := (migration_ok (t := t) (mid := mid) (records := records) (pos := pos) (tgt := tgt) (ck := ck)).

Lemma run_steps_ok w w' : rtc run_step w w' -> migration_ok w -> migration_ok w'.
Proof.
  induction 1 as [|w w1 w' [schedule c lease error p e r s' e' E] _ IH]; [done|]. intros Hok. apply IH.
  pose proof (coordinator_run_ok c p (MkCoord lease error w) e Hok) as Hr. unfold wp in Hr. rewrite E in Hr. apply Hr.
Qed.
End history.

(** The phases that only run after a completed backfill. *)
Definition copied_phase (cp : MigrationCheckpoint) : bool :=
  match cp_phase cp with
  | BACKFILL => cp_completed cp
  | SHADOW_READ | DUAL_WRITE | CUTOVER | VERIFY | CLEANUP => true
  | PREPARE | ROLLBACK => false
  end.

(** What the invariant says of such a checkpoint. *)
Lemma copied_checkpoint {W : Type} `{MigrationHash} {t mid records pos} {tgt : W -> _} {ck : W -> _} w cp :
  migration_ok (t := t) (mid := mid) (records := records) (pos := pos) (tgt := tgt) (ck := ck) w ->
  ck w = Some cp -> copied_phase cp = true ->
  (forall r, r ∈ records -> tgt w !! rec_key r = Some r) /\
  cp_source_count cp = Z.of_nat (length records) /\ cp_checksum cp = checksum_from zero_checksum records.
Proof.
  unfold migration_ok. intros Hs Hcp Hp. rewrite Hcp in Hs. destruct Hs as (_ & _ & Hs).
  assert (Hc : copied (records := records) (tgt := tgt) (length records) w /\ totals (records := records) (length records) cp).
  { unfold copied_phase in Hp. destruct (cp_phase cp); try discriminate Hp; try exact Hs. by rewrite Hp in Hs. }
  destruct Hc as [Hc Ht]. unfold copied in Hc. unfold totals in Ht. by rewrite firstn_all in Hc, Ht.
Qed.

Section theorems.
Context {W : Type} {WW : MigrationWorld W} `{MigrationHash}.

(** C33: a run of a migration always ends, whatever the source and the target answer:
    its page loops stop within one page for every record a migration may have, because
    a page that is not the last one must hold a record and move the cursor. *)
Theorem migration_run_terminates `{Schedule} (c : MigrationCoordinator) (t mid : string) (p : MigrationPhase) s e :
  world_fueled (W := W) -> (run c t mid p s e).1.1 <> Raise out_of_fuel.
Proof. intros HW. exact (run_fueled c HW t mid p s e). Qed.

Context {t mid : string} {records : list MigrationRecord} {pos : option string -> nat}.
Context {tgt : W -> gmap (string * string) MigrationRecord} {ck : W -> option MigrationCheckpoint}.
Context `{HL : !MigrationLaws WW t mid records pos tgt ck}.

(** C32: along any sequence of runs of a migration, each in any phase, with any lease and
    failing anywhere, a stored checkpoint of a completed backfill or of a later phase
    (cutover and cleanup among them) means that every record of the source is in the
    target, and its count and checksum are those of the whole source. *)
Theorem cutover_only_after_full_copy w w' cp :
  ck w = None -> rtc (run_step (t := t) (mid := mid)) w w' -> ck w' = Some cp -> copied_phase cp = true ->
  (forall r, r ∈ records -> tgt w' !! rec_key r = Some r) /\
  cp_source_count cp = Z.of_nat (length records) /\ cp_checksum cp = checksum_from zero_checksum records.
Proof.
  intros Hw Hs. apply run_steps_ok in Hs; [exact (copied_checkpoint _ _ Hs)|]. unfold migration_ok. by rewrite Hw.
Qed.

(** a backfill that was interrupted resumes where it stopped: its stored cursor is a
    position of the source before which every record was copied, and the stored count and
    checksum are those of exactly these records. *)
Theorem backfill_resumes w w' cp :
  ck w = None -> rtc (run_step (t := t) (mid := mid)) w w' -> ck w' = Some cp ->
  cp_phase cp = BACKFILL -> cp_completed cp = false ->
  let n := pos (cp_cursor cp) in
  (n <= length records)%nat /\ (forall r, r ∈ take n records -> tgt w' !! rec_key r = Some r) /\
  cp_source_count cp = Z.of_nat n /\ cp_checksum cp = checksum_from zero_checksum (take n records).
Proof.
  intros Hw Hs Hcp Hp Hc. apply run_steps_ok in Hs; [|unfold migration_ok; by rewrite Hw].
  unfold migration_ok in Hs. rewrite Hcp in Hs. destruct Hs as (_ & _ & Hs). by rewrite Hp, Hc in Hs.
Qed.
End theorems.

(** ** A migration in memory *)

(** Records in a list, a target in a map; the cursor of a page is a string of the length
    of its position; a budget of writes, after which the target fails. *)
Record MemWorld : Type := MkMemWorld {
  mw_target : gmap (string * string) MigrationRecord;
  mw_checkpoints : Checkpoints;
  mw_writes : nat;
}.

#[export] Instance MemWorld_settable : Settable MemWorld := fun r =>
  MkMemWorld (mw_target r) (mw_checkpoints r) (mw_writes r).

Definition mem_pos (cursor : option string) : nat := match cursor with None => 0%nat | Some c => String.length c end.

Fixpoint mem_cursor (n : nat) : string := match n with O => EmptyString | S n => String (Ascii.ascii_of_nat 120) (mem_cursor n) end.

Definition mem_fetch (records : list MigrationRecord) (cursor : option string) (limit : Z)
    : M MemWorld (list MigrationRecord * option string) :=
  let n := mem_pos cursor in
  raise_if (length records <? n)%nat (ValueError "migration cursor is outside the source snapshot") ;;
  let page := take (Z.to_nat limit) (drop n records) in
  ret (page, if (n + length page <? length records)%nat then Some (mem_cursor (n + length page)) else None).

Definition mem_upsert (record : MigrationRecord) : M MemWorld unit :=
  let* writes := gets mw_writes in
  match writes with
  | O => raise (PostgresError "connection lost")
  | S writes =>
    modify (fun w => w <| mw_target := <[rec_key record := record]> (mw_target w) |> <| mw_writes := writes |>)
  end.

Definition mem_world (records : list MigrationRecord) : MigrationWorld MemWorld := {|
  src_fetch := fun _ cursor limit => mem_fetch records cursor limit;
  src_snapshot := None;
  tgt_prepare := fun _ => ret tt;
  tgt_upsert := fun _ record => mem_upsert record;
  tgt_read := fun _ kind resource_id => gets (fun w => mw_target w !! (kind, resource_id));
  tgt_set_dual_write := fun _ _ => ret tt;
  tgt_cutover := fun _ => ret tt;
  tgt_cleanup := fun _ => ret tt;
  tgt_rollback := fun _ => ret tt;
  tgt_list := None;
  tgt_page := None;
  tgt_bind := None;
  ck_load := fun t m => zoom mw_checkpoints (fun v w => w <| mw_checkpoints := v |>) (memory_load t m);
  ck_save := fun cp => zoom mw_checkpoints (fun v w => w <| mw_checkpoints := v |>) (memory_save cp);
  guard_renew := fun l _ => ret l;
  guard_assert_active := fun _ => ret tt;
|}.

Lemma mem_cursor_length n : String.length (mem_cursor n) = n.
Proof. induction n; simpl; congruence. Qed.

Lemma take_self {A} n (l : list A) : take n l = take (length (take n l)) l.
Proof. rewrite <-(firstn_all (take n l)) at 1. rewrite take_take. f_equal. rewrite length_take. lia. Qed.

Lemma mem_fetch_law records t cur lim w e :
  wp (mem_fetch records cur lim) (fun r w' _ => (mw_target w' = mw_target w /\ mw_checkpoints w' !! t = mw_checkpoints w !! t) /\
    forall page next, r = Ok (page, next) ->
      page = take (length page) (drop (mem_pos cur) records) /\ (mem_pos cur <= length records)%nat /\
      match next with
      | None => (mem_pos cur + length page)%nat = length records
      | Some _ => mem_pos next = (mem_pos cur + length page)%nat
      end) w e.
Proof.
  unfold mem_fetch. apply wp_bind, wp_raise_if; [done|]. intros Hn. apply Nat.ltb_ge in Hn. apply wp_ret. split; [done|].
  intros page next [= <- <-]. set (page := take _ (drop _ records)).
  assert (Hl : (mem_pos cur + length page <= length records)%nat).
  { unfold page. rewrite length_take, length_drop. lia. }
  split; [|split; [done|]].
  - apply take_self.
  - destruct (_ <? _)%nat eqn:Hlt; [apply mem_cursor_length|]. apply Nat.ltb_ge in Hlt. lia.
Qed.

Lemma mem_laws t mid records :
  NoDup (map rec_key records) ->
  MigrationLaws (mem_world records) t mid records mem_pos mw_target (fun w => mw_checkpoints w !! (t, mid)).
Proof.
  intros Hd. split; try done.
  - intros. apply mem_fetch_law.
  - intros r w e. simpl. unfold mem_upsert, wp, bind, gets. simpl. destruct (mw_writes w); simpl; auto.
  - intros w e. split; [done|]. by intros cp [= <-].
  - intros cp w e <- <-. split; [done|]. left. simpl. apply lookup_insert_eq.
Qed.

Lemma mem_world_fueled records : world_fueled (H := mem_world records).
Proof.
  split; try done.
  - intros t cur lim. simpl. unfold mem_fetch. fueled.
  - intros t r. simpl. unfold mem_upsert. fueled.
Qed.

Definition mem_records : list MigrationRecord :=
  [MkMigrationRecord "session" "s1" ∅; MkMigrationRecord "session" "s2" ∅; MkMigrationRecord "memory" "m1" ∅].

#[local] Instance mem_hash : MigrationHash := {|
  record_checksum := rec_resource_id;
  _rolling_checksum := fun a b => (a +:+ b)%string;
|}.

#[local] Instance mem_schedule : Schedule := fun _ => true.

Definition mem_coordinator : MigrationCoordinator := MkCoordinator 2 false None 60000000.
Definition mem_start (writes : nat) : MemWorld := MkMemWorld ∅ ∅ writes.

(** The world after one run. *)
Definition mem_run (p : MigrationPhase) (w : MemWorld) : MemWorld :=
  co_world (run (H := mem_world mem_records) mem_coordinator "t" "m" p (MkCoord None None w) (Effects 0 0)).1.2.

Lemma mem_run_step p w : run_step (WW := mem_world mem_records) (t := "t") (mid := "m") w (mem_run p w).
Proof.
  unfold mem_run. destruct (run _ _ _ _ _ _) as [[r s'] e'] eqn:E.
  exact (run_step_run w mem_schedule mem_coordinator None None p (Effects 0 0) r s' e' E).
Defined.

Lemma mem_records_distinct : NoDup (map rec_key mem_records).
Proof. by apply (bool_decide_unpack _). Qed.

Lemma migration_run_terminates_witness :
  (run (H := mem_world mem_records) mem_coordinator "t" "m" PREPARE
    (MkCoord None None (mem_start 3)) (Effects 0 0)).1.1 <> Raise out_of_fuel.
Proof. exact (migration_run_terminates mem_coordinator "t" "m" PREPARE _ _ (mem_world_fueled mem_records)). Defined.

(** Two of the three writes succeed: the backfill stops after its first page. *)
Definition mem_interrupted : MemWorld := mem_run BACKFILL (mem_run PREPARE (mem_start 2)).
Definition mem_cut_over : MemWorld :=
  mem_run CUTOVER (mem_run DUAL_WRITE (mem_run SHADOW_READ (mem_run BACKFILL (mem_run PREPARE (mem_start 3))))).

Lemma cutover_only_after_full_copy_witness :
  mw_target mem_cut_over !! ("memory"%string, "m1"%string) = Some (MkMigrationRecord "memory" "m1" ∅).
Proof.
  destruct (mw_checkpoints mem_cut_over !! ("t"%string, "m"%string)) as [cp|] eqn:E; [|vm_compute in E; discriminate].
  refine (proj1 (cutover_only_after_full_copy (HL := mem_laws "t" "m" mem_records mem_records_distinct)
    (mem_start 3) mem_cut_over cp eq_refl _ E _) (MkMigrationRecord "memory" "m1" ∅) _).
  - unfold mem_cut_over. do 5 (eapply rtc_r; [|apply mem_run_step]). apply rtc_refl.
  - vm_compute in E. injection E as <-. reflexivity.
  - do 2 right. left.
Defined.

Lemma backfill_resumes_witness :
  exists cp, mw_checkpoints mem_interrupted !! ("t"%string, "m"%string) = Some cp /\ mem_pos (cp_cursor cp) = 2%nat /\
    mw_target mem_interrupted !! ("session"%string, "s2"%string) = Some (MkMigrationRecord "session" "s2" ∅).
Proof.
  destruct (mw_checkpoints mem_interrupted !! ("t"%string, "m"%string)) as [cp|] eqn:E; [|vm_compute in E; discriminate].
  assert (H : cp_phase cp = BACKFILL /\ cp_completed cp = false /\ mem_pos (cp_cursor cp) = 2%nat).
  { vm_compute in E. injection E as <-. by split_and!. }
  destruct H as (Hp & Hc & Hn). exists cp. split; [done|]. split; [done|].
  refine (proj1 (proj2 (backfill_resumes (HL := mem_laws "t" "m" mem_records mem_records_distinct)
    (mem_start 2) mem_interrupted cp eq_refl _ E Hp Hc)) (MkMigrationRecord "session" "s2" ∅) _).
  - unfold mem_interrupted. do 2 (eapply rtc_r; [|apply mem_run_step]). apply rtc_refl.
  - rewrite Hn. right. left.
Defined.
