(* ===== verification/MigrationCheckpoints.v ===== *)
(** * The checkpoint table of a migration

    [PostgresMigrationCheckpointStore] of [trpc_service/storage/migration.py]: one row per
    phase, the last one written is the checkpoint.  The theorem says that it is the
    in-memory store of the coordinator as long as the server's clock moves forward.
    Row-level security and the reference to the tenant are not modelled; [differences]
    is kept as the list its JSON text stands for. *)

From S2P Require Import Prelude Datetime PyText MigrationGuard Migration.
#[local] Open Scope Z_scope.

Definition MigrationPhase_value (p : MigrationPhase) : string :=
  match p with
  | PREPARE => "prepare" | BACKFILL => "backfill" | SHADOW_READ => "shadow-read" | DUAL_WRITE => "dual-write"
  | CUTOVER => "cutover" | VERIFY => "verify" | CLEANUP => "cleanup" | ROLLBACK => "rollback"
  end.

(** [MigrationPhase(value)]. *)
Definition MigrationPhase_of (value : string) : option MigrationPhase :=
  List.find (fun p => bool_decide (MigrationPhase_value p = value))
    [PREPARE; BACKFILL; SHADOW_READ; DUAL_WRITE; CUTOVER; VERIFY; CLEANUP; ROLLBACK].

(** ** The table *)

Record CheckpointRow : Type := MkCheckpointRow {
  ro_source_count : Z;
  ro_target_count : Z;
  ro_checksum : option string;
  ro_differences : list string;
  ro_status : string;
  ro_cursor : option string;
  ro_updated_at : Z;
}.

(** Tenant, migration, phase and batch key. *)
Abbreviation CheckpointKey := (string * string * string * string)%type.
Abbreviation CheckpointTable := (gmap CheckpointKey CheckpointRow).

Definition count_ok (n : Z) : bool := (0 <=? n) && (n <=? MAX_MIGRATION_EXPECTED_RECORDS).

Definition row_of (cp : MigrationCheckpoint) (now : Z) : CheckpointRow :=
  MkCheckpointRow (cp_source_count cp) (cp_target_count cp) (Some (cp_checksum cp)) (cp_differences cp)
    (if cp_completed cp then "completed" else "running")%string (cp_cursor cp) now.

Definition key_of (cp : MigrationCheckpoint) : CheckpointKey :=
  (cp_tenant_id cp, cp_migration_id cp, MigrationPhase_value (cp_phase cp), "state"%string).

(** [save]; the counts are checked by constraints of the table. *)
Definition pg_save `{Env} (cp : MigrationCheckpoint) : M CheckpointTable unit :=
  let* now := datetime_now in
  raise_if (negb (count_ok (cp_source_count cp) && count_ok (cp_target_count cp))) (IntegrityError "migration_checkpoints_source_count_max") ;;
  modify (fun rows => <[key_of cp := row_of cp now]> rows).

(** [ORDER BY updated_at DESC LIMIT 1]. *)
Definition later (x : CheckpointKey * CheckpointRow) (best : option (CheckpointKey * CheckpointRow)) :=
  match best with
  | None => Some x
  | Some y => if ro_updated_at y.2 <? ro_updated_at x.2 then Some x else Some y
  end.

Definition latest (rows : list (CheckpointKey * CheckpointRow)) : option (CheckpointKey * CheckpointRow) := foldr later None rows.

Definition rows_for (tenant_id migration_id : string) (rows : CheckpointTable) : list (CheckpointKey * CheckpointRow) :=
  List.filter (fun x => bool_decide (x.1.1.1 = (tenant_id, migration_id))) (map_to_list rows).

(** [row["checksum"] or "0" * 64]. *)
Definition checkpoint_of (tenant_id migration_id : string) (key : CheckpointKey) (row : CheckpointRow)
    : outcome MigrationCheckpoint :=
  match MigrationPhase_of key.1.2 with
  | None => Raise (ValueError (key.1.2 +:+ " is not a valid MigrationPhase"))
  | Some phase =>
    if count_ok (ro_source_count row) && count_ok (ro_target_count row) then
      Ok (MkCheckpoint tenant_id migration_id phase (ro_cursor row) (ro_source_count row) (ro_target_count row)
            (str_or (ro_checksum row) zero_checksum) (ro_differences row)
            (bool_decide (ro_status row = "completed"%string)))
    else Raise (ValidationError "MigrationCheckpoint")
  end.

Definition pg_load (tenant_id migration_id : string) : M CheckpointTable (option MigrationCheckpoint) :=
  let* row := gets (fun rows => latest (rows_for tenant_id migration_id rows)) in
  match row with
  | None => ret None
  | Some (key, row) =>
    match checkpoint_of tenant_id migration_id key row with
    | Ok cp => ret (Some cp)
    | Raise x => raise x
    end
  end.

(** A sequence of saves, in the table and in memory. *)
Fixpoint save_all {S} (save : MigrationCheckpoint -> M S unit) (cps : list MigrationCheckpoint) : M S unit :=
  match cps with
  | [] => ret tt
  | cp :: rest => save cp ;; save_all save rest
  end.

(** ** The refinement *)

(** What the model of a checkpoint and the code that makes it guarantee. *)
Definition checkpoint_ok (cp : MigrationCheckpoint) : bool :=
  count_ok (cp_source_count cp) && count_ok (cp_target_count cp) && negb (str_empty (cp_checksum cp)).

Lemma phase_value_of p : MigrationPhase_of (MigrationPhase_value p) = Some p.
Proof. by destruct p. Qed.

Lemma checkpoint_of_row cp now :
  checkpoint_ok cp = true -> checkpoint_of (cp_tenant_id cp) (cp_migration_id cp) (key_of cp) (row_of cp now) = Ok cp.
Proof.
  unfold checkpoint_ok, checkpoint_of. intros [Hc Hs]%andb_true_iff. unfold key_of, row_of. cbn [fst snd ro_source_count ro_target_count]. rewrite phase_value_of, Hc. cbn.
  destruct (str_empty (cp_checksum cp)); [done|]. by destruct cp as [? ? ? ? ? ? ? ? []].
Qed.

(** The row that is newer than every other is the answer. *)
Lemma latest_newest rows x :
  x ∈ rows -> (forall y, y ∈ rows -> y = x \/ ro_updated_at y.2 < ro_updated_at x.2) -> latest rows = Some x.
Proof.
  intros Hx Hy. assert (Hl : forall rows, (forall y, y ∈ rows -> y = x \/ ro_updated_at y.2 < ro_updated_at x.2) ->
    match latest rows with
    | None => rows = []
    | Some z => (x ∈ rows -> z = x) /\ (z = x \/ ro_updated_at z.2 < ro_updated_at x.2)
    end).
  { clear. induction rows as [|y rows IH]; intros Hall; [done|].
    change (latest (y :: rows)) with (later y (latest rows)).
    specialize (IH (fun z Hz => Hall z (list_elem_of_further _ _ _ Hz))). pose proof (Hall y (list_elem_of_here _ _)) as Hy.
    unfold later. destruct (latest rows) as [z|].
    - destruct IH as [Hz Hlt]. destruct (ro_updated_at z.2 <? ro_updated_at y.2) eqn:Hc; [apply Z.ltb_lt in Hc|apply Z.ltb_ge in Hc].
      + split; [|done]. intros [->|Hx]%elem_of_cons; [done|]. rewrite (Hz Hx) in Hc. destruct Hy; [done|lia].
      + split; [|done]. intros [<-|Hx]%elem_of_cons; [|by apply Hz]. destruct Hlt; [done|lia].
    - subst. split; [|done]. by intros ->%list_elem_of_singleton. }
  specialize (Hl rows Hy). destruct (latest rows) as [z|]; [by rewrite (proj1 Hl Hx)|]. subst. by apply elem_of_nil in Hx.
Qed.

Lemma elem_of_rows_for t m rows x :
  x ∈ rows_for t m rows <-> x.1.1.1 = (t, m) /\ rows !! x.1 = Some x.2.
Proof.
  unfold rows_for. rewrite list_elem_of_In, filter_In, <-list_elem_of_In, bool_decide_eq_true. destruct x as [k r].
  rewrite elem_of_map_to_list. tauto.
Qed.

Section refinement.
Context `{Env}.

(** The server's clock moves forward. *)
Class ClockAdvances : Prop := clock_lt : forall i j, (i < j)%nat -> clock_at i < clock_at j.

Context `{ClockAdvances}.

(** The table after [n] clock readings stands for the checkpoints in memory: the row of
    the last checkpoint is newer than every other row of its migration. *)
Definition stands_for (n : nat) (rows : CheckpointTable) (values : Checkpoints) : Prop :=
  (forall k r, rows !! k = Some r -> ro_updated_at r < clock_at n) /\
  forall t m,
    match values !! (t, m) with
    | None => forall p b, rows !! (t, m, p, b) = None
    | Some cp =>
      cp_tenant_id cp = t /\ cp_migration_id cp = m /\ checkpoint_ok cp = true /\
      exists now, rows !! key_of cp = Some (row_of cp now) /\
        forall p b r, rows !! (t, m, p, b) = Some r -> (t, m, p, b) = key_of cp \/ ro_updated_at r < now
    end.

Lemma pg_load_stands n rows values t m e :
  stands_for n rows values -> pg_load t m rows e = (Ok (values !! (t, m)), rows, e).
Proof.
  intros [_ Hs]. specialize (Hs t m). unfold pg_load, bind, gets. destruct (values !! (t, m)) as [cp|].
  - destruct Hs as (<- & <- & Hok & now & Hrow & Hall).
    rewrite (latest_newest _ (key_of cp, row_of cp now)); [by rewrite checkpoint_of_row| |].
    + by apply elem_of_rows_for.
    + intros [[[[t m] p] b] r] [[= -> ->] Hr]%elem_of_rows_for. cbn in Hr. destruct (Hall p b r Hr) as [E|?]; [|by right].
      left. rewrite E in Hr |- *. congruence.
  - assert (E : rows_for t m rows = []).
    { apply elem_of_nil_inv. intros [[[[t' m'] p] b] r] [[= -> ->] Hr]%elem_of_rows_for. cbn in Hr. by rewrite Hs in Hr. }
    by rewrite E.
Qed.

Lemma pg_save_stands rows values cp e :
  stands_for (ticks e) rows values -> checkpoint_ok cp = true ->
  exists rows' e', pg_save cp rows e = (Ok tt, rows', e') /\
    stands_for (ticks e') rows' (<[(cp_tenant_id cp, cp_migration_id cp) := cp]> values).
Proof.
  intros [Hold Hs] Hok. pose proof Hok as Hc. unfold checkpoint_ok in Hc. apply andb_true_iff in Hc as [Hc _].
  unfold pg_save, bind, datetime_now, raise_if, modify. rewrite Hc. cbn.
  eexists _, _. split; [done|]. cbn. pose proof (clock_lt (ticks e) (S (ticks e)) ltac:(lia)) as Hlt. split.
  - intros k r. rewrite lookup_insert. case_decide; [intros [= <-]; done|]. intros Hr%Hold. lia.
  - intros t m. rewrite lookup_insert. case_decide as E; [injection E as <- <-|].
    + split_and!; [done..|]. exists (clock_at (ticks e)). split; [by rewrite lookup_insert_eq|].
      intros p b r. rewrite lookup_insert. case_decide as E; [by left|]. intros Hr%Hold. by right.
    + specialize (Hs t m). destruct (values !! (t, m)) as [cp'|].
      * destruct Hs as (<- & <- & Hok' & now & Hrow & Hall). split_and!; [done..|]. exists now.
        assert (Hk : forall p b, key_of cp <> (cp_tenant_id cp', cp_migration_id cp', p, b)) by (intros p b [= ? ? _ _]; congruence).
        split; [rewrite lookup_insert_ne by apply Hk; exact Hrow|]. intros p b r. rewrite lookup_insert_ne by apply Hk. apply Hall.
      * intros p b. rewrite lookup_insert_ne; [done|]. intros [= ? ? _ _]. congruence.
Qed.

Lemma save_all_stands rows values cps e :
  stands_for (ticks e) rows values -> forallb checkpoint_ok cps = true ->
  exists rows' e', save_all pg_save cps rows e = (Ok tt, rows', e') /\
    stands_for (ticks e') rows' (save_all memory_save cps values e).1.2.
Proof.
  revert rows values e. induction cps as [|cp cps IH]; intros rows values e Hs; cbn [forallb]; [by exists rows, e|].
  intros [Hcp Hcps]%andb_true_iff. destruct (pg_save_stands rows values cp e Hs Hcp) as (rows1 & e1 & E1 & Hs1).
  destruct (IH rows1 _ e1 Hs1 Hcps) as (rows' & e' & E' & Hs'). exists rows', e'.
  cbn [save_all]. unfold bind at 1. rewrite E1. split; [done|]. unfold bind, memory_save at 1, modify. cbn.
  assert (Hm : forall v e e', (save_all memory_save cps v e).1.2 = (save_all memory_save cps v e').1.2).
  { clear. induction cps as [|cp cps IH]; intros v e e'; [done|]. cbn. apply IH. }
  by rewrite (Hm _ _ e1).
Qed.

(** the checkpoint table refines the checkpoint store of the coordinator: after any
    sequence of saves, of any migrations and phases, loading a migration's checkpoint from
    the table gives what the in-memory store gives, as long as the clock moves forward. *)
Theorem checkpoint_table_refines_memory cps t m e :
  forallb checkpoint_ok cps = true ->
  exists rows e', save_all pg_save cps ∅ e = (Ok tt, rows, e') /\
    pg_load t m rows e' = (Ok ((save_all memory_save cps ∅ e).1.2 !! (t, m)), rows, e').
Proof.
  intros Hc. destruct (save_all_stands ∅ ∅ cps e) as (rows & e' & E & Hs); [|done|].
  - split; [done|]. intros t' m'. by rewrite lookup_empty.
  - exists rows, e'. split; [done|]. by eapply pg_load_stands.
Qed.
End refinement.

(** ** A clock *)

#[local] Instance counting_env : Env := {|
  uuid_at := fun n => pretty n;
  clock_at := fun n => Z.of_nat n;
|}.

#[local] Instance counting_advances : ClockAdvances.
Proof. intros i j Hij. simpl. lia. Qed.

Lemma checkpoint_table_refines_memory_witness :
  exists rows e', save_all pg_save [new_checkpoint "t" "m" PREPARE; new_checkpoint "t" "m" BACKFILL] ∅ (Effects 0 0) = (Ok tt, rows, e') /\
    pg_load "t" "m" rows e' = (Ok (Some (new_checkpoint "t" "m" BACKFILL)), rows, e').
Proof.
  exact (checkpoint_table_refines_memory [new_checkpoint "t" "m" PREPARE; new_checkpoint "t" "m" BACKFILL] "t" "m" (Effects 0 0) eq_refl).
Defined.
