(* ===== verification/MigrationSource.v ===== *)
(** * The Redis source of a migration

    [RedisMigrationSource] of [trpc_service/storage/migration.py]: the discovery of a
    tenant's keys under both key formats, the cursor and its binary search, the reads
    with and without a pipeline, and the canonical payload of a session and of a memory
    record.  The Redis client is a class of operations; a client without pipelines
    answers [None] to one, which is what the code's probing of the client amounts to. *)

From S2P Require Import Prelude Datetime PyText Base64 JsonText Projection MigrationGuard Migration.
From Stdlib Require Import Ascii.
#[local] Open Scope Z_scope.

(** ** Text *)

(** [_text]. *)
Definition source_text (v : text) : outcome string :=
  match v with
  | TStr s => Ok s
  | TBytes b => if utf8_valid b then Ok b else Raise UnicodeDecodeError
  end.

Definition of_outcome {S A} (o : outcome A) : M S A := match o with Ok a => ret a | Raise x => raise x end.

(** [_redis_pattern_literal]. *)
Definition _redis_pattern_literal (value : string) : string :=
  py_replace "[" "\[" (py_replace "?" "\?" (py_replace "*" "\*" (py_replace "\" "\\" value))).

(** What follows a prefix; [None] when the text does not start with it. *)
Fixpoint strip_prefix (prefix s : string) : option string :=
  match prefix, s with
  | EmptyString, _ => Some s
  | String c prefix, String d s => if Ascii.eqb c d then strip_prefix prefix s else None
  | String _ _, EmptyString => None
  end.

(** [s.partition(".")]: the separator is empty when there is none. *)
Fixpoint partition_dot (s : string) : string * string * string :=
  match s with
  | EmptyString => (EmptyString, EmptyString, EmptyString)
  | String c rest =>
    if Ascii.eqb c "." then (EmptyString, "."%string, rest)
    else let '(head, separator, tail) := partition_dot rest in (String c head, separator, tail)
  end.

Definition _decode_projection_v2_key (key tenant_id : string) : option string :=
  match strip_prefix "trpc:projection:session:v2:" key with
  | None => None
  | Some encoded =>
    let '(tenant_part, separator, session_part) := partition_dot encoded in
    if str_empty separator || str_empty tenant_part || str_empty session_part then None
    else
      match urlsafe_b64decode (b64_pad tenant_part), urlsafe_b64decode (b64_pad session_part) with
      | Some tenant_raw, Some session_raw =>
        let decoded_tenant := bytes_str tenant_raw in
        let decoded_session := bytes_str session_raw in
        if negb (utf8_valid decoded_tenant && utf8_valid decoded_session) then None
        else if bool_decide (decoded_tenant = tenant_id) then Some decoded_session else None
      | _, _ => None
      end
  end.

(** ** Cursors *)

(** Kind, resource and Redis key. *)
Definition SourceKey : Type := string * string * string.
Definition sk_kind (k : SourceKey) : string := k.1.1.
Definition sk_resource (k : SourceKey) : string := k.1.2.
Definition sk_key (k : SourceKey) : string := k.2.

(** [str.isdecimal] of text in other scripts. *)
Class UnicodeDecimal : Type := isdecimal_unicode : string -> bool.

Definition isdecimal `{UnicodeDecimal} (s : string) : bool :=
  if is_ascii s then negb (str_empty s) && string_all (byte_in 48 57) s else isdecimal_unicode s.

Definition _encode_source_cursor (k : SourceKey) : string :=
  b64 (str_bytes (json_strings [sk_kind k; sk_resource k; sk_key k])).

(** The rank of a kind: the order of its first key; [None] for an unknown kind. *)
Fixpoint kind_rank (ranks : list string) (kind : string) : option nat :=
  match ranks with
  | [] => None
  | k :: rest => if bool_decide (k = kind) then Some 0%nat else S <$> kind_rank rest kind
  end.

(** [kind_order.setdefault(item[0], len(kind_order))]. *)
Definition kinds_of (keys : list SourceKey) : list string :=
  fold_left (fun ranks k => if str_in (sk_kind k) ranks then ranks else ranks ++ [sk_kind k]) keys [].

Definition cursor_key (ranks : list string) (k : SourceKey) : nat * (string * string) :=
  (default 0%nat (kind_rank ranks (sk_kind k)), (sk_resource k, sk_key k)).

Definition cursor_le : relation (nat * (string * string)) := lex Nat.le (lex String.le String.le).

#[export] Instance cursor_le_dec : RelDecision cursor_le.
Proof. apply _. Defined.

(** [while left < right]; [right - left] halves, so the number of keys is fuel enough. *)
Fixpoint bisect (fuel : nat) (sort_key : SourceKey -> nat * (string * string)) (keys : list SourceKey)
    (cursor : nat * (string * string)) (left right : nat) : nat :=
  match fuel with
  | O => left
  | S fuel =>
    if (left <? right)%nat then
      let middle := Nat.div2 (left + right) in
      match keys !! middle with
      | Some k =>
        if bool_decide (cursor_le (sort_key k) cursor) then bisect fuel sort_key keys cursor (S middle) right
        else bisect fuel sort_key keys cursor left middle
      | None => left
      end
    else left
  end.

Section cursor.
Context `{UnicodeInt} `{UnicodeDecimal} `{JsonReader}.

Definition _parse_cursor (cursor : string) (upper_bound : Z) : outcome nat :=
  match py_int cursor with
  | None => Raise (ValueError "migration cursor must be a non-negative integer")
  | Some value =>
    if (value <? 0) || (upper_bound <? value)
    then Raise (ValueError "migration cursor is outside the source snapshot")
    else Ok (Z.to_nat value)
  end.

(** The base64 text, its UTF-8 decoding and the three strings. *)
Definition decode_cursor (cursor : string) : option SourceKey :=
  match urlsafe_b64decode (b64_pad cursor) with
  | None => None
  | Some raw => if utf8_valid (bytes_str raw) then loads_three (bytes_str raw) else None
  end.

Definition _cursor_position (cursor : option string) (keys : list SourceKey) : outcome nat :=
  match cursor with
  | None => Ok 0%nat
  | Some cursor =>
    if isdecimal cursor then _parse_cursor cursor (Z.of_nat (length keys))
    else
      match decode_cursor cursor with
      | None => Raise (ValueError "migration cursor is invalid")
      | Some k =>
        let ranks := kinds_of keys in
        if negb (str_in (sk_kind k) ranks)
        then Raise (ValueError "migration cursor is outside the source snapshot")
        else
          let left := bisect (length keys) (cursor_key ranks) keys (cursor_key ranks k) 0 (length keys) in
          if (left =? 0)%nat || negb (bool_decide (keys !! (left - 1)%nat = Some k))
          then Raise (ValueError "migration cursor is outside the source snapshot")
          else Ok left
      end
  end.
End cursor.

(** ** The client *)

Inductive command : Type := CType (key : string) | CGet (key : string) | CHget (key field : string) | CHgetall (key : string).

Inductive reply : Type := RText (v : option text) | RHash (fields : list (text * text)).

(** [scan_iter] yields keys and may end with an error. *)
Class RedisMigrationClient (W : Type) : Type := {
  scan_iter : string -> M W (list text * option exn);
  redis_type : string -> M W text;
  redis_get : string -> M W (option text);
  redis_hget : string -> string -> M W (option text);
  redis_hgetall : string -> M W (list (text * text));
  _execute_pipeline : list command -> M W (option (list reply));
}.

Record RedisMigrationSource : Type := MkSource {
  rs_session_prefix : string;
  rs_memory_prefix : string;
  rs_kinds : list string;
}.

Definition make_source (session_prefix memory_prefix : string) (kinds : list string) : outcome RedisMigrationSource :=
  match canonical_migration_kinds kinds with
  | Raise x => Raise x
  | Ok kinds =>
    if negb (forallb (fun k => str_in k CANONICAL_REDIS_MIGRATION_KINDS) kinds)
    then Raise (ValueError "Redis migration source kinds must be session and/or memory")
    else Ok (MkSource session_prefix memory_prefix kinds)
  end.

(** [self._prefixes[kind]]. *)
Definition kind_prefix (c : RedisMigrationSource) (kind : string) : string :=
  if bool_decide (kind = "session"%string) then rs_session_prefix c else rs_memory_prefix c.

(** The cache of discovered keys, and Redis. *)
Record Source (W : Type) : Type := MkSourceState {
  so_keys : gmap string (list SourceKey);
  so_world : W;
}.
Arguments MkSourceState {W} _ _.
Arguments so_keys {W} _.
Arguments so_world {W} _.

#[export] Instance Source_settable W : Settable (Source W) := fun r => MkSourceState (so_keys r) (so_world r).

(** ** Discovery *)

(** The resource a key holds for this tenant: a key of another tenant, or without a
    resource, is skipped. *)
Definition key_resource (prefix tenant_id key : string) : option string :=
  let resource :=
    match _decode_projection_v2_key key tenant_id with
    | Some decoded => Some decoded
    | None => strip_prefix (prefix +:+ tenant_id +:+ ":") key
    end in
  match resource with
  | Some r => if str_empty r then None else Some r
  | None => None
  end.

(** The keys of one scan. *)
Fixpoint add_keys (kind prefix tenant_id : string) (raw : list text) (discovered : list SourceKey)
    : outcome (list SourceKey) :=
  match raw with
  | [] => Ok discovered
  | raw_key :: rest =>
    match source_text raw_key with
    | Raise x => Raise x
    | Ok key =>
      match key_resource prefix tenant_id key with
      | None => add_keys kind prefix tenant_id rest discovered
      | Some resource_id =>
        let discovered := discovered ++ [(kind, resource_id, key)] in
        if MAX_MIGRATION_EXPECTED_RECORDS <? Z.of_nat (length discovered)
        then Raise (MigrationGuardError "migration source exceeds MAX_MIGRATION_EXPECTED_RECORDS")
        else add_keys kind prefix tenant_id rest discovered
      end
    end
  end.

Definition kind_patterns (c : RedisMigrationSource) (tenant_id kind : string) : list string :=
  let prefix := kind_prefix c kind in
  (prefix +:+ _redis_pattern_literal tenant_id +:+ ":*")%string ::
  (if bool_decide (kind = "session"%string) && bool_decide (prefix = "trpc:projection:session:"%string)
   then ["trpc:projection:session:v2:*"%string] else []).

(** The key of the final order: v2 keys of a session come before the legacy one. *)
Definition source_order (c : RedisMigrationSource) (tenant_id : string) (k : SourceKey)
    : nat * (string * (nat * string)) :=
  (default 0%nat (kind_rank (rs_kinds c) (sk_kind k)),
   (sk_resource k,
    (if bool_decide (sk_kind k = "session"%string)
        && bool_decide (is_Some (_decode_projection_v2_key (sk_key k) tenant_id)) then 0%nat else 1%nat,
     sk_key k))).

Definition source_le : relation (nat * (string * (nat * string))) :=
  lex Nat.le (lex String.le (lex Nat.le String.le)).

#[export] Instance source_le_dec : RelDecision source_le.
Proof. apply _. Defined.

(** The first key of every resource. *)
Fixpoint unique_resources (seen : list (string * string)) (keys : list SourceKey) : list SourceKey :=
  match keys with
  | [] => []
  | k :: rest =>
    if bool_decide (k.1 ∈ seen) then unique_resources seen rest
    else k :: unique_resources (k.1 :: seen) rest
  end.

(** [sorted(set(discovered), key=...)] without repeated resources. *)
Definition order_keys (c : RedisMigrationSource) (tenant_id : string) (discovered : list SourceKey) : list SourceKey :=
  unique_resources [] (sorted_by source_le (source_order c tenant_id) (remove_dups discovered)).

Section client.
Context {W : Type} `{RedisMigrationClient W}.
Context (c : RedisMigrationSource).

Definition redis {A} (m : M W A) : M (Source W) A := zoom so_world (fun w s => s <| so_world := w |>) m.

Fixpoint scan_patterns (tenant_id kind : string) (patterns : list string) (discovered : list SourceKey)
    : M (Source W) (list SourceKey) :=
  match patterns with
  | [] => ret discovered
  | pattern :: rest =>
    let* answer := redis (scan_iter pattern) in
    let '(raw, error) := answer in
    let* discovered := of_outcome (add_keys kind (kind_prefix c kind) tenant_id raw discovered) in
    match error with
    | Some x => raise x
    | None => scan_patterns tenant_id kind rest discovered
    end
  end.

Fixpoint scan_kinds (tenant_id : string) (kinds : list string) (discovered : list SourceKey)
    : M (Source W) (list SourceKey) :=
  match kinds with
  | [] => ret discovered
  | kind :: rest =>
    let* discovered := scan_patterns tenant_id kind (kind_patterns c tenant_id kind) discovered in
    scan_kinds tenant_id rest discovered
  end.

Definition _tenant_keys (tenant_id : string) (refresh : bool) : M (Source W) (list SourceKey) :=
  let* cached := gets (fun s => if refresh then None else so_keys s !! tenant_id) in
  match cached with
  | Some keys => ret keys
  | None =>
    let* discovered := scan_kinds tenant_id (rs_kinds c) [] in
    let result := order_keys c tenant_id discovered in
    modify (fun s => s <| so_keys := <[tenant_id := result]> (so_keys s) |>) ;;
    ret result
  end.
End client.

(** ** Values *)

(** [repr(value)], and [float(value)] of a JSON value. *)
Class PyConversions : Type := {
  py_repr : pyval -> string;
  py_float : pyval -> outcome pyval;
}.

(** [_json_value] of a reply and of a value inside a record. *)
Definition json_text `{Json} (s : string) : pyval := match json_loads s with Some v => v | None => PStr s end.

Definition json_reply `{Json} (v : text) : outcome pyval :=
  match source_text v with Ok s => Ok (json_text s) | Raise x => Raise x end.

Definition _json_value `{Json} (v : pyval) : pyval := match v with PStr s => json_text s | _ => v end.

(** [value or other], [value.get(name)] and [value.get(name, other)]. *)
Definition py_or (v w : pyval) : pyval := if truthy v then v else w.
Definition pget_or (name : string) (other : pyval) (d : odict string pyval) : pyval := default other (dget name d).
Definition pget (name : string) (d : odict string pyval) : pyval := pget_or name PNone d.

(** [int(value)]. *)
Definition to_int `{UnicodeInt} (v : pyval) : outcome Z :=
  match v with
  | PInt z => Ok z
  | PBool b => Ok (if b then 1 else 0)
  | PStr s =>
    match py_int s with Some z => Ok z | None => Raise (ValueError "invalid literal for int() with base 10") end
  | _ => Raise (TypeError "int() argument must be a string, a bytes-like object or a real number")
  end.

(** [str(value)]. *)
Definition to_str `{PyConversions} (v : pyval) : string := match v with PStr s => s | _ => py_repr v end.

Definition obind {A B} (o : outcome A) (k : A -> outcome B) : outcome B :=
  match o with Ok a => k a | Raise x => Raise x end.

Notation "'let!' x ':=' c 'in' k" := (obind c (fun x => k)) (at level 10, x pattern, c at level 100, k at level 200).

(** A string that is not empty. *)
Definition nonempty_text (v : pyval) : option string :=
  match v with PStr s => if str_empty s then None else Some s | _ => None end.

Definition as_dict (v : pyval) : option (odict string pyval) := match v with PDict d => Some d | _ => None end.

Definition require {A} (o : option A) (message : string) : outcome A :=
  match o with Some a => Ok a | None => Raise (ValueError message) end.

Record CanonicalEvent : Type := MkEvent {
  ev_sequence : Z;
  ev_event_id : string;
  ev_author : string;
  ev_timestamp : pyval;
  ev_event : odict string pyval;
  ev_state_delta : odict string pyval;
}.

Definition event_value (e : CanonicalEvent) : pyval :=
  PDict [("sequence", PInt (ev_sequence e)); ("event_id", PStr (ev_event_id e)); ("author", PStr (ev_author e));
         ("timestamp", ev_timestamp e); ("event", PDict (ev_event e)); ("state_delta", PDict (ev_state_delta e))]%string.

(** [events.sort(key=lambda item: item["sequence"])], a stable sort. *)
Fixpoint insert_event (e : CanonicalEvent) (l : list CanonicalEvent) : list CanonicalEvent :=
  match l with
  | [] => [e]
  | x :: rest => if ev_sequence e <=? ev_sequence x then e :: l else x :: insert_event e rest
  end.

Definition sort_events (l : list CanonicalEvent) : list CanonicalEvent := foldr insert_event [] l.

Record SessionPayload : Type := MkSessionPayload {
  sp_tenant_id : string;
  sp_app_id : string;
  sp_session_id : string;
  sp_principal_id : string;
  sp_version : Z;
  sp_next_sequence : Z;
  sp_state : odict string pyval;
  sp_events : list CanonicalEvent;
}.

Definition session_value (p : SessionPayload) : gmap string pyval :=
  list_to_map [("tenant_id", PStr (sp_tenant_id p)); ("app_id", PStr (sp_app_id p));
    ("session_id", PStr (sp_session_id p)); ("principal_id", PStr (sp_principal_id p));
    ("version", PInt (sp_version p)); ("next_sequence", PInt (sp_next_sequence p));
    ("state", PDict (sp_state p)); ("events", PList (map event_value (sp_events p)))]%string.

Section payload.
Context `{Json} `{UnicodeInt} `{PyConversions}.

(** [f"session {resource_id!r}..."]. *)
Definition session_message (resource_id message : string) : string :=
  ("session " +:+ py_repr (PStr resource_id) +:+ message)%string.

Definition canonical_event (resource_id : string) (index : Z) (raw_event : pyval) : outcome CanonicalEvent :=
  let! raw := require (as_dict raw_event) (session_message resource_id " contains a non-object event") in
  let! sequence := to_int (pget_or "sequence" (PInt index) raw) in
  if sequence <? 1 then Raise (ValueError (session_message resource_id " contains an invalid event sequence"))
  else
    let number := pretty sequence in
    let! event_json := require (as_dict (_json_value (pget_or "event" (pget_or "event_json" (PDict []) raw) raw)))
      (session_message resource_id (" event " +:+ number +:+ " must be an object")) in
    let! state_delta := require (as_dict (_json_value (pget_or "state_delta" (PDict []) raw)))
      (session_message resource_id (" event " +:+ number +:+ " state_delta must be object")) in
    let timestamp := pget_or "timestamp" (pget_or "event_timestamp" (PInt 0) raw) raw in
    let! timestamp := py_float (match timestamp with PNone => PInt 0 | t => t end) in
    Ok (MkEvent sequence
      (to_str (pget_or "event_id" (pget_or "id" (PStr ("migration-event:" +:+ resource_id +:+ ":" +:+ number)) raw) raw))
      (to_str (pget_or "author" (PStr "migration") raw)) timestamp event_json state_delta).

(** [for index, raw_event in enumerate(raw_events, start=1)]. *)
Fixpoint canonical_events (resource_id : string) (index : Z) (raw_events : list pyval) : outcome (list CanonicalEvent) :=
  match raw_events with
  | [] => Ok []
  | raw_event :: rest =>
    let! event := canonical_event resource_id index raw_event in
    let! events := canonical_events resource_id (index + 1) rest in
    Ok (event :: events)
  end.

Definition max_sequence (events : list CanonicalEvent) : Z := foldr (fun e n => Z.max (ev_sequence e) n) 0 events.

Definition _canonical_session_payload (tenant_id resource_id : string) (value : odict string pyval)
    : outcome SessionPayload :=
  let! app_id := require (nonempty_text (py_or (pget "app_id" value) (pget "app_name" value)))
    (session_message resource_id " has no app_id/app_name") in
  let! principal_id := require (nonempty_text (py_or (pget "principal_id" value) (pget "user_id" value)))
    (session_message resource_id " has no principal_id/user_id") in
  let! state := require (as_dict (_json_value (pget_or "state" (pget_or "state_json" (PDict []) value) value)))
    (session_message resource_id " state must be a JSON object") in
  let! raw_events :=
    match _json_value (pget_or "events" (pget_or "session_events" (PList []) value) value) with
    | PNone => Ok []
    | PList l => Ok l
    | _ => Raise (ValueError (session_message resource_id " events must be a JSON array"))
    end in
  let! events := canonical_events resource_id 1 raw_events in
  let events := sort_events events in
  let max_sequence := max_sequence events in
  let! next_sequence := to_int (pget_or "next_sequence" (PInt (max_sequence + 1)) value) in
  if next_sequence <? max_sequence + 1
  then Raise (ValueError (session_message resource_id " next_sequence precedes its events"))
  else
    let! version := to_int (pget_or "version" (PInt 0) value) in
    Ok (MkSessionPayload tenant_id app_id resource_id principal_id version next_sequence state events).

Definition _canonical_memory_payload (value : odict string pyval) : outcome (gmap string pyval) :=
  let! principal_id := require (nonempty_text (py_or (pget "principal_id" value) (pget "user_id" value)))
    "memory record has no principal_id/user_id" in
  let memory := pget_or "memory" (pget_or "memory_json" (pget_or "value" (PDict value) value) value) value in
  let! source_sequence :=
    match pget "source_sequence" value with
    | PNone => Ok PNone
    | v => let! z := to_int v in Ok (PInt z)
    end in
  Ok (list_to_map [("principal_id", PStr principal_id); ("session_id", pget "session_id" value);
    ("source_sequence", source_sequence); ("memory", _json_value memory);
    ("projection_status", PStr (to_str (pget_or "projection_status" (PStr "pending") value)))]%string).

Definition _canonical_payload (kind tenant_id resource_id : string) (value : pyval) : outcome (gmap string pyval) :=
  match value with
  | PDict d =>
    if bool_decide (kind = "session"%string)
    then let! p := _canonical_session_payload tenant_id resource_id d in Ok (session_value p)
    else _canonical_memory_payload d
  | _ => Raise (ValueError ("Redis " +:+ kind +:+ " record " +:+ py_repr (PStr resource_id) +:+ " must contain a JSON object"))
  end.
End payload.

(** ** Reading *)

(** [{_text(field): _json_value(value) for field, value in values.items()}]. *)
Fixpoint json_fields `{Json} (acc : odict string pyval) (fields : list (text * text)) : outcome pyval :=
  match fields with
  | [] => Ok (PDict acc)
  | (field, value) :: rest =>
    let! field := source_text field in
    let! value := json_reply value in
    json_fields (dset field value acc) rest
  end.

(** [values[index] = ...]. *)
Definition optional_json `{Json} (v : option text) : outcome pyval :=
  match v with Some v => json_reply v | None => Ok PNone end.

Fixpoint collect {A B} (f : A -> outcome B) (l : list A) : outcome (list B) :=
  match l with
  | [] => Ok []
  | x :: rest => let! y := f x in let! ys := collect f rest in Ok (y :: ys)
  end.

(** A reply of the pipeline read as the command's result. *)
Definition reply_text (r : reply) : option text := match r with RText v => v | RHash _ => None end.
Definition reply_hash (r : reply) : list (text * text) := match r with RHash l => l | RText _ => [] end.

Section reads.
Context {W : Type} `{RedisMigrationClient W} `{Json} `{UnicodeInt} `{PyConversions}.
Context (c : RedisMigrationSource).

Definition known_type (key_type : string) : bool := str_in key_type ["hash"; "string"; "none"]%string.

Definition unsupported_type (key_type : string) : exn := ValueError ("unsupported Redis migration key type: " +:+ key_type).

Definition _read_value (key : string) : M W pyval :=
  let* key_type := redis_type key in
  let* key_type := of_outcome (source_text key_type) in
  if bool_decide (key_type = "hash"%string) then
    let* payload := redis_hget key "payload" in
    match payload with
    | Some payload => of_outcome (json_reply payload)
    | None => let* values := redis_hgetall key in of_outcome (json_fields [] values)
    end
  else if bool_decide (key_type = "string"%string) || bool_decide (key_type = "none"%string) then
    let* value := redis_get key in of_outcome (optional_json value)
  else raise (unsupported_type key_type).

Fixpoint read_each (keys : list SourceKey) : M W (list pyval) :=
  match keys with
  | [] => ret []
  | k :: rest => let* v := _read_value (sk_key k) in let* vs := read_each rest in ret (v :: vs)
  end.

(** [if len(results) != len(commands): raise]. *)
Definition expect_count {A B} (results : list A) (commands : list B) (name : string) : M W unit :=
  raise_if (negb (Nat.eqb (length results) (length commands)))
    (RuntimeError ("Redis migration pipeline returned an unexpected " +:+ name +:+ " result count")).

Definition value_command (k : SourceKey) (key_type : string) : command :=
  if bool_decide (key_type = "hash"%string) then CHget (sk_key k) "payload" else CGet (sk_key k).

(** A hash without a payload field is read whole. *)
Definition missing_hash (key_type : string) (value : reply) : bool :=
  bool_decide (key_type = "hash"%string) && negb (bool_decide (is_Some (reply_text value))).

Definition missing_keys (keys : list SourceKey) (key_types : list string) (values : list reply) : list string :=
  map (fun x => sk_key x.1) (List.filter (fun x => missing_hash x.2.1 x.2.2) (zip keys (zip key_types values))).

(** The first loop: [_json_value] of what was answered, [None] elsewhere. *)
Definition first_values (key_types : list string) (values : list reply) : outcome (list pyval) :=
  collect (fun x => if missing_hash x.1 x.2 then Ok PNone else optional_json (reply_text x.2)) (zip key_types values).

(** The second loop puts the whole hashes into the places left open. *)
Fixpoint fill_hashes (key_types : list string) (values : list reply) (read : list pyval) (hashes : list reply)
    : outcome (list pyval) :=
  match key_types, values, read with
  | t :: key_types, r :: values, v :: read =>
    if missing_hash t r then
      match hashes with
      | h :: hashes =>
        let! v := json_fields [] (reply_hash h) in
        let! rest := fill_hashes key_types values read hashes in Ok (v :: rest)
      | [] => Ok (v :: read)
      end
    else let! rest := fill_hashes key_types values read hashes in Ok (v :: rest)
  | _, _, _ => Ok read
  end.

Definition _read_values_with_pipeline (keys : list SourceKey) : M W (option (list pyval)) :=
  let* type_results := _execute_pipeline (map (fun k => CType (sk_key k)) keys) in
  match type_results with
  | None => ret None
  | Some type_results =>
    expect_count type_results keys "TYPE" ;;
    let* key_types := of_outcome (collect (fun r => source_text (default (TStr "None") (reply_text r))) type_results) in
    match List.find (fun t => negb (known_type t)) key_types with
    | Some t => raise (unsupported_type t)
    | None =>
      let* value_results := _execute_pipeline (map (fun x => value_command x.1 x.2) (zip keys key_types)) in
      match value_results with
      | None => ret None
      | Some value_results =>
        expect_count value_results keys "value" ;;
        let* read := of_outcome (first_values key_types value_results) in
        let missing := missing_keys keys key_types value_results in
        if bool_decide (missing = []) then ret (Some read)
        else
          let* hashes := _execute_pipeline (map CHgetall missing) in
          match hashes with
          | None => ret None
          | Some hashes =>
            expect_count hashes missing "HGETALL" ;;
            let* read := of_outcome (fill_hashes key_types value_results read hashes) in
            ret (Some read)
          end
      end
    end
  end.

Definition _read_values (keys : list SourceKey) : M W (list pyval) :=
  if bool_decide (keys = []) then ret []
  else
    let* pipelined := _read_values_with_pipeline keys in
    match pipelined with
    | Some values => ret values
    | None => read_each keys
    end.

(** [zip(keys, values, strict=True)]. *)
Fixpoint build_records (tenant_id : string) (keys : list SourceKey) (values : list pyval) : outcome (list MigrationRecord) :=
  match keys, values with
  | [], [] => Ok []
  | k :: keys, v :: values =>
    let! payload := _canonical_payload (sk_kind k) tenant_id (sk_resource k) v in
    let! rest := build_records tenant_id keys values in
    Ok (MkMigrationRecord (sk_kind k) (sk_resource k) payload :: rest)
  | _, _ => Raise (ValueError "zip() arguments have different lengths")
  end.

Definition _read_records (tenant_id : string) (keys : list SourceKey) : M W (list MigrationRecord) :=
  let* values := _read_values keys in
  of_outcome (build_records tenant_id keys values).

Context `{UnicodeDecimal} `{JsonReader}.

Definition fetch (tenant_id : string) (cursor : option string) (limit : Z)
    : M (Source W) (list MigrationRecord * option string) :=
  raise_if (limit <? 1) (ValueError "migration source limit must be positive") ;;
  let* keys := _tenant_keys c tenant_id false in
  raise_if (MAX_MIGRATION_EXPECTED_RECORDS <? Z.of_nat (length keys))
    (MigrationGuardError "migration source exceeds MAX_MIGRATION_EXPECTED_RECORDS") ;;
  let* start := of_outcome (_cursor_position cursor keys) in
  let selected := take (Z.to_nat limit) (drop start keys) in
  let* records := redis (_read_records tenant_id selected) in
  if (start + length selected <? length keys)%nat then
    match last selected with
    | Some k => ret (records, Some (_encode_source_cursor k))
    | None => raise (LookupError "tuple index out of range")
    end
  else ret (records, None).

(** SHA-256 of the count and the checksum. *)
Context (sha256_text : string -> string) `{MigrationHash}.

Definition snapshot (tenant_id : string) : M (Source W) MigrationSourceSnapshot :=
  let* keys := _tenant_keys c tenant_id true in
  let* records := redis (_read_records tenant_id keys) in
  let checksum := checksum_from zero_checksum records in
  let count := Z.of_nat (length records) in
  ret (MkSnapshot (sha256_text (pretty count +:+ ":" +:+ checksum)) count checksum).
End reads.
