(* ===== verification/MigrationSourceThms.v ===== *)
(** * Theorems about the Redis source of a migration

    Keys of the projection store are recognised for their tenant only; the discovered
    keys do not depend on the order of the scan; the binary search of a cursor is its
    position, so the pages enumerate the discovered resources once; reading with and without a pipeline
    agrees; and a canonical session is well-formed. *)

From stdpp Require Import sorting.
From S2P Require Import Prelude Datetime PyText Base64 JsonText Projection ProjectionThms MigrationGuard Migration MigrationThms MigrationSource.
From Stdlib Require Import Ascii.
#[local] Open Scope Z_scope.

(** ** Keys of the projection store *)

Lemma strip_prefix_app p s : strip_prefix p (p +:+ s) = Some s.
Proof. induction p as [|c p IH]; [done|]. rewrite append_cons. simpl. by rewrite Ascii.eqb_refl. Qed.

Lemma partition_dot_app a b :
  string_all (fun c => negb (Ascii.eqb c ".")) a = true -> partition_dot (a +:+ "." +:+ b) = (a, "."%string, b).
Proof.
  induction a as [|c a IH]; [done|]. rewrite append_cons. simpl. intros [Hc Ha]%andb_true_iff.
  apply negb_true_iff in Hc. by rewrite Hc, IH.
Qed.

Lemma b64_str_nonempty s : s <> EmptyString -> str_empty (b64 (str_bytes s)) = false.
Proof. intros Hs. apply bool_decide_eq_false. by destruct s as [|? [|? [|? ?]]]. Qed.

Lemma b64_str_decode s : urlsafe_b64decode (b64_pad (b64 (str_bytes s))) = Some (str_bytes s).
Proof. apply b64decode_b64, str_bytes_byte. Qed.

(** a key of the projection store is decoded back to its session for the tenant that
    wrote it, and to nothing for any other tenant: a migration never reads a session of
    another tenant, whatever characters the identifiers hold. *)
Theorem projection_key_decoded (tenant session tenant' : string) :
  tenant <> EmptyString -> session <> EmptyString -> utf8_valid tenant = true -> utf8_valid session = true ->
  _decode_projection_v2_key (projection_key tenant session) tenant' =
  if decide (tenant = tenant') then Some session else None.
Proof.
  intros Ht Hs Hut Hus. unfold _decode_projection_v2_key, projection_key, projection_prefix.
  rewrite strip_prefix_app, partition_dot_app by apply b64_no_dot.
  rewrite !b64_str_nonempty, !b64_str_decode, !bytes_str_bytes, Hut, Hus by done.
  cbn. by repeat case_decide; repeat case_bool_decide.
Qed.

Lemma projection_key_decoded_witness :
  _decode_projection_v2_key (projection_key "acme" "s:1.2") "acme:s" = None.
Proof. exact (projection_key_decoded "acme" "s:1.2" "acme:s" ltac:(done) ltac:(done) eq_refl eq_refl). Defined.

(** ** Cursors *)

Lemma utf8_ascii_app a s : is_ascii a = true -> utf8_valid (a +:+ s) = utf8_valid s.
Proof.
  induction a as [|c a IH]; [done|]. rewrite append_cons. unfold is_ascii. cbn [string_all]. intros [Hc Ha]%andb_true_iff.
  cbn [utf8_valid]. rewrite Hc. by apply IH.
Qed.

Lemma json_char_ascii c : byte_in 0 127 c = true -> is_ascii (json_char c) = true.
Proof. destruct c as [[] [] [] [] [] [] [] []]; vm_compute; congruence. Qed.

Lemma json_char_high c : byte_in 0 127 c = false -> json_char c = String c EmptyString.
Proof. destruct c as [[] [] [] [] [] [] [] []]; vm_compute; congruence. Qed.

Lemma cont_high c : cont c = true -> byte_in 0 127 c = false.
Proof. destruct c as [[] [] [] [] [] [] [] []]; vm_compute; congruence. Qed.

Lemma byte_in_high lo hi c : 128 <= lo -> byte_in lo hi c = true -> byte_in 0 127 c = false.
Proof. unfold byte_in. intros. bool_prop. apply andb_false_iff. right. apply Z.leb_gt. lia. Qed.

(** A text that starts with a character of several bytes: they are copied. *)
Lemma json_chars_high c s : byte_in 0 127 c = false -> json_chars (String c s) = String c (json_chars s).
Proof. intros Hc. cbn [json_chars]. by rewrite json_char_high. Qed.

Lemma json_chars_utf8 s t : utf8_valid s = true -> utf8_valid (json_chars s +:+ t) = utf8_valid t.
Proof.
  induction s as [s IH] using (induction_ltof1 _ String.length). unfold ltof in IH. destruct s as [|c s1]; [done|].
  cbn [utf8_valid]. destruct (byte_in 0 127 c) eqn:Hc.
  { intros Hs. cbn [json_chars]. rewrite append_assoc, utf8_ascii_app by by apply json_char_ascii. apply IH; [simpl; lia|done]. }
  destruct s1 as [|c1 s2]; [done|]. rewrite (json_chars_high c) by done. destruct (byte_in 194 223 c) eqn:H2.
  { intros [H1 Hs]%andb_true_iff. rewrite json_chars_high, !append_cons by by apply cont_high.
    cbn [utf8_valid]. rewrite Hc, H2, H1. apply IH; [simpl; lia|done]. }
  destruct s2 as [|c2 s3]; [done|]. destruct (byte_in 224 239 c) eqn:H3.
  { intros [[H1 Hc2]%andb_true_iff Hs]%andb_true_iff.
    rewrite (json_chars_high c1) by (eapply byte_in_high; [|exact H1]; case_match; lia).
    rewrite json_chars_high, !append_cons by by apply cont_high.
    cbn [utf8_valid]. rewrite Hc, H2, H3, H1, Hc2. apply IH; [simpl; lia|done]. }
  destruct s3 as [|c3 s4]; [done|]. intros [[[[H4 H1]%andb_true_iff Hc2]%andb_true_iff Hc3]%andb_true_iff Hs]%andb_true_iff.
  rewrite (json_chars_high c1) by (eapply byte_in_high; [|exact H1]; case_match; lia).
  rewrite (json_chars_high c2), (json_chars_high c3), !append_cons by by apply cont_high.
  cbn [utf8_valid]. rewrite Hc, H2, H3, H4, H1, Hc2, Hc3. apply IH; [simpl; lia|done].
Qed.

Lemma json_string_utf8 s t : utf8_valid s = true -> utf8_valid (json_string s +:+ t) = utf8_valid t.
Proof.
  intros Hs. unfold json_string. rewrite append_cons. cbn [utf8_valid].
  change (utf8_valid ((json_chars s +:+ String quote EmptyString) +:+ t) = utf8_valid t).
  by rewrite append_assoc, json_chars_utf8.
Qed.

(** A key whose parts are text. *)
Definition key_text (k : SourceKey) : bool :=
  utf8_valid (sk_kind k) && utf8_valid (sk_resource k) && utf8_valid (sk_key k).

Lemma json_key_utf8 k : key_text k = true -> utf8_valid (json_strings [sk_kind k; sk_resource k; sk_key k]) = true.
Proof.
  unfold key_text. intros [[H1 H2]%andb_true_iff H3]%andb_true_iff. unfold json_strings. cbn [map join].
  rewrite (utf8_ascii_app "["), !append_assoc by done. rewrite json_string_utf8, (utf8_ascii_app ",") by done.
  rewrite json_string_utf8, (utf8_ascii_app ",") by done. by rewrite json_string_utf8.
Qed.

Section cursor.
Context `{UnicodeInt} `{UnicodeDecimal} `{JsonReader}.

Lemma decode_encode_cursor k : key_text k = true -> decode_cursor (_encode_source_cursor k) = Some k.
Proof.
  intros Hk. unfold decode_cursor, _encode_source_cursor. rewrite b64_str_decode, bytes_str_bytes, json_key_utf8 by done.
  rewrite loads_json_strings. by destruct k as [[? ?] ?].
Qed.

(** The encoding of a JSON array starts with a letter. *)
Lemma encoded_not_decimal k : isdecimal (_encode_source_cursor k) = false.
Proof.
  assert (Ha : is_ascii (_encode_source_cursor k) = true) by apply b64_ascii, str_bytes_byte.
  unfold isdecimal. rewrite Ha. apply andb_false_iff. right. unfold _encode_source_cursor, json_strings.
  cbn [map join]. unfold json_string. rewrite !append_cons, append_nil. cbn [str_bytes].
  by destruct (str_bytes _).
Qed.
End cursor.

(** ** The binary search *)

Section bisect.
Context (f : SourceKey -> nat * (string * string)) (keys : list SourceKey) (cur : nat * (string * string)).

(** The keys up to the cursor come first. *)
Definition below (i : nat) : Prop := exists k, keys !! i = Some k /\ cursor_le (f k) cur.
Hypothesis below_mono : forall i j, (i <= j)%nat -> below j -> below i.

Lemma bisect_spec fuel left right :
  (right - left <= fuel)%nat -> (left <= right <= length keys)%nat ->
  (forall i, (i < left)%nat -> below i) -> (forall i, (right <= i)%nat -> ~ below i) ->
  let n := bisect fuel f keys cur left right in forall i, (i < n)%nat <-> below i.
Proof.
  revert left right. induction fuel as [|fuel IH]; intros left right Hf Hb Hl Hr n; unfold n; cbn [bisect].
  - intros i. split; [apply Hl|]. intros Hi. destruct (decide (right <= i)%nat) as [H|]; [by destruct (Hr i H)|lia].
  - destruct (left <? right)%nat eqn:Hlt.
    2:{ apply Nat.ltb_ge in Hlt. intros i. split; [apply Hl|]. intros Hi.
        destruct (decide (right <= i)%nat) as [H|]; [by destruct (Hr i H)|lia]. }
    apply Nat.ltb_lt in Hlt. set (middle := Nat.div2 (left + right)).
    assert (Hm : (left <= middle < right)%nat).
    { unfold middle. rewrite Nat.div2_div. split; [apply Nat.div_le_lower_bound; lia|apply Nat.Div0.div_lt_upper_bound; lia]. }
    destruct (keys !! middle) as [k|] eqn:Hk; [|apply lookup_ge_None in Hk; lia]. case_bool_decide as Hc.
    + apply IH; [lia|lia| |done]. intros i Hi. apply (below_mono i middle); [lia|]. by exists k.
    + apply IH; [lia|lia|done|]. intros i Hi Hbi. destruct (below_mono middle i Hi Hbi) as (k' & Hk' & Hc').
      congruence.
Qed.
End bisect.

(** The keys a source discovered: grouped by kind in the order of the source, and by
    resource in a kind. *)
Definition grouped (rank : string -> nat) (a b : SourceKey) : Prop :=
  (rank (sk_kind a) < rank (sk_kind b))%nat \/
  (sk_kind a = sk_kind b /\ String.le (sk_resource a) (sk_resource b) /\ sk_resource a <> sk_resource b).

Lemma kinds_of_snoc l k :
  kinds_of (l ++ [k]) = if str_in (sk_kind k) (kinds_of l) then kinds_of l else kinds_of l ++ [sk_kind k].
Proof. unfold kinds_of. by rewrite fold_left_app. Qed.

Lemma elem_of_kinds_of x l : x ∈ kinds_of l <-> exists k, k ∈ l /\ sk_kind k = x.
Proof.
  induction l as [|k l IH] using rev_ind.
  - split; [by intros ?%elem_of_nil|intros (k & Hk & _); by apply elem_of_nil in Hk].
  - rewrite kinds_of_snoc. destruct (str_in _ _) eqn:Hin; unfold str_in in Hin; bool_prop.
    + rewrite IH. split; [intros (k' & ? & ?); exists k'; set_solver|].
      intros (k' & Hk' & <-). apply elem_of_app in Hk' as [?|?%list_elem_of_singleton]; [eauto|subst; by apply IH].
    + rewrite elem_of_app, list_elem_of_singleton, IH. set_solver.
Qed.

(** The first keys of the kinds appear in the order of the ranks. *)
Lemma kinds_of_sorted rank l :
  StronglySorted (grouped rank) l -> StronglySorted (fun a b => rank a < rank b)%nat (kinds_of l).
Proof.
  induction l as [|k l IH] using rev_ind; [constructor|]. intros [Hlk [Hl _]]%StronglySorted_app.
  rewrite kinds_of_snoc. destruct (str_in _ _) eqn:Hin; [by apply IH|]. unfold str_in in Hin. bool_prop.
  apply StronglySorted_app_2; [|by apply IH|repeat constructor].
  intros x y Hx ->%list_elem_of_singleton. apply elem_of_kinds_of in Hx as (a & Ha & <-).
  destruct (Hlk a k Ha) as [?|(E & _)]; [by left|done|]. destruct Hin. rewrite <-E. apply elem_of_kinds_of. eauto.
Qed.

Lemma kind_rank_elem L x : x ∈ L -> is_Some (kind_rank L x).
Proof.
  induction L as [|y L IH]; [by intros ?%elem_of_nil|]. intros Hx. cbn [kind_rank]. case_bool_decide; [eauto|].
  apply elem_of_cons in Hx as [->|Hx]; [done|]. destruct (IH Hx) as [i ->]. eauto.
Qed.

Lemma kind_rank_sorted (rank : string -> nat) L a b :
  StronglySorted (fun a b => rank a < rank b)%nat L -> a ∈ L -> b ∈ L -> (rank a < rank b)%nat ->
  exists i j, kind_rank L a = Some i /\ kind_rank L b = Some j /\ (i < j)%nat.
Proof.
  induction L as [|x L IH]; [by intros _ ?%elem_of_nil|]. intros [Hx HL]%StronglySorted_cons Ha Hb Hab.
  rewrite Forall_forall in Hx. cbn [kind_rank]. assert (Hmem : forall c, c ∈ L -> x <> c).
  { intros c Hc ->. specialize (Hx c Hc). lia. }
  apply elem_of_cons in Ha as [<-|Ha]; apply elem_of_cons in Hb as [<-|Hb].
  - lia.
  - rewrite bool_decide_true, bool_decide_false by eauto.
    destruct (kind_rank_elem L b Hb) as [j ->]. exists 0%nat, (S j). split_and!; [done|done|lia].
  - specialize (Hx a Ha). lia.
  - rewrite !bool_decide_false by eauto. destruct (IH HL Ha Hb Hab) as (i & j & -> & -> & Hij). exists (S i), (S j).
    split_and!; [done|done|lia].
Qed.

Lemma grouped_cursor_lt rank l a b :
  StronglySorted (grouped rank) l -> a ∈ l -> b ∈ l -> grouped rank a b ->
  cursor_le (cursor_key (kinds_of l) a) (cursor_key (kinds_of l) b) /\
  cursor_key (kinds_of l) a <> cursor_key (kinds_of l) b.
Proof.
  intros Hl Ha Hb [Hr|(E & Hle & Hne)].
  - destruct (kind_rank_sorted rank (kinds_of l) (sk_kind a) (sk_kind b)) as (i & j & Hi & Hj & Hij);
      [by apply kinds_of_sorted|apply elem_of_kinds_of; eauto..|done|].
    unfold cursor_key. rewrite Hi, Hj. simpl. split; [|intros [= ->]; lia]. left. simpl. split; [lia|intros ->; lia].
  - unfold cursor_key. rewrite E. split; [|congruence]. right. split; [done|]. left. done.
Qed.

Lemma StronglySorted_lookup {A} (R : relation A) l i j a b :
  StronglySorted R l -> (i < j)%nat -> l !! i = Some a -> l !! j = Some b -> R a b.
Proof.
  intros Hl Hij Hi Hj. rewrite <-(take_drop j l) in Hl. eapply StronglySorted_app_1_elem_of; [exact Hl| |].
  - apply list_elem_of_lookup. exists i. by rewrite lookup_take_lt.
  - apply list_elem_of_lookup. exists 0%nat. by rewrite lookup_drop, Nat.add_0_r.
Qed.

Section position.
Context `{UnicodeInt} `{UnicodeDecimal} `{JsonReader}.
Context (rank : string -> nat) (keys : list SourceKey) (Hs : StronglySorted (grouped rank) keys).

Abbreviation f := (cursor_key (kinds_of keys)).

Lemma keys_lt i j a b : (i < j)%nat -> keys !! i = Some a -> keys !! j = Some b -> cursor_le (f a) (f b) /\ f a <> f b.
Proof.
  intros Hij Hi Hj. apply (grouped_cursor_lt rank); [done|by eapply list_elem_of_lookup_2..|].
  by eapply StronglySorted_lookup.
Qed.

Lemma below_down cur i j : (i <= j)%nat -> below f keys cur j -> below f keys cur i.
Proof.
  intros Hij (b & Hb & Hc). destruct (decide (i = j)) as [->|Hne]; [by exists b|].
  destruct (lookup_lt_is_Some_2 keys i) as [a Ha]; [apply lookup_lt_Some in Hb; lia|].
  exists a. split; [done|]. etrans; [|exact Hc]. apply (keys_lt i j); [lia|done..].
Qed.

(** The search ends right after the key. *)
Lemma bisect_key i k : keys !! i = Some k -> bisect (length keys) f keys (f k) 0 (length keys) = S i.
Proof.
  intros Hk. pose proof (bisect_spec f keys (f k) (below_down (f k)) (length keys) 0 (length keys)) as Hb.
  cbv zeta in Hb. set (n := bisect _ _ _ _ _ _) in *.
  assert (Hn : forall j, (j < n)%nat <-> below f keys (f k) j).
  { apply Hb; [lia|lia|lia|]. intros j Hj (b & Hbj & _). apply lookup_lt_Some in Hbj. lia. }
  assert (Hin : (i < n)%nat) by (apply Hn; exists k; by split).
  destruct (decide (n = S i)) as [|Hne]; [done|]. assert (Hsi : below f keys (f k) (S i)) by (apply Hn; lia).
  destruct Hsi as (b & Hbi & Hle). destruct (keys_lt i (S i) k b) as [Hlt Hneq]; [lia|done..|].
  destruct Hneq. by apply (anti_symm cursor_le).
Qed.

Lemma position_sorted k :
  key_text k = true ->
  (forall i, keys !! i = Some k -> _cursor_position (Some (_encode_source_cursor k)) keys = Ok (S i)) /\
  (k ∉ keys -> _cursor_position (Some (_encode_source_cursor k)) keys
     = Raise (ValueError "migration cursor is outside the source snapshot")).
Proof.
  intros Hk. unfold _cursor_position. rewrite encoded_not_decimal, decode_encode_cursor by done. split.
  - intros i Hi. assert (Hin : sk_kind k ∈ kinds_of keys) by (apply elem_of_kinds_of; exists k; split; [by eapply list_elem_of_lookup_2|done]).
    unfold str_in. rewrite bool_decide_true by done. simpl. rewrite (bisect_key i k Hi). simpl.
    rewrite Nat.sub_0_r, bool_decide_true by done. done.
  - intros Hn. destruct (negb (str_in _ _)); [done|]. destruct (_ =? 0)%nat; [done|].
    rewrite bool_decide_false; [done|]. intros Hl. by apply list_elem_of_lookup_2 in Hl.
Qed.
End position.

(** ** Discovery *)

Lemma kind_rank_lookup L x i : kind_rank L x = Some i -> L !! i = Some x.
Proof.
  revert i. induction L as [|y L IH]; intros i; [done|]. cbn [kind_rank]. case_bool_decide as E; [by intros [= <-]; subst|].
  destruct (kind_rank L x) as [j|] eqn:Hj; [|done]. intros [= <-]. by apply IH.
Qed.

Lemma elem_of_unique_resources seen l k : k ∈ unique_resources seen l -> k ∈ l /\ k.1 ∉ seen.
Proof.
  revert seen. induction l as [|x l IH]; intros seen; cbn [unique_resources]; [by intros ?%elem_of_nil|].
  case_bool_decide as E; [intros [? ?]%IH; split; [by right|done]|].
  intros [->|[? ?]%IH]%elem_of_cons; [split; [left|done]|]. split; [by right|set_solver].
Qed.

Lemma unique_resources_sorted (R R' : relation SourceKey) seen l :
  StronglySorted R l -> (forall a b, a ∈ l -> b ∈ l -> R a b -> a.1 <> b.1 -> R' a b) ->
  StronglySorted R' (unique_resources seen l).
Proof.
  revert seen. induction l as [|x l IH]; intros seen; cbn [unique_resources]; [constructor|].
  intros [Hx Hl]%StronglySorted_cons HR. rewrite Forall_forall in Hx.
  assert (IH' : forall seen, StronglySorted R' (unique_resources seen l)).
  { intros seen'. apply IH; [done|]. intros a b Ha Hb. apply HR; by right. }
  case_bool_decide; [apply IH'|]. apply StronglySorted_cons. split; [|apply IH'].
  apply Forall_forall. intros y [Hy Hs]%elem_of_unique_resources. apply HR; [left|by right|by apply Hx|set_solver].
Qed.

Section order.
Context (c : RedisMigrationSource) (t : string).

Definition source_rank (kind : string) : nat := default 0%nat (kind_rank (rs_kinds c) kind).

(** Every discovered key has a kind of the source. *)
Definition known_kinds (d : list SourceKey) : Prop := forall k, k ∈ d -> sk_kind k ∈ rs_kinds c.

Lemma source_rank_inj x y : x ∈ rs_kinds c -> y ∈ rs_kinds c -> source_rank x = source_rank y -> x = y.
Proof.
  intros Hx Hy. unfold source_rank. destruct (kind_rank_elem _ _ Hx) as [i Hi], (kind_rank_elem _ _ Hy) as [j Hj].
  rewrite Hi, Hj. simpl. intros ->. apply kind_rank_lookup in Hi, Hj. congruence.
Qed.

Lemma order_keys_elem d k : k ∈ order_keys c t d -> k ∈ d.
Proof. intros [Hk _]%elem_of_unique_resources. rewrite sorted_by_Permutation in Hk. by apply elem_of_remove_dups. Qed.

Lemma order_keys_grouped d : known_kinds d -> StronglySorted (grouped source_rank) (order_keys c t d).
Proof.
  intros Hd. eapply unique_resources_sorted; [apply sorted_by_Sorted; apply _|]. intros a b Ha Hb Hab Hne.
  rewrite sorted_by_Permutation in Ha, Hb. apply elem_of_remove_dups, Hd in Ha, Hb.
  destruct Hab as [[Hle Hneq]|[E [[Hle Hneq]|[E' _]]]]; simpl in *.
  - left. fold (source_rank (sk_kind a)) (source_rank (sk_kind b)) in *. unfold Nat.le in Hle. lia.
  - right. split; [by apply source_rank_inj|done].
  - destruct Hne. apply source_rank_inj in E; [|done..]. unfold sk_kind, sk_resource in *. by destruct a as [[??]?], b as [[??]?]; simplify_eq/=.
Qed.

(** Distinct keys have distinct places in the order. *)
Lemma source_order_inj x y :
  sk_kind x ∈ rs_kinds c -> sk_kind y ∈ rs_kinds c -> source_order c t x = source_order c t y -> x = y.
Proof.
  intros Hx Hy. unfold source_order. intros [= E1 E2 _ E4]. apply source_rank_inj in E1; [|done..].
  destruct x as [[??]?], y as [[??]?]. unfold sk_kind, sk_resource, sk_key in *. simpl in *. congruence.
Qed.
End order.

Lemma unique_resources_NoDup seen l : NoDup (map fst (unique_resources seen l)).
Proof.
  revert seen. induction l as [|x l IH]; intros seen; cbn [unique_resources]; [constructor|].
  case_bool_decide; [apply IH|]. cbn [map]. constructor; [|apply IH].
  intros (k & E & [_ Hk]%elem_of_unique_resources)%list_elem_of_fmap. destruct Hk. rewrite <-E. left.
Qed.

Lemma unique_resources_cover seen l k :
  k ∈ l -> k.1 ∈ seen \/ exists k', k' ∈ unique_resources seen l /\ k'.1 = k.1.
Proof.
  revert seen. induction l as [|x l IH]; intros seen; [by intros ?%elem_of_nil|]. cbn [unique_resources].
  intros [<-|Hk]%elem_of_cons; case_bool_decide as E; [by left|right; exists k; split; [left|done]|by apply IH|].
  destruct (IH (x.1 :: seen) Hk) as [[->|?]%elem_of_cons|(k' & ? & ?)].
  - right. exists x. split; [left|done].
  - by left.
  - right. exists k'. split; [by right|done].
Qed.

Lemma order_keys_cover c t d k : k ∈ d -> exists k', k' ∈ order_keys c t d /\ k'.1 = k.1.
Proof.
  intros Hk. destruct (unique_resources_cover [] (sorted_by source_le (source_order c t) (remove_dups d)) k)
    as [?%elem_of_nil|?]; [|done|done]. rewrite sorted_by_Permutation. by apply elem_of_remove_dups.
Qed.

(** The keys of a tenant do not depend on the order in which Redis yields them or on
    how often it yields one (a scan may repeat a key): every discovered resource is
    migrated once. *)
Theorem discovery_order_free (c : RedisMigrationSource) (t : string) (d d' : list SourceKey) :
  known_kinds c d -> (forall k, k ∈ d <-> k ∈ d') ->
  order_keys c t d = order_keys c t d' /\ NoDup (map fst (order_keys c t d)) /\
  forall k, k ∈ d -> exists k', k' ∈ order_keys c t d /\ k'.1 = k.1.
Proof.
  intros Hd Hdd. split_and!; [| |].
  - unfold order_keys. f_equal. apply sorted_by_perm; try apply _.
    + intros x y Hx Hy. apply elem_of_remove_dups, Hd in Hx, Hy. by apply source_order_inj.
    + apply NoDup_Permutation; [apply NoDup_remove_dups..|]. intros k. by rewrite !elem_of_remove_dups.
  - apply unique_resources_NoDup.
  - intros k. apply order_keys_cover.
Qed.

(** C36: the binary search of a cursor is its position: the cursor of a discovered key
    continues right after it, and a cursor of any other key is refused. *)
Theorem cursor_position_exact `{UnicodeInt} `{UnicodeDecimal} `{JsonReader}
    (c : RedisMigrationSource) (t : string) (d : list SourceKey) (k : SourceKey) :
  known_kinds c d -> key_text k = true ->
  let keys := order_keys c t d in
  (forall i, keys !! i = Some k -> _cursor_position (Some (_encode_source_cursor k)) keys = Ok (S i)) /\
  (k ∉ keys -> _cursor_position (Some (_encode_source_cursor k)) keys
     = Raise (ValueError "migration cursor is outside the source snapshot")).
Proof. intros Hd Hk. apply (position_sorted (source_rank c)); [by apply order_keys_grouped|done]. Qed.

(** ** Reads *)

(** What Redis holds. *)
Record Keyspace : Type := MkKeyspace {
  ks_type : string -> text;
  ks_get : string -> option text;
  ks_hget : string -> string -> option text;
  ks_hgetall : string -> list (text * text);
}.

Definition answer (db : Keyspace) (cmd : command) : reply :=
  match cmd with
  | CType key => RText (Some (ks_type db key))
  | CGet key => RText (ks_get db key)
  | CHget key field => RText (ks_hget db key field)
  | CHgetall key => RHash (ks_hgetall db key)
  end.

(** Redis answers from [db]; a pipeline answers each of its commands, or is not
    supported. *)
Class FixedRedis {W : Type} (C : RedisMigrationClient W) (db : Keyspace) (pipelined : bool) : Prop := {
  fixed_type k w e : redis_type k w e = (Ok (ks_type db k), w, e);
  fixed_get k w e : redis_get k w e = (Ok (ks_get db k), w, e);
  fixed_hget k f w e : redis_hget k f w e = (Ok (ks_hget db k f), w, e);
  fixed_hgetall k w e : redis_hgetall k w e = (Ok (ks_hgetall db k), w, e);
  fixed_pipeline cmds w e :
    _execute_pipeline cmds w e = (Ok (if pipelined then Some (map (answer db) cmds) else None), w, e);
}.

Section fixed.
Context {W : Type} {C : RedisMigrationClient W} `{Json} `{UnicodeInt} `{PyConversions}.
Context (db : Keyspace) (pipelined : bool) {HF : FixedRedis C db pipelined}.

Definition typed (k : SourceKey) : outcome string := source_text (ks_type db (sk_key k)).

(** The value of a key once its type is known. *)
Definition typed_value (k : SourceKey) (key_type : string) : outcome pyval :=
  if bool_decide (key_type = "hash"%string) then
    match ks_hget db (sk_key k) "payload" with
    | Some payload => json_reply payload
    | None => json_fields [] (ks_hgetall db (sk_key k))
    end
  else if bool_decide (key_type = "string"%string) || bool_decide (key_type = "none"%string)
  then optional_json (ks_get db (sk_key k))
  else Raise (unsupported_type key_type).

Definition read_key (k : SourceKey) : outcome pyval := obind (typed k) (typed_value k).

Lemma of_outcome_run {S A} (o : outcome A) (s : S) e : of_outcome o s e = (o, s, e).
Proof. by destruct o. Qed.

Lemma read_value_run k w e : _read_value (sk_key k) w e = (read_key k, w, e).
Proof.
  unfold _read_value, read_key, typed, bind. rewrite fixed_type, of_outcome_run. destruct (source_text _) as [ty|x]; [|done].
  cbn. unfold typed_value. destruct (bool_decide (ty = "hash"%string)).
  - rewrite fixed_hget. destruct (ks_hget _ _ _); [by rewrite of_outcome_run|]. by rewrite fixed_hgetall, of_outcome_run.
  - destruct (_ || _); [|done]. by rewrite fixed_get, of_outcome_run.
Qed.

Lemma read_each_run keys w e : read_each keys w e = (collect read_key keys, w, e).
Proof.
  induction keys as [|k keys IH]; [done|]. cbn [read_each collect]. unfold bind. rewrite read_value_run.
  destruct (read_key k); [|done]. rewrite IH. cbn. by destruct (collect _ _).
Qed.

(** The three rounds of the pipelined read. *)
Definition round_values (keys : list SourceKey) (types : list string) : list reply :=
  map (answer db) (map (fun x => value_command x.1 x.2) (zip keys types)).

Definition round_hashes (keys : list SourceKey) (types : list string) : list reply :=
  map (answer db) (map CHgetall (missing_keys keys types (round_values keys types))).

Definition rounds (keys : list SourceKey) : outcome (list pyval) :=
  let! types := collect typed keys in
  match List.find (fun t => negb (known_type t)) types with
  | Some t => Raise (unsupported_type t)
  | None =>
    let! read := first_values types (round_values keys types) in
    fill_hashes types (round_values keys types) read (round_hashes keys types)
  end.

Lemma known_types_value k ty : known_type ty = false -> typed_value k ty = Raise (unsupported_type ty).
Proof.
  unfold known_type, str_in, typed_value. intros Hk%bool_decide_eq_false. rewrite !bool_decide_false; [done|..];
    intros ->; apply Hk; set_solver.
Qed.

Lemma known_type_value k ty :
  known_type ty = true -> let r := answer db (value_command k ty) in
  typed_value k ty =
  if missing_hash ty r then json_fields [] (ks_hgetall db (sk_key k)) else optional_json (reply_text r).
Proof.
  unfold known_type, str_in. intros Hk%bool_decide_eq_true.
  assert (Ht : ty = "hash"%string \/ ty = "string"%string \/ ty = "none"%string) by set_solver.
  unfold missing_hash, typed_value, value_command. destruct Ht as [->|[->| ->]]; [|reflexivity..].
  rewrite (bool_decide_true ("hash"%string = "hash"%string)) by done. cbn [answer reply_text andb].
  by destruct (ks_hget db (sk_key k) "payload").
Qed.

(** One key more. *)
Lemma rounds_cons k keys vs :
  rounds (k :: keys) = Ok vs <-> exists v vs', vs = v :: vs' /\ read_key k = Ok v /\ rounds keys = Ok vs'.
Proof.
  unfold rounds, read_key. cbn [collect]. destruct (typed k) as [ty|x]; cbn; [|naive_solver].
  destruct (collect typed keys) as [types|x]; cbn; [|naive_solver].
  destruct (known_type ty) eqn:Hty; cbn; [|rewrite known_types_value by done; naive_solver].
  destruct (List.find _ types) as [u|]; [naive_solver|].
  unfold round_hashes, missing_keys, first_values. cbn. fold (round_values keys types).
  rewrite known_type_value by done. set (r := answer db (value_command k ty)).
  destruct (collect _ (zip types _)) as [read|x], (missing_hash ty r); cbn;
    try destruct (json_fields _ _) as [v|]; try destruct (optional_json _) as [v'|]; cbn;
    try destruct (fill_hashes _ _ _ _); cbn; (split; [intros E|intros (? & ? & ? & ? & ?)]); simplify_eq/=; eauto.
Qed.

Lemma rounds_read_key keys vs : rounds keys = Ok vs <-> collect read_key keys = Ok vs.
Proof.
  revert vs. induction keys as [|k keys IH]; intros vs; [reflexivity|]. rewrite rounds_cons. cbn [collect].
  destruct (read_key k) as [v|x]; cbn; [|naive_solver]. setoid_rewrite IH. destruct (collect _ _); naive_solver.
Qed.

Lemma collect_length {A B} (f : A -> outcome B) l l' : collect f l = Ok l' -> length l' = length l.
Proof.
  revert l'. induction l as [|x l IH]; intros l'; cbn; [by intros [= <-]|]. destruct (f x); [|done]. cbn.
  destruct (collect f l) as [ys|]; [|done]. intros [= <-]. simpl. by rewrite (IH ys).
Qed.

Lemma fill_nothing keys types read hashes :
  missing_keys keys types (round_values keys types) = [] -> length types = length keys ->
  first_values types (round_values keys types) = Ok read ->
  fill_hashes types (round_values keys types) read hashes = Ok read.
Proof.
  unfold missing_keys, first_values. revert types read.
  induction keys as [|k keys IH]; intros [|ty types] read; try done. cbn. fold (round_values keys types).
  set (r := answer db (value_command k ty)). intros Hm [= Hl]. destruct (missing_hash ty r); [done|].
  destruct (optional_json _); [|done]. cbn. destruct (collect _ _) as [rest|] eqn:Hr; [|done]. intros [= <-]. cbn.
  by rewrite (IH types rest Hm Hl Hr).
Qed.

Lemma pipeline_run keys w e :
  pipelined = true -> _read_values_with_pipeline keys w e = (let! vs := rounds keys in Ok (Some vs), w, e).
Proof.
  intros ->. unfold _read_values_with_pipeline, bind, ret, expect_count. rewrite fixed_pipeline. cbn.
  rewrite !length_map, Nat.eqb_refl. cbn. rewrite of_outcome_run.
  assert (Ht : collect (fun r => source_text (default (TStr "None") (reply_text r))) (map (answer db) (map (fun k => CType (sk_key k)) keys))
               = collect typed keys).
  { induction keys as [|k keys IH]; [done|]. cbn. unfold typed. destruct (source_text _); [|done]. cbn. by rewrite IH. }
  rewrite Ht. unfold rounds. destruct (collect typed keys) as [types|x] eqn:Hty; [|done]. cbn.
  destruct (List.find _ types); [done|]. rewrite fixed_pipeline. cbn. fold (round_values keys types).
  assert (Hl : length (round_values keys types) = length keys).
  { unfold round_values. rewrite !length_map, length_zip. apply collect_length in Hty. lia. }
  rewrite Hl, Nat.eqb_refl. cbn. rewrite of_outcome_run.
  destruct (first_values _ _) as [read|x] eqn:Hr; [|done]. cbn. case_bool_decide as Hm.
  - unfold round_hashes. rewrite fill_nothing by eauto using collect_length. done.
  - rewrite fixed_pipeline. cbn. rewrite !length_map, Nat.eqb_refl. cbn. rewrite of_outcome_run. fold (round_hashes keys types).
    by destruct (fill_hashes _ _ _ _).
Qed.

(** The values of the keys, however they are read. *)
Lemma read_values_run keys w e :
  exists r, _read_values keys w e = (r, w, e) /\ forall vs, r = Ok vs <-> collect read_key keys = Ok vs.
Proof.
  unfold _read_values. case_bool_decide as Hk; [subst; exists (Ok []); by split|].
  unfold bind. destruct (Bool.bool_dec pipelined true) as [Hp|Hp%not_true_is_false].
  - rewrite pipeline_run by done. setoid_rewrite <-rounds_read_key. destruct (rounds keys) as [vs|x]; cbn; unfold ret.
    + exists (Ok vs). by split.
    + exists (Raise x). by split.
  - unfold _read_values_with_pipeline, bind. rewrite fixed_pipeline, Hp. cbn. rewrite read_each_run. eexists. by split.
Qed.

(** ** Pages *)

Lemma collect_Forall2 {A B} (f : A -> outcome B) l l' : collect f l = Ok l' <-> Forall2 (fun x y => f x = Ok y) l l'.
Proof.
  revert l'. induction l as [|x l IH]; intros l'; cbn.
  - split; [intros [= <-]; constructor|by intros ->%Forall2_nil_inv_l].
  - split.
    + destruct (f x) as [y|] eqn:Hy; [|done]. cbn. destruct (collect f l) as [ys|] eqn:Hys; [|done]. intros [= <-].
      constructor; [done|]. by apply IH.
    + intros (y & ys & Hy & Hys & ->)%Forall2_cons_inv_l. apply IH in Hys. rewrite Hy. cbn. by rewrite Hys.
Qed.

(** The record a key stands for. *)
Definition record_of (t : string) (k : SourceKey) : outcome MigrationRecord :=
  let! v := read_key k in
  let! payload := _canonical_payload (sk_kind k) t (sk_resource k) v in
  Ok (MkMigrationRecord (sk_kind k) (sk_resource k) payload).

Lemma build_records_collect t keys vs :
  collect read_key keys = Ok vs -> build_records t keys vs = collect (record_of t) keys.
Proof.
  revert vs. induction keys as [|k keys IH]; intros vs; cbn; [by intros [= <-]|]. unfold record_of at 1.
  destruct (read_key k) as [v|]; [|done]. cbn. destruct (collect _ _) as [vs'|]; [|done]. intros [= <-]. cbn.
  destruct (_canonical_payload _ _ _ _); [|done]. cbn. by rewrite IH.
Qed.

Lemma read_records_run t keys w e :
  exists r, _read_records t keys w e = (r, w, e) /\ forall l, r = Ok l -> collect (record_of t) keys = Ok l.
Proof.
  unfold _read_records, bind. destruct (read_values_run keys w e) as (r & -> & Hr). destruct r as [vs|x].
  - rewrite of_outcome_run. eexists. split; [done|]. intros l Hl. rewrite <-(build_records_collect t keys vs); [done|].
    by apply Hr.
  - eexists. by split.
Qed.
End fixed.

Lemma position_bound `{UnicodeInt} `{UnicodeDecimal} `{JsonReader} cur keys n :
  _cursor_position cur keys = Ok n -> (n <= length keys)%nat.
Proof.
  unfold _cursor_position. destruct cur as [cur|]; [|intros [= <-]; lia]. destruct (isdecimal cur).
  - unfold _parse_cursor. destruct (py_int cur) as [z|]; [|done]. destruct (_ || _) eqn:Hb; [done|]. intros [= <-].
    bool_prop. lia.
  - destruct (decode_cursor cur) as [k|]; [|done]. destruct (negb (str_in _ _)); [done|].
    destruct (_ || _) eqn:Hb; [done|]. intros [= <-]. bool_prop.
    match goal with H : _ !! _ = Some _ |- _ => apply lookup_lt_Some in H end. lia.
Qed.

Section pages.
Context {W : Type} {C : RedisMigrationClient W} `{Json} `{UnicodeInt} `{PyConversions} `{UnicodeDecimal} `{JsonReader}.
Context (c : RedisMigrationSource) (t : string) (rank : string -> nat) (keys : list SourceKey).
Context (Hsorted : StronglySorted (grouped rank) keys) (Htext : Forall (fun k => key_text k = true) keys).
(** What reading the records of some keys ensures when it returns. *)
Context (Q : list SourceKey -> list MigrationRecord -> Prop).
Context (Hread : forall ks w e, wp (_read_records t ks) (fun r _ _ => forall l, r = Ok l -> Q ks l) w e).
Context (Hlength : forall ks l, Q ks l -> length l = length ks).

(** A page has the records of the next slice of the keys, and its cursor is where the slice ends. *)
Definition page_of (cur : option string) (limit : Z) (page : list MigrationRecord) (next : option string) : Prop :=
  exists n, _cursor_position cur keys = Ok n /\ (n <= length keys)%nat /\
    Q (take (Z.to_nat limit) (drop n keys)) page /\
    match next with
    | None => (n + length page)%nat = length keys
    | Some _ => _cursor_position next keys = Ok (n + length page)%nat /\ page <> []
    end.

Lemma fetch_page cur limit s e :
  so_keys s !! t = Some keys ->
  wp (fetch c t cur limit) (fun r s' _ => so_keys s' = so_keys s /\
    forall page next, r = Ok (page, next) -> page_of cur limit page next) s e.
Proof.
  intros Hc. unfold fetch. apply wp_bind, wp_raise_if; [done|]. intros Hl. bool_prop.
  apply wp_bind. unfold _tenant_keys. apply wp_bind, wp_gets. rewrite Hc. apply wp_ret.
  apply wp_bind, wp_raise_if; [done|]. intros _. apply wp_bind.
  destruct (_cursor_position cur keys) as [n|x] eqn:Hn; [|apply wp_raise; done]. apply wp_ret.
  pose proof (position_bound _ _ _ Hn) as Hle. set (selected := take (Z.to_nat limit) (drop n keys)).
  apply wp_bind, wp_zoom. eapply wp_mono; [apply Hread|]. intros r w' e' Hr.
  destruct r as [page|x]; [|done]. specialize (Hr page eq_refl).
  pose proof (Hlength _ _ Hr) as Hlen. fold selected in Hlen.
  assert (Hsel : length selected = (Z.to_nat limit `min` (length keys - n))%nat).
  { unfold selected. by rewrite length_take, length_drop. }
  destruct (_ <? _)%nat eqn:Hlt.
  - apply Nat.ltb_lt in Hlt. destruct (last selected) as [k|] eqn:Hk; [|by apply wp_raise]. apply wp_ret. split; [done|].
    intros p next [= <- <-]. exists n. split_and!; [done|lia|done| |].
    + rewrite last_lookup in Hk.
      assert (Hki : keys !! (n + length selected - 1)%nat = Some k).
      { unfold selected at 2 in Hk. rewrite lookup_take_lt, lookup_drop in Hk by lia. rewrite <-Hk. f_equal. lia. }
      rewrite Hlen. replace (n + length selected)%nat with (S (n + length selected - 1))%nat by lia.
      eapply position_sorted; [done| |done]. rewrite Forall_forall in Htext. apply Htext. by eapply list_elem_of_lookup_2.
    + intros ->. simpl in Hlen. lia.
  - apply Nat.ltb_ge in Hlt. apply wp_ret. split; [done|]. intros p next [= <- <-]. exists n. split_and!; [done|lia|done|]. lia.
Qed.
End pages.

Lemma order_keys_text c t d :
  Forall (fun k => key_text k = true) d -> Forall (fun k => key_text k = true) (order_keys c t d).
Proof. rewrite !Forall_forall. intros Ht k Hk. eapply Ht, order_keys_elem, Hk. Qed.

(** The pages that a Redis with fixed contents serves are slices of the tenant's records. *)
Theorem redis_source_pages {W : Type} {C : RedisMigrationClient W} `{Json} `{UnicodeInt} `{PyConversions}
    `{UnicodeDecimal} `{JsonReader} (db : Keyspace) (pipelined : bool) {HF : FixedRedis C db pipelined}
    (c : RedisMigrationSource) (t : string) (d : list SourceKey) cur limit s e :
  known_kinds c d -> Forall (fun k => key_text k = true) d -> so_keys s !! t = Some (order_keys c t d) ->
  wp (fetch c t cur limit) (fun r s' _ => so_keys s' = so_keys s /\
    forall page next, r = Ok (page, next) ->
      page_of (order_keys c t d) (fun ks l => collect (record_of db t) ks = Ok l) cur limit page next) s e.
Proof.
  intros Hd Ht Hs. apply (fetch_page c t (source_rank c)); [by apply order_keys_grouped|by apply order_keys_text| | |done].
  - intros ks w e1. destruct (read_records_run db pipelined t ks w e1) as (r & E & Hr). unfold wp. by rewrite E.
  - intros ks l. apply collect_length.
Qed.

(** *** All the pages *)

(** Records carry the keys that they were read for, whatever Redis answered. *)
Lemma build_records_keys `{Json} `{UnicodeInt} `{PyConversions} t ks vs rs :
  build_records t ks vs = Ok rs -> map rec_key rs = map fst ks.
Proof.
  revert vs rs. induction ks as [|[[kind id] key] ks IH]; intros [|v vs] rs; cbn; try done; [by intros [= <-]|].
  destruct (_canonical_payload _ _ _ _); [|done]. cbn. destruct (build_records t ks vs) as [rest|] eqn:E; [|done].
  intros [= <-]. cbn. f_equal. by eapply IH.
Qed.

Section paging.
Context {W : Type} {C : RedisMigrationClient W} `{Json} `{UnicodeInt} `{PyConversions} `{UnicodeDecimal} `{JsonReader}.
Context (c : RedisMigrationSource) (t : string).

Lemma read_records_keys ks w e :
  wp (_read_records t ks) (fun r _ _ => forall l, r = Ok l -> map rec_key l = map fst ks) w e.
Proof.
  unfold _read_records. apply wp_bind, wp_intro. intros [vs|x] w' e' _; [|done]. unfold wp. rewrite of_outcome_run.
  intros l. apply build_records_keys.
Qed.

(** Pages fetched one after the other, each from the cursor that the page before ended with, of any
    sizes.  Between two pages Redis may change and other calls may be made, also calls that fail, as
    long as the keys that the source has discovered for the tenant are kept. *)
Inductive paged : option string -> Source W -> list (list MigrationRecord) -> Prop :=
  | paged_last cursor limit s e page s' e' :
    fetch c t cursor limit s e = (Ok (page, None), s', e') -> paged cursor s [page]
  | paged_more cursor limit s e page next s' e' s'' pages :
    fetch c t cursor limit s e = (Ok (page, Some next), s', e') ->
    so_keys s'' !! t = so_keys s' !! t -> paged (Some next) s'' pages -> paged cursor s (page :: pages).

Lemma paged_spec keys rank cursor s pages n :
  StronglySorted (grouped rank) keys -> Forall (fun k => key_text k = true) keys ->
  so_keys s !! t = Some keys -> _cursor_position cursor keys = Ok n -> paged cursor s pages ->
  map rec_key (concat pages) = map fst (drop n keys) /\ (length pages + n <= S (length keys))%nat.
Proof.
  intros Hsort Htext Hs Hn Hp. revert n Hs Hn.
  assert (Hfetch : forall cur limit s e r s' e', so_keys s !! t = Some keys -> fetch c t cur limit s e = (r, s', e') ->
    so_keys s' = so_keys s /\ forall page next, r = Ok (page, next) ->
      page_of keys (fun ks l => map rec_key l = map fst ks) cur limit page next).
  { intros cur limit s0 e r s1 e1 Hs E. refine (wp_run _ _ _ _ _ _ _ (fetch_page c t rank keys Hsort Htext _ read_records_keys _ cur limit s0 e Hs) E).
    intros ks l Hl%(f_equal length). by rewrite !length_map in Hl. }
  induction Hp as [cur limit s e page s' e' E|cur limit s e page next s' e' s'' pages E Hk _ IH]; intros n Hs Hn;
    destruct (Hfetch _ _ _ _ _ _ _ Hs E) as [Hs' Hpage]; destruct (Hpage _ _ eq_refl) as (m & Hm & Hle & Hq & Hnext);
    assert (m = n) as -> by congruence; assert (Hlen : length page = length (take (Z.to_nat limit) (drop n keys)))
      by (apply (f_equal length) in Hq; by rewrite !length_map in Hq); rewrite length_take, length_drop in Hlen.
  - simpl. rewrite app_nil_r, Hq. split; [|lia]. by rewrite take_ge by (rewrite length_drop; lia).
  - destruct Hnext as [Hnext Hne]. destruct (IH (n + length page)%nat) as [Hkeys Hcount]; [congruence|done|].
    simpl. rewrite map_app, Hq, Hkeys, <-map_app. split.
    + f_equal. rewrite <-drop_drop. rewrite <-(take_drop (Z.to_nat limit) (drop n keys)) at 3. f_equal.
      destruct (decide (length page = Z.to_nat limit)) as [->|]; [done|]. rewrite (drop_ge (drop n keys) (length page)), (drop_ge (drop n keys) (Z.to_nat limit)) by (rewrite length_drop; lia). done.
    + destruct page; [done|]. simpl in *. lia.
Qed.

(** C35: Paging through the Redis source of a migration enumerates the resources that it discovered
    for the tenant exactly once, whatever Redis answers: when the pages that are fetched one after the
    other, from no cursor to the page without one, return, their records are those of the
    discovered resources, each once and in the source's order; there is at most one page more
    than there are keys; and every discovered key's resource is among them. *)
Theorem redis_paging_complete (d : list SourceKey) s pages :
  known_kinds c d -> Forall (fun k => key_text k = true) d ->
  so_keys s !! t = Some (order_keys c t d) -> paged None s pages ->
  map rec_key (concat pages) = map fst (order_keys c t d) /\
  NoDup (map rec_key (concat pages)) /\ (length pages <= S (length (order_keys c t d)))%nat /\
  forall k, k ∈ d -> exists r, r ∈ concat pages /\ rec_key r = k.1.
Proof.
  intros Hd Ht Hs Hp.
  destruct (paged_spec (order_keys c t d) (source_rank c) None s pages 0) as [Hkeys Hcount];
    [by apply order_keys_grouped|by apply order_keys_text|done|done|done|]. rewrite drop_0 in Hkeys. rewrite Hkeys.
  split_and!; [done|apply unique_resources_NoDup|lia|]. intros k Hk.
  destruct (order_keys_cover c t d k Hk) as (k' & Hk' & Heq).
  assert (Hin : k.1 ∈ map rec_key (concat pages)) by (rewrite Hkeys, <-Heq; by apply list_elem_of_fmap_2).
  apply list_elem_of_fmap in Hin as (r & -> & Hr). by exists r.
Qed.
End paging.

(** reading the values of keys in pipelines gives what reading them one by one
    gives: they succeed for the same keys, with the same values. *)
Theorem pipelined_reads_agree {W1 W2 : Type} {C1 : RedisMigrationClient W1} {C2 : RedisMigrationClient W2} `{Json}
    `{UnicodeInt} `{PyConversions} (db : Keyspace) {HF1 : FixedRedis C1 db true} {HF2 : FixedRedis C2 db false}
    keys vs (w1 : W1) e1 (w2 : W2) e2 :
  _read_values (H := C1) keys w1 e1 = (Ok vs, w1, e1) <-> read_each (H := C2) keys w2 e2 = (Ok vs, w2, e2).
Proof.
  rewrite (read_each_run db false). destruct (read_values_run db true keys w1 e1) as (r & -> & Hr).
  split; intros [= E].
  - by rewrite (proj1 (Hr vs) E).
  - by rewrite (proj2 (Hr vs) E).
Qed.

(** ** Canonical sessions *)

Lemma insert_event_Permutation e l : insert_event e l ≡ₚ e :: l.
Proof. induction l as [|x l IH]; [done|]. cbn. case_match; [done|]. rewrite IH. constructor. Qed.

Lemma sort_events_Permutation l : sort_events l ≡ₚ l.
Proof. induction l as [|e l IH]; [done|]. cbn. by rewrite insert_event_Permutation, IH. Qed.

Abbreviation event_le := (fun a b => ev_sequence a <= ev_sequence b).

Lemma insert_event_sorted e l : StronglySorted event_le l -> StronglySorted event_le (insert_event e l).
Proof.
  induction l as [|x l IH]; intros Hl; cbn; [repeat constructor|]. case_match eqn:Hle.
  - apply Z.leb_le in Hle. constructor; [done|]. apply StronglySorted_cons in Hl as [Hx _]. constructor; [done|].
    eapply Forall_impl; [exact Hx|]. simpl. lia.
  - apply Z.leb_gt in Hle. apply StronglySorted_cons in Hl as [Hx Hl]. constructor; [by apply IH|].
    rewrite insert_event_Permutation. constructor; [lia|done].
Qed.

Lemma sort_events_sorted l : StronglySorted event_le (sort_events l).
Proof. induction l; [constructor|]. by apply insert_event_sorted. Qed.

Lemma max_sequence_bound l e : e ∈ l -> ev_sequence e <= max_sequence l.
Proof. unfold max_sequence. induction l as [|x l IH]; [by intros ?%elem_of_nil|]. cbn. intros [->|?%IH]%elem_of_cons; lia. Qed.

Section canonical.
Context `{Json} `{UnicodeInt} `{PyConversions}.

Lemma canonical_events_positive id i raw es :
  canonical_events id i raw = Ok es -> length es = length raw /\ Forall (fun e => 1 <= ev_sequence e) es.
Proof.
  revert i es. induction raw as [|r raw IH]; intros i es; cbn; [by intros [= <-]|].
  unfold canonical_event. destruct (as_dict r); [|done]. cbn. destruct (to_int _) as [n|]; [|done]. cbn.
  destruct (n <? 1) eqn:Hn; [done|]. apply Z.ltb_ge in Hn.
  repeat (destruct (require _ _); [|done]; cbn). destruct (py_float _); [|done]. cbn.
  destruct (canonical_events _ _ raw) as [es'|] eqn:E; [|done]. intros [= <-]. destruct (IH _ _ E) as [<- Hf].
  by repeat constructor.
Qed.

(** C37: a session that is accepted for migration is well-formed: it belongs to the
    tenant and the resource it was read for, names an application and a principal, its
    events are in the order of their sequences, and every sequence is at least one and
    below the next sequence. *)
Theorem canonical_session_well_formed t id d p :
  _canonical_session_payload t id d = Ok p ->
  sp_tenant_id p = t /\ sp_session_id p = id /\ sp_app_id p <> EmptyString /\ sp_principal_id p <> EmptyString /\
  StronglySorted event_le (sp_events p) /\
  Forall (fun e => 1 <= ev_sequence e < sp_next_sequence p) (sp_events p).
Proof.
  unfold _canonical_session_payload, require.
  destruct (nonempty_text (py_or (pget "app_id" d) _)) as [app|] eqn:Ha; [|done]. cbn.
  destruct (nonempty_text (py_or (pget "principal_id" d) _)) as [principal|] eqn:Hp; [|done]. cbn.
  destruct (as_dict _); [|done]. cbn. destruct (match _json_value _ with PNone => _ | _ => _ end) as [raw|]; [|done]. cbn.
  destruct (canonical_events id 1 raw) as [es|] eqn:He; [|done]. cbn. destruct (to_int _) as [next|]; [|done]. cbn.
  destruct (next <? _) eqn:Hn; [done|]. apply Z.ltb_ge in Hn. destruct (to_int _); [|done]. intros [= <-]. cbn.
  assert (Hne : forall v s, nonempty_text v = Some s -> s <> EmptyString).
  { intros [] x; try done. cbn. destruct (str_empty _) eqn:Hs; [done|]. intros [= <-]. by apply bool_decide_eq_false in Hs. }
  split_and!; [done|done|by eapply Hne|by eapply Hne|apply sort_events_sorted|].
  apply canonical_events_positive in He as [_ Hf]. rewrite <-(sort_events_Permutation es) in Hf.
  rewrite Forall_forall in Hf |- *. intros e Hin. split; [by apply Hf|]. apply max_sequence_bound in Hin. lia.
Qed.
End canonical.

(** ** A Redis *)

(** A client of a fixed keyspace. *)
Definition fixed_client (db : Keyspace) (pipelined : bool) (scan : list text) : RedisMigrationClient unit := {|
  scan_iter := fun _ => ret (scan, None);
  redis_type := fun k => ret (ks_type db k);
  redis_get := fun k => ret (ks_get db k);
  redis_hget := fun k f => ret (ks_hget db k f);
  redis_hgetall := fun k => ret (ks_hgetall db k);
  _execute_pipeline := fun cmds => ret (if pipelined then Some (map (answer db) cmds) else None);
|}.

Lemma fixed_client_laws db pipelined scan : FixedRedis (fixed_client db pipelined scan) db pipelined.
Proof. by split. Qed.

(** Two sessions of a tenant, one of them also under its old key, and a key of another
    tenant; the payload of a session is in its hash. *)
Definition demo_keys : list text :=
  [TStr (projection_key "t" "s2"); TBytes "trpc:projection:session:t:s1"; TStr (projection_key "t" "s1");
   TStr (projection_key "u" "s3"); TStr (projection_key "t" "s2")]%string.

Definition demo_db : Keyspace :=
  MkKeyspace (fun _ => TBytes "hash") (fun _ => None) (fun _ _ => Some (TStr "{}")) (fun _ => []).

#[local] Instance demo_json : Json := {|
  json_dumps := fun _ => "{}"%string;
  json_loads := fun _ => Some (PDict [("app_id", PStr "a"); ("user_id", PStr "p")])%string;
|}.
#[local] Instance demo_int : UnicodeInt := fun _ => None.
#[local] Instance demo_decimal : UnicodeDecimal := fun _ => false.
#[local] Instance demo_reader : JsonReader := fun _ => None.
#[local] Instance demo_conversions : PyConversions := {| py_repr := fun _ => ""%string; py_float := fun v => Ok v |}.
#[local] Instance demo_client : RedisMigrationClient unit := fixed_client demo_db true demo_keys.

Definition demo_source : RedisMigrationSource := MkSource "trpc:projection:session:" "trpc:memory:" ["session"%string].

Definition demo_discovered : list SourceKey :=
  [("session", "s2", projection_key "t" "s2"); ("session", "s1", "trpc:projection:session:t:s1");
   ("session", "s1", projection_key "t" "s1")]%string.

Example demo_tenant_keys :
  (_tenant_keys demo_source "t" false (MkSourceState ∅ tt) (Effects 0 0)).1.1 =
  Ok (order_keys demo_source "t" demo_discovered) /\
  order_keys demo_source "t" demo_discovered =
  [("session", "s1", projection_key "t" "s1"); ("session", "s2", projection_key "t" "s2")]%string.
Proof. split; vm_compute; reflexivity. Qed.

Lemma demo_known : known_kinds demo_source demo_discovered.
Proof. intros k Hk. by repeat (apply elem_of_cons in Hk as [->|Hk]; [left|]); apply elem_of_nil in Hk. Qed.

Lemma demo_text : Forall (fun k => key_text k = true) demo_discovered.
Proof. repeat constructor. Qed.

Lemma discovery_order_free_witness :
  order_keys demo_source "t" demo_discovered = order_keys demo_source "t" (rev demo_discovered ++ demo_discovered).
Proof.
  refine (proj1 (discovery_order_free demo_source "t" demo_discovered _ demo_known _)).
  intros k. rewrite elem_of_app, <-Permutation_rev. tauto.
Defined.

Lemma cursor_position_exact_witness :
  _cursor_position (Some (_encode_source_cursor ("session", "s1", projection_key "t" "s1")%string))
    (order_keys demo_source "t" demo_discovered) = Ok 1%nat.
Proof.
  refine (proj1 (cursor_position_exact demo_source "t" demo_discovered _ demo_known _) 0%nat _); vm_compute; reflexivity.
Defined.

Definition demo_state : Source unit := MkSourceState {["t"%string := order_keys demo_source "t" demo_discovered]} tt.

Lemma demo_cached : so_keys demo_state !! "t"%string = Some (order_keys demo_source "t" demo_discovered).
Proof. apply lookup_singleton_eq. Qed.

(** The two sessions, one in each page. *)
Definition demo_page (cursor : option string) : list MigrationRecord * option string :=
  match fetch demo_source "t" cursor 1 demo_state (Effects 0 0) with (Ok page, _, _) => page | _ => ([], None) end.

Definition demo_pages : list (list MigrationRecord) := [(demo_page None).1; (demo_page (demo_page None).2).1].

Lemma demo_paged : paged demo_source "t" None demo_state demo_pages.
Proof.
  eapply (paged_more _ _ _ 1 _ (Effects 0 0)); [vm_compute; reflexivity|reflexivity|].
  eapply (paged_last _ _ _ 1 _ (Effects 0 0)). vm_compute. reflexivity.
Qed.

Lemma redis_paging_complete_witness :
  map rec_key (concat demo_pages) = [("session", "s1"); ("session", "s2")]%string /\
  exists r, r ∈ concat demo_pages /\ rec_key r = ("session", "s2")%string.
Proof.
  destruct (redis_paging_complete demo_source "t" demo_discovered demo_state demo_pages demo_known demo_text demo_cached demo_paged)
    as (Hkeys & _ & _ & Hall). split; [rewrite Hkeys; vm_compute; reflexivity|].
  apply (Hall ("session", "s2", projection_key "t" "s2")%string). vm_compute. left.
Defined.

Lemma pipelined_reads_agree_witness :
  read_each (H := fixed_client demo_db false []) [("session", "s1", "k")%string] tt (Effects 0 0)
  = (Ok [PDict [("app_id", PStr "a"); ("user_id", PStr "p")]%string], tt, Effects 0 0).
Proof.
  apply (pipelined_reads_agree (C1 := fixed_client demo_db true []) (HF1 := fixed_client_laws demo_db true [])
    (HF2 := fixed_client_laws demo_db false []) demo_db _ _ tt (Effects 0 0)). reflexivity.
Defined.

Lemma canonical_session_well_formed_witness :
  exists p, _canonical_session_payload "t" "s1" [("app_id", PStr "a"); ("user_id", PStr "p")]%string = Ok p /\
    sp_session_id p = "s1"%string.
Proof.
  eexists. split; [reflexivity|].
  refine (proj1 (proj2 (canonical_session_well_formed "t" "s1" [("app_id", PStr "a"); ("user_id", PStr "p")]%string _ _))).
  reflexivity.
Defined.

