(* ===== verification/Emergency.v ===== *)
(** * The emergency queue

    [trpc_service/queue/emergency.py]: while PostgreSQL is unavailable, accepted callbacks
    are encrypted into a Redis stream ([EmergencyQueue]); [EmergencyQueueDrainer] replays
    them into the repository afterwards.  Redis is the parameter of the session-ready
    transport; AES-GCM and pydantic's JSON are parameters, and the random nonce is an
    argument.  Logging, the pauses of the [run] loop and its cancellation are not modelled. *)

From S2P Require Import Prelude Datetime PyText Base64 Tenant Models Mailbox Repository Runtime SessionReady.
From Stdlib Require Import Ascii.
#[local] Open Scope Z_scope.

(** ** Base64 with padding *)

(** The standard alphabet differs from the other one in its last two characters. *)
Definition std_char (c : ascii) : ascii :=
  if Ascii.eqb c "-" then "+"%char else if Ascii.eqb c "_" then "/"%char else c.

Fixpoint string_map (f : ascii -> ascii) (s : string) : string :=
  match s with EmptyString => EmptyString | String c rest => String (f c) (string_map f rest) end.

(** [base64.b64encode]. *)
Definition b64encode (bytes : list Z) : string := b64_pad (string_map std_char (b64 bytes)).

(** The data characters and the number of padding characters after them; [None] where
    the text has anything else. *)
Definition std_data (c : ascii) : bool :=
  negb (Ascii.eqb c "-" || Ascii.eqb c "_") && bool_decide (is_Some (b64_value c)).

Fixpoint split_padding (s : string) : option (nat * nat) :=
  match s with
  | EmptyString => Some (0, 0)%nat
  | String c rest =>
    match split_padding rest with
    | None => None
    | Some (data, pads) =>
      if Ascii.eqb c "=" then (if (data =? 0)%nat then Some (0, S pads)%nat else None)
      else if std_data c then Some (S data, pads) else None
    end
  end.

(** [base64.b64decode(text, validate=True)]: whole groups, at most two padding characters,
    nothing after them. *)
Definition b64decode_strict (text : string) : option (list Z) :=
  match split_padding text with
  | Some (data, pads) =>
    if (pads <=? 2)%nat && ((data + pads) mod 4 =? 0)%nat && negb ((data =? 0)%nat && negb (pads =? 0)%nat)
    then a2b 0 0 0 text else None
  | None => None
  end.

(** ** Parameters *)

(** AES-GCM: a ciphertext is decrypted only if it is the encryption of what it is
    decrypted to. *)
Class Aead : Type := {
  aead_encrypt : string -> list Z -> string -> string -> list Z;
  aead_decrypt : string -> list Z -> list Z -> string -> outcome string;
  aead_bytes : forall k n p a, Forall (fun b => byte b) (aead_encrypt k n p a);
  aead_correct : forall k n p a, length n = 12%nat -> aead_decrypt k n (aead_encrypt k n p a) a = Ok p;
  aead_authentic : forall k n c a p, aead_decrypt k n c a = Ok p -> c = aead_encrypt k n p a;
}.

(** [PreparedInbound.model_dump_json().encode()] and [model_validate_json]. *)
Class PreparedCodec : Type := {
  dump_prepared : PreparedInbound -> string;
  parse_prepared : string -> option PreparedInbound;
}.

(** ** The queue *)

Record EmergencyMessage : Type := MkEmergencyMessage {
  em_message_id : string;
  em_prepared : PreparedInbound;
}.

Record EmergencyQueue : Type := MkEmergencyQueue {
  eq_key : string;
  eq_stream : string;
  eq_group : string;
  eq_reclaim_after_ms : Z;
  eq_key_version : string;
  eq_keys : odict string string;
}.

Definition SchedulerVersion_value (v : SchedulerVersion) : string := match v with V1 => "v1" | V2 => "v2" end.

(** [self._keys[version] = previous] for every previous key. *)
Fixpoint add_previous (previous : odict string string) (keys : odict string string) : outcome (odict string string) :=
  match previous with
  | [] => Ok keys
  | (version, key) :: rest =>
    if str_empty version || negb (str_len key =? 32) then Raise (ValueError "emergency previous key is invalid")
    else add_previous rest (dset version key keys)
  end.

Definition make_emergency_queue (key : string) (scheduler_version : SchedulerVersion) (stream group : option string)
    (reclaim_after_ms : Z) (key_version : string) (previous_keys : odict string string) : outcome EmergencyQueue :=
  if negb (str_len key =? 32) then Raise (ValueError "emergency queue AES-GCM key must be 32 bytes")
  else if str_empty key_version || (32 <? char_len key_version) then Raise (ValueError "emergency key version is invalid")
  else
    match add_previous previous_keys [(key_version, key)] with
    | Raise x => Raise x
    | Ok keys =>
      Ok (MkEmergencyQueue key (str_or stream ("trpc:emergency:" +:+ SchedulerVersion_value scheduler_version))
            (str_or group ("trpc-emergency-drainers-" +:+ SchedulerVersion_value scheduler_version))
            reclaim_after_ms key_version keys)
    end.

(** [name in fields] for the name as text, or as bytes. *)
Definition text_eqb (v : text) (w : text) : bool :=
  match v, w with
  | TStr a, TStr b | TBytes a, TBytes b => bool_decide (a = b)
  | _, _ => false
  end.

Fixpoint assoc (k : text) (fields : list (text * text)) : option text :=
  match fields with
  | [] => None
  | (k', v) :: rest => if text_eqb k k' then Some v else assoc k rest
  end.

Definition _field (fields : list (text * text)) (name : string) : outcome text :=
  match assoc (TStr name) fields with
  | Some v => Ok v
  | None =>
    match assoc (TBytes name) fields with
    | Some v => Ok v
    | None => Raise (ValueError ("emergency record is missing " +:+ name))
    end
  end.

(** [base64.b64decode(value, validate=True)] of text or bytes. *)
Definition decode_field (v : text) : outcome (list Z) :=
  match v with
  | TStr s =>
    if negb (is_ascii s) then Raise (ValueError "string argument should contain only ASCII characters")
    else match b64decode_strict s with Some l => Ok l | None => Raise (BinasciiError "Invalid base64-encoded string") end
  | TBytes s => match b64decode_strict s with Some l => Ok l | None => Raise (BinasciiError "Invalid base64-encoded string") end
  end.

Section queue.
Context `{Aead} `{PreparedCodec} `{Redis}.
Context (q : EmergencyQueue).

(** The fields of an entry. *)
Definition emergency_fields (nonce : list Z) (prepared : PreparedInbound) : odict string string :=
  let binding_id := tc_channel_binding_id (pi_context prepared) in
  [("binding_id", binding_id); ("key_version", eq_key_version q); ("nonce", b64encode nonce);
   ("payload", b64encode (aead_encrypt (eq_key q) nonce (dump_prepared prepared) binding_id))]%string.

Definition enqueue (nonce : list Z) (prepared : PreparedInbound) : M World string :=
  let* value := send xadd (XAdd (eq_stream q) (emergency_fields nonce prepared)) in
  lift (_text value).

(** [for key in self._keys.values()]: only [InvalidTag] tries the next one. *)
Fixpoint try_keys (keys : list string) (nonce payload : list Z) (binding_id : string) : outcome string :=
  match keys with
  | [] => Raise InvalidTag
  | key :: rest =>
    match aead_decrypt key nonce payload binding_id with
    | Raise InvalidTag => try_keys rest nonce payload binding_id
    | answer => answer
    end
  end.

Definition decrypt (binding_id : string) (nonce payload : text) : outcome PreparedInbound :=
  match decode_field nonce with
  | Raise x => Raise x
  | Ok raw_nonce =>
    match decode_field payload with
    | Raise x => Raise x
    | Ok raw_payload =>
      match try_keys (dvalues (eq_keys q)) raw_nonce raw_payload binding_id with
      | Raise x => Raise x
      | Ok plain =>
        match parse_prepared plain with
        | None => Raise (ValidationError "PreparedInbound")
        | Some prepared =>
          if bool_decide (tc_channel_binding_id (pi_context prepared) = binding_id) then Ok prepared
          else Raise (ValueError "emergency record binding does not match authenticated payload")
        end
      end
    end
  end.

(** [_text(row[0])] and [_decode(row)]. *)
Definition _decode (r : row) : outcome EmergencyMessage :=
  match r with
  | Row id fields =>
    match _text id with
    | Raise x => Raise x
    | Ok message_id =>
      match _field fields "binding_id" with
      | Raise x => Raise x
      | Ok binding_id =>
        match _text binding_id with
        | Raise x => Raise x
        | Ok binding_id =>
          match _field fields "nonce" with
          | Raise x => Raise x
          | Ok nonce =>
            match _field fields "payload" with
            | Raise x => Raise x
            | Ok payload =>
              match decrypt binding_id nonce payload with
              | Raise x => Raise x
              | Ok prepared => Ok (MkEmergencyMessage message_id prepared)
              end
            end
          end
        end
      end
    end
  | NilRow => Raise (TypeError "argument of type 'NoneType' is not iterable")
  | OddRow _ => Raise (ValueError "not enough values to unpack")
  end.

(** The exceptions a poison entry raises. *)
Definition emergency_poison (x : exn) : bool :=
  match x with
  | InvalidTag | ValueError _ | ValidationError _ | TypeError _ | KeyError | UnicodeDecodeError | BinasciiError _ => true
  | _ => false
  end.

(** [except Exception] around the deletion. *)
Definition _exact_delete (message_id : string) : M World unit :=
  try_except (send xdel (XDel (eq_stream q) message_id) ;; ret tt) (fun _ => ret tt).

Definition emergency_ack (message : EmergencyMessage) : M World unit :=
  send xack (XAck (eq_stream q) (eq_group q) (em_message_id message)) ;;
  _exact_delete (em_message_id message).

(** The same commands, after a log entry. *)
Definition quarantine (message : EmergencyMessage) : M World unit :=
  send xack (XAck (eq_stream q) (eq_group q) (em_message_id message)) ;;
  _exact_delete (em_message_id message).

Definition _quarantine_raw (message_id : string) : M World unit :=
  try_except
    (send xack (XAck (eq_stream q) (eq_group q) message_id) ;; _exact_delete message_id)
    (fun _ => ret tt).

Fixpoint _decode_rows (rows : list row) (messages : list EmergencyMessage) : M World (list EmergencyMessage) :=
  match rows with
  | [] => ret messages
  | r :: rest =>
    match _decode r with
    | Ok message => _decode_rows rest (messages ++ [message])
    | Raise x =>
      if emergency_poison x then
        (if str_empty (_safe_stream_id r) then ret tt else _quarantine_raw (_safe_stream_id r)) ;;
        _decode_rows rest messages
      else raise x
    end
  end.

(** [for _, entries in rows for row in entries]: a malformed group ends the iteration. *)
Fixpoint _decode_groups (groups : list group_row) (messages : list EmergencyMessage) : M World (list EmergencyMessage) :=
  match groups with
  | [] => ret messages
  | GroupRow entries :: rest =>
    let* messages := _decode_rows entries messages in
    _decode_groups rest messages
  | OddGroupRow :: _ => raise (ValueError "not enough values to unpack")
  end.

Definition emergency_ensure_group : M World unit := _ensure_group (eq_stream q) (eq_group q).

Definition consume (consumer : string) (count block_ms : Z) : M World (list EmergencyMessage) :=
  emergency_ensure_group ;;
  let* cursor := gets w_cursor in
  let* claimed :=
    send xautoclaim (XAutoclaim (eq_stream q) (eq_group q) consumer (eq_reclaim_after_ms q) cursor count) in
  let* claimed_rows :=
    match claimed with
    | None => ret []
    | Some (cursor, rows) =>
      let* cursor := lift (_text cursor) in
      modify (fun w => w <| w_cursor := if str_empty cursor then "0-0"%string else cursor |>) ;;
      ret (default [] rows)
    end in
  if bool_decide (claimed_rows = []) then
    let* rows := send xreadgroup (XReadGroup (eq_group q) consumer (eq_stream q) count (Some block_ms)) in
    _decode_groups rows []
  else _decode_rows claimed_rows [].
End queue.

(** ** The drainer *)

Record Drain : Type := MkDrain { dr_repository : Repository; dr_redis : World }.

#[export] Instance Drain_settable : Settable Drain := fun d => MkDrain (dr_repository d) (dr_redis d).

(** [except (LookupError, ValueError, TypeError)]. *)
Definition refusal (x : exn) : bool :=
  match x with
  | LookupError _ | KeyError | UnknownBinding _ | ValueError _ | ValidationError _ | BindingMismatch _
  | UnicodeDecodeError | BinasciiError _ | TypeError _ => true
  | _ => false
  end.

Section drainer.
Context `{Env} `{Aead} `{PreparedCodec} `{Redis}.
Context (q : EmergencyQueue) (scheduler_version : SchedulerVersion) (consumer_id : string).

Definition in_repository {A} (m : M Repository A) : M Drain A :=
  zoom dr_repository (fun r d => d <| dr_repository := r |>) m.
Definition in_redis {A} (m : M World A) : M Drain A := zoom dr_redis (fun w d => d <| dr_redis := w |>) m.

(** The replay of one callback. *)
Definition replay (prepared : PreparedInbound) : M Repository unit :=
  let context := pi_context prepared in
  get_config (tc_tenant_id context) (tc_app_id context) (tc_config_version context) ;;
  (if bool_decide (scheduler_version = V2)
   then accept_inbound_v2 context (pi_envelope prepared) (pi_trace_headers prepared) 0 None ;; ret tt
   else accept_inbound context (pi_envelope prepared) (pi_trace_headers prepared) ;; ret tt).

(** [stop] is what the stop event reads before each message. *)
Fixpoint drain_messages (stop : nat -> bool) (i : nat) (messages : list EmergencyMessage) (processed : Z) : M Drain Z :=
  match messages with
  | [] => ret processed
  | message :: rest =>
    if stop i then ret processed
    else
      let* error :=
        try_except (in_repository (replay (em_prepared message)) ;; ret None)
          (fun x => if refusal x then ret (Some x) else raise x) in
      match error with
      | Some _ => in_redis (quarantine q message) ;; drain_messages stop (S i) rest processed
      | None => in_redis (emergency_ack q message) ;; drain_messages stop (S i) rest (processed + 1)
      end
  end.

Definition drain_once (stop : nat -> bool) : M Drain Z :=
  let* messages := in_redis (consume q consumer_id 10 1000) in
  drain_messages stop 0 messages 0.

(** [except (asyncpg.PostgresError, InvalidTag, LookupError, RedisError, ValueError)]. *)
Definition degraded (x : exn) : bool :=
  match x with
  | PostgresError _ | IntegrityError _ | IndeterminateDatatypeError _ | InvalidTag | RedisError _ | LookupError _ | KeyError | UnknownBinding _ | ResponseError _ | ValueError _
  | ValidationError _ | BindingMismatch _ | UnicodeDecodeError | BinasciiError _ => true
  | _ => false
  end.

(** The cycles until the stop event is set: what it reads before each message of each. *)
Fixpoint emergency_run (cycles : list (nat -> bool)) : M Drain unit :=
  match cycles with
  | [] => ret tt
  | stop :: rest =>
    try_except (drain_once stop ;; ret tt) (fun x => if degraded x then ret tt else raise x) ;;
    emergency_run rest
  end.
End drainer.
