(* ===== verification/EmergencyThms.v ===== *)
(** * Theorems on the emergency queue

    A callback written under one key is read under a rotated key, only what a holder of a
    key wrote is read, and the drainer removes an entry only when the repository has the
    callback or lacks its configuration, or the entry cannot be read at all. *)

From S2P Require Import Prelude Datetime PyText Base64 Tenant Models Mailbox Repository RepositoryThms Runtime RuntimeThms SessionReady SessionReadyThms Emergency.
From Stdlib Require Import Ascii.
#[local] Open Scope Z_scope.

(** ** Base64 with padding *)

Lemma std_char_spec c :
  b64_value (std_char c) = b64_value c /\ Ascii.eqb (std_char c) "=" = Ascii.eqb c "=" /\ cont (std_char c) = cont c.
Proof. destruct c as [[] [] [] [] [] [] [] []]; vm_compute; done. Qed.

Lemma a2b_std s q left pads : a2b q left pads (string_map std_char s) = a2b q left pads s.
Proof.
  revert q left pads. induction s as [|c s IH]; intros q left pads; [done|]. cbn [string_map a2b].
  destruct (std_char_spec c) as (-> & -> & _).
  repeat (case_match; try done); by rewrite ?IH.
Qed.

Lemma string_map_app f s t : string_map f (s +:+ t) = string_map f s +:+ string_map f t.
Proof. induction s as [|c s IH]; [done|]. rewrite append_cons. cbn [string_map]. by rewrite append_cons, IH. Qed.

Lemma string_map_length f s : String.length (string_map f s) = String.length s.
Proof. induction s as [|c s IH]; [done|]. cbn. by rewrite IH. Qed.

Lemma char_len_std s : char_len (string_map std_char s) = char_len s.
Proof. induction s as [|c s IH]; [done|]. cbn [string_map char_len]. destruct (std_char_spec c) as (_ & _ & ->). by rewrite IH. Qed.

Lemma b64encode_std l : b64encode l = string_map std_char (b64_pad (b64 l)).
Proof.
  unfold b64encode, b64_pad. rewrite string_map_app, char_len_std. f_equal.
  generalize (Z.to_nat ((- char_len (b64 l)) mod 4)). intros n. induction n as [|n IH]; [done|].
  cbn [repeat_char string_map]. by rewrite <-IH.
Qed.

Lemma string_all_map f g s : string_all f (string_map g s) = string_all (fun c => f (g c)) s.
Proof. induction s as [|c s IH]; [done|]. cbn [string_map string_all]. by rewrite IH. Qed.

Definition std_ok (c : ascii) : bool := std_data c && negb (Ascii.eqb c "=").

Lemma std_b64_char i : 0 <= i < 64 ->
  std_ok (std_char (b64_char i)) = true /\ byte_in 0 127 (std_char (b64_char i)) = true.
Proof.
  intros Hi. apply andb_true_iff. apply (range_forall (fun i => std_ok (std_char (b64_char i)) &&
    byte_in 0 127 (std_char (b64_char i))) 64); [vm_compute; reflexivity|lia].
Qed.

Lemma split_padding_pads n : split_padding (repeat_char n "="%char) = Some (0, n)%nat.
Proof. induction n as [|n IH]; [done|]. cbn [repeat_char split_padding]. by rewrite IH. Qed.

Lemma split_padding_data s t d p :
  string_all std_ok s = true -> split_padding t = Some (d, p) ->
  split_padding (s +:+ t) = Some (String.length s + d, p)%nat.
Proof.
  intros Hs Ht. induction s as [|c s IH]; [done|]. cbn [string_all] in Hs. unfold std_ok at 1 in Hs. bool_prop.
  rewrite append_cons. cbn [split_padding String.length]. rewrite IH by done.
  destruct (Ascii.eqb c "="); [done|]. by rewrite H.
Qed.

(** No encoding has one character more than a multiple of four. *)
Lemma b64_length l : (String.length (b64 l) mod 4 <> 1)%nat.
Proof.
  induction l as [l IH] using (induction_ltof1 _ (@length Z)). unfold ltof in IH.
  destruct l as [|a [|b [|c l]]]; [done..|]. cbn [b64 String.length].
  specialize (IH l ltac:(simpl; lia)). generalize dependent (String.length (b64 l)). intros n Hn.
  change (S (S (S (S n)))) with (4 + n)%nat. rewrite <-Nat.Div0.add_mod_idemp_l. exact Hn.
Qed.

Lemma b64_plain_len l : Forall (fun b => byte b) l -> char_len (b64 l) = Z.of_nat (String.length (b64 l)).
Proof.
  intros Hl. apply char_len_plain, b64_all; [|done]. intros i Hi. destruct (b64_char_spec i Hi) as (_ & _ & _ & _ & ->). done.
Qed.

Lemma b64encode_chars l f : Forall (fun b => byte b) l ->
  (forall i, 0 <= i < 64 -> f (std_char (b64_char i)) = true) -> string_all f (string_map std_char (b64 l)) = true.
Proof. intros Hl Hf. rewrite string_all_map. by apply b64_all. Qed.

(** Strict decoding inverts the encoding. *)
Lemma b64decode_b64encode l : Forall (fun b => byte b) l -> b64decode_strict (b64encode l) = Some l.
Proof.
  intros Hl. unfold b64decode_strict. pose proof (b64_length l) as Hn.
  assert (Hs : split_padding (b64encode l) =
    Some (String.length (b64 l), Z.to_nat ((- Z.of_nat (String.length (b64 l))) mod 4))).
  { unfold b64encode, b64_pad. rewrite char_len_std, b64_plain_len by done.
    erewrite split_padding_data; [|apply b64encode_chars; [done|]|apply split_padding_pads].
    - by rewrite string_map_length, Nat.add_0_r.
    - intros i Hi. by destruct (std_b64_char i Hi). }
  rewrite Hs. generalize dependent (String.length (b64 l)). intros n Hn _.
  assert (Hp : (Z.to_nat ((- Z.of_nat n) mod 4) <= 2)%nat /\
    ((n + Z.to_nat ((- Z.of_nat n) mod 4)) mod 4 = 0)%nat /\ (n = 0%nat -> Z.to_nat ((- Z.of_nat n) mod 4) = 0%nat)).
  { assert (Hz : 0 <= (- Z.of_nat n) mod 4 <= 2 /\ (Z.of_nat n + (- Z.of_nat n) mod 4) mod 4 = 0).
    { assert (Z.of_nat n mod 4 <> 1) by (intros E; apply Hn, Nat2Z.inj; by rewrite Nat2Z.inj_mod).
      Z.div_mod_to_equations. lia. }
    destruct Hz as [Hb Hm]. split_and!; [lia| |intros ->; done].
    apply Nat2Z.inj. by rewrite Nat2Z.inj_mod, Nat2Z.inj_add, Z2Nat.id by lia. }
  destruct Hp as (Hp & Hm & Hz). apply Nat.leb_le in Hp. apply Nat.eqb_eq in Hm. rewrite Hp, Hm.
  destruct (n =? 0)%nat eqn:En; [apply Nat.eqb_eq in En; rewrite (Hz En)|]; cbn [andb negb Nat.eqb];
    rewrite b64encode_std, a2b_std; pose proof (b64decode_b64 l Hl) as Hd; unfold urlsafe_b64decode in Hd; by case_match.
Qed.

Lemma b64encode_ascii l : Forall (fun b => byte b) l -> is_ascii (b64encode l) = true.
Proof.
  intros Hl. unfold b64encode, b64_pad, is_ascii. rewrite string_all_app. apply andb_true_iff. split; [|apply padding_ascii].
  apply b64encode_chars; [done|]. intros i Hi. by destruct (std_b64_char i Hi).
Qed.

(** ** Reading an entry *)

Lemma text_eqb_eq v w : text_eqb v w = true <-> v = w.
Proof.
  destruct v, w; cbn [text_eqb]; rewrite ?bool_decide_eq_true; split; intros; congruence || done.
Qed.

Lemma assoc_Some k fields v : assoc k fields = Some v -> (k, v) ∈ fields.
Proof.
  induction fields as [|[k' v'] fields IH]; simpl; [done|]. case_match eqn:E.
  - apply text_eqb_eq in E as ->. intros [= ->]. left.
  - intros. right. auto.
Qed.

Lemma assoc_None k fields v : assoc k fields = None -> (k, v) ∉ fields.
Proof.
  induction fields as [|[k' v'] fields IH]; simpl; [set_solver|]. case_match eqn:E; [done|].
  intros Hn [[= <- <-]|Hi]%elem_of_cons; [|by apply IH].
  by rewrite (proj2 (text_eqb_eq k k) eq_refl) in E.
Qed.

Lemma elem_of_plain wire k v : (k, v) ∈ wire -> (content k, content v) ∈ plain wire.
Proof. intros Hi. unfold plain. apply list_elem_of_fmap. by exists (k, v). Qed.

(** A field is found whether names and values come back as text or as bytes. *)
Lemma field_plain wire d name s :
  NoDup (dkeys d) -> plain wire ≡ₚ d -> dget name d = Some s -> exists v, _field wire name = Ok v /\ content v = s.
Proof.
  intros Hnd Hp Hg. assert (Hval : forall k v, content k = name -> (k, v) ∈ wire -> content v = s).
  { intros k v <- Hi%elem_of_plain. rewrite Hp in Hi. apply In_dget in Hi; [|done]. congruence. }
  assert (Hi : exists k v, (k, v) ∈ wire /\ content k = name).
  { apply dget_Some_In in Hg. rewrite <-Hp in Hg. apply list_elem_of_fmap in Hg as ([k v] & [= -> _] & Hi). eauto. }
  destruct Hi as (k & v & Hi & Hk). unfold _field.
  destruct (assoc (TStr name) wire) as [v1|] eqn:E1; [apply assoc_Some in E1; exists v1; split; [done|]; by apply (Hval (TStr name))|].
  destruct (assoc (TBytes name) wire) as [v2|] eqn:E2; [apply assoc_Some in E2; exists v2; split; [done|]; by apply (Hval (TBytes name))|].
  destruct k as [k|k]; simpl in Hk; subst k.
  - by apply (assoc_None _ _ v) in E1.
  - by apply (assoc_None _ _ v) in E2.
Qed.

Lemma decode_field_b64 v l : Forall (fun b => byte b) l -> content v = b64encode l -> decode_field v = Ok l.
Proof.
  intros Hl Hv. destruct v as [s|s]; simpl in *; subst s; rewrite ?b64encode_ascii by done;
    cbn [negb]; by rewrite b64decode_b64encode by done.
Qed.

(** ** Key rotation *)

Lemma add_previous_get prev keys keys' v :
  NoDup (dkeys prev) -> add_previous prev keys = Ok keys' ->
  dget v keys' = match dget v prev with Some k => Some k | None => dget v keys end.
Proof.
  revert keys. induction prev as [|[w k] prev IH]; intros keys Hnd; cbn [add_previous]; [by intros [= ->]|].
  inversion Hnd as [|? ? Hni Hnd']; subst. destruct (str_empty w || negb (str_len k =? 32)); [done|]. intros Ha. rewrite (IH _ Hnd' Ha).
  cbn [dget]. case_decide as E.
  - subst. apply dget_None_keys in Hni. by rewrite Hni, dget_dset_eq.
  - by rewrite dget_dset_ne.
Qed.

(** A reader knows a key when it is its own or a previous one. *)
Definition reads_version (key version : string) (own_key own_version : string) (previous : odict string string) : Prop :=
  dget version previous = Some key \/ (own_version = version /\ own_key = key /\ version ∉ dkeys previous).

Lemma make_emergency_queue_keys key sv stream group reclaim kv prev q k v :
  make_emergency_queue key sv stream group reclaim kv prev = Ok q -> NoDup (dkeys prev) ->
  reads_version k v key kv prev -> k ∈ dvalues (eq_keys q).
Proof.
  unfold make_emergency_queue. intros Hm Hnd Hr. repeat case_match; simplify_eq. cbn [eq_keys].
  match goal with H : add_previous _ _ = Ok _ |- _ => apply (add_previous_get _ _ _ v Hnd) in H; rename H into Hg end.
  assert (Hv : dget v a = Some k).
  { rewrite Hg. destruct Hr as [->|(-> & -> & Hni)]; [done|]. apply dget_None_keys in Hni. rewrite Hni. simpl. by rewrite decide_True. }
  apply dget_Some_In in Hv. unfold dvalues. apply list_elem_of_fmap. by exists (v, k).
Qed.

Lemma make_emergency_queue_own key sv stream group reclaim kv prev q :
  make_emergency_queue key sv stream group reclaim kv prev = Ok q -> eq_key q = key /\ eq_key_version q = kv.
Proof. unfold make_emergency_queue. intros Hm. by repeat case_match; simplify_eq. Qed.

(** ** The round trip and authenticity *)

Section queue.
Context `{Aead} `{PreparedCodec}.

Lemma try_keys_found keys key nonce payload a p :
  key ∈ keys -> aead_decrypt key nonce payload a = Ok p ->
  (forall k, k ∈ keys -> k <> key -> aead_decrypt k nonce payload a = Raise InvalidTag) ->
  try_keys keys nonce payload a = Ok p.
Proof.
  intros Hin Hd Ho. induction keys as [|k keys IH]; [by apply not_elem_of_nil in Hin|]. cbn [try_keys].
  destruct (decide (k = key)) as [->|Hne]; [by rewrite Hd|].
  rewrite Ho by (done || left). apply IH; [set_solver|]. intros; apply Ho; [by right|done].
Qed.

Lemma try_keys_Ok keys nonce payload a p :
  try_keys keys nonce payload a = Ok p -> exists key, key ∈ keys /\ aead_decrypt key nonce payload a = Ok p.
Proof.
  induction keys as [|k keys IH]; cbn [try_keys]; [done|].
  destruct (aead_decrypt k nonce payload a) as [p'|[]] eqn:E; intros Ht; try discriminate.
  - exists k. split; [left|congruence].
  - destruct (IH Ht) as (key & Hk & Hd). exists key. split; [by right|done].
Qed.

(** C39: A callback written to the emergency stream survives a key rotation: a queue that
    has the writer's key under the writer's version name, as a previous key or as its own key that no
    previous key shadows, reads the same callback back, whatever order the fields come back in and
    whether as text or as bytes. *)
Theorem emergency_rotation_roundtrip key1 sv1 s1 g1 r1 kv1 prev1 q1 key2 sv2 s2 g2 r2 kv2 prev2 q2 nonce prepared id i wire :
  make_emergency_queue key1 sv1 s1 g1 r1 kv1 prev1 = Ok q1 ->
  make_emergency_queue key2 sv2 s2 g2 r2 kv2 prev2 = Ok q2 ->
  NoDup (dkeys prev2) -> reads_version key1 kv1 key2 kv2 prev2 ->
  length nonce = 12%nat -> Forall (fun b => byte b) nonce ->
  utf8_valid (tc_channel_binding_id (pi_context prepared)) = true ->
  parse_prepared (dump_prepared prepared) = Some prepared ->
  (forall k, k ∈ dvalues (eq_keys q2) -> k <> key1 ->
     aead_decrypt k nonce (aead_encrypt key1 nonce (dump_prepared prepared) (tc_channel_binding_id (pi_context prepared)))
       (tc_channel_binding_id (pi_context prepared)) = Raise InvalidTag) ->
  plain wire ≡ₚ emergency_fields q1 nonce prepared -> _text id = Ok i ->
  _decode q2 (Row id wire) = Ok (MkEmergencyMessage i prepared).
Proof.
  intros Hm1 Hm2 Hnd Hr Hn12 Hn Hutf Hp Ho Hw Hid. apply make_emergency_queue_own in Hm1 as [Hk1 _].
  pose proof (make_emergency_queue_keys _ _ _ _ _ _ _ _ _ _ Hm2 Hnd Hr) as Hin.
  unfold emergency_fields in Hw. rewrite Hk1 in Hw.
  match type of Hw with _ ≡ₚ ?d => assert (Hdn : NoDup (dkeys d)) by (by apply (bool_decide_eq_true _)); set (fields := d) in * end.
  destruct (field_plain wire fields "binding_id" _ Hdn Hw eq_refl) as (vb & Hfb & Hvb).
  destruct (field_plain wire fields "nonce" _ Hdn Hw eq_refl) as (vn & Hfn & Hvn).
  destruct (field_plain wire fields "payload" _ Hdn Hw eq_refl) as (vp & Hfp & Hvp).
  unfold _decode, decrypt. rewrite Hid, Hfb, text_content by (by rewrite Hvb). rewrite Hfn, Hfp.
  rewrite (decode_field_b64 _ nonce), (decode_field_b64 _ _ (aead_bytes _ _ _ _) Hvp), Hvb by done.
  rewrite (try_keys_found _ key1 _ _ _ (dump_prepared prepared)), Hp; [|done| |done].
  - by rewrite bool_decide_eq_true_2.
  - by apply aead_correct.
Qed.

(** The entry carries what a holder of one of the keys encrypted, for the binding of the
    callback itself. *)
Definition authentic (q : EmergencyQueue) (r : row) (prepared : PreparedInbound) : Prop :=
  exists id wire vn vp key nonce p, r = Row id wire /\
    _field wire "nonce" = Ok vn /\ decode_field vn = Ok nonce /\ _field wire "payload" = Ok vp /\
    decode_field vp = Ok (aead_encrypt key nonce p (tc_channel_binding_id (pi_context prepared))) /\
    key ∈ dvalues (eq_keys q) /\ parse_prepared p = Some prepared.

Lemma decode_authentic q r m : _decode q r = Ok m -> authentic q r (em_prepared m).
Proof.
  destruct r as [id wire| |]; cbn [_decode]; [|done..]. unfold decrypt. intros Hd. repeat case_match; simplify_eq.
  match goal with H : try_keys _ _ _ _ = Ok _ |- _ => apply try_keys_Ok in H as (key & Hk & Hd) end.
  apply aead_authentic in Hd. subst. unfold authentic. cbn [em_prepared].
  match goal with H : bool_decide _ = true |- _ => apply bool_decide_eq_true in H as Hb end.
  rewrite Hb. by do 7 eexists.
Qed.

Lemma decode_id q r m : _decode q r = Ok m -> _safe_stream_id r = em_message_id m.
Proof.
  destruct r as [id wire| |]; cbn [_decode _safe_stream_id]; [|done..]. intros Hd. by repeat case_match; simplify_eq.
Qed.
End queue.

(** ** The repository's acceptances *)

(** The repository has the callback. *)
Definition has_callback (r : Repository) (prepared : PreparedInbound) : Prop :=
  is_Some (rp_acceptances r !! acceptance_key_of (pi_context prepared) (pi_envelope prepared)).

Section replay.
Context `{Env}.

(** The repository does not have the configuration that the callback is pinned to. *)
Definition config_missing (s : Repository) (prepared : PreparedInbound) : Prop :=
  let context := pi_context prepared in
  rp_configs s !! (tc_tenant_id context, tc_app_id context, tc_config_version context) = None.

(** The acceptances are those from before and possibly this one; the configurations stay. *)
Definition accepts_only (key : acceptance_key) (s s' : Repository) : Prop :=
  (forall k, is_Some (rp_acceptances s !! k) -> is_Some (rp_acceptances s' !! k)) /\
  (forall k, is_Some (rp_acceptances s' !! k) -> is_Some (rp_acceptances s !! k) \/ k = key) /\
  rp_configs s' = rp_configs s.

Lemma accepts_only_refl key s : accepts_only key s s.
Proof. split_and!; auto. Qed.

Lemma accepts_only_insert key a s s' :
  rp_acceptances s' = <[key := a]> (rp_acceptances s) -> rp_configs s' = rp_configs s -> accepts_only key s s'.
Proof.
  intros E Ec. split_and!; [| |done]; intros k; rewrite E; destruct (decide (k = key)) as [->|Hne].
  - rewrite lookup_insert_eq. eauto.
  - by rewrite lookup_insert_ne.
  - by right.
  - rewrite lookup_insert_ne by done. by left.
Qed.

(** Operations on the mailbox store leave the acceptances and the configurations alone. *)
Lemma wp_mailbox_acceptances {A} (m : M MailboxStore A) (Q : outcome A -> Repository -> effects -> Prop) s e :
  (forall r s' e', rp_acceptances s' = rp_acceptances s -> rp_configs s' = rp_configs s -> Q r s' e') -> wp (mailbox m) Q s e.
Proof. intros HQ. apply wp_zoom, wp_intro. intros r t e' _. by apply HQ. Qed.

Lemma effective_retry_pure mb retry s e :
  wp (effective_retry_at mb retry) (fun _ s' _ => s' = s) s e.
Proof. unfold effective_retry_at. repeat first [case_match | wp_prim]; done. Qed.

Lemma register_spec context envelope s e :
  wp (register_acceptance context envelope)
    (fun r s' _ => exists a, r = Ok a /\ rp_acceptances s' = <[acceptance_key_of context envelope := a]> (rp_acceptances s) /\
       rp_configs s' = rp_configs s) s e.
Proof. unfold register_acceptance. wp_steps. by eexists. Qed.

(** The two ways to accept, up to the acceptances: the message is registered first, whatever happens
    to its mailbox. *)
Definition accepting {A} (m : M Repository A) (prepared : PreparedInbound) : Prop :=
  forall s e, wp m (fun _ s' _ =>
    accepts_only (acceptance_key_of (pi_context prepared) (pi_envelope prepared)) s s' /\ has_callback s' prepared) s e.

Lemma accepting_insert a prepared s s' :
  rp_acceptances s' = <[acceptance_key_of (pi_context prepared) (pi_envelope prepared) := a]> (rp_acceptances s) ->
  rp_configs s' = rp_configs s ->
  accepts_only (acceptance_key_of (pi_context prepared) (pi_envelope prepared)) s s' /\ has_callback s' prepared.
Proof.
  intros E Ec. split; [by eapply accepts_only_insert|]. unfold has_callback. rewrite E, lookup_insert_eq. eauto.
Qed.

Lemma accept_inbound_accepting prepared headers :
  accepting (accept_inbound (pi_context prepared) (pi_envelope prepared) headers) prepared.
Proof.
  intros s e. unfold accept_inbound. do 2 wp_step. destruct (rp_acceptances s !! _) as [old|] eqn:E.
  - wp_steps. split; [apply accepts_only_refl|by exists old].
  - wp_step. eapply wp_mono; [apply register_spec|]. intros r s1 e1 (a & -> & Ha & Hc). wp_steps.
    by destruct (accepting_insert a prepared s s1 Ha Hc).
Qed.

Lemma accept_inbound_v2_accepting prepared headers priority retry :
  accepting (accept_inbound_v2 (pi_context prepared) (pi_envelope prepared) headers priority retry) prepared.
Proof.
  intros s e. unfold accept_inbound_v2. do 2 wp_step. destruct (rp_acceptances s !! _) as [old|] eqn:E.
  - wp_steps. split; [apply accepts_only_refl|by exists old].
  - wp_step. eapply wp_mono; [apply register_spec|]. intros r s1 e1 (a & -> & Ha & Hc). unfold outbox_size.
    do 3 wp_step. apply wp_mailbox_acceptances. intros r2 s2 e2 Ea2 Ec2. rewrite <-Ea2 in Ha. rewrite <-Ec2 in Hc.
    destruct r2 as [mb|x]; [|by apply (accepting_insert a)].
    wp_step. eapply wp_mono; [apply effective_retry_pure|]. intros r3 s3 e3 ->.
    destruct r3 as [retry'|x]; [|by apply (accepting_insert a)].
    wp_step. apply wp_mailbox_acceptances. intros r4 s4 e4 Ea4 Ec4. rewrite <-Ea4 in Ha. rewrite <-Ec4 in Hc.
    destruct r4 as [mb'|x]; [|by apply (accepting_insert a)].
    wp_steps. by destruct (accepting_insert a prepared s s4 Ha Hc).
Qed.

(** A replay leaves an acceptance of the callback unless its configuration is missing. *)
Lemma replay_accepting sv prepared s e :
  wp (replay sv prepared) (fun _ s' _ =>
    accepts_only (acceptance_key_of (pi_context prepared) (pi_envelope prepared)) s s' /\
    (has_callback s' prepared \/ config_missing s' prepared)) s e.
Proof.
  unfold replay, get_config. do 3 wp_step. destruct (rp_configs s !! _) eqn:E; wp_step.
  2: { split; [apply accepts_only_refl|by right]. }
  destruct (bool_decide (sv = V2)); wp_step; eapply wp_mono.
  1: exact (accept_inbound_v2_accepting prepared _ _ _ s e).
  2: exact (accept_inbound_accepting prepared _ s e).
  all: intros [a|x] s' e' [Ho Hh]; cbv beta iota; [wp_step|]; split; [done|by left|done|by left].
Qed.
End replay.

(** ** What is removed from the stream *)

Section drain.
Context `{Env} `{Aead} `{PreparedCodec} `{Redis}.
Context (q : EmergencyQueue) (sv : SchedulerVersion).

(** Redis returned the entry as an answer to one of the commands sent. *)
Definition delivered (log : list command) (r : row) : Prop :=
  exists l, l `prefix_of` log /\
    ((exists cursor rows, xautoclaim l = Ok (Some (cursor, Some rows)) /\ r ∈ rows) \/
     (exists groups entries, xreadgroup l = Ok groups /\ GroupRow entries ∈ groups /\ r ∈ entries)).

(** The command takes the entry away: it is acknowledged or deleted. *)
Definition removes (id : string) (c : command) : Prop :=
  match c with XAck _ _ i | XDel _ i => i = id | _ => False end.

(** Every command sent since [log0] that takes an entry away has a reason. *)
Definition removals (reason : list command -> string -> Prop) (log0 : list command) (w : World) : Prop :=
  exists new, w_log w = log0 ++ new /\ forall c id, c ∈ new -> removes id c -> reason (w_log w) id.

Definition lasting (reason : list command -> string -> Prop) : Prop :=
  forall log log' id, log `prefix_of` log' -> reason log id -> reason log' id.

Lemma delivered_mono log log' r : log `prefix_of` log' -> delivered log r -> delivered log' r.
Proof. intros Hp (l & Hl & Hd). exists l. split; [by etrans|done]. Qed.

Lemma removals_refl reason w : removals reason (w_log w) w.
Proof. exists []. split; [by rewrite app_nil_r|]. intros c id Hc. by apply not_elem_of_nil in Hc. Qed.

Lemma removals_weaken (reason reason' : list command -> string -> Prop) log0 w :
  (forall log id, reason log id -> reason' log id) -> removals reason log0 w -> removals reason' log0 w.
Proof. intros Hr (new & Hl & Hn). exists new. split; [done|]. eauto. Qed.

(** Sending a command that takes nothing away, or takes away with a reason. *)
Lemma wp_send_removals {A} reason log0 (answer : list command -> outcome A) c (Q : outcome A -> World -> effects -> Prop) w e :
  lasting reason -> removals reason log0 w -> (forall id, removes id c -> reason (w_log w ++ [c]) id) ->
  (forall w', removals reason log0 w' -> w_log w' = w_log w ++ [c] -> Q (answer (w_log w')) w' e) ->
  wp (send answer c) Q w e.
Proof.
  intros Hlast (new & Hl & Hn) Hc HQ. apply wp_send. apply (HQ (MkWorld _ _)); [|done].
  exists (new ++ [c]). cbn [w_log]. split; [by rewrite Hl, app_assoc|].
  intros c' id [Hi|Hi%list_elem_of_singleton]%elem_of_app Hr; [|subst; by apply Hc].
  eapply Hlast; [|by eapply Hn]. by apply prefix_app_r.
Qed.

(** The commands after an entry was dealt with. *)
Definition clears (reason : list command -> string -> Prop) (id : string) (m : M World unit) : Prop :=
  forall log0 w e, removals reason log0 w -> reason (w_log w) id ->
    wp m (fun _ w' _ => removals reason log0 w' /\ w_log w `prefix_of` w_log w') w e.

Lemma prefix_snoc (log : list command) c : log `prefix_of` log ++ [c].
Proof. by exists [c]. Qed.
#[local] Hint Resolve prefix_snoc : core.

Lemma exact_delete_clears reason id : lasting reason -> clears reason id (_exact_delete q id).
Proof.
  intros Hl log0 w e Hw Hr. apply wp_try, wp_bind. apply (wp_send_removals reason log0); [done..| |].
  - intros id' Hid. simpl in Hid. subst id'. eapply Hl; [apply prefix_snoc|done].
  - intros w' Hw' E. destruct (xdel _); apply wp_ret; (split; [done|]); rewrite E; auto.
Qed.

Lemma ack_delete_clears reason id :
  lasting reason ->
  clears reason id (send xack (XAck (eq_stream q) (eq_group q) id) ;; _exact_delete q id).
Proof.
  intros Hl log0 w e Hw Hr. apply wp_bind. apply (wp_send_removals reason log0); [done..| |].
  - intros id' Hid. simpl in Hid. subst id'. eapply Hl; [apply prefix_snoc|done].
  - intros w' Hw' E. destruct (xack _); [|split; [done|]; rewrite E; auto].
    eapply wp_mono; [apply (exact_delete_clears reason id Hl log0); [done|]|].
    + rewrite E. eapply Hl; [apply prefix_snoc|done].
    + intros r w2 e2 [Hw2 Hp]. split; [done|]. etrans; [|done]. rewrite E. auto.
Qed.

Lemma quarantine_raw_clears reason id : lasting reason -> clears reason id (_quarantine_raw q id).
Proof.
  intros Hl log0 w e Hw Hr. apply wp_try. eapply wp_mono; [by apply (ack_delete_clears reason id Hl log0)|].
  intros [u|x] w' e' Hw'; [done|]. by apply wp_ret.
Qed.

(** ** Reading a batch *)

Definition unreadable (r : row) : Prop := exists x, _decode q r = Raise x /\ emergency_poison x = true.

(** The reason [consume] has for removing an entry. *)
Definition unreadable_entry (log : list command) (id : string) : Prop :=
  exists r, delivered log r /\ _safe_stream_id r = id /\ unreadable r.

Lemma unreadable_lasting : lasting unreadable_entry.
Proof. intros log log' id Hp (r & Hr & Hu). exists r. split; [by eapply delivered_mono|done]. Qed.

(** The messages come from entries Redis returned. *)
Definition read_from (log : list command) (messages : list EmergencyMessage) : Prop :=
  Forall (fun m => exists r, delivered log r /\ _decode q r = Ok m) messages.

Lemma read_from_mono log log' messages : log `prefix_of` log' -> read_from log messages -> read_from log' messages.
Proof. intros Hp Hf. eapply Forall_impl; [exact Hf|]. intros m (r & Hr & Hd). exists r. split; [by eapply delivered_mono|done]. Qed.

Definition reads (log0 : list command) (m : M World (list EmergencyMessage)) (w : World) (e : effects) : Prop :=
  wp m (fun r w' _ => removals unreadable_entry log0 w' /\ w_log w `prefix_of` w_log w' /\
          forall messages, r = Ok messages -> read_from (w_log w') messages) w e.

Lemma decode_rows_reads log0 rows acc w e :
  removals unreadable_entry log0 w -> Forall (delivered (w_log w)) rows -> read_from (w_log w) acc ->
  reads log0 (_decode_rows q rows acc) w e.
Proof.
  revert acc w e. induction rows as [|r rows IH]; intros acc w e Hw Hd Ha; cbn [_decode_rows].
  { apply wp_ret. split_and!; [done..|]. by intros ? [= <-]. }
  apply Forall_cons in Hd as [Hr Hd]. destruct (_decode q r) as [m|x] eqn:Em.
  { apply IH; [done..|]. apply Forall_app. split; [done|]. constructor; [|done]. eauto. }
  destruct (emergency_poison x) eqn:Ep; [|apply wp_raise; by split_and!].
  apply wp_bind. case_match; [apply wp_ret; by apply IH|].
  eapply wp_mono; [apply (quarantine_raw_clears unreadable_entry _ unreadable_lasting log0); [done|]|].
  { exists r. split_and!; [done..|]. by exists x. }
  intros [u|y] w' e' [Hw' Hp]; [|by split_and!].
  eapply wp_mono; [apply IH; [done| |by eapply read_from_mono]|].
  - eapply Forall_impl; [exact Hd|]. intros r'. by apply delivered_mono.
  - intros ? w2 ? (Hw2 & Hp2 & Hm). split_and!; [done|by etrans|done].
Qed.

Lemma decode_groups_reads log0 groups acc w e :
  removals unreadable_entry log0 w ->
  (forall entries r, GroupRow entries ∈ groups -> r ∈ entries -> delivered (w_log w) r) -> read_from (w_log w) acc ->
  reads log0 (_decode_groups q groups acc) w e.
Proof.
  revert acc w e. induction groups as [|[entries|] groups IH]; intros acc w e Hw Hd Ha; cbn [_decode_groups].
  - apply wp_ret. split_and!; [done..|]. by intros ? [= <-].
  - apply wp_bind. eapply wp_mono.
    { apply decode_rows_reads; [exact Hw| |exact Ha]. apply Forall_forall. intros r Hr. eapply Hd; [left|done]. }
    intros [ms|x] w' e' (Hw' & Hp & Hm); [|by split_and!]. eapply wp_mono; [apply IH; [done| |by apply Hm]|].
    + intros es r He Hr. eapply delivered_mono; [done|]. eapply Hd; [by right|done].
    + intros ? w2 ? (Hw2 & Hp2 & Hm2). split_and!; [done|by etrans|done].
  - apply wp_raise. by split_and!.
Qed.

Lemma reads_bind {A} log0 (m : M World A) k w e :
  wp m (fun r w' e' => match r with
    | Ok a => w_log w `prefix_of` w_log w' /\ reads log0 (k a) w' e'
    | Raise _ => removals unreadable_entry log0 w' /\ w_log w `prefix_of` w_log w'
    end) w e -> reads log0 (bind m k) w e.
Proof.
  intros Hm. apply wp_bind. eapply wp_mono; [exact Hm|]. intros [a|x] w' e'.
  - intros [Hp Hk]. unfold reads in Hk. eapply wp_mono; [exact Hk|]. intros r w2 e2 (? & ? & ?). split_and!; [done|by etrans|done].
  - intros [? ?]. by split_and!.
Qed.

(** A command that removes nothing. *)
Lemma wp_send_reads {A} log0 (answer : list command -> outcome A) c (Q : outcome A -> World -> effects -> Prop) w e :
  removals unreadable_entry log0 w -> (forall id, ~ removes id c) ->
  (forall w', removals unreadable_entry log0 w' -> w_log w' = w_log w ++ [c] -> Q (answer (w_log w')) w' e) ->
  wp (send answer c) Q w e.
Proof.
  intros Hw Hc HQ. apply (wp_send_removals unreadable_entry log0); [apply unreadable_lasting|done| |done].
  intros id Hid. by destruct (Hc id).
Qed.

Lemma ensure_group_reads log0 k w e :
  removals unreadable_entry log0 w -> (forall w' e', removals unreadable_entry log0 w' -> reads log0 k w' e') ->
  reads log0 (_ensure_group (eq_stream q) (eq_group q) ;; k) w e.
Proof.
  intros Hw Hk. apply reads_bind. apply wp_try. apply (wp_send_reads log0); [done|intros id []|].
  intros w' Hw' E. destruct (xgroup_create _) as [u|x]; [split; [rewrite E; auto|by apply Hk]|].
  assert (Hp : w_log w `prefix_of` w_log w') by (rewrite E; auto).
  destruct x; try (apply wp_raise; by split). case_match; [apply wp_ret|apply wp_raise]; split; auto.
Qed.

Lemma read_group_reads log0 consumer count block_ms w e :
  removals unreadable_entry log0 w ->
  reads log0 (let* rows := send xreadgroup (XReadGroup (eq_group q) consumer (eq_stream q) count (Some block_ms)) in
              _decode_groups q rows []) w e.
Proof.
  intros Hw. apply reads_bind. apply (wp_send_reads log0); [done|intros id []|].
  intros w' Hw' E. assert (Hp : w_log w `prefix_of` w_log w') by (rewrite E; auto).
  destruct (xreadgroup (w_log w')) as [groups|x] eqn:Ex; [|done]. split; [done|].
  apply decode_groups_reads; [done| |constructor]. intros entries r He Hr.
  exists (w_log w'). split; [done|]. right. eauto.
Qed.

Lemma consume_reads log0 consumer count block_ms w e :
  removals unreadable_entry log0 w -> reads log0 (consume q consumer count block_ms) w e.
Proof.
  intros Hw. unfold consume, emergency_ensure_group. apply ensure_group_reads; [done|]. clear w e Hw. intros w e Hw.
  apply reads_bind, wp_gets. split; [done|]. apply reads_bind. apply (wp_send_reads log0); [done|intros id []|].
  intros w' Hw' E. assert (Hp : w_log w `prefix_of` w_log w') by (rewrite E; auto).
  destruct (xautoclaim (w_log w')) as [[[cursor rows]|]|x] eqn:Ex; [| |done]; (split; [done|]); apply reads_bind.
  - apply wp_bind. destruct (_text cursor) as [text|x]; cbn [lift]; [apply wp_ret|by apply wp_raise].
    apply wp_bind, wp_modify, wp_ret. split; [done|]. case_bool_decide; [by apply read_group_reads|].
    apply decode_rows_reads; [done| |constructor]. apply Forall_forall. intros r Hr.
    exists (w_log w'). split; [done|]. left. destruct rows as [rows|]; [|done]. eauto.
  - apply wp_ret. split; [done|]. rewrite bool_decide_eq_true_2 by done. by apply read_group_reads.
Qed.

(** ** The drain *)

(** An entry that need not stay: it cannot be read, or the repository has an acceptance of its callback
    or does not have the configuration of the callback. *)
Definition settled (repository : Repository) (r : row) : Prop :=
  unreadable r \/
  exists m, _decode q r = Ok m /\ (has_callback repository (em_prepared m) \/ config_missing repository (em_prepared m)).

Definition settled_entry (repository : Repository) (log : list command) (id : string) : Prop :=
  exists r, delivered log r /\ _safe_stream_id r = id /\ settled repository r.

Lemma settled_lasting repository : lasting (settled_entry repository).
Proof. intros log log' id Hp (r & Hr & Hu). exists r. split; [by eapply delivered_mono|done]. Qed.

(** What the repository gained since [r0] are callbacks of entries Redis returned. *)
Definition gained (r0 : Repository) (d : Drain) : Prop :=
  (forall k, is_Some (rp_acceptances r0 !! k) -> is_Some (rp_acceptances (dr_repository d) !! k)) /\
  forall k, is_Some (rp_acceptances (dr_repository d) !! k) -> is_Some (rp_acceptances r0 !! k) \/
    exists r m, delivered (w_log (dr_redis d)) r /\ _decode q r = Ok m /\
      k = acceptance_key_of (pi_context (em_prepared m)) (pi_envelope (em_prepared m)).

Definition draining (r0 : Repository) (log0 : list command) (d : Drain) : Prop :=
  removals (settled_entry (dr_repository d)) log0 (dr_redis d) /\ gained r0 d.

Lemma settled_mono key s s' r : accepts_only key s s' -> settled s r -> settled s' r.
Proof.
  intros (Hm & _ & Hc) [Hu|(m & Hd & Hs)]; [by left|]. right. exists m. split; [done|].
  destruct Hs as [Hh|Hr]; [left; by apply Hm|right]. unfold config_missing. by rewrite Hc.
Qed.

(** The callback of a message was replayed. *)
Lemma draining_replayed r0 log0 d m s' :
  draining r0 log0 d -> read_from (w_log (dr_redis d)) [m] ->
  accepts_only (acceptance_key_of (pi_context (em_prepared m)) (pi_envelope (em_prepared m))) (dr_repository d) s' ->
  draining r0 log0 (MkDrain s' (dr_redis d)).
Proof.
  intros (Hr & Hm & Hg) Hread Ho. apply Forall_cons in Hread as [(r & Hdel & Hdec) _]. split; [|split].
  - eapply removals_weaken; [|exact Hr]. intros log id (r' & ? & ? & ?). exists r'. split_and!; [done..|].
    by eapply settled_mono.
  - intros k Hk. apply Ho, Hm, Hk.
  - intros k Hk. destruct (proj1 (proj2 Ho) k Hk) as [Hold|E]; [by apply Hg|]. right. by exists r, m.
Qed.

(** The entry of a settled message is removed. *)
Lemma draining_removed r0 log0 d m (clear : M World unit) e :
  clears (settled_entry (dr_repository d)) (em_message_id m) clear ->
  draining r0 log0 d -> read_from (w_log (dr_redis d)) [m] ->
  has_callback (dr_repository d) (em_prepared m) \/ config_missing (dr_repository d) (em_prepared m) ->
  wp (in_redis clear) (fun _ d' _ => draining r0 log0 d' /\ w_log (dr_redis d) `prefix_of` w_log (dr_redis d')) d e.
Proof.
  intros Hc (Hr & Hm & Hg) Hread Hs. apply Forall_cons in Hread as [(r & Hdel & Hdec) _]. apply wp_zoom.
  eapply wp_mono; [apply (Hc log0 _ _ Hr)|].
  - exists r. split_and!; [done|by eapply decode_id|]. right. by exists m.
  - intros u w' e' [Hw' Hp]. split; [|done]. split; [done|]. split; [done|]. intros k Hk.
    destruct (Hg k Hk) as [?|(r' & m' & Hd' & ? & ?)]; [by left|right]. exists r', m'.
    split; [by eapply delivered_mono|done].
Qed.

Lemma drain_messages_draining r0 log0 stop messages i processed d e :
  draining r0 log0 d -> read_from (w_log (dr_redis d)) messages ->
  wp (drain_messages q sv stop i messages processed) (fun _ d' _ => draining r0 log0 d') d e.
Proof.
  revert i processed d e. induction messages as [|m messages IH]; intros i processed d e Hd Hr; cbn [drain_messages];
    [by apply wp_ret|]. case_match; [by apply wp_ret|].
  change (m :: messages) with ([m] ++ messages) in Hr. apply Forall_app in Hr as [Hm Hrest].
  apply wp_bind, wp_try, wp_bind, wp_zoom.
  destruct (replay sv (em_prepared m) (dr_repository d) e) as [[o s'] e'] eqn:E.
  pose proof (replay_accepting sv (em_prepared m) (dr_repository d) e) as Ha. unfold wp in *. rewrite E in *.
  cbn [fst snd] in *. destruct Ha as [Ho Hh]. pose proof (draining_replayed _ _ _ _ s' Hd Hm Ho) as Hd'.
  change (set_field s' d) with (MkDrain s' (dr_redis d)).
  assert (Hnext : forall clear n, clears (settled_entry s') (em_message_id m) clear ->
    wp (in_redis clear ;; drain_messages q sv stop (S i) messages n) (fun _ d' _ => draining r0 log0 d')
      (MkDrain s' (dr_redis d)) e').
  { intros clear n Hc. apply wp_bind. eapply wp_mono; [by apply (draining_removed r0 log0 _ m)|].
    intros [u|x] d2 e2 [Hd2 Hp]; [|done]. apply IH; [done|]. by eapply read_from_mono. }
  destruct o as [u|x].
  - apply wp_ret. apply Hnext, ack_delete_clears, settled_lasting.
  - destruct (refusal x) eqn:Ex; [apply wp_ret|by apply wp_raise].
    apply Hnext, ack_delete_clears, settled_lasting.
Qed.

Lemma removals_trans reason log0 w w' :
  lasting reason -> removals reason log0 w -> removals reason (w_log w) w' -> removals reason log0 w'.
Proof.
  intros Hl (new & Hw & Hn) (new' & Hw' & Hn'). exists (new ++ new').
  split; [by rewrite Hw', Hw, app_assoc|]. intros c id [Hc|Hc]%elem_of_app Hr; [|by eapply Hn'].
  eapply Hl; [|by eapply Hn]. by exists new'.
Qed.

(** The drain of one batch, and the loop. *)
Lemma drain_once_draining consumer_id r0 log0 stop d e :
  draining r0 log0 d -> wp (drain_once q sv consumer_id stop) (fun _ d' _ => draining r0 log0 d') d e.
Proof.
  intros (Hr & Hm & Hg). apply wp_bind, wp_zoom.
  eapply wp_mono; [apply (consume_reads (w_log (dr_redis d))), removals_refl|].
  intros r w' e' (Hw & Hp & Hread).
  assert (Hd : draining r0 log0 (MkDrain (dr_repository d) w')).
  { split; [|split; [done|]].
    - eapply removals_trans; [apply settled_lasting|exact Hr|]. eapply removals_weaken; [|exact Hw].
      intros log id (r' & ? & ? & ?). exists r'. split_and!; [done..|]. by left.
    - intros k Hk. destruct (Hg k Hk) as [?|(r1 & m1 & Hd1 & Hrest)]; [by left|right].
      exists r1, m1. split; [by eapply delivered_mono|done]. }
  destruct r as [ms|x]; [|done]. apply drain_messages_draining; [done|]. by apply Hread.
Qed.

Lemma emergency_run_draining consumer_id r0 log0 cycles d e :
  draining r0 log0 d -> wp (emergency_run q sv consumer_id cycles) (fun _ d' _ => draining r0 log0 d') d e.
Proof.
  revert d e. induction cycles as [|stop cycles IH]; intros d e Hd; cbn [emergency_run]; [by apply wp_ret|].
  apply wp_bind, wp_try, wp_bind. eapply wp_mono; [by apply (drain_once_draining consumer_id r0 log0)|].
  intros [n|x] d' e' Hd'; [apply wp_ret; by apply IH|].
  destruct (degraded x); [apply wp_ret; by apply IH|by apply wp_raise].
Qed.

(** C38: The drainer loses nothing and invents nothing.  Along any number of cycles, and
    whatever Redis answers, an entry is acknowledged or deleted only when the repository now has an
    acceptance of its callback, when the repository does not have the configuration that the
    callback is pinned to, or when the entry cannot be read at all; no acceptance disappears, and
    each new one belongs to an entry that a holder of a key encrypted for the binding of that
    callback. *)
Theorem emergency_run_loses_nothing consumer_id cycles d e :
  let d' := (emergency_run q sv consumer_id cycles d e).1.2 in
  exists new, w_log (dr_redis d') = w_log (dr_redis d) ++ new /\
    (forall c id, c ∈ new -> removes id c ->
       exists r, delivered (w_log (dr_redis d')) r /\ _safe_stream_id r = id /\ settled (dr_repository d') r) /\
    (forall k, is_Some (rp_acceptances (dr_repository d) !! k) -> is_Some (rp_acceptances (dr_repository d') !! k)) /\
    (forall k, is_Some (rp_acceptances (dr_repository d') !! k) -> is_Some (rp_acceptances (dr_repository d) !! k) \/
       exists r prepared, delivered (w_log (dr_redis d')) r /\ authentic q r prepared /\
         k = acceptance_key_of (pi_context prepared) (pi_envelope prepared)).
Proof.
  assert (Hd : wp (emergency_run q sv consumer_id cycles)
    (fun _ d' _ => draining (dr_repository d) (w_log (dr_redis d)) d') d e).
  { apply emergency_run_draining. split; [apply removals_refl|]. split; [done|]. by left. }
  cbv zeta. destruct Hd as ((new & Hl & Hn) & Hm & Hg). exists new. split_and!; [done..|].
  intros k Hk. destruct (Hg k Hk) as [Hold|(r & m & Hdel & Hdec & Ek)]; [by left|right].
  exists r, (em_prepared m). split_and!; [done|by eapply decode_authentic|done].
Qed.
End drain.

(** ** A concrete run *)

Section demo.

(** A cipher that shows its key and binding. *)
Definition toy_encrypt (key : string) (nonce : list Z) (plain aad : string) : list Z :=
  str_bytes (key +:+ aad) ++ str_bytes plain.
Definition toy_decrypt (key : string) (nonce cipher : list Z) (aad : string) : outcome string :=
  let plain := bytes_str (drop (length (str_bytes (key +:+ aad))) cipher) in
  if decide (cipher = toy_encrypt key nonce plain aad) then Ok plain else Raise InvalidTag.

Lemma toy_bytes k n p a : Forall (fun b => byte b) (toy_encrypt k n p a).
Proof. apply Forall_app. split; apply str_bytes_byte. Qed.

Lemma toy_correct k n p a : length n = 12%nat -> toy_decrypt k n (toy_encrypt k n p a) a = Ok p.
Proof.
  intros _. unfold toy_decrypt.
  assert (E : drop (length (str_bytes (k +:+ a))) (toy_encrypt k n p a) = str_bytes p) by apply drop_app_length.
  by rewrite E, bytes_str_bytes, decide_True.
Qed.

Lemma toy_authentic k n c a p : toy_decrypt k n c a = Ok p -> c = toy_encrypt k n p a.
Proof. unfold toy_decrypt. case_decide; [|done]. by intros [= <-]. Qed.

#[local] Instance toy_aead : Aead := {|
  aead_encrypt := toy_encrypt; aead_decrypt := toy_decrypt;
  aead_bytes := toy_bytes; aead_correct := toy_correct; aead_authentic := toy_authentic |}.

Definition demo_prepared : PreparedInbound := MkPreparedInbound demo_context demo_message ∅.
#[local] Instance demo_codec : PreparedCodec := {|
  dump_prepared := fun _ => "{}"; parse_prepared := fun s => if decide (s = "{}") then Some demo_prepared else None |}%string.

Definition old_key : string := "0123456789abcdef0123456789abcdef".
Definition new_key : string := "fedcba9876543210fedcba9876543210".
Definition demo_nonce : list Z := [1; 2; 3; 4; 5; 6; 7; 8; 9; 10; 11; 12].
Definition old_queue : EmergencyQueue :=
  MkEmergencyQueue old_key "trpc:emergency:v2" "trpc-emergency-drainers-v2" 30000 "v1" [("v1", old_key)]%string.
Definition new_queue : EmergencyQueue :=
  MkEmergencyQueue new_key "trpc:emergency:v2" "trpc-emergency-drainers-v2" 30000 "v2"
    [("v2", new_key); ("v1", old_key)]%string.
Definition demo_wire : list (text * text) :=
  (fun kv => (TBytes kv.1, TBytes kv.2)) <$> emergency_fields old_queue demo_nonce demo_prepared.

Lemma emergency_rotation_roundtrip_witness :
  _decode new_queue (Row (TBytes "1-0") demo_wire) = Ok (MkEmergencyMessage "1-0" demo_prepared).
Proof.
  apply (emergency_rotation_roundtrip old_key V2 None None 30000 "v1" [] old_queue
           new_key V2 None None 30000 "v2" [("v1", old_key)]%string new_queue demo_nonce demo_prepared).
  - vm_compute. reflexivity.
  - vm_compute. reflexivity.
  - apply (bool_decide_eq_true _). vm_compute. reflexivity.
  - left. vm_compute. reflexivity.
  - reflexivity.
  - apply (bool_decide_eq_true _). vm_compute. reflexivity.
  - vm_compute. reflexivity.
  - vm_compute. reflexivity.
  - intros k Hk Hne. unfold new_queue, dvalues in Hk. cbn in Hk.
    apply elem_of_cons in Hk as [->|Hk]; [vm_compute; reflexivity|].
    apply list_elem_of_singleton in Hk. done.
  - reflexivity.
  - vm_compute. reflexivity.
Defined.

(** A server with the entry, one that is not a pair, and one under an unknown key. *)
#[local] Instance emergency_redis : Redis := {|
  xgroup_create := fun _ => Raise (ResponseError "BUSYGROUP Consumer Group name already exists");
  xadd := fun _ => Ok (TStr "1-0");
  xreadgroup := fun _ => Ok [GroupRow [OddRow (Some (TStr "0-9")); Row (TBytes "1-0") demo_wire;
    Row (TStr "2-0") [(TStr "binding_id", TStr "binding"); (TStr "nonce", TStr "AAAA"); (TStr "payload", TStr "AAAA")]]];
  xack := fun _ => Ok 1;
  xdel := fun _ => Raise (RuntimeError "timeout");
  xautoclaim := fun _ => Ok (Some (TStr "0-0", None));
|}%string.
#[local] Existing Instance demo_env.

Definition demo_drain : Drain := MkDrain configured.1 (MkWorld [] "0-0").

(** The run accepts the readable entry and removes the other two. *)
Lemma emergency_run_loses_nothing_witness :
  let run := emergency_run new_queue V2 "drainer" [fun _ => false] demo_drain fx0 in
  run.1.1 = Ok tt /\ bool_decide (is_Some (rp_acceptances (dr_repository run.1.2) !! acceptance_key_of demo_context demo_message)) = true /\
  exists r, delivered (w_log (dr_redis run.1.2)) r /\ _safe_stream_id r = "2-0"%string /\
    settled new_queue (dr_repository run.1.2) r.
Proof.
  split_and!; [vm_compute; reflexivity..|].
  destruct (emergency_run_loses_nothing new_queue V2 "drainer" [fun _ => false] demo_drain fx0)
    as (new & Hlog & Hrem & _ & _).
  apply (Hrem (XDel (eq_stream new_queue) "2-0")); [|reflexivity].
  cbn [w_log dr_redis demo_drain app] in Hlog. rewrite <-Hlog.
  apply (list_elem_of_lookup_2 _ 6). vm_compute. reflexivity.
Defined.
End demo.
