(* ===== verification/Streams.v ===== *)
(** * The version 1 stream

    [RedisStreamQueue] of [trpc_service/queue/redis_streams.py]: publishing with a
    de-duplication key and refreshing a delivery, both Lua scripts, and consuming,
    acknowledging and requeueing.  Redis is the parameter of the session-ready transport;
    the commands inside the scripts have a log of their own.  The pause before a
    deferral is not modelled, its length is. *)

From S2P Require Import Prelude Datetime PyText Tenant Models Mailbox Repository SessionReady.
From Stdlib Require Import Ascii QArith.
#[local] Close Scope Q_scope.
#[local] Open Scope Z_scope.

(** JSON text: [json.dumps] writes ASCII that [json.loads] reads back. *)
Class QueueJson : Type := {
  json : Type;
  json_of_payload : gmap string pyval -> json;
  json_of_headers : gmap string string -> json;
  json_dumps : json -> string;
  json_loads : string -> option json;
}.

Section streams.
Context `{QueueJson} `{Redis}.

Record QueueMessage : Type := MkQueueMessage {
  qm_stream_id : string;
  qm_outbox_id : string;
  qm_tenant_id : string;
  qm_event_type : string;
  qm_aggregate_id : string;
  qm_payload : json;
  qm_trace_headers : json;
}.

Record RedisStreamQueue : Type := MkRedisStreamQueue {
  rq_stream : string;
  rq_group : string;
  rq_dedupe_seconds : Z;
  rq_reclaim_after_ms : Z;
}.

(** ** Scripts *)

(** The commands of the scripts and what the server answers, given every command of a
    script sent up to and including it. *)
Inductive script_command : Type :=
  | SSetNx (key value : string) (seconds : Z)
  | SXAdd (stream : string) (fields : odict string string)
  | SXPending (stream group id : string)
  | SXClaim (stream group consumer id : string).

Class Scripts : Type := {
  set_nx : list script_command -> outcome bool;
  script_xadd : list script_command -> outcome text;
  (** The identifier and the owner of the pending entry. *)
  xpending : list script_command -> outcome (list (text * text));
  xclaim : list script_command -> outcome (list text);
}.

Context `{Scripts}.

Definition call {A} (answer : list script_command -> outcome A) (c : script_command) : M (list script_command) A :=
  modify (fun log => log ++ [c]) ;;
  let* log := gets (fun log => log) in
  lift (answer log).

(** The empty text is the script's answer for a record that was published before. *)
Definition _PUBLISH_LUA (dedupe stream : string) (seconds : Z) (fields : odict string string) : M (list script_command) text :=
  let* fresh := call set_nx (SSetNx dedupe "1" seconds) in
  if fresh then call script_xadd (SXAdd stream fields) else ret (TStr "").

(** Lua compares strings byte by byte. *)
Definition _REFRESH_OWNER_LUA (stream group id consumer : string) : M (list script_command) Z :=
  let* pending := call xpending (SXPending stream group id) in
  match pending with
  | [] => ret 0
  | (_, owner) :: _ =>
    if negb (bool_decide (match owner with TStr s | TBytes s => s end = consumer)) then ret 0
    else
      let* claimed := call xclaim (SXClaim stream group consumer id) in
      ret (match claimed with [] => 0 | _ => 1 end)
  end.

(** ** The queue *)

Section queue.
Context (q : RedisStreamQueue).

Definition record_fields (record : OutboxRecord) : odict string string :=
  [("outbox_id", ob_outbox_id record); ("tenant_id", ob_tenant_id record); ("event_type", ob_event_type record);
   ("aggregate_id", ob_aggregate_id record); ("payload", json_dumps (json_of_payload (ob_payload record)));
   ("trace_headers", json_dumps (json_of_headers (ob_trace_headers record)))]%string.

Definition dedupe_key (record : OutboxRecord) : string := ("trpc:published:" +:+ ob_outbox_id record)%string.

Definition publish (record : OutboxRecord) : M (list script_command) (option string) :=
  let* value := _PUBLISH_LUA (dedupe_key record) (rq_stream q) (rq_dedupe_seconds q) (record_fields record) in
  if str_empty (match value with TStr s | TBytes s => s end) then ret None
  else let* id := lift (_text value) in ret (Some id).

Definition _refresh_owner (message : QueueMessage) (consumer_id : string) : M (list script_command) bool :=
  let* refreshed := _REFRESH_OWNER_LUA (rq_stream q) (rq_group q) (qm_stream_id message) consumer_id in
  ret (refreshed =? 1).

(** ** Decoding *)

Definition required (name : string) (d : odict string string) : outcome string :=
  match dget name d with Some v => Ok v | None => Raise KeyError end.

Definition loads (text : string) : outcome json :=
  match json_loads text with Some v => Ok v | None => Raise (ValueError "JSONDecodeError") end.

Definition obind {A B} (o : outcome A) (k : A -> outcome B) : outcome B :=
  match o with Ok a => k a | Raise x => Raise x end.

Definition _decode_entry (entry : row) : outcome QueueMessage :=
  match entry with
  | Row id fields =>
    obind (normalize [] fields) (fun normalized =>
    obind (_text id) (fun stream_id =>
    obind (required "outbox_id" normalized) (fun outbox_id =>
    obind (required "tenant_id" normalized) (fun tenant_id =>
    obind (required "event_type" normalized) (fun event_type =>
    obind (required "aggregate_id" normalized) (fun aggregate_id =>
    obind (obind (required "payload" normalized) loads) (fun payload =>
    obind (obind (required "trace_headers" normalized) loads) (fun trace_headers =>
      Ok (MkQueueMessage stream_id outbox_id tenant_id event_type aggregate_id payload trace_headers)))))))))
  | NilRow => Raise (AttributeError "'NoneType' object has no attribute 'items'")
  | OddRow _ => Raise (ValueError "not enough values to unpack")
  end.

Fixpoint decode_entries (entries : list row) : outcome (list QueueMessage) :=
  match entries with
  | [] => Ok []
  | entry :: rest =>
    obind (_decode_entry entry) (fun m => obind (decode_entries rest) (fun ms => Ok (m :: ms)))
  end.

Fixpoint _decode_rows (rows : list group_row) : outcome (list QueueMessage) :=
  match rows with
  | [] => Ok []
  | GroupRow entries :: rest =>
    obind (decode_entries entries) (fun ms => obind (_decode_rows rest) (fun more => Ok (ms ++ more)))
  | OddGroupRow :: _ => Raise (ValueError "not enough values to unpack")
  end.

(** ** Consuming *)

(** The commands sent and [self._reclaim_cursors]. *)
Record StreamWorld : Type := MkStreamWorld { sw_world : World; sw_cursors : gmap string string }.

Definition redis {A} (m : M World A) : M StreamWorld A :=
  zoom sw_world (fun w s => MkStreamWorld w (sw_cursors s)) m.

Definition set_cursor (consumer cursor : string) : M StreamWorld unit :=
  modify (fun s => MkStreamWorld (sw_world s) (<[consumer := cursor]> (sw_cursors s))).

Definition stream_ensure_group : M StreamWorld unit := redis (_ensure_group (rq_stream q) (rq_group q)).

(** [XAUTOCLAIM] answers a cursor and entries. *)
Definition claim_abandoned (consumer : string) (count : Z) : M StreamWorld (list row) :=
  let* cursor := gets (fun s => default "0-0"%string (sw_cursors s !! consumer)) in
  let* claimed := redis (send xautoclaim
    (XAutoclaim (rq_stream q) (rq_group q) consumer (rq_reclaim_after_ms q) cursor count)) in
  match claimed with
  | Some (cursor, entries) =>
    let* cursor := lift (_text cursor) in
    set_cursor consumer cursor ;;
    ret (default [] entries)
  | None => set_cursor consumer "0-0" ;; ret []
  end.

Definition read_new (consumer : string) (count block_ms : Z) : M StreamWorld (list QueueMessage) :=
  let block := if 0 <? block_ms then Some block_ms else None in
  let* rows := redis (send xreadgroup (XReadGroup (rq_group q) consumer (rq_stream q) count block)) in
  lift (_decode_rows rows).

(** [active] is the set of entries in progress when the claim was answered. *)
Definition consume (consumer : string) (count block_ms : Z) (active : gset string) : M StreamWorld (list QueueMessage) :=
  let* entries := claim_abandoned consumer count in
  if bool_decide (entries = []) then read_new consumer count block_ms
  else
    let* claimed_messages := lift (_decode_rows [GroupRow entries]) in
    let available := List.filter (fun m => negb (bool_decide (qm_stream_id m ∈ active))) claimed_messages in
    match available with
    | [] => read_new consumer count block_ms
    | _ => ret available
    end.

Definition stream_ack (message : QueueMessage) : M StreamWorld unit :=
  redis (send xack (XAck (rq_stream q) (rq_group q) (qm_stream_id message))) ;; ret tt.

Definition message_fields (message : QueueMessage) : odict string string :=
  [("outbox_id", qm_outbox_id message); ("tenant_id", qm_tenant_id message); ("event_type", qm_event_type message);
   ("aggregate_id", qm_aggregate_id message); ("payload", json_dumps (qm_payload message));
   ("trace_headers", json_dumps (qm_trace_headers message))]%string.

Definition requeue (message : QueueMessage) : M StreamWorld unit :=
  redis (send xadd (XAdd (rq_stream q) (message_fields message))) ;;
  stream_ack message.
End queue.
End streams.

(** [_BUSY_RETRY_MIN_DELAY_SECONDS] and [_BUSY_RETRY_MAX_DELAY_SECONDS]. *)
Definition _BUSY_RETRY_MIN_DELAY_SECONDS : Q := 1 # 10.
Definition _BUSY_RETRY_MAX_DELAY_SECONDS : Q := 1 # 4.

Definition q_max (a b : Q) : Q := if Qle_bool a b then b else a.
Definition q_min (a b : Q) : Q := if Qle_bool a b then a else b.

(** How long [defer] sleeps. *)
Definition defer_delay (retry_delay_seconds : Q) : Q :=
  q_min (q_max retry_delay_seconds _BUSY_RETRY_MIN_DELAY_SECONDS) _BUSY_RETRY_MAX_DELAY_SECONDS.
