(* ===== verification/WorkerConsumer.v ===== *)
(** * The version 1 worker

    [WorkerConsumer] of [trpc_service/queue/worker_consumer.py].  A delivery is processed
    beside a heartbeat task that keeps it owned; how each wait for an operation and the
    heartbeat ends is an argument, an answer of the environment to everything that
    happened before.  The loop that starts deliveries is a state machine whose actions are
    the events it waits for.  Tracing, metrics and fault checkpoints are not modelled. *)

From S2P Require Import Prelude Datetime PyText Tenant Models Mailbox Repository SessionReady Streams.
From Stdlib Require Import QArith.
#[local] Close Scope Q_scope.
#[local] Open Scope Z_scope.

(** ** One delivery *)

Inductive ProcessStatus : Type := COMMITTED | BUSY | DUPLICATE.

#[export] Instance ProcessStatus_eq_dec : EqDecision ProcessStatus.
Proof. solve_decision. Defined.

Definition _BUSY_RETRY_DELAYS_SECONDS : list Q := [(1 # 10)%Q; (1 # 5)%Q; (1 # 4)%Q].

(** [_BUSY_RETRY_DELAYS_SECONDS[min(busy_attempt, len(...) - 1)]]. *)
Definition busy_delay (busy_attempt : nat) : Q :=
  nth (Nat.min busy_attempt (length _BUSY_RETRY_DELAYS_SECONDS - 1)) _BUSY_RETRY_DELAYS_SECONDS 0%Q.

(** How [asyncio.wait({operation_task, heartbeat_task})] ended. *)
Inductive race (A : Type) : Type :=
  | OperationDone (result : outcome A)
  | BothDone (result : outcome A) (heartbeat : outcome bool)
  (** The heartbeat was first, but the operation was done when the waiter ran. *)
  | OperationLate (heartbeat : outcome bool) (result : outcome A)
  (** The heartbeat was first; [None] is an operation that ended cancelled. *)
  | HeartbeatDone (heartbeat : outcome bool) (result : option (outcome A))
  | WaitRaised (x : exn).
Arguments OperationDone {A} result.
Arguments BothDone {A} result heartbeat.
Arguments OperationLate {A} heartbeat result.
Arguments HeartbeatDone {A} heartbeat result.
Arguments WaitRaised {A} x.

(** What an owned operation returns, or which handler of [_process_message] it reaches:
    [_OwnershipLost], [_HeartbeatFailed], or any other exception. *)
Inductive owned (A : Type) : Type :=
  | Value (a : A)
  | OwnershipLost
  | HeartbeatFailed (cause : exn)
  | Body (x : exn).
Arguments Value {A} a.
Arguments OwnershipLost {A}.
Arguments HeartbeatFailed {A} cause.
Arguments Body {A} x.

Definition of_result {A} (r : outcome A) : owned A := match r with Ok a => Value a | Raise x => Body x end.

(** [_raise_if_heartbeat_unhealthy]: what it raises. *)
Definition _raise_if_heartbeat_unhealthy {A} (heartbeat : outcome bool) : option (owned A) :=
  match heartbeat with
  | Ok true => None
  | Ok false => Some OwnershipLost
  | Raise x => Some (HeartbeatFailed x)
  end.

(** [_run_owned_operation] after the wait. *)
Definition owned_result {A} (r : race A) : owned A :=
  match r with
  | OperationDone result => of_result result
  | BothDone result heartbeat =>
    match result with
    | Raise x => Body x
    | Ok a => default (Value a) (_raise_if_heartbeat_unhealthy heartbeat)
    end
  | OperationLate _ result => of_result result
  | HeartbeatDone heartbeat result =>
    match _raise_if_heartbeat_unhealthy heartbeat with
    | Some unhealthy => match result with Some r => of_result r | None => unhealthy end
    | None => match result with Some r => of_result r | None => Body (RuntimeError "CancelledError") end
    end
  | WaitRaised x => Body x
  end.

(** The heartbeat task afterwards: still running, or done. *)
Definition heartbeat_after {A} (r : race A) : option (outcome bool) :=
  match r with
  | BothDone _ h | OperationLate h _ | HeartbeatDone h _ => Some h
  | OperationDone _ | WaitRaised _ => None
  end.

(** What happened to a delivery, in order. *)
Inductive event : Type :=
  | Looked (acceptance : outcome (option Acceptance))
  | Processed (result : owned ProcessStatus)
  | Deferred (delay : Q) (result : owned bool)
  | Stopped (heartbeat : outcome bool)
  | Acked (answer : outcome unit).

(** The answers of the repository, the worker, the queue and the event loop. *)
Class Deliveries : Type := {
  on_get_acceptance : list event -> outcome (option Acceptance);
  on_process : list event -> race ProcessStatus;
  on_defer : list event -> Q -> race bool;
  (** A heartbeat that is still running when it is told to stop: its result, or the
      exception of a timeout. *)
  on_stop : list event -> outcome bool;
  on_ack : list event -> outcome unit;
}.

(** The state of one delivery: its history and its heartbeat task. *)
Record Delivery : Type := MkDelivery { dv_log : list event; dv_heartbeat : option (outcome bool) }.

#[export] Instance Delivery_settable : Settable Delivery := fun d => MkDelivery (dv_log d) (dv_heartbeat d).

Section delivery.
Context `{Deliveries}.

Definition log_event (v : event) : M Delivery unit := modify (fun d => d <| dv_log := dv_log d ++ [v] |>).

(** A heartbeat that is done before the operation starts loses the delivery; an operation
    that starts is raced against it. *)
Definition _run_owned_operation {A} (wait : list event -> race A) (record : owned A -> event) : M Delivery (owned A) :=
  let* heartbeat := gets dv_heartbeat in
  match heartbeat with
  | Some h => ret (default OwnershipLost (_raise_if_heartbeat_unhealthy h))
  | None =>
    let* log := gets dv_log in
    let r := wait log in
    modify (fun d => d <| dv_heartbeat := heartbeat_after r |>) ;;
    log_event (record (owned_result r)) ;;
    ret (owned_result r)
  end.

Definition process : M Delivery (owned ProcessStatus) := _run_owned_operation on_process Processed.

Definition defer (busy_attempt : nat) : M Delivery (owned bool) :=
  let delay := busy_delay busy_attempt in
  _run_owned_operation (fun log => on_defer log delay) (Deferred delay).

(** How the [try] block ends. *)
Inductive turn_end : Type :=
  | Finished (status : ProcessStatus)
  | DeferLost
  | Lost
  | HeartbeatError (cause : exn)
  | BodyError (x : exn)
  (** The number of rounds given to the model was not enough. *)
  | StillBusy.

Definition failed {A} (r : owned A) (k : A -> M Delivery turn_end) : M Delivery turn_end :=
  match r with
  | Value a => k a
  | OwnershipLost => ret Lost
  | HeartbeatFailed x => ret (HeartbeatError x)
  | Body x => ret (BodyError x)
  end.

(** [while result.status == ProcessStatus.BUSY], at most [fuel] times. *)
Fixpoint busy_loop (fuel busy_attempt : nat) (status : ProcessStatus) : M Delivery turn_end :=
  if negb (bool_decide (status = BUSY)) then ret (Finished status)
  else
    match fuel with
    | O => ret StillBusy
    | S fuel =>
      let* heartbeat := gets dv_heartbeat in
      match (h ← heartbeat; _raise_if_heartbeat_unhealthy (A := bool) h) with
      | Some unhealthy => failed unhealthy (fun _ => ret Lost)
      | None =>
        let* retained := defer busy_attempt in
        failed retained (fun retained =>
          if negb retained then ret DeferLost
          else
            let* result := process in
            failed result (busy_loop fuel (S busy_attempt)))
      end
    end.

Definition run_turn (fuel : nat) : M Delivery turn_end :=
  let* result := process in
  failed result (busy_loop fuel 0).

(** [_stop_heartbeat]: the result, or the exception it ended with. *)
Definition _stop_heartbeat : M Delivery (outcome bool) :=
  let* heartbeat := gets dv_heartbeat in
  let* log := gets dv_log in
  let h := match heartbeat with Some h => h | None => on_stop log end in
  log_event (Stopped h) ;;
  ret h.

Definition ack_message : M Delivery unit :=
  let* log := gets dv_log in
  log_event (Acked (on_ack log)) ;;
  lift (on_ack log).

(** The exceptions of the body come first, then those of the heartbeat. *)
Definition conclude (ended : turn_end) (heartbeat : outcome bool) : M Delivery unit :=
  match ended with
  | BodyError x => raise x
  | HeartbeatError x => raise x
  | Finished _ | DeferLost | Lost | StillBusy =>
    match heartbeat with
    | Raise x => raise x
    | Ok false => ret tt
    | Ok true =>
      match ended with
      | Finished _ => ack_message
      | _ => ret tt
      end
    end
  end.

Definition _process_message (fuel : nat) : M Delivery unit :=
  let* log := gets dv_log in
  let found := on_get_acceptance log in
  log_event (Looked found) ;;
  let* acceptance := lift found in
  match acceptance with
  | None => ack_message
  | Some _ =>
    let* ended := run_turn fuel in
    let* heartbeat := _stop_heartbeat in
    conclude ended heartbeat
  end.
End delivery.

(** ** The loop *)

Record WorkerConsumer : Type := MkWorkerConsumer {
  wc_consumer_id : string;
  wc_concurrency : Z;
  wc_shutdown_grace_seconds : Q;
}.

Definition make_worker (consumer_id : string) (concurrency : Z) (shutdown_grace_seconds : Q) : outcome WorkerConsumer :=
  if negb ((1 <=? concurrency) && (concurrency <=? 256)) then Raise (ValueError "concurrency must be between 1 and 256")
  else if Qle_bool shutdown_grace_seconds 0 then Raise (ValueError "shutdown grace must be positive")
  else Ok (MkWorkerConsumer consumer_id concurrency shutdown_grace_seconds).

(** A task of [in_flight]: the entry it processes, and its result once it is done. *)
Record Task : Type := MkTask { tk_stream_id : string; tk_result : option (outcome unit) }.

(** The consume task: reading [count] entries, or done with its messages. *)
Inductive consuming : Type :=
  | Reading (count : Z)
  | ReadDone (messages : outcome (list string)).

(** The state of [_run_concurrent]; messages are their stream identifiers. *)
Record Loop : Type := MkLoop {
  lp_in_flight : list Task;
  lp_consume : option consuming;
  lp_active : gset string;
  lp_stopped : bool;
}.

#[export] Instance Loop_settable : Settable Loop := fun l =>
  MkLoop (lp_in_flight l) (lp_consume l) (lp_active l) (lp_stopped l).

Definition running (t : Task) : bool := match tk_result t with None => true | Some _ => false end.

Definition loop_start : Loop := MkLoop [] None ∅ false.

Section loop.
Context (c : WorkerConsumer).

(** [available = self._concurrency - len(in_flight)]; reading starts unless it is under way. *)
Definition start_consume (l : Loop) : Loop :=
  let available := wc_concurrency c - Z.of_nat (length (lp_in_flight l)) in
  match lp_consume l with
  | None => if negb (available =? 0) then l <| lp_consume := Some (Reading available) |> else l
  | Some _ => l
  end.

(** [self._active_stream_ids.add(message.stream_id)] and a new task. *)
Definition start_delivery (l : Loop) (stream_id : string) : Loop :=
  l <| lp_active := {[stream_id]} ∪ lp_active l |>
    <| lp_in_flight := lp_in_flight l ++ [MkTask stream_id None] |>.

(** [task.result()] of the tasks that are done raises what one of them raised. *)
Fixpoint first_failure (tasks : list Task) : option exn :=
  match tasks with
  | [] => None
  | t :: rest => match tk_result t with Some (Raise x) => Some x | _ => first_failure rest end
  end.

(** The body of the loop after the wait: the results of tasks that are done, then the
    messages that were read; an exception ends the loop. *)
Definition collect (l : Loop) : outcome Loop :=
  match first_failure (lp_in_flight l) with
  | Some x => Raise x
  | None =>
    let l := l <| lp_in_flight := List.filter running (lp_in_flight l) |> in
    match lp_consume l with
    | Some (ReadDone (Raise x)) => Raise x
    | Some (ReadDone (Ok messages)) => Ok (fold_left start_delivery messages (l <| lp_consume := None |>))
    | _ => Ok l
    end
  end.

(** What the loop waits for. *)
Inductive action : Type :=
  | TaskEnds (i : nat) (r : outcome unit)
  | ReadEnds (r : outcome (list string))
  | Stop
  (** The loop runs: it collects what is done and starts over. *)
  | Wake.

(** A task that ends discards its entry first, in [process_message]'s [finally]. *)
Definition end_task (i : nat) (r : outcome unit) (l : Loop) : Loop :=
  match lp_in_flight l !! i with
  | Some t =>
    if running t then l
      <| lp_in_flight := <[i := MkTask (tk_stream_id t) (Some r)]> (lp_in_flight l) |>
      <| lp_active := lp_active l ∖ {[tk_stream_id t]} |>
    else l
  | None => l
  end.

Definition end_read (r : outcome (list string)) (l : Loop) : Loop :=
  match lp_consume l with
  | Some (Reading _) => l <| lp_consume := Some (ReadDone r) |>
  | _ => l
  end.

Definition perform (a : action) (l : Loop) : outcome Loop :=
  match a with
  | TaskEnds i r => Ok (end_task i r l)
  | ReadEnds r => Ok (end_read r l)
  | Stop => Ok (l <| lp_stopped := true |>)
  | Wake =>
    if lp_stopped l then Ok l
    else match collect l with Ok l => Ok (start_consume l) | Raise x => Raise x end
  end.
End loop.

(** ** Reading, as the loop sees it *)

(** The identifiers [consume] returns when Redis answers [claimed] and [fresh]: entries in
    progress are left out of a claim. *)
Definition readable (claimed fresh : list string) (active : gset string) : list string :=
  match List.filter (fun id => negb (bool_decide (id ∈ active))) claimed with
  | [] => fresh
  | available => available
  end.
