(* ===== verification/WorkerConsumerThms.v ===== *)
(** * Theorems on the version 1 stream and its worker

    A record is added to the stream once and read back unchanged, a delivery is
    acknowledged only when its turn is done and it is still owned, and the loop processes
    at most as many entries at a time as it may, none of them twice. *)

From S2P Require Import Prelude Datetime PyText Tenant Models Mailbox Repository RepositoryThms SessionReady SessionReadyThms Streams WorkerConsumer.
From Stdlib Require Import QArith.
#[local] Close Scope Q_scope.
#[local] Open Scope Z_scope.

(** ** One delivery *)

Section delivery.
Context `{Deliveries}.

(** A delivery may be acknowledged when its message is unknown, or right after its turn
    ended with a result and the heartbeat stopped while the delivery was owned. *)
Definition may_ack (log : list event) : Prop :=
  (exists l, log = l ++ [Looked (Ok None)]) \/
  (exists l status, status <> BUSY /\ log = l ++ [Processed (Value status); Stopped (Ok true)]).

Definition acks_ok (log : list event) : Prop :=
  forall l1 l2 answer, log = l1 ++ Acked answer :: l2 -> l2 = [] /\ may_ack l1.

Definition no_ack (log : list event) : Prop := forall answer, Acked answer ∉ log.

Lemma no_ack_snoc log v : no_ack log -> (forall answer, v <> Acked answer) -> no_ack (log ++ [v]).
Proof. intros Hl Hv answer. rewrite elem_of_app, list_elem_of_singleton. intros [?|E]; [by eapply Hl|by eapply Hv]. Qed.

Lemma no_ack_ok log : no_ack log -> acks_ok log.
Proof. intros Hl l1 l2 answer ->. destruct (Hl answer). set_solver. Qed.

Lemma acks_ok_snoc log answer : no_ack log -> may_ack log -> acks_ok (log ++ [Acked answer]).
Proof.
  intros Hl Hm l1 l2 answer' E. destruct l2 as [|x l2 _] using rev_ind.
  - apply app_inj_tail in E as [-> _]. done.
  - rewrite app_comm_cons, app_assoc in E. apply app_inj_tail in E as [-> _]. destruct (Hl answer'). set_solver.
Qed.

(** The turn: nothing is acknowledged, and a turn that finishes ends with its result. *)
Definition turn_post (r : outcome turn_end) (d : Delivery) : Prop :=
  no_ack (dv_log d) /\
  forall status, r = Ok (Finished status) -> status <> BUSY /\ exists l, dv_log d = l ++ [Processed (Value status)].

Lemma run_owned_spec {A} (wait : list event -> race A) record (Q : outcome (owned A) -> Delivery -> effects -> Prop) d e :
  no_ack (dv_log d) -> (forall r answer, record r <> Acked answer) ->
  (forall r d', no_ack (dv_log d') -> (forall a, r = Value a -> exists l, dv_log d' = l ++ [record (Value a)]) -> Q (Ok r) d' e) ->
  wp (_run_owned_operation wait record) Q d e.
Proof.
  intros Hn Hr HQ. unfold _run_owned_operation, log_event. apply wp_bind, wp_gets. destruct (dv_heartbeat d) as [h|].
  - apply wp_ret, HQ; [done|]. intros a. destruct h as [[]|]; simpl; done.
  - apply wp_bind, wp_gets, wp_bind, wp_modify, wp_bind, wp_modify, wp_ret. apply HQ; simpl.
    + by apply no_ack_snoc.
    + intros a ->. by eexists.
Qed.

Lemma busy_loop_spec fuel n status d e :
  no_ack (dv_log d) -> (exists l, dv_log d = l ++ [Processed (Value status)]) ->
  wp (busy_loop fuel n status) (fun r d' _ => turn_post r d') d e.
Proof.
  revert n status d e. induction fuel as [|fuel IH]; intros n status d e Hn Hl; cbn [busy_loop];
    (destruct (bool_decide (status = BUSY)) eqn:Hb; simpl;
      [|apply wp_ret; split; [done|]; intros ? [= <-]; apply bool_decide_eq_false in Hb; done]).
  { apply wp_ret. by split. }
  apply wp_bind, wp_gets. destruct (dv_heartbeat d ≫= _) as [[]|]; [apply wp_ret; by split..|].
  apply wp_bind. apply run_owned_spec; [done|done|]. intros r d1 Hn1 _. destruct r as [[]| | |]; try (apply wp_ret; by split).
  simpl. apply wp_bind. apply run_owned_spec; [done|done|]. intros r d2 Hn2 Hl2.
  destruct r as [status2| | |]; try (apply wp_ret; by split). apply IH; auto.
Qed.

Lemma run_turn_spec fuel d e : no_ack (dv_log d) -> wp (run_turn fuel) (fun r d' _ => turn_post r d') d e.
Proof.
  intros Hn. unfold run_turn, process. apply wp_bind. apply run_owned_spec; [done|done|]. intros r d1 Hn1 Hl1.
  destruct r as [status| | |]; try (apply wp_ret; by split). apply busy_loop_spec; auto.
Qed.

Lemma ack_message_spec d e :
  no_ack (dv_log d) -> may_ack (dv_log d) -> wp ack_message (fun _ d' _ => acks_ok (dv_log d')) d e.
Proof.
  intros Hn Hm. unfold ack_message, log_event. apply wp_bind, wp_gets, wp_bind, wp_modify.
  apply wp_intro. intros r d' e' Hrun. assert (d' = MkDelivery (dv_log d ++ [Acked (on_ack (dv_log d))]) (dv_heartbeat d)) as ->.
  { unfold lift in Hrun. destruct (on_ack (dv_log d)); unfold ret, raise in Hrun; by simplify_eq/=. }
  by apply acks_ok_snoc.
Qed.

(** C40: A version 1 delivery is acknowledged at most once, as the last thing that happens
    to it, and only when its message is unknown or when the worker returned a result other
    than busy and the heartbeat, stopped right after, still owned the delivery. *)
Theorem worker_acks_only_finished fuel e :
  acks_ok (dv_log (_process_message fuel (MkDelivery [] None) e).1.2).
Proof.
  change (wp (_process_message fuel) (fun _ d' _ => acks_ok (dv_log d')) (MkDelivery [] None) e).
  unfold _process_message, log_event. apply wp_bind, wp_gets, wp_bind, wp_modify. simpl.
  assert (Hn : no_ack [Looked (on_get_acceptance [])]) by (intros answer; set_solver).
  destruct (on_get_acceptance []) as [[acceptance|]|x]; simpl.
  - apply wp_bind, wp_ret, wp_bind. eapply wp_mono; [by apply run_turn_spec|]. intros r d e1 [Hnd Hfin].
    destruct r as [ended|x]; [|by apply no_ack_ok].
    unfold _stop_heartbeat, log_event. apply wp_bind, wp_bind, wp_gets, wp_bind, wp_gets, wp_bind, wp_modify, wp_ret.
    generalize (match dv_heartbeat d with Some h => h | None => on_stop (dv_log d) end). intros h.
    assert (Hn2 : no_ack (dv_log d ++ [Stopped h])) by (by apply no_ack_snoc).
    unfold conclude. destruct ended, h as [[]|y]; try (apply wp_ret || apply wp_raise; by apply no_ack_ok).
    apply ack_message_spec; [done|]. right. destruct (Hfin _ eq_refl) as (Hb & l & Hl). exists l, status. split; [done|].
    change (dv_log _) with (dv_log d ++ [Stopped (Ok true)]). rewrite Hl. by rewrite <-app_assoc.
  - apply wp_bind, wp_ret. apply ack_message_spec; [done|]. left. by exists [].
  - by apply no_ack_ok.
Qed.

(** ** A busy session *)

Definition is_processed (v : event) : bool := match v with Processed _ => true | _ => false end.
Definition processed (log : list event) : nat := length (List.filter is_processed log).

Definition delays (log : list event) : list Q :=
  omap (fun v => match v with Deferred delay _ => Some delay | _ => None end) log.

Lemma processed_app l l' : processed (l ++ l') = (processed l + processed l')%nat.
Proof. unfold processed. by rewrite List.filter_app, length_app. Qed.

(** The worker is busy [k] times, and nothing else goes wrong. *)
Record busy_for (k : nat) (status : ProcessStatus) : Prop := {
  bf_found : exists acceptance, on_get_acceptance [] = Ok (Some acceptance);
  bf_process : forall log, on_process log = OperationDone (Ok (if (processed log <? k)%nat then BUSY else status));
  bf_defer : forall log delay, on_defer log delay = OperationDone (Ok true);
  bf_stop : forall log, on_stop log = Ok true;
  bf_status : status <> BUSY;
}.

(** An operation that nothing disturbs. *)
Lemma run_owned_undisturbed {A} (wait : list event -> race A) record a d e :
  dv_heartbeat d = None -> wait (dv_log d) = OperationDone (Ok a) ->
  _run_owned_operation wait record d e = (Ok (Value a), MkDelivery (dv_log d ++ [record (Value a)]) None, e).
Proof. intros Hh Hw. unfold _run_owned_operation, log_event, bind, gets, modify. rewrite Hh. simpl. by rewrite Hw. Qed.

Lemma busy_loop_run k status rounds fuel n log e :
  busy_for k status -> (processed log + rounds = k)%nat -> (S rounds <= fuel)%nat ->
  exists l, busy_loop fuel n BUSY (MkDelivery log None) e =
      (Ok (Finished status), MkDelivery (l ++ [Processed (Value status)]) None, e) /\
    delays l = delays log ++ (busy_delay <$> seq n (S rounds)).
Proof.
  intros Hbf. revert fuel n log. induction rounds as [|rounds IH]; intros fuel n log Hk Hf;
    (destruct fuel as [|fuel]; [lia|]); cbn [busy_loop]; rewrite bool_decide_eq_true_2 by done; cbn [negb];
    unfold bind at 1, gets; simpl; unfold bind at 1, defer;
    rewrite (run_owned_undisturbed _ _ true) by (done || by rewrite (bf_defer _ _ Hbf)); simpl; unfold bind at 1, process;
    set (log1 := log ++ [Deferred (busy_delay n) (Value true)]);
    assert (Hp : processed log1 = processed log) by (unfold log1; rewrite processed_app; change (processed [_]) with 0%nat; lia);
    assert (Hd : delays log1 = delays log ++ [busy_delay n]) by (unfold log1, delays; by rewrite omap_app).
  - rewrite (run_owned_undisturbed _ _ status).
    2, 3: simpl; done || (rewrite (bf_process _ _ Hbf), Hp, (proj2 (Nat.ltb_ge _ _)); [done|lia]).
    exists log1. simpl. split; [|done]. pose proof (bf_status _ _ Hbf).
    destruct fuel; cbn [busy_loop]; by rewrite bool_decide_eq_false_2.
  - rewrite (run_owned_undisturbed _ _ BUSY).
    2, 3: simpl; done || (rewrite (bf_process _ _ Hbf), Hp, (proj2 (Nat.ltb_lt _ _)); [done|lia]).
    simpl. destruct (IH fuel (S n) (log1 ++ [Processed (Value BUSY)])) as (l & Hrun & Hl); [rewrite processed_app; change (processed [_]) with 1%nat; lia|lia|].
    exists l. split; [exact Hrun|]. rewrite Hl. unfold delays at 1. rewrite omap_app. fold (delays log1). simpl.
    rewrite app_nil_r, Hd, <-app_assoc. done.
Qed.

Lemma bind_run {S A B} (m : M S A) (k : A -> M S B) s e a s' e' : m s e = (Ok a, s', e') -> bind m k s e = k a s' e'.
Proof. unfold bind. by intros ->. Qed.

Lemma run_turn_run k status fuel log e :
  busy_for k status -> processed log = 0%nat -> (k <= fuel)%nat ->
  exists l, run_turn fuel (MkDelivery log None) e =
      (Ok (Finished status), MkDelivery (l ++ [Processed (Value status)]) None, e) /\
    delays l = delays log ++ (busy_delay <$> seq 0 k).
Proof.
  intros Hbf Hp Hf. unfold run_turn, process, bind at 1. pose proof (bf_status _ _ Hbf) as Hst. destruct k as [|rounds].
  - rewrite (run_owned_undisturbed _ _ status) by (done || by rewrite (bf_process _ _ Hbf)). exists log. simpl.
    rewrite app_nil_r. split; [|done]. destruct fuel; cbn [busy_loop]; by rewrite bool_decide_eq_false_2.
  - rewrite (run_owned_undisturbed _ _ BUSY) by (done || (rewrite (bf_process _ _ Hbf); simpl; by rewrite Hp)). simpl.
    destruct (busy_loop_run (S rounds) status rounds fuel 0 (log ++ [Processed (Value BUSY)]) e Hbf) as (l & Hrun & Hl);
      [rewrite processed_app; change (processed [_]) with 1%nat; lia|lia|].
    exists l. split; [exact Hrun|]. rewrite Hl. unfold delays at 1. rewrite omap_app. simpl. by rewrite app_nil_r.
Qed.

(** A delivery of a busy session is retried until it is done: when the worker is busy
    [k] times, it is deferred [k] times, the waits grow and stay between a tenth and a
    quarter of a second, and then the delivery is acknowledged; as many rounds are enough. *)
Theorem busy_delivery_acked k status fuel e :
  busy_for k status -> (k <= fuel)%nat ->
  exists l, _process_message fuel (MkDelivery [] None) e =
      (on_ack (l ++ [Processed (Value status); Stopped (Ok true)]),
       MkDelivery (l ++ [Processed (Value status); Stopped (Ok true);
                         Acked (on_ack (l ++ [Processed (Value status); Stopped (Ok true)]))]) None, e) /\
    delays l = busy_delay <$> seq 0 k /\
    Forall (fun q => (_BUSY_RETRY_MIN_DELAY_SECONDS <= q)%Q /\ (q <= _BUSY_RETRY_MAX_DELAY_SECONDS)%Q /\ defer_delay q = q) (delays l).
Proof.
  intros Hbf Hf. destruct (bf_found _ _ Hbf) as [acceptance Ha].
  destruct (run_turn_run k status fuel [Looked (Ok (Some acceptance))] e Hbf eq_refl Hf) as (l & Hrun & Hl).
  exists l. simpl in Hl. split; [|split; [done|]].
  - unfold _process_message, _stop_heartbeat, log_event. rewrite (bind_run _ _ _ _ _ _ _ eq_refl). cbn [dv_log].
    rewrite Ha, (bind_run _ _ _ _ _ _ _ eq_refl), (bind_run _ _ _ _ _ _ _ eq_refl). cbv beta iota.
    rewrite (bind_run _ _ _ _ _ _ _ Hrun). rewrite (bind_run _ _ _ _ _ _ _ eq_refl). cbn.
    rewrite (bf_stop _ _ Hbf). unfold ack_message, log_event, bind, gets, modify. cbn. rewrite <-!app_assoc. simpl.
    by destruct (on_ack _).
  - rewrite Hl. apply Forall_fmap, Forall_forall. intros n _. simpl. unfold busy_delay. simpl.
    destruct n as [|[|[|n]]]; (split; [|split; [|reflexivity]]); vm_compute; congruence.
Qed.
End delivery.

(** ** The loop *)

Section loop.
Context (c : WorkerConsumer).

(** The entries in progress. *)
Definition running_ids (l : Loop) : list string := tk_stream_id <$> List.filter running (lp_in_flight l).

(** The deliveries that reading may still start. *)
Definition expected (l : Loop) : Z :=
  match lp_consume l with
  | Some (Reading n) => n
  | Some (ReadDone (Ok ids)) => Z.of_nat (length ids)
  | _ => 0
  end.

(** A step of the loop.  Redis answers at most as many entries as asked for, each once; an
    entry never delivered before is not in progress, and the entries in progress only
    become fewer while reading. *)
Inductive lstep : Loop -> Loop -> Prop :=
  | lstep_task i r l l' : perform c (TaskEnds i r) l = Ok l' -> lstep l l'
  | lstep_read n claimed fresh active l l' :
      lp_consume l = Some (Reading n) -> lp_active l ⊆ active -> NoDup claimed -> NoDup fresh ->
      Z.of_nat (length claimed) <= n -> Z.of_nat (length fresh) <= n -> (forall id, id ∈ fresh -> id ∉ active) ->
      perform c (ReadEnds (Ok (readable claimed fresh active))) l = Ok l' -> lstep l l'
  | lstep_read_fails x l l' : perform c (ReadEnds (Raise x)) l = Ok l' -> lstep l l'
  | lstep_stop l l' : perform c Stop l = Ok l' -> lstep l l'
  | lstep_wake l l' : perform c Wake l = Ok l' -> lstep l l'.

Record loop_ok (l : Loop) : Prop := {
  lo_bound : Z.of_nat (length (lp_in_flight l)) + expected l <= wc_concurrency c;
  lo_expected : 0 <= expected l;
  lo_distinct : NoDup (running_ids l);
  lo_active : lp_active l = list_to_set (running_ids l);
  lo_read : forall ids, lp_consume l = Some (ReadDone (Ok ids)) -> NoDup ids /\ forall id, id ∈ ids -> id ∉ lp_active l;
}.

Lemma readable_spec claimed fresh active n :
  NoDup claimed -> NoDup fresh -> Z.of_nat (length claimed) <= n -> Z.of_nat (length fresh) <= n ->
  (forall id, id ∈ fresh -> id ∉ active) ->
  NoDup (readable claimed fresh active) /\ Z.of_nat (length (readable claimed fresh active)) <= n /\
  forall id, id ∈ readable claimed fresh active -> id ∉ active.
Proof.
  intros Hc Hf Hlc Hlf Ha. unfold readable. set (p := fun id => negb (bool_decide (id ∈ active))).
  assert (Hsub : forall id, id ∈ List.filter p claimed -> id ∈ claimed /\ id ∉ active).
  { intros id Hid. apply list_elem_of_In, filter_In in Hid as [Hid Hp]. apply list_elem_of_In in Hid.
    unfold p in Hp. bool_prop. done. }
  assert (Hnd : NoDup (List.filter p claimed)) by (apply NoDup_ListNoDup, List.NoDup_filter; by apply NoDup_ListNoDup).
  pose proof (List.filter_length_le p claimed) as Hlen.
  destruct (List.filter p claimed) as [|x rest] eqn:E; [done|]. split_and!; [done|lia|]. intros id Hid. by apply Hsub.
Qed.

Lemma start_deliveries ids l :
  fold_left start_delivery ids l =
    MkLoop (lp_in_flight l ++ ((fun id => MkTask id None) <$> ids)) (lp_consume l) (list_to_set ids ∪ lp_active l) (lp_stopped l).
Proof.
  revert l. induction ids as [|id ids IH]; intros l; cbn [fold_left].
  - destruct l. simpl. rewrite app_nil_r. f_equal. set_solver.
  - rewrite IH. unfold start_delivery. simpl. rewrite <-app_assoc. f_equal. set_solver.
Qed.

Lemma running_ids_started l ids consume active stopped :
  running_ids (MkLoop (lp_in_flight l ++ ((fun id => MkTask id None) <$> ids)) consume active stopped) = running_ids l ++ ids.
Proof.
  unfold running_ids. simpl. rewrite List.filter_app, fmap_app. f_equal.
  induction ids as [|id ids IH]; simpl; [done|]. by f_equal.
Qed.

Lemma running_filter l : List.filter running (List.filter running l) = List.filter running l.
Proof. induction l as [|t l IH]; simpl; [done|]. destruct (running t) eqn:E; simpl; rewrite ?E, ?IH; done. Qed.

Lemma end_task_ok i r l : loop_ok l -> loop_ok (end_task i r l).
Proof.
  intros Hok. pose proof Hok as [Hb He Hd Ha Hr]. unfold end_task. destruct (lp_in_flight l !! i) as [t|] eqn:Hi; [|done].
  destruct (running t) eqn:Ht; [|done].
  assert (Hids : exists l1 l2, running_ids l = l1 ++ tk_stream_id t :: l2 /\
    running_ids (MkLoop (<[i := MkTask (tk_stream_id t) (Some r)]> (lp_in_flight l)) (lp_consume l)
      (lp_active l ∖ {[tk_stream_id t]}) (lp_stopped l)) = l1 ++ l2).
  { unfold running_ids. simpl. pose proof (take_drop_middle _ _ _ Hi) as E. rewrite insert_take_drop by (by eapply lookup_lt_Some).
    assert (E3 : List.filter running (take i (lp_in_flight l) ++ t :: drop (S i) (lp_in_flight l)) =
      List.filter running (lp_in_flight l)) by (by rewrite E).
    rewrite <-E3, !List.filter_app. simpl. rewrite Ht, !fmap_app. simpl. by do 2 eexists. }
  destruct Hids as (l1 & l2 & E1 & E2). rewrite E1 in Hd. rewrite E1 in Ha. split; simpl.
  - by rewrite length_insert.
  - done.
  - change (set_field _ _) with (MkLoop (<[i := MkTask (tk_stream_id t) (Some r)]> (lp_in_flight l)) (lp_consume l)
      (lp_active l ∖ {[tk_stream_id t]}) (lp_stopped l)). rewrite E2. apply NoDup_app. apply NoDup_app in Hd as (H1 & H2 & H3).
    apply NoDup_cons in H3 as [_ H3]. split_and!; [done| |done]. intros x Hx Hx2. apply (H2 x Hx). by right.
  - change (set_field _ _) with (MkLoop (<[i := MkTask (tk_stream_id t) (Some r)]> (lp_in_flight l)) (lp_consume l)
      (lp_active l ∖ {[tk_stream_id t]}) (lp_stopped l)) at 1. rewrite E2, Ha. apply NoDup_app in Hd as (H1 & H2 & H3).
    apply NoDup_cons in H3 as [H3 _]. apply set_eq. intros x. rewrite elem_of_difference, elem_of_singleton, !elem_of_list_to_set.
    rewrite !elem_of_app, elem_of_cons. split; [intuition congruence|]. intros [Hx|Hx]; (split; [by auto|]); intros ->.
    + apply (H2 _ Hx). left.
    + done.
  - intros ids Hids. destruct (Hr ids Hids) as [? Hnot]. split; [done|]. intros id Hid. specialize (Hnot id Hid). set_solver.
Qed.

Lemma end_read_ok n ids l :
  loop_ok l -> lp_consume l = Some (Reading n) -> NoDup ids -> Z.of_nat (length ids) <= n ->
  (forall id, id ∈ ids -> id ∉ lp_active l) -> loop_ok (end_read (Ok ids) l).
Proof.
  intros [Hb He Hd Ha Hr] Hc Hn Hl Hi. unfold end_read. rewrite Hc. unfold expected in Hb, He. rewrite Hc in Hb, He.
  split; simpl; unfold expected; simpl; [lia|lia|done|done|]. by intros ? [= <-].
Qed.

Lemma start_consume_ok l : loop_ok l -> loop_ok (start_consume c l).
Proof.
  intros Hok. pose proof Hok as [Hb He Hd Ha Hr]. unfold start_consume. destruct (lp_consume l) as [x|] eqn:Hc; [done|].
  destruct (_ =? 0) eqn:Hz; simpl; [done|]. unfold expected in Hb, He. rewrite Hc in Hb, He.
  split; simpl; unfold expected; simpl; [lia|lia|done|done|done].
Qed.

Lemma filtered_ok l : loop_ok l -> loop_ok (MkLoop (List.filter running (lp_in_flight l)) (lp_consume l) (lp_active l) (lp_stopped l)).
Proof.
  intros [Hb He Hd Ha Hr]. pose proof (List.filter_length_le running (lp_in_flight l)) as Hlen.
  assert (Hids : running_ids (MkLoop (List.filter running (lp_in_flight l)) (lp_consume l) (lp_active l) (lp_stopped l)) = running_ids l).
  { unfold running_ids. simpl. by rewrite running_filter. }
  split; [|done|by rewrite Hids|by rewrite Hids|done].
  unfold expected in *. simpl. lia.
Qed.

Lemma deliveries_ok l ids :
  loop_ok l -> lp_consume l = Some (ReadDone (Ok ids)) ->
  loop_ok (MkLoop (lp_in_flight l ++ ((fun id => MkTask id None) <$> ids)) None (list_to_set ids ∪ lp_active l) (lp_stopped l)).
Proof.
  intros [Hb He Hd Ha Hr] Hc. destruct (Hr ids Hc) as [Hnd Hnot]. unfold expected in Hb. rewrite Hc in Hb.
  split; [|done| | |done].
  - unfold expected. simpl. rewrite length_app, length_fmap. lia.
  - rewrite running_ids_started. apply NoDup_app. split_and!; [done| |done]. intros x Hx Hx2. apply (Hnot x Hx2). rewrite Ha.
    by apply elem_of_list_to_set.
  - rewrite running_ids_started. simpl. rewrite Ha, list_to_set_app_L. set_solver.
Qed.

Lemma collect_ok l l' : loop_ok l -> collect l = Ok l' -> loop_ok l'.
Proof.
  intros Hok%filtered_ok. unfold collect. destruct (first_failure _); [done|].
  change (set_field (List.filter running (lp_in_flight l)) l) with
    (MkLoop (List.filter running (lp_in_flight l)) (lp_consume l) (lp_active l) (lp_stopped l)).
  cbn [lp_consume]. destruct (lp_consume l) as [[n|[ids|x]]|] eqn:Hc; intros E; simplify_eq; [done| |done].
  rewrite start_deliveries.
  exact (deliveries_ok (MkLoop (List.filter running (lp_in_flight l)) (Some (ReadDone (Ok ids))) (lp_active l) (lp_stopped l))
           ids Hok eq_refl).
Qed.

Lemma lstep_ok l l' : loop_ok l -> lstep l l' -> loop_ok l'.
Proof.
  intros Hok Hstep. destruct Hstep as [i r l l' E|n claimed fresh active l l' Hc Hact Hnc Hnf Hlc Hlf Hfr E|x l l' E|l l' E|l l' E];
    cbn [perform] in E; simplify_eq.
  - by apply end_task_ok.
  - destruct (readable_spec claimed fresh active n) as (Hnd & Hlen & Hnot); [done..|].
    eapply end_read_ok; [done..|]. intros id Hid Hin. apply (Hnot id Hid). by apply Hact.
  - unfold end_read. destruct (lp_consume l) as [[n|]|] eqn:Hc; [|done|done]. destruct Hok as [Hb He Hd Ha Hr].
    unfold expected in Hb, He. rewrite Hc in Hb, He. split; unfold expected; simpl; [lia|lia|done|done|done].
  - destruct Hok as [Hb He Hd Ha Hr]. by split.
  - destruct (lp_stopped l); simplify_eq; [done|]. destruct (collect l) as [l1|] eqn:Hcol; simplify_eq.
    apply start_consume_ok. by eapply collect_ok.
Qed.

(** The version 1 worker processes at most [concurrency] entries at a time and never an
    entry twice at the same time, along every interleaving of its tasks, its reads and its
    loop; the set of entries in progress it filters claims with is exact. *)
Theorem worker_loop_bounded l :
  1 <= wc_concurrency c -> rtc lstep loop_start l ->
  Z.of_nat (length (lp_in_flight l)) <= wc_concurrency c /\ NoDup (running_ids l) /\ lp_active l = list_to_set (running_ids l).
Proof.
  intros Hc Hsteps. assert (Hok : loop_ok l).
  { assert (H0 : loop_ok loop_start) by (split; unfold expected; simpl; [lia|lia|constructor|done|done]).
    revert H0. induction Hsteps as [|x y z Hxy Hyz IH]; intros H0; [done|]. apply IH. by eapply lstep_ok. }
  destruct Hok as [Hb He Hd Ha Hr]. split_and!; [lia|done|done].
Qed.
End loop.

(** ** The stream *)

Section streams.
Context `{QueueJson} `{Redis} `{Scripts}.
Context (q : RedisStreamQueue).

Lemma filter_map {A B} (f : A -> B) (p : B -> bool) (l : list A) :
  List.filter p (f <$> l) = f <$> List.filter (fun a => p (f a)) l.
Proof. induction l as [|a l IH]; [done|]. rewrite fmap_cons. cbn [List.filter]. rewrite IH. by destruct (p (f a)). Qed.

(** The loop's view of [consume]. *)
Lemma read_new_ids consumer count block w e :
  wp (read_new q consumer count block) (fun r _ _ => forall ms, r = Ok ms -> exists fresh, qm_stream_id <$> ms = fresh) w e.
Proof. apply wp_intro. intros r s' e' _ ms _. by eexists. Qed.

Lemma consume_readable consumer count block active w e :
  wp (consume q consumer count block active) (fun r _ _ =>
    forall ms, r = Ok ms -> exists claimed fresh, qm_stream_id <$> ms = readable claimed fresh active) w e.
Proof.
  unfold consume. apply wp_bind, wp_intro. intros [entries|x] s1 e1 _; [|done].
  assert (Hnew : wp (read_new q consumer count block) (fun r _ _ =>
    forall ms, r = Ok ms -> exists claimed fresh, qm_stream_id <$> ms = readable claimed fresh active) s1 e1).
  { eapply wp_mono; [apply read_new_ids|]. intros r s' e' Hr ms Hms. destruct (Hr ms Hms) as [fresh Hf]. by exists [], fresh. }
  destruct (bool_decide (entries = [])); [exact Hnew|]. apply wp_bind, wp_intro. intros [claimed|x] s2 e2 Hl; [|done].
  assert (s2 = s1 /\ e2 = e1) as [-> ->].
  { revert Hl. unfold lift. destruct (_decode_rows _); unfold ret, raise; intros; by simplify_eq. }
  set (available := List.filter _ claimed).
  assert (Hf : List.filter (fun id => negb (bool_decide (id ∈ active))) (qm_stream_id <$> claimed) = qm_stream_id <$> available).
  { exact (filter_map qm_stream_id (fun id => negb (bool_decide (id ∈ active))) claimed). }
  destruct available as [|m ms]; [exact Hnew|]. apply wp_ret. intros ms' [= <-]. exists (qm_stream_id <$> claimed), [].
  unfold readable. by rewrite Hf.
Qed.

(** The documented behaviour of [SET NX] while no key expires. *)
Definition key_set_before (key : string) (log : list script_command) : Prop := exists value seconds, SSetNx key value seconds ∈ log.

Definition keeps_keys : Prop :=
  forall log key value seconds b, set_nx (log ++ [SSetNx key value seconds]) = Ok b ->
    b = true <-> ~ key_set_before key log.

Definition added (log : list script_command) : list string :=
  omap (fun c => match c with SXAdd _ fields => dget "outbox_id"%string fields | _ => None end) log.

(** An entry of a record is in the stream exactly when its key was set and the script was
    not cut short; no record has two. *)
Definition added_once (log : list script_command) : Prop :=
  NoDup (added log) /\ forall id, id ∈ added log -> key_set_before ("trpc:published:" +:+ id) log.

Lemma added_app l l' : added (l ++ l') = added l ++ added l'.
Proof. unfold added. by rewrite omap_app. Qed.

Lemma key_set_mono key log l : key_set_before key log -> key_set_before key (log ++ l).
Proof. intros (v & n & Hi). exists v, n. apply elem_of_app. by left. Qed.

Lemma publish_added_once record : keeps_keys -> preserves added_once (publish q record).
Proof.
  intros Hk. apply preserves_wp. intros log e [Hnd Hkeys]. unfold publish, _PUBLISH_LUA, call.
  apply wp_bind, wp_bind, wp_bind, wp_modify, wp_bind, wp_gets. set (log1 := log ++ [_]).
  assert (Hsame : added log1 = added log) by (unfold log1; rewrite added_app; simpl; by rewrite app_nil_r).
  assert (Hok1 : added_once log1).
  { split; rewrite Hsame; [done|]. intros id Hid. apply key_set_mono. auto. }
  destruct (set_nx log1) as [[]|x] eqn:Hs; simpl; [apply wp_ret| |done].
  2: { apply wp_ret. simpl. by apply wp_ret. }
  apply wp_bind, wp_modify, wp_bind, wp_gets. cbv beta. set (log2 := log1 ++ [_]).
  assert (Hok2 : added_once log2).
  { apply Hk in Hs. assert (Hfresh : ~ key_set_before (dedupe_key record) log) by (by apply Hs).
    assert (Ha : added log2 = added log ++ [ob_outbox_id record]) by (unfold log2; rewrite added_app, Hsame; done).
    split; rewrite Ha.
    - apply NoDup_app. split_and!; [done| |apply NoDup_singleton]. intros id Hid Hid2%list_elem_of_singleton. subst id.
      apply Hfresh. by apply Hkeys.
    - intros id [Hid|Hid%list_elem_of_singleton]%elem_of_app.
      + unfold log2, log1. do 2 apply key_set_mono. auto.
      + subst id. exists "1"%string, (rq_dedupe_seconds q). unfold log2, log1. rewrite !elem_of_app. left. right.
        by apply list_elem_of_singleton. }
  destruct (script_xadd log2) as [id|x]; simpl; [apply wp_ret|done]. case_match; [by apply wp_ret|].
  apply wp_bind. destruct (_text id); simpl; [by apply wp_ret, wp_ret|by apply wp_raise].
Qed.

(** Publishing records one after the other, whatever fails. *)
Fixpoint publish_all (records : list OutboxRecord) : M (list script_command) unit :=
  match records with
  | [] => ret tt
  | r :: rest => try_except (publish q r ;; ret tt) (fun _ => ret tt) ;; publish_all rest
  end.

(** A record is added to the version 1 stream at most once while its key lives, whatever
    records are published in whatever order and however often, also when a publication fails
    halfway. *)
Theorem stream_publish_once records e :
  keeps_keys -> NoDup (added (publish_all records [] e).1.2).
Proof.
  intros Hk. assert (Hp : preserves added_once (publish_all records)).
  { induction records as [|r records IH]; cbn [publish_all]; [apply preserves_ret|]. apply preserves_bind; [|done].
    apply preserves_try; [|intros; apply preserves_ret]. apply preserves_bind; [by apply publish_added_once|].
    intros; apply preserves_ret. }
  apply (Hp [] e). split; [constructor|]. intros id Hid. by apply not_elem_of_nil in Hid.
Qed.

(** Only the owner of a pending entry refreshes it. *)
Theorem refresh_only_owner message consumer log e :
  wp (_refresh_owner q message consumer) (fun r log' _ =>
    forall c s g i, SXClaim s g c i ∈ log' -> SXClaim s g c i ∉ log ->
      c = consumer /\ i = qm_stream_id message /\
      exists id owner rest, xpending (log ++ [SXPending (rq_stream q) (rq_group q) (qm_stream_id message)]) = Ok ((id, owner) :: rest) /\
        content owner = consumer) log e.
Proof.
  unfold _refresh_owner, _REFRESH_OWNER_LUA, call. apply wp_bind, wp_bind, wp_bind, wp_modify, wp_bind, wp_gets.
  set (log1 := log ++ [_]).
  assert (Hno : forall s g c i, SXClaim s g c i ∈ log1 -> SXClaim s g c i ∉ log -> False).
  { intros s g c i Hi Hn. unfold log1 in Hi. apply elem_of_app in Hi as [?|Hi%list_elem_of_singleton]; [done|congruence]. }
  destruct (xpending log1) as [[|[id owner] rest]|x] eqn:Ep; simpl.
  - apply wp_ret. simpl. apply wp_ret, wp_ret. intros c s g i Hi Hn. by destruct (Hno _ _ _ _ Hi Hn).
  - apply wp_ret. simpl. case_bool_decide as Ho; simpl.
    + apply wp_bind, wp_bind, wp_modify, wp_bind, wp_gets. set (log2 := log1 ++ [_]).
      assert (Hgoal : forall c s g i, SXClaim s g c i ∈ log2 -> SXClaim s g c i ∉ log ->
        c = consumer /\ i = qm_stream_id message /\ exists id owner rest, xpending log1 = Ok ((id, owner) :: rest) /\ content owner = consumer).
      { intros c s g i Hi Hn. unfold log2 in Hi. apply elem_of_app in Hi as [Hi|Hi%list_elem_of_singleton].
        - by destruct (Hno _ _ _ _ Hi Hn).
        - simplify_eq. split_and!; [done|done|]. by exists id, owner, rest. }
      rewrite Ep in Hgoal. destruct (xclaim log2) as [[|y ys]|x]; simpl; repeat apply wp_ret; try done; by apply Hgoal.
    + apply wp_ret, wp_ret. intros c s g i Hi Hn. by destruct (Hno _ _ _ _ Hi Hn).
  - intros c s g i Hi Hn. by destruct (Hno _ _ _ _ Hi Hn).
Qed.
End streams.

(** ** Concrete runs *)

Section demo.

(** A session that is busy twice. *)
#[local] Instance demo_deliveries : Deliveries := {|
  on_get_acceptance := fun _ => Ok (Some (demo_acceptance "id-0" "m1"));
  on_process := fun log => OperationDone (Ok (if (processed log <? 2)%nat then BUSY else COMMITTED));
  on_defer := fun _ _ => OperationDone (Ok true);
  on_stop := fun _ => Ok true;
  on_ack := fun _ => Ok tt;
|}.

Lemma demo_busy : busy_for 2 COMMITTED.
Proof. split; simpl; [by eexists|done..]. Qed.

Lemma busy_delivery_acked_witness : exists l,
  _process_message 2 (MkDelivery [] None) (Effects 0 0) =
    (Ok tt, MkDelivery (l ++ [Processed (Value COMMITTED); Stopped (Ok true); Acked (Ok tt)]) None, Effects 0 0) /\
  delays l = [(1 # 10)%Q; (1 # 5)%Q].
Proof.
  destruct (busy_delivery_acked 2 COMMITTED 2 (Effects 0 0) demo_busy) as (l & Hrun & Hd & _); [lia|].
  exists l. split; [exact Hrun|exact Hd].
Defined.

(** Two entries are read, one ends, and a claim of the other one is left out. *)
Definition demo_worker : WorkerConsumer := MkWorkerConsumer "worker" 2 30%Q.
Definition demo_loop : Loop :=
  MkLoop [MkTask "2-0" None; MkTask "3-0" None] None {["2-0"%string; "3-0"%string]} false.

Lemma demo_loop_steps : rtc (lstep demo_worker) loop_start demo_loop.
Proof.
  eapply rtc_l; [by apply lstep_wake|]. simpl.
  eapply rtc_l.
  { eapply (lstep_read _ 2 [] ["1-0"; "2-0"]%string ∅); [reflexivity|set_solver|constructor|by apply (bool_decide_eq_true _)|done|done|set_solver|reflexivity]. }
  eapply rtc_l; [by apply lstep_wake|]. eapply rtc_l; [by apply (lstep_task _ 0 (Ok tt))|].
  eapply rtc_l; [by apply lstep_wake|].
  eapply rtc_l.
  { eapply (lstep_read _ 1 ["2-0"]%string ["3-0"]%string {["2-0"%string]});
      [reflexivity|by apply (bool_decide_eq_true _)|by apply (bool_decide_eq_true _)|by apply (bool_decide_eq_true _)|done|done|set_solver|reflexivity]. }
  eapply rtc_l; [by apply lstep_wake|].
  match goal with |- rtc _ ?x ?y => replace x with y; [apply rtc_refl|] end.
  vm_compute. reflexivity.
Qed.

Lemma worker_loop_bounded_witness :
  Z.of_nat (length (lp_in_flight demo_loop)) <= 2 /\ NoDup (running_ids demo_loop).
Proof.
  destruct (worker_loop_bounded demo_worker demo_loop) as (Hb & Hn & _); [simpl; lia|exact demo_loop_steps|].
  split; [exact Hb|exact Hn].
Defined.

#[local] Instance text_json : QueueJson := {|
  json := string;
  json_of_payload := fun _ => "{}"%string;
  json_of_headers := fun _ => "{}"%string;
  json_dumps := fun s => s;
  json_loads := Some |}.

Definition sets_key (key : string) (c : script_command) : bool :=
  match c with SSetNx k _ _ => bool_decide (k = key) | _ => false end.

(** A server whose keys do not expire. *)
#[local] Instance demo_scripts : Scripts := {|
  set_nx := fun log =>
    match rev log with
    | SSetNx key _ _ :: before => Ok (negb (existsb (sets_key key) before))
    | _ => Ok false
    end;
  script_xadd := fun log => Ok (TStr "1-0");
  xpending := fun _ => Ok [];
  xclaim := fun _ => Ok [] |}.

Lemma demo_keeps_keys : keeps_keys.
Proof.
  intros log key value seconds b. unfold set_nx. simpl. rewrite rev_app_distr. simpl. intros [= <-]. rewrite negb_true_iff.
  rewrite <-not_true_iff_false, existsb_exists. split; intros Hn Hex; apply Hn.
  - destruct Hex as (v & n & Hi). exists (SSetNx key v n). split; [|by apply bool_decide_eq_true].
    apply in_rev. rewrite rev_involutive. by apply list_elem_of_In.
  - destruct Hex as (c & Hc & Hs). apply in_rev, list_elem_of_In in Hc. destruct c as [k v n| | |]; try done.
    apply bool_decide_eq_true in Hs as ->. by exists v, n.
Qed.

Definition demo_records : list OutboxRecord :=
  let r id := MkOutboxRecord id "acme" "inbound.accepted" "m1" ∅ ∅ 0 in [r "o1"; r "o2"; r "o1"]%string.

Lemma stream_publish_once_witness :
  let log := (publish_all (MkRedisStreamQueue "trpc:inbound:v1" "trpc-workers-v1" 604800 60000) demo_records [] (Effects 0 0)).1.2 in
  added log = ["o1"; "o2"]%string /\ NoDup (added log).
Proof.
  split; [vm_compute; reflexivity|]. apply stream_publish_once. exact demo_keeps_keys.
Defined.
End demo.
