(* ===== verification/ReadyOutbox.v ===== *)
(** * From the outbox to the session-ready stream

    [SessionReadyOutboxQueue] of [trpc_service/queue/session_ready_outbox.py]: the queue
    the outbox dispatcher publishes wake-ups to.  It reads four fields of the payload of an
    outbox record, refuses any other record, and publishes a notice.  A wake-up that the
    mailbox wrote reaches a worker as it was written. *)

From S2P Require Import Prelude Datetime PyText Tenant Models Mailbox SessionReady SessionReadyThms.
#[local] Open Scope Z_scope.

Definition SESSION_READY_EVENT_V2 : string := "session.ready.v2".

Definition _required_text (payload : gmap string pyval) (name : string) : outcome string :=
  match py_get name payload with
  | PStr value =>
    if str_empty value then Raise (ValueError ("SessionReady payload requires non-empty " +:+ name)) else Ok value
  | _ => Raise (ValueError ("SessionReady payload requires non-empty " +:+ name))
  end.

(** [bool] is refused although it is an [int]. *)
Definition _required_int (payload : gmap string pyval) (name : string) (minimum : Z) : outcome Z :=
  let invalid := ValueError ("SessionReady payload requires " +:+ name +:+ " >= " +:+ default "" (py_str_int minimum)) in
  match py_get name payload with
  | PInt value => if value <? minimum then Raise invalid else Ok value
  | _ => Raise invalid
  end.

Section adapter.
Context `{UnicodeInt} `{IsoReader} `{Redis}.

(** A [datetime] of a payload is aware and in UTC. *)
Definition _required_datetime (payload : gmap string pyval) (name : string) : outcome datetime :=
  match py_get name payload with
  | PTime value => Ok (MkDatetime value (Some 0))
  | PStr value =>
    if str_empty value then Raise (ValueError ("SessionReady payload requires " +:+ name))
    else match fromisoformat (py_replace "Z" "+00:00" value) with
         | Some d => Ok d
         | None => Raise (ValueError ("SessionReady payload has invalid " +:+ name))
         end
  | _ => Raise (ValueError ("SessionReady payload requires " +:+ name))
  end.

Section queue.
Context (q : SessionReadyQueue).

Definition adapter_ensure_group : M World unit := ensure_group q.

Definition outbox_publish (record : OutboxRecord) : M World string :=
  raise_if (negb (bool_decide (ob_event_type record = SESSION_READY_EVENT_V2)))
    (ValueError "outbox record is not a SessionReady v2 event") ;;
  let payload := ob_payload record in
  let* generation := lift (_required_int payload "generation" 1) in
  let* priority := lift (_required_int payload "priority" 0) in
  let* trace_id := lift (_required_text payload "trace_id") in
  let* created_at := lift (_required_datetime payload "created_at") in
  let m := MkSessionReady (ob_outbox_id record) (ob_tenant_id record) (ob_aggregate_id record)
             generation priority trace_id created_at in
  raise_if (negb (SessionReady_ok m)) (ValidationError "SessionReady") ;;
  publish q m.

(** ** Theorems *)

(** The adapter reads the identity of a record and four fields of its payload: whatever else
    a payload holds does not reach Redis. *)
Theorem ready_outbox_reads_only r r' :
  ob_event_type r = ob_event_type r' -> ob_outbox_id r = ob_outbox_id r' -> ob_tenant_id r = ob_tenant_id r' ->
  ob_aggregate_id r = ob_aggregate_id r' ->
  (forall name, name ∈ ["generation"; "priority"; "trace_id"; "created_at"]%string ->
     py_get name (ob_payload r) = py_get name (ob_payload r')) ->
  outbox_publish r = outbox_publish r'.
Proof.
  intros Ht Ho Hn Ha Hp. unfold outbox_publish, _required_int, _required_text, _required_datetime.
  rewrite Ht, Ho, Hn, Ha, !Hp by set_solver. done.
Qed.

(** The record of a wake-up. *)
Definition wake_up (outbox_id : string) (mailbox : SessionMailbox) (item : MailboxItem) (now generation : Z) : SessionReady :=
  MkSessionReady outbox_id (mb_tenant_id mailbox) (mb_session_id mailbox) generation (mi_priority item)
    (str_or (Some (mi_trace_id item)) (mi_inbound_id item)) (MkDatetime now (Some 0)).

Lemma publish_run m d w e :
  encode m = Ok d ->
  (publish q m w e).1 = (match xadd (w_log w ++ [XAdd (q_stream q) d]) with Ok id => _text id | Raise x => Raise x end,
                         extend w [XAdd (q_stream q) d]).
Proof.
  intros Hd. unfold publish. rewrite Hd. unfold lift at 1, ret at 1, bind at 1. unfold bind.
  rewrite run_send. destruct (xadd _) as [id|]; [|done]. unfold lift. by destruct (_text id).
Qed.

Lemma wake_up_published record mailbox item now generation w e :
  ob_event_type record = SESSION_READY_V2 -> ob_tenant_id record = mb_tenant_id mailbox ->
  ob_aggregate_id record = mb_session_id mailbox -> ob_payload record = ready_payload item now generation ->
  SessionReady_ok (wake_up (ob_outbox_id record) mailbox item now generation) = true ->
  outbox_publish record w e = publish q (wake_up (ob_outbox_id record) mailbox item now generation) w e.
Proof.
  intros Ht Hn Ha Hp Hok. pose proof Hok as Hok'. unfold SessionReady_ok, length_in in Hok'. simpl in Hok'. bool_prop.
  assert (Hg : _required_int (ready_payload item now generation) "generation" 1 = Ok generation).
  { unfold _required_int. change (py_get _ _) with (PInt generation). cbv beta iota zeta. by rewrite (proj2 (Z.ltb_ge _ _)) by lia. }
  assert (Hpr : _required_int (ready_payload item now generation) "priority" 0 = Ok (mi_priority item)).
  { unfold _required_int. change (py_get _ _) with (PInt (mi_priority item)). cbv beta iota zeta. by rewrite (proj2 (Z.ltb_ge _ _)) by lia. }
  assert (Htr : _required_text (ready_payload item now generation) "trace_id" = Ok (str_or (Some (mi_trace_id item)) (mi_inbound_id item))).
  { unfold _required_text. change (py_get _ _) with (PStr (str_or (Some (mi_trace_id item)) (mi_inbound_id item))). cbv beta iota.
    destruct (str_empty (str_or _ _)) eqn:E; [|done]. apply bool_decide_eq_true in E. unfold str_or in E. rewrite E in *. vm_compute in H3. done. }
  assert (Hc : _required_datetime (ready_payload item now generation) "created_at" = Ok (MkDatetime now (Some 0))) by done.
  unfold outbox_publish. rewrite Ht, Hp, Hn, Ha, Hg, Hpr, Htr, Hc.
  unfold bind, lift, ret, raise_if. change (bool_decide (SESSION_READY_V2 = SESSION_READY_EVENT_V2)) with true. cbn [negb].
  fold (wake_up (ob_outbox_id record) mailbox item now generation). by rewrite Hok.
Qed.

(** C27: A wake-up that the mailbox writes to its outbox reaches a worker as it was written:
    publishing the record sends one command, whose fields decode, in whatever order and as
    text or as bytes, to a notice with the tenant, the session, the generation, the
    priority, the trace and the time of the wake-up. *)
Theorem wake_up_reaches_worker `{Env} mailbox item now generation s e record w e' g p :
  ms_outbox (_append_ready mailbox item now generation s e).1.2 = ms_outbox s ++ [record] ->
  SessionReady_ok (wake_up (ob_outbox_id record) mailbox item now generation) = true ->
  encodable (wake_up (ob_outbox_id record) mailbox item now generation) = true -> representable now ->
  py_str_int generation = Some g -> py_str_int (mi_priority item) = Some p ->
  exists fields,
    (outbox_publish record w e').1.2 = extend w [XAdd (q_stream q) fields] /\
    forall wire, plain wire ≡ₚ fields -> decode wire = Ok (wake_up (ob_outbox_id record) mailbox item now generation).
Proof.
  intros Ho Hok Henc Hrep Hg Hp. unfold _append_ready, bind, uuid4, modify, ret in Ho. simpl in Ho.
  apply app_inv_head in Ho. injection Ho as <-. rewrite (wake_up_published _ mailbox item now generation) by done.
  cbn [ob_outbox_id] in *. set (m := wake_up _ _ _ _ _) in *.
  assert (Ht : to_utc (sr_created_at m) = Ok now) by (unfold to_utc; cbn [m wake_up sr_created_at dt_wall dt_offset]; rewrite Z.sub_0_r, decide_True; done).
  assert (Hd : exists d, encode m = Ok d) by (unfold encode; rewrite Ht; simpl; rewrite Hg, Hp; by eexists).
  destruct Hd as [d Hd]. exists d. split; [by rewrite (publish_run m d)|]. by apply (decode_encoded m now d).
Qed.
End queue.
End adapter.

(** ** A concrete wake-up *)

#[local] Instance demo_env : Env := {| uuid_at := fun _ => "id-7"%string; clock_at := Z.of_nat |}.

Definition demo_wake_mailbox : SessionMailbox :=
  MkSessionMailbox "acme" "s1" QUEUED 1 0 None None 3 None 0 None 0 0 0 None 0.
Definition demo_wake_item : MailboxItem := MkMailboxItem "acme" "s1" "m1" 1 "" 5 0 0 None 0.

Lemma wake_up_reaches_worker_witness :
  exists fields,
    (@outbox_publish no_iso demo_redis demo_queue
      (MkOutboxRecord "id-7" "acme" SESSION_READY_V2 "s1" (ready_payload demo_wake_item 1000000 3) ∅ 0)
      (MkWorld [] "0-0") (Effects 0 0)).1.2 = MkWorld [XAdd SESSION_READY_STREAM_V2 fields] "0-0" /\
    forall wire, plain wire ≡ₚ fields ->
      @decode no_int no_iso wire = Ok (MkSessionReady "id-7" "acme" "s1" 3 5 "m1" (MkDatetime 1000000 (Some 0))).
Proof.
  apply (@wake_up_reaches_worker no_int no_iso demo_redis demo_queue demo_env demo_wake_mailbox demo_wake_item 1000000 3
    empty_store (Effects 0 0)
    (MkOutboxRecord "id-7" "acme" SESSION_READY_V2 "s1" (ready_payload demo_wake_item 1000000 3) ∅ 0) (MkWorld [] "0-0") (Effects 0 0) "3" "5");
    [reflexivity|vm_compute; reflexivity|vm_compute; reflexivity|by apply (bool_decide_unpack _)|reflexivity|reflexivity].
Defined.
