(* ===== verification/PgTools.v ===== *)
(** * The PostgreSQL tool ledgers

    [PostgresBudgetLedger], [PostgresConfirmationLedger], [PostgresExecutionLedger] and
    [PostgresGovernanceAuditSink] of [trpc_service/tool/postgres.py], and [ToolExecutor] of
    [trpc_service/tool/execution.py] over the execution ledger.  The tables are those of
    migrations 0001, 0003 and 0010.  A transaction that raises is rolled back; [now()] is
    the time at which it began.  A row that a statement locks does not change until the
    transaction ends; what other transactions commit between the first lookup of [begin],
    which finds no row to lock, and its insertion is an argument.  Row-level security and
    columns that no statement reads are not modelled. *)

From S2P Require Import Prelude Datetime PyText Tenant Models Repository SessionReady Tools.
From Stdlib Require Import Ascii.
Import Tools.Confirmation Tools.Governance Tools.Execution.
#[local] Open Scope Z_scope.

(** ** Tables *)

(** The columns of [sessions] and [session_turns] that hold a lease. *)
Record SessionRow : Type := MkSessionRow {
  sn_lease_owner : option string;
  sn_lease_epoch : Z;
  sn_lease_expires_at : option Z;
}.

Record TurnRow : Type := MkTurnRow {
  tu_session_id : string;
  tu_status : string;
  tu_fencing_token : Z;
}.

Record ExecutionRow : Type := MkExecutionRow {
  ex_turn_id : string;
  ex_tool_name : string;
  ex_classification : ToolRisk;
  ex_arguments_hash : string;
  ex_status : string;
  ex_lease_owner : string;
  ex_lease_epoch : Z;
  ex_completed_at : option Z;
}.

#[export] Instance ExecutionRow_settable : Settable ExecutionRow := fun r =>
  MkExecutionRow (ex_turn_id r) (ex_tool_name r) (ex_classification r) (ex_arguments_hash r) (ex_status r)
    (ex_lease_owner r) (ex_lease_epoch r) (ex_completed_at r).

Record UsageRow : Type := MkUsageRow { us_token_units : Z; us_cost_units : Z; us_updated_at : Z }.

Record ChallengeRow : Type := MkChallengeRow {
  ch_principal_id : string;
  ch_session_id : string;
  ch_tool_name : string;
  ch_arguments_hash : string;
  ch_expires_at : Z;
  ch_consumed_at : option Z;
}.

#[export] Instance ChallengeRow_settable : Settable ChallengeRow := fun r =>
  MkChallengeRow (ch_principal_id r) (ch_session_id r) (ch_tool_name r) (ch_arguments_hash r) (ch_expires_at r)
    (ch_consumed_at r).

(** What the audit sink writes to [audit_logs]. *)
Record GovernanceAudit : Type := MkGovernanceAudit {
  ga_tenant_id : string;
  ga_user_id : string;
  ga_session_id : string;
  ga_tool_name : string;
  ga_decision : string;
  ga_trace_id : string;
  ga_config_version : Z;
  ga_policy_version : Z;
  ga_reason : string;
}.

(** Executions are keyed by tenant and execution key, challenges by tenant and token hash,
    usage by tenant and month. *)
Record PgTools : Type := MkPgTools {
  pt_tenants : gset string;
  pt_sessions : gmap id_key SessionRow;
  pt_turns : gmap id_key TurnRow;
  pt_executions : gmap id_key ExecutionRow;
  pt_usage : gmap (string * Z) UsageRow;
  pt_challenges : gmap id_key ChallengeRow;
  pt_audit : list GovernanceAudit;
}.

#[export] Instance PgTools_settable : Settable PgTools := fun s =>
  MkPgTools (pt_tenants s) (pt_sessions s) (pt_turns s) (pt_executions s) (pt_usage s) (pt_challenges s) (pt_audit s).

(** ** Parameters *)

(** [hashlib.sha256(token_id.encode()).hexdigest()]. *)
Class TokenHash : Type := _token_hash : string -> string.

(** [date_trunc('month', now())::date] in the time zone of the database. *)
Class Calendar : Type := month_of : Z -> Z.

(** ** Text *)

(** [not text.strip()]: only characters that Python takes for white space, in UTF-8. *)
Definition space_byte (c : ascii) : bool := byte_in 9 13 c || byte_in 28 32 c.

Fixpoint blank (s : string) : bool :=
  match s with
  | EmptyString => true
  | String a rest =>
    if space_byte a then blank rest
    else match rest with
      | EmptyString => false
      | String b rest =>
        if code a =? 194 then ((code b =? 133) || (code b =? 160)) && blank rest
        else match rest with
          | EmptyString => false
          | String c rest =>
            (((code a =? 225) && (code b =? 154) && (code c =? 128))
             || ((code a =? 226) && (code b =? 128)
                 && (byte_in 128 138 c || (code c =? 168) || (code c =? 169) || (code c =? 175)))
             || ((code a =? 226) && (code b =? 129) && (code c =? 159))
             || ((code a =? 227) && (code b =? 128) && (code c =? 128)))
            && blank rest
          end
      end
  end.

(** ** Integers of 64 bits *)

Definition bigint (z : Z) : bool := (- 2 ^ 63 <=? z) && (z <? 2 ^ 63).

(** asyncpg refuses a parameter, and the database a sum, that does not fit. *)
Definition out_of_range : exn := PostgresError "bigint out of range".

Section ledgers.
Context `{Env} `{UuidText} `{TokenHash} `{Calendar}.

Definition tool_clock : M PgTools Z := datetime_now.

(** [async with self._transaction(tenant_id)]: the body is given [now()]. *)
Definition _transaction {A} (body : Z -> M PgTools A) : M PgTools A :=
  rollback (let* now := datetime_now in body now).

(** The foreign key on [tenants]. *)
Definition require_tenant (tenant_id table : string) : M PgTools unit :=
  let* known := gets (fun s => bool_decide (tenant_id ∈ pt_tenants s)) in
  raise_if (negb known) (IntegrityError (table +:+ "_tenant_id_fkey")).

(** ** Budgets *)

Definition put_usage (key : string * Z) (row : UsageRow) : M PgTools unit :=
  modify (fun s => s <| pt_usage := <[key := row]> (pt_usage s) |>).

(** The statement of [reserve]: whether a row was returned. *)
Definition upsert_usage (tenant_id : string) (token_units cost_units monthly_limit now : Z) : M PgTools bool :=
  if negb (cost_units <=? monthly_limit) then ret false
  else
    let key := (tenant_id, month_of now) in
    let* row := gets (fun s => pt_usage s !! key) in
    match row with
    | None =>
      require_tenant tenant_id "tenant_budget_usage" ;;
      put_usage key (MkUsageRow token_units cost_units now) ;;
      ret true
    | Some row =>
      raise_if (negb (bigint (us_cost_units row + cost_units))) out_of_range ;;
      if us_cost_units row + cost_units <=? monthly_limit then
        raise_if (negb (bigint (us_token_units row + token_units))) out_of_range ;;
        put_usage key (MkUsageRow (us_token_units row + token_units) (us_cost_units row + cost_units) now) ;;
        ret true
      else ret false
    end.

Definition pg_reserve (tenant_id : string) (token_units cost_units monthly_limit : Z) : M PgTools bool :=
  raise_if ((token_units <? 0) || (cost_units <? 0)) (ValueError "budget reservation cannot be negative") ;;
  _transaction (fun now =>
    raise_if (negb (bigint token_units && bigint cost_units && bigint monthly_limit)) out_of_range ;;
    upsert_usage tenant_id token_units cost_units monthly_limit now).

(** ** Confirmations *)

(** [datetime.fromtimestamp(expires_at, tz=UTC)]. *)
Definition fromtimestamp (seconds : Z) : M PgTools Z :=
  raise_if (negb (bigint seconds)) OverflowError ;;
  raise_if (negb (bool_decide (representable (seconds * 1000000)))) (ValueError "year is out of range") ;;
  ret (seconds * 1000000).

Definition pg_issue (token_id : string) (expires_at : Z) (scope : ConfirmationScope) : M PgTools unit :=
  let token_hash := _token_hash token_id in
  let* expires := fromtimestamp expires_at in
  _transaction (fun now =>
    require_tenant (cs_tenant_id scope) "confirmation_challenges" ;;
    let* taken := gets (fun s => bool_decide (is_Some (pt_challenges s !! (cs_tenant_id scope, token_hash)))) in
    raise_if taken (IntegrityError "confirmation_challenges_tenant_id_token_hash_key") ;;
    modify (fun s => s <| pt_challenges := <[(cs_tenant_id scope, token_hash) :=
      MkChallengeRow (cs_principal_id scope) (cs_session_id scope) (cs_tool_name scope) (cs_arguments_hash scope)
        expires None]> (pt_challenges s) |>)).

(** The [WHERE] of [consume]. *)
Definition consumable (scope : ConfirmationScope) (now : Z) (r : ChallengeRow) : bool :=
  bool_decide (ch_principal_id r = cs_principal_id scope) && bool_decide (ch_session_id r = cs_session_id scope)
  && bool_decide (ch_tool_name r = cs_tool_name scope) && bool_decide (ch_arguments_hash r = cs_arguments_hash scope)
  && bool_decide (ch_consumed_at r = None) && (now <=? ch_expires_at r).

Definition pg_consume (token_id : string) (scope : ConfirmationScope) : M PgTools bool :=
  _transaction (fun now =>
    let key := (cs_tenant_id scope, _token_hash token_id) in
    let* row := gets (fun s => pt_challenges s !! key) in
    match row with
    | Some r =>
      if consumable scope now r then
        modify (fun s => s <| pt_challenges := <[key := r <| ch_consumed_at := Some now |>]> (pt_challenges s) |>) ;;
        ret true
      else ret false
    | None => ret false
    end).

(** ** The audit sink *)

Definition decision_value (d : Decision) : string :=
  match d with ALLOW => "allow" | DENY => "deny" | NEEDS_CONFIRMATION => "needs_confirmation" end.

Definition audit_record (context : TenantContext) (config : TenantConfig) (tool_name : string) (decision : Decision)
    (reason : string) : M PgTools unit :=
  _transaction (fun now =>
    require_tenant (tc_tenant_id context) "audit_logs" ;;
    modify (fun s => s <| pt_audit := pt_audit s ++
      [MkGovernanceAudit (tc_tenant_id context) (tc_principal_id context) (tc_session_id context) tool_name
         (decision_value decision) (tc_trace_id context) (cfg_version config) (cfg_policy_version config) reason] |>)).
End ledgers.

(** ** Executions *)

Definition status_value (s : ExecutionStatus) : string :=
  match s with STARTED => "started" | SUCCEEDED => "succeeded" | FAILED => "failed" | AMBIGUOUS => "ambiguous" end.

Definition _execution_status (value : string) : outcome ExecutionStatus :=
  if bool_decide (value = "started"%string) then Ok STARTED
  else if bool_decide (value = "succeeded"%string) then Ok SUCCEEDED
  else if bool_decide (value = "failed"%string) then Ok FAILED
  else if bool_decide (value = "ambiguous"%string) then Ok AMBIGUOUS
  else Raise (RuntimeError "tool execution has an invalid status").

Definition lease_lost : exn := ToolExecutionConflict "tool execution session lease is no longer current".

Definition not_owned : exn := RuntimeError "tool execution does not exist or is no longer owned".

(** The condition under which a turn and its session belong to the owner. *)
Definition holds_turn (turn : TurnRow) (session : option SessionRow) (owner_id : string) (fencing_token now : Z) : bool :=
  match session with
  | None => false
  | Some session =>
    bool_decide (tu_status turn = "processing"%string) && (tu_fencing_token turn =? fencing_token)
    && bool_decide (sn_lease_owner session = Some owner_id) && (sn_lease_epoch session =? fencing_token)
    && match sn_lease_expires_at session with Some expires => now <? expires | None => false end
  end.

(** The answers of [begin] that are not read from the row. *)
Definition started_record (key : string) : ExecutionRecord := MkExecutionRecord key STARTED None true false.

(** The arguments of [begin] and [finish] that stay the same. *)
Record Request : Type := MkRequest {
  rq_tenant_id : string;
  rq_execution_key : string;
  rq_turn_id : string;
  rq_tool_name : string;
  rq_risk : ToolRisk;
  rq_arguments_hash : string;
  rq_owner_id : pyval;
  rq_fencing_token : pyval;
}.

Section executions.
Context `{Env} `{UuidText}.

(** [bool] is refused although it is an [int]. *)
Definition _require_fencing (owner_id fencing_token : pyval) : M PgTools (string * Z) :=
  match owner_id with
  | PStr owner =>
    raise_if (blank owner) (ValueError "tool execution owner_id is required for fencing") ;;
    match fencing_token with
    | PInt token =>
      raise_if (token <? 1) (ValueError "tool execution fencing_token must be a positive integer") ;;
      ret (owner, token)
    | _ => raise (ValueError "tool execution fencing_token must be a positive integer")
    end
  | _ => raise (ValueError "tool execution owner_id is required for fencing")
  end.

Definition tool_uuid (text : string) : M PgTools string :=
  match parse_uuid text with
  | Some u => ret u
  | None => raise (ValueError "badly formed hexadecimal UUID string")
  end.

Definition _assert_active_turn (tenant_id turn_id owner_id : string) (fencing_token : Z) : M PgTools unit :=
  let* turn_ref := gets (fun s => pt_turns s !! (tenant_id, turn_id)) in
  match turn_ref with
  | None => raise lease_lost
  | Some turn =>
    let* session := gets (fun s => pt_sessions s !! (tenant_id, tu_session_id turn)) in
    let* now := tool_clock in
    raise_if (negb (holds_turn turn session owner_id fencing_token now)) lease_lost
  end.

(** [UPDATE tool_executions ... WHERE]: whether a row was updated. *)
Definition update_execution (key : id_key) (cond : ExecutionRow -> bool) (f : ExecutionRow -> ExecutionRow) : M PgTools bool :=
  let* row := gets (fun s => pt_executions s !! key) in
  match row with
  | Some r =>
    if cond r then modify (fun s => s <| pt_executions := <[key := f r]> (pt_executions s) |>) ;; ret true else ret false
  | None => ret false
  end.

Definition same_fence (r : ExecutionRow) (owner_id : string) (fencing_token : Z) : bool :=
  bool_decide (ex_lease_owner r = owner_id) && (ex_lease_epoch r =? fencing_token).

Definition reopened (r : ExecutionRow) (owner_id : string) (fencing_token : Z) : ExecutionRow :=
  r <| ex_lease_owner := owner_id |> <| ex_lease_epoch := fencing_token |> <| ex_status := "started"%string |>
    <| ex_completed_at := None |>.

(** The rules for a row that exists; [crossed] is the message for a tool that is not
    idempotent, and [first] whether the update repeats that the fence differs. *)
Definition resume (r : Request) (owner_id : string) (fencing_token : Z) (crossed : string) (first : bool)
    (existing : ExecutionRow) : M PgTools ExecutionRecord :=
  let key := rq_execution_key r in
  let* status := lift (_execution_status (ex_status existing)) in
  let active := _assert_active_turn (rq_tenant_id r) (ex_turn_id existing) owner_id fencing_token in
  if bool_decide (status = SUCCEEDED) then
    if bool_decide (rq_risk r = IDEMPOTENT) then active ;; ret (MkExecutionRecord key status None false true)
    else ret (MkExecutionRecord key status None false false)
  else
    active ;;
    if same_fence existing owner_id fencing_token then ret (MkExecutionRecord key status None false false)
    else
      raise_if (negb (bool_decide (rq_risk r = IDEMPOTENT))) (ToolExecutionConflict crossed) ;;
      let* claimed := update_execution (rq_tenant_id r, key)
        (fun row => bool_decide (ex_status row ∈ ["started"; "failed"; "ambiguous"]%string)
                    && (negb first || negb (same_fence row owner_id fencing_token)))
        (fun row => reopened row owner_id fencing_token) in
      raise_if (negb claimed) (ToolExecutionConflict "tool execution was changed while taking its fence") ;;
      ret (started_record key).

(** [begin] up to its insertion; [None] goes on to insert. *)
Definition begin_lookup (r : Request) (turn_uuid owner_id : string) (fencing_token : Z) : M PgTools (option ExecutionRecord) :=
  let* existing := gets (fun s => pt_executions s !! (rq_tenant_id r, rq_execution_key r)) in
  match existing with
  | None => _assert_active_turn (rq_tenant_id r) turn_uuid owner_id fencing_token ;; ret None
  | Some existing =>
    let* record := resume r owner_id fencing_token "non-idempotent tool execution crossed a session fence" true existing in
    ret (Some record)
  end.

(** The insertion, and the same rules for the row of a concurrent insertion. *)
Definition begin_insert (r : Request) (turn_uuid owner_id : string) (fencing_token : Z) : M PgTools ExecutionRecord :=
  let key := (rq_tenant_id r, rq_execution_key r) in
  let* existing := gets (fun s => pt_executions s !! key) in
  match existing with
  | None =>
    modify (fun s => s <| pt_executions := <[key :=
      MkExecutionRow turn_uuid (rq_tool_name r) (rq_risk r) (rq_arguments_hash r) "started" owner_id fencing_token None]>
      (pt_executions s) |>) ;;
    ret (started_record (rq_execution_key r))
  | Some existing =>
    resume r owner_id fencing_token "tool execution fencing token is no longer current" false existing
  end.

(** The first part of [begin], which writes nothing when it goes on to insert. *)
Definition begin_first (r : Request) : M PgTools (ExecutionRecord + string * string * Z) :=
  let* fence := _require_fencing (rq_owner_id r) (rq_fencing_token r) in
  let '(owner_id, fencing_token) := fence in
  let* turn_uuid := tool_uuid (rq_turn_id r) in
  let* found := rollback (begin_lookup r turn_uuid owner_id fencing_token) in
  ret (match found with Some record => inl record | None => inr (turn_uuid, owner_id, fencing_token) end).

(** The database and the tools that were called, with the key of the execution. *)
Record Tooling : Type := MkTooling { tl_db : PgTools; tl_calls : list id_key }.

Definition in_db {A} (m : M PgTools A) : M Tooling A := zoom tl_db (fun db w => MkTooling db (tl_calls w)) m.

(** [begin]; [between] is what the rest of the service does before the insertion. *)
Definition pg_begin (between : Tooling -> Tooling) (r : Request) : M Tooling ExecutionRecord :=
  let* found := in_db (begin_first r) in
  match found with
  | inl record => ret record
  | inr (turn_uuid, owner_id, fencing_token) =>
    modify between ;;
    in_db (rollback (begin_insert r turn_uuid owner_id fencing_token))
  end.

(** The [EXISTS] of the last update. *)
Definition turn_held (s : PgTools) (tenant_id turn_id owner_id : string) (fencing_token now : Z) : bool :=
  match pt_turns s !! (tenant_id, turn_id) with
  | Some turn => holds_turn turn (pt_sessions s !! (tenant_id, tu_session_id turn)) owner_id fencing_token now
  | None => false
  end.

Definition finish_transaction (r : Request) (status : ExecutionStatus) (owner_id : string) (fencing_token : Z) : M PgTools bool :=
  let key := (rq_tenant_id r, rq_execution_key r) in
  let* existing := gets (fun s => pt_executions s !! key) in
  match existing with
  | None => raise not_owned
  | Some existing =>
    let* current := lift (_execution_status (ex_status existing)) in
    raise_if (negb (bool_decide (current = STARTED))) not_owned ;;
    raise_if (negb (same_fence existing owner_id fencing_token))
      (ToolExecutionConflict "tool execution finish crossed a session fence") ;;
    _assert_active_turn (rq_tenant_id r) (ex_turn_id existing) owner_id fencing_token ;;
    let* now := tool_clock in
    let* held := gets (fun s => turn_held s (rq_tenant_id r) (ex_turn_id existing) owner_id fencing_token now) in
    update_execution key
      (fun row => bool_decide (ex_status row = "started"%string) && same_fence row owner_id fencing_token && held)
      (fun row => row <| ex_status := status_value status |> <| ex_completed_at := Some now |>)
  end.

Definition pg_finish (r : Request) (status : ExecutionStatus) : M PgTools unit :=
  raise_if (bool_decide (status = STARTED)) (ValueError "tool execution finish requires a terminal status") ;;
  let* fence := _require_fencing (rq_owner_id r) (rq_fencing_token r) in
  let '(owner_id, fencing_token) := fence in
  let* updated := rollback (finish_transaction r status owner_id fencing_token) in
  raise_if (negb updated) not_owned.

(** ** The executor *)

(** What [execute] does with the record of [begin]: the ledger stores no results. *)
Definition let_through (risk : ToolRisk) (record : ExecutionRecord) : outcome admission :=
  let replay_terminal := bool_decide (er_status record = SUCCEEDED) && er_replay_terminal record in
  match er_status record, er_result record with
  | SUCCEEDED, Some result => Ok (Answer result)
  | _, _ =>
    if bool_decide (er_status record = SUCCEEDED) && negb (bool_decide (risk = IDEMPOTENT))
    then Raise (HumanReviewRequired "tool succeeded previously; result is unavailable")
    else if negb (er_fresh record)
            && (bool_decide (er_status record = STARTED) || bool_decide (er_status record = AMBIGUOUS))
            && negb (bool_decide (risk = IDEMPOTENT))
    then Raise (HumanReviewRequired "non-idempotent tool outcome is unknown")
    else Ok (Call replay_terminal)
  end.

(** The decision, and [call()] when it is to be made. *)
Definition admit_call (r : Request) (record : ExecutionRecord) : M Tooling admission :=
  let* admitted := lift (let_through (rq_risk r) record) in
  match admitted with
  | Call _ => modify (fun w => MkTooling (tl_db w) (tl_calls w ++ [(rq_tenant_id r, rq_execution_key r)])) ;; ret admitted
  | Answer _ => ret admitted
  end.

(** The status of a call that failed. *)
Definition failure_status (risk : ToolRisk) : ExecutionStatus := if bool_decide (risk = IDEMPOTENT) then FAILED else AMBIGUOUS.

(** [execute] after the call returned or raised. *)
Definition settle (r : Request) (replay_terminal : bool) (result : outcome (option pyval)) : M Tooling (option pyval) :=
  match result with
  | Raise x =>
    if replay_terminal then raise x
    else
      in_db (pg_finish r (failure_status (rq_risk r))) ;;
      raise_if (bool_decide (failure_status (rq_risk r) = AMBIGUOUS))
        (HumanReviewRequired "non-idempotent tool outcome is unknown") ;;
      raise x
  | Ok result =>
    (if negb replay_terminal then in_db (pg_finish r SUCCEEDED) else ret tt) ;;
    ret result
  end.

Definition pg_execute (between : Tooling -> Tooling) (r : Request) (result : outcome (option pyval)) : M Tooling (option pyval) :=
  let* record := pg_begin between r in
  let* admitted := admit_call r record in
  match admitted with
  | Answer answer => ret (Some answer)
  | Call replay_terminal => settle r replay_terminal result
  end.
End executions.
