(* ===== verification/PgToolsThms.v ===== *)
(** * Theorems on the PostgreSQL tool ledgers

    Whatever the interleaving of workers, crashes and lease changes, a tool that is not
    idempotent is called at most once for an execution key, and every call is made under
    the current lease of its session; a month's budget is never exceeded; a confirmation
    is consumed once. *)

From S2P Require Import Prelude Datetime PyText Tenant Models Repository SessionReady SessionReadyThms Tools PgTools.
Import Tools.Confirmation Tools.Governance Tools.Execution.
#[local] Open Scope Z_scope.

(** ** Executions *)

Section executions.
Context `{Env} `{UuidText}.

Definition req_key (r : Request) : id_key := (rq_tenant_id r, rq_execution_key r).

(** The transactions of [execute], each with what it decides. *)
Definition lookup_segment (r : Request) : M Tooling unit :=
  let* found := in_db (begin_first r) in
  match found with inl record => admit_call r record ;; ret tt | inr _ => ret tt end.

Definition insert_segment (r : Request) (turn_uuid owner_id : string) (fencing_token : Z) : M Tooling unit :=
  let* record := in_db (rollback (begin_insert r turn_uuid owner_id fencing_token)) in
  admit_call r record ;; ret tt.

(** What a segment for the key may change. *)
Definition only_key (k : id_key) (w w' : Tooling) : Prop :=
  (forall k', k' <> k -> pt_executions (tl_db w') !! k' = pt_executions (tl_db w) !! k') /\
  (tl_calls w' = tl_calls w \/ tl_calls w' = tl_calls w ++ [k]).

(** The turn of an execution belongs to the owner at [now]. *)
Abbreviation held now db r turn_id owner_id fencing_token :=
  (turn_held db (rq_tenant_id r) turn_id owner_id fencing_token now = true) (only parsing).

Lemma assert_active_spec tenant turn o t Q db e :
  (turn_held db tenant turn o t (clock_at (ticks e)) = true -> Q (Ok tt) db (Effects (uuids e) (S (ticks e)))) ->
  (turn_held db tenant turn o t (clock_at (ticks e)) = false -> forall e', Q (Raise lease_lost) db e') ->
  wp (_assert_active_turn tenant turn o t) Q db e.
Proof.
  intros HQ HR. unfold _assert_active_turn, tool_clock. unfold turn_held in *. wp_steps; bool_prop;
    [apply HR|apply HQ|apply HR]; done.
Qed.

(** Everything [resume] answers. *)
Inductive resumed (now : Z) (r : Request) (o : string) (t : Z) (row : ExecutionRow) (db : PgTools) : ExecutionRecord -> PgTools -> Prop :=
  | resumed_done :
      ex_status row = "succeeded"%string -> rq_risk r <> IDEMPOTENT ->
      resumed now r o t row db (MkExecutionRecord (rq_execution_key r) SUCCEEDED None false false) db
  | resumed_replay :
      ex_status row = "succeeded"%string -> rq_risk r = IDEMPOTENT -> held now db r (ex_turn_id row) o t ->
      resumed now r o t row db (MkExecutionRecord (rq_execution_key r) SUCCEEDED None false true) db
  | resumed_same status :
      ex_status row = status_value status -> status <> SUCCEEDED -> held now db r (ex_turn_id row) o t -> same_fence row o t = true ->
      resumed now r o t row db (MkExecutionRecord (rq_execution_key r) status None false false) db
  | resumed_reopened :
      ex_status row ∈ ["started"; "failed"; "ambiguous"]%string -> rq_risk r = IDEMPOTENT -> held now db r (ex_turn_id row) o t ->
      same_fence row o t = false ->
      resumed now r o t row db (started_record (rq_execution_key r))
        (db <| pt_executions := <[req_key r := reopened row o t]> (pt_executions db) |>).

Lemma execution_status_value s status : _execution_status s = Ok status -> s = status_value status.
Proof. unfold _execution_status. repeat case_bool_decide; intros [= <-]; done. Qed.

Lemma resume_spec r o t c f row Q db e :
  pt_executions db !! req_key r = Some row ->
  (forall record db' e', resumed (clock_at (ticks e)) r o t row db record db' -> Q (Ok record) db' e') ->
  (forall x e', Q (Raise x) db e') ->
  wp (resume r o t c f row) Q db e.
Proof.
  intros Hrow HQ HR. unfold resume, lift. apply wp_bind.
  destruct (_execution_status (ex_status row)) as [status|x] eqn:Hs; [apply wp_ret|by apply wp_raise].
  apply execution_status_value in Hs. case_bool_decide as Hst; [subst status; case_bool_decide as Hr|].
  - apply wp_bind, assert_active_spec; [|done]. intros Hh. by apply wp_ret, HQ, resumed_replay.
  - apply wp_ret, HQ. by apply resumed_done.
  - apply wp_bind, assert_active_spec; [|done]. intros Hh. destruct (same_fence row o t) eqn:Hf.
    + apply wp_ret, HQ. by apply resumed_same.
    + apply wp_bind, wp_raise_if; intros Hr; [done|]. bool_prop. unfold update_execution. apply wp_bind, wp_bind, wp_gets.
      fold (req_key r). rewrite Hrow, Hf, orb_true_r, andb_true_r. destruct (bool_decide _) eqn:Hin.
      * apply wp_bind, wp_modify, wp_ret, wp_bind, wp_ret, wp_ret, HQ. bool_prop. by apply resumed_reopened.
      * apply wp_ret, wp_bind, wp_raise. done.
Qed.

Lemma begin_insert_spec r turn o t Q db e :
  (pt_executions db !! req_key r = None ->
   Q (Ok (started_record (rq_execution_key r)))
     (db <| pt_executions := <[req_key r := MkExecutionRow turn (rq_tool_name r) (rq_risk r) (rq_arguments_hash r) "started" o t None]> (pt_executions db) |>) e) ->
  (forall row record db' e', pt_executions db !! req_key r = Some row -> resumed (clock_at (ticks e)) r o t row db record db' -> Q (Ok record) db' e') ->
  (forall x e', Q (Raise x) db e') ->
  wp (begin_insert r turn o t) Q db e.
Proof.
  intros HN HS HR. unfold begin_insert. apply wp_bind, wp_gets. fold (req_key r).
  destruct (pt_executions db !! req_key r) as [row|] eqn:Hrow.
  - apply (resume_spec _ _ _ _ _ row); [done| |done]. intros. by eapply HS.
  - apply wp_bind, wp_modify, wp_ret. by apply HN.
Qed.

(** The fence a request asks for. *)
Definition fence_of (r : Request) (o : string) (t : Z) : Prop := rq_owner_id r = PStr o /\ rq_fencing_token r = PInt t /\ 1 <= t.

Lemma begin_first_spec r Q db e :
  (forall row o t record db' e', pt_executions db !! req_key r = Some row -> fence_of r o t ->
     resumed (clock_at (ticks e)) r o t row db record db' -> Q (Ok (inl record)) db' e') ->
  (forall turn o t, pt_executions db !! req_key r = None -> fence_of r o t -> held (clock_at (ticks e)) db r turn o t ->
     parse_uuid (rq_turn_id r) = Some turn -> Q (Ok (inr (turn, o, t))) db (Effects (uuids e) (S (ticks e)))) ->
  (forall x e', Q (Raise x) db e') ->
  wp (begin_first r) Q db e.
Proof.
  intros HS HN HR. unfold begin_first, _require_fencing, tool_uuid, begin_lookup. fold (req_key r). wp_steps; try apply HR; bool_prop.
  - eapply resume_spec; [done| |intros; apply HR]. intros. apply wp_ret, wp_ret. by eapply HS.
  - apply assert_active_spec; [|intros; apply HR]. intros Hh. wp_steps. by apply HN.
Qed.

(** The row of an execution that was finished. *)
Definition finished (row : ExecutionRow) (status : ExecutionStatus) (now : Z) : ExecutionRow :=
  row <| ex_status := status_value status |> <| ex_completed_at := Some now |>.

Lemma tool_finish_spec r status Q db e :
  (forall row o t now e', pt_executions db !! req_key r = Some row -> status <> STARTED -> fence_of r o t ->
     ex_status row = "started"%string -> same_fence row o t = true ->
     held (clock_at (ticks e)) db r (ex_turn_id row) o t -> held now db r (ex_turn_id row) o t ->
     Q (Ok tt) (db <| pt_executions := <[req_key r := finished row status now]> (pt_executions db) |>) e') ->
  (forall x e', Q (Raise x) db e') ->
  wp (pg_finish r status) Q db e.
Proof.
  intros HQ HR. unfold pg_finish, _require_fencing, finish_transaction, lift. fold (req_key r).
  wp_steps; try apply HR. apply assert_active_spec; [|intros; apply HR]. intros Hh. unfold update_execution, tool_clock.
  wp_steps; try apply HR; try discriminate. bool_prop. simplify_eq. by eapply HQ.
Qed.

Lemma admit_call_spec r record Q w e :
  (forall x, let_through (rq_risk r) record = Raise x -> Q (Raise x) w e) ->
  (forall a, let_through (rq_risk r) record = Ok (Answer a) -> Q (Ok (Answer a)) w e) ->
  (forall b, let_through (rq_risk r) record = Ok (Call b) -> Q (Ok (Call b)) (MkTooling (tl_db w) (tl_calls w ++ [req_key r])) e) ->
  wp (admit_call r record) Q w e.
Proof.
  intros HR HA HC. unfold admit_call, lift. fold (req_key r). destruct (let_through (rq_risk r) record) as [[a|b]|x]; wp_steps; auto.
Qed.

(** ** At most one call *)

Lemma resumed_frame now r o t row db record db' k :
  resumed now r o t row db record db' -> k <> req_key r -> pt_executions db' !! k = pt_executions db !! k.
Proof. intros Hr Hk. destruct Hr; try done. simpl. by rewrite lookup_insert_ne. Qed.

(** A row that exists does not let a tool be called again unless it is idempotent or failed. *)
Lemma resumed_refused now r o t row db record db' :
  resumed now r o t row db record db' -> rq_risk r <> IDEMPOTENT -> ex_status row <> "failed"%string ->
  db' = db /\ exists x, let_through (rq_risk r) record = Raise x.
Proof.
  intros Hr Hrisk Hs. destruct Hr as [| |status Hst Hns|]; try done; (split; [done|]); unfold let_through; simpl;
    rewrite (bool_decide_eq_false_2 (rq_risk r = IDEMPOTENT)) by done; [by eexists|].
  destruct status; simpl in *; try done; by eexists.
Qed.

Section once.
Context (risk_of : id_key -> ToolRisk).

(** The transactions of any number of workers, which classify the tool of a key the same way,
    in any order; a worker may stop after any of them.  Other components change sessions,
    turns and the other tables. *)
Inductive tstep : Tooling -> Tooling -> Prop :=
  | t_lookup r w e : rq_risk r = risk_of (req_key r) -> tstep w (lookup_segment r w e).1.2
  | t_insert r turn o t w e : rq_risk r = risk_of (req_key r) -> tstep w (insert_segment r turn o t w e).1.2
  | t_settle r replay result w e : rq_risk r = risk_of (req_key r) -> tstep w (settle r replay result w e).1.2
  | t_outside db w : pt_executions db = pt_executions (tl_db w) -> tstep w (MkTooling db (tl_calls w)).

Definition calls_of (k : id_key) (w : Tooling) : nat := length (filter (.= k) (tl_calls w)).

Definition once (w : Tooling) : Prop := forall k, risk_of k <> IDEMPOTENT ->
  match pt_executions (tl_db w) !! k with
  | None => calls_of k w = 0%nat
  | Some row => ex_status row <> "failed"%string /\ (calls_of k w <= 1)%nat
  end.

Lemma calls_of_snoc k k' db calls :
  calls_of k (MkTooling db (calls ++ [k'])) = (calls_of k (MkTooling db calls) + if decide (k' = k) then 1 else 0)%nat.
Proof. unfold calls_of. simpl. rewrite filter_app, length_app. f_equal. rewrite filter_cons. by destruct (decide (k' = k)). Qed.

(** A segment changes only its key. *)
Lemma once_other w db calls k :
  once w -> risk_of k = IDEMPOTENT -> (forall k', k' <> k -> pt_executions db !! k' = pt_executions (tl_db w) !! k') ->
  calls = tl_calls w \/ calls = tl_calls w ++ [k] -> once (MkTooling db calls).
Proof.
  intros Hw Hk Hdb Hcalls k' Hk'. assert (k' <> k) by congruence. simpl. rewrite Hdb by done.
  assert (calls_of k' (MkTooling db calls) = calls_of k' w) as ->; [|by apply Hw].
  destruct Hcalls as [-> | ->]; [done|]. rewrite calls_of_snoc, decide_False by done. unfold calls_of. simpl. lia.
Qed.

(** The same database and calls. *)
Lemma once_same w : once w -> once (MkTooling (tl_db w) (tl_calls w)).
Proof. by destruct w. Qed.

Lemma resumed_once now r o t row w record db' e Q :
  once w -> rq_risk r = risk_of (req_key r) -> pt_executions (tl_db w) !! req_key r = Some row ->
  resumed now r o t row (tl_db w) record db' -> (forall o w' e', once w' -> Q o w' e') ->
  wp (admit_call r record) Q (MkTooling db' (tl_calls w)) e.
Proof.
  intros Hw Hrisk Hrow Hr HQ. destruct (decide (rq_risk r = IDEMPOTENT)) as [Hi|Hi].
  - assert (Hf : forall k', k' <> req_key r -> pt_executions db' !! k' = pt_executions (tl_db w) !! k')
      by (intros; by eapply resumed_frame).
    apply admit_call_spec; intros; apply HQ; eapply once_other; try done; auto; congruence.
  - destruct (resumed_refused _ _ _ _ _ _ _ _ Hr Hi) as [-> [x Hx]].
    { pose proof (Hw (req_key r)) as Hk. rewrite Hrow in Hk. by apply Hk; congruence. }
    apply admit_call_spec; intros; [|congruence..]. by apply HQ, once_same.
Qed.
Lemma lookup_once r : rq_risk r = risk_of (req_key r) -> preserves once (lookup_segment r).
Proof.
  intros Hrisk. apply preserves_wp. intros w e Hw. unfold lookup_segment, in_db. apply wp_bind, wp_zoom, begin_first_spec.
  - intros row o t record db' e' Hrow _ Hr. apply wp_bind. eapply resumed_once; try done. intros [a|x] w' e'' Hw'; [by apply wp_ret|done].
  - intros. by apply wp_ret, once_same.
  - intros. by apply once_same.
Qed.

Lemma insert_once r turn o t : rq_risk r = risk_of (req_key r) -> preserves once (insert_segment r turn o t).
Proof.
  intros Hrisk. apply preserves_wp. intros w e Hw. unfold insert_segment, in_db.
  apply wp_bind, wp_zoom, wp_rollback, begin_insert_spec.
  - intros Hnone. apply wp_bind. set (db' := _ <| _ := _ |>).
    assert (Hnew : once (MkTooling db' (tl_calls w ++ [req_key r]))).
    { intros k Hk. rewrite calls_of_snoc. simpl. specialize (Hw k Hk). destruct (decide (req_key r = k)) as [<-|Hne].
      - rewrite lookup_insert_eq. rewrite Hnone in Hw. unfold calls_of in *. simpl in *. split; [done|lia].
      - rewrite lookup_insert_ne by done. rewrite Nat.add_0_r. exact Hw. }
    apply admit_call_spec; [done|done|]. intros b _. by apply wp_ret.
  - intros row record db' e' Hrow Hr. apply wp_bind. eapply resumed_once; try done. intros [a|x] w' e'' Hw'; [by apply wp_ret|done].
  - intros. by apply once_same.
Qed.

Lemma finish_once r status :
  rq_risk r = risk_of (req_key r) -> (rq_risk r <> IDEMPOTENT -> status <> FAILED) -> preserves once (in_db (pg_finish r status)).
Proof.
  intros Hrisk Hst. apply preserves_wp. intros w e Hw. unfold in_db. apply wp_zoom, tool_finish_spec; [|intros; by apply once_same].
  intros row o t now e' Hrow Hs _ _ _ _ _ k Hk. simpl. specialize (Hw k Hk). destruct (decide (k = req_key r)) as [->|Hne].
  - rewrite lookup_insert_eq. rewrite Hrow in Hw. split; [|apply Hw]. simpl. assert (status <> FAILED) by (apply Hst; congruence).
    by destruct status.
  - rewrite lookup_insert_ne by done. exact Hw.
Qed.

Lemma settle_once r replay result : rq_risk r = risk_of (req_key r) -> preserves once (settle r replay result).
Proof.
  intros Hrisk. assert (Hf : rq_risk r <> IDEMPOTENT -> failure_status (rq_risk r) <> FAILED)
    by (unfold failure_status; intros Hi; by rewrite bool_decide_eq_false_2).
  unfold settle. destruct result as [v|x]; destruct replay; simpl.
  - apply preserves_bind; intros; apply preserves_ret.
  - apply preserves_bind; [by apply finish_once|]. intros; apply preserves_ret.
  - apply preserves_raise.
  - apply preserves_bind; [by apply finish_once|]. intros. apply preserves_bind; [apply preserves_raise_if|]. intros; apply preserves_raise.
Qed.

(** C17: Along any interleaving of any number of workers, which may stop at any point, with
    lease changes by the rest of the service, a tool that is not idempotent is called at most
    once for an execution key. *)
Theorem pg_nonidempotent_called_once db w k :
  pt_executions db = ∅ -> rtc tstep (MkTooling db []) w -> risk_of k <> IDEMPOTENT -> (calls_of k w <= 1)%nat.
Proof.
  intros Hdb Hsteps Hk. assert (Hw : once w).
  { assert (Hinit : once (MkTooling db [])) by (intros k' _; simpl; by rewrite Hdb, lookup_empty).
    revert Hinit. induction Hsteps as [|x y z Hstep _ IH]; [done|]. intros Hx. apply IH. clear IH.
    destruct Hstep as [r w e Hr|r turn o t w e Hr|r replay result w e Hr|db' w Hdb'].
    - by apply lookup_once.
    - by apply insert_once.
    - by apply settle_once.
    - intros k' Hk'. simpl. rewrite Hdb'. by apply Hx. }
  specialize (Hw k Hk). destruct (pt_executions (tl_db w) !! k); lia.
Qed.

(** [execute] is such steps, with those of the rest of the service before its insertion. *)
Lemma pg_execute_steps between r result w e :
  rq_risk r = risk_of (req_key r) -> (forall w, rtc tstep w (between w)) -> rtc tstep w (pg_execute between r result w e).1.2.
Proof.
  intros Hrisk Hbetween. unfold pg_execute, pg_begin, bind. pose proof (t_lookup r w e Hrisk) as Hlook. revert Hlook.
  unfold lookup_segment, bind. destruct (in_db (begin_first r) w e) as [[[[record|[[turn o] t]]|x] w1] e1]; cbn; intros Hlook.
  - destruct (admit_call r record w1 e1) as [[[[a|b]|x] w2] e2]; cbn in *; try by apply rtc_once.
    eapply rtc_l; [exact Hlook|]. by apply rtc_once, t_settle.
  - pose proof (t_insert r turn o t (between w1) e1 Hrisk) as Hins. revert Hins. unfold insert_segment, bind.
    destruct (in_db (rollback (begin_insert r turn o t)) (between w1) e1) as [[[record|x] w2] e2]; cbn; intros Hins.
    + destruct (admit_call r record w2 e2) as [[[[a|b]|x] w3] e3]; cbn in *;
        (eapply rtc_l; [exact Hlook|]; etransitivity; [apply Hbetween|]); try by apply rtc_once.
      eapply rtc_l; [exact Hins|]. by apply rtc_once, t_settle.
    + eapply rtc_l; [exact Hlook|]. etransitivity; [apply Hbetween|]. by apply rtc_once.
  - by apply rtc_once.
Qed.
End once.

(** ** Fencing *)

(** The turn is being processed under the owner's token, and the lease of its session is the
    owner's and has not expired at [now]. *)
Definition lease_current (db : PgTools) (tenant_id turn_id owner_id : string) (fencing_token now : Z) : Prop :=
  exists turn session expires,
    pt_turns db !! (tenant_id, turn_id) = Some turn /\ tu_status turn = "processing"%string /\ tu_fencing_token turn = fencing_token /\
    pt_sessions db !! (tenant_id, tu_session_id turn) = Some session /\ sn_lease_owner session = Some owner_id /\
    sn_lease_epoch session = fencing_token /\ sn_lease_expires_at session = Some expires /\ now < expires.

Lemma turn_held_current db tenant turn o t now : turn_held db tenant turn o t now = true <-> lease_current db tenant turn o t now.
Proof.
  unfold turn_held, holds_turn, lease_current. split.
  - destruct (pt_turns db !! _) as [tr|]; [|done]. destruct (pt_sessions db !! _) as [sr|] eqn:Es; [|done].
    destruct (sn_lease_expires_at sr) as [ex|] eqn:Ee; intros Hh; bool_prop; [|done]. by exists tr, sr, ex.
  - intros (tr & sr & ex & -> & Hs & Ht & -> & Ho & He & Hex & Hlt). rewrite Hex, Hs, Ht, Ho, He, !bool_decide_eq_true_2, Z.eqb_refl by done.
    simpl. by apply Z.ltb_lt.
Qed.

(** The two rows that [begin] locks, the turn of the request and the session of that turn, stay as
    they are until it ends; any other row may change. *)
Definition keeps_locked (between : Tooling -> Tooling) (r : Request) : Prop :=
  forall w turn_id turn, parse_uuid (rq_turn_id r) = Some turn_id -> pt_turns (tl_db w) !! (rq_tenant_id r, turn_id) = Some turn ->
    pt_turns (tl_db (between w)) !! (rq_tenant_id r, turn_id) = Some turn /\
    pt_sessions (tl_db (between w)) !! (rq_tenant_id r, tu_session_id turn) = pt_sessions (tl_db w) !! (rq_tenant_id r, tu_session_id turn).

Lemma locked_current between r w turn_id o t now :
  keeps_locked between r -> parse_uuid (rq_turn_id r) = Some turn_id -> lease_current (tl_db w) (rq_tenant_id r) turn_id o t now ->
  lease_current (tl_db (between w)) (rq_tenant_id r) turn_id o t now.
Proof.
  intros Hk Hid (turn & session & ex & Ht & Hs & Hf & Hse & Hrest). destruct (Hk w turn_id turn Hid Ht) as [Ht' Hse'].
  exists turn, session, ex. split_and!; [done|done|done|by rewrite Hse'|apply Hrest..].
Qed.

(** The execution that a call is made for: the lease of its turn is current, and unless its
    outcome is final it carries the fence of the caller. *)
Definition call_owned (r : Request) (b : bool) (o : string) (t now : Z) (db : PgTools) : Prop :=
  exists row, pt_executions db !! req_key r = Some row /\ lease_current db (rq_tenant_id r) (ex_turn_id row) o t now /\
    (b = false -> ex_status row <> "succeeded"%string /\ ex_lease_owner row = o /\ ex_lease_epoch row = t).

Lemma same_fence_spec row o t : same_fence row o t = true <-> ex_lease_owner row = o /\ ex_lease_epoch row = t.
Proof. unfold same_fence. rewrite andb_true_iff, bool_decide_eq_true, Z.eqb_eq. done. Qed.

Lemma resumed_owned now r o t row db record db' b :
  pt_executions db !! req_key r = Some row -> resumed now r o t row db record db' -> let_through (rq_risk r) record = Ok (Call b) ->
  call_owned r b o t now db'.
Proof.
  intros Hrow Hr Ha. destruct Hr as [Hs Hi|Hs Hi Hh|status Hs Hns Hh Hf|Hs Hi Hh Hf].
  - unfold let_through in Ha. simpl in Ha. by rewrite (bool_decide_eq_false_2 (rq_risk r = IDEMPOTENT)) in Ha by done.
  - apply turn_held_current in Hh. exists row. split_and!; [done..|]. unfold let_through in Ha. simpl in Ha. rewrite Hi in Ha. simpl in Ha. by intros ->.
  - apply turn_held_current in Hh. apply same_fence_spec in Hf. exists row. split_and!; [done..|]. intros _. split; [|done]. rewrite Hs. by destruct status.
  - apply turn_held_current in Hh. eexists. simpl. rewrite lookup_insert_eq. split; [done|]. split; [exact Hh|]. done.
Qed.

(** C18: A tool is called only by the holder of the session's lease: when [begin] lets a call
    through, the turn of the execution is being processed under the caller's fencing token and
    the session's lease is the caller's and has not expired at a reading of the clock made
    during the call of [begin]; an execution that is not already final then carries the
    caller's fence.  Other transactions may do anything before the insertion, except to the two
    rows that [begin] holds locks on: the turn of the request and the session of that turn. *)
Theorem pg_tool_call_fenced between r w e record w' e' b :
  keeps_locked between r -> pg_begin between r w e = (Ok record, w', e') -> let_through (rq_risk r) record = Ok (Call b) ->
  exists o t n, fence_of r o t /\ (n = ticks e \/ n = S (ticks e)) /\ call_owned r b o t (clock_at n) (tl_db w').
Proof.
  intros Hlock Hrun Ha.
  assert (Hwp : wp (pg_begin between r) (fun res w' _ => forall record, res = Ok record -> let_through (rq_risk r) record = Ok (Call b) ->
    exists o t n, fence_of r o t /\ (n = ticks e \/ n = S (ticks e)) /\ call_owned r b o t (clock_at n) (tl_db w')) w e);
    [|by eapply (wp_run _ _ _ _ _ _ _ Hwp Hrun)].
  unfold pg_begin, in_db. apply wp_bind, wp_zoom, begin_first_spec.
  - intros row o t rec db' e1 Hrow Hf Hr. apply wp_ret. intros ? [= <-] Hadm. exists o, t, (ticks e).
    split_and!; [done|by left|]. by eapply resumed_owned.
  - intros turn o t Hnone Hf Hh Hid. apply wp_bind, wp_modify, wp_zoom, wp_rollback, begin_insert_spec.
    + intros Hnone'. intros ? [= <-] Hadm. exists o, t, (ticks e). split_and!; [done|by left|]. eexists. simpl.
      rewrite lookup_insert_eq. split; [done|]. split; [|done]. apply turn_held_current in Hh. by apply (locked_current between r (MkTooling _ _)).
    + intros row rec db' e1 Hrow Hr. intros ? [= <-] Hadm. exists o, t, (S (ticks e)). split_and!; [done|by right|].
      by eapply resumed_owned.
    + done.
  - done.
Qed.

(** The outcome of a call is recorded exactly when the execution is started under the
    caller's fence and the session's lease is still the caller's: a call of [finish] that
    returns changes the status of that row and its time of completion only, any other call
    leaves the database as it was, and under these conditions it returns. *)
Theorem pg_finish_exact r status db e :
  match pg_finish r status db e with
  | (Ok _, db', _) =>
    exists row o t now, pt_executions db !! req_key r = Some row /\ status <> STARTED /\ fence_of r o t /\
      ex_status row = "started"%string /\ same_fence row o t = true /\ held now db r (ex_turn_id row) o t /\
      db' = db <| pt_executions := <[req_key r := finished row status now]> (pt_executions db) |>
  | (Raise _, db', _) => db' = db
  end /\
  (forall row o t, pt_executions db !! req_key r = Some row -> status <> STARTED -> fence_of r o t -> blank o = false ->
     ex_status row = "started"%string -> same_fence row o t = true ->
     held (clock_at (ticks e)) db r (ex_turn_id row) o t -> held (clock_at (S (ticks e))) db r (ex_turn_id row) o t ->
     (pg_finish r status db e).1.1 = Ok tt).
Proof.
  split.
  - assert (Hwp : wp (pg_finish r status) (fun res db' _ => match res with
      | Ok _ => exists row o t now, pt_executions db !! req_key r = Some row /\ status <> STARTED /\ fence_of r o t /\
          ex_status row = "started"%string /\ same_fence row o t = true /\ held now db r (ex_turn_id row) o t /\
          db' = db <| pt_executions := <[req_key r := finished row status now]> (pt_executions db) |>
      | Raise _ => db' = db end) db e).
    { apply tool_finish_spec; [|done]. intros row o t now e' Hrow Hst Hfe Hs Hf _ Hh. by exists row, o, t, now. }
    unfold wp in Hwp. by destruct (pg_finish r status db e) as [[[] ?] ?].
  - intros row o t Hrow Hst (Ho & Ht & Hpos) Hb Hs Hf Hh1 Hh2.
    change (wp (pg_finish r status) (fun res _ _ => res = Ok tt) db e).
    unfold pg_finish, _require_fencing, finish_transaction, update_execution, lift, tool_clock. fold (req_key r). rewrite Ho, Ht.
    apply wp_bind. rewrite bool_decide_eq_false_2 by done. apply wp_ret, wp_bind, wp_bind. rewrite Hb. apply wp_ret, wp_bind.
    rewrite (proj2 (Z.ltb_ge _ _)) by done. apply wp_ret, wp_ret. cbv beta iota. apply wp_bind, wp_rollback, wp_bind, wp_gets. rewrite Hrow, Hs, Hf.
    apply wp_bind, wp_ret, wp_bind, wp_ret, wp_bind, wp_ret, wp_bind, assert_active_spec; [|congruence].
    intros _. apply wp_bind, wp_datetime_now, wp_bind, wp_gets, wp_bind, wp_gets. rewrite Hrow, Hs, Hf. simpl. rewrite Hh2. simpl.
    by apply wp_bind, wp_modify, wp_ret, wp_ret.
Qed.

Lemma assert_active_run tenant turn o t db e :
  turn_held db tenant turn o t (clock_at (ticks e)) = true ->
  _assert_active_turn tenant turn o t db e = (Ok tt, db, Effects (uuids e) (S (ticks e))).
Proof.
  unfold turn_held, _assert_active_turn, tool_clock, bind, gets, datetime_now. destruct (pt_turns db !! _) as [turn'|]; [|done].
  by intros ->.
Qed.

Lemma require_fencing_run r o t db e :
  fence_of r o t -> blank o = false -> _require_fencing (rq_owner_id r) (rq_fencing_token r) db e = (Ok (o, t), db, e).
Proof.
  intros (-> & -> & Hpos) Hb. unfold _require_fencing, bind, raise_if. rewrite Hb, (proj2 (Z.ltb_ge _ _)) by done. done.
Qed.

(** A row that failed is answered to the holder of its fence, and cannot be finished. *)
Lemma begin_failed_run r row o t db e :
  pt_executions db !! req_key r = Some row -> ex_status row = "failed"%string -> fence_of r o t -> blank o = false ->
  same_fence row o t = true -> is_Some (parse_uuid (rq_turn_id r)) -> held (clock_at (ticks e)) db r (ex_turn_id row) o t ->
  begin_first r db e = (Ok (inl (MkExecutionRecord (rq_execution_key r) FAILED None false false)), db, Effects (uuids e) (S (ticks e))).
Proof.
  intros Hrow Hs Hfe Hb Hf [u Hu] Hh. unfold begin_first, bind. rewrite (require_fencing_run r o t) by done.
  unfold tool_uuid. rewrite Hu. unfold ret at 1, rollback, begin_lookup, resume, bind, gets, lift. fold (req_key r). rewrite Hrow, Hs. simpl.
  by rewrite assert_active_run, Hf.
Qed.

Lemma finish_failed_run r row o t db e :
  pt_executions db !! req_key r = Some row -> ex_status row = "failed"%string -> fence_of r o t -> blank o = false ->
  pg_finish r SUCCEEDED db e = (Raise not_owned, db, e).
Proof.
  intros Hrow Hs Hfe Hb. unfold pg_finish, bind. simpl. rewrite (require_fencing_run r o t) by done.
  unfold rollback, finish_transaction, bind, gets, lift. fold (req_key r). by rewrite Hrow, Hs.
Qed.

(** C19: An idempotent tool that failed is called again, but its result is lost: while the
    caller holds the same fence, [execute] calls the tool once more, and when the call returns
    a value it raises and leaves the execution failed. *)
Theorem pg_failed_retry_lost between r row o t db calls v e :
  pt_executions db !! req_key r = Some row -> rq_risk r = IDEMPOTENT -> ex_status row = "failed"%string ->
  fence_of r o t -> blank o = false -> same_fence row o t = true -> is_Some (parse_uuid (rq_turn_id r)) ->
  held (clock_at (ticks e)) db r (ex_turn_id row) o t ->
  (pg_execute between r (Ok v) (MkTooling db calls) e).1 = (Raise not_owned, MkTooling db (calls ++ [req_key r])).
Proof.
  intros Hrow Hi Hs Hfe Hb Hf Hu Hh. unfold pg_execute, pg_begin, in_db, zoom, bind. cbn [tl_db].
  rewrite (begin_failed_run r row o t) by done. unfold ret at 1, admit_call, lift. rewrite Hi.
  change (let_through IDEMPOTENT _) with (Ok (Call false)). unfold bind, modify, ret, settle, in_db, zoom. simpl.
  unfold bind. cbn [tl_db]. by rewrite (finish_failed_run r row o t).
Qed.
End executions.

(** ** Budgets *)

Section budgets.
Context `{Env} `{Calendar}.

(** The reservations of any workers in some order; one that raises is refused. *)
Fixpoint reserve_all (requests : list (string * Z * Z * Z)) : M PgTools (list bool) :=
  match requests with
  | [] => ret []
  | (tenant_id, token_units, cost_units, monthly_limit) :: rest =>
    let* granted := try_except (pg_reserve tenant_id token_units cost_units monthly_limit) (fun _ => ret false) in
    let* more := reserve_all rest in
    ret (granted :: more)
  end.

(** The usage of a month is a row of integers that fit their columns. *)
Definition usage_ok (limit : string -> Z) (db : PgTools) : Prop :=
  forall tenant_id month row, pt_usage db !! (tenant_id, month) = Some row ->
    0 <= us_cost_units row <= limit tenant_id /\ 0 <= us_token_units row /\
    bigint (us_token_units row) = true /\ bigint (us_cost_units row) = true.

Lemma reserve_usage_ok limit tenant_id tokens cost :
  preserves (usage_ok limit) (pg_reserve tenant_id tokens cost (limit tenant_id)).
Proof.
  apply preserves_wp. intros db e Hok. unfold pg_reserve, _transaction, upsert_usage, require_tenant, put_usage.
  wp_steps; try done; bool_prop; intros t' m' row'; simpl;
    (destruct (decide ((t', m') = (tenant_id, month_of (clock_at (ticks e))))) as [[= -> ->]|Hne];
      [rewrite lookup_insert_eq; intros [= <-]|rewrite lookup_insert_ne by done; apply Hok]); simpl.
  - specialize (Hok _ _ _ Heqo). split_and!; try done; lia.
  - split_and!; try done; lia.
Qed.

(** C20: The usage of a tenant in a month never exceeds the tenant's limit, whatever
    reservations any workers make in whatever order, also when sums would not fit their
    columns. *)
Theorem pg_budget_never_exceeded limit requests db e tenant_id month row :
  pt_usage db = ∅ -> Forall (fun '(t, _, _, l) => l = limit t) requests ->
  pt_usage (reserve_all requests db e).1.2 !! (tenant_id, month) = Some row ->
  us_cost_units row <= limit tenant_id.
Proof.
  intros Hdb Hall Hrow. assert (Hp : preserves (usage_ok limit) (reserve_all requests)).
  { clear Hrow. induction Hall as [|[[[t tokens] cost] l] requests Hl _ IH]; cbn [reserve_all]; [apply preserves_ret|]. subst l.
    apply preserves_bind; [apply preserves_try; [apply reserve_usage_ok|intros; apply preserves_ret]|]. intros.
    apply preserves_bind; [done|]. intros. apply preserves_ret. }
  apply (Hp db e) in Hrow; [lia|]. intros t' m' r'. by rewrite Hdb.
Qed.
End budgets.

(** ** Confirmations *)

Section confirmations.
Context `{Env} `{TokenHash}.

Inductive confirmation_op : Type :=
  | IssueToken (token_id : string) (expires_at : Z) (scope : ConfirmationScope)
  | ConsumeToken (token_id : string) (scope : ConfirmationScope).

Definition challenge_key (token_id : string) (scope : ConfirmationScope) : id_key := (cs_tenant_id scope, _token_hash token_id).

(** The operations of any workers in some order: the challenges that were consumed. *)
Fixpoint confirm_all (ops : list confirmation_op) : M PgTools (list id_key) :=
  match ops with
  | [] => ret []
  | IssueToken token_id expires_at scope :: rest =>
    try_except (pg_issue token_id expires_at scope) (fun _ => ret tt) ;;
    confirm_all rest
  | ConsumeToken token_id scope :: rest =>
    let* consumed := pg_consume token_id scope in
    let* more := confirm_all rest in
    ret (if consumed then challenge_key token_id scope :: more else more)
  end.

Definition was_consumed (db : PgTools) (k : id_key) : Prop :=
  exists row, pt_challenges db !! k = Some row /\ ch_consumed_at row <> None.

Lemma issue_keeps token_id expires_at scope k :
  preserves (fun db => was_consumed db k) (try_except (pg_issue token_id expires_at scope) (fun _ => ret tt)).
Proof.
  apply preserves_try; [|intros; apply preserves_ret]. apply preserves_wp. intros db e (row & Hrow & Hc).
  unfold pg_issue, fromtimestamp, _transaction, require_tenant. wp_steps; try (by exists row). bool_prop. exists row.
  split; [|done]. simpl. rewrite lookup_insert_ne; [done|]. intros <-.
  match goal with Hf : ~ is_Some _ |- _ => apply Hf end. by exists row.
Qed.

(** [consume] answers that it consumed a challenge that it found unused, of the scope, in time. *)
Lemma consume_spec token_id scope Q db e :
  (forall row, pt_challenges db !! challenge_key token_id scope = Some row -> consumable scope (clock_at (ticks e)) row = true ->
     Q (Ok true) (db <| pt_challenges := <[challenge_key token_id scope := row <| ch_consumed_at := Some (clock_at (ticks e)) |>]>
                    (pt_challenges db) |>) (Effects (uuids e) (S (ticks e)))) ->
  Q (Ok false) db (Effects (uuids e) (S (ticks e))) ->
  wp (pg_consume token_id scope) Q db e.
Proof. intros HT HF. unfold pg_consume, _transaction. fold (challenge_key token_id scope). wp_steps; auto. Qed.

(** A confirmation is consumed at most once, along any sequence of tokens issued and
    consumed by any workers. *)
Theorem pg_confirmation_once ops db e keys :
  (confirm_all ops db e).1.1 = Ok keys -> NoDup keys /\ forall k, k ∈ keys -> ~ was_consumed db k.
Proof.
  assert (Hwp : wp (confirm_all ops) (fun res _ _ => forall keys, res = Ok keys -> NoDup keys /\ forall k, k ∈ keys -> ~ was_consumed db k) db e);
    [|exact (Hwp keys)].
  clear keys. revert db e. induction ops as [|[token_id expires_at scope|token_id scope] ops IH]; intros db e; cbn [confirm_all].
  - apply wp_ret. intros keys [= <-]. split; [constructor|]. intros k Hk. by apply not_elem_of_nil in Hk.
  - apply wp_bind, wp_intro. intros r db1 e1 Hrun. destruct r as [[]|x]; [|done].
    eapply wp_mono; [by apply IH|]. intros r db2 e2 HQ keys Hkeys. destruct (HQ keys Hkeys) as [Hnd Hfresh]. split; [done|].
    intros k Hk Hc. apply (Hfresh k Hk). pose proof (issue_keeps token_id expires_at scope k db e Hc) as Hi. by rewrite Hrun in Hi.
  - apply wp_bind, consume_spec.
    + intros row Hrow Hc. unfold consumable in Hc. bool_prop. apply wp_bind. set (db1 := _ <| _ := _ |>).
      eapply wp_mono; [by apply (IH db1)|]. intros [more|x] db2 e2 HQ; [apply wp_ret|done]. intros keys [= <-].
      destruct (HQ more eq_refl) as [Hnd Hfresh]. split.
      * apply NoDup_cons. split; [|done]. intros Hin. apply (Hfresh _ Hin). eexists. unfold db1. simpl. by rewrite lookup_insert_eq.
      * intros k [-> |Hk]%elem_of_cons (row' & Hrow' & Hc'); [congruence|]. apply (Hfresh k Hk).
        unfold was_consumed, db1. simpl. destruct (decide (k = challenge_key token_id scope)) as [-> |Hne].
        -- rewrite lookup_insert_eq. by eexists.
        -- exists row'. by rewrite lookup_insert_ne.
    + apply wp_bind. eapply wp_mono; [by apply IH|]. intros [more|x] db2 e2 HQ; [apply wp_ret|done]. intros keys [= <-]. by apply HQ.
Qed.
End confirmations.

(** ** Concrete runs *)

Section demo.
#[local] Instance tool_env : Env := {| uuid_at := fun _ => "id"%string; clock_at := Z.of_nat |}.
#[local] Instance tool_uuid_text : UuidText := fun _ => None.
#[local] Instance tool_hash : TokenHash := fun s => ("h" +:+ s)%string.
#[local] Instance tool_calendar : Calendar := fun t => t / 1000.

Definition demo_turn : string := "00000000-0000-0000-0000-000000000001".
Definition demo_request (owner : string) (token : Z) (risk : ToolRisk) : Request :=
  MkRequest "acme" "k1" demo_turn "pay" risk "h" (PStr owner) (PInt token).

(** Worker a holds the session under token 3. *)
Definition demo_tools (owner : string) (token : Z) (rows : gmap id_key ExecutionRow) : PgTools :=
  MkPgTools {["acme"%string]} {[("acme", "s1")%string := MkSessionRow (Some owner) token (Some 1000)]}
    {[("acme"%string, demo_turn) := MkTurnRow "s1" "processing" token]} rows ∅ ∅ [].

Definition demo_failed_row : ExecutionRow := MkExecutionRow demo_turn "pay" IDEMPOTENT "h" "failed" "a" 3 (Some 1).

(** Worker a calls the tool and stops; worker b takes the session over and is refused. *)
Definition demo_called : Tooling :=
  (insert_segment (demo_request "a" 3 NON_IDEMPOTENT) demo_turn "a" 3 (MkTooling (demo_tools "a" 3 ∅) []) (Effects 0 0)).1.2.
Definition demo_taken : Tooling :=
  (lookup_segment (demo_request "b" 4 NON_IDEMPOTENT)
     (MkTooling (demo_tools "b" 4 (pt_executions (tl_db demo_called))) (tl_calls demo_called)) (Effects 0 0)).1.2.

Lemma pg_nonidempotent_called_once_witness :
  tl_calls demo_taken = [("acme", "k1")%string] /\ (calls_of ("acme", "k1")%string demo_taken <= 1)%nat.
Proof.
  split; [vm_compute; reflexivity|].
  apply (pg_nonidempotent_called_once (fun _ => NON_IDEMPOTENT) (demo_tools "a" 3 ∅)); [reflexivity| |done].
  eapply rtc_l; [by apply (t_insert _ (demo_request "a" 3 NON_IDEMPOTENT) demo_turn "a" 3 _ (Effects 0 0))|].
  eapply rtc_l; [by apply (t_outside _ (demo_tools "b" 4 (pt_executions (tl_db demo_called))))|].
  apply rtc_once. by apply (t_lookup _ (demo_request "b" 4 NON_IDEMPOTENT) _ (Effects 0 0)).
Defined.

Lemma pg_tool_call_fenced_witness :
  exists w' e', pg_begin (fun w => w) (demo_request "a" 3 NON_IDEMPOTENT) (MkTooling (demo_tools "a" 3 ∅) []) (Effects 0 0) =
      (Ok (started_record "k1"), w', e') /\
    exists o t n, fence_of (demo_request "a" 3 NON_IDEMPOTENT) o t /\ (n = 0 \/ n = 1)%nat /\
      call_owned (demo_request "a" 3 NON_IDEMPOTENT) false o t (clock_at n) (tl_db w').
Proof.
  eexists _, _. split; [vm_compute; reflexivity|].
  apply (pg_tool_call_fenced (fun w => w) (demo_request "a" 3 NON_IDEMPOTENT) (MkTooling (demo_tools "a" 3 ∅) []) (Effects 0 0)
    (started_record "k1") _ (Effects 0 1)); [by intros ?|vm_compute; reflexivity|reflexivity].
Defined.

Lemma pg_failed_retry_lost_witness :
  (pg_execute (fun w => w) (demo_request "a" 3 IDEMPOTENT) (Ok (Some (PInt 7)))
     (MkTooling (demo_tools "a" 3 {[("acme", "k1")%string := demo_failed_row]}) []) (Effects 0 0)).1 =
  (Raise not_owned, MkTooling (demo_tools "a" 3 {[("acme", "k1")%string := demo_failed_row]}) [("acme", "k1")%string]).
Proof.
  apply (pg_failed_retry_lost (fun w => w) (demo_request "a" 3 IDEMPOTENT) demo_failed_row "a" 3
    (demo_tools "a" 3 {[("acme", "k1")%string := demo_failed_row]}) [] (Some (PInt 7)) (Effects 0 0));
    [reflexivity|reflexivity|reflexivity|split_and!; [reflexivity|reflexivity|lia]|reflexivity|reflexivity|by eexists|reflexivity].
Defined.

Definition demo_requests : list (string * Z * Z * Z) := [("acme", 1, 60, 100); ("acme", 1, 60, 100); ("acme", 1, 40, 100)]%string.

Lemma pg_budget_never_exceeded_witness :
  exists row, pt_usage (reserve_all demo_requests (demo_tools "a" 3 ∅) (Effects 0 0)).1.2 !! ("acme"%string, 0) = Some row /\
    us_cost_units row = 100 /\ us_cost_units row <= 100.
Proof.
  eexists. split; [vm_compute; reflexivity|]. split; [reflexivity|].
  apply (pg_budget_never_exceeded (fun _ => 100) demo_requests (demo_tools "a" 3 ∅) (Effects 0 0) "acme" 0);
    [reflexivity|repeat constructor|vm_compute; reflexivity].
Defined.

Definition demo_scope : ConfirmationScope := MkConfirmationScope "acme" "u1" "s1" "pay" "h".
Definition demo_ops : list confirmation_op :=
  [IssueToken "t1" 100 demo_scope; ConsumeToken "t1" demo_scope; ConsumeToken "t1" demo_scope; IssueToken "t1" 100 demo_scope;
   ConsumeToken "t1" demo_scope].

Lemma pg_confirmation_once_witness :
  (confirm_all demo_ops (demo_tools "a" 3 ∅) (Effects 0 0)).1.1 = Ok [("acme", "ht1")%string] /\
  NoDup [("acme", "ht1")%string] /\ ~ was_consumed (demo_tools "a" 3 ∅) ("acme", "ht1")%string.
Proof.
  split; [vm_compute; reflexivity|].
  destruct (pg_confirmation_once demo_ops (demo_tools "a" 3 ∅) (Effects 0 0) [("acme", "ht1")%string]) as [Hn Hc]; [vm_compute; reflexivity|].
  split; [exact Hn|]. apply Hc. by left.
Defined.
End demo.
