(* ===== verification/AgentWorker.v ===== *)
(** * The agent worker

    [AgentWorker] of [trpc_service/agent/worker.py]: a turn runs under the lease of its
    session while a heartbeat task renews the lease; a turn that ends is committed with the
    last lease, a turn that fails is released for a retry or, after the last attempt, as
    failed.  The repository is any implementation of the operations the worker calls.

    [_execute_lease] is a state machine of three coroutines, the caller, the turn and the
    heartbeat; an action lets one of them run up to its next [await], or is a step of the
    rest of the service, a timeout, or a cancellation.  What loading the configuration,
    the services, the media and the agent gives is an argument.  Metrics and tracing are
    not modelled. *)

From S2P Require Import Prelude Datetime PyText Tenant Models Mailbox Repository OutboxDispatcher Runtime WorkerConsumer.
From Stdlib Require Import Ascii.
#[local] Open Scope Z_scope.

(** ** Text *)

(** The first characters of a text in UTF-8. *)
Fixpoint take_chars (n : nat) (s : string) : string :=
  match s with
  | EmptyString => EmptyString
  | String c rest =>
    if cont c then String c (take_chars n rest)
    else match n with O => EmptyString | S n => String c (take_chars n rest) end
  end.

(** [text[: max(0, limit - 1)] + "…"], with [limit = 2_000]. *)
Definition ellipsis : string := String "226" (String "128" (String "166" EmptyString)).

Definition _bounded_text (value : option string) : string :=
  let text := str_or value "" in
  if char_len text <=? 2000 then text else take_chars 1999 text +:+ ellipsis.

(** [re.fullmatch(r"[a-z0-9_]{1,64}", provider_code)]. *)
Definition code_char (c : ascii) : bool := byte_in 97 122 c || byte_in 48 57 c || (code c =? 95).

Definition is_code (s : string) : bool := (1 <=? str_len s) && (str_len s <=? 64) && string_all code_char s.

Definition provider_code_of (error : exn) : option string :=
  match error with OtherError _ provider_code => provider_code | _ => None end.

(** The names of exception classes are ASCII. *)
Definition _safe_error_type (error : exn) : string :=
  match provider_code_of error with
  | Some provider_code => if is_code provider_code then provider_code else String.substring 0 64 (exn_name error)
  | None => String.substring 0 64 (exn_name error)
  end.

(** ** The reply *)

Definition _target_id (acceptance : Acceptance) : outcome string :=
  let envelope := acc_envelope acceptance in
  if bool_decide (ie_conversation_kind envelope = GROUP) then
    match ie_external_conversation_id envelope with
    | Some id => if str_empty id then Raise (ValueError "group message has no target conversation") else Ok id
    | None => Raise (ValueError "group message has no target conversation")
    end
  else Ok (ie_external_user_id envelope).

(** The constraints of [OutboundEnvelope]. *)
Definition trace_header_ok (key item : string) : bool :=
  bool_decide (key ∈ ["traceparent"; "tracestate"; "baggage"]%string) && (char_len key <=? 64) && (char_len item <=? 512).

Definition OutboundEnvelope_ok (o : OutboundEnvelope) : bool :=
  match oe_text o with Some text => char_len text <=? 100000 | None => true end
  && forallb (fun '(key, item) => trace_header_ok key item) (map_to_list (oe_trace_headers o)).

(** What a finished turn leaves: [runner.state], [runner.buffered_events] and the text. *)
Record AgentTurn : Type := MkAgentTurn {
  ag_state : gmap string pyval;
  ag_events : list StoredEvent;
  ag_final_text : string;
}.

Definition reply_text (final_text : string) : string :=
  if str_empty final_text then "The agent completed without a text response." else final_text.

Section reply.
Context `{Tracing}.

Definition make_reply (acceptance : Acceptance) (outbound_id target_id : string) (turn : AgentTurn) : OutboundEnvelope :=
  let context := acc_context acceptance in
  MkOutboundEnvelope outbound_id (tc_tenant_id context) (tc_channel_binding_id context)
    (ie_channel (acc_envelope acceptance)) target_id (tc_session_id context) TEXT
    (Some (reply_text (ag_final_text turn))) [] (Some (ie_external_message_id (acc_envelope acceptance)))
    inject_trace_headers.

(** [uuid4()] is evaluated before the target. *)
Definition make_commit (acceptance : Acceptance) (outbound_id : string) (lease : SessionLease) (turn : AgentTurn) : outcome TurnCommit :=
  match _target_id acceptance with
  | Raise x => Raise x
  | Ok target_id =>
    let outbound := make_reply acceptance outbound_id target_id turn in
    if OutboundEnvelope_ok outbound
    then Ok (MkTurnCommit (acc_context acceptance) lease (ag_state turn) (ag_events turn) (Some outbound))
    else Raise (ValidationError "OutboundEnvelope")
  end.
End reply.

(** ** The repository *)

Class TurnRepository (R : Type) : Type := {
  tr_get_acceptance : string -> string -> M R (option Acceptance);
  tr_get_session_snapshot : string -> string -> M R (option SessionSnapshot);
  tr_acquire : Acceptance -> string -> Z -> M R (option SessionLease);
  tr_renew : SessionLease -> Z -> M R SessionLease;
  tr_renew_session_ready : SessionLease -> Z -> M R SessionLease;
  tr_commit : TurnCommit -> M R CommitResult;
  tr_commit_session_ready : TurnCommit -> M R CommitResult;
  tr_fail : SessionLease -> string -> M R unit;
  tr_fail_session_ready : SessionLease -> string -> M R unit;
  tr_retry_session_ready : SessionLease -> string -> Z -> M R unit;
}.

#[export] Instance memory_turns `{Env} `{EnvelopeDump} : TurnRepository Repository := {|
  tr_get_acceptance := get_acceptance;
  tr_get_session_snapshot := get_session_snapshot;
  tr_acquire := acquire;
  tr_renew := renew;
  tr_renew_session_ready := renew_session_ready;
  tr_commit := commit;
  tr_commit_session_ready := commit_session_ready;
  tr_fail := fail;
  tr_fail_session_ready := fail_session_ready;
  tr_retry_session_ready := retry_session_ready |}.

Record AgentWorker : Type := MkAgentWorker {
  aw_worker_id : string;
  aw_lease_for : Z;
  aw_max_turn_attempts : Z;
}.

Definition make_agent_worker (worker_id : string) (lease_for max_turn_attempts : Z) : outcome AgentWorker :=
  if max_turn_attempts <? 1 then Raise (ValueError "max_turn_attempts must be positive")
  else Ok (MkAgentWorker worker_id lease_for max_turn_attempts).

(** ** Before a turn *)

Section worker.
Context {R : Type} `{TurnRepository R}.
Context (w : AgentWorker).

(** [timedelta(seconds=min(2 ** max(lease.attempt - 1, 0), 60))]. *)
Definition retry_delay (attempt : Z) : Z := Z.min (2 ^ Z.max (attempt - 1) 0) 60 * 1000000.

Definition suppress_conflict (m : M R unit) : M R unit :=
  try_except m (fun x => match x with FencingConflict _ => ret tt | x => raise x end).

Definition _release_mailbox_failure (lease : SessionLease) (error : exn) : M R unit :=
  let error_type := _safe_error_type error in
  suppress_conflict
    (if aw_max_turn_attempts w <=? sl_attempt lease then tr_fail_session_ready lease error_type
     else tr_retry_session_ready lease error_type (retry_delay (sl_attempt lease))).

(** [process_claimed] before it executes the lease. *)
Definition admit_claimed (claim : SessionClaim) : M R (Acceptance * SessionLease) :=
  match claimed claim, sc_execution_lease claim with
  | true, Some lease =>
    try_except
      (let* acceptance :=
         match sc_acceptance claim with
         | Some acceptance => ret (Some acceptance)
         | None => tr_get_acceptance (sl_tenant_id lease) (sl_inbound_id lease)
         end in
       match acceptance with
       | None => raise (LookupError "claimed inbound does not exist")
       | Some acceptance =>
         raise_if (negb (bool_decide (acc_inbound_id acceptance = sl_inbound_id lease))
                   || negb (bool_decide (tc_tenant_id (acc_context acceptance) = sl_tenant_id lease))
                   || negb (bool_decide (tc_session_id (acc_context acceptance) = sl_session_id lease)))
           (FencingConflict "claimed inbound does not match session lease") ;;
         ret (acceptance, lease)
       end)
      (fun error => _release_mailbox_failure lease error ;; raise error)
  | _, _ => raise (ValueError "claimed session must include execution lease")
  end.

(** [_process] before it executes the lease: an answer, or the lease. *)
Definition admit_process (acceptance : Acceptance) : M R (ProcessStatus + SessionLease) :=
  let* lease := tr_acquire acceptance (aw_worker_id w) (aw_lease_for w) in
  match lease with
  | Some lease => ret (inr lease)
  | None =>
    if acc_duplicate acceptance then ret (inl DUPLICATE)
    else
      let* refreshed := tr_get_acceptance (tc_tenant_id (acc_context acceptance)) (acc_inbound_id acceptance) in
      ret (inl (match refreshed with Some a => if acc_duplicate a then DUPLICATE else BUSY | None => BUSY end))
  end.
End worker.

(** ** A turn under its lease *)

(** The task [run_turn]: reading the history, confirming the lease, the rest of the turn. *)
Inductive turn_phase : Type :=
  | TReading (anchor : SessionSnapshot)
  | TConfirming (arg : SessionLease)
  | TRunning
  | TDone (result : outcome AgentTurn).

(** The task [heartbeat]; a renewal was started with the lease of that time. *)
Inductive heartbeat_phase : Type :=
  | HWaiting
  | HRenewing (arg : SessionLease)
  | HDone.

(** [_execute_lease]: waiting for a task, stopping the heartbeat, committing; the handler that
    stops the heartbeat and releases the lease; the end. *)
Inductive main_phase : Type :=
  | MWaiting
  | MStopping (turn : AgentTurn)
  | MCommitting (commit : TurnCommit)
  | MFailing (error : exn)
  | MReleasing (error : exn)
  | MDone (result : outcome CommitResult).

(** The calls that end a turn, with the answer the worker sees; a commit during which the worker is
    cancelled, with what the repository made of it: nothing if the call did not reach it. *)
Inductive ending : Type :=
  | ECommit (commit : TurnCommit) (answer : outcome CommitResult)
  | EInterrupted (commit : TurnCommit) (unseen : option (outcome CommitResult))
  | ERelease (lease : SessionLease) (error : exn) (answer : outcome unit).

Record Execution (R : Type) : Type := MkExecution {
  ex_repo : R;
  ex_effects : effects;
  ex_current : SessionLease;
  ex_turn : turn_phase;
  ex_heartbeat : heartbeat_phase;
  ex_heartbeat_error : option exn;
  ex_stop : bool;
  ex_shutdown_attempted : bool;
  ex_main : main_phase;
  ex_log : list ending;
}.
Arguments MkExecution {R}.
Arguments ex_repo {R}.
Arguments ex_effects {R}.
Arguments ex_current {R}.
Arguments ex_turn {R}.
Arguments ex_heartbeat {R}.
Arguments ex_heartbeat_error {R}.
Arguments ex_stop {R}.
Arguments ex_shutdown_attempted {R}.
Arguments ex_main {R}.
Arguments ex_log {R}.

#[export] Instance Execution_settable {R} : Settable (Execution R) := fun x =>
  MkExecution (ex_repo x) (ex_effects x) (ex_current x) (ex_turn x) (ex_heartbeat x) (ex_heartbeat_error x) (ex_stop x)
    (ex_shutdown_attempted x) (ex_main x) (ex_log x).

Inductive action (R : Type) : Type :=
  (** Other calls change the repository, also calls of tasks that were cancelled. *)
  | Outside (repo : R)
  (** The interval of the heartbeat ends; its renewal is answered; it sees the stop event. *)
  | Beat
  | BeatAnswer
  | BeatStop
  (** The turn goes on; [result] is how it ends once nothing but the agent is left. *)
  | TurnStep (result : outcome AgentTurn)
  (** The caller goes on; [late] is a turn that ended after the wait had returned. *)
  | MainStep (late : bool)
  (** The heartbeat has not stopped after a second. *)
  | StopTimeout
  (** The caller is cancelled; [applied] is whether the call it waits for takes effect. *)
  | Cancel (applied : bool).
Arguments Outside {R}.
Arguments Beat {R}.
Arguments BeatAnswer {R}.
Arguments BeatStop {R}.
Arguments TurnStep {R}.
Arguments MainStep {R}.
Arguments StopTimeout {R}.
Arguments Cancel {R}.

Section execution.
Context {R : Type} `{TurnRepository R} `{Env} `{Tracing}.
Context (w : AgentWorker) (acceptance : Acceptance) (mailbox_runtime : bool).

(** A call of the repository. *)
Definition run_call {A} (m : M R A) (x : Execution R) : outcome A * Execution R :=
  let '(r, repo, e) := m (ex_repo x) (ex_effects x) in (r, x <| ex_repo := repo |> <| ex_effects := e |>).

Definition renew_call (lease : SessionLease) : M R SessionLease :=
  if mailbox_runtime then tr_renew_session_ready lease (aw_lease_for w) else tr_renew lease (aw_lease_for w).

Definition commit_call (commit : TurnCommit) : M R CommitResult :=
  if mailbox_runtime then tr_commit_session_ready commit else tr_commit commit.

Definition release_call (lease : SessionLease) (error : exn) : M R unit :=
  if mailbox_runtime then _release_mailbox_failure w lease error else tr_fail lease "agent_turn_failed".

Definition start_execution (repo : R) (e : effects) (lease : SessionLease) : Execution R :=
  MkExecution repo e lease
    (if mailbox_runtime && negb (sl_snapshot_hydrated lease) then TReading (sl_snapshot lease) else TRunning)
    HWaiting None false false MWaiting [].

(** *** The heartbeat *)

Definition beat (x : Execution R) : Execution R :=
  match ex_heartbeat x with
  | HWaiting => if ex_stop x then x else x <| ex_heartbeat := HRenewing (ex_current x) |>
  | _ => x
  end.

Definition beat_answer (x : Execution R) : Execution R :=
  match ex_heartbeat x with
  | HRenewing arg =>
    let '(r, x) := run_call (renew_call arg) x in
    match r with
    | Ok lease => x <| ex_current := lease |> <| ex_heartbeat := if ex_stop x then HDone else HWaiting |>
    | Raise error => x <| ex_heartbeat := HDone |> <| ex_heartbeat_error := Some error |>
    end
  | _ => x
  end.

Definition beat_stop (x : Execution R) : Execution R :=
  match ex_heartbeat x with
  | HWaiting => if ex_stop x then x <| ex_heartbeat := HDone |> else x
  | _ => x
  end.

(** *** The turn *)

(** The history belongs to the lease and has not changed since the claim. *)
Definition history_matches (lease : SessionLease) (anchor snapshot : SessionSnapshot) : bool :=
  bool_decide (ss_tenant_id snapshot = sl_tenant_id lease) && bool_decide (ss_session_id snapshot = sl_session_id lease)
  && (ss_version snapshot =? ss_version anchor) && (ss_next_sequence snapshot =? ss_next_sequence anchor).

Definition turn_step (result : outcome AgentTurn) (x : Execution R) : Execution R :=
  match ex_turn x with
  | TReading anchor =>
    let current := ex_current x in
    let '(r, x) := run_call (tr_get_session_snapshot (sl_tenant_id current) (sl_session_id current)) x in
    match r with
    | Raise error => x <| ex_turn := TDone (Raise error) |>
    | Ok None => x <| ex_turn := TDone (Raise (LookupError "claimed session does not exist")) |>
    | Ok (Some snapshot) =>
      if negb (history_matches (ex_current x) anchor snapshot)
      then x <| ex_turn := TDone (Raise (FencingConflict "claimed session changed before hydration")) |>
      else
        let current := (ex_current x) <| sl_snapshot := snapshot |> <| sl_snapshot_hydrated := true |> in
        x <| ex_current := current |> <| ex_turn := TConfirming current |>
    end
  | TConfirming arg =>
    let '(r, x) := run_call (tr_renew_session_ready arg (aw_lease_for w)) x in
    match r with
    | Raise error => x <| ex_turn := TDone (Raise error) |>
    | Ok lease => x <| ex_current := lease |> <| ex_turn := TRunning |>
    end
  | TRunning => x <| ex_turn := TDone result |>
  | TDone _ => x
  end.

(** *** The caller *)

(** The handler: a turn that is not done is cancelled, and the heartbeat is told to stop
    unless it was before. *)
Definition handle (error : exn) (x : Execution R) : Execution R :=
  let x := match ex_turn x with TDone _ => x | _ => x <| ex_turn := TDone (Raise CancelledError) |> end in
  if ex_shutdown_attempted x then x <| ex_main := MReleasing error |>
  else x <| ex_stop := true |> <| ex_shutdown_attempted := true |> <| ex_main := MFailing error |>.

Definition release (error : exn) (answer : option (outcome unit)) (x : Execution R) : Execution R :=
  let '(r, x) := run_call (release_call (ex_current x) error) x in
  let r := default r answer in
  x <| ex_log := ex_log x ++ [ERelease (ex_current x) error r] |>
    <| ex_main := MDone (Raise (match r with Ok _ => error | Raise error => error end)) |>.

Definition main_step (late : bool) (x : Execution R) : Execution R :=
  match ex_main x with
  | MWaiting =>
    match ex_turn x, ex_heartbeat x with
    | TDone (Raise error), _ => handle error x
    | TDone (Ok turn), heartbeat =>
      if late && match heartbeat with HDone => true | _ => false end
      then handle (FencingConflict "session heartbeat failed") x
      else x <| ex_stop := true |> <| ex_shutdown_attempted := true |> <| ex_main := MStopping turn |>
    | _, HDone => handle (FencingConflict "session heartbeat failed") x
    | _, _ => x
    end
  | MStopping turn =>
    match ex_heartbeat x with
    | HDone =>
      match ex_heartbeat_error x with
      | Some _ => handle (FencingConflict "session heartbeat failed") x
      | None =>
        let '(outbound_id, x) := run_call uuid4 x in
        match outbound_id with
        | Raise error => handle error x
        | Ok outbound_id =>
          match make_commit acceptance outbound_id (ex_current x) turn with
          | Ok commit => x <| ex_main := MCommitting commit |>
          | Raise error => handle error x
          end
        end
      end
    | _ => x
    end
  | MCommitting commit =>
    let '(r, x) := run_call (commit_call commit) x in
    let x := x <| ex_log := ex_log x ++ [ECommit commit r] |> in
    match r with
    | Ok result => x <| ex_main := MDone (Ok result) |>
    | Raise error => handle error x
    end
  | MFailing error =>
    match ex_heartbeat x with HDone => x <| ex_main := MReleasing error |> | _ => x end
  | MReleasing error => release error None x
  | MDone _ => x
  end.

Definition stop_timeout (x : Execution R) : Execution R :=
  match ex_heartbeat x with
  | HDone => x
  | _ =>
    match ex_main x with
    | MStopping _ => handle (FencingConflict "session heartbeat shutdown timed out") (x <| ex_heartbeat := HDone |>)
    | MFailing error => x <| ex_heartbeat := HDone |> <| ex_main := MReleasing error |>
    | _ => x
    end
  end.

(** A cancellation is raised at the [await] of the caller; writes after the commit swallow it. *)
Definition cancel (applied : bool) (x : Execution R) : Execution R :=
  match ex_main x with
  | MWaiting | MStopping _ => handle CancelledError x
  | MCommitting commit =>
    let '(unseen, x) :=
      if applied then let '(r, x) := run_call (commit_call commit) x in (Some r, x) else (None, x) in
    handle CancelledError (x <| ex_log := ex_log x ++ [EInterrupted commit unseen] |>)
  | MFailing _ => x <| ex_main := MDone (Raise CancelledError) |>
  | MReleasing error =>
    if applied then release error (Some (Raise CancelledError)) x
    else x <| ex_log := ex_log x ++ [ERelease (ex_current x) error (Raise CancelledError)] |>
           <| ex_main := MDone (Raise CancelledError) |>
  | MDone _ => x
  end.

Definition perform (a : action R) (x : Execution R) : Execution R :=
  match a with
  | Outside repo => x <| ex_repo := repo |>
  | Beat => beat x
  | BeatAnswer => beat_answer x
  | BeatStop => beat_stop x
  | TurnStep result => turn_step result x
  | MainStep late => main_step late x
  | StopTimeout => stop_timeout x
  | Cancel applied => cancel applied x
  end.
End execution.

(** ** After a commit *)

(** The memory and summary services of a tenant: whether they can be written, and what reading
    the last summary gives, its sequence and version. *)
Record ContextServices : Type := MkContextServices {
  cx_memory_put : bool;
  cx_summary_get : option (outcome (option (Z * Z)));
  cx_summary_put : bool;
}.

(** The identifier of the memory of a turn, [uuid5(NAMESPACE_URL, ...)]. *)
Class TurnUuid : Type := turn_uuid5 : string -> string.

(** The writes that are tried; each may fail without consequences. *)
Inductive context_write : Type :=
  | PutMemory (tenant_id principal_id turn_id session_id user_message agent_response memory_id : string) (source_sequence : Z)
  | PutSummary (tenant_id session_id turn_id last_user_message last_agent_response : string) (up_to_sequence : Z)
      (expected_version : option Z).

Definition commit_sequence (lease : SessionLease) (result : CommitResult) : Z :=
  match cr_last_sequence result with Some s => s | None => Z.max 0 (ss_next_sequence (sl_snapshot lease) - 1) end.

Section context.
Context `{TurnUuid}.

Definition summary_write (acceptance : Acceptance) (lease : SessionLease) (sequence : Z) (final_text : string)
    (services : ContextServices) : list context_write :=
  if negb (cx_summary_put services) then []
  else
    let previous := match cx_summary_get services with Some (Ok previous) => previous | _ => None end in
    let put expected_version :=
      [PutSummary (tc_tenant_id (acc_context acceptance)) (tc_session_id (acc_context acceptance)) (sl_turn_id lease)
         (_bounded_text (ie_text (acc_envelope acceptance))) (_bounded_text (Some final_text)) sequence expected_version] in
    match previous with
    | Some (up_to_sequence, version) => if sequence <=? up_to_sequence then [] else put (Some version)
    | None => put None
    end.

Definition _post_commit_context (acceptance : Acceptance) (lease : SessionLease) (result : CommitResult) (final_text : string)
    (services : option ContextServices) : list context_write :=
  match services with
  | None => []
  | Some services =>
    let context := acc_context acceptance in
    let sequence := commit_sequence lease result in
    (if cx_memory_put services then
       [PutMemory (tc_tenant_id context) (tc_principal_id context) (sl_turn_id lease) (tc_session_id context)
          (_bounded_text (ie_text (acc_envelope acceptance))) (_bounded_text (Some final_text))
          (turn_uuid5 ("trpc-agent-turn:" +:+ sl_turn_id lease)) sequence]
     else [])
    ++ summary_write acceptance lease sequence final_text services
  end.
End context.
