(* ===== verification/AgentWorkerThms.v ===== *)
(** * Theorems on the agent worker

    Along every interleaving of the turn, its heartbeat, timeouts, cancellations and the rest
    of the service, a turn is committed at most once, with the result of the turn and the last
    lease, and only when the heartbeat stopped without an error; otherwise it is released. *)

From S2P Require Import Prelude Datetime PyText Tenant Models Mailbox Repository RepositoryThms OutboxDispatcher Runtime WorkerConsumer AgentWorker.
#[local] Open Scope Z_scope.

Section protocol.
Context {R : Type} `{TurnRepository R} `{Env} `{Tracing}.
Context (w : AgentWorker) (acceptance : Acceptance) (mailbox_runtime : bool).

Abbreviation step := (perform w acceptance mailbox_runtime).

Definition reachable (lease : SessionLease) (x : Execution R) : Prop :=
  exists repo e actions, x = fold_left (fun x a => step a x) actions (start_execution mailbox_runtime repo e lease).

(** A commit of the turn: its result, the lease of the execution, a heartbeat that stopped. *)
Record commit_due (x : Execution R) (c : TurnCommit) : Prop := {
  cd_turn : exists turn outbound_id, ex_turn x = TDone (Ok turn) /\ make_commit acceptance outbound_id (ex_current x) turn = Ok c;
  cd_heartbeat : ex_heartbeat x = HDone;
  cd_error : ex_heartbeat_error x = None;
}.

Definition turn_ended (x : Execution R) : Prop := exists r, ex_turn x = TDone r.

(** The exception that leaves the handler. *)
Definition raises (error : exn) (answer : outcome unit) : exn := match answer with Ok _ => error | Raise y => y end.

(** A commit that did not return: the repository raised, or the worker was cancelled during the
    call, whatever the repository made of it. *)
Definition unreturned (v : ending) (c : TurnCommit) (error : exn) : Prop :=
  v = ECommit c (Raise error) \/ (error = CancelledError /\ exists unseen, v = EInterrupted c unseen).

(** What was called by the time the caller is at a point of its code. *)
Definition protocol (x : Execution R) : Prop :=
  match ex_main x with
  | MWaiting => ex_log x = [] /\ ex_shutdown_attempted x = false
  | MStopping turn => ex_log x = [] /\ ex_shutdown_attempted x = true /\ ex_turn x = TDone (Ok turn)
  | MCommitting c => ex_log x = [] /\ ex_shutdown_attempted x = true /\ commit_due x c
  | MFailing _ => ex_log x = [] /\ ex_shutdown_attempted x = true /\ turn_ended x
  | MReleasing error => turn_ended x /\
      (ex_log x = [] \/ exists v c, ex_log x = [v] /\ unreturned v c error /\ commit_due x c)
  | MDone (Ok result) => exists c, ex_log x = [ECommit c (Ok result)] /\ commit_due x c
  | MDone (Raise raised) => turn_ended x /\
      ((ex_log x = [] /\ raised = CancelledError) \/
       (exists lease error answer, ex_log x = [ERelease lease error answer] /\ raised = raises error answer) \/
       exists v c error lease answer, ex_log x = [v; ERelease lease error answer] /\ unreturned v c error /\
         raised = raises error answer /\ commit_due x c)
  end.

Lemma protocol_start repo e lease : protocol (start_execution mailbox_runtime repo e lease).
Proof. done. Qed.

(** The heartbeat and the turn leave the protocol alone. *)
Lemma commit_due_frame x x' c :
  ex_turn x' = ex_turn x -> ex_heartbeat x' = ex_heartbeat x -> ex_heartbeat_error x' = ex_heartbeat_error x ->
  ex_current x' = ex_current x -> commit_due x c -> commit_due x' c.
Proof. intros E1 E2 E3 E4 [Ht Hh He]. split; congruence || (rewrite E1, E4; done). Qed.

(** Only a heartbeat that is not done does anything. *)
Lemma heartbeat_protocol x repo e current heartbeat error :
  ex_heartbeat x <> HDone -> protocol x ->
  protocol (x <| ex_repo := repo |> <| ex_effects := e |> <| ex_current := current |> <| ex_heartbeat := heartbeat |>
    <| ex_heartbeat_error := error |>).
Proof.
  destruct x as [repo0 e0 current0 turn hb err stop att main log]. simpl. intros Hhb Hp. unfold protocol in *. simpl in *.
  destruct main as [|turn0|c|error0|error0|[res|y]]; try done.
  - destruct Hp as (_ & _ & [_ Hd _]). done.
  - destruct Hp as (Ht & [Hl|(v & c & _ & _ & [_ Hd _])]); [|done]. by split; [|left].
  - destruct Hp as (c & _ & [_ Hd _]). done.
  - destruct Hp as (Ht & [Hl|[Hl|(v & c & er & le & an & _ & _ & _ & [_ Hd _])]]); [|..|done]; (split; [done|]); [by left|by right; left].
Qed.

Lemma turn_protocol x repo e current turn :
  (forall r, ex_turn x <> TDone r) -> protocol x ->
  protocol (x <| ex_repo := repo |> <| ex_effects := e |> <| ex_current := current |> <| ex_turn := turn |>).
Proof.
  destruct x as [repo0 e0 current0 turn0 hb err stop att main log]. simpl. intros Ht Hp. unfold protocol, turn_ended in *. simpl in *.
  assert (Hc : forall c, ~ commit_due (MkExecution repo0 e0 current0 turn0 hb err stop att main log) c).
  { intros c [(turn1 & oid & Hd & _) _ _]. by apply (Ht (Ok turn1)). }
  destruct main as [|turn1|c|error0|error0|[res|y]]; [done|exfalso..].
  - destruct Hp as (_ & _ & Hd). by eapply Ht.
  - destruct Hp as (_ & _ & Hd). by eapply Hc.
  - destruct Hp as (_ & _ & r & Hd). by eapply Ht.
  - destruct Hp as ((r & Hd) & _). by eapply Ht.
  - destruct Hp as (c & _ & Hd). by eapply Hc.
  - destruct Hp as ((r & Hd) & _). by eapply Ht.
Qed.

Lemma repo_protocol x repo e : protocol x -> protocol (x <| ex_repo := repo |> <| ex_effects := e |>).
Proof.
  destruct x as [repo0 e0 current0 turn0 hb err stop att main log]. unfold protocol, turn_ended. simpl.
  assert (Hc : forall c, commit_due (MkExecution repo0 e0 current0 turn0 hb err stop att main log) c ->
    commit_due (MkExecution repo e current0 turn0 hb err stop att main log) c) by (intros c; by apply commit_due_frame).
  destruct main as [|turn1|c|error0|error0|[res|y]]; simpl; try done; naive_solver.
Qed.

Lemma run_call_spec {A} (m : M R A) x :
  exists r repo e, run_call m x = (r, x <| ex_repo := repo |> <| ex_effects := e |>).
Proof. unfold run_call. destruct (m (ex_repo x) (ex_effects x)) as [[r repo] e]. by exists r, repo, e. Qed.

(** The handler is reached with nothing called, or after the commit was refused. *)
Lemma handle_protocol error x :
  ex_log x = [] \/ (ex_shutdown_attempted x = true /\ exists v c, ex_log x = [v] /\ unreturned v c error /\ commit_due x c) ->
  protocol (handle error x).
Proof.
  intros Hx. unfold handle.
  assert (Hdone : exists r, ex_turn (match ex_turn x with TDone _ => x | _ => x <| ex_turn := TDone (Raise CancelledError) |> end) = TDone r)
    by (destruct (ex_turn x) eqn:E; simpl; eauto).
  destruct Hx as [Hl|(Ha & v & c & Hl & Hv & Hc)].
  - assert (Hl' : ex_log (match ex_turn x with TDone _ => x | _ => x <| ex_turn := TDone (Raise CancelledError) |> end) = [])
      by (by destruct (ex_turn x)).
    destruct (ex_shutdown_attempted _); unfold protocol; simpl; [by split; [|left]|by split_and!].
  - destruct (cd_turn _ _ Hc) as (turn & oid & Ht & _). rewrite Ht in *. rewrite Ha. unfold protocol. simpl. split; [done|].
    right. exists v, c. split_and!; [done|done|]. by apply (commit_due_frame x).
Qed.

Lemma release_protocol error answer x :
  turn_ended x -> (ex_log x = [] \/ exists v c, ex_log x = [v] /\ unreturned v c error /\ commit_due x c) ->
  protocol (release w mailbox_runtime error answer x).
Proof.
  intros Ht Hl. unfold release. destruct (run_call_spec (release_call w mailbox_runtime (ex_current x) error) x) as (r & repo & e & ->).
  unfold protocol. simpl. split; [exact Ht|]. right. destruct Hl as [-> |(v & c & -> & Hv & Hc)].
  - left. by do 3 eexists.
  - right. exists v, c, error. do 2 eexists. split; [done|]. split; [done|]. split; [done|]. by apply (commit_due_frame x).
Qed.

Lemma main_step_protocol late x : protocol x -> protocol (main_step w acceptance mailbox_runtime late x).
Proof.
  intros Hp. unfold main_step. destruct (ex_main x) as [|turn|c|error|error|r] eqn:Hm; pose proof Hp as Hp'; unfold protocol in Hp'; rewrite Hm in Hp'.
  - destruct Hp' as [Hl Ha]. destruct (ex_turn x) as [| | |[turn|error]] eqn:Ht;
      [destruct (ex_heartbeat x); try done; apply handle_protocol; by left..| |apply handle_protocol; by left].
    destruct (late && _); [apply handle_protocol; by left|]. unfold protocol. simpl. by split_and!.
  - destruct Hp' as (Hl & Ha & Ht). destruct (ex_heartbeat x) eqn:Hh; [done..|].
    destruct (ex_heartbeat_error x) eqn:He; [apply handle_protocol; by left|]. unfold run_call, uuid4. cbn [ex_repo].
    destruct (make_commit _ _ _ _) as [c|error] eqn:Hc; [|apply handle_protocol; by left].
    unfold protocol. simpl. split_and!; [done|done|]. split; [|done|done]. by exists turn, (uuid_at (uuids (ex_effects x))).
  - destruct Hp' as (Hl & Ha & Hc). destruct (run_call_spec (commit_call mailbox_runtime c) x) as (r & repo & e & ->).
    assert (Hdue : forall x', ex_turn x' = ex_turn x -> ex_heartbeat x' = ex_heartbeat x -> ex_heartbeat_error x' = ex_heartbeat_error x ->
      ex_current x' = ex_current x -> commit_due x' c) by (intros; by apply (commit_due_frame x)).
    destruct r as [result|error].
    + unfold protocol. simpl. exists c. rewrite Hl. split; [done|]. by apply Hdue.
    + apply handle_protocol. right. split; [done|]. eexists _, c. simpl. rewrite Hl. split; [done|]. split; [by left|]. by apply Hdue.
  - destruct Hp' as (Hl & Ha & Ht). destruct (ex_heartbeat x); try done. unfold protocol. simpl. by split; [|left].
  - destruct Hp' as [Ht Hl]. by apply release_protocol.
  - done.
Qed.

Lemma cancel_protocol applied x : protocol x -> protocol (cancel w mailbox_runtime applied x).
Proof.
  intros Hp. unfold cancel. destruct (ex_main x) as [|turn|c|error|error|r] eqn:Hm; pose proof Hp as Hp'; unfold protocol in Hp'; rewrite Hm in Hp'.
  - apply handle_protocol. left; by apply Hp'.
  - apply handle_protocol. left; by apply Hp'.
  - destruct Hp' as (Hl & Ha & Hc).
    assert (Hx : exists unseen repo e,
      (if applied then let '(r, y) := run_call (commit_call mailbox_runtime c) x in (Some r, y) else (None, x)) =
      (unseen, x <| ex_repo := repo |> <| ex_effects := e |>)).
    { destruct applied; [|exists None, (ex_repo x), (ex_effects x); by destruct x].
      destruct (run_call_spec (commit_call mailbox_runtime c) x) as (r & repo & e & ->). by exists (Some r), repo, e. }
    destruct Hx as (unseen & repo & e & ->). apply handle_protocol. right. split; [done|]. eexists _, c. simpl. rewrite Hl. split; [done|].
    split; [right; eauto|]. by apply (commit_due_frame x).
  - destruct Hp' as (Hl & Ha & Ht). unfold protocol. simpl. by split; [|left].
  - destruct Hp' as (Ht & Hl). destruct applied; [by apply release_protocol|]. unfold protocol. simpl. split; [done|]. right.
    destruct Hl as [-> |(v & c & -> & Hv & Hc)]; [left; by do 3 eexists|]. right. exists v, c, error. do 2 eexists. split; [done|].
    split; [done|]. split; [done|].
    by apply (commit_due_frame x).
  - done.
Qed.

Lemma perform_protocol a x : protocol x -> protocol (step a x).
Proof.
  intros Hp. destruct a as [repo| | | |result|late| |applied]; cbn [perform].
  - pose proof (repo_protocol x repo (ex_effects x) Hp) as Hr. by destruct x.
  - unfold beat. destruct (ex_heartbeat x) eqn:Hh; try done. destruct (ex_stop x); [done|].
    assert (Hnd : ex_heartbeat x <> HDone) by congruence.
    pose proof (heartbeat_protocol x (ex_repo x) (ex_effects x) (ex_current x) (HRenewing (ex_current x)) (ex_heartbeat_error x) Hnd Hp) as Hr.
    by destruct x.
  - unfold beat_answer. destruct (ex_heartbeat x) as [|arg|] eqn:Hh; try done. assert (Hnd : ex_heartbeat x <> HDone) by congruence.
    destruct (run_call_spec (renew_call w mailbox_runtime arg) x) as (r & repo & e & ->). destruct r as [lease|error].
    + pose proof (heartbeat_protocol x repo e lease (if ex_stop x then HDone else HWaiting) (ex_heartbeat_error x) Hnd Hp) as Hr. by destruct x.
    + pose proof (heartbeat_protocol x repo e (ex_current x) HDone (Some error) Hnd Hp) as Hr. by destruct x.
  - unfold beat_stop. destruct (ex_heartbeat x) eqn:Hh; try done. destruct (ex_stop x); [|done].
    assert (Hnd : ex_heartbeat x <> HDone) by congruence.
    pose proof (heartbeat_protocol x (ex_repo x) (ex_effects x) (ex_current x) HDone (ex_heartbeat_error x) Hnd Hp) as Hr. by destruct x.
  - unfold turn_step.
    assert (Hturn : forall repo e current turn, (forall r, ex_turn x <> TDone r) ->
      protocol (x <| ex_repo := repo |> <| ex_effects := e |> <| ex_current := current |> <| ex_turn := turn |>))
      by (intros; by apply turn_protocol).
    destruct (ex_turn x) as [anchor|arg| |r] eqn:Ht; [| | |done].
    + destruct (run_call_spec (tr_get_session_snapshot (sl_tenant_id (ex_current x)) (sl_session_id (ex_current x))) x) as (r & repo & e & ->).
      destruct r as [[snapshot|]|error]; [destruct (negb _)|..];
        match goal with |- protocol ?y => specialize (Hturn (ex_repo y) (ex_effects y) (ex_current y) (ex_turn y) ltac:(discriminate)) end; by destruct x.
    + destruct (run_call_spec (tr_renew_session_ready arg (aw_lease_for w)) x) as (r & repo & e & ->).
      destruct r as [lease|error];
        match goal with |- protocol ?y => specialize (Hturn (ex_repo y) (ex_effects y) (ex_current y) (ex_turn y) ltac:(discriminate)) end; by destruct x.
    + specialize (Hturn (ex_repo x) (ex_effects x) (ex_current x) (TDone result) ltac:(discriminate)). by destruct x.
  - by apply main_step_protocol.
  - unfold stop_timeout. destruct (ex_heartbeat x) eqn:Hh; [| |done];
      (destruct (ex_main x) as [|turn|c|error|error|r] eqn:Hm; try done; unfold protocol in Hp; rewrite Hm in Hp);
      [apply handle_protocol; left; by apply Hp| |apply handle_protocol; left; by apply Hp|];
      unfold protocol; simpl; (split; [apply Hp|left; apply Hp]).
  - by apply cancel_protocol.
Qed.

(** C30: Along every interleaving of a turn, its heartbeat, timeouts, cancellations and the rest
    of the service: the worker commits at most once, with the result of the turn and the
    lease it last obtained, after the heartbeat stopped without an error; it answers that the
    turn is committed exactly when that call returned, with what it returned; it releases the
    lease at most once, never after a commit that returned, and when it raises it has released
    it, unless it was cancelled.  A commit during which the worker is cancelled may have been
    applied; the worker releases the lease nevertheless. *)
Theorem worker_turn_protocol lease x :
  reachable lease x ->
  match ex_main x with
  | MDone (Ok result) => exists c, ex_log x = [ECommit c (Ok result)] /\ commit_due x c
  | MDone (Raise raised) =>
      (ex_log x = [] /\ raised = CancelledError) \/
      (exists lease error answer, ex_log x = [ERelease lease error answer] /\ raised = raises error answer) \/
      exists v c error lease answer, ex_log x = [v; ERelease lease error answer] /\ unreturned v c error /\
        raised = raises error answer /\ commit_due x c
  | MReleasing error => ex_log x = [] \/ exists v c, ex_log x = [v] /\ unreturned v c error /\ commit_due x c
  | _ => ex_log x = []
  end.
Proof.
  intros (repo & e & actions & ->).
  assert (Hp : protocol (fold_left (fun x a => step a x) actions (start_execution mailbox_runtime repo e lease))).
  { generalize (protocol_start repo e lease). generalize (start_execution mailbox_runtime repo e lease).
    induction actions as [|a actions IH]; intros x Hx; [done|]. apply IH. by apply perform_protocol. }
  revert Hp. generalize (fold_left (fun x a => step a x) actions (start_execution mailbox_runtime repo e lease)). intros x Hp.
  unfold protocol in Hp. destruct (ex_main x) as [| | | |error|[result|error]]; by apply Hp.
Qed.
End protocol.

(** ** The fence of a turn *)

(** What a repository compares before it accepts a call under a lease. *)
Definition fence (lease : SessionLease) : string * Z * string := (sl_worker_id lease, sl_fencing_token lease, sl_turn_id lease).

(** Renewing a lease keeps its fence. *)
Class RenewKeeps (R : Type) `{TurnRepository R} : Prop := {
  renew_fence lease lease_for (repo : R) e l' repo' e' :
    tr_renew lease lease_for repo e = (Ok l', repo', e') -> fence l' = fence lease;
  renew_session_ready_fence lease lease_for (repo : R) e l' repo' e' :
    tr_renew_session_ready lease lease_for repo e = (Ok l', repo', e') -> fence l' = fence lease;
}.

Lemma owns_fence current lease : _owns (Some current) lease = true -> fence current = fence lease.
Proof. unfold _owns, fence. intros Ho. bool_prop. congruence. Qed.

#[export] Instance memory_renew_keeps `{Env} `{EnvelopeDump} : RenewKeeps Repository.
Proof.
  assert (Hrun : forall A (m : M Repository A) (P : A -> Prop),
    (forall repo e, wp m (fun r _ _ => forall a, r = Ok a -> P a) repo e) ->
    forall repo e a repo' e', m repo e = (Ok a, repo', e') -> P a).
  { intros A m P Hm repo e a repo' e' E. by apply (wp_run _ _ _ _ _ _ _ (Hm repo e) E). }
  split; intros lease lease_for; apply Hrun; intros repo e; simpl.
  - unfold renew. wp_steps; try done. intros a [= <-]. bool_prop. by apply owns_fence.
  - unfold renew_session_ready. apply wp_bind, wp_gets. destruct (rp_leases repo !! _) as [current|]; [|by apply wp_raise].
    apply wp_bind, wp_raise_if; intros Ho; [done|]. bool_prop.
    apply wp_bind, wp_intro. intros [[mb|]|x] s1 e1 _; [|by apply wp_raise|done]. destruct (mb_processing_sequence mb) as [sequence|]; [|by apply wp_raise].
    apply wp_bind, wp_intro. intros [ml|x] s2 e2 _; [|done]. apply wp_bind, wp_intro. intros [renewed|x] s3 e3 _; [|done].
    apply wp_bind, wp_modify, wp_ret. intros a [= <-]. by apply owns_fence.
Qed.

Section fencing.
Context {R : Type} `{RenewKeeps R} `{Env} `{Tracing}.
Context (w : AgentWorker) (acceptance : Acceptance) (mailbox_runtime : bool).

(** Every lease the execution holds, renews or has used. *)
Definition fenced (f : string * Z * string) (x : Execution R) : Prop :=
  fence (ex_current x) = f /\
  match ex_heartbeat x with HRenewing arg => fence arg = f | _ => True end /\
  match ex_turn x with TConfirming arg => fence arg = f | _ => True end /\
  match ex_main x with MCommitting c => fence (tn_lease c) = f | _ => True end /\
  Forall (fun v => match v with ECommit c _ | EInterrupted c _ => fence (tn_lease c) = f | ERelease lease _ _ => fence lease = f end) (ex_log x).

Lemma handle_fenced f error x : fenced f x -> fenced f (handle error x).
Proof.
  intros (Hc & Hh & Ht & _ & Hl). unfold handle. destruct (ex_turn x) eqn:E; destruct (ex_shutdown_attempted x) eqn:Ea; simpl;
    rewrite ?Ea; unfold fenced; simpl; rewrite ?E; done.
Qed.

Lemma release_fenced f error answer x : fenced f x -> fenced f (release w mailbox_runtime error answer x).
Proof.
  intros (Hc & Hh & Ht & _ & Hl). unfold release.
  destruct (run_call_spec (release_call w mailbox_runtime (ex_current x) error) x) as (r & repo & e & ->). unfold fenced. simpl.
  split_and!; try done. apply Forall_app. split; [done|]. by constructor.
Qed.

Lemma make_commit_lease outbound_id lease turn c : make_commit acceptance outbound_id lease turn = Ok c -> tn_lease c = lease.
Proof. unfold make_commit. destruct (_target_id acceptance); [|done]. case_match; intros [= <-]; done. Qed.

Lemma run_call_fenced {A} f (m : M R A) x r x' : fenced f x -> run_call m x = (r, x') -> fenced f x'.
Proof. intros Hf. destruct (run_call_spec m x) as (r0 & repo & e & ->). intros [= <- <-]. exact Hf. Qed.

Lemma run_call_answer {A} (m : M R A) x a x' :
  run_call m x = (Ok a, x') -> exists repo e, m (ex_repo x) (ex_effects x) = (Ok a, repo, e).
Proof. unfold run_call. destruct (m (ex_repo x) (ex_effects x)) as [[r repo] e]. intros [= -> _]. by exists repo, e. Qed.

Lemma turn_step_fenced f result x : fenced f x -> fenced f (turn_step w result x).
Proof.
  intros Hf. pose proof Hf as (Hc & Hh & Ht & Hm & Hl). unfold turn_step. destruct (ex_turn x) as [anchor|arg| |r] eqn:E; [| | |done].
  - destruct (run_call_spec (tr_get_session_snapshot (sl_tenant_id (ex_current x)) (sl_session_id (ex_current x))) x) as (r & repo & e & ->).
    destruct r as [[snapshot|]|error]; [destruct (negb _)|..]; unfold fenced; simpl; by split_and!.
  - destruct (run_call (tr_renew_session_ready arg (aw_lease_for w)) x) as [[lease|error] x1] eqn:Er;
      destruct (run_call_fenced f _ _ _ _ Hf Er) as (Hc1 & Hh1 & _ & Hm1 & Hl1).
    + apply run_call_answer in Er as (repo & e & Er). apply renew_session_ready_fence in Er. unfold fenced. simpl. split_and!; try done. congruence.
    + unfold fenced. simpl. by split_and!.
  - unfold fenced. simpl. by split_and!.
Qed.

Lemma main_step_fenced f late x : fenced f x -> fenced f (main_step w acceptance mailbox_runtime late x).
Proof.
  intros Hf. pose proof Hf as (Hc & Hh & Ht & Hm & Hl). unfold main_step. destruct (ex_main x) as [|turn|c|error|error|r] eqn:E; [| | | | |done].
  - destruct (ex_turn x) as [| | |[turn|error]] eqn:Et;
      [destruct (ex_heartbeat x) eqn:Eh; [done|done|by apply handle_fenced]..| |by apply handle_fenced].
    destruct (late && _); [by apply handle_fenced|]. unfold fenced. simpl. rewrite Et. by split_and!.
  - destruct (ex_heartbeat x) eqn:Eh; [done|done|]. destruct (ex_heartbeat_error x); [by apply handle_fenced|].
    unfold run_call, uuid4. cbn [ex_repo]. destruct (make_commit _ _ _ _) as [c|error] eqn:Ec.
    + apply make_commit_lease in Ec. unfold fenced. simpl. rewrite Eh, Ec. by split_and!.
    + apply handle_fenced. unfold fenced. simpl. rewrite Eh, E. by split_and!.
  - destruct (run_call_spec (commit_call mailbox_runtime c) x) as (r & repo & e & ->).
    assert (Hl' : Forall (fun v => match v with ECommit c _ | EInterrupted c _ => fence (tn_lease c) = f | ERelease lease _ _ => fence lease = f end) (ex_log x ++ [ECommit c r]))
      by (apply Forall_app; split; [done|by constructor]).
    destruct r; [|apply handle_fenced]; unfold fenced; simpl; rewrite ?E; by split_and!.
  - destruct (ex_heartbeat x) eqn:Eh; [done|done|]. unfold fenced. simpl. rewrite Eh. by split_and!.
  - by apply release_fenced.
Qed.

Lemma cancel_fenced f applied x : fenced f x -> fenced f (cancel w mailbox_runtime applied x).
Proof.
  intros Hf. pose proof Hf as (Hc & Hh & Ht & Hm & Hl). unfold cancel. destruct (ex_main x) as [|turn|c|error|error|r] eqn:E;
    [by apply handle_fenced|by apply handle_fenced| | | |done].
  - destruct applied.
    + destruct (run_call_spec (commit_call mailbox_runtime c) x) as (r & repo & e & ->). apply handle_fenced. unfold fenced. simpl. rewrite E. split_and!; try done.
      apply Forall_app. split; [done|]. by constructor.
    + apply handle_fenced. unfold fenced. simpl. rewrite E. split_and!; try done. apply Forall_app. split; [done|]. by constructor.
  - unfold fenced. simpl. by split_and!.
  - destruct applied; [by apply release_fenced|]. unfold fenced. simpl. split_and!; try done. apply Forall_app. split; [done|]. by constructor.
Qed.

Lemma perform_fenced f a x : fenced f x -> fenced f (perform w acceptance mailbox_runtime a x).
Proof.
  intros Hf. pose proof Hf as (Hc & Hh & Ht & Hm & Hl). destruct a as [repo| | | |result|late| |applied]; cbn [perform].
  - exact Hf.
  - unfold beat. destruct (ex_heartbeat x) eqn:E; try done. destruct (ex_stop x); [done|]. unfold fenced. simpl. by split_and!.
  - unfold beat_answer. destruct (ex_heartbeat x) as [|arg|] eqn:E; try done.
    destruct (run_call (renew_call w mailbox_runtime arg) x) as [[lease|error] x1] eqn:Er.
    + destruct (run_call_fenced f _ _ _ _ Hf Er) as (_ & _ & Ht1 & Hm1 & Hl1). apply run_call_answer in Er as (repo & e & Er).
      assert (fence lease = f) as Hfl.
      { rewrite <-Hh. unfold renew_call in Er. destruct mailbox_runtime; [by eapply renew_session_ready_fence|by eapply renew_fence]. }
      unfold fenced. simpl. split_and!; try done. by destruct (ex_stop x1).
    + destruct (run_call_fenced f _ _ _ _ Hf Er) as (Hc1 & _ & Ht1 & Hm1 & Hl1). unfold fenced. simpl. by split_and!.
  - unfold beat_stop. destruct (ex_heartbeat x) eqn:E; try done. destruct (ex_stop x); [|done]. unfold fenced. simpl. by split_and!.
  - by apply turn_step_fenced.
  - by apply main_step_fenced.
  - unfold stop_timeout. destruct (ex_heartbeat x); [| |done]; 
      (destruct (ex_main x) eqn:E; try exact Hf; try apply handle_fenced; unfold fenced; simpl; rewrite ?E; by split_and!).
  - by apply cancel_fenced.
Qed.

(** C31: A worker acts under one fence: every lease it renews, commits with or releases has the
    worker, the fencing token and the turn of the lease it was given, so a repository that
    fences superseded leases refuses it once the session has moved on. *)
Theorem worker_keeps_fence lease x :
  reachable w acceptance mailbox_runtime lease x ->
  fence (ex_current x) = fence lease /\
  (forall arg, ex_heartbeat x = HRenewing arg -> fence arg = fence lease) /\
  (forall arg, ex_turn x = TConfirming arg -> fence arg = fence lease) /\
  Forall (fun v => match v with
    | ECommit c _ | EInterrupted c _ => fence (tn_lease c) = fence lease
    | ERelease l _ _ => fence l = fence lease
    end) (ex_log x).
Proof.
  intros (repo & e & actions & ->).
  assert (Hf : fenced (fence lease) (start_execution mailbox_runtime repo e lease)).
  { unfold fenced, start_execution. simpl. split_and!; try done. by destruct (mailbox_runtime && _). }
  revert Hf. generalize (start_execution mailbox_runtime repo e lease).
  induction actions as [|a actions IH]; intros x Hf; [|apply IH; by apply perform_fenced].
  destruct Hf as (Hc & Hh & Ht & _ & Hl). simpl. split_and!; [done| | |done]; intros arg E; [by rewrite E in Hh|by rewrite E in Ht].
Qed.
End fencing.

(** ** Bounds *)

Lemma take_chars_len n s : char_len (take_chars n s) <= Z.of_nat n.
Proof.
  revert n. induction s as [|c s IH]; intros n; cbn [take_chars]; [simpl; lia|]. destruct (cont c) eqn:Hc.
  - cbn [char_len]. rewrite Hc. specialize (IH n). lia.
  - destruct n as [|n]; [simpl; lia|]. cbn [char_len]. rewrite Hc. specialize (IH n). lia.
Qed.

Lemma char_len_app s s' : char_len (s +:+ s') = char_len s + char_len s'.
Proof. induction s as [|c s IH]; [done|]. change (String c s +:+ s') with (String c (s +:+ s')). cbn [char_len]. rewrite IH. lia. Qed.

Lemma bounded_text_len value : char_len (_bounded_text value) <= 2000.
Proof.
  unfold _bounded_text. destruct (Z.leb_spec (char_len (str_or value "")) 2000); [done|].
  rewrite char_len_app. pose proof (take_chars_len 1999 (str_or value "")) as Hl. change (char_len ellipsis) with 1. lia.
Qed.

(** The derived context of a turn is bounded, belongs to its session, and never goes back: a
    summary is written only for a later sequence than the last one, under its version. *)
Theorem post_commit_bounded `{TurnUuid} acceptance lease result final_text services :
  Forall (fun v => match v with
    | PutMemory tenant _ turn session user agent _ sequence =>
      tenant = tc_tenant_id (acc_context acceptance) /\ session = tc_session_id (acc_context acceptance) /\ turn = sl_turn_id lease /\
      char_len user <= 2000 /\ char_len agent <= 2000 /\ sequence = commit_sequence lease result
    | PutSummary tenant session turn user agent sequence version =>
      tenant = tc_tenant_id (acc_context acceptance) /\ session = tc_session_id (acc_context acceptance) /\ turn = sl_turn_id lease /\
      char_len user <= 2000 /\ char_len agent <= 2000 /\ sequence = commit_sequence lease result /\
      (forall s up_to v, services = Some s -> cx_summary_get s = Some (Ok (Some (up_to, v))) -> up_to < sequence /\ version = Some v)
    end) (_post_commit_context acceptance lease result final_text services).
Proof.
  unfold _post_commit_context, summary_write. destruct services as [s|]; [|constructor]. apply Forall_app. split.
  - destruct (cx_memory_put s); repeat constructor; apply bounded_text_len.
  - destruct (cx_summary_put s); cbn [negb]; [|constructor].
    destruct (cx_summary_get s) as [[[[up_to v]|]|x]|] eqn:Eg; cbn; try (destruct (Z.leb_spec (commit_sequence lease result) up_to); [constructor|]);
      (constructor; [|constructor]; split_and!; try done; try apply bounded_text_len); intros ? ? ? [= <-]; rewrite Eg; intros E; simplify_eq; by split.
Qed.

(** The delay before a retry is between a second and a minute, and grows with the attempts. *)
Lemma failure_delay_bounds attempt : 1000000 <= retry_delay attempt <= 60000000.
Proof. unfold retry_delay. pose proof (Z.pow_pos_nonneg 2 (Z.max (attempt - 1) 0)). lia. Qed.

(** ** Concrete runs *)

Section demo.
Definition demo_history : SessionSnapshot := new_snapshot "acme" "app" "s1" "u1".

(** A repository that grants everything and counts its calls. *)
Definition counted {A} (a : A) : M nat A := modify S ;; ret a.

#[local] Instance demo_turns : TurnRepository nat := {|
  tr_get_acceptance := fun _ _ => ret None;
  tr_get_session_snapshot := fun _ _ => counted (Some demo_history);
  tr_acquire := fun _ _ _ => ret None;
  tr_renew := fun lease _ => counted lease;
  tr_renew_session_ready := fun lease _ => counted lease;
  tr_commit := fun c => counted (MkCommitResult (sl_turn_id (tn_lease c)) None None None);
  tr_commit_session_ready := fun c => counted (MkCommitResult (sl_turn_id (tn_lease c)) None None None);
  tr_fail := fun _ _ => counted tt;
  tr_fail_session_ready := fun _ _ => counted tt;
  tr_retry_session_ready := fun _ _ _ => counted tt |}.

#[local] Instance demo_renew_keeps : RenewKeeps nat.
Proof. split; intros lease lease_for repo e l' repo' e' [= <- _ _]; done. Qed.

#[local] Instance worker_env : Env := {| uuid_at := fun n => pretty n; clock_at := Z.of_nat |}.
#[local] Instance worker_tracing : Tracing := {| current_trace_id := "trace"; inject_trace_headers := ∅ |}.

Definition demo_agent_worker : AgentWorker := MkAgentWorker "w1" 60000000 3.
Definition demo_turn_acceptance : Acceptance := demo_acceptance "i1" "m1".
Definition demo_turn_lease : SessionLease := MkSessionLease "acme" "s1" "t1" "i1" "w1" 7 100 1 demo_history false.
Definition demo_agent_turn : AgentTurn := MkAgentTurn ∅ [] "hello".

(** The heartbeat renews once while the agent runs, and the commit is interrupted. *)
Definition demo_actions : list (action nat) :=
  [TurnStep (Ok demo_agent_turn); TurnStep (Ok demo_agent_turn); Beat; TurnStep (Ok demo_agent_turn); BeatAnswer;
   MainStep false; BeatStop; MainStep false; Cancel true; MainStep false].

Definition demo_execution : Execution nat :=
  fold_left (fun x a => perform demo_agent_worker demo_turn_acceptance true a x) demo_actions
    (start_execution true 0%nat (Effects 0 0) demo_turn_lease).

Lemma demo_execution_reachable : reachable demo_agent_worker demo_turn_acceptance true demo_turn_lease demo_execution.
Proof. by exists 0%nat, (Effects 0 0), demo_actions. Qed.

Lemma worker_turn_protocol_witness :
  ex_main demo_execution = MDone (Raise CancelledError) /\
  exists c unseen error lease answer,
    ex_log demo_execution = [EInterrupted c (Some (Ok unseen)); ERelease lease error answer] /\ answer = Ok tt.
Proof.
  pose proof (worker_turn_protocol demo_agent_worker demo_turn_acceptance true demo_turn_lease demo_execution demo_execution_reachable) as Hp.
  assert (Hm : ex_main demo_execution = MDone (Raise CancelledError)) by (vm_compute; reflexivity).
  split; [exact Hm|]. rewrite Hm in Hp. vm_compute in Hp |- *.
  destruct Hp as [[Hl _]|[(l & er & an & Hl & _)|(v & c & er & l & an & Hl & Hv & _)]]; [discriminate|discriminate|].
  injection Hl as <- <- <- <-. do 5 eexists. split; reflexivity.
Defined.

Lemma worker_keeps_fence_witness :
  fence (ex_current demo_execution) = ("w1"%string, 7, "t1"%string) /\ length (ex_log demo_execution) = 2%nat.
Proof.
  split; [|vm_compute; reflexivity].
  exact (proj1 (worker_keeps_fence demo_agent_worker demo_turn_acceptance true demo_turn_lease demo_execution demo_execution_reachable)).
Defined.

End demo.
