(* ===== verification/PgTurns.v ===== *)
(** * Turns of the PostgreSQL repository

    Acceptance, sessions and turns of [PostgresRuntimeRepository]
    ([trpc_service/storage/postgres.py]), over the tables of migrations 0001, 0008, 0021 and
    0022, with the mailbox of [PgMailbox] and the outbox of [PgDelivery].  A transaction that
    raises is rolled back; [now()] is the time at which it began, [clock_timestamp()] a new
    reading in every statement.  Every method locks the mailbox, the session, the turn, the item
    and the message it changes, in this order, so transactions on one session run one after the
    other.  A JSON column holds the value that was written.  Columns that no method
    reads, integer column widths, row-level security, the write barrier of migrations, metrics
    and fault checkpoints are not modelled; the three sweeps are in [PgSweeps]. *)

From S2P Require Import Prelude PyText Tenant Models Mailbox Repository Runtime PgMailbox PgDelivery.
From Stdlib Require Import Ascii.
#[local] Open Scope Z_scope.

(** ** Tables *)

Inductive InboundStatus : Type := accepted | processing | committed | failed.

Inductive TurnStatus : Type := turn_processing | turn_committed | turn_failed | turn_needs_confirmation.

#[export] Instance InboundStatus_eq_dec : EqDecision InboundStatus.
Proof. solve_decision. Defined.
#[export] Instance TurnStatus_eq_dec : EqDecision TurnStatus.
Proof. solve_decision. Defined.

(** A row of [inbound_messages], keyed by tenant and identifier. *)
Record InboundRow : Type := MkInboundRow {
  in_binding_id : string;
  in_app_id : string;
  in_config_version : Z;
  in_channel : Channel;
  in_account_id : string;
  in_external_message_id : string;
  in_principal_id : string;
  in_session_id : string;
  in_request_id : string;
  in_trace_id : string;
  in_envelope : InboundEnvelope;
  in_provider_event_hash : option string;
  in_status : InboundStatus;
  in_accepted_at : Z;
  in_delivery_count : Z;
}.

#[export] Instance InboundRow_settable : Settable InboundRow := fun r =>
  MkInboundRow (in_binding_id r) (in_app_id r) (in_config_version r) (in_channel r) (in_account_id r)
    (in_external_message_id r) (in_principal_id r) (in_session_id r) (in_request_id r) (in_trace_id r)
    (in_envelope r) (in_provider_event_hash r) (in_status r) (in_accepted_at r) (in_delivery_count r).

(** A row of [sessions]. *)
Record SessionRecord : Type := MkSessionRecord {
  sr_app_id : string;
  sr_principal_id : string;
  sr_state : gmap string pyval;
  sr_version : Z;
  sr_next_sequence : Z;
  sr_lease_epoch : Z;
  sr_lease_owner : option string;
  sr_lease_expires_at : option Z;
  sr_updated_at : Z;
}.

#[export] Instance SessionRecord_settable : Settable SessionRecord := fun r =>
  MkSessionRecord (sr_app_id r) (sr_principal_id r) (sr_state r) (sr_version r) (sr_next_sequence r)
    (sr_lease_epoch r) (sr_lease_owner r) (sr_lease_expires_at r) (sr_updated_at r).

(** A row of [session_turns]. *)
Record TurnRecord : Type := MkTurnRecord {
  tu_session_id : string;
  tu_inbound_id : string;
  tu_config_version : Z;
  tu_status : TurnStatus;
  tu_fencing_token : Z;
  tu_attempt : Z;
  tu_error_type : option string;
  tu_started_at : Z;
  tu_committed_at : option Z;
}.

#[export] Instance TurnRecord_settable : Settable TurnRecord := fun r =>
  MkTurnRecord (tu_session_id r) (tu_inbound_id r) (tu_config_version r) (tu_status r) (tu_fencing_token r)
    (tu_attempt r) (tu_error_type r) (tu_started_at r) (tu_committed_at r).

(** A row of [session_events]. *)
Record HistoryRow : Type := MkHistoryRow { hi_turn_id : string; hi_event : StoredEvent }.

(** A row of [channel_identities]. *)
Record IdentityRow : Type := MkIdentityRow { ci_principal_id : string; ci_last_seen_at : Z }.

(** What an acceptance writes to [audit_logs]. *)
Record AcceptanceAudit : Type := MkAcceptanceAudit {
  aa_tenant_id : string;
  aa_channel : Channel;
  aa_user_id : string;
  aa_session_id : string;
  aa_trace_id : string;
  aa_config_version : Z;
  aa_idempotency_key : string;
}.

(** The wake-ups of [outbox_events] are in [pr_ready], its other rows in [pr_delivery].  Apps,
    revisions and bindings are what foreign keys refer to. *)
Record PgRepo : Type := MkPgRepo {
  pr_tenants : gset string;
  pr_apps : gset id_key;
  pr_revisions : gset (id_key * Z);
  pr_bindings : gset id_key;
  pr_inbound : gmap id_key InboundRow;
  pr_identities : gmap (id_key * string) IdentityRow;
  pr_audit : list AcceptanceAudit;
  pr_mailboxes : gmap session_key SessionMailbox;
  pr_items : gmap session_key (gmap Z MailboxItem);
  pr_resolved_at : gmap (session_key * Z) Z;
  pr_ready : list ReadyRow;
  pr_sessions : gmap session_key SessionRecord;
  pr_turns : gmap id_key TurnRecord;
  pr_events : gmap session_key (gmap Z HistoryRow);
  pr_delivery : PgDelivery;
}.

#[export] Instance PgRepo_settable : Settable PgRepo := fun s =>
  MkPgRepo (pr_tenants s) (pr_apps s) (pr_revisions s) (pr_bindings s) (pr_inbound s) (pr_identities s)
    (pr_audit s) (pr_mailboxes s) (pr_items s) (pr_resolved_at s) (pr_ready s) (pr_sessions s) (pr_turns s)
    (pr_events s) (pr_delivery s).

(** ** The tables of the mailbox store *)

Definition lease_columns (r : SessionRecord) : SessionRow :=
  MkSessionRow (sr_lease_owner r) (sr_lease_expires_at r).

Definition box_of (s : PgRepo) : PgStore :=
  MkPgStore (pr_tenants s) (dom (pr_inbound s)) (pr_mailboxes s) (pr_items s) (pr_resolved_at s) (pr_ready s)
    (lease_columns <$> pr_sessions s).

Definition put_box (t : PgStore) (s : PgRepo) : PgRepo :=
  s <| pr_mailboxes := pg_mailboxes t |> <| pr_items := pg_items t |> <| pr_resolved_at := pg_resolved_at t |>
    <| pr_ready := pg_ready t |>.

(** A statement, or a method of [self._mailbox_store]. *)
Definition box {A} (m : M PgStore A) : M PgRepo A := zoom box_of put_box m.

Definition deliver {A} (m : M PgDelivery A) : M PgRepo A :=
  zoom pr_delivery (fun d s => s <| pr_delivery := d |>) m.

(** ** Parameters *)

(** [hashlib.sha256(material).hexdigest()]. *)
Class Sha256 : Type := sha256_hex : string -> string.

(** What asyncpg sends for a text where the statement has a [uuid] parameter. *)
Class PgUuid : Type := uuid_param : string -> option string.

(** ** Statements *)

Definition nul : string := String "000"%char EmptyString.

Definition hex_char (c : ascii) : bool := byte_in 48 57 c || byte_in 97 102 c.

(** The CHECK on [provider_event_hash]. *)
Definition hash_check (s : string) : bool := (str_len s =? 64) && string_all hex_char s.

Definition update_inbound (key : id_key) (cond : InboundRow -> bool) (f : InboundRow -> InboundRow) : M PgRepo (option InboundRow) :=
  let* row := gets (fun s => pr_inbound s !! key) in
  match row with
  | Some r =>
    if cond r then modify (fun s => s <| pr_inbound := <[key := f r]> (pr_inbound s) |>) ;; ret (Some (f r)) else ret None
  | None => ret None
  end.

Definition update_session (key : session_key) (cond : SessionRecord -> bool) (f : SessionRecord -> SessionRecord)
    : M PgRepo (option SessionRecord) :=
  let* row := gets (fun s => pr_sessions s !! key) in
  match row with
  | Some r =>
    if cond r then modify (fun s => s <| pr_sessions := <[key := f r]> (pr_sessions s) |>) ;; ret (Some (f r)) else ret None
  | None => ret None
  end.

Definition update_turn (key : id_key) (cond : TurnRecord -> bool) (f : TurnRecord -> TurnRecord) : M PgRepo unit :=
  let* row := gets (fun s => pr_turns s !! key) in
  match row with
  | Some r => if cond r then modify (fun s => s <| pr_turns := <[key := f r]> (pr_turns s) |>) else ret tt
  | None => ret tt
  end.

(** The row of a tenant that a unique index finds. *)
Definition find_inbound (tenant_id : string) (test : InboundRow -> bool) (s : PgRepo) : option (id_key * InboundRow) :=
  List.find (fun x => bool_decide (x.1.1 = tenant_id) && test x.2) (map_to_list (pr_inbound s)).

Definition find_turn (tenant_id inbound_id : string) (s : PgRepo) : option (id_key * TurnRecord) :=
  List.find (fun x => bool_decide (x.1.1 = tenant_id) && bool_decide (tu_inbound_id x.2 = inbound_id)) (map_to_list (pr_turns s)).

Definition history (key : session_key) (s : PgRepo) : gmap Z HistoryRow := default ∅ (pr_events s !! key).

(** [owner] and [epoch] hold the session until after [now]. *)
Definition holds_session (worker_id : string) (fencing_token now : Z) (r : SessionRecord) : bool :=
  bool_decide (sr_lease_owner r = Some worker_id) && (sr_lease_epoch r =? fencing_token) && after (sr_lease_expires_at r) now.

(** [lease_owner=NULL, lease_expires_at=NULL, updated_at=...]. *)
Definition free_session (now : Z) (r : SessionRecord) : SessionRecord :=
  r <| sr_lease_owner := None |> <| sr_lease_expires_at := None |> <| sr_updated_at := now |>.

Abbreviation lease_key lease := (sl_tenant_id lease, sl_session_id lease).

Definition assertion_error : exn := RuntimeError "AssertionError".

Section pg_turns.
Context `{Env} `{UuidText} `{PgUuid} `{Sha256} `{EnvelopeDump}.

Definition db_clock : M PgRepo Z := datetime_now.

(** [async with self._tenant_transaction(tenant_id)]: the body is given [now()]. *)
Definition tenant_transaction {A} (body : Z -> M PgRepo A) : M PgRepo A :=
  rollback (let* now := datetime_now in body now).

(** [UUID(text)], and [$n::uuid] with a text. *)
Definition py_uuid (text : string) : M PgRepo string :=
  match parse_uuid text with
  | Some u => ret u
  | None => raise (ValueError "badly formed hexadecimal UUID string")
  end.

Definition sql_uuid (text : string) : M PgRepo string :=
  match uuid_param text with
  | Some u => ret u
  | None => raise (ValueError "invalid input for query argument")
  end.

(** [INSERT INTO outbox_events], except wake-ups; rows of outbound messages have a unique index
    among those that are not published. *)
Definition active_outbound (tenant_id aggregate_id event_type : string) (x : id_key * EventRow) : bool :=
  bool_decide (x.1.1 = tenant_id) && bool_decide (ev_aggregate_id x.2 = aggregate_id)
  && bool_decide (ev_event_type x.2 = event_type) && unpublished x.2.

Definition insert_event (tenant_id aggregate_id event_type : string) (outbound : bool) (payload : gmap string pyval)
    (trace_headers : gmap string string) (now : Z) : M PgRepo unit :=
  let* outbox_id := uuid4 in
  let* outbox := gets (fun s => pd_outbox (pr_delivery s)) in
  raise_if (is_some (outbox !! (tenant_id, outbox_id))) (IntegrityError "outbox_events_pkey") ;;
  raise_if (outbound && existsb (active_outbound tenant_id aggregate_id event_type) (map_to_list outbox))
    (IntegrityError "uq_outbox_active_outbound") ;;
  deliver (modify (fun d => d <| pd_outbox := <[(tenant_id, outbox_id) :=
    MkEventRow aggregate_id event_type payload trace_headers 0 now None None None None now]> (pd_outbox d) |>)).

(** ** Acceptance *)

(** [material] of [_im_provider_event_hash]; [Channel] has no other value. *)
Definition _im_provider_event_hash (tenant_id binding_id : string) (channel : Channel) (external_message_id : string) : string :=
  sha256_hex
    match channel with
    | FEISHU => "trpc.feishu.callback.message-id.v1" +:+ nul +:+ external_message_id
    | WECOM_AI_BOT => "trpc-wecom-evidence-v1" +:+ nul +:+ "provider-event" +:+ nul +:+ tenant_id +:+ nul +:+ binding_id
        +:+ nul +:+ external_message_id
    end.

Definition _acceptance (key : id_key) (row : InboundRow) : M PgRepo Acceptance :=
  let* context := make_TenantContext key.1 (in_app_id row) (in_config_version row) (in_binding_id row) (in_principal_id row)
                    (in_session_id row) (in_request_id row) (in_trace_id row) in
  ret (MkAcceptance key.2 context (in_envelope row) (in_accepted_at row) false).

(** The unique key of a provider message. *)
Definition same_message (envelope : InboundEnvelope) (r : InboundRow) : bool :=
  bool_decide (in_channel r = ie_channel envelope) && bool_decide (in_account_id r = ie_account_id envelope)
  && bool_decide (in_external_message_id r = ie_external_message_id envelope).

Definition same_event (binding_id hash : string) (r : InboundRow) : bool :=
  bool_decide (in_binding_id r = binding_id) && bool_decide (in_provider_event_hash r = Some hash).

Definition inbound_row (context : TenantContext) (envelope : InboundEnvelope) (hash : string) (now : Z) : InboundRow :=
  MkInboundRow (tc_channel_binding_id context) (tc_app_id context) (tc_config_version context) (ie_channel envelope)
    (ie_account_id envelope) (ie_external_message_id envelope) (tc_principal_id context) (tc_session_id context)
    (tc_request_id context) (tc_trace_id context) envelope (Some hash) accepted now 1.

(** [INSERT INTO inbound_messages ... ON CONFLICT (...) DO NOTHING RETURNING *]. *)
Definition insert_inbound (context : TenantContext) (envelope : InboundEnvelope) (inbound_id hash : string) (now : Z)
    : M PgRepo (option InboundRow) :=
  let t := tc_tenant_id context in
  raise_if (negb (hash_check hash)) (IntegrityError "inbound_messages_provider_event_hash_check") ;;
  let* conflict := gets (find_inbound t (same_message envelope)) in
  match conflict with
  | Some _ => ret None
  | None =>
    let* s := gets id in
    raise_if (is_some (pr_inbound s !! (t, inbound_id))) (IntegrityError "inbound_messages_pkey") ;;
    raise_if (is_some (find_inbound t (same_event (tc_channel_binding_id context) hash) s))
      (IntegrityError "ux_inbound_provider_event_hash") ;;
    raise_if (bool_decide (t ∉ pr_tenants s)) (IntegrityError "inbound_messages_tenant_id_fkey") ;;
    raise_if (bool_decide ((t, tc_channel_binding_id context) ∉ pr_bindings s)) (IntegrityError "inbound_messages_binding_fkey") ;;
    raise_if (bool_decide ((t, tc_app_id context, tc_config_version context) ∉ pr_revisions s))
      (IntegrityError "inbound_messages_config_fkey") ;;
    let row := inbound_row context envelope hash now in
    modify (fun s => s <| pr_inbound := <[(t, inbound_id) := row]> (pr_inbound s) |>) ;;
    ret (Some row)
  end.

(** A provider message that is there already is counted, if it came through the same binding. *)
Definition repeat_inbound (context : TenantContext) (envelope : InboundEnvelope) (hash : string) : M PgRepo Acceptance :=
  let t := tc_tenant_id context in
  let* found := gets (find_inbound t (fun r => same_message envelope r
    && bool_decide (in_binding_id r = tc_channel_binding_id context)
    && match in_provider_event_hash r with Some h => bool_decide (h = hash) | None => true end)) in
  match found with
  | None => raise assertion_error
  | Some (key, r) =>
    let* taken := gets (fun s => is_some (find_inbound t (same_event (in_binding_id r) hash) s)) in
    raise_if (negb (is_some (in_provider_event_hash r)) && taken) (IntegrityError "ux_inbound_provider_event_hash") ;;
    let* existing := update_inbound key (fun _ => true) (fun r => r
      <| in_delivery_count := in_delivery_count r + 1 |>
      <| in_provider_event_hash := Some (default hash (in_provider_event_hash r)) |>) in
    let* acceptance := _acceptance key (default r existing) in
    ret (acceptance <| acc_duplicate := true |>)
  end.

(** The identity of the sender and the audit record of a new message. *)
Definition note_inbound (context : TenantContext) (envelope : InboundEnvelope) (now seen_at : Z) : M PgRepo unit :=
  let t := tc_tenant_id context in
  let key := ((t, tc_channel_binding_id context), tc_principal_id context) in
  let* known := gets (fun s => pr_identities s !! key) in
  let* s := gets id in
  raise_if (negb (is_some known) && existsb (fun x => bool_decide (x.1.1.1 = t) && bool_decide (ci_principal_id x.2 = tc_principal_id context))
                                      (map_to_list (pr_identities s)))
    (IntegrityError "channel_identities_tenant_id_principal_id_key") ;;
  raise_if (negb (is_some known) && bool_decide ((t, tc_channel_binding_id context) ∉ pr_bindings s))
    (IntegrityError "channel_identities_binding_fkey") ;;
  modify (fun s => s <| pr_identities := <[key :=
      match known with
      | Some row => MkIdentityRow (ci_principal_id row) seen_at
      | None => MkIdentityRow (tc_principal_id context) now
      end]> (pr_identities s) |>
    <| pr_audit := pr_audit s ++ [MkAcceptanceAudit t (ie_channel envelope) (tc_principal_id context) (tc_session_id context)
         (tc_trace_id context) (tc_config_version context) (ie_external_message_id envelope)] |>).

Definition accept_inbound (context : TenantContext) (envelope : InboundEnvelope) (trace_headers : gmap string string)
    : M PgRepo Acceptance :=
  let* inbound_id := uuid4 in
  let hash := _im_provider_event_hash (tc_tenant_id context) (tc_channel_binding_id context) (ie_channel envelope)
                (ie_external_message_id envelope) in
  tenant_transaction (fun now =>
    let* row := insert_inbound context envelope inbound_id hash now in
    match row with
    | None => repeat_inbound context envelope hash
    | Some row =>
      note_inbound context envelope now now ;;
      insert_event (tc_tenant_id context) inbound_id "inbound.accepted" false
        {["tenant_id"%string := PStr (tc_tenant_id context); "inbound_id"%string := PStr inbound_id]} trace_headers now ;;
      _acceptance (tc_tenant_id context, inbound_id) row
    end).

(** The mailbox half of [accept_inbound_v2]: append the message to the locked row of its session. *)
Definition append_row (key : session_key) (mailbox : SessionMailbox) (inbound_id trace_id : string) (trace_headers : gmap string string)
    (priority : Z) (retry_at : option Z) : M PgStore unit :=
  let* server_now := clock_timestamp in
  let previous_status := mb_status mailbox in
  let '(status, next_retry_at) := accepted_status mailbox retry_at server_now in
  let ready := bool_decide (status = QUEUED) && (bool_decide (previous_status = IDLE) || bool_decide (previous_status = RETRY_WAIT)) in
  let sequence := mb_accepted_sequence mailbox + 1 in
  let* accepted_at := clock_timestamp in
  let* taken := fetch_item key sequence in
  raise_if (is_some taken) (IntegrityError "session_mailbox_items_pkey") ;;
  let* present := gets (fun s => has_inbound inbound_id (pg_items_of key s)) in
  raise_if present (IntegrityError "session_mailbox_items_inbound_key") ;;
  let* inbound := gets pg_inbound in
  raise_if (bool_decide ((key.1, inbound_id) ∉ inbound)) (IntegrityError "session_mailbox_items_inbound_fkey") ;;
  put_pg_item key sequence (MkMailboxItem key.1 key.2 inbound_id sequence trace_id priority 0 0 retry_at accepted_at) ;;
  let* updated_at := clock_timestamp in
  let changed := mailbox
    <| mb_accepted_sequence := sequence |> <| mb_status := status |> <| mb_queue_generation := mb_queue_generation mailbox + (if ready then 1 else 0) |>
    <| mb_priority := Z.max (mb_priority mailbox) priority |> <| mb_retry_at := next_retry_at |> <| mb_updated_at := updated_at |> in
  put_row key changed ;;
  if ready then insert_ready changed priority trace_id trace_headers else ret tt.

Definition append_item (key : session_key) (inbound_id trace_id : string) (trace_headers : gmap string string) (priority : Z)
    (retry_at : option Z) : M PgStore unit :=
  let* mailbox := ensure_row key in
  append_row key mailbox inbound_id trace_id trace_headers priority retry_at.

Definition accept_inbound_v2 (context : TenantContext) (envelope : InboundEnvelope) (trace_headers : gmap string string)
    (priority : Z) (retry_at : option Z) : M PgRepo Acceptance :=
  _validate_priority priority ;;
  let* inbound_id := uuid4 in
  let hash := _im_provider_event_hash (tc_tenant_id context) (tc_channel_binding_id context) (ie_channel envelope)
                (ie_external_message_id envelope) in
  tenant_transaction (fun now =>
    let* row := insert_inbound context envelope inbound_id hash now in
    match row with
    | None => repeat_inbound context envelope hash
    | Some row =>
      let* seen_at := db_clock in
      note_inbound context envelope now seen_at ;;
      box (append_item (tc_tenant_id context, tc_session_id context) inbound_id (str_or (Some (tc_trace_id context)) inbound_id)
             trace_headers priority retry_at) ;;
      _acceptance (tc_tenant_id context, inbound_id) row
    end).

(** ** Reading *)

Definition get_acceptance (tenant_id inbound_id : string) : M PgRepo (option Acceptance) :=
  let* row := tenant_transaction (fun _ =>
    let* id := py_uuid inbound_id in
    gets (fun s => (fun r => ((tenant_id, id), r)) <$> pr_inbound s !! (tenant_id, id))) in
  match row with
  | None => ret None
  | Some (key, r) =>
    let* acceptance := _acceptance key r in
    ret (Some (if bool_decide (in_status r = committed) then acceptance <| acc_duplicate := true |> else acceptance))
  end.

(** [SELECT ... FROM session_events ... ORDER BY sequence], and [SequencedEvent(...)]. *)
Definition ordered_history (key : session_key) (s : PgRepo) : list (Z * HistoryRow) :=
  sorted_by Z.le fst (map_to_list (history key s)).

Fixpoint read_events (rows : list (Z * HistoryRow)) : M PgRepo (list SequencedEvent) :=
  match rows with
  | [] => ret []
  | (n, r) :: rest =>
    raise_if (n <? 1) (ValidationError "SequencedEvent") ;;
    let* events := read_events rest in
    ret (MkSequencedEvent (hi_event r) n :: events)
  end.

(** [SessionSnapshot(...)]: [version] is [ge=0], [next_sequence] is [ge=1]. *)
Definition make_snapshot (key : session_key) (r : SessionRecord) (state : gmap string pyval) (events : list SequencedEvent)
    : M PgRepo SessionSnapshot :=
  raise_if ((sr_version r <? 0) || (sr_next_sequence r <? 1)) (ValidationError "SessionSnapshot") ;;
  ret (MkSessionSnapshot key.1 (sr_app_id r) key.2 (sr_principal_id r) (sr_version r) (sr_next_sequence r) state events).

Definition get_session_snapshot (tenant_id session_id : string) : M PgRepo (option SessionSnapshot) :=
  let key := (tenant_id, session_id) in
  let* found := tenant_transaction (fun _ =>
    let* session := gets (fun s => pr_sessions s !! key) in
    let* rows := gets (ordered_history key) in
    ret ((fun r => (r, rows)) <$> session)) in
  match found with
  | None => ret None
  | Some (session, rows) =>
    let* events := read_events rows in
    let* snapshot := make_snapshot key session (sr_state session) events in
    ret (Some snapshot)
  end.

(** ** The mailbox store of the repository *)

Definition accept_mailbox (tenant_id session_id inbound_id : string) (priority : Z) (retry_at : option Z) (trace_id : option string)
    : M PgRepo SessionMailbox :=
  box (pg_accept tenant_id session_id inbound_id priority retry_at trace_id).

Definition claim_mailbox (tenant_id session_id owner_id : string) (lease_for : Z) (expected_generation expected_epoch : option Z)
    (acceptance : option Acceptance) : M PgRepo SessionClaim :=
  box (pg_claim_session tenant_id session_id owner_id lease_for expected_generation expected_epoch acceptance).

Definition renew_mailbox (lease : MailboxLease) (lease_for : Z) : M PgRepo MailboxLease := box (pg_renew lease lease_for).

Definition renew_mailboxes (leases : list MailboxLease) (lease_for : Z) : M PgRepo (list MailboxLease) :=
  box (pg_renew_many leases lease_for).

Definition commit_mailbox (lease : MailboxLease) : M PgRepo SessionMailbox := box (pg_commit lease).

Definition reschedule_mailbox (lease : MailboxLease) (retry_at priority : option Z) : M PgRepo SessionMailbox :=
  box (pg_reschedule lease retry_at priority).

Definition retry_mailbox (lease : MailboxLease) (retry_at priority : option Z) : M PgRepo SessionMailbox :=
  box (pg_retry lease retry_at priority).

Definition recover_mailbox (tenant_id session_id : string) : M PgRepo (option SessionMailbox) := box (pg_recover tenant_id session_id).

Definition reconcile_mailbox (replay_cooldown : Z) (tenant_id session_id : string) : M PgRepo (option SessionMailbox) :=
  box (pg_reconcile replay_cooldown tenant_id session_id).

(** ** Statements of the turns *)

(** [INSERT INTO sessions ... ON CONFLICT DO NOTHING] and the row. *)
Definition ensure_session (key : session_key) (app_id principal_id : string) (now : Z) : M PgRepo SessionRecord :=
  let* row := gets (fun s => pr_sessions s !! key) in
  match row with
  | Some r => ret r
  | None =>
    let* s := gets id in
    raise_if (bool_decide (key.1 ∉ pr_tenants s)) (IntegrityError "sessions_tenant_id_fkey") ;;
    raise_if (bool_decide ((key.1, app_id) ∉ pr_apps s)) (IntegrityError "sessions_tenant_id_app_id_fkey") ;;
    let r := MkSessionRecord app_id principal_id ∅ 0 1 0 None None now in
    modify (fun s => s <| pr_sessions := <[key := r]> (pr_sessions s) |>) ;;
    ret r
  end.

(** [INSERT INTO session_turns]; the session and the message are rows that were read before. *)
Definition insert_turn (tenant_id turn_id : string) (row : TurnRecord) : M PgRepo unit :=
  let* s := gets id in
  raise_if (is_some (pr_turns s !! (tenant_id, turn_id))) (IntegrityError "session_turns_pkey") ;;
  raise_if (is_some (find_turn tenant_id (tu_inbound_id row) s)) (IntegrityError "session_turns_tenant_id_inbound_id_key") ;;
  modify (fun s => s <| pr_turns := <[(tenant_id, turn_id) := row]> (pr_turns s) |>).

(** A new turn, or another attempt of the turn of the message; the answer is its identifier. *)
Definition start_turn (key : session_key) (inbound_id : string) (config_version epoch attempt : Z) (turn : option (id_key * TurnRecord))
    (now : Z) : M PgRepo string :=
  match turn with
  | None =>
    let* turn_id := uuid4 in
    insert_turn key.1 turn_id (MkTurnRecord key.2 inbound_id config_version turn_processing epoch attempt None now None) ;;
    ret turn_id
  | Some (turn_key, _) =>
    let* started_at := db_clock in
    update_turn turn_key (fun _ => true) (fun r => r <| tu_status := turn_processing |> <| tu_fencing_token := epoch |>
      <| tu_attempt := attempt |> <| tu_error_type := None |> <| tu_started_at := started_at |>) ;;
    ret turn_key.2
  end.

Definition take_session (key : session_key) (epoch : Z) (owner_id : string) (lease_for : Z) : M PgRepo unit :=
  let* now := db_clock in
  update_session key (fun _ => true) (fun r => r <| sr_lease_epoch := epoch |> <| sr_lease_owner := Some owner_id |>
    <| sr_lease_expires_at := Some (now + lease_for) |> <| sr_updated_at := now |>) ;;
  ret tt.

Definition set_inbound (key : id_key) (cond : InboundRow -> bool) (status : InboundStatus) : M PgRepo unit :=
  update_inbound key cond (fun r => r <| in_status := status |>) ;;
  ret tt.

Definition in_processing (r : InboundRow) : bool := bool_decide (in_status r = processing).
Definition turn_in_processing (r : TurnRecord) : bool := bool_decide (tu_status r = turn_processing).

(** The mailbox after its item [sequence] is resolved, with the wake-up of the next one. *)
Definition next_mailbox (mailbox : SessionMailbox) (sequence : Z) (status : MailboxStatus) (retry_at : option Z) (increment now : Z)
    : SessionMailbox :=
  clear_lease mailbox <| mb_resolved_sequence := sequence |> <| mb_status := status |> <| mb_retry_at := retry_at |>
    <| mb_queue_generation := mb_queue_generation mailbox + increment |> <| mb_updated_at := now |>.

Definition wake_next (status : MailboxStatus) (row : SessionMailbox) (next_item : option MailboxItem) : M PgStore unit :=
  match next_item with
  | Some item =>
    if bool_decide (status = QUEUED) then _emit_ready_outbox row (mi_trace_id item) (mi_inbound_id item) (mi_priority item) else ret tt
  | None => ret tt
  end.

(** The common end of [fail_session_ready] and [_resolve_mailbox_item]: [server_now] was read before. *)
Definition advance_mailbox (key : session_key) (mailbox : SessionMailbox) (sequence server_now : Z) : M PgStore SessionMailbox :=
  let* next_item := fetch_item key (sequence + 1) in
  let '(status, retry_at, increment) := next_status next_item server_now in
  let* updated_at := clock_timestamp in
  let row := next_mailbox mailbox sequence status retry_at increment updated_at in
  put_row key row ;;
  wake_next status row next_item ;;
  ret row.

Definition _resolve_mailbox_item (key : session_key) (mailbox : SessionMailbox) (sequence server_now : Z) : M PgRepo SessionMailbox :=
  let* resolved_at := db_clock in
  box (modify (fun s => s <| pg_resolved_at :=
    <[(key, sequence) := default resolved_at (pg_resolved_at s !! (key, sequence))]> (pg_resolved_at s) |>)) ;;
  let* now := db_clock in
  update_session key (fun r => bool_decide (sr_lease_owner r = mb_lease_owner mailbox) && (sr_lease_epoch r =? mb_lease_epoch mailbox))
    (free_session now) ;;
  box (advance_mailbox key mailbox sequence server_now).

(** ** Claiming a session *)

(** The wake-up of the session that the caller names; its generation must be the expected one. *)
Definition ready_event (tenant_id session_id event_id : string) (s : PgRepo) : option ReadyRow :=
  List.find (fun r => bool_decide (rr_tenant_id r = tenant_id) && bool_decide (rr_outbox_id r = event_id)
                      && bool_decide (rr_session_id r = session_id)) (pr_ready s).

Definition event_generation (expected_generation : option Z) (event : option ReadyRow) : option Z :=
  match event with
  | None => None
  | Some r =>
    if (rr_generation r <? 1) || match expected_generation with Some g => negb (rr_generation r =? g) | None => false end
    then None else Some (rr_generation r)
  end.

(** The lease of a claimed turn, whose snapshot has no history yet. *)
Definition claim_result (key : session_key) (owner_id turn_id : string) (sequence epoch attempt : Z) (item : MailboxItem)
    (session : SessionRecord) (row : SessionMailbox) (expires_at : Z) (acceptance : option Acceptance) : M PgRepo SessionClaim :=
  let* snapshot := make_snapshot key session ∅ [] in
  let* execution := make_SessionLease key.1 key.2 turn_id (mi_inbound_id item) owner_id epoch expires_at attempt snapshot in
  let* lease := make_MailboxLease key.1 key.2 (mi_inbound_id item) sequence owner_id epoch expires_at attempt (mi_retry_count item)
                  (mi_priority item) in
  ret (MkSessionClaim CLAIMED row (Some lease) acceptance (Some (execution <| sl_snapshot_hydrated := false |>))).

(** The item and the mailbox of a claimed turn; the answer is the row and the end of its lease. *)
Definition claim_row (key : session_key) (owner_id : string) (lease_for : Z) (mailbox : SessionMailbox) (sequence : Z) (item : MailboxItem)
    (epoch : Z) : M PgStore (SessionMailbox * Z) :=
  put_pg_item key sequence (item <| mi_attempt := mi_attempt item + 1 |>) ;;
  let* claimed_at := clock_timestamp in
  let row := mailbox <| mb_status := RUNNING |> <| mb_processing_sequence := Some sequence |>
    <| mb_processing_inbound_id := Some (mi_inbound_id item) |> <| mb_lease_owner := Some owner_id |> <| mb_lease_epoch := epoch |>
    <| mb_lease_expires_at := Some (claimed_at + lease_for) |> <| mb_attempt := mi_attempt item + 1 |>
    <| mb_retry_count := mi_retry_count item |> <| mb_priority := mi_priority item |> <| mb_retry_at := None |>
    <| mb_updated_at := claimed_at |> in
  put_row key row ;;
  ret (row, claimed_at + lease_for).

(** The claim of a message whose turn may run: the turn, the session, the item, the mailbox and the
    message, in this order. *)
Definition grant_turn (key : session_key) (owner_id : string) (lease_for : Z) (mailbox : SessionMailbox) (sequence : Z) (item : MailboxItem)
    (inbound : InboundRow) (turn : option (id_key * TurnRecord)) (session : SessionRecord) (acceptance : option Acceptance) (now : Z)
    : M PgRepo SessionClaim :=
  let epoch := Z.max (mb_lease_epoch mailbox) (sr_lease_epoch session) + 1 in
  let attempt := mi_attempt item + 1 in
  let* turn_id := start_turn key (mi_inbound_id item) (in_config_version inbound) epoch attempt turn now in
  take_session key epoch owner_id lease_for ;;
  let* claimed_row := box (claim_row key owner_id lease_for mailbox sequence item epoch) in
  let '(row, expires_at) := claimed_row in
  set_inbound (key.1, mi_inbound_id item) (fun _ => true) processing ;;
  claim_result key owner_id turn_id sequence epoch attempt item session row expires_at acceptance.

Definition claim_outcome (status : MailboxClaimStatus) (mailbox : SessionMailbox) (acceptance : option Acceptance) : SessionClaim :=
  MkSessionClaim status mailbox None acceptance None.

(** The head waits for its retry time. *)
Definition wait_row (key : session_key) (mailbox : SessionMailbox) (item : MailboxItem) : M PgStore SessionMailbox :=
  let* updated_at := clock_timestamp in
  let row := mailbox <| mb_status := RETRY_WAIT |> <| mb_retry_at := mi_retry_at item |> <| mb_updated_at := updated_at |> in
  put_row key row ;;
  ret row.

(** From the locked item on. *)
Definition claim_item (key : session_key) (owner_id : string) (lease_for : Z) (mailbox : SessionMailbox) (sequence : Z) (item : MailboxItem)
    (server_now : Z) (acceptance : option Acceptance) (now : Z) : M PgRepo SessionClaim :=
  let empty := fun mb => claim_outcome EMPTY mb acceptance in
  if after (mi_retry_at item) server_now then
    let* row := box (wait_row key mailbox item) in
    ret (empty row)
  else
    let* inbound := gets (fun s => pr_inbound s !! (key.1, mi_inbound_id item)) in
    match inbound with
    | None => ret (empty mailbox)
    | Some inbound =>
      if bool_decide (in_status inbound = committed) then
        let* resolved := _resolve_mailbox_item key mailbox sequence server_now in
        ret (empty resolved)
      else
        let* turn := gets (find_turn key.1 (mi_inbound_id item)) in
        let* session := ensure_session key (in_app_id inbound) (in_principal_id inbound) now in
        if is_some (sr_lease_owner session) && after (sr_lease_expires_at session) server_now
        then ret (claim_outcome CLAIM_RUNNING mailbox acceptance)
        else if match turn with Some (_, t) => bool_decide (tu_status t = turn_committed) | None => false end then
          let* resolved := _resolve_mailbox_item key mailbox sequence server_now in
          ret (empty resolved)
        else grant_turn key owner_id lease_for mailbox sequence item inbound turn session acceptance now
    end.

(** From the authenticated wake-up on. *)
Definition claim_generation (key : session_key) (owner_id : string) (lease_for expected_generation : Z) (acceptance : option Acceptance)
    (now : Z) : M PgRepo SessionClaim :=
  let* mailbox := box (fetch_row key) in
  match mailbox with
  | None =>
    let* created_at := datetime_now in
    ret (claim_outcome (if expected_generation =? 0 then EMPTY else STALE) (new_mailbox key.1 key.2 created_at) acceptance)
  | Some mailbox =>
    if negb (mb_queue_generation mailbox =? expected_generation) then ret (claim_outcome STALE mailbox acceptance)
    else
      let* server_now := db_clock in
      if after (mb_lease_expires_at mailbox) server_now then ret (claim_outcome CLAIM_RUNNING mailbox acceptance)
      else
        let sequence := int_or (mb_processing_sequence mailbox) (mb_resolved_sequence mailbox + 1) in
        if mb_accepted_sequence mailbox <? sequence then ret (claim_outcome EMPTY mailbox acceptance)
        else
          let* item := box (fetch_item key sequence) in
          match item with
          | None => ret (claim_outcome EMPTY mailbox acceptance)
          | Some item => claim_item key owner_id lease_for mailbox sequence item server_now acceptance now
          end
  end.

(** A wake-up without its identifier, or with one that is not that of a wake-up, is stale. *)
Definition claim_session_ready (tenant_id session_id owner_id : string) (lease_for : Z) (expected_generation : option Z)
    (expected_event_id : option string) (acceptance : option Acceptance) : M PgRepo SessionClaim :=
  raise_if (lease_for <=? 0) (ValueError "session lease must be positive") ;;
  let stale := let* created_at := datetime_now in ret (claim_outcome STALE (new_mailbox tenant_id session_id created_at) acceptance) in
  match expected_event_id with
  | None => stale
  | Some expected_event_id =>
    tenant_transaction (fun now =>
      match parse_uuid expected_event_id with
      | None => stale
      | Some event_uuid =>
        let* event := gets (ready_event tenant_id session_id event_uuid) in
        match event_generation expected_generation event with
        | None => stale
        | Some generation => claim_generation (tenant_id, session_id) owner_id lease_for generation acceptance now
        end
      end)
  end.

(** ** Renewing *)

(** [greatest(clock_timestamp()+lease_for, lease_expires_at+interval '1 microsecond')]. *)
Definition renewed_until (now lease_for : Z) (expires_at : option Z) : Z := Z.max (now + lease_for) (default now expires_at + 1).

Definition extend_session (lease : SessionLease) (lease_for : Z) : M PgRepo (option SessionRecord) :=
  let* now := db_clock in
  update_session (lease_key lease) (holds_session (sl_worker_id lease) (sl_fencing_token lease) now)
    (fun r => r <| sr_lease_expires_at := Some (renewed_until now lease_for (sr_lease_expires_at r)) |> <| sr_updated_at := now |>).

Definition renew (lease : SessionLease) (lease_for : Z) : M PgRepo SessionLease :=
  let* updated := tenant_transaction (fun _ => extend_session lease lease_for) in
  match updated with
  | None => raise (FencingConflict "session lease is no longer current")
  | Some r => ret (lease <| sl_expires_at := default (sl_expires_at lease) (sr_lease_expires_at r) |>)
  end.

(** The [WHERE] clause of the mailbox row. *)
Definition holds_mailbox (lease : SessionLease) (inbound_id : string) (now : Z) (mb : SessionMailbox) : bool :=
  bool_decide (mb_status mb = RUNNING) && bool_decide (mb_processing_inbound_id mb = Some inbound_id)
  && bool_decide (mb_lease_owner mb = Some (sl_worker_id lease)) && (mb_lease_epoch mb =? sl_fencing_token lease)
  && after (mb_lease_expires_at mb) now.

Definition extend_row (lease : SessionLease) (inbound_id : string) (lease_for : Z) : M PgStore Z :=
  let* now := clock_timestamp in
  let* row := fetch_row (lease_key lease) in
  match row with
  | None => raise (FencingConflict "session mailbox lease is no longer current")
  | Some mb =>
    raise_if (negb (holds_mailbox lease inbound_id now mb)) (FencingConflict "session mailbox lease is no longer current") ;;
    let expires_at := renewed_until now lease_for (mb_lease_expires_at mb) in
    put_row (lease_key lease) (mb <| mb_lease_expires_at := Some expires_at |> <| mb_updated_at := now |>) ;;
    ret expires_at
  end.

Definition renew_session_ready (lease : SessionLease) (lease_for : Z) : M PgRepo SessionLease :=
  raise_if (lease_for <=? 0) (ValueError "session lease must be positive") ;;
  let* updated := tenant_transaction (fun _ =>
    let* inbound_id := sql_uuid (sl_inbound_id lease) in
    let* updated := box (extend_row lease inbound_id lease_for) in
    let* session := extend_session lease lease_for in
    raise_if (negb (is_some session)) (FencingConflict "session lease is no longer current") ;;
    ret updated) in
  ret (lease <| sl_expires_at := updated |>).

(** ** Committing *)

(** One row of [session_events]; its session and turn were locked before. *)
Definition insert_history (key : session_key) (turn_id : string) (sequence : Z) (event : StoredEvent) : M PgRepo unit :=
  let* rows := gets (history key) in
  raise_if (is_some (rows !! sequence)) (IntegrityError "session_events_pkey") ;;
  raise_if (existsb (fun x => bool_decide (se_event_id (hi_event x.2) = se_event_id event)) (map_to_list rows))
    (IntegrityError "session_events_tenant_id_session_id_event_id_key") ;;
  modify (fun s => s <| pr_events := <[key := <[sequence := MkHistoryRow turn_id event]> (history key s)]> (pr_events s) |>).

(** The answer is the next free number. *)
Fixpoint insert_histories (key : session_key) (turn_id : string) (sequence : Z) (events : list StoredEvent) : M PgRepo Z :=
  match events with
  | [] => ret sequence
  | event :: rest =>
    insert_history key turn_id sequence event ;;
    insert_histories key turn_id (sequence + 1) rest
  end.

(** The reply, as an outbound message and an event for the dispatcher. *)
Definition insert_outbound (tenant_id outbound_uuid : string) (outbound : OutboundEnvelope) (now : Z) : M PgRepo unit :=
  let* s := gets id in
  raise_if (is_some (pd_outbound (pr_delivery s) !! (tenant_id, outbound_uuid))) (IntegrityError "outbound_messages_pkey") ;;
  raise_if (bool_decide ((tenant_id, oe_binding_id outbound) ∉ pr_bindings s)) (IntegrityError "outbound_messages_binding_fkey") ;;
  deliver (modify (fun d => d <| pd_outbound := <[(tenant_id, outbound_uuid) := MkMessageRow "pending" None None now]> (pd_outbound d) |>)) ;;
  insert_event tenant_id (oe_outbound_id outbound) (outbound_event_type (oe_channel outbound)) true (model_dump outbound)
    (oe_trace_headers outbound) now.

(** The lease is the last condition of the statement that ends it. *)
Definition close_session (lease : SessionLease) (state : gmap string pyval) (next_sequence : Z) : M PgRepo (option SessionRecord) :=
  let* now := db_clock in
  update_session (lease_key lease) (holds_session (sl_worker_id lease) (sl_fencing_token lease) now)
    (fun r => free_session now r <| sr_state := state |> <| sr_version := sr_version r + 1 |> <| sr_next_sequence := next_sequence |>).

Definition post_turn (lease : SessionLease) (last_sequence now : Z) : M PgRepo unit :=
  insert_event (sl_tenant_id lease) (sl_turn_id lease) "post_turn.ready" false
    {["tenant_id"%string := PStr (sl_tenant_id lease); "session_id"%string := PStr (sl_session_id lease);
      "turn_id"%string := PStr (sl_turn_id lease); "up_to_sequence"%string := PInt last_sequence]} ∅ now.

Definition turn_result (commit : TurnCommit) (first next : Z) : CommitResult :=
  MkCommitResult (sl_turn_id (tn_lease commit))
    (match tn_events commit with [] => None | _ => Some first end)
    (match tn_events commit with [] => None | _ => Some (next - 1) end)
    (oe_outbound_id <$> tn_outbound commit).

(** [_valid_v2_mailbox], but for the sequence, which [lock_mailbox] reads; [commit_session_ready] writes it out. *)
Definition _valid_v2_mailbox (mailbox : option SessionMailbox) (lease : SessionLease) (server_now : Z) : bool :=
  match mailbox with
  | None => false
  | Some mb =>
    bool_decide (mb_status mb = RUNNING) && bool_decide (str_of (mb_processing_inbound_id mb) = sl_inbound_id lease)
    && bool_decide (mb_lease_owner mb = Some (sl_worker_id lease)) && (mb_lease_epoch mb =? sl_fencing_token lease)
    && after (mb_lease_expires_at mb) server_now
  end.

(** The rows of a turn, in the order in which they are locked: mailbox, session, turn, item and message. *)
Record TurnRows : Type := MkTurnRows {
  tw_mailbox : SessionMailbox;
  tw_sequence : Z;
  tw_session : SessionRecord;
  tw_turn : TurnRecord;
  tw_turn_key : id_key;
  tw_item : MailboxItem;
  tw_inbound : InboundRow;
  tw_inbound_key : id_key;
}.

Definition lock_mailbox (lease : SessionLease) (stale missing : exn) : M PgRepo (SessionMailbox * Z * Z) :=
  let* mailbox := box (fetch_row (lease_key lease)) in
  let* server_now := db_clock in
  match mailbox with
  | None => raise stale
  | Some mb =>
    raise_if (negb (_valid_v2_mailbox (Some mb) lease server_now)) stale ;;
    match mb_processing_sequence mb with
    | None => raise missing
    | Some sequence => ret (mb, sequence, server_now)
    end
  end.

Definition lock_turn (lease : SessionLease) (mailbox : SessionMailbox) (sequence : Z) (stale : exn) : M PgRepo TurnRows :=
  let t := sl_tenant_id lease in
  let* session := gets (fun s => pr_sessions s !! lease_key lease) in
  let* turn_id := sql_uuid (sl_turn_id lease) in
  let* turn := gets (fun s => pr_turns s !! (t, turn_id)) in
  let* item := box (fetch_item (lease_key lease) sequence) in
  let* inbound_id := sql_uuid (sl_inbound_id lease) in
  let* inbound := gets (fun s => pr_inbound s !! (t, inbound_id)) in
  match session, turn, item, inbound with
  | Some session, Some turn, Some item, Some inbound =>
    ret (MkTurnRows mailbox sequence session turn (t, turn_id) item inbound (t, inbound_id))
  | _, _, _, _ => raise stale
  end.

(** What [commit], [retry] and [fail] check of the rows in common. *)
Definition turn_current (lease : SessionLease) (rows : TurnRows) (server_now : Z) : bool :=
  holds_session (sl_worker_id lease) (sl_fencing_token lease) server_now (tw_session rows)
  && turn_in_processing (tw_turn rows) && (tu_fencing_token (tw_turn rows) =? sl_fencing_token lease)
  && in_processing (tw_inbound rows).

(** The events and the reply of a committed turn, whose identifier is read by [cast]; the answer is the
    next free sequence number. *)
Definition write_turn (cast : string -> M PgRepo string) (commit : TurnCommit) (turn_key : id_key) (first now : Z) : M PgRepo Z :=
  let lease := tn_lease commit in
  let* next := insert_histories (lease_key lease) turn_key.2 first (tn_events commit) in
  match tn_outbound commit with
  | None => ret tt
  | Some outbound =>
    let* outbound_uuid := cast (oe_outbound_id outbound) in
    insert_outbound (sl_tenant_id lease) outbound_uuid outbound now
  end ;;
  ret next.

(** The mailbox of a committed turn: the clock is read again, and the lease checked again. *)
Definition close_mailbox (lease : SessionLease) (mailbox : SessionMailbox) (sequence : Z) : M PgStore unit :=
  let key := lease_key lease in
  let* resolved_at := clock_timestamp in
  modify (fun s => s <| pg_resolved_at := <[(key, sequence) := resolved_at]> (pg_resolved_at s) |>) ;;
  let* server_now := clock_timestamp in
  let* next_item := fetch_item key (sequence + 1) in
  let '(status, retry_at, increment) := next_status next_item server_now in
  let* updated_at := clock_timestamp in
  raise_if (negb (bool_decide (mb_lease_owner mailbox = Some (sl_worker_id lease)) && (mb_lease_epoch mailbox =? sl_fencing_token lease)
                  && after (mb_lease_expires_at mailbox) updated_at))
    (FencingConflict "mailbox lease expired before commit") ;;
  let row := next_mailbox mailbox sequence status retry_at increment updated_at in
  put_row key row ;;
  wake_next status row next_item.

(** The session, the turn and the message of a committed turn. *)
Definition settle_turn (lease : SessionLease) (rows : TurnRows) (state : gmap string pyval) (next : Z) : M PgRepo unit :=
  let* updated_session := close_session lease state next in
  raise_if (negb (is_some updated_session)) (FencingConflict "session lease expired before commit") ;;
  let* committed_at := db_clock in
  update_turn (tw_turn_key rows) turn_in_processing (fun r => r <| tu_status := turn_committed |>
    <| tu_committed_at := Some committed_at |> <| tu_error_type := None |>) ;;
  set_inbound (tw_inbound_key rows) in_processing committed.

Definition commit_session_ready (commit : TurnCommit) : M PgRepo CommitResult :=
  let lease := tn_lease commit in
  let stale := FencingConflict "stale worker cannot commit this session" in
  tenant_transaction (fun now =>
    let* locked := lock_mailbox lease stale (TypeError "int() argument must be a string or a number") in
    let '(mailbox, sequence_number, _) := locked in
    let* rows := lock_turn lease mailbox sequence_number stale in
    let* server_now := db_clock in
    raise_if (negb (turn_current lease rows server_now && bool_decide (mi_inbound_id (tw_item rows) = sl_inbound_id lease)
                    && bool_decide (tu_inbound_id (tw_turn rows) = sl_inbound_id lease))) stale ;;
    let first := sr_next_sequence (tw_session rows) in
    let* next := write_turn sql_uuid commit (tw_turn_key rows) first now in
    settle_turn lease rows (tn_state commit) next ;;
    box (close_mailbox lease mailbox sequence_number) ;;
    post_turn lease (next - 1) now ;;
    ret (turn_result commit first next)).

(** ** Releasing *)

(** The end of [retry_session_ready] and [fail_session_ready]. *)
Definition leave_session (lease : SessionLease) : M PgRepo unit :=
  let* now := db_clock in
  update_session (lease_key lease)
    (fun r => bool_decide (sr_lease_owner r = Some (sl_worker_id lease)) && (sr_lease_epoch r =? sl_fencing_token lease))
    (free_session now) ;;
  ret tt.

Definition lock_current (lease : SessionLease) (stale : exn) : M PgRepo (TurnRows * Z) :=
  let* locked := lock_mailbox lease stale stale in
  let '(mailbox, sequence, server_now) := locked in
  let* rows := lock_turn lease mailbox sequence stale in
  raise_if (negb (turn_current lease rows server_now)) stale ;;
  ret (rows, server_now).

Definition release_turn (rows : TurnRows) (error_type : string) (status : InboundStatus) : M PgRepo unit :=
  update_turn (tw_turn_key rows) turn_in_processing (fun r => r <| tu_status := turn_failed |> <| tu_error_type := Some error_type |>) ;;
  set_inbound (tw_inbound_key rows) in_processing status.

(** The item and the mailbox of a turn that is tried again. *)
Definition retry_row (key : session_key) (mailbox : SessionMailbox) (sequence : Z) (item : MailboxItem) (delay : Z) : M PgStore unit :=
  let* item_now := clock_timestamp in
  put_pg_item key sequence (item <| mi_retry_count := mi_retry_count item + 1 |> <| mi_retry_at := Some (item_now + delay) |>) ;;
  let* now := clock_timestamp in
  put_row key (clear_lease mailbox <| mb_status := RETRY_WAIT |> <| mb_retry_at := Some (now + delay) |>
    <| mb_retry_count := mb_retry_count mailbox + 1 |> <| mb_updated_at := now |>).

Definition retry_session_ready (lease : SessionLease) (error_type : string) (delay : Z) : M PgRepo unit :=
  raise_if (delay <? 0) (ValueError "retry delay must be non-negative") ;;
  let key := lease_key lease in
  tenant_transaction (fun _ =>
    let* locked := lock_current lease (FencingConflict "stale worker cannot retry this session") in
    let '(rows, _) := locked in
    release_turn rows error_type accepted ;;
    box (retry_row key (tw_mailbox rows) (tw_sequence rows) (tw_item rows) delay) ;;
    leave_session lease).

Definition fail_session_ready (lease : SessionLease) (error_type : string) : M PgRepo unit :=
  let key := lease_key lease in
  tenant_transaction (fun _ =>
    let* locked := lock_current lease (FencingConflict "stale worker cannot fail this session") in
    let '(rows, server_now) := locked in
    release_turn rows error_type failed ;;
    let* resolved_at := db_clock in
    box (modify (fun s => s <| pg_resolved_at := <[(key, tw_sequence rows) := resolved_at]> (pg_resolved_at s) |>)) ;;
    box (advance_mailbox key (tw_mailbox rows) (tw_sequence rows) server_now) ;;
    leave_session lease).

(** ** Version 1 *)

(** [SELECT 1 FROM inbound_messages older LEFT JOIN session_turns turn ...]: a message of the
    session before this one, whose turn is not committed.  UUIDs are compared as their texts. *)
Definition older (key : session_key) (accepted_at : Z) (inbound_id : string) (s : PgRepo) (x : id_key * InboundRow) : bool :=
  bool_decide (x.1.1 = key.1) && bool_decide (in_session_id x.2 = key.2)
  && ((in_accepted_at x.2 <? accepted_at) || ((in_accepted_at x.2 =? accepted_at) && String.ltb x.1.2 inbound_id))
  && match find_turn key.1 x.1.2 s with Some (_, t) => negb (bool_decide (tu_status t = turn_committed)) | None => true end.

(** A mailbox with work left, or one that runs, bars version 1. *)
Definition mailbox_busy (mb : SessionMailbox) : M PgRepo bool :=
  let* running :=
    match mb_status mb, mb_lease_expires_at mb with
    | RUNNING, Some expires => let* now := db_clock in ret (now <? expires)
    | _, _ => ret false
    end in
  ret ((mb_resolved_sequence mb <? mb_accepted_sequence mb) || running).

(** From the free session on. *)
Definition acquire_turn (key : session_key) (inbound_uuid inbound_text worker_id : string) (config_version lease_for server_now : Z)
    (session : SessionRecord) (turn : option (id_key * TurnRecord)) (now : Z) : M PgRepo SessionLease :=
  let epoch := sr_lease_epoch session + 1 in
  let attempt := match turn with Some (_, t) => tu_attempt t + 1 | None => 1 end in
  take_session key epoch worker_id lease_for ;;
  let* turn_id := start_turn key inbound_uuid config_version epoch attempt turn now in
  set_inbound (key.1, inbound_uuid) (fun _ => true) processing ;;
  let* rows := gets (ordered_history key) in
  let* events := read_events rows in
  let* snapshot := make_snapshot key session (sr_state session) events in
  make_SessionLease key.1 key.2 turn_id inbound_text worker_id epoch (server_now + lease_for) attempt snapshot.

Definition acquire (acceptance : Acceptance) (worker_id : string) (lease_for : Z) : M PgRepo (option SessionLease) :=
  let context := acc_context acceptance in
  let key := (tc_tenant_id context, tc_session_id context) in
  let* inbound_uuid := py_uuid (acc_inbound_id acceptance) in
  tenant_transaction (fun now =>
    let* mailbox := box (fetch_row key) in
    let* busy := match mailbox with Some mb => mailbox_busy mb | None => ret false end in
    if busy then ret None
    else
      let* session := ensure_session key (tc_app_id context) (tc_principal_id context) now in
      let* turn := gets (find_turn key.1 inbound_uuid) in
      if match turn with Some (_, t) => bool_decide (tu_status t = turn_committed) | None => false end then ret None
      else
        let* server_now := db_clock in
        if negb (str_empty (str_or (sr_lease_owner session) "")) && after (sr_lease_expires_at session) server_now then ret None
        else
          let* current := gets (fun s => pr_inbound s !! (key.1, inbound_uuid)) in
          match current with
          | None => raise assertion_error
          | Some current =>
            let* earlier := gets (fun s => existsb (older key (in_accepted_at current) inbound_uuid s) (map_to_list (pr_inbound s))) in
            if earlier then ret None
            else
              let* lease := acquire_turn key inbound_uuid (acc_inbound_id acceptance) worker_id (tc_config_version context) lease_for
                              server_now session turn now in
              ret (Some lease)
          end).

(** The same of version 1: the turn was checked, the message was not read. *)
Definition settle_session (lease : SessionLease) (turn_key : id_key) (state : gmap string pyval) (next : Z) : M PgRepo unit :=
  let* updated_session := close_session lease state next in
  raise_if (negb (is_some updated_session)) (FencingConflict "session lease expired or changed before commit") ;;
  let* committed_at := db_clock in
  update_turn turn_key (fun _ => true) (fun r => r <| tu_status := turn_committed |> <| tu_committed_at := Some committed_at |>) ;;
  let* inbound_id := py_uuid (sl_inbound_id lease) in
  set_inbound (sl_tenant_id lease, inbound_id) (fun _ => true) committed.

Definition commit (commit : TurnCommit) : M PgRepo CommitResult :=
  let lease := tn_lease commit in
  let t := sl_tenant_id lease in
  tenant_transaction (fun now =>
    let* session := gets (fun s => pr_sessions s !! lease_key lease) in
    let* turn_id := py_uuid (sl_turn_id lease) in
    let* turn := gets (fun s => pr_turns s !! (t, turn_id)) in
    let* server_now := db_clock in
    match session, turn with
    | Some session, Some turn =>
      raise_if (negb (holds_session (sl_worker_id lease) (sl_fencing_token lease) server_now session
                      && (tu_fencing_token turn =? sl_fencing_token lease) && turn_in_processing turn))
        (FencingConflict "stale worker cannot commit this session") ;;
      let first := sr_next_sequence session in
      let* next := write_turn py_uuid commit (t, turn_id) first now in
      settle_session lease (t, turn_id) (tn_state commit) next ;;
      post_turn lease (next - 1) now ;;
      ret (turn_result commit first next)
    | _, _ => raise (FencingConflict "stale worker cannot commit this session")
    end).

(** The message is accepted again when the session is still held under the lease, whether or not it expired. *)
Definition fail (lease : SessionLease) (error_type : string) : M PgRepo unit :=
  let t := sl_tenant_id lease in
  tenant_transaction (fun now =>
    let* turn_id := py_uuid (sl_turn_id lease) in
    update_turn (t, turn_id) (fun r => (tu_fencing_token r =? sl_fencing_token lease) && turn_in_processing r)
      (fun r => r <| tu_status := turn_failed |> <| tu_error_type := Some error_type |>) ;;
    let* inbound_id := py_uuid (sl_inbound_id lease) in
    let mine := fun r => bool_decide (sr_lease_owner r = Some (sl_worker_id lease)) && (sr_lease_epoch r =? sl_fencing_token lease) in
    let* held := gets (fun s => from_option mine false (pr_sessions s !! lease_key lease)) in
    (if held then set_inbound (t, inbound_id) (fun _ => true) accepted else ret tt) ;;
    update_session (lease_key lease) mine (free_session now) ;;
    ret tt).
End pg_turns.
