(* ===== verification/PgTurnsInv.v ===== *)
(** * What the turns of the PostgreSQL repository keep

    The invariant of the tables, the order in which they grow, and one lemma per method of
    [PgTurns]: a call that raises changes nothing, a call that returns is one step of the abstract
    session of its mailbox, keeps the invariant and only moves forward. *)

From S2P Require Import Prelude PyText Tenant Models Mailbox MailboxInv MailboxSpec Repository Runtime PgMailbox PgMailboxInv PgMailboxThms PgDelivery PgTurns.
#[local] Open Scope Z_scope.

(** ** Statements on the mailbox *)

Section mailbox.
Context `{Env} `{UuidText}.
Implicit Types (t : PgStore) (e : effects).

Lemma mailbox_ok_epoch key mb items ep ra :
  mailbox_ok key mb items -> mb_lease_epoch mb <= ep ->
  mailbox_ok key (mb <| mb_lease_epoch := ep |> <| mb_retry_at := ra |>) items.
Proof.
  intros Hok Hle. pose proof (mo_epoch _ _ _ Hok). split; try apply Hok; simpl; [lia|].
  pose proof (mo_lease _ _ _ Hok) as Hl. unfold lease_ok in *. simpl.
  destruct (mb_status mb); try done. destruct Hl as (it & ow & ex & ? & ? & ? & ? & ? & ?).
  exists it, ow, ex. split_and!; try done. lia.
Qed.

(** The claim of the head of a mailbox, under any later epoch. *)
Lemma claim_row_quiet key ow lf mb it ep t e :
  pg_inv t -> pg_mailboxes t !! key = Some mb -> pg_items_of key t !! (mb_resolved_sequence mb + 1) = Some it ->
  mb_lease_epoch mb < ep ->
  wp (claim_row key ow lf mb (mb_resolved_sequence mb + 1) it ep) (fun r t' _ => match r with
    | Ok (row, ex) => quiet t t' /\ pg_mailboxes t' = <[key := row]> (pg_mailboxes t) /\ pg_ready t' = pg_ready t /\
        mb_lease_epoch row = ep /\ mb_lease_expires_at row = Some ex /\ mb_lease_owner row = Some ow /\ mb_status row = RUNNING /\
        mb_processing_sequence row = Some (mb_resolved_sequence mb + 1) /\ mb_processing_inbound_id row = Some (mi_inbound_id it) /\
        mb_resolved_sequence row = mb_resolved_sequence mb /\ mb_accepted_sequence row = mb_accepted_sequence mb /\
        pg_items_of key t' = <[mb_resolved_sequence mb + 1 := it <| mi_attempt := mi_attempt it + 1 |>]> (pg_items_of key t)
    | Raise _ => True end) t e.
Proof.
  intros Ht Hk Hit Hep. pose proof (pi_mailbox t Ht key mb Hk) as Hok.
  assert (1 <= mb_resolved_sequence mb + 1 <= mb_accepted_sequence mb) by (apply (mo_dom _ _ _ Hok); eauto).
  unfold claim_row. wp_steps; try done. split_and!; try done.
  - match goal with Hr : row_check ?row = true, Hc : item_check ?i = true |- _ =>
      apply (quiet_put key mb row (<[mb_resolved_sequence mb + 1 := i]> (pg_items_of key t))) end; [done|done| | | | | |].
    + solve_pg_updated.
    + pose proof (mailbox_ok_claim key mb _ it ow (clock_at (ticks e) + lf) (clock_at (ticks e)) Hok ltac:(lia) Hit) as Hok'.
      exact (mailbox_ok_epoch _ _ _ ep None Hok' ltac:(simpl; lia)).
    + eapply checked_replace; [by eapply (pi_checked t)|done|done].
    + split; simpl; lia.
    + done.
    + by eapply session_view_replace.
  - unfold pg_items_of. simpl. by rewrite lookup_insert_eq.
Qed.

(** The head waits: the mailbox was not running. *)
Lemma wait_row_quiet key mb it t e :
  pg_inv t -> pg_mailboxes t !! key = Some mb -> mb_resolved_sequence mb < mb_accepted_sequence mb ->
  wp (wait_row key mb it) (fun r t' _ => match r with Ok _ => quiet t t' | Raise _ => True end) t e.
Proof.
  intros Ht Hk Hlt. pose proof (pi_mailbox t Ht key mb Hk) as Hok. unfold wait_row. wp_steps; [|done].
  assert (Hnr : mb_status mb <> RUNNING).
  { intros Hr. pose proof (mo_lease _ _ _ Hok) as Hl. unfold lease_ok in Hl. rewrite Hr in Hl.
    destruct Hl as (? & ? & ? & _ & Hp & _). unfold row_check in *. simpl in *. rewrite Hp in *. bool_prop. done. }
  match goal with Hr : row_check ?row = true |- _ => apply (quiet_put key mb row (pg_items_of key t)) end; [done|done| | | | | |].
  - solve_pg_updated.
  - apply mailbox_ok_touch; [done|done|done|]. split; [done|lia].
  - split; [done|]. by eapply (pi_checked t).
  - by split.
  - done.
  - done.
Qed.

(** Renewing the lease of a running mailbox. *)
Lemma extend_row_quiet lease i lf t e :
  pg_inv t ->
  wp (extend_row lease i lf) (fun r t' _ => match r with Ok _ => quiet t t' | Raise _ => True end) t e.
Proof.
  intros Ht. unfold extend_row. wp_steps; try done. bool_prop.
  match goal with Hh : holds_mailbox _ _ _ ?mb = true, Hk : pg_mailboxes t !! ?key = Some ?mb, Hr : row_check ?row = true |- _ =>
    pose proof (pi_mailbox t Ht _ _ Hk) as Hok; unfold holds_mailbox in Hh;
    apply (quiet_put key mb row (pg_items_of key t)); try done end.
  - solve_pg_updated.
  - bool_prop. pose proof (mo_lease _ _ _ Hok) as Hl. split; try apply Hok.
    unfold lease_ok in *. simpl. match goal with Hr : mb_status _ = RUNNING |- _ => rewrite Hr in * end.
    destruct Hl as (it & ow & ex & ? & ? & ? & ? & ? & ?). by eexists it, ow, _.
  - split; [done|]. by eapply (pi_checked t).
  - simpl. intros Hq. change (ready_keys _) with (ready_keys t). by apply (pi_wake t).
Qed.

(** The row written for a resolved item, with the wake-up of the next one. *)
Lemma next_cleared key mb items sequence it st ra inc now :
  mailbox_ok key mb items -> sequence = mb_resolved_sequence mb + 1 -> items !! sequence = Some it ->
  next_status (items !! (sequence + 1)) now = (st, ra, inc) ->
  forall at_, cleared mb (next_mailbox mb sequence st ra inc at_).
Proof.
  intros Hok Hseq Hit Hn at_. pose proof (mo_bounds _ _ _ Hok).
  assert (1 <= sequence <= mb_accepted_sequence mb) by (apply (mo_dom _ _ _ Hok); eauto).
  pose proof (item_none _ _ _ (sequence + 1) Hok ltac:(lia) ltac:(lia)) as Hend.
  destruct (next_status_spec _ _ _ _ _ Hn) as (Hnr & Hidle & Hinc & Hinc0).
  split; simpl; [done|done|done|lia|lia|done|done|done|rewrite Hidle, Hend; lia].
Qed.

Lemma wake_next_moves key mb sequence it st ra inc now at_ t e t0 :
  pg_inv t0 -> pg_mailboxes t0 !! key = Some mb -> sequence = mb_resolved_sequence mb + 1 ->
  pg_items_of key t0 !! sequence = Some it ->
  next_status (pg_items_of key t0 !! (sequence + 1)) now = (st, ra, inc) ->
  let row := next_mailbox mb sequence st ra inc at_ in
  row_check row = true -> pg_mailboxes t = <[key := row]> (pg_mailboxes t0) -> pg_items t = pg_items t0 -> pg_ready t = pg_ready t0 ->
  wp (wake_next st row (pg_items_of key t0 !! (sequence + 1)))
    (fun r t' _ => match r with
      | Ok _ => advance key [mi_inbound_id it] t0 t' /\ pg_mailboxes t' = pg_mailboxes t /\ pg_items t' = pg_items t
      | Raise _ => True end) t e.
Proof.
  intros Ht0 Hk Hseq Hit Hn row Hrc Hm Hi Hl. pose proof (pi_mailbox t0 Ht0 key mb Hk) as Hok.
  pose proof (next_cleared _ _ _ _ _ _ _ _ _ Hok Hseq Hit Hn at_) as Hcl.
  pose proof (mo_bounds _ _ _ Hok). pose proof (mo_generation _ _ _ Hok).
  assert (1 <= sequence <= mb_accepted_sequence mb) by (apply (mo_dom _ _ _ Hok); eauto).
  destruct (next_status_spec _ _ _ _ _ Hn) as (Hnr & Hidle & Hinc & Hinc0).
  assert (Hadv : forall t', pg_mailboxes t' = pg_mailboxes t -> pg_items t' = pg_items t -> wakes row t0 t' ->
    advance key [mi_inbound_id it] t0 t').
  { intros t' Hm' Hi' Hw. apply (advance_clear key mb row (pg_items_of key t0)); [done|done|done|by rewrite Hm', Hm| | |done|done| |].
    - unfold pg_items_of. by rewrite Hi', Hi.
    - intros k _. unfold pg_items_of. by rewrite Hi', Hi.
    - split; [done|]. by eapply (pi_checked t0).
    - unfold session_view. simpl. rewrite Hseq. unfold inbound_ids. simpl. apply session_commit; [lia|].
      by eapply inbound_ids_lookup; [done|lia|rewrite <-Hseq]. }
  unfold wake_next. wp_steps; try done.
  - split_and!; [|done|done]. apply Hadv; [done|done|]. left. bool_prop. split_and!; [done|done|].
    unfold ready_keys at 1. simpl. etrans; [eassumption|]. unfold ready_keys. by rewrite Hl.
  - split_and!; [|done|done]. apply Hadv; [done|done|]. right. bool_prop. split; [done|done].
  - split_and!; [|done|done]. apply Hadv; [done|done|]. right. split; [|done].
    simpl. intros ->. by assert (IDLE = QUEUED) by (symmetry; by apply Hidle).
Qed.

(** What resolving the item [sequence] of the mailbox leaves. *)
Record resolved (key : session_key) (mb : SessionMailbox) (sequence : Z) (t t' : PgStore) : Prop := {
  re_row : exists row, pg_mailboxes t' = <[key := row]> (pg_mailboxes t) /\ mb_resolved_sequence row = sequence /\
    mb_lease_owner row = None /\ mb_lease_epoch row = mb_lease_epoch mb /\ mb_accepted_sequence row = mb_accepted_sequence mb;
  re_items : pg_items t' = pg_items t;
}.

Lemma advance_mailbox_moves key mb sequence it now t e :
  pg_inv t -> pg_mailboxes t !! key = Some mb -> sequence = mb_resolved_sequence mb + 1 -> pg_items_of key t !! sequence = Some it ->
  wp (advance_mailbox key mb sequence now) (fun r t' _ => match r with
    | Ok _ => advance key [mi_inbound_id it] t t' /\ resolved key mb sequence t t' | Raise _ => True end) t e.
Proof.
  intros Ht Hk Hseq Hit. unfold advance_mailbox, fetch_item. wp_step. wp_step.
  destruct (next_status _ _) as [[st ra] inc] eqn:Hn. wp_steps; [|done].
  eapply wp_mono; [by eapply (wake_next_moves key mb sequence it st ra inc now _ _ _ t)|].
  intros [u|x] t' e' Hw; wp_steps; [|done]. destruct Hw as (? & Hm & Hi). split; [done|]. split; [|done].
  eexists. split; [exact Hm|done].
Qed.

Lemma close_mailbox_moves lease mb sequence it t e :
  pg_inv t -> pg_mailboxes t !! lease_key lease = Some mb -> sequence = mb_resolved_sequence mb + 1 ->
  pg_items_of (lease_key lease) t !! sequence = Some it ->
  wp (close_mailbox lease mb sequence) (fun r t' _ => match r with
    | Ok _ => advance (lease_key lease) [mi_inbound_id it] t t' /\ resolved (lease_key lease) mb sequence t t' | Raise _ => True end) t e.
Proof.
  intros Ht Hk Hseq Hit. unfold close_mailbox. wp_steps; try done.
  match goal with Hn : next_status _ _ = (?st, ?ra, ?inc) |- _ =>
    eapply wp_mono; [by eapply (wake_next_moves _ mb sequence it st ra inc _ _ _ _ t)|] end.
  intros [u|x] t' e' Hw; [|done]. destruct Hw as (? & Hm & Hi). split; [done|]. split; [|done].
  eexists. split; [exact Hm|done].
Qed.

Lemma retry_row_quiet key mb sequence it delay t e :
  pg_inv t -> pg_mailboxes t !! key = Some mb -> sequence = mb_resolved_sequence mb + 1 -> pg_items_of key t !! sequence = Some it ->
  wp (retry_row key mb sequence it delay) (fun r t' _ => match r with Ok _ => quiet t t' | Raise _ => True end) t e.
Proof.
  intros Ht Hk Hseq Hit. pose proof (pi_mailbox t Ht key mb Hk) as Hok. pose proof (mo_bounds _ _ _ Hok).
  assert (1 <= sequence <= mb_accepted_sequence mb) by (apply (mo_dom _ _ _ Hok); eauto).
  unfold retry_row. wp_steps; try done. destruct (mo_items _ _ _ Hok _ _ Hit).
  match goal with Hr : row_check ?row = true, Hc : item_check ?i = true |- _ =>
    apply (quiet_clear key mb row (<[sequence := i]> (pg_items_of key t))) end; try done.
  - split; simpl; try done; try lia. split; [done|lia].
  - unfold pg_items_of. simpl. by rewrite lookup_insert_eq.
  - intros. unfold pg_items_of. simpl. by rewrite lookup_insert_ne.
  - by right.
  - eapply mailbox_ok_replace; [done|done| |done]. split; simpl; try done. lia.
  - eapply checked_replace; [by eapply (pi_checked t)|done|done].
  - by eapply session_view_replace.
Qed.

Lemma append_row_moves key mb i tr th p ra t e :
  pg_inv t -> pg_mailboxes t !! key = Some mb -> 0 <= p ->
  wp (append_row key mb i tr th p ra) (fun r t' _ => match r with Ok _ => advance key [] t t' | Raise _ => True end) t e.
Proof.
  intros Ht Hk Hp. pose proof (pi_mailbox t Ht key mb Hk) as Hok.
  pose proof (mo_bounds _ _ _ Hok). pose proof (mo_generation _ _ _ Hok).
  unfold append_row. wp_steps; try done.
  all: match goal with Hc : item_check ?it = true, Hst : accepted_status _ _ ?now = (?st, ?o) |- _ =>
         assert (Hit : item_ok key (mb_accepted_sequence mb + 1) it) by (split; simpl; done || lia);
         pose proof (fun g => accept_advance key mb it st o p g now (clock_at (S (S (ticks e))))) as Hadv end.
  - refine (Hadv 1 l t Ht Hk _ Hit _ _ _ _ _ _); try done. intros _. split; [|done].
    replace key with (mb_tenant_id mb, mb_session_id mb); [done|].
    destruct key. by rewrite (mo_tenant _ _ _ Hok), (mo_session _ _ _ Hok).
  - refine (Hadv 0 (pg_ready t) t Ht Hk _ Hit _ _ _ _ _ _); try done. intros _. split; [done|]. intros ->.
    unfold accepted_status in *. destruct (mb_status mb); repeat case_match; simplify_eq/=; done.
Qed.

(** The message is the new end of the log. *)
Definition logged (key : session_key) (i : string) (t t' : PgStore) : Prop :=
  pg_view key t' = ((pg_view key t).1 ++ [i], (pg_view key t).2).

Lemma append_row_logged key mb i tr th p ra t e :
  pg_inv t -> pg_mailboxes t !! key = Some mb ->
  wp (append_row key mb i tr th p ra) (fun r t' _ => match r with Ok _ => logged key i t t' | Raise _ => True end) t e.
Proof.
  intros Ht Hk. pose proof (mo_bounds _ _ _ (pi_mailbox t Ht key mb Hk)). unfold append_row. wp_steps; try done.
  all: unfold logged, pg_view, session_view; simpl; rewrite lookup_insert_eq, Hk; unfold pg_items_of at 1; simpl; rewrite lookup_insert_eq.
  all: simpl; rewrite (inbound_ids_app mb) by (done || lia); done.
Qed.

(** A new mailbox row changes no view, and an item is appended once. *)
Lemma append_item_moves key i tr th p ra t e :
  pg_inv t -> 0 <= p ->
  wp (append_item key i tr th p ra) (fun r t' _ => match r with Ok _ => advance key [] t t' /\ logged key i t t' | Raise _ => True end) t e.
Proof.
  intros Ht Hp. assert (Hrow : forall mb t0 e0, pg_inv t0 -> pg_mailboxes t0 !! key = Some mb ->
    wp (append_row key mb i tr th p ra) (fun r t' _ => match r with Ok _ => advance key [] t0 t' /\ logged key i t0 t' | Raise _ => True end) t0 e0).
  { intros mb t0 e0 Ht0 Hk. apply wp_intro. intros r t' e' Hrun.
    pose proof (wp_run _ _ _ _ _ _ _ (append_row_moves key mb i tr th p ra t0 e0 Ht0 Hk Hp) Hrun).
    pose proof (wp_run _ _ _ _ _ _ _ (append_row_logged key mb i tr th p ra t0 e0 Ht0 Hk) Hrun). by destruct r. }
  unfold append_item, ensure_row. wp_steps; try done.
  - by apply Hrow.
  - destruct (ensure_new key (clock_at (ticks e)) t) as (Ht1 & Hv & Hle); [done..|].
    eapply wp_mono; [apply Hrow; [exact Ht1|apply lookup_insert_eq]|].
    intros [u|x] t' e'; [|done]. intros [Ha Hl]. split; [by eapply advance_after|]. unfold logged in *. by rewrite Hl, Hv.
Qed.
End mailbox.

(** ** The tables of the turns *)

Abbreviation session_table := (gmap session_key SessionRecord).
Abbreviation turn_table := (gmap id_key TurnRecord).
Abbreviation event_table := (gmap session_key (gmap Z HistoryRow)).
Abbreviation inbound_table := (gmap id_key InboundRow).

Definition events_of (key : session_key) (ev : event_table) : gmap Z HistoryRow := default ∅ (ev !! key).

(** Histories are numbered without gaps up to the next number of their session, and every event
    belongs to a turn that was committed; a message has one turn. *)
Record core_inv (ss : session_table) (tt : turn_table) (ev : event_table) : Prop := {
  ci_session key r : ss !! key = Some r -> 1 <= sr_next_sequence r /\ 0 <= sr_version r /\ 0 <= sr_lease_epoch r;
  ci_numbers key r n : ss !! key = Some r -> is_Some (events_of key ev !! n) <-> 1 <= n < sr_next_sequence r;
  ci_none key : ss !! key = None -> events_of key ev = ∅;
  ci_turn key n h : events_of key ev !! n = Some h ->
    exists t, tt !! (key.1, hi_turn_id h) = Some t /\ tu_status t = turn_committed;
  ci_one k k' t t' : tt !! k = Some t -> tt !! k' = Some t' -> k.1 = k'.1 -> tu_inbound_id t = tu_inbound_id t' -> k = k';
}.

(** Epochs, versions and histories grow; a committed turn is final. *)
Record core_le (ss : session_table) (tt : turn_table) (ev : event_table) (ss' : session_table) (tt' : turn_table) (ev' : event_table)
    : Prop := {
  cl_session key r : ss !! key = Some r -> exists r', ss' !! key = Some r' /\ sr_lease_epoch r <= sr_lease_epoch r' /\
    sr_version r <= sr_version r' /\ sr_next_sequence r <= sr_next_sequence r';
  cl_turn k t : tt !! k = Some t -> exists t', tt' !! k = Some t' /\ tu_inbound_id t' = tu_inbound_id t /\
    (tu_status t = turn_committed -> t' = t);
  cl_events key n h : events_of key ev !! n = Some h -> events_of key ev' !! n = Some h;
}.

(** What identifies a message never changes. *)
Definition message_key (r : InboundRow) : Channel * string * string := (in_channel r, in_account_id r, in_external_message_id r).

Definition frozen (r : InboundRow) : InboundRow :=
  r <| in_provider_event_hash := None |> <| in_status := accepted |> <| in_delivery_count := 0 |>.

Lemma frozen_status st r : frozen (r <| in_status := st |>) = frozen r.
Proof. done. Qed.

Definition inbound_inv (m : inbound_table) : Prop :=
  forall k k' r r', m !! k = Some r -> m !! k' = Some r' -> k.1 = k'.1 -> message_key r = message_key r' -> k = k'.

Definition inbound_le (m m' : inbound_table) : Prop :=
  forall k r, m !! k = Some r -> exists r', m' !! k = Some r' /\ frozen r' = frozen r.

Record turns_inv (s : PgRepo) : Prop := {
  ti_box : pg_inv (box_of s);
  ti_core : core_inv (pr_sessions s) (pr_turns s) (pr_events s);
  ti_inbound : inbound_inv (pr_inbound s);
}.

Record repo_le (s s' : PgRepo) : Prop := {
  rl_box : pg_le (box_of s) (box_of s');
  rl_core : core_le (pr_sessions s) (pr_turns s) (pr_events s) (pr_sessions s') (pr_turns s') (pr_events s');
  rl_inbound : inbound_le (pr_inbound s) (pr_inbound s');
}.

Lemma core_le_refl ss tt ev : core_le ss tt ev ss tt ev.
Proof. split; eauto 10 with lia. Qed.

Lemma core_le_trans ss tt ev ss1 tt1 ev1 ss2 tt2 ev2 :
  core_le ss tt ev ss1 tt1 ev1 -> core_le ss1 tt1 ev1 ss2 tt2 ev2 -> core_le ss tt ev ss2 tt2 ev2.
Proof.
  intros [Hs Ht He] [Hs' Ht' He']. split; [| |by eauto].
  - intros key r Hr. destruct (Hs _ _ Hr) as (r1 & Hr1 & ? & ? & ?). destruct (Hs' _ _ Hr1) as (r2 & ? & ? & ? & ?).
    exists r2. split_and!; [done|lia..].
  - intros k t Hk. destruct (Ht _ _ Hk) as (t1 & Hk1 & Hi & Hc). destruct (Ht' _ _ Hk1) as (t2 & Hk2 & Hi' & Hc').
    exists t2. split_and!; [done|congruence|]. intros Hst. rewrite <-(Hc Hst). apply Hc'. by rewrite (Hc Hst).
Qed.

#[export] Instance inbound_le_preorder : PreOrder inbound_le.
Proof.
  split.
  - intros m k r Hk. eauto.
  - intros x y z Hxy Hyz k r Hk. destruct (Hxy _ _ Hk) as (r1 & Hk1 & ?). destruct (Hyz _ _ Hk1) as (r2 & ? & ?).
    exists r2. split; [done|congruence].
Qed.

#[export] Instance repo_le_preorder : PreOrder repo_le.
Proof.
  split.
  - intros s. split; [done|apply core_le_refl|done].
  - intros x y z [? ? ?] [? ? ?]. split; [by etrans|by eapply core_le_trans|by etrans].
Qed.

(** *** Sessions *)

(** A session row that keeps its history. *)
Definition same_history (r r' : SessionRecord) : Prop :=
  sr_next_sequence r' = sr_next_sequence r /\ sr_version r' = sr_version r /\ sr_lease_epoch r <= sr_lease_epoch r'.

Lemma core_lease ss tt ev key r r' :
  core_inv ss tt ev -> ss !! key = Some r -> same_history r r' ->
  core_inv (<[key := r']> ss) tt ev /\ core_le ss tt ev (<[key := r']> ss) tt ev.
Proof.
  intros Hi Hk (Hn & Hv & He). destruct (ci_session _ _ _ Hi _ _ Hk) as (? & ? & ?). split; split.
  - intros k r0. rewrite lookup_insert. case_decide; intros; simplify_eq; [lia|by eapply ci_session].
  - intros k r0 n. rewrite lookup_insert. case_decide; intros; simplify_eq; [rewrite Hn; by eapply ci_numbers|by eapply ci_numbers].
  - intros k. rewrite lookup_insert. case_decide; [done|]. by apply Hi.
  - apply Hi.
  - apply Hi.
  - intros k r0 Hk0. rewrite lookup_insert. case_decide; simplify_eq; [exists r'; split_and!; [done|lia..]|].
    exists r0. split_and!; [done|lia..].
  - intros k t Ht. eauto.
  - done.
Qed.

Lemma core_new_session ss tt ev key r :
  core_inv ss tt ev -> ss !! key = None -> sr_next_sequence r = 1 -> 0 <= sr_version r -> 0 <= sr_lease_epoch r ->
  core_inv (<[key := r]> ss) tt ev /\ core_le ss tt ev (<[key := r]> ss) tt ev.
Proof.
  intros Hi Hk Hn Hv He. split; split.
  - intros k r0. rewrite lookup_insert. case_decide; intros; simplify_eq; [lia|by eapply ci_session].
  - intros k r0 n. rewrite lookup_insert. case_decide; intros; simplify_eq; [|by eapply ci_numbers].
    rewrite (ci_none _ _ _ Hi) by done. rewrite lookup_empty, Hn. split; [by intros []|lia].
  - intros k. rewrite lookup_insert. case_decide; [done|]. by apply Hi.
  - apply Hi.
  - apply Hi.
  - intros k r0 Hk0. rewrite lookup_insert_ne by congruence. exists r0. split_and!; [done|lia..].
  - intros k t Ht. eauto.
  - done.
Qed.

(** *** Turns *)

Lemma core_new_turn ss tt ev k t :
  core_inv ss tt ev -> tt !! k = None ->
  (forall k' t', tt !! k' = Some t' -> k'.1 = k.1 -> tu_inbound_id t' <> tu_inbound_id t) ->
  core_inv ss (<[k := t]> tt) ev /\ core_le ss tt ev ss (<[k := t]> tt) ev.
Proof.
  intros Hi Hk Hnew. split; split; try apply Hi.
  - intros key n h Hh. destruct (ci_turn _ _ _ Hi _ _ _ Hh) as (t' & Ht & ?). exists t'. split; [|done].
    rewrite lookup_insert_ne by congruence. done.
  - intros k1 k2 t1 t2. rewrite !lookup_insert. repeat case_decide; intros; simplify_eq; try done.
    + exfalso. by eapply (Hnew k2 t2).
    + exfalso. by eapply (Hnew k1 t1).
    + by eapply (ci_one _ _ _ Hi).
  - intros key r Hr. exists r. split_and!; [done|lia..].
  - intros k' t' Ht. exists t'. rewrite lookup_insert_ne by congruence. done.
  - done.
Qed.

Lemma core_turn ss tt ev k t t' :
  core_inv ss tt ev -> tt !! k = Some t -> tu_inbound_id t' = tu_inbound_id t -> tu_status t <> turn_committed ->
  core_inv ss (<[k := t']> tt) ev /\ core_le ss tt ev ss (<[k := t']> tt) ev.
Proof.
  intros Hi Hk Hin Hst. split; split; try apply Hi.
  - intros key n h Hh. destruct (ci_turn _ _ _ Hi _ _ _ Hh) as (t0 & Ht & ?). exists t0. split; [|done].
    rewrite lookup_insert_ne; [done|]. intros ->. simplify_eq.
  - intros k1 k2 t1 t2. rewrite !lookup_insert. repeat case_decide; intros; simplify_eq; try done.
    + eapply (ci_one _ _ _ Hi); [done|done|done|congruence].
    + eapply (ci_one _ _ _ Hi); [done|done|done|congruence].
    + by eapply (ci_one _ _ _ Hi).
  - intros key r Hr. exists r. split_and!; [done|lia..].
  - intros k0 t0 Ht. rewrite lookup_insert. case_decide; simplify_eq; [|eauto]. by exists t'.
  - done.
Qed.

(** *** Messages *)

Lemma inbound_update m k r r' :
  inbound_inv m -> m !! k = Some r -> frozen r' = frozen r -> inbound_inv (<[k := r']> m) /\ inbound_le m (<[k := r']> m).
Proof.
  intros Hi Hk Hf. assert (Hm : message_key r' = message_key r).
  { unfold message_key. change (message_key (frozen r') = message_key (frozen r)). by rewrite Hf. }
  split.
  - intros k1 k2 r1 r2. rewrite !lookup_insert. repeat case_decide; intros; simplify_eq; try done.
    + eapply (Hi k1 k2); [done|done|done|unfold message_key; congruence].
    + eapply (Hi k1 k2); [done|done|done|unfold message_key; congruence].
    + eapply (Hi k1 k2); [done|done|done|unfold message_key; congruence].
  - intros k0 r0 Hk0. rewrite lookup_insert. case_decide; [|eauto]. subst. exists r'. split; [done|]. congruence.
Qed.

Lemma inbound_insert m k r :
  inbound_inv m -> m !! k = None ->
  (forall k' r', m !! k' = Some r' -> k'.1 = k.1 -> message_key r' <> message_key r) ->
  inbound_inv (<[k := r]> m) /\ inbound_le m (<[k := r]> m).
Proof.
  intros Hi Hk Hnew. split.
  - intros k1 k2 r1 r2. rewrite !lookup_insert. repeat case_decide; intros; simplify_eq; try done.
    + exfalso. eapply (Hnew k2 r2); [done|done|unfold message_key; congruence].
    + exfalso. eapply (Hnew k1 r1); [done|done|unfold message_key; congruence].
    + eapply (Hi k1 k2); [done|done|done|unfold message_key; congruence].
  - intros k0 r0 Hk0. exists r0. rewrite lookup_insert_ne by congruence. done.
Qed.

(** *** Histories *)

(** [events] were appended to the history of [key] from the number [first] on. *)
Record appended (key : session_key) (turn_id : string) (first : Z) (events : list StoredEvent) (ev ev' : event_table) : Prop := {
  ap_other k : k <> key -> events_of k ev' = events_of k ev;
  ap_rows n : events_of key ev' !! n =
    if decide (first <= n < first + Z.of_nat (length events))
    then MkHistoryRow turn_id <$> events !! Z.to_nat (n - first) else events_of key ev !! n;
}.

Lemma appended_nil key turn_id first ev : appended key turn_id first [] ev ev.
Proof. split; [done|]. intros n. simpl. rewrite decide_False by lia. done. Qed.

Lemma appended_cons key turn_id first x events ev ev1 ev' :
  events_of key ev1 = <[first := MkHistoryRow turn_id x]> (events_of key ev) ->
  (forall k, k <> key -> events_of k ev1 = events_of k ev) ->
  appended key turn_id (first + 1) events ev1 ev' -> appended key turn_id first (x :: events) ev ev'.
Proof.
  intros H1 Ho [Hother Hrows]. split; [intros k Hk; by rewrite Hother, Ho|].
  intros n. rewrite Hrows, H1. cbn [length]. destruct (decide (n = first)) as [->|Hne].
  - rewrite decide_False, decide_True by lia. rewrite lookup_insert_eq, Z.sub_diag. done.
  - rewrite lookup_insert_ne by done. destruct (decide (first + 1 <= n < first + 1 + Z.of_nat (length events))).
    + rewrite decide_True by lia. replace (Z.to_nat (n - first)) with (S (Z.to_nat (n - (first + 1)))) by lia. done.
    + by rewrite decide_False by lia.
Qed.

Lemma core_commit ss tt ev key k r r' t t' events ev' :
  core_inv ss tt ev -> ss !! key = Some r -> tt !! k = Some t -> k.1 = key.1 -> tu_status t <> turn_committed ->
  tu_status t' = turn_committed -> tu_inbound_id t' = tu_inbound_id t ->
  appended key k.2 (sr_next_sequence r) events ev ev' ->
  sr_next_sequence r' = sr_next_sequence r + Z.of_nat (length events) -> sr_version r' = sr_version r + 1 ->
  sr_lease_epoch r' = sr_lease_epoch r ->
  core_inv (<[key := r']> ss) (<[k := t']> tt) ev' /\ core_le ss tt ev (<[key := r']> ss) (<[k := t']> tt) ev'.
Proof.
  intros Hi Hk Ht Hkey Hst Hst' Hin [Hother Hrows] Hn Hv He.
  destruct (ci_session _ _ _ Hi _ _ Hk) as (? & ? & ?).
  destruct (core_turn ss tt ev k t t' Hi Ht Hin Hst) as [[_ _ _ _ Hone] [_ Hturn _]].
  assert (Hold : forall k0 n h, events_of k0 ev !! n = Some h -> events_of k0 ev' !! n = Some h).
  { intros k0 n h Hh. destruct (decide (k0 = key)) as [->|Hne]; [|by rewrite Hother].
    rewrite Hrows, decide_False; [done|]. assert (1 <= n < sr_next_sequence r) by (apply (ci_numbers _ _ _ Hi key r n Hk); eauto). lia. }
  split; split; try done.
  - intros k0 r0. rewrite lookup_insert. case_decide; intros; simplify_eq; [lia|by eapply ci_session].
  - intros k0 r0 n. rewrite lookup_insert. case_decide as Hd; intros; simplify_eq.
    + rewrite Hrows. case_decide as Hr.
      * rewrite fmap_is_Some, lookup_lt_is_Some. lia.
      * rewrite (ci_numbers _ _ _ Hi) by done. lia.
    + rewrite Hother by done. by eapply ci_numbers.
  - intros k0. rewrite lookup_insert. case_decide; [done|]. intros. rewrite Hother by done. by apply Hi.
  - intros k0 n h Hh. assert (events_of k0 ev !! n = Some h \/ (k0 = key /\ hi_turn_id h = k.2)) as [Ho|[-> Hk2]].
    { destruct (decide (k0 = key)) as [->|Hne]; [|left; by rewrite <-Hother]. rewrite Hrows in Hh.
      case_decide; [right|by left]. apply fmap_Some in Hh as (x & _ & ->). done. }
    + destruct (ci_turn _ _ _ Hi _ _ _ Ho) as (t0 & Ht0 & Hc). destruct (Hturn _ _ Ht0) as (t1 & Ht1 & _ & Heq).
      exists t1. split; [done|]. by rewrite (Heq Hc).
    + exists t'. split; [|done]. rewrite <-Hkey, Hk2. destruct k. simpl. apply lookup_insert_eq.
  - intros k0 r0 Hk0. rewrite lookup_insert. case_decide; simplify_eq; [exists r'; split_and!; [done|lia..]|].
    exists r0. split_and!; [done|lia..].
Qed.

(** ** Steps *)

(** What a call that resolved [lab] of the mailbox [key] does. *)
Record forward (key : session_key) (lab : list string) (s s' : PgRepo) : Prop := {
  fw_inv : turns_inv s';
  fw_view k : session_step (pg_view k (box_of s)) (if decide (k = key) then lab else []) (pg_view k (box_of s'));
  fw_le : repo_le s s';
}.

(** The mailbox tables of [s'] are those of [t], up to the publication of wake-ups. *)
Record boxed (t : PgStore) (s' : PgRepo) : Prop := {
  bx_mailboxes : pr_mailboxes s' = pg_mailboxes t;
  bx_items : pr_items s' = pg_items t;
  bx_ready : map ready_key (pr_ready s') = ready_keys t;
}.

Lemma boxed_outside t s' : boxed t s' -> outside t (box_of s').
Proof. intros [? ? ?]. by split. Qed.

Lemma boxed_advance key lab s t t' s' :
  outside (box_of s) t -> pg_inv (box_of s) -> advance key lab t t' -> boxed t' s' ->
  pg_inv (box_of s') /\ pg_le (box_of s) (box_of s') /\
  forall k, session_step (pg_view k (box_of s)) (if decide (k = key) then lab else []) (pg_view k (box_of s')).
Proof.
  intros Ho Hs [Hi Hv Hle] Hb%boxed_outside. destruct (outside_quiet _ _ Hs Ho) as [_ Hv0 Hle0].
  destruct (outside_quiet _ _ Hi Hb) as [Hi1 Hv1 Hle1]. split_and!; [done|by etrans; [|etrans]|].
  intros k. rewrite Hv1, <-Hv0. apply Hv.
Qed.

Lemma forward_intro key lab s t t' s' :
  turns_inv s -> outside (box_of s) t -> advance key lab t t' -> boxed t' s' ->
  core_inv (pr_sessions s') (pr_turns s') (pr_events s') ->
  core_le (pr_sessions s) (pr_turns s) (pr_events s) (pr_sessions s') (pr_turns s') (pr_events s') ->
  inbound_inv (pr_inbound s') -> inbound_le (pr_inbound s) (pr_inbound s') -> forward key lab s s'.
Proof.
  intros [Hb Hc Hi] Ho Ha Hbx ? ? ? ?. destruct (boxed_advance _ _ _ _ _ _ Ho Hb Ha Hbx) as (? & ? & ?). by split; [split|..|split].
Qed.

(** The same when the mailbox tables do not change. *)
Lemma forward_tables key s s' :
  turns_inv s -> boxed (box_of s) s' ->
  core_inv (pr_sessions s') (pr_turns s') (pr_events s') ->
  core_le (pr_sessions s) (pr_turns s) (pr_events s) (pr_sessions s') (pr_turns s') (pr_events s') ->
  inbound_inv (pr_inbound s') -> inbound_le (pr_inbound s) (pr_inbound s') -> forward key [] s s'.
Proof.
  intros Hs Hb ? ? ? ?. apply (forward_intro key [] s (box_of s) (box_of s)); try done. apply advance_refl, Hs.
Qed.

Lemma forward_same key s : turns_inv s -> forward key [] s s.
Proof. intros Hs. apply forward_tables; try done; [apply Hs|apply core_le_refl|apply Hs]. Qed.

(** A call: what it raises changes nothing. *)
Definition turn_moves {A} (key : session_key) (lab : A -> list string) (m : M PgRepo A) : Prop :=
  forall s e, turns_inv s -> wp m (fun r s' _ => match r with Ok a => forward key (lab a) s s' | Raise _ => s' = s end) s e.

Definition body_goes {A} (key : session_key) (lab : A -> list string) (m : M PgRepo A) : Prop :=
  forall s e, turns_inv s -> wp m (fun r s' _ => match r with Ok a => forward key (lab a) s s' | Raise _ => True end) s e.

Lemma tenant_transaction_moves `{Env} {A} key lab (body : Z -> M PgRepo A) :
  (forall now, body_goes key lab (body now)) -> turn_moves key lab (tenant_transaction body).
Proof.
  intros Hb s e Hs. apply wp_rollback, wp_bind, wp_datetime_now. eapply wp_mono; [by apply Hb|]. by intros [a|x] s' e'.
Qed.

(** ** Rules for the statements *)

Section rules.
Context `{Env} `{UuidText} `{PgUuid} `{Sha256} `{EnvelopeDump}.
Implicit Types (s : PgRepo) (e : effects).

Lemma put_box_same s : put_box (box_of s) s = s.
Proof. by destruct s. Qed.

Lemma wp_box {A} (m : M PgStore A) (Q : _ -> _ -> _ -> Prop) s e :
  wp m (fun r t e' => Q r (put_box t s) e') (box_of s) e -> wp (box m) Q s e.
Proof. apply wp_zoom. Qed.

Lemma wp_box_row key (Q : _ -> _ -> _ -> Prop) s e : Q (Ok (pr_mailboxes s !! key)) s e -> wp (box (fetch_row key)) Q s e.
Proof. intros HQ. apply wp_box. unfold fetch_row. apply wp_gets. by rewrite put_box_same. Qed.

Lemma wp_box_item key n (Q : _ -> _ -> _ -> Prop) s e :
  Q (Ok (pg_items_of key (box_of s) !! n)) s e -> wp (box (fetch_item key n)) Q s e.
Proof. intros HQ. apply wp_box. unfold fetch_item. apply wp_gets. by rewrite put_box_same. Qed.

(** An update of one row. *)
Lemma wp_update_session key cond f (Q : _ -> _ -> _ -> Prop) s e :
  (forall r, pr_sessions s !! key = Some r -> cond r = true ->
     Q (Ok (Some (f r))) (s <| pr_sessions := <[key := f r]> (pr_sessions s) |>) e) ->
  (match pr_sessions s !! key with Some r => cond r = false | None => True end -> Q (Ok None) s e) ->
  wp (update_session key cond f) Q s e.
Proof. intros Hy Hn. unfold update_session. wp_steps; auto. Qed.

Lemma wp_update_inbound key cond f (Q : _ -> _ -> _ -> Prop) s e :
  (forall r, pr_inbound s !! key = Some r -> cond r = true ->
     Q (Ok (Some (f r))) (s <| pr_inbound := <[key := f r]> (pr_inbound s) |>) e) ->
  (match pr_inbound s !! key with Some r => cond r = false | None => True end -> Q (Ok None) s e) ->
  wp (update_inbound key cond f) Q s e.
Proof. intros Hy Hn. unfold update_inbound. wp_steps; auto. Qed.

Lemma wp_update_turn key cond f (Q : _ -> _ -> _ -> Prop) s e :
  (forall r, pr_turns s !! key = Some r -> cond r = true ->
     Q (Ok tt) (s <| pr_turns := <[key := f r]> (pr_turns s) |>) e) ->
  (match pr_turns s !! key with Some r => cond r = false | None => True end -> Q (Ok tt) s e) ->
  wp (update_turn key cond f) Q s e.
Proof. intros Hy Hn. unfold update_turn. wp_steps; auto. Qed.

(** A row of the outbox that is not a wake-up. *)
Definition event_row (aggregate_id event_type : string) (payload : gmap string pyval) (trace_headers : gmap string string) (now : Z) : EventRow :=
  MkEventRow aggregate_id event_type payload trace_headers 0 now None None None None now.

Lemma wp_insert_event t agg ty o p th now (Q : _ -> _ -> _ -> Prop) s e :
  (forall id e', pd_outbox (pr_delivery s) !! (t, id) = None ->
     Q (Ok tt) (s <| pr_delivery := (pr_delivery s) <| pd_outbox := <[(t, id) := event_row agg ty p th now]> (pd_outbox (pr_delivery s)) |> |>) e') ->
  (forall x e', Q (Raise x) s e') -> wp (insert_event t agg ty o p th now) Q s e.
Proof.
  intros Hok Hno. unfold insert_event, deliver. wp_steps; auto. apply Hok. by destruct (_ !! _).
Qed.

(** The reply: a message that is pending, and the event that announces it. *)
Record replied (t u : string) (o : OutboundEnvelope) (d d' : PgDelivery) : Prop := {
  rp_fresh : pd_outbound d !! (t, u) = None;
  rp_message : exists now, pd_outbound d' = <[(t, u) := MkMessageRow "pending" None None now]> (pd_outbound d);
  rp_event : exists id now, pd_outbox d !! (t, id) = None /\
    pd_outbox d' = <[(t, id) := event_row (oe_outbound_id o) (outbound_event_type (oe_channel o)) (model_dump o) (oe_trace_headers o) now]> (pd_outbox d);
}.

Lemma wp_insert_outbound t u o now (Q : _ -> _ -> _ -> Prop) s e :
  (forall d e', replied t u o (pr_delivery s) d -> Q (Ok tt) (s <| pr_delivery := d |>) e') ->
  (forall x s' e', Q (Raise x) s' e') -> wp (insert_outbound t u o now) Q s e.
Proof.
  intros Hok Hno. unfold insert_outbound, deliver. wp_steps; auto. apply wp_insert_event; auto. intros id e' Hid.
  refine (Hok _ _ _). split; simpl; [by destruct (_ !! _)|eauto|eauto].
Qed.

Lemma wp_insert_histories key turn_id first events (Q : _ -> _ -> _ -> Prop) s e :
  (forall ev', appended key turn_id first events (pr_events s) ev' ->
     Q (Ok (first + Z.of_nat (length events))) (s <| pr_events := ev' |>) e) ->
  (forall x s' e', Q (Raise x) s' e') -> wp (insert_histories key turn_id first events) Q s e.
Proof.
  revert first s. induction events as [|x events IH]; intros first s Hok Hno; cbn [insert_histories].
  - apply wp_ret. specialize (Hok (pr_events s) (appended_nil _ _ _ _)). simpl in Hok. rewrite Z.add_0_r in Hok.
    by replace s with (s <| pr_events := pr_events s |>) by (by destruct s).
  - apply wp_bind. unfold insert_history. wp_steps; auto. apply IH; [|done]. intros ev' Hap.
    replace (first + 1 + Z.of_nat (length events)) with (first + Z.of_nat (length (x :: events))) by (simpl; lia).
    refine (Hok ev' _). eapply appended_cons; [| |exact Hap].
    + unfold events_of. simpl. by rewrite lookup_insert_eq.
    + intros k Hk. unfold events_of. simpl. by rewrite lookup_insert_ne.
Qed.

(** A unique index finds the row, or there is none. *)
Lemma find_turn_Some t i s k r :
  find_turn t i s = Some (k, r) -> pr_turns s !! k = Some r /\ k.1 = t /\ tu_inbound_id r = i.
Proof.
  unfold find_turn. intros [Hin Ht]%find_some. simpl in Ht. bool_prop.
  apply list_elem_of_In, elem_of_map_to_list in Hin. done.
Qed.

Lemma find_turn_None t i s k r :
  find_turn t i s = None -> pr_turns s !! k = Some r -> k.1 = t -> tu_inbound_id r <> i.
Proof.
  unfold find_turn. intros Hf Hk Ht Hi. apply elem_of_map_to_list, list_elem_of_In in Hk.
  pose proof (find_none _ _ Hf _ Hk) as Hn. simpl in Hn. by rewrite !bool_decide_eq_true_2 in Hn.
Qed.

Lemma find_inbound_Some t p s k r :
  find_inbound t p s = Some (k, r) -> pr_inbound s !! k = Some r /\ k.1 = t /\ p r = true.
Proof.
  unfold find_inbound. intros [Hin Ht]%find_some. simpl in Ht. bool_prop.
  apply list_elem_of_In, elem_of_map_to_list in Hin. done.
Qed.

Lemma find_inbound_None t p s k r :
  find_inbound t p s = None -> pr_inbound s !! k = Some r -> k.1 = t -> p r = false.
Proof.
  unfold find_inbound. intros Hf Hk Ht. apply elem_of_map_to_list, list_elem_of_In in Hk.
  pose proof (find_none _ _ Hf _ Hk) as Hn. simpl in Hn. by rewrite bool_decide_eq_true_2 in Hn.
Qed.
End rules.

Ltac wp_hook ::=
  lazymatch goal with
  | |- wp (transaction _) _ _ _ => apply wp_transaction
  | |- wp clock_timestamp _ _ _ => unfold clock_timestamp
  | |- wp (fetch_row _) _ _ _ => unfold fetch_row
  | |- wp (fetch_item _ _) _ _ _ => unfold fetch_item
  | |- wp (put_row _ _) _ _ _ => apply wp_put_row; intros
  | |- wp (put_pg_item _ _ _) _ _ _ => apply wp_put_pg_item; intros
  | |- wp (insert_ready _ _ _ _) _ _ _ => apply wp_insert_ready; intros
  | |- wp (_emit_ready_outbox _ _ _ _) _ _ _ => unfold _emit_ready_outbox
  | |- wp (_validate_priority _) _ _ _ => unfold _validate_priority
  | |- wp db_clock _ _ _ => unfold db_clock
  | |- wp (py_uuid _) _ _ _ => unfold py_uuid
  | |- wp (sql_uuid _) _ _ _ => unfold sql_uuid
  | |- wp (box (fetch_row _)) _ _ _ => apply wp_box_row
  | |- wp (box (fetch_item _ _)) _ _ _ => apply wp_box_item
  | |- wp (box _) _ _ _ => apply wp_box
  | |- wp (update_session _ _ _) _ _ _ => apply wp_update_session; intros
  | |- wp (update_inbound _ _ _) _ _ _ => apply wp_update_inbound; intros
  | |- wp (update_turn _ _ _) _ _ _ => apply wp_update_turn; intros
  | |- wp (set_inbound _ _ _) _ _ _ => unfold set_inbound
  | |- wp (insert_event _ _ _ _ _ _ _) _ _ _ => apply wp_insert_event; intros
  | |- wp (insert_outbound _ _ _ _) _ _ _ => apply wp_insert_outbound; intros
  | |- wp (insert_histories _ _ _ _) _ _ _ => apply wp_insert_histories; intros
  | |- wp (_acceptance _ _) _ _ _ => unfold _acceptance, make_TenantContext
  | |- wp (extend_session _ _) _ _ _ => unfold extend_session
  | |- wp (close_session _ _ _) _ _ _ => unfold close_session
  | |- wp (post_turn _ _ _) _ _ _ => unfold post_turn
  | |- wp (make_snapshot _ _ _ _) _ _ _ => unfold make_snapshot
  | |- wp (make_SessionLease _ _ _ _ _ _ _ _ _) _ _ _ => unfold make_SessionLease
  | |- wp (make_MailboxLease _ _ _ _ _ _ _ _ _ _) _ _ _ => unfold make_MailboxLease
  | |- wp (take_session _ _ _ _) _ _ _ => unfold take_session
  | |- wp (ensure_session _ _ _ _) _ _ _ => unfold ensure_session
  | |- wp (insert_turn _ _ _) _ _ _ => unfold insert_turn
  | |- wp (start_turn _ _ _ _ _ _ _) _ _ _ => unfold start_turn
  end.

Section methods.
Context `{Env} `{UuidText} `{PgUuid} `{Sha256} `{EnvelopeDump}.
Implicit Types (s : PgRepo) (e : effects).

(** *** Steps that leave the mailbox tables alone *)

Definition tables_inv (s : PgRepo) : Prop := core_inv (pr_sessions s) (pr_turns s) (pr_events s) /\ inbound_inv (pr_inbound s).

Record tables (s s' : PgRepo) : Prop := {
  tb_box : boxed (box_of s) s';
  tb_inv : tables_inv s';
  tb_core : core_le (pr_sessions s) (pr_turns s) (pr_events s) (pr_sessions s') (pr_turns s') (pr_events s');
  tb_inbound : inbound_le (pr_inbound s) (pr_inbound s');
}.

Lemma turns_inv_tables s : turns_inv s -> tables_inv s.
Proof. by intros [_ ? ?]. Qed.

Lemma tables_refl s : tables_inv s -> tables s s.
Proof. intros ?. split; [done|done|apply core_le_refl|done]. Qed.

Lemma tables_trans s s1 s2 : tables s s1 -> tables s1 s2 -> tables s s2.
Proof.
  intros [[Hm Hi Hr] _ ? ?] [[Hm' Hi' Hr'] ? ? ?]. split; [|done|by eapply core_le_trans|by etrans].
  split; simpl in *; [congruence|congruence|]. unfold ready_keys in *. simpl in *. congruence.
Qed.

Lemma tables_session key r r' s :
  tables_inv s -> pr_sessions s !! key = Some r -> same_history r r' -> tables s (s <| pr_sessions := <[key := r']> (pr_sessions s) |>).
Proof. intros [Hc Hi] Hk Hr. by destruct (core_lease _ _ _ key r r' Hc Hk Hr). Qed.

Lemma tables_new_session key r s :
  tables_inv s -> pr_sessions s !! key = None -> sr_next_sequence r = 1 -> 0 <= sr_version r -> 0 <= sr_lease_epoch r ->
  tables s (s <| pr_sessions := <[key := r]> (pr_sessions s) |>).
Proof. intros [Hc Hi] Hk Hn Hv He. by destruct (core_new_session _ _ _ key r Hc Hk Hn Hv He). Qed.

Lemma tables_turn k t t' s :
  tables_inv s -> pr_turns s !! k = Some t -> tu_inbound_id t' = tu_inbound_id t -> tu_status t <> turn_committed ->
  tables s (s <| pr_turns := <[k := t']> (pr_turns s) |>).
Proof. intros [Hc Hi] Hk Hin Hst. by destruct (core_turn _ _ _ k t t' Hc Hk Hin Hst). Qed.

Lemma tables_new_turn k t s :
  tables_inv s -> pr_turns s !! k = None -> (forall k' t', pr_turns s !! k' = Some t' -> k'.1 = k.1 -> tu_inbound_id t' <> tu_inbound_id t) ->
  tables s (s <| pr_turns := <[k := t]> (pr_turns s) |>).
Proof. intros [Hc Hi] Hk Hnew. by destruct (core_new_turn _ _ _ k t Hc Hk Hnew). Qed.

Lemma tables_message k r r' s :
  tables_inv s -> pr_inbound s !! k = Some r -> frozen r' = frozen r -> tables s (s <| pr_inbound := <[k := r']> (pr_inbound s) |>).
Proof. intros [Hc Hi] Hk Hf. destruct (inbound_update _ k r r' Hi Hk Hf). by split; [..|apply core_le_refl|]. Qed.

Lemma tables_delivery d s : tables_inv s -> tables s (s <| pr_delivery := d |>).
Proof. intros ?. split; [done|done|apply core_le_refl|done]. Qed.

Lemma tables_resolved x s s1 : tables s s1 -> tables s (put_box ((box_of s1) <| pg_resolved_at := x |>) s1).
Proof. intros Ht. eapply tables_trans; [exact Ht|]. destruct Ht. split; [done|done|apply core_le_refl|done]. Qed.

Lemma forward_of key s s' : turns_inv s -> tables s s' -> forward key [] s s'.
Proof. intros Hs [? [? ?] ? ?]. by apply forward_tables. Qed.

(** The mailbox moved between two such steps. *)
Lemma forward_box key lab s s1 t s' :
  turns_inv s -> tables s s1 -> advance key lab (box_of s1) t -> tables (put_box t s1) s' -> forward key lab s s'.
Proof.
  intros Hs [Hb _ Hc Hi] Ha [Hb' [? ?] Hc' Hi'].
  eapply (forward_intro key lab s (box_of s1) t); [done|by apply boxed_outside|done| |done| |done|by etrans].
  - by destruct Hb'.
  - by eapply core_le_trans.
Qed.

Ltac tables_step :=
  lazymatch goal with
  | |- tables ?s ?s => apply tables_refl
  | |- tables ?s (?s1 <| pr_delivery := _ |>) => apply (tables_trans s s1); [|apply tables_delivery]
  | |- tables ?s (?s1 <| pr_sessions := _ |>) => apply (tables_trans s s1); [|eapply tables_session]
  | |- tables ?s (?s1 <| pr_turns := _ |>) => apply (tables_trans s s1); [|eapply tables_turn]
  | |- tables ?s (?s1 <| pr_inbound := _ |>) => apply (tables_trans s s1); [|eapply tables_message]
  end.

(** *** Renewing *)

Lemma renew_moves lease lf key : turn_moves key (fun _ => []) (PgTurns.renew lease lf).
Proof.
  intros s e Hs. unfold PgTurns.renew, tenant_transaction. wp_steps; try done.
  apply forward_of; [done|]. eapply tables_session; [by apply turns_inv_tables|eassumption|]. by split_and!.
Qed.

Lemma forward_quiet key s s1 t s' :
  turns_inv s -> tables s s1 -> quiet (box_of s1) t -> tables (put_box t s1) s' -> forward key [] s s'.
Proof. intros Hs Ht Hq. apply (forward_box key [] s s1 t); [done|done|by apply quiet_advance]. Qed.

Lemma tables_put_box t s : tables_inv s -> tables_inv (put_box t s).
Proof. done. Qed.

Lemma renew_session_ready_moves lease lf key : turn_moves key (fun _ => []) (PgTurns.renew_session_ready lease lf).
Proof.
  intros s e Hs. unfold PgTurns.renew_session_ready, tenant_transaction. wp_steps; try done.
  eapply wp_mono; [apply extend_row_quiet, Hs|]. intros [ex|x] t e1 Hq; wp_steps; try done.
  eapply (forward_quiet _ s s t); [done|by apply tables_refl, turns_inv_tables|done|].
  eapply tables_session; [by apply tables_put_box, turns_inv_tables|eassumption|]. by split_and!.
Qed.

(** *** The rows of a turn *)

(** What the locked mailbox says: the item [sequence] is the head, and carries the message of the lease. *)
Lemma lock_mailbox_run lease x y s e :
  turns_inv s ->
  wp (lock_mailbox lease x y) (fun r s' _ => s' = s /\ match r with
    | Ok (mb, sequence, now) => pr_mailboxes s !! lease_key lease = Some mb /\ sequence = mb_resolved_sequence mb + 1 /\
        _valid_v2_mailbox (Some mb) lease now = true /\
        exists it, pg_items_of (lease_key lease) (box_of s) !! sequence = Some it /\ mi_inbound_id it = sl_inbound_id lease
    | Raise _ => True end) s e.
Proof.
  intros Hs. unfold lock_mailbox. wp_steps; try done. split; [done|]. bool_prop.
  match goal with Hm : pr_mailboxes s !! _ = Some ?mb |- _ => pose proof (pi_mailbox _ (ti_box s Hs) _ mb Hm) as Hok end.
  match goal with Hp : mb_processing_sequence ?mb = Some ?n |- _ => destruct (processing_is_head _ _ _ _ Hok Hp) as [Hr ->] end.
  split_and!; [done|done|done|]. pose proof (mo_lease _ _ _ Hok) as Hl. unfold lease_ok in Hl. rewrite Hr in Hl.
  destruct Hl as (it & ow & ex & Hit & _ & Hi & _). exists it. split; [done|].
  match goal with Hv : _valid_v2_mailbox _ _ _ = true |- _ => unfold _valid_v2_mailbox in Hv; rewrite Hi in Hv; simpl in Hv; by bool_prop end.
Qed.

(** The rows that were read. *)
Definition rows_of (lease : SessionLease) (mb : SessionMailbox) (sequence : Z) (s : PgRepo) (rows : TurnRows) : Prop :=
  tw_mailbox rows = mb /\ tw_sequence rows = sequence /\ pr_sessions s !! lease_key lease = Some (tw_session rows) /\
  pr_turns s !! tw_turn_key rows = Some (tw_turn rows) /\ (tw_turn_key rows).1 = sl_tenant_id lease /\
  pg_items_of (lease_key lease) (box_of s) !! sequence = Some (tw_item rows) /\
  pr_inbound s !! tw_inbound_key rows = Some (tw_inbound rows) /\
  uuid_param (sl_turn_id lease) = Some (tw_turn_key rows).2 /\ uuid_param (sl_inbound_id lease) = Some (tw_inbound_key rows).2 /\
  (tw_inbound_key rows).1 = sl_tenant_id lease.

Lemma lock_turn_run lease mb sequence x s e :
  wp (lock_turn lease mb sequence x) (fun r s' _ => s' = s /\ match r with
    | Ok rows => rows_of lease mb sequence s rows | Raise _ => True end) s e.
Proof. unfold lock_turn. by wp_steps. Qed.

(** A turn that is current is not committed. *)
Lemma turn_current_spec lease rows now :
  turn_current lease rows now = true ->
  sr_lease_owner (tw_session rows) = Some (sl_worker_id lease) /\ sr_lease_epoch (tw_session rows) = sl_fencing_token lease /\
  (exists ex, sr_lease_expires_at (tw_session rows) = Some ex /\ now < ex) /\
  tu_status (tw_turn rows) = turn_processing /\ tu_fencing_token (tw_turn rows) = sl_fencing_token lease /\
  in_status (tw_inbound rows) = processing.
Proof.
  unfold turn_current, holds_session, turn_in_processing, in_processing.
  rewrite !andb_true_iff, !bool_decide_eq_true, !Z.eqb_eq, after_true. tauto.
Qed.

Lemma lock_current_run lease x s e :
  turns_inv s ->
  wp (lock_current lease x) (fun r s' _ => s' = s /\ match r with
    | Ok (rows, now) => pr_mailboxes s !! lease_key lease = Some (tw_mailbox rows) /\
        tw_sequence rows = mb_resolved_sequence (tw_mailbox rows) + 1 /\ mi_inbound_id (tw_item rows) = sl_inbound_id lease /\
        rows_of lease (tw_mailbox rows) (tw_sequence rows) s rows /\ turn_current lease rows now = true
    | Raise _ => True end) s e.
Proof.
  intros Hs. unfold lock_current. apply wp_bind. eapply wp_mono; [by apply lock_mailbox_run|].
  intros [[[mb n] now]|y] s1 e1 [-> Hl]; [|done]. destruct Hl as (Hm & Hn & _ & it & Hit & Hid).
  apply wp_bind. eapply wp_mono; [apply lock_turn_run|]. intros [rows|y] s2 e2 [-> Hr]; [|done].
  wp_steps; [done|]. bool_prop. pose proof Hr as (Hmb & Hseq & _ & _ & _ & Hit' & _). split; [done|].
  rewrite Hmb, Hseq. split_and!; [done|done|congruence|by rewrite <-Hmb, <-Hseq in *|done].
Qed.

(** *** Releasing *)

Lemma release_turn_run lease mb sequence rows now et st s e :
  rows_of lease mb sequence s rows -> turn_current lease rows now = true ->
  wp (release_turn rows et st) (fun r s' _ => r = Ok tt /\
    s' = s <| pr_turns := <[tw_turn_key rows := (tw_turn rows) <| tu_status := turn_failed |> <| tu_error_type := Some et |>]> (pr_turns s) |>
           <| pr_inbound := <[tw_inbound_key rows := (tw_inbound rows) <| in_status := st |>]> (pr_inbound s) |>) s e.
Proof.
  intros (_ & _ & _ & Ht & _ & _ & Hi & _) (_ & _ & _ & Hp & _ & Hpi)%turn_current_spec.
  unfold release_turn, turn_in_processing, in_processing in *. wp_steps; simplify_eq/=; try done.
  all: repeat match goal with Hx : match ?o with _ => _ end, Hy : ?o = Some _ |- _ => rewrite Hy in Hx end.
  all: unfold turn_in_processing, in_processing in *; bool_prop; congruence.
Qed.

Lemma released_tables lease mb sequence rows now et st s :
  tables_inv s -> rows_of lease mb sequence s rows -> turn_current lease rows now = true ->
  tables s (s <| pr_turns := <[tw_turn_key rows := (tw_turn rows) <| tu_status := turn_failed |> <| tu_error_type := Some et |>]> (pr_turns s) |>
              <| pr_inbound := <[tw_inbound_key rows := (tw_inbound rows) <| in_status := st |>]> (pr_inbound s) |>).
Proof.
  intros Hs (_ & _ & _ & Ht & _ & _ & Hi & _) (_ & _ & _ & Hp & _ & Hpi)%turn_current_spec.
  set (t' := (tw_turn rows) <| tu_status := turn_failed |> <| tu_error_type := Some et |>).
  pose proof (tables_turn (tw_turn_key rows) (tw_turn rows) t' s Hs Ht eq_refl ltac:(congruence)) as Hturn.
  eapply tables_trans; [exact Hturn|]. set (i' := (tw_inbound rows) <| in_status := st |>).
  by apply (tables_message (tw_inbound_key rows) (tw_inbound rows) i' _ (tb_inv _ _ Hturn) Hi).
Qed.

(** Leaving the session keeps its history. *)
Lemma leave_session_run lease s e :
  tables_inv s -> wp (leave_session lease) (fun r s' _ => r = Ok tt /\ tables s s') s e.
Proof.
  intros Hs. unfold leave_session. wp_steps; (split; [done|]); [|by apply tables_refl].
  eapply tables_session; [done|eassumption|]. by split_and!.
Qed.

Lemma retry_session_ready_moves lease et delay :
  turn_moves (lease_key lease) (fun _ => []) (PgTurns.retry_session_ready lease et delay).
Proof.
  intros s e Hs. unfold PgTurns.retry_session_ready, tenant_transaction. wp_steps; [done|].
  eapply wp_mono; [by apply lock_current_run|]. intros [[rows now]|x] s1 e1 [-> Hl]; wp_steps; [|done].
  destruct Hl as (Hm & Hseq & Hid & Hr & Hc).
  eapply wp_mono; [by eapply release_turn_run|]. intros r s2 e2 [-> ->]. wp_steps.
  pose proof (released_tables lease _ _ rows now et accepted s (turns_inv_tables _ Hs) Hr Hc) as Htb.
  eapply wp_mono.
  { eapply retry_row_quiet; [|exact Hm|exact Hseq|exact (proj1 (proj2 (proj2 (proj2 (proj2 (proj2 Hr))))))].
    eapply outside_quiet; [apply Hs|]. apply boxed_outside, Htb. }
  intros [u|y] t e3 Hq; [|done]. cbn beta iota.
  eapply wp_mono; [apply leave_session_run, Htb|]. intros r s3 e4 [-> Ht].
  by eapply (forward_quiet _ s _ t).
Qed.

Lemma fail_session_ready_moves lease et :
  turn_moves (lease_key lease) (fun _ => [sl_inbound_id lease]) (PgTurns.fail_session_ready lease et).
Proof.
  intros s e Hs. unfold PgTurns.fail_session_ready, tenant_transaction. wp_steps.
  eapply wp_mono; [by apply lock_current_run|]. intros [[rows now]|x] s1 e1 [-> Hl]; wp_steps; [|done].
  destruct Hl as (Hm & Hseq & Hid & Hr & Hc).
  eapply wp_mono; [by eapply release_turn_run|]. intros r s2 e2 [-> ->]. wp_steps.
  pose proof (released_tables lease _ _ rows now et failed s (turns_inv_tables _ Hs) Hr Hc) as Htb.
  match goal with |- context [@set_field _ _ pg_resolved_at _ ?x _] => apply (tables_resolved x) in Htb end.
  eapply wp_mono.
  { eapply advance_mailbox_moves; [|exact Hm|exact Hseq|exact (proj1 (proj2 (proj2 (proj2 (proj2 (proj2 Hr))))))].
    eapply outside_quiet; [apply Hs|]. apply boxed_outside, Htb. }
  intros [row|y] t e3 Hq; [|done]. cbn beta iota. destruct Hq as [Ha _]. rewrite Hid in Ha.
  eapply wp_mono; [apply leave_session_run, Htb|]. intros r s3 e4 [-> Ht].
  eapply (forward_box _ _ s _ t); [done|exact Htb| |exact Ht].
  destruct Ha as [? Hv ?]. split; [done|exact Hv|done].
Qed.

(** *** Committing *)

Definition reply_of (read : string -> option string) (t : string) (c : TurnCommit) (d d' : PgDelivery) : Prop :=
  match tn_outbound c with
  | None => d' = d
  | Some o => exists u, read (oe_outbound_id o) = Some u /\ replied t u o d d'
  end.

Lemma write_turn_run cast read err c k first now s e :
  (forall text, cast text = match read text with Some u => ret u | None => raise err end) ->
  wp (write_turn cast c k first now) (fun r s' _ => match r with
    | Ok next => next = first + Z.of_nat (length (tn_events c)) /\ exists ev' d',
        s' = s <| pr_events := ev' |> <| pr_delivery := d' |> /\
        appended (lease_key (tn_lease c)) k.2 first (tn_events c) (pr_events s) ev' /\
        reply_of read (sl_tenant_id (tn_lease c)) c (pr_delivery s) d'
    | Raise _ => True end) s e.
Proof.
  intros Hcast. unfold write_turn, reply_of. do 2 wp_step; [|done]. destruct (tn_outbound c) as [o|] eqn:Ho.
  - rewrite Hcast. destruct (read (oe_outbound_id o)) as [u|] eqn:Hu; wp_steps; try done. split; [done|].
    eexists _, _. split_and!; [done|done|]. eauto.
  - wp_steps. split; [done|]. exists ev', (pr_delivery s). split_and!; [by destruct s|done|done].
Qed.

(** What the commit of the turn [k] leaves in the tables of the turns. *)
Record turn_written (read : string -> option string) (c : TurnCommit) (k : id_key) (res : CommitResult) (s s' : PgRepo) : Prop := {
  tw_key : k.1 = sl_tenant_id (tn_lease c) /\ read (sl_turn_id (tn_lease c)) = Some k.2;
  tw_lease : exists r, pr_sessions s !! lease_key (tn_lease c) = Some r /\ sr_lease_owner r = Some (sl_worker_id (tn_lease c)) /\
    sr_lease_epoch r = sl_fencing_token (tn_lease c) /\
    appended (lease_key (tn_lease c)) k.2 (sr_next_sequence r) (tn_events c) (pr_events s) (pr_events s') /\
    res = turn_result c (sr_next_sequence r) (sr_next_sequence r + Z.of_nat (length (tn_events c))) /\
    exists r', pr_sessions s' = <[lease_key (tn_lease c) := r']> (pr_sessions s) /\ sr_state r' = tn_state c /\
      sr_version r' = sr_version r + 1 /\ sr_next_sequence r' = sr_next_sequence r + Z.of_nat (length (tn_events c)) /\
      sr_lease_owner r' = None /\ sr_lease_expires_at r' = None /\ sr_lease_epoch r' = sr_lease_epoch r;
  tw_status : exists t t', pr_turns s !! k = Some t /\ tu_status t = turn_processing /\ tu_fencing_token t = sl_fencing_token (tn_lease c) /\
    pr_turns s' = <[k := t']> (pr_turns s) /\ tu_status t' = turn_committed /\ tu_inbound_id t' = tu_inbound_id t;
  tw_message : exists u, read (sl_inbound_id (tn_lease c)) = Some u /\
    (forall r, pr_inbound s' !! (sl_tenant_id (tn_lease c), u) = Some r -> in_status r = committed) /\
    (forall k0, k0 <> (sl_tenant_id (tn_lease c), u) -> pr_inbound s' !! k0 = pr_inbound s !! k0);
  tw_reply : exists d, reply_of read (sl_tenant_id (tn_lease c)) c (pr_delivery s) d /\
    pd_outbound (pr_delivery s') = pd_outbound d /\ exists id row, pd_outbox d !! (sl_tenant_id (tn_lease c), id) = None /\
      pd_outbox (pr_delivery s') = <[(sl_tenant_id (tn_lease c), id) := row]> (pd_outbox d) /\
      ev_event_type row = "post_turn.ready"%string /\ ev_aggregate_id row = sl_turn_id (tn_lease c) /\ unpublished row = true /\
      (forall r, pr_sessions s' !! lease_key (tn_lease c) = Some r -> ev_payload row !! "up_to_sequence"%string = Some (PInt (sr_next_sequence r - 1)));
}.

Lemma tables_commit key k r r' t t' events s s' :
  tables_inv s -> boxed (box_of s) s' -> pr_sessions s !! key = Some r -> pr_turns s !! k = Some t -> k.1 = key.1 ->
  tu_status t <> turn_committed -> tu_status t' = turn_committed -> tu_inbound_id t' = tu_inbound_id t ->
  appended key k.2 (sr_next_sequence r) events (pr_events s) (pr_events s') ->
  sr_next_sequence r' = sr_next_sequence r + Z.of_nat (length events) -> sr_version r' = sr_version r + 1 ->
  sr_lease_epoch r' = sr_lease_epoch r ->
  pr_sessions s' = <[key := r']> (pr_sessions s) -> pr_turns s' = <[k := t']> (pr_turns s) ->
  inbound_inv (pr_inbound s') -> inbound_le (pr_inbound s) (pr_inbound s') -> tables s s'.
Proof.
  intros [Hc Hi] Hb Hr Ht Hkey Hst Hst' Hin Hap Hn Hv He Hss Htt ? ?.
  destruct (core_commit _ _ _ key k r r' t t' events (pr_events s') Hc Hr Ht Hkey Hst Hst' Hin Hap Hn Hv He).
  split; [done| |by rewrite Hss, Htt|done]. split; [by rewrite Hss, Htt|done].
Qed.

Lemma settle_turn_run lease rows state next now s e :
  turn_current lease rows now = true -> pr_sessions s !! lease_key lease = Some (tw_session rows) ->
  pr_turns s !! tw_turn_key rows = Some (tw_turn rows) -> pr_inbound s !! tw_inbound_key rows = Some (tw_inbound rows) ->
  wp (settle_turn lease rows state next) (fun r s' _ => match r with
    | Ok _ => exists r' t', s' = s <| pr_sessions := <[lease_key lease := r']> (pr_sessions s) |> <| pr_turns := <[tw_turn_key rows := t']> (pr_turns s) |>
        <| pr_inbound := <[tw_inbound_key rows := (tw_inbound rows) <| in_status := committed |>]> (pr_inbound s) |> /\
        sr_state r' = state /\ sr_version r' = sr_version (tw_session rows) + 1 /\ sr_next_sequence r' = next /\
        sr_lease_owner r' = None /\ sr_lease_expires_at r' = None /\ sr_lease_epoch r' = sr_lease_epoch (tw_session rows) /\
        tu_status t' = turn_committed /\ tu_inbound_id t' = tu_inbound_id (tw_turn rows)
    | Raise _ => True end) s e.
Proof.
  intros (_ & _ & _ & Hp & _ & Hpi)%turn_current_spec Hs Ht Hi. unfold settle_turn. wp_steps; try done.
  all: repeat match goal with
    | Hx : match ?o with _ => _ end |- _ => progress simpl in Hx
    | Hx : pr_turns _ !! _ = Some _ |- _ => progress simpl in Hx
    | Hx : pr_inbound _ !! _ = Some _ |- _ => progress simpl in Hx end.
  all: simplify_eq; rewrite ?Ht, ?Hi in *; unfold turn_in_processing, in_processing in *; bool_prop; try congruence.
  eexists _, _. by split_and!.
Qed.

Lemma commit_session_ready_run c s e :
  turns_inv s ->
  wp (PgTurns.commit_session_ready c) (fun r s' _ => match r with
    | Ok res => forward (lease_key (tn_lease c)) [sl_inbound_id (tn_lease c)] s s' /\
        (exists mb sequence now, pr_mailboxes s !! lease_key (tn_lease c) = Some mb /\ _valid_v2_mailbox (Some mb) (tn_lease c) now = true /\
          sequence = mb_resolved_sequence mb + 1 /\ resolved (lease_key (tn_lease c)) mb sequence (box_of s) (box_of s')) /\
        exists k, turn_written uuid_param c k res s s'
    | Raise _ => s' = s end) s e.
Proof.
  intros Hs. unfold PgTurns.commit_session_ready, tenant_transaction. wp_steps.
  eapply wp_mono; [by apply lock_mailbox_run|]. intros [[[mb n] now]|x] s1 e1 [-> Hl]; wp_steps; [|done].
  destruct Hl as (Hm & Hn & Hvalid & it & Hit & Hid).
  eapply wp_mono; [apply lock_turn_run|]. intros [rows|x] s2 e2 [-> Hr]; wp_steps; [done| |done]. bool_prop.
  pose proof Hr as (Hmb & Hseq & Hsess & Ht & Hk1 & Hit' & Hi & Hku & Hiu & Hi1).
  destruct (turn_current_spec (tn_lease c) rows _ ltac:(eassumption)) as (Ho & Hep & _ & Hp & Htok & Hpi).
  eapply wp_mono; [by eapply (write_turn_run sql_uuid uuid_param)|]. intros [next|x] s3 e3 Hw; [|done].
  destruct Hw as (-> & ev' & d' & -> & Hap & Hrep). wp_steps.
  eapply wp_mono; [by eapply settle_turn_run|]. intros [u|x] s4 e4 Hst; [|done].
  destruct Hst as (r' & t' & -> & Hst & Hv & Hnx & Hro & Hrx & Hre & Htst & Htin).
  set (s4 := s <| pr_events := ev' |> <| pr_delivery := d' |> <| pr_sessions := _ |> <| pr_turns := _ |> <| pr_inbound := _ |>).
  assert (Htb : tables s s4).
  { destruct (inbound_update _ (tw_inbound_key rows) (tw_inbound rows) _ (ti_inbound s Hs) Hi (frozen_status committed _)).
    apply (tables_commit (lease_key (tn_lease c)) (tw_turn_key rows) (tw_session rows) r' (tw_turn rows) t' (tn_events c));
      try done; [by apply turns_inv_tables|congruence]. }
  wp_steps. eapply wp_mono.
  { eapply (close_mailbox_moves (tn_lease c) mb n it); [eapply outside_quiet, boxed_outside, Htb; apply Hs|done|done|done]. }
  intros [v|x] t e5 Hcl; [|done]. destruct Hcl as [Ha Hres]. rewrite Hid in Ha. unfold post_turn. wp_steps; [|done].
  split_and!.
  - eapply (forward_box _ _ s s4 t); [done|done|done|]. apply tables_delivery, Htb.
  - exists mb, n, now. split_and!; try done. destruct Hres as [(row & Hrow & ?) ?]. split; [|done]. by exists row.
  - exists (tw_turn_key rows). split; [done| | | |].
    + exists (tw_session rows). split_and!; try done. exists r'. by split_and!.
    + exists (tw_turn rows), t'. by split_and!.
    + exists (tw_inbound_key rows).2. split; [done|]. rewrite <-Hi1, <-surjective_pairing. split; simpl.
      * intros r. rewrite lookup_insert_eq. by intros [= <-].
      * intros k0 Hk0. by rewrite lookup_insert_ne.
    + exists d'. split_and!; [done|done|]. eexists id, _. split_and!; [done|done|done|done|done|].
      simpl. intros r. rewrite lookup_insert_eq. intros [= <-]. rewrite Hnx. done.
Qed.

Lemma commit_session_ready_moves c :
  turn_moves (lease_key (tn_lease c)) (fun _ => [sl_inbound_id (tn_lease c)]) (PgTurns.commit_session_ready c).
Proof. intros s e Hs. eapply wp_mono; [by apply commit_session_ready_run|]. intros [res|x] s' e' Hp; [|done]. apply Hp. Qed.

(** *** Version 1 *)

(** The message of a turn, if it is there. *)
Lemma set_inbound_run k cond st s e :
  tables_inv s ->
  wp (set_inbound k cond st) (fun r s' _ => r = Ok tt /\ tables s s' /\
    (forall k0, k0 <> k -> pr_inbound s' !! k0 = pr_inbound s !! k0) /\
    (forall r, cond = (fun _ => true) -> pr_inbound s' !! k = Some r -> in_status r = st) /\
    exists m, s' = s <| pr_inbound := m |>) s e.
Proof.
  intros Hs. unfold set_inbound. wp_steps; (split; [done|]).
  - split_and!; [by eapply tables_message; [done|eassumption|]|intros k0 Hk0; simpl; by rewrite lookup_insert_ne| |eauto].
    intros r0 _. simpl. rewrite lookup_insert_eq. by intros [= <-].
  - split_and!; [by apply tables_refl|done| |exists (pr_inbound s); by destruct s].
    intros r0 -> Hr. by rewrite Hr in *.
Qed.

Lemma settle_session_run lease k state next r t s e :
  inbound_inv (pr_inbound s) -> pr_sessions s !! lease_key lease = Some r -> pr_turns s !! k = Some t ->
  wp (settle_session lease k state next) (fun o s' _ => match o with
    | Ok _ => exists r' t' m u, s' = s <| pr_sessions := <[lease_key lease := r']> (pr_sessions s) |> <| pr_turns := <[k := t']> (pr_turns s) |>
        <| pr_inbound := m |> /\ parse_uuid (sl_inbound_id lease) = Some u /\ inbound_inv m /\ inbound_le (pr_inbound s) m /\
        (forall i, m !! (sl_tenant_id lease, u) = Some i -> in_status i = committed) /\
        (forall k0, k0 <> (sl_tenant_id lease, u) -> m !! k0 = pr_inbound s !! k0) /\
        sr_state r' = state /\ sr_version r' = sr_version r + 1 /\ sr_next_sequence r' = next /\
        sr_lease_owner r' = None /\ sr_lease_expires_at r' = None /\ sr_lease_epoch r' = sr_lease_epoch r /\
        tu_status t' = turn_committed /\ tu_inbound_id t' = tu_inbound_id t
    | Raise _ => True end) s e.
Proof.
  intros Hi Hs Ht. unfold settle_session. wp_steps; try done.
  all: repeat match goal with
    | Hx : match ?o with _ => _ end |- _ => progress simpl in Hx
    | Hx : pr_turns _ !! _ = Some _ |- _ => progress simpl in Hx
    | Hx : pr_inbound _ !! _ = Some _ |- _ => progress simpl in Hx end.
  all: simplify_eq; rewrite ?Ht in *; try done.
  - match goal with Hr : pr_inbound s !! _ = Some ?r2 |- _ => destruct (inbound_update _ _ _ _ Hi Hr (frozen_status committed r2)) end.
    eexists _, _, _, _. split; [done|]. split; [done|]. simpl. split_and!; try done.
    + intros i. rewrite lookup_insert_eq. by intros [= <-].
    + intros k0 Hk0. by rewrite lookup_insert_ne.
  - eexists _, _, (pr_inbound s), _. split; [done|]. split; [done|]. split_and!; try done. intros i Hr.
    by match goal with Hx : match pr_inbound s !! _ with _ => _ end |- _ => rewrite Hr in Hx end.
Qed.

Lemma commit_run c s e :
  turns_inv s ->
  wp (PgTurns.commit c) (fun r s' _ => match r with
    | Ok res => forward (lease_key (tn_lease c)) [] s s' /\ exists k, turn_written parse_uuid c k res s s'
    | Raise _ => s' = s end) s e.
Proof.
  intros Hs. unfold PgTurns.commit, tenant_transaction. wp_steps; try done.
  match goal with Hu : parse_uuid _ = Some ?u, Hr : pr_sessions s !! _ = Some ?r, Hk : pr_turns s !! _ = Some ?t |- _ =>
    rename Hu into Hku, Hr into Hsess, Hk into Ht, u into turn_id, r into session, t into turn end.
  bool_prop. unfold holds_session, turn_in_processing in *. bool_prop.
  eapply wp_mono; [by eapply (write_turn_run py_uuid parse_uuid)|]. intros [next|x] s3 e3 Hw; [|done].
  destruct Hw as (-> & ev' & d' & -> & Hap & Hrep). wp_steps.
  eapply wp_mono; [eapply settle_session_run; [apply Hs|exact Hsess|exact Ht]|]. intros [u|x] s4 e4 Hst; [|done].
  destruct Hst as (r' & t' & m & u' & -> & Hiu & ? & ? & Hi1 & Hi2 & Hst & Hv & Hnx & Hro & Hrx & Hre & Htst & Htin).
  unfold post_turn. wp_steps; [|done].
  set (s4 := s <| pr_events := ev' |> <| pr_delivery := d' |> <| pr_sessions := _ |> <| pr_turns := _ |> <| pr_inbound := _ |>).
  assert (Htb : tables s s4).
  { apply (tables_commit (lease_key (tn_lease c)) (sl_tenant_id (tn_lease c), turn_id) session r' turn t' (tn_events c));
      try done; [by apply turns_inv_tables|congruence]. }
  split.
  - apply forward_of; [done|]. eapply tables_trans; [exact Htb|]. apply tables_delivery, Htb.
  - exists (sl_tenant_id (tn_lease c), turn_id). split; [done| | | |].
    + exists session. split_and!; try done. exists r'. by split_and!.
    + exists turn, t'. by split_and!.
    + exists u'. by split_and!.
    + exists d'. split_and!; [done|done|]. eexists id, _. split_and!; [done|done|done|done|done|].
      simpl. intros r. rewrite lookup_insert_eq. intros [= <-]. rewrite Hnx. done.
Qed.

Lemma fail_moves lease et key : turn_moves key (fun _ => []) (PgTurns.fail lease et).
Proof.
  intros s e Hs. unfold PgTurns.fail. apply tenant_transaction_moves; [|done]. clear. intros now s e Hs.
  pose proof (turns_inv_tables s Hs) as Htb. wp_step. wp_step. destruct (parse_uuid (sl_turn_id lease)) as [u|]; [|done].
  apply wp_ret, wp_bind.
  apply (wp_mono _ (fun r s' _ => r = Ok tt /\ tables s s')).
  { wp_steps; (split; [done|]); [|by apply tables_refl]. unfold turn_in_processing in *. bool_prop.
    eapply tables_turn; [done|eassumption|done|congruence]. }
  intros r s1 e1 [-> Htb1]. cbv beta iota. apply wp_bind. unfold py_uuid. destruct (parse_uuid (sl_inbound_id lease)) as [u'|]; [|done].
  apply wp_ret, wp_bind, wp_gets, wp_bind. apply (wp_mono _ (fun r s' _ => r = Ok tt /\ tables s s')).
  { destruct (from_option _ _ _); [|by apply wp_ret]. eapply wp_mono; [apply set_inbound_run, Htb1|]. intros r s2 e2 (-> & Htb2 & _). split; [done|].
    by eapply tables_trans. }
  intros r s2 e2 [-> Htb2]. wp_steps; (apply forward_of; [done|]); [|done].
  eapply tables_trans; [exact Htb2|]. eapply tables_session; [apply Htb2|eassumption|]. by split_and!.
Qed.

(** *** Granting a turn *)

Lemma ensure_session_run key app p now s e :
  tables_inv s ->
  wp (ensure_session key app p now) (fun o s' _ => match o with
    | Ok r => tables s s' /\ pr_sessions s' !! key = Some r /\ 0 <= sr_lease_epoch r /\
        (forall r0, pr_sessions s !! key = Some r0 -> r0 = r) /\ exists m, s' = s <| pr_sessions := m |>
    | Raise _ => True end) s e.
Proof.
  intros Hs. unfold ensure_session. wp_steps; try done.
  - split_and!; [by apply tables_refl|done|by eapply (ci_session _ _ _ (proj1 Hs))|congruence|exists (pr_sessions s); by destruct s].
  - split_and!; [by apply tables_new_session|simpl; apply lookup_insert_eq|done|congruence|eauto].
Qed.

Lemma take_session_run key epoch ow lf r s e :
  tables_inv s -> pr_sessions s !! key = Some r -> sr_lease_epoch r <= epoch ->
  wp (take_session key epoch ow lf) (fun o s' _ => o = Ok tt /\ tables s s' /\
    exists r', s' = s <| pr_sessions := <[key := r']> (pr_sessions s) |> /\ sr_lease_epoch r' = epoch /\ sr_lease_owner r' = Some ow /\
      sr_lease_expires_at r' = Some (clock_at (ticks e) + lf) /\ sr_next_sequence r' = sr_next_sequence r) s e.
Proof.
  intros Hs Hr Hep. unfold take_session. wp_steps; simplify_eq; [|by rewrite Hr in *].
  split_and!; [done|eapply tables_session; [done|done|by split_and!]|]. eexists. by split_and!.
Qed.

(** The turn [id] of the message [i] starts, and was not committed. *)
Definition started (t id i : string) (epoch : Z) (s s' : PgRepo) : Prop :=
  (forall r, pr_turns s !! (t, id) = Some r -> tu_status r <> turn_committed /\ tu_inbound_id r = i) /\
  exists r, pr_turns s' !! (t, id) = Some r /\ tu_status r = turn_processing /\ tu_fencing_token r = epoch /\ tu_inbound_id r = i.

Lemma start_turn_run key i cv epoch attempt turn now s e :
  tables_inv s -> find_turn key.1 i s = turn -> (forall k r, turn = Some (k, r) -> tu_status r <> turn_committed) ->
  wp (start_turn key i cv epoch attempt turn now) (fun o s' _ => match o with
    | Ok id => tables s s' /\ started key.1 id i epoch s s' /\ exists m, s' = s <| pr_turns := m |>
    | Raise _ => True end) s e.
Proof.
  intros Hs Hf Hnc. destruct turn as [[k r]|].
  - destruct (find_turn_Some _ _ _ _ _ Hf) as (Hk & Hk1 & Hi). pose proof (Hnc _ _ eq_refl) as Hst.
    unfold start_turn. wp_steps; simplify_eq; [|by rewrite Hk in *]. split_and!; [by eapply tables_turn| |eauto].
    unfold started. replace (key.1, k.2) with k by (destruct k; simpl in *; congruence). split; [intros r1; rewrite Hk; by intros [= <-]|].
    eexists. split; [simpl; apply lookup_insert_eq|]. by split_and!.
  - unfold start_turn. wp_steps; try done. bool_prop.
    assert (Hnone : pr_turns s !! (key.1, uuid_at (uuids e)) = None)
      by (apply eq_None_not_Some; intros [x Hx]; unfold id in *; by rewrite Hx in *).
    split_and!; [apply tables_new_turn; [done|done|]| |eauto].
    + intros k' t' Hk' Ht'. by eapply find_turn_None.
    + split; [intros r1; by rewrite Hnone|]. eexists. split; [simpl; apply lookup_insert_eq|]. by split_and!.
Qed.

(** What a lease that was handed out says of the tables. *)
Record granted_turn (lease : SessionLease) (i : string) (s s' : PgRepo) : Prop := {
  gt_epoch r : pr_sessions s !! lease_key lease = Some r -> sr_lease_epoch r < sl_fencing_token lease;
  gt_session : exists r, pr_sessions s' !! lease_key lease = Some r /\ sr_lease_epoch r = sl_fencing_token lease /\
    sr_lease_owner r = Some (sl_worker_id lease);
  gt_turn : started (sl_tenant_id lease) (sl_turn_id lease) i (sl_fencing_token lease) s s';
}.

Lemma read_events_run rows s e :
  wp (read_events rows) (fun o s' e' => s' = s /\ e' = e) s e.
Proof.
  induction rows as [|[n r] rows IH]; cbn [read_events]; [by apply wp_ret|]. wp_steps; [done|].
  eapply wp_mono; [apply IH|]. intros [l|x] s' e' [-> ->]; wp_steps; done.
Qed.

Lemma acquire_turn_run key i it ow cv lf sn session now s e :
  tables_inv s -> pr_sessions s !! key = Some session -> (forall k r, find_turn key.1 i s = Some (k, r) -> tu_status r <> turn_committed) ->
  wp (acquire_turn key i it ow cv lf sn session (find_turn key.1 i s) now) (fun o s' _ => match o with
    | Ok lease => tables s s' /\ lease_key lease = key /\ granted_turn lease i s s'
    | Raise _ => True end) s e.
Proof.
  intros Hs Hk Hnc. unfold acquire_turn. apply wp_bind. eapply wp_mono; [eapply take_session_run; [done|done|lia]|].
  intros o s1 e1 (-> & Htb1 & r' & -> & Hep & Ho & _). apply wp_bind.
  eapply wp_mono; [apply start_turn_run; [apply Htb1|done|exact Hnc]|].
  intros [id|x] s2 e2 Hst; [|done]. destruct Hst as (Htb2 & Hst & m & ->). apply wp_bind.
  eapply wp_mono; [apply set_inbound_run, Htb2|]. intros o s3 e3 (-> & Htb3 & _ & _ & m' & ->).
  apply wp_bind, wp_gets, wp_bind. eapply wp_mono; [apply read_events_run|]. intros [ev|x] s4 e4 [-> ->]; [|done].
  wp_steps; try done. split_and!; [by eapply tables_trans; [|eapply tables_trans]|by destruct key|].
  split; simpl; rewrite <-?surjective_pairing.
  - intros r. destruct key. simpl. rewrite Hk. intros [= <-]. lia.
  - exists r'. destruct key. simpl. rewrite lookup_insert_eq. by split_and!.
  - exact Hst.
Qed.

Ltac wp_if Hx := lazymatch goal with |- wp (match ?x with _ => _ end) _ _ _ => destruct x eqn:Hx end.

Lemma acquire_run a ow lf s e :
  turns_inv s ->
  wp (PgTurns.acquire a ow lf) (fun o s' _ => match o with
    | Ok lease => forward (tc_tenant_id (acc_context a), tc_session_id (acc_context a)) [] s s' /\
        (forall l, lease = Some l -> exists i, parse_uuid (acc_inbound_id a) = Some i /\
           lease_key l = (tc_tenant_id (acc_context a), tc_session_id (acc_context a)) /\ granted_turn l i s s')
    | Raise _ => s' = s end) s e.
Proof.
  intros Hs. pose proof (turns_inv_tables s Hs) as Htb. unfold PgTurns.acquire, tenant_transaction.
  destruct (parse_uuid (acc_inbound_id a)) as [i|] eqn:Hi; [|wp_steps; congruence].
  unfold py_uuid. rewrite Hi. apply wp_bind, wp_ret, wp_rollback, wp_bind, wp_datetime_now, wp_bind, wp_box_row, wp_bind.
  apply (wp_mono _ (fun o s' _ => s' = s /\ exists b, o = Ok b)).
  { unfold mailbox_busy. wp_steps; eauto. }
  intros o s1 e1 [-> [busy ->]]. destruct busy; [apply wp_ret; split; [by apply forward_same|done]|].
  apply wp_bind. eapply wp_mono; [by apply ensure_session_run|]. intros [session|x] s2 e2 Hse; [|done].
  destruct Hse as (Htb2 & Hk & _ & Hold & m & ->). apply wp_bind, wp_gets.
  wp_if Hc; [apply wp_ret; split; [by apply forward_of|done]|]. apply wp_bind. unfold db_clock at 1. apply wp_datetime_now.
  wp_if Hbusy; [apply wp_ret; split; [by apply forward_of|done]|]. apply wp_bind, wp_gets.
  wp_if Hcur; [|done]. apply wp_bind, wp_gets. wp_if Hearlier; [apply wp_ret; split; [by apply forward_of|done]|].
  apply wp_bind. eapply wp_mono; [apply acquire_turn_run; [apply Htb2|done|]|].
  { intros k r Hf. rewrite Hf in Hc. by bool_prop. }
  intros [l|x] s3 e3 Hg; [|done]. destruct Hg as (Htb3 & Hlk & [He Hse Ht]). apply wp_ret. split; [apply forward_of; [done|by eapply tables_trans]|].
  intros l' [= <-]. exists i. split_and!; [done|done|]. split; [|done|done].
  intros r Hr. apply He. rewrite Hlk in *. pose proof (Hold _ Hr). subst. exact Hk.
Qed.

(** *** Claiming a session *)

Lemma tables_forward key lab s s1 s' : turns_inv s -> tables s s1 -> forward key lab s1 s' -> forward key lab s s'.
Proof.
  intros Hs Ht [Hi Hv Hle]. pose proof (forward_of key s s1 Hs Ht) as Hf. destruct (outside_quiet _ _ (ti_box s Hs) (boxed_outside _ _ (tb_box _ _ Ht))) as [_ Hv0 _].
  split; [done| |etrans; [apply Hf|done]]. intros k. rewrite <-Hv0. apply Hv.
Qed.

Lemma tables_turns_inv s s1 : turns_inv s -> tables s s1 -> turns_inv s1.
Proof. intros Hs Ht. apply (forward_of ("", "")%string s s1 Hs Ht). Qed.

Lemma resolve_item_run key mb sequence it now s e :
  turns_inv s -> pr_mailboxes s !! key = Some mb -> sequence = mb_resolved_sequence mb + 1 ->
  pg_items_of key (box_of s) !! sequence = Some it ->
  wp (_resolve_mailbox_item key mb sequence now) (fun o s' _ => match o with
    | Ok _ => forward key [mi_inbound_id it] s s' | Raise _ => True end) s e.
Proof.
  intros Hs Hm Hseq Hit. unfold _resolve_mailbox_item. apply wp_bind. unfold db_clock at 1. apply wp_datetime_now.
  apply wp_bind, wp_box, wp_modify. set (s1 := put_box _ s).
  assert (Htb : tables s s1) by (apply tables_resolved, tables_refl; by apply turns_inv_tables).
  clearbody s1. wp_step. wp_step. apply wp_datetime_now, wp_bind.
  apply (wp_mono _ (fun o s' _ => (exists r, o = Ok r) /\ tables s s')).
  { wp_steps; (split; [eauto|]); [|done]. eapply tables_trans; [exact Htb|]. eapply tables_session; [apply Htb|eassumption|]. by split_and!. }
  intros o s2 e2 [[r ->] Htb2]. apply wp_box. pose proof (tb_box _ _ Htb2) as [Hb1 Hb2 _].
  assert (Hit2 : pg_items_of key (box_of s2) = pg_items_of key (box_of s)) by (unfold pg_items_of; simpl in *; by rewrite Hb2).
  eapply wp_mono; [eapply (advance_mailbox_moves key mb sequence it)|].
  - by apply (tables_turns_inv s).
  - simpl in *. by rewrite Hb1.
  - done.
  - by rewrite Hit2.
  - intros [row|x] t e3 Ha; [|done]. eapply forward_box; [done|exact Htb2|apply Ha|]. apply tables_refl, Htb2.
Qed.

(** The worker holds the mailbox, the session, the turn and the message. *)
Record turn_held (lease : SessionLease) (s : PgRepo) : Prop := {
  th_mailbox : exists mb, pr_mailboxes s !! lease_key lease = Some mb /\ mb_status mb = RUNNING /\
    mb_processing_inbound_id mb = Some (sl_inbound_id lease) /\ mb_lease_owner mb = Some (sl_worker_id lease) /\
    mb_lease_epoch mb = sl_fencing_token lease /\ mb_lease_expires_at mb = Some (sl_expires_at lease);
  th_session : exists r, pr_sessions s !! lease_key lease = Some r /\ sr_lease_owner r = Some (sl_worker_id lease) /\
    sr_lease_epoch r = sl_fencing_token lease;
  th_turn : exists t, pr_turns s !! (sl_tenant_id lease, sl_turn_id lease) = Some t /\ tu_status t = turn_processing /\
    tu_fencing_token t = sl_fencing_token lease /\ tu_inbound_id t = sl_inbound_id lease;
  th_message : exists r, pr_inbound s !! (sl_tenant_id lease, sl_inbound_id lease) = Some r /\ in_status r = processing;
}.

(** What the claim of a turn leaves, besides the lease. *)
Definition claimed_turn (key : session_key) (claim : SessionClaim) (s s' : PgRepo) : Prop :=
  forall l, sc_execution_lease claim = Some l ->
    lease_key l = key /\ granted_turn l (sl_inbound_id l) s s' /\
    (exists r, pr_inbound s !! (key.1, sl_inbound_id l) = Some r /\ in_status r <> committed) /\ turn_held l s'.

Lemma grant_turn_run key ow lf mb it inbound turn session a now s e :
  turns_inv s -> pr_mailboxes s !! key = Some mb -> pg_items_of key (box_of s) !! (mb_resolved_sequence mb + 1) = Some it ->
  pr_inbound s !! (key.1, mi_inbound_id it) = Some inbound -> in_status inbound <> committed ->
  find_turn key.1 (mi_inbound_id it) s = turn -> (forall k r, turn = Some (k, r) -> tu_status r <> turn_committed) ->
  pr_sessions s !! key = Some session ->
  wp (grant_turn key ow lf mb (mb_resolved_sequence mb + 1) it inbound turn session a now) (fun o s' _ => match o with
    | Ok claim => forward key [] s s' /\ claimed_turn key claim s s' | Raise _ => True end) s e.
Proof.
  intros Hs Hm Hit Hin Hnc Hf Ht Hk. pose proof (turns_inv_tables s Hs) as Htb. unfold grant_turn.
  set (epoch := Z.max _ _ + 1). apply wp_bind. eapply wp_mono; [by apply start_turn_run|].
  intros [id|x] s1 e1 Hst; [|done]. destruct Hst as (Htb1 & Hst & m & ->). apply wp_bind.
  eapply wp_mono; [eapply take_session_run; [apply Htb1|exact Hk|subst epoch; lia]|].
  intros o s2 e2 (-> & Htb2 & r' & -> & Hep & Ho & _). apply wp_bind, wp_box.
  eapply wp_mono; [apply claim_row_quiet; [|exact Hm|exact Hit|subst epoch; lia]|].
  { apply (tables_turns_inv s); [done|]. by eapply tables_trans. }
  intros [[row ex]|x] t e3 Hq; [|done]. destruct Hq as (Hq & Hrow & _ & Hre & Hrx & Hro & Hrs & _ & Hri & _). apply wp_bind.
  eapply wp_mono; [apply set_inbound_run|]. { exact (tb_inv _ _ Htb2). }
  intros o s3 e4 (-> & Htb3 & _ & Hpr & m' & ->). unfold claim_result. wp_steps; try done. split.
  - eapply (forward_quiet key s _ t); [done|by eapply tables_trans|exact Hq|exact Htb3].
  - destruct (tb_inbound _ _ Htb3 (key.1, mi_inbound_id it) inbound Hin) as (inbound' & Hin' & _).
    assert (Hg : pr_sessions s !! (key.1, key.2) = Some session) by (by destruct key).
    assert (Hg' : <[key := r']> (pr_sessions s) !! (key.1, key.2) = Some r') by (destruct key; apply lookup_insert_eq).
    destruct Hst as [Hold (turn' & Hst)]. intros l [= <-]. simpl in *. split_and!; [by destruct key| |by exists inbound|]; split; simpl in *.
    + intros r. rewrite Hg. intros [= <-]. subst epoch. lia.
    + exists r'. by split_and!.
    + split; [done|]. by exists turn'.
    + exists row. rewrite Hrow. split_and!; try done. destruct key. apply lookup_insert_eq.
    + exists r'. by split_and!.
    + exists turn'. by destruct Hst as (? & ? & ? & ?).
    + exists inbound'. split; [done|]. by apply (Hpr inbound').
Qed.

Lemma claim_item_run key ow lf mb it sn a now s e :
  turns_inv s -> pr_mailboxes s !! key = Some mb -> pg_items_of key (box_of s) !! (mb_resolved_sequence mb + 1) = Some it ->
  wp (claim_item key ow lf mb (mb_resolved_sequence mb + 1) it sn a now) (fun o s' _ => match o with
    | Ok claim => (exists lab, forward key lab s s') /\ claimed_turn key claim s s' | Raise _ => True end) s e.
Proof.
  intros Hs Hm Hit. pose proof (turns_inv_tables s Hs) as Htb. pose proof (pi_mailbox _ (ti_box s Hs) key mb Hm) as Hok.
  assert (1 <= mb_resolved_sequence mb + 1 <= mb_accepted_sequence mb) by (apply (mo_dom _ _ _ Hok); eauto).
  unfold claim_item. wp_if Hw.
  { apply wp_bind, wp_box. eapply wp_mono; [apply wait_row_quiet; [apply Hs|exact Hm|lia]|]. intros [row|x] t e1 Hq; [|done].
    apply wp_ret. split; [|done]. exists []. eapply (forward_quiet key s s t); [done|by apply tables_refl|done|by apply tables_refl]. }
  apply wp_bind, wp_gets. wp_if Hin; [|apply wp_ret; split; [eexists; by apply forward_same|done]]. wp_if Hc.
  { apply wp_bind. eapply wp_mono; [by eapply resolve_item_run|]. intros [row|x] s1 e1 Hf; [|done]. apply wp_ret. split; [eauto|done]. }
  bool_prop. apply wp_bind, wp_gets, wp_bind. eapply wp_mono; [by apply ensure_session_run|].
  intros [session|x] s1 e1 Hse; [|done]. destruct Hse as (Htb1 & Hk & _ & Hold & m & ->). wp_if Hrun.
  { apply wp_ret. split; [exists []; by apply forward_of|done]. }
  pose proof (tables_turns_inv _ _ Hs Htb1) as Hs1. wp_if Htc.
  { apply wp_bind. eapply wp_mono; [by eapply resolve_item_run|]. intros [row|x] s2 e2 Hf; [|done]. apply wp_ret. split; [|done].
    eexists. by eapply tables_forward. }
  eapply wp_mono; [apply grant_turn_run; [done|done|done|exact Hin|done|done| |exact Hk]|].
  { intros k r Hf. rewrite Hf in Htc. by bool_prop. }
  intros [claim|x] s2 e2 Hg; [|done]. destruct Hg as [Hf Hcl]. split; [exists []; by eapply tables_forward|].
  intros l Hl. destruct (Hcl l Hl) as (Hlk & [He Hse Ht] & Hir & Hheld). split_and!; [done| |done|done]. split; [|done|done].
  intros r Hr. apply He. rewrite Hlk in *. pose proof (Hold _ Hr). subst. exact Hk.
Qed.

Lemma claim_session_ready_run t ss ow lf g ev a s e :
  turns_inv s ->
  wp (PgTurns.claim_session_ready t ss ow lf g ev a) (fun o s' _ => match o with
    | Ok claim => (exists lab, forward (t, ss) lab s s') /\ claimed_turn (t, ss) claim s s' | Raise _ => s' = s end) s e.
Proof.
  intros Hs. unfold PgTurns.claim_session_ready, tenant_transaction, claim_generation.
  assert (Hsame : forall st mb, (exists lab, forward (t, ss) lab s s) /\ claimed_turn (t, ss) (claim_outcome st mb a) s s).
  { intros st mb. split; [exists []; by apply forward_same|done]. }
  wp_steps; try done; try apply Hsame.
  match goal with Hm : pr_mailboxes s !! _ = Some ?mb |- _ => pose proof (pi_mailbox _ (ti_box s Hs) _ mb Hm) as Hok; rewrite (head_sequence_pg _ _ _ Hok) in * end.
  eapply wp_mono; [by apply claim_item_run|]. by intros [claim|x] s' e'.
Qed.

(** *** Accepting *)

Definition envelope_key (env : InboundEnvelope) : Channel * string * string :=
  (ie_channel env, ie_account_id env, ie_external_message_id env).

Lemma same_message_spec env r : same_message env r = true <-> message_key r = envelope_key env.
Proof.
  unfold same_message, message_key, envelope_key. rewrite !andb_true_iff, !bool_decide_eq_true. split; [intros [[-> ->] ->]; done|].
  by intros [= -> -> ->].
Qed.

Lemma insert_inbound_run ctx env i h now s e :
  tables_inv s ->
  wp (insert_inbound ctx env i h now) (fun o s' _ => match o with
    | Ok None => s' = s /\ exists k r, pr_inbound s !! k = Some r /\ k.1 = tc_tenant_id ctx /\ message_key r = envelope_key env
    | Ok (Some row) => tables s s' /\ row = inbound_row ctx env h now /\ pr_inbound s !! (tc_tenant_id ctx, i) = None /\
        (forall k r, pr_inbound s !! k = Some r -> k.1 = tc_tenant_id ctx -> message_key r <> envelope_key env) /\
        s' = s <| pr_inbound := <[(tc_tenant_id ctx, i) := row]> (pr_inbound s) |>
    | Raise _ => True end) s e.
Proof.
  intros Hs. unfold insert_inbound. wp_steps; try done.
  - destruct p as [k r]. split; [done|]. destruct (find_inbound_Some _ _ _ _ _ ltac:(eassumption)) as (? & ? & ?%same_message_spec). eauto.
  - bool_prop. unfold id in *. assert (Hnone : pr_inbound s !! (tc_tenant_id ctx, i) = None)
      by (apply eq_None_not_Some; intros [x Hx]; by rewrite Hx in *).
    assert (Hnew : forall k r, pr_inbound s !! k = Some r -> k.1 = tc_tenant_id ctx -> message_key r <> envelope_key env).
    { intros k r Hk Ht Hm. apply same_message_spec in Hm. by rewrite (find_inbound_None _ _ _ k r ltac:(eassumption) Hk Ht) in Hm. }
    split_and!; try done.
    destruct Hs as [Hc Hi]. destruct (inbound_insert (pr_inbound s) (tc_tenant_id ctx, i) (inbound_row ctx env h now) Hi Hnone) as [? ?].
    + intros k' r' Hk' Ht'. by apply (Hnew k' r').
    + split; [done|done|apply core_le_refl|done].
Qed.

Lemma note_inbound_run ctx env now seen s e :
  wp (note_inbound ctx env now seen) (fun o s' _ => match o with
    | Ok _ => exists ids audit, s' = s <| pr_identities := ids |> <| pr_audit := audit |> | Raise _ => True end) s e.
Proof. unfold note_inbound. wp_steps; eauto. Qed.

Lemma tables_noted ids audit s s1 : tables s s1 -> tables s (s1 <| pr_identities := ids |> <| pr_audit := audit |>).
Proof. intros Ht. eapply tables_trans; [exact Ht|]. destruct Ht. split; [done|done|apply core_le_refl|done]. Qed.

(** The message that is there already. *)
Definition repeated (t : string) (env : InboundEnvelope) (a : Acceptance) (s s' : PgRepo) : Prop :=
  acc_duplicate a = true /\ tables s s' /\ pr_delivery s' = pr_delivery s /\
  exists r, pr_inbound s !! (t, acc_inbound_id a) = Some r /\ message_key r = envelope_key env.

Lemma repeat_inbound_run ctx env h s e :
  tables_inv s ->
  wp (repeat_inbound ctx env h) (fun o s' _ => match o with
    | Ok a => repeated (tc_tenant_id ctx) env a s s' | Raise _ => True end) s e.
Proof.
  intros Hs. unfold repeat_inbound. wp_steps; try done.
  all: match goal with Hf : find_inbound _ _ _ = Some (?k, ?r) |- _ => destruct (find_inbound_Some _ _ _ _ _ Hf) as (Hk & Hkt & Hm) end.
  all: bool_prop; match goal with Hm : same_message _ _ = true |- _ => apply same_message_spec in Hm end.
  all: rewrite Hk in *; simplify_eq.
  split_and!; [done| |done|].
  - eapply tables_message; [done|exact Hk|]. done.
  - exists r. simpl. replace (tc_tenant_id ctx, p0.2) with p0 by (destruct p0; simpl in *; congruence). by split.
Qed.

(** A message that is new, and its item in the mailbox [key]. *)
Definition registered (t : string) (env : InboundEnvelope) (a : Acceptance) (s s' : PgRepo) : Prop :=
  acc_duplicate a = false /\ pr_inbound s !! (t, acc_inbound_id a) = None /\
  (forall k r, pr_inbound s !! k = Some r -> k.1 = t -> message_key r <> envelope_key env) /\
  exists r, pr_inbound s' !! (t, acc_inbound_id a) = Some r /\ message_key r = envelope_key env /\ in_status r = accepted.

Lemma accept_inbound_run ctx env th s e key :
  turns_inv s ->
  wp (PgTurns.accept_inbound ctx env th) (fun o s' _ => match o with
    | Ok a => forward key [] s s' /\ (repeated (tc_tenant_id ctx) env a s s' \/ registered (tc_tenant_id ctx) env a s s')
    | Raise _ => s' = s end) s e.
Proof.
  intros Hs. pose proof (turns_inv_tables s Hs) as Htb. unfold PgTurns.accept_inbound, tenant_transaction. wp_steps.
  eapply wp_mono; [by apply insert_inbound_run|]. intros [[row|]|x] s1 e1 Hin; [| |done].
  - destruct Hin as (Htb1 & -> & Hnone & Hnew & ->). wp_steps. eapply wp_mono; [apply note_inbound_run|].
    intros [u|x] s2 e2 Hno; [|done]. destruct Hno as (ids & audit & ->). wp_steps; try done. split.
    + apply forward_of; [done|]. eapply tables_trans; [apply tables_noted, Htb1|]. apply tables_delivery, Htb1.
    + right. split_and!; try done. eexists. split; [simpl; apply lookup_insert_eq|]. done.
  - destruct Hin as [-> _]. wp_steps. eapply wp_mono; [by apply repeat_inbound_run|]. intros [a|x] s2 e2 Hr; [|done].
    split; [|by left]. apply forward_of; [done|apply Hr].
Qed.

Lemma accept_inbound_v2_run ctx env th p ra s e :
  turns_inv s ->
  wp (PgTurns.accept_inbound_v2 ctx env th p ra) (fun o s' _ => match o with
    | Ok a => forward (tc_tenant_id ctx, tc_session_id ctx) [] s s' /\
        (repeated (tc_tenant_id ctx) env a s s' \/
         registered (tc_tenant_id ctx) env a s s' /\ logged (tc_tenant_id ctx, tc_session_id ctx) (acc_inbound_id a) (box_of s) (box_of s'))
    | Raise _ => s' = s end) s e.
Proof.
  intros Hs. pose proof (turns_inv_tables s Hs) as Htb. unfold PgTurns.accept_inbound_v2, tenant_transaction. wp_steps; [done|].
  eapply wp_mono; [by apply insert_inbound_run|]. intros [[row|]|x] s1 e1 Hin; [| |done].
  - destruct Hin as (Htb1 & -> & Hnone & Hnew & ->). wp_steps. eapply wp_mono; [apply note_inbound_run|].
    intros [u|x] s2 e2 Hno; [|done]. destruct Hno as (ids & audit & ->). wp_steps.
    pose proof (tables_noted ids audit _ _ Htb1) as Htb2. bool_prop.
    eapply wp_mono; [apply append_item_moves; [by apply (tables_turns_inv s)|done]|].
    intros [v|x] t e3 Ha; [|done]. destruct Ha as [Ha Hl]. wp_steps; try done. split.
    + eapply forward_box; [done|exact Htb2|exact Ha|]. apply tables_refl, Htb2.
    + right. split; [|exact Hl]. split_and!; try done. eexists. split; [simpl; apply lookup_insert_eq|]. done.
  - destruct Hin as [-> _]. wp_steps. eapply wp_mono; [by apply repeat_inbound_run|]. intros [a|x] s2 e2 Hr; [|done].
    split; [|by left]. apply forward_of; [done|apply Hr].
Qed.

(** *** Methods of the mailbox store *)

Lemma box_moves {A} key lab (m : M PgStore A) : moves key lab m -> turn_moves key (fun _ => lab) (box m).
Proof.
  intros Hm s e Hs. apply wp_box. eapply wp_mono; [apply Hm, Hs|]. intros [a|x] t e' Ha; [|by rewrite Ha, put_box_same].
  eapply forward_box; [done|apply tables_refl; by apply turns_inv_tables|exact Ha|]. apply tables_refl. by apply (turns_inv_tables s).
Qed.
End methods.
