(* ===== verification/PgSweeps.v ===== *)
(** * The recovery sweeps of the PostgreSQL repository

    [sweep_expired_leases], [schedule_retries] and [reconcile_sessions] of
    [PostgresSessionMailboxStore] and [PostgresRuntimeRepository], which call the functions
    [sweep_expired_session_leases] and [reconcile_session_mailboxes_v2] of migration 0011 and
    [schedule_session_mailbox_retries] of migration 0008.  Each function selects mailboxes of any
    tenant in an order, skips those that other transactions have locked, takes at most [p_limit]
    of the rest and handles them one after the other in one transaction, mailbox before session.
    [locked] is the set of the rows that are locked when the function runs.  The columns of a
    selected row are read when it is its turn: handling one session changes no row of another.
    Texts are ordered by their bytes. *)

From S2P Require Import Prelude PyText Tenant Models Mailbox Repository Runtime PgMailbox PgDelivery PgTurns.
#[local] Open Scope Z_scope.

(** A row of the select: the mailbox, the item it is joined with, when that item was resolved,
    and the status of its message. *)
Record RecoveryRow : Type := MkRecoveryRow {
  rec_mailbox : SessionMailbox;
  rec_item : option MailboxItem;
  rec_resolved_at : option Z;
  rec_inbound_status : option InboundStatus;
}.

Definition recovery_row (sequence : SessionMailbox -> option Z) (key : session_key) (s : PgRepo) : option RecoveryRow :=
  match pr_mailboxes s !! key with
  | None => None
  | Some mb =>
    let item := sequence mb ≫= fun n => pg_items_of key (box_of s) !! n in
    let resolved_at := sequence mb ≫= fun n => pr_resolved_at s !! (key, n) in
    let status := item ≫= fun it => in_status <$> pr_inbound s !! (key.1, mi_inbound_id it) in
    Some (MkRecoveryRow mb item (if is_some item then resolved_at else None) status)
  end.

Definition item_retry_at (rec : RecoveryRow) : option Z := rec_item rec ≫= mi_retry_at.
Definition item_priority (rec : RecoveryRow) : Z := default 0 (mi_priority <$> rec_item rec).

(** [coalesce(rec.trace_id, inbound_id::text, rec.session_id)]. *)
Definition item_trace (rec : RecoveryRow) (inbound_id : option string) : string :=
  default (default (mb_session_id (rec_mailbox rec)) inbound_id) (mi_trace_id <$> rec_item rec).

Definition recovery_le : relation (Z * session_key) := lex Z.le (lex String.le String.le).

#[export] Instance recovery_le_dec : RelDecision recovery_le.
Proof. apply _. Defined.

Section sweeps.
Context `{Env} `{UuidText}.
Implicit Types (locked : session_key -> bool).

(** [NOT EXISTS (SELECT 1 FROM sessions AS active ...)]. *)
Definition session_executing (key : session_key) (now : Z) (s : PgRepo) : bool :=
  executing (lease_columns <$> pr_sessions s !! key) now.

(** [SELECT ... ORDER BY order, tenant_id, session_id LIMIT p_limit FOR UPDATE OF m SKIP LOCKED]. *)
Definition select_keys locked (limit : Z) (row : session_key -> PgRepo -> option RecoveryRow)
    (wanted : session_key -> RecoveryRow -> Z -> PgRepo -> bool) (order : SessionMailbox -> Z) : M PgRepo (list session_key) :=
  let* now := db_clock in
  gets (fun s =>
    let selected := List.filter (fun x : session_key * SessionMailbox =>
      match row x.1 s with Some rec => wanted x.1 rec now s | None => false end) (map_to_list (pr_mailboxes s)) in
    let ordered := sorted_by recovery_le (fun x : session_key * SessionMailbox => (order x.2, x.1)) selected in
    take (Z.to_nat limit) (List.filter (fun key => negb (locked key)) (map fst ordered))).

(** [FOR rec IN ... LOOP ... processed := processed + 1 ... END LOOP]. *)
Fixpoint recover_rows (body : session_key -> M PgRepo Z) (keys : list session_key) (processed : Z) : M PgRepo Z :=
  match keys with
  | [] => ret processed
  | key :: rest =>
    let* n := body key in
    recover_rows body rest (processed + n)
  end.

(** The guard of the methods, and the one of the functions. *)
Definition recovery_limit (limit : Z) (x : exn) : M PgRepo unit :=
  raise_if ((limit <? 1) || (1000 <? limit)) x.

Definition limit_error : exn := ValueError "recovery limit must be between 1 and 1000".
Definition limit_exception : exn := PostgresError "recovery limit must be between 1 and 1000".

(** The lease of the session row, if it is the one that the mailbox row shows. *)
Definition clear_session (key : session_key) (mb : SessionMailbox) : M PgRepo unit :=
  let* now := db_clock in
  update_session key (fun r => bool_decide (sr_lease_owner r = mb_lease_owner mb) && (sr_lease_epoch r =? mb_lease_epoch mb)
    && bool_decide (sr_lease_expires_at r = mb_lease_expires_at mb)) (free_session now) ;;
  ret tt.

(** The session row is locked, and read again. *)
Definition still_executing (key : session_key) : M PgRepo bool :=
  let* now := db_clock in
  gets (session_executing key now).

(** A status [RETRY_WAIT] keeps the time of the item. *)
Definition waiting_until (status : MailboxStatus) (retry_at : option Z) : option Z :=
  if bool_decide (status = RETRY_WAIT) then retry_at else None.

Definition waking (status : MailboxStatus) : Z := if bool_decide (status = QUEUED) then 1 else 0.

Definition waits_or_queues (retry_at : option Z) : M PgRepo MailboxStatus :=
  let* now := db_clock in
  ret (if after retry_at now then RETRY_WAIT else QUEUED).

(** ** Expired leases *)

Definition processing_row := recovery_row mb_processing_sequence.

Definition lease_expired (key : session_key) (rec : RecoveryRow) (now : Z) (s : PgRepo) : bool :=
  bool_decide (mb_status (rec_mailbox rec) = RUNNING) && due (mb_lease_expires_at (rec_mailbox rec)) now
  && negb (session_executing key now s).

Definition sweep_row (key : session_key) : M PgRepo Z :=
  let* row := gets (processing_row key) in
  match row with
  | None => ret 0
  | Some rec =>
    let mb := rec_mailbox rec in
    let* active := still_executing key in
    if active then ret 0
    else
      let* status := if mb_accepted_sequence mb <=? mb_resolved_sequence mb then ret IDLE else waits_or_queues (item_retry_at rec) in
      let* updated_at := db_clock in
      let updated := requeued_row mb status (waiting_until status (item_retry_at rec)) (waking status) updated_at in
      box (put_row key updated) ;;
      clear_session key mb ;;
      (if bool_decide (status = QUEUED)
       then box (insert_ready updated (item_priority rec) (item_trace rec (mb_processing_inbound_id mb)) ∅) else ret tt) ;;
      ret 1
  end.

Definition sweep_expired_session_leases locked (p_limit : Z) : M PgRepo Z :=
  rollback (
    recovery_limit p_limit limit_exception ;;
    let* keys := select_keys locked p_limit processing_row lease_expired (fun mb => default 0 (mb_lease_expires_at mb)) in
    recover_rows sweep_row keys 0).

Definition sweep_expired_leases locked (owner_id : string) (limit : Z) : M PgRepo Z :=
  recovery_limit limit limit_error ;;
  sweep_expired_session_leases locked limit.

(** ** Retries that are due *)

Definition next_row := recovery_row (fun mb => Some (mb_resolved_sequence mb + 1)).

Definition retry_due (key : session_key) (rec : RecoveryRow) (now : Z) (s : PgRepo) : bool :=
  is_some (rec_item rec) && bool_decide (mb_status (rec_mailbox rec) = RETRY_WAIT) && due (mb_retry_at (rec_mailbox rec)) now.

Definition schedule_row (key : session_key) : M PgRepo Z :=
  let* row := gets (next_row key) in
  match row with
  | Some (MkRecoveryRow mb (Some item) _ _) =>
    let* updated_at := db_clock in
    let updated := mb <| mb_status := QUEUED |> <| mb_retry_at := None |> <| mb_queue_generation := mb_queue_generation mb + 1 |>
      <| mb_updated_at := updated_at |> in
    box (put_row key updated) ;;
    box (insert_ready updated (mi_priority item) (mi_trace_id item) ∅) ;;
    ret 1
  | _ => ret 0
  end.

Definition schedule_session_mailbox_retries locked (p_limit : Z) : M PgRepo Z :=
  rollback (
    recovery_limit p_limit limit_exception ;;
    let* keys := select_keys locked p_limit next_row retry_due (fun mb => default 0 (mb_retry_at mb)) in
    recover_rows schedule_row keys 0).

Definition schedule_retries locked (owner_id : string) (limit : Z) : M PgRepo Z :=
  recovery_limit limit limit_error ;;
  schedule_session_mailbox_retries locked limit.

(** ** Mailboxes that contradict their items, messages or wake-ups *)

Definition head_row := recovery_row (fun mb => Some (default (mb_resolved_sequence mb + 1) (mb_processing_sequence mb))).

(** The message was committed, but its item is not resolved. *)
Definition committed_unresolved (rec : RecoveryRow) : bool :=
  bool_decide (rec_inbound_status rec = Some committed) && negb (is_some (rec_resolved_at rec)).

Definition inconsistent (key : session_key) (rec : RecoveryRow) (now : Z) (s : PgRepo) : bool :=
  let mb := rec_mailbox rec in
  let status x := bool_decide (mb_status mb = x) in
  ((negb (status RUNNING) && (is_some (mb_processing_sequence mb) || is_some (mb_processing_inbound_id mb)
                          || is_some (mb_lease_owner mb) || is_some (mb_lease_expires_at mb)))
   || (status RUNNING && due (mb_lease_expires_at mb) now)
   || ((mb_accepted_sequence mb <=? mb_resolved_sequence mb) && negb (status IDLE))
   || ((mb_resolved_sequence mb <? mb_accepted_sequence mb) && status IDLE)
   || (status RETRY_WAIT && negb (is_some (mb_retry_at mb)))
   || (status QUEUED && negb (is_some (rec_item rec)))
   || (status QUEUED && (mb_updated_at mb <=? now - 5 * 1000000))
   || committed_unresolved rec)
  && negb (session_executing key now s).

(** The item is resolved and the mailbox goes on to the next one. *)
Definition resolve_head (key : session_key) (rec : RecoveryRow) : M PgRepo Z :=
  let mb := rec_mailbox rec in
  let next_sequence := default (mb_resolved_sequence mb + 1) (mb_processing_sequence mb) in
  let* resolved_at := db_clock in
  box (modify (fun t => t <| pg_resolved_at :=
    <[(key, next_sequence) := default resolved_at (pg_resolved_at t !! (key, next_sequence))]> (pg_resolved_at t) |>)) ;;
  let* next_item := box (fetch_item key (next_sequence + 1)) in
  let* now := db_clock in
  let '(status, retry_at, increment) := next_status (head_item mb (next_sequence + 1) next_item) now in
  let* updated_at := db_clock in
  let updated := next_mailbox mb next_sequence status retry_at increment updated_at in
  box (put_row key updated) ;;
  clear_session key mb ;;
  match next_item with
  | Some item => if bool_decide (status = QUEUED) then box (insert_ready updated (mi_priority item) (mi_trace_id item) ∅) else ret tt
  | None => ret tt
  end ;;
  ret 1.

(** The wake-ups of a generation that no publisher holds; the cooldown is not looked at. *)
Definition reopenable (mailbox : SessionMailbox) (now : Z) (r : ReadyRow) : bool :=
  same_ready (mb_tenant_id mailbox) (mb_session_id mailbox) (mb_queue_generation mailbox) r
  && match rr_claim_expires_at r with Some ex => ex <=? now | None => true end.

(** [UPDATE outbox_events ...; IF NOT FOUND THEN INSERT ...]. *)
Definition reopen_ready (mailbox : SessionMailbox) (priority : Z) (trace_id : string) : M PgStore unit :=
  let* now := clock_timestamp in
  let* found := gets (fun t => existsb (reopenable mailbox now) (pg_ready t)) in
  modify (fun t => t <| pg_ready := map (fun r => if reopenable mailbox now r then replay_row now r else r) (pg_ready t) |>) ;;
  if found then ret tt else insert_ready mailbox priority trace_id ∅.

Definition requeue_head (key : session_key) (rec : RecoveryRow) : M PgRepo Z :=
  let mb := rec_mailbox rec in
  let* status :=
    if (mb_accepted_sequence mb <=? mb_resolved_sequence mb) || negb (is_some (rec_item rec)) then ret IDLE
    else waits_or_queues (item_retry_at rec) in
  let fresh := negb (bool_decide (mb_status mb = QUEUED)) || (mb_queue_generation mb <? 1) in
  let* updated_at := db_clock in
  let updated := requeued_row mb status (waiting_until status (item_retry_at rec)) (if fresh then waking status else 0) updated_at in
  let trace_id := item_trace rec (mi_inbound_id <$> rec_item rec) in
  box (put_row key updated) ;;
  clear_session key mb ;;
  (if bool_decide (status = QUEUED) then
     box (if fresh then insert_ready updated (item_priority rec) trace_id ∅ else reopen_ready updated (item_priority rec) trace_id)
   else ret tt) ;;
  ret 1.

Definition reconcile_row (key : session_key) : M PgRepo Z :=
  let* row := gets (head_row key) in
  match row with
  | None => ret 0
  | Some rec =>
    let* active := still_executing key in
    if active then ret 0
    else if committed_unresolved rec then resolve_head key rec
    else requeue_head key rec
  end.

Definition reconcile_session_mailboxes_v2 locked (p_limit p_replay_cooldown_seconds : Z) : M PgRepo Z :=
  rollback (
    recovery_limit p_limit limit_exception ;;
    raise_if ((p_replay_cooldown_seconds <? 5) || (86400 <? p_replay_cooldown_seconds))
      (PostgresError "ready replay cooldown must be between 5 and 86400 seconds") ;;
    let* keys := select_keys locked p_limit head_row inconsistent mb_updated_at in
    recover_rows reconcile_row keys 0).

Definition reconcile_sessions locked (ready_replay_cooldown_seconds : Z) (owner_id : string) (limit : Z) : M PgRepo Z :=
  recovery_limit limit limit_error ;;
  reconcile_session_mailboxes_v2 locked limit ready_replay_cooldown_seconds.
End sweeps.
