(* ===== verification/PgSweepsInv.v ===== *)
(** * What the recovery sweeps keep

    One lemma per sweep of [PgSweeps]: handling a mailbox is a step of its abstract session, which
    resolves nothing or the message at the head that was already committed, keeps the tables well
    formed and moves nothing back; so is the whole sweep, session by session. *)

From S2P Require Import Prelude PyText Tenant Models Mailbox MailboxInv MailboxSpec Repository Runtime PgMailbox PgMailboxInv PgMailboxThms PgDelivery PgTurns PgTurnsInv PgSweeps.
#[local] Open Scope Z_scope.

Section rows.
Context `{Env} `{UuidText}.
Implicit Types (s : PgRepo) (t : PgStore) (e : effects).

(** A sweep writes the mailbox, its items, its wake-ups, and takes the lease of its session. *)
Definition freed (key : session_key) (ss ss' : session_table) : Prop :=
  ss' = ss \/ exists r r', ss !! key = Some r /\ same_history r r' /\ ss' = <[key := r']> ss.

Record swept (key : session_key) (t' : PgStore) (s s' : PgRepo) : Prop := {
  sw_box : boxed t' s';
  sw_sessions : freed key (pr_sessions s) (pr_sessions s');
  sw_turns : pr_turns s' = pr_turns s;
  sw_events : pr_events s' = pr_events s;
  sw_inbound : pr_inbound s' = pr_inbound s;
}.

Lemma swept_forward key lab s t' s' :
  turns_inv s -> advance key lab (box_of s) t' -> swept key t' s s' -> forward key lab s s'.
Proof.
  intros Hs Ha [Hb Hf Ht He Hi]. pose proof (ti_core s Hs) as Hc.
  assert (core_inv (pr_sessions s') (pr_turns s') (pr_events s') /\
    core_le (pr_sessions s) (pr_turns s) (pr_events s) (pr_sessions s') (pr_turns s') (pr_events s')) as [? ?].
  { rewrite Ht, He. destruct Hf as [->|(r & r' & Hr & Hh & ->)]; [split; [done|apply core_le_refl]|by eapply core_lease]. }
  apply (forward_intro key lab s (box_of s) t' s'); try done; rewrite Hi; [apply Hs|done].
Qed.

Lemma clear_session_run key mb (Q : _ -> _ -> _ -> Prop) s e :
  (forall ss e', freed key (pr_sessions s) ss -> Q (Ok tt) (s <| pr_sessions := ss |>) e') -> wp (clear_session key mb) Q s e.
Proof.
  intros HQ. unfold clear_session. wp_steps.
  - apply HQ. right. eexists _, _. split_and!; [eassumption| |done]. by split_and!.
  - replace s with (s <| pr_sessions := pr_sessions s |>) by (by destruct s). apply HQ. by left.
Qed.

Lemma still_executing_run key (Q : _ -> _ -> _ -> Prop) s e :
  (forall b e', Q (Ok b) s e') -> wp (still_executing key) Q s e.
Proof. intros HQ. unfold still_executing. wp_steps. apply HQ. Qed.

Lemma waits_or_queues_run ra (Q : _ -> _ -> _ -> Prop) s e :
  (forall st e', st = RETRY_WAIT \/ st = QUEUED -> Q (Ok st) s e') -> wp (waits_or_queues ra) Q s e.
Proof. intros HQ. unfold waits_or_queues. wp_steps. case_match; apply HQ; auto. Qed.

(** A wake-up of the generation is there, published or not. *)
Lemma reopened_keys mb now l :
  map ready_key (map (fun r => if reopenable mb now r then replay_row now r else r) l) = map ready_key l.
Proof. rewrite map_map. apply map_ext. intros r. by case_match. Qed.

Lemma wp_reopen_ready mb p tr (Q : _ -> _ -> _ -> Prop) t e :
  let key := (mb_tenant_id mb, mb_session_id mb) in
  1 <= mb_queue_generation mb ->
  (forall l e', map ready_key l = add_key (key, mb_queue_generation mb) (ready_keys t) -> Q (Ok tt) (t <| pg_ready := l |>) e') ->
  (forall x t' e', Q (Raise x) t' e') -> wp (reopen_ready mb p tr) Q t e.
Proof.
  intros key Hg Hok Hno. unfold reopen_ready. wp_steps; try done.
  - apply Hok. rewrite reopened_keys. unfold add_key. rewrite decide_True; [done|]. apply same_ready_spec.
    apply existsb_exists. match goal with Hf : existsb _ _ = true |- _ => apply existsb_exists in Hf as (r & Hr & Hre) end.
    exists r. split; [done|]. unfold reopenable in Hre. by bool_prop.
  - refine (Hok l _ _). etrans; [eassumption|]. unfold ready_keys at 1. simpl. by rewrite reopened_keys.
Qed.

(** The row of a mailbox that nobody runs, its session and its wake-up. *)
Lemma requeue_forward key mb st ra inc at_ ss l s s' :
  turns_inv s -> pr_mailboxes s !! key = Some mb ->
  let row := requeued_row mb st ra inc at_ in
  row_check row = true -> st <> RUNNING -> 0 <= inc ->
  (st = IDLE <-> mb_resolved_sequence mb = mb_accepted_sequence mb) ->
  (st = QUEUED -> 1 <= mb_queue_generation row /\
     map ready_key l = add_key ((mb_tenant_id mb, mb_session_id mb), mb_queue_generation row) (map ready_key (pr_ready s))) ->
  (st <> QUEUED -> l = pr_ready s) ->
  freed key (pr_sessions s) ss ->
  s' = s <| pr_mailboxes := <[key := row]> (pr_mailboxes s) |> <| pr_sessions := ss |> <| pr_ready := l |> ->
  forward key [] s s'.
Proof.
  intros Hs Hk row Hrc Hr Hi Hid Hq Hnq Hf ->.
  assert (Hqt : quiet (box_of s) ((box_of s) <| pg_mailboxes := <[key := row]> (pr_mailboxes s) |> <| pg_ready := l |>)).
  { apply (requeued_quiet key mb st ra inc at_ l (box_of s)); try done; [apply Hs|].
    destruct (decide (st = QUEUED)) as [E|N]; [left|right; split; [done|simpl; by apply Hnq]].
    destruct (Hq E). by split_and!. }
  apply (swept_forward key [] s _ _ Hs (quiet_advance key _ _ Hqt)). by split.
Qed.

Lemma idle_resolved key s mb :
  turns_inv s -> pr_mailboxes s !! key = Some mb ->
  (mb_accepted_sequence mb <=? mb_resolved_sequence mb) = true <-> mb_resolved_sequence mb = mb_accepted_sequence mb.
Proof.
  intros Hs Hk. pose proof (mo_bounds _ _ _ (pi_mailbox (box_of s) (ti_box s Hs) key mb Hk)). rewrite Z.leb_le. lia.
Qed.

Definition keeps_row (key : session_key) (o : outcome Z) s s' : Prop :=
  match o with Ok _ => exists lab, forward key lab s s' | Raise _ => True end.

Lemma recovery_row_mailbox f key s rec : recovery_row f key s = Some rec -> pr_mailboxes s !! key = Some (rec_mailbox rec).
Proof. unfold recovery_row. destruct (pr_mailboxes s !! key); intros; by simplify_eq/=. Qed.

Lemma same_row key s : turns_inv s -> keeps_row key (Ok 0) s s.
Proof. intros Hs. exists []. by apply forward_same. Qed.

Lemma sweep_row_forward key s e : turns_inv s -> wp (sweep_row key) (fun o s' _ => keeps_row key o s s') s e.
Proof.
  intros Hs. unfold sweep_row. apply wp_bind, wp_gets. destruct (processing_row key s) as [rec|] eqn:Hrec; [|by apply wp_ret, same_row].
  apply recovery_row_mailbox in Hrec as Hk. pose proof (pi_mailbox (box_of s) (ti_box s Hs) key _ Hk) as Hok.
  pose proof (mo_bounds _ _ _ Hok). pose proof (mo_generation _ _ _ Hok).
  apply wp_bind, still_executing_run. intros [] e1; [by apply wp_ret, same_row|]. apply wp_bind.
  apply (wp_mono _ (fun o s1 _ => s1 = s /\ exists st, o = Ok st /\ st <> RUNNING /\
    (st = IDLE <-> mb_resolved_sequence (rec_mailbox rec) = mb_accepted_sequence (rec_mailbox rec)))).
  { destruct (_ <=? _) eqn:Hle.
    - apply wp_ret. split; [done|]. exists IDLE. split_and!; [done|done|]. apply (idle_resolved key s _ Hs Hk) in Hle. done.
    - apply waits_or_queues_run. intros st e2 Hst. split; [done|]. exists st. bool_prop. split_and!; [done|by destruct Hst as [->| ->]|].
      split; [by destruct Hst as [->| ->]|lia]. }
  intros o s1 e2 [-> (st & -> & Hnr & Hid)]. apply wp_bind. unfold db_clock. apply wp_datetime_now, wp_bind, wp_box, wp_put_row; [|done].
  intros Hrc. apply wp_bind, clear_session_run. intros ss e3 Hf. simpl in Hf. case_bool_decide as Hq.
  - apply wp_bind, wp_box. apply wp_insert_ready; [|done]. intros l e4 Hl Hg. apply wp_ret. exists [].
    eapply (requeue_forward key _ st _ _ _ ss l); try done. unfold waking. by case_match.
  - wp_steps. exists []. eapply (requeue_forward key _ st _ _ _ ss (pr_ready s)); try done. unfold waking. by case_match.
Qed.

Lemma schedule_row_forward key s e : turns_inv s -> wp (schedule_row key) (fun o s' _ => keeps_row key o s s') s e.
Proof.
  intros Hs. unfold schedule_row. apply wp_bind, wp_gets. destruct (next_row key s) as [[mb [it|] ra st]|] eqn:Hrec; try (by apply wp_ret, same_row).
  apply recovery_row_mailbox in Hrec as Hk. simpl in Hk. pose proof (pi_mailbox (box_of s) (ti_box s Hs) key _ Hk) as Hok.
  assert (pg_items_of key (box_of s) !! (mb_resolved_sequence mb + 1) = Some it) as Hit.
  { unfold next_row, recovery_row in Hrec. rewrite Hk in Hrec. simpl in Hrec. congruence. }
  assert (1 <= mb_resolved_sequence mb + 1 <= mb_accepted_sequence mb) by (apply (mo_dom _ _ _ Hok); eauto).
  apply wp_bind. unfold db_clock. apply wp_datetime_now, wp_bind, wp_box, wp_put_row; [|done]. intros Hrc.
  apply wp_bind, wp_box, wp_insert_ready; [|done]. intros l e1 Hl Hg. apply wp_ret. exists [].
  assert (Hrow : forall n, mb <| mb_status := QUEUED |> <| mb_retry_at := None |> <| mb_queue_generation := mb_queue_generation mb + 1 |>
    <| mb_updated_at := n |> = requeued_row mb QUEUED None 1 n).
  { unfold row_check in Hrc. apply andb_prop in Hrc as [_ Hrc]. destruct mb as [? ? ? ? ? [] [] ? [] ? [] ? ? ? ? ?]; simpl in *; done. }
  rewrite Hrow in *.
  eapply (requeue_forward key mb QUEUED None 1 _ (pr_sessions s) l); try done; [|by left].
  split; [|lia]. done.
Qed.

(** The head that was committed is resolved. *)
Lemma resolve_forward key mb it st ra inc now at_ ss l r s s' :
  turns_inv s -> pr_mailboxes s !! key = Some mb -> pg_items_of key (box_of s) !! (mb_resolved_sequence mb + 1) = Some it ->
  let next := pg_items_of key (box_of s) !! (mb_resolved_sequence mb + 1 + 1) in
  next_status (head_item mb (mb_resolved_sequence mb + 1 + 1) next) now = (st, ra, inc) ->
  let row := next_mailbox mb (mb_resolved_sequence mb + 1) st ra inc at_ in
  row_check row = true ->
  (st = QUEUED -> 1 <= mb_queue_generation row /\
     map ready_key l = add_key ((mb_tenant_id mb, mb_session_id mb), mb_queue_generation row) (map ready_key (pr_ready s))) ->
  (st <> QUEUED -> l = pr_ready s) -> freed key (pr_sessions s) ss ->
  s' = s <| pr_resolved_at := r |> <| pr_mailboxes := <[key := row]> (pr_mailboxes s) |> <| pr_sessions := ss |> <| pr_ready := l |> ->
  forward key [mi_inbound_id it] s s'.
Proof.
  intros Hs Hk Hit next Hn row Hrc Hq Hnq Hf ->. pose proof (pi_mailbox (box_of s) (ti_box s Hs) key mb Hk) as Hok.
  pose proof (mo_bounds _ _ _ Hok). assert (1 <= mb_resolved_sequence mb + 1 <= mb_accepted_sequence mb) by (apply (mo_dom _ _ _ Hok); eauto).
  pose proof (item_none _ _ _ (mb_resolved_sequence mb + 1 + 1) Hok ltac:(lia) ltac:(lia)) as Hend.
  destruct (next_status_spec _ _ _ _ _ Hn) as (Hnr & Hidle & Hinc & Hinc0).
  assert (Hid : st = IDLE <-> mb_resolved_sequence mb + 1 = mb_accepted_sequence mb).
  { rewrite Hidle. unfold head_item. subst next. case_match; bool_prop; [split; [lia|done]|]. rewrite Hend. lia. }
  eapply (swept_forward key _ s ((box_of s) <| pg_mailboxes := <[key := row]> (pr_mailboxes s) |> <| pg_ready := l |>)); [done| |by split].
  apply (advance_clear key mb row (pg_items_of key (box_of s))); try done; [apply Hs| | | |].
  - split; simpl; try done; lia.
  - destruct (decide (st = QUEUED)) as [E|N]; [left|right; split; [done|simpl; by apply Hnq]]. destruct (Hq E). by split_and!.
  - split; [done|]. by eapply (pi_checked (box_of s)); [apply Hs|].
  - unfold session_view, inbound_ids. simpl. apply session_commit; [lia|]. by eapply inbound_ids_lookup; [done|lia|].
Qed.

Lemma recovered_head key s mb :
  turns_inv s -> pr_mailboxes s !! key = Some mb ->
  default (mb_resolved_sequence mb + 1) (mb_processing_sequence mb) = mb_resolved_sequence mb + 1.
Proof.
  intros Hs Hk. pose proof (pi_mailbox (box_of s) (ti_box s Hs) key mb Hk) as Hok.
  destruct (mb_processing_sequence mb) as [n|] eqn:Hn; [|done]. by destruct (processing_is_head _ _ _ _ Hok Hn) as [_ ->].
Qed.

Lemma resolve_head_forward key rec s e :
  turns_inv s -> head_row key s = Some rec -> committed_unresolved rec = true ->
  wp (resolve_head key rec) (fun o s' _ => keeps_row key o s s') s e.
Proof.
  intros Hs Hrec Hc. apply recovery_row_mailbox in Hrec as Hk. pose proof (recovered_head _ _ _ Hs Hk) as Hseq.
  assert (exists it, pg_items_of key (box_of s) !! (mb_resolved_sequence (rec_mailbox rec) + 1) = Some it) as [it Hit].
  { unfold head_row, recovery_row in Hrec. rewrite Hk, Hseq in Hrec. destruct rec as [mb i r st]. simpl in *. simplify_eq/=.
    unfold committed_unresolved in Hc. simpl in Hc. destruct (pg_items_of _ _ !! _); [eauto|]. simpl in Hc. done. }
  unfold resolve_head. rewrite Hseq. wp_step. unfold db_clock at 1. apply wp_datetime_now, wp_bind, wp_box, wp_modify, wp_bind, wp_box_item.
  match goal with |- context [pg_items_of key ?t !! ?n] => change (pg_items_of key t !! n) with (pg_items_of key (box_of s) !! n) end.
  wp_step. unfold db_clock at 1. apply wp_datetime_now. destruct (next_status _ _) as [[st ra] inc] eqn:Hn. simpl in Hn.
  apply wp_bind. unfold db_clock at 1. apply wp_datetime_now, wp_bind, wp_box, wp_put_row; [|done]. intros Hrc.
  apply wp_bind, clear_session_run. intros ss e1 Hf. apply wp_bind.
  apply (wp_mono _ (fun o s1 _ => match o with Raise _ => True | Ok _ => forward key [mi_inbound_id it] s s1 end)).
  2: { intros [[]|x] s1 e2 Hw; [|done]. apply wp_ret. by eexists. }
  destruct (pg_items_of key (box_of s) !! (mb_resolved_sequence (rec_mailbox rec) + 1 + 1)) as [nx|] eqn:Hnx; [case_bool_decide as Hq|].
  - apply wp_box, wp_insert_ready; [|done]. intros l e2 Hl Hg.
    eapply (resolve_forward key _ it st ra inc _ _ ss l); try done; by rewrite Hnx.
  - apply wp_ret. eapply (resolve_forward key _ it st ra inc _ _ ss (pr_ready s)); try done. by rewrite Hnx.
  - apply wp_ret. eapply (resolve_forward key _ it st ra inc _ _ ss (pr_ready s)); try done; [by rewrite Hnx|].
    intros ->. unfold head_item in Hn. simpl in Hn. by repeat case_match.
Qed.

Lemma requeue_head_forward key rec s e :
  turns_inv s -> head_row key s = Some rec -> wp (requeue_head key rec) (fun o s' _ => keeps_row key o s s') s e.
Proof.
  intros Hs Hrec. apply recovery_row_mailbox in Hrec as Hk. pose proof (recovered_head _ _ _ Hs Hk) as Hseq.
  pose proof (pi_mailbox (box_of s) (ti_box s Hs) key _ Hk) as Hok. pose proof (mo_bounds _ _ _ Hok). pose proof (mo_generation _ _ _ Hok).
  assert (Hend : rec_item rec = None <-> mb_resolved_sequence (rec_mailbox rec) = mb_accepted_sequence (rec_mailbox rec)).
  { unfold head_row, recovery_row in Hrec. rewrite Hk, Hseq in Hrec. destruct rec as [mb i r st]. simpl in *. simplify_eq/=.
    rewrite (item_none _ _ _ _ Hok) by lia. lia. }
  unfold requeue_head. apply wp_bind.
  apply (wp_mono _ (fun o s1 _ => s1 = s /\ exists st, o = Ok st /\ st <> RUNNING /\
    (st = IDLE <-> mb_resolved_sequence (rec_mailbox rec) = mb_accepted_sequence (rec_mailbox rec)))).
  { destruct (_ || _) eqn:Hle.
    - apply wp_ret. split; [done|]. exists IDLE. split_and!; [done|done|]. split; [intros _|done]. apply orb_true_iff in Hle as [Hle|Hn].
      + by apply (idle_resolved key s _ Hs Hk).
      + apply Hend. by destruct (rec_item rec).
    - apply waits_or_queues_run. intros st e2 Hst. split; [done|]. exists st. bool_prop. split_and!; [done|by destruct Hst as [->| ->]|].
      split; [by destruct Hst as [->| ->]|lia]. }
  intros o s1 e2 [-> (st & -> & Hnr & Hid)]. set (fresh := _ || _).
  assert (Hinc : 0 <= (if fresh then waking st else 0)) by (unfold waking; repeat case_match; lia).
  assert (Hg : fresh = false -> 1 <= mb_queue_generation (rec_mailbox rec)) by (subst fresh; intros [_ ?]%orb_false_iff; bool_prop; lia).
  clearbody fresh. apply wp_bind. unfold db_clock. apply wp_datetime_now, wp_bind, wp_box, wp_put_row; [|done].
  intros Hrc. apply wp_bind, clear_session_run. intros ss e3 Hf. simpl in Hf. case_bool_decide as Hq.
  - apply wp_bind, wp_box. destruct fresh; [apply wp_insert_ready|apply wp_reopen_ready]; try done; [|simpl; specialize (Hg eq_refl); lia|].
    + intros l e4 Hl Hg1. apply wp_ret. exists []. by eapply (requeue_forward key _ st _ _ _ ss l).
    + intros l e4 Hl. apply wp_ret. exists []. eapply (requeue_forward key _ st _ _ _ ss l); try done.
      intros _. split; [simpl; specialize (Hg eq_refl); lia|done].
  - wp_steps. exists []. by eapply (requeue_forward key _ st _ _ _ ss (pr_ready s)).
Qed.

Lemma reconcile_row_forward key s e : turns_inv s -> wp (reconcile_row key) (fun o s' _ => keeps_row key o s s') s e.
Proof.
  intros Hs. unfold reconcile_row. apply wp_bind, wp_gets. destruct (head_row key s) as [rec|] eqn:Hrec; [|by apply wp_ret, same_row].
  apply wp_bind, still_executing_run. intros [] e1; [by apply wp_ret, same_row|].
  destruct (committed_unresolved rec) eqn:Hc; [by apply resolve_head_forward|by apply requeue_head_forward].
Qed.

(** ** A whole sweep *)

(** Every session took some steps, and nothing moved back. *)
Record marched s s' : Prop := {
  ma_inv : turns_inv s';
  ma_le : repo_le s s';
  ma_view k : exists labs, session_path (pg_view k (box_of s)) labs (pg_view k (box_of s'));
}.

Lemma marched_refl s : turns_inv s -> marched s s.
Proof. intros Hs. split; [done|done|]. intros k. exists []. constructor. Qed.

Lemma forward_marched key lab s s1 s' : forward key lab s s1 -> marched s1 s' -> marched s s'.
Proof.
  intros [_ Hv Hle] [Hi Hle' Hv']. split; [done|by etrans|]. intros k. destruct (Hv' k) as [labs Hp].
  eexists. by eapply path_cons.
Qed.

Lemma recover_rows_marched (body : session_key -> M PgRepo Z) keys n s e :
  (forall key s e, turns_inv s -> wp (body key) (fun o s' _ => keeps_row key o s s') s e) -> turns_inv s ->
  wp (recover_rows body keys n) (fun o s' _ => match o with Ok _ => marched s s' | Raise _ => True end) s e.
Proof.
  intros Hb. revert n s e. induction keys as [|key keys IH]; intros n s e Hs; simpl; [by apply wp_ret, marched_refl|].
  apply wp_bind. eapply wp_mono; [by apply Hb|]. intros [m|x] s1 e1 Hr; [|done]. destruct Hr as [lab Hf].
  eapply wp_mono; [apply IH, Hf|]. intros [u|x] s2 e2; [|done]. by apply (forward_marched key lab).
Qed.

Definition sweeps {A} (m : M PgRepo A) : Prop :=
  forall s e, turns_inv s -> wp m (fun o s' _ => match o with Ok _ => marched s s' | Raise _ => s' = s end) s e.

Lemma select_keys_run locked limit row wanted order (Q : _ -> _ -> _ -> Prop) s e :
  (forall keys e', Q (Ok keys) s e') -> wp (select_keys locked limit row wanted order) Q s e.
Proof. intros HQ. unfold select_keys. wp_steps. apply HQ. Qed.

Lemma sweep_expired_leases_sweeps locked o limit : sweeps (sweep_expired_leases locked o limit).
Proof.
  intros s e Hs. unfold sweep_expired_leases, sweep_expired_session_leases, recovery_limit. wp_steps; try done.
  apply select_keys_run. intros keys e1. eapply wp_mono; [apply recover_rows_marched; [apply sweep_row_forward|done]|]. by intros [] ? ?.
Qed.

Lemma schedule_retries_sweeps locked o limit : sweeps (schedule_retries locked o limit).
Proof.
  intros s e Hs. unfold schedule_retries, schedule_session_mailbox_retries, recovery_limit. wp_steps; try done.
  apply select_keys_run. intros keys e1. eapply wp_mono; [apply recover_rows_marched; [apply schedule_row_forward|done]|]. by intros [] ? ?.
Qed.

Lemma reconcile_sessions_sweeps locked rc o limit : sweeps (reconcile_sessions locked rc o limit).
Proof.
  intros s e Hs. unfold reconcile_sessions, reconcile_session_mailboxes_v2, recovery_limit. wp_steps; try done.
  apply select_keys_run. intros keys e1. eapply wp_mono; [apply recover_rows_marched; [apply reconcile_row_forward|done]|]. by intros [] ? ?.
Qed.
End rows.
