(* ===== verification/PgTurnsThms.v ===== *)
(** * Theorems about the turns of the PostgreSQL repository

    The methods of [PostgresRuntimeRepository] on messages, mailboxes, sessions and turns, and
    the writes of the rest of the service, as one step relation, and what holds along its runs:
    the messages a session resolves follow its acceptance log, a provider message is accepted
    once, a committed turn is final, a superseded lease is refused, and a commit is read back by
    the next snapshot. *)

From stdpp Require Import sorting.
From S2P Require Import Prelude PyText Tenant Models Mailbox MailboxInv MailboxSpec Repository Runtime PgMailbox PgMailboxInv PgMailboxThms PgDelivery PgTurns PgTurnsInv PgSweeps PgSweepsInv AgentWorker AgentWorkerThms.
#[local] Open Scope Z_scope.

(** ** Calls and runs *)

Inductive repo_call : Type :=
  | RAcceptInbound (context : TenantContext) (envelope : InboundEnvelope) (trace_headers : gmap string string)
  | RAcceptInboundV2 (context : TenantContext) (envelope : InboundEnvelope) (trace_headers : gmap string string)
      (priority : Z) (retry_at : option Z)
  | RGetAcceptance (tenant_id inbound_id : string)
  | RGetSessionSnapshot (tenant_id session_id : string)
  | RAcceptMailbox (tenant_id session_id inbound_id : string) (priority : Z) (retry_at : option Z) (trace_id : option string)
  | RClaimMailbox (tenant_id session_id owner_id : string) (lease_for : Z) (expected_generation expected_epoch : option Z)
      (acceptance : option Acceptance)
  | RRenewMailbox (lease : MailboxLease) (lease_for : Z)
  | RRenewMailboxes (leases : list MailboxLease) (lease_for : Z)
  | RCommitMailbox (lease : MailboxLease)
  | RRescheduleMailbox (lease : MailboxLease) (retry_at priority : option Z)
  | RRetryMailbox (lease : MailboxLease) (retry_at priority : option Z)
  | RRecoverMailbox (tenant_id session_id : string)
  | RReconcileMailbox (replay_cooldown : Z) (tenant_id session_id : string)
  | RClaimSessionReady (tenant_id session_id owner_id : string) (lease_for : Z) (expected_generation : option Z)
      (expected_event_id : option string) (acceptance : option Acceptance)
  | RAcquire (acceptance : Acceptance) (worker_id : string) (lease_for : Z)
  | RRenew (lease : SessionLease) (lease_for : Z)
  | RRenewSessionReady (lease : SessionLease) (lease_for : Z)
  | RCommit (commit : TurnCommit)
  | RCommitSessionReady (commit : TurnCommit)
  | RRetrySessionReady (lease : SessionLease) (error_type : string) (delay : Z)
  | RFailSessionReady (lease : SessionLease) (error_type : string)
  | RFail (lease : SessionLease) (error_type : string)
  | RSweepExpiredLeases (locked : session_key -> bool) (owner_id : string) (limit : Z)
  | RScheduleRetries (locked : session_key -> bool) (owner_id : string) (limit : Z)
  | RReconcileSessions (locked : session_key -> bool) (replay_cooldown_seconds : Z) (owner_id : string) (limit : Z).

(** What the rest of the service writes between two calls: tenants, apps, revisions, bindings,
    identities, audit records, deliveries, and the publication columns of wake-ups.  Messages,
    mailboxes, sessions, turns and events are written by the methods of the repository only, its
    sweeps included, and by the import of a migration, which is not part of these runs. *)
Record elsewhere (s s' : PgRepo) : Prop := {
  el_inbound : pr_inbound s' = pr_inbound s;
  el_mailboxes : pr_mailboxes s' = pr_mailboxes s;
  el_items : pr_items s' = pr_items s;
  el_ready : map ready_key (pr_ready s') = map ready_key (pr_ready s);
  el_sessions : pr_sessions s' = pr_sessions s;
  el_turns : pr_turns s' = pr_turns s;
  el_events : pr_events s' = pr_events s;
}.

Definition repo_empty : PgRepo :=
  MkPgRepo ∅ ∅ ∅ ∅ ∅ ∅ [] ∅ ∅ ∅ [] ∅ ∅ ∅ (MkPgDelivery [] ∅ ∅ ∅ [] []).

Section runs.
Context `{Env} `{UuidText} `{PgUuid} `{Sha256} `{EnvelopeDump}.

Definition discard {A} (m : M PgRepo A) : M PgRepo unit := m ;; ret tt.

Definition repo_exec (c : repo_call) : M PgRepo unit :=
  match c with
  | RAcceptInbound ctx env th => discard (PgTurns.accept_inbound ctx env th)
  | RAcceptInboundV2 ctx env th p r => discard (PgTurns.accept_inbound_v2 ctx env th p r)
  | RGetAcceptance t i => discard (PgTurns.get_acceptance t i)
  | RGetSessionSnapshot t ss => discard (PgTurns.get_session_snapshot t ss)
  | RAcceptMailbox t ss i p r tr => discard (PgTurns.accept_mailbox t ss i p r tr)
  | RClaimMailbox t ss o l g ep a => discard (PgTurns.claim_mailbox t ss o l g ep a)
  | RRenewMailbox l f => discard (PgTurns.renew_mailbox l f)
  | RRenewMailboxes l f => discard (PgTurns.renew_mailboxes l f)
  | RCommitMailbox l => discard (PgTurns.commit_mailbox l)
  | RRescheduleMailbox l r p => discard (PgTurns.reschedule_mailbox l r p)
  | RRetryMailbox l r p => discard (PgTurns.retry_mailbox l r p)
  | RRecoverMailbox t ss => discard (PgTurns.recover_mailbox t ss)
  | RReconcileMailbox rc t ss => discard (PgTurns.reconcile_mailbox rc t ss)
  | RClaimSessionReady t ss o l g ev a => discard (PgTurns.claim_session_ready t ss o l g ev a)
  | RAcquire a w l => discard (PgTurns.acquire a w l)
  | RRenew l f => discard (PgTurns.renew l f)
  | RRenewSessionReady l f => discard (PgTurns.renew_session_ready l f)
  | RCommit c => discard (PgTurns.commit c)
  | RCommitSessionReady c => discard (PgTurns.commit_session_ready c)
  | RRetrySessionReady l et d => discard (PgTurns.retry_session_ready l et d)
  | RFailSessionReady l et => discard (PgTurns.fail_session_ready l et)
  | RFail l et => discard (PgTurns.fail l et)
  | RSweepExpiredLeases lk o n => discard (PgSweeps.sweep_expired_leases lk o n)
  | RScheduleRetries lk o n => discard (PgSweeps.schedule_retries lk o n)
  | RReconcileSessions lk rc o n => discard (PgSweeps.reconcile_sessions lk rc o n)
  end.

(** The message a call reports as resolved for [key]. *)
Definition repo_resolved (c : repo_call) (r : outcome unit) (key : session_key) : list string :=
  let report k i := if decide (key = k) then [i] else [] in
  match c, r with
  | RCommitMailbox l, Ok _ => report (ml_tenant_id l, ml_session_id l) (ml_inbound_id l)
  | RCommitSessionReady c, Ok _ => report (lease_key (tn_lease c)) (sl_inbound_id (tn_lease c))
  | RFailSessionReady l _, Ok _ => report (lease_key l) (sl_inbound_id l)
  | _, _ => []
  end.


Inductive repo_step : PgRepo * effects -> PgRepo * effects -> Prop :=
  | repo_step_call c s e r s' e' : repo_exec c s e = (r, s', e') -> repo_step (s, e) (s', e')
  | repo_step_elsewhere s s' e : elsewhere s s' -> repo_step (s, e) (s', e).

Definition repo_reachable (s : PgRepo) (e : effects) : Prop :=
  exists e0, rtc repo_step (repo_empty, e0) (s, e).

(** ** Every step *)

Lemma turns_inv_empty : turns_inv repo_empty.
Proof.
  split; [apply pg_inv_empty| |].
  - split; simpl; try (intros *; rewrite !lookup_empty; done).
  - intros k k' r r' Hk. simpl in Hk. by rewrite lookup_empty in Hk.
Qed.

Lemma elsewhere_forward key s s' : turns_inv s -> elsewhere s s' -> forward key [] s s'.
Proof.
  intros Hs [Hin Hm Hi Hr Hse Ht Hev]. apply forward_tables; rewrite ?Hse, ?Ht, ?Hev, ?Hin; try done; try apply Hs.
  apply core_le_refl.
Qed.

(** What a call does to the mailbox of [k]: it reports at most what it resolved. *)
Definition goes (rep lab : list string) (k : session_key) (s s' : PgRepo) : Prop :=
  turns_inv s' /\ repo_le s s' /\ session_path (pg_view k (box_of s)) lab (pg_view k (box_of s')) /\ rep `sublist_of` lab.

Lemma forward_goes rep key lab k s s' :
  forward key lab s s' -> rep `sublist_of` (if decide (k = key) then lab else []) ->
  goes rep (if decide (k = key) then lab else []) k s s'.
Proof. intros [? Hv ?] ?. split_and!; [done|done|apply session_path_one, Hv|done]. Qed.

Lemma same_goes k s : turns_inv s -> goes [] [] k s s.
Proof. intros Hs. split_and!; [done|done|apply path_nil|done]. Qed.

Lemma get_acceptance_run t i s e : wp (PgTurns.get_acceptance t i) (fun _ s' _ => s' = s) s e.
Proof. unfold PgTurns.get_acceptance, tenant_transaction. by wp_steps. Qed.

Lemma get_session_snapshot_keeps t ss s e : wp (PgTurns.get_session_snapshot t ss) (fun _ s' _ => s' = s) s e.
Proof.
  unfold PgTurns.get_session_snapshot, tenant_transaction. wp_steps; try done.
  eapply wp_mono; [apply read_events_run|]. intros [evs|x] s' e' [-> ->]; by wp_steps.
Qed.

(** A call whose specification is [Hm] goes forward. *)
Lemma discard_goes {A} (P : A -> PgRepo -> Prop) k rep (m : M PgRepo A) s e r s' e' :
  wp m (fun o s' _ => match o with Ok a => P a s' | Raise _ => s' = s end) s e ->
  turns_inv s -> discard m s e = (r, s', e') ->
  (forall a, P a s' -> exists lab, goes rep lab k s s') ->
  exists lab, goes (match r with Ok _ => rep | Raise _ => [] end) lab k s s'.
Proof.
  intros Hm Hs Hrun Hok.
  assert (Hd : wp (discard m) (fun o s' _ => match o with Ok _ => exists a, P a s' | Raise _ => s' = s end) s e).
  { apply wp_bind. eapply wp_mono; [exact Hm|]. intros [a|x] s1 e1 Ha; [|done]. apply wp_ret. by exists a. }
  pose proof (wp_run _ _ _ _ _ _ _ Hd Hrun) as Hp. destruct r as [u|x]; simpl in Hp.
  - destruct Hp as [a Ha]. by apply (Hok a).
  - subst. exists []. by apply same_goes.
Qed.

Lemma moves_goes {A} key lab (m : M PgRepo A) k s e r s' e' :
  turn_moves key (fun _ => lab) m -> turns_inv s -> discard m s e = (r, s', e') ->
  exists lab', goes (match r with Ok _ => if decide (k = key) then lab else [] | Raise _ => [] end) lab' k s s'.
Proof.
  intros Hm Hs Hrun. apply (discard_goes _ k _ m s e r s' e' (Hm s e Hs) Hs Hrun). intros a Hf.
  eexists. by apply (forward_goes _ key lab).
Qed.

Lemma unreported_goes {A} (P : A -> PgRepo -> Prop) k (m : M PgRepo A) s e r s' e' :
  wp m (fun o s' _ => match o with Ok a => P a s' | Raise _ => s' = s end) s e ->
  turns_inv s -> discard m s e = (r, s', e') -> (forall a, P a s' -> exists lab, goes [] lab k s s') -> exists lab, goes [] lab k s s'.
Proof.
  intros Hm Hs Hrun Hok. destruct (discard_goes P k [] m s e r s' e' Hm Hs Hrun Hok) as [lab Hg]. exists lab. by destruct r.
Qed.

Lemma quiet_goes {A} key lab (m : M PgRepo A) k s e r s' e' :
  turn_moves key lab m -> turns_inv s -> discard m s e = (r, s', e') -> exists lab', goes [] lab' k s s'.
Proof.
  intros Hm Hs Hrun. apply (unreported_goes _ k m s e r s' e' (Hm s e Hs) Hs Hrun). intros a Hf.
  eexists. apply (forward_goes _ key (lab a)); [done|apply sublist_nil_l].
Qed.

Lemma read_goes {A} (m : M PgRepo A) k s e r s' e' :
  wp m (fun _ s' _ => s' = s) s e -> turns_inv s -> discard m s e = (r, s', e') -> exists lab', goes [] lab' k s s'.
Proof.
  intros Hm Hs Hrun. exists []. assert (Hd : wp (discard m) (fun _ s' _ => s' = s) s e).
  { apply wp_bind. eapply wp_mono; [exact Hm|]. by intros [] ? ? ->. }
  pose proof (wp_run _ _ _ _ _ _ _ Hd Hrun) as Hp. simpl in Hp. subst. by apply same_goes.
Qed.

Lemma sweep_goes {A} (m : M PgRepo A) k s e r s' e' :
  sweeps m -> turns_inv s -> discard m s e = (r, s', e') -> exists lab', goes [] lab' k s s'.
Proof.
  intros Hm Hs Hrun. apply (unreported_goes _ k m s e r s' e' (Hm s e Hs) Hs Hrun). intros a [Hi Hle Hv].
  destruct (Hv k) as [labs Hp]. exists labs. split_and!; [done|done|done|apply sublist_nil_l].
Qed.

Lemma repo_exec_goes c s e r s' e' k :
  turns_inv s -> repo_exec c s e = (r, s', e') -> exists lab, goes (repo_resolved c r k) lab k s s'.
Proof.
  intros Hs Hrun. destruct c; simpl in Hrun; cbn [repo_resolved].
  23: exact (sweep_goes _ k s e r s' e' (sweep_expired_leases_sweeps locked owner_id limit) Hs Hrun).
  23: exact (sweep_goes _ k s e r s' e' (schedule_retries_sweeps locked owner_id limit) Hs Hrun).
  23: exact (sweep_goes _ k s e r s' e' (reconcile_sessions_sweeps locked replay_cooldown_seconds owner_id limit) Hs Hrun).
  all: try (by eapply quiet_goes; [|exact Hs|exact Hrun]; first [apply box_moves, accept_moves|apply retry_session_ready_moves]).
  all: try (by eapply (quiet_goes k); [|exact Hs|exact Hrun]; first [apply renew_moves|apply renew_session_ready_moves|apply fail_moves]).
  all: try (by eapply (quiet_goes k); [|exact Hs|exact Hrun]; apply box_moves, keeps_moves;
    first [apply claim_session_keeps|apply renew_keeps|apply renew_many_keeps|apply release_keeps|apply recover_keeps|apply reconcile_keeps]).
  all: try (by eapply read_goes; [|exact Hs|exact Hrun]; first [apply get_acceptance_run|apply get_session_snapshot_keeps]).
  all: try (by eapply moves_goes; [|exact Hs|exact Hrun]; first [apply box_moves, commit_moves|apply commit_session_ready_moves
          |apply fail_session_ready_moves]).
  - eapply unreported_goes; [by apply (accept_inbound_run context envelope trace_headers s e k)|exact Hs|exact Hrun|]. intros a [Hf _].
    eexists. apply (forward_goes _ k []); [done|apply sublist_nil_l].
  - eapply unreported_goes; [by apply accept_inbound_v2_run|exact Hs|exact Hrun|]. intros a [Hf _].
    eexists. eapply forward_goes; [done|apply sublist_nil_l].
  - eapply unreported_goes; [by apply claim_session_ready_run|exact Hs|exact Hrun|]. intros a [[lab Hf] _].
    eexists. eapply forward_goes; [done|apply sublist_nil_l].
  - eapply unreported_goes; [by apply acquire_run|exact Hs|exact Hrun|]. intros a [Hf _].
    eexists. eapply forward_goes; [done|apply sublist_nil_l].
  - eapply unreported_goes; [by apply commit_run|exact Hs|exact Hrun|]. intros a [Hf _].
    eexists. eapply forward_goes; [done|apply sublist_nil_l].
Qed.

Lemma repo_steps c c' : rtc repo_step c c' -> turns_inv c.1 -> turns_inv c'.1 /\ repo_le c.1 c'.1.
Proof.
  induction 1 as [c|c1 c2 c3 Hstep _ IH]; intros Hs; [done|].
  assert (turns_inv c2.1 /\ repo_le c1.1 c2.1) as [Hs2 Hle].
  { destruct Hstep as [cl s e r s' e' Hrun|s s' e Hout]; simpl in *.
    - by destruct (repo_exec_goes _ _ _ _ _ _ ("", "")%string Hs Hrun) as (lab & ? & ? & _).
    - by destruct (elsewhere_forward ("", "")%string _ _ Hs Hout). }
  destruct (IH Hs2). split; [done|]. by etrans.
Qed.

Lemma repo_reachable_inv s e : repo_reachable s e -> turns_inv s.
Proof. intros [e0 Hr]. by apply (repo_steps _ _ Hr turns_inv_empty). Qed.

End runs.

(** ** The fence *)

Section fence.
Context `{Env} `{UuidText} `{PgUuid} `{Sha256} `{EnvelopeDump}.
Implicit Types (s : PgRepo) (e : effects) (lease : SessionLease).

(** The call raises and changes nothing. *)
Definition repo_refused {A} (m : M PgRepo A) (s : PgRepo) (e : effects) : Prop :=
  exists x e', m s e = (Raise x, s, e').

Lemma repo_refused_wp {A} (m : M PgRepo A) (P : A -> PgRepo -> Prop) s e :
  wp m (fun o s' _ => match o with Ok a => P a s' | Raise _ => s' = s end) s e -> (forall a s', ~ P a s') -> repo_refused m s e.
Proof.
  unfold wp, repo_refused. destruct (m s e) as [[[a|x] s'] e']; simpl; intros Hm Hn; [by apply Hn in Hm|]. subst. eauto.
Qed.

(** Nothing is left to show of what follows. *)
Lemma wp_const {A} (m : M PgRepo A) (P : Prop) s e : P -> wp m (fun _ _ _ => P) s e.
Proof. intros HP. by apply wp_intro. Qed.

Definition holds_turn lease s : Prop :=
  exists rows now, rows_of lease (tw_mailbox rows) (tw_sequence rows) s rows /\ turn_current lease rows now = true.

Lemma lock_current_holds {A} lease x (k : TurnRows * Z -> M PgRepo A) s e :
  turns_inv s ->
  wp (bind (lock_current lease x) k) (fun o s' _ => match o with Ok _ => holds_turn lease s | Raise _ => True end) s e.
Proof.
  intros Hs. apply wp_bind. eapply wp_mono; [by apply lock_current_run|]. intros [[rows now]|y] s1 e1 [-> Hl]; [|done].
  eapply wp_mono; [apply (wp_const _ (holds_turn lease s))|by intros [] ? ?]. destruct Hl as (_ & _ & _ & Hr & Hc). by exists rows, now.
Qed.

Lemma retry_session_ready_holds lease et d s e :
  turns_inv s ->
  wp (PgTurns.retry_session_ready lease et d) (fun o s' _ => match o with Ok _ => holds_turn lease s | Raise _ => s' = s end) s e.
Proof.
  intros Hs. unfold PgTurns.retry_session_ready, tenant_transaction. apply wp_bind, wp_raise_if; intros _; [done|].
  apply wp_rollback, wp_bind, wp_datetime_now. eapply wp_mono; [by apply lock_current_holds|]. by intros [] ? ?.
Qed.

Lemma fail_session_ready_holds lease et s e :
  turns_inv s ->
  wp (PgTurns.fail_session_ready lease et) (fun o s' _ => match o with Ok _ => holds_turn lease s | Raise _ => s' = s end) s e.
Proof.
  intros Hs. unfold PgTurns.fail_session_ready, tenant_transaction.
  apply wp_rollback, wp_bind, wp_datetime_now. eapply wp_mono; [by apply lock_current_holds|]. by intros [] ? ?.
Qed.

Definition holds_epoch lease s : Prop :=
  exists r, pr_sessions s !! lease_key lease = Some r /\ sr_lease_epoch r = sl_fencing_token lease.

Lemma extend_session_holds lease lf s e :
  wp (extend_session lease lf) (fun o _ _ => match o with Ok (Some _) => holds_epoch lease s | Ok None => True | Raise _ => False end) s e.
Proof.
  unfold extend_session. wp_steps; [|done]. unfold holds_session in *. bool_prop. eexists. eauto.
Qed.

Lemma renew_holds lease lf s e :
  turns_inv s ->
  wp (PgTurns.renew lease lf) (fun o s' _ => match o with Ok _ => holds_epoch lease s | Raise _ => s' = s end) s e.
Proof.
  intros Hs. apply wp_intro. intros o s' e' Hrun. pose proof (wp_run _ _ _ _ _ _ _ (renew_moves lease lf ("", "")%string s e Hs) Hrun) as Hm.
  revert Hrun. destruct o as [l|x]; [|done]. intros Hrun.
  refine (wp_run _ (fun o _ _ => match o with Ok _ => holds_epoch lease s | Raise _ => True end) _ _ _ _ _ _ Hrun). clear.
  unfold PgTurns.renew, tenant_transaction. apply wp_bind, wp_rollback, wp_bind, wp_datetime_now.
  eapply wp_mono; [apply extend_session_holds|]. intros [[r|]|x] s1 e1 Hx; [by apply wp_ret|by apply wp_raise|done].
Qed.

Lemma renew_session_ready_holds lease lf s e :
  turns_inv s ->
  wp (PgTurns.renew_session_ready lease lf) (fun o s' _ => match o with Ok _ => holds_epoch lease s | Raise _ => s' = s end) s e.
Proof.
  intros Hs. unfold PgTurns.renew_session_ready, tenant_transaction. apply wp_bind, wp_raise_if; intros _; [done|].
  apply wp_bind, wp_rollback, wp_bind, wp_datetime_now, wp_bind. unfold sql_uuid. destruct (uuid_param _) as [i|]; [|by apply wp_raise].
  apply wp_ret, wp_bind, wp_box. eapply wp_mono; [apply extend_row_quiet, Hs|]. intros [ex|x] t e1 _; [|done].
  apply wp_bind. eapply wp_mono; [apply extend_session_holds|]. intros [[r|]|x] s1 e2 Hx; [|by wp_steps|done].
  cbn [is_some negb]. by wp_steps.
Qed.

(** ** A later epoch *)

Definition overtaken lease s : Prop :=
  exists r, pr_sessions s !! lease_key lease = Some r /\ sl_fencing_token lease < sr_lease_epoch r.

Lemma overtaken_le lease s s' : overtaken lease s -> repo_le s s' -> overtaken lease s'.
Proof.
  intros (r & Hr & Hlt) Hle. destruct (cl_session _ _ _ _ _ _ (rl_core _ _ Hle) _ _ Hr) as (r' & Hr' & ? & _).
  exists r'. split; [done|lia].
Qed.

Lemma overtaken_epoch lease s : overtaken lease s -> ~ holds_epoch lease s.
Proof. intros (r & Hr & Hlt) (r' & Hr' & Heq). simplify_eq. lia. Qed.

Lemma holds_turn_epoch lease s : holds_turn lease s -> holds_epoch lease s.
Proof.
  intros (rows & now & (_ & _ & Hr & _) & (_ & He & _)%turn_current_spec). by exists (tw_session rows).
Qed.

Lemma turn_written_epoch read c k res s s' : turn_written read c k res s s' -> holds_epoch (tn_lease c) s.
Proof. intros [_ (r & Hr & _ & He & _) _ _ _]. by exists r. Qed.

Lemma overtaken_refused lease s e :
  turns_inv s -> overtaken lease s -> forall lf et d c, tn_lease c = lease ->
    repo_refused (PgTurns.renew lease lf) s e /\ repo_refused (PgTurns.renew_session_ready lease lf) s e /\
    repo_refused (PgTurns.commit c) s e /\ repo_refused (PgTurns.commit_session_ready c) s e /\
    repo_refused (PgTurns.retry_session_ready lease et d) s e /\ repo_refused (PgTurns.fail_session_ready lease et) s e.
Proof.
  intros Hs Ho%overtaken_epoch lf et d c Hc. split_and!; eapply repo_refused_wp.
  - by apply renew_holds.
  - done.
  - by apply renew_session_ready_holds.
  - done.
  - by apply commit_run.
  - intros res s' (_ & k & Hw%turn_written_epoch). by rewrite Hc in Hw.
  - by apply commit_session_ready_run.
  - intros res s' (_ & _ & k & Hw%turn_written_epoch). by rewrite Hc in Hw.
  - by apply retry_session_ready_holds.
  - intros _ _ Hw%holds_turn_epoch. done.
  - by apply fail_session_ready_holds.
  - intros _ _ Hw%holds_turn_epoch. done.
Qed.

(** [fail] does not raise, but reaches only a turn of its own attempt. *)
Lemma overtaken_fail lease et s e :
  overtaken lease s ->
  wp (PgTurns.fail lease et) (fun _ s' _ => exists tt', s' = s <| pr_turns := tt' |> /\
    forall k t, pr_turns s !! k = Some t -> tu_fencing_token t <> sl_fencing_token lease -> tt' !! k = Some t) s e.
Proof.
  intros (r & Hr & Hlt). unfold PgTurns.fail, tenant_transaction.
  assert (Hself : exists tt', s = s <| pr_turns := tt' |> /\
    forall k t, pr_turns s !! k = Some t -> tu_fencing_token t <> sl_fencing_token lease -> tt' !! k = Some t)
    by (exists (pr_turns s); split; [by destruct s|done]).
  assert (Hmine : forall b : bool, (b && (sr_lease_epoch r =? sl_fencing_token lease)) = false)
    by (intros b; rewrite (proj2 (Z.eqb_neq _ _)) by lia; apply andb_false_r).
  wp_steps; simpl in *; simplify_eq; rewrite ?Hr in *; simpl in *; rewrite ?Hmine in *; try done.
  all: bool_prop; simplify_eq; eexists; (split; [done|]); intros k t Hk Hne; rewrite lookup_insert; case_decide; simplify_eq; try done.
Qed.
End fence.

(** ** Grants and committed turns *)

Section grants.
Context `{Env} `{UuidText} `{PgUuid} `{Sha256} `{EnvelopeDump}.
Implicit Types (s : PgRepo) (e : effects) (lease : SessionLease).

(** A lease on the turn of the message [i] that [claim_session_ready] or [acquire] handed out. *)
Inductive turn_grants lease (i : string) s e s' e' : Prop :=
  | grants_ready t ss ow lf g ev a claim :
      PgTurns.claim_session_ready t ss ow lf g ev a s e = (Ok claim, s', e') -> sc_execution_lease claim = Some lease ->
      i = sl_inbound_id lease -> turn_grants lease i s e s' e'
  | grants_acquire a ow lf :
      PgTurns.acquire a ow lf s e = (Ok (Some lease), s', e') -> parse_uuid (acc_inbound_id a) = Some i -> turn_grants lease i s e s' e'.

Lemma turn_grants_granted lease i s e s' e' :
  turns_inv s -> turn_grants lease i s e s' e' -> turns_inv s' /\ repo_le s s' /\ granted_turn lease i s s'.
Proof.
  intros Hs [t ss ow lf g ev a claim Hrun Hl ->|a ow lf Hrun Hi].
  - destruct (wp_run _ _ _ _ _ _ _ (claim_session_ready_run t ss ow lf g ev a s e Hs) Hrun) as [[lab [Hs' _ Hle]] Hc].
    destruct (Hc lease Hl) as (_ & Hg & _). done.
  - destruct (wp_run _ _ _ _ _ _ _ (acquire_run a ow lf s e Hs) Hrun) as [[Hs' _ Hle] Hc].
    destruct (Hc lease eq_refl) as (i' & Hi' & _ & Hg). by simplify_eq.
Qed.

(** A grant overtakes every earlier lease of the session. *)
Lemma granted_overtakes l1 l2 i1 i2 s0 s1 s2 s3 :
  granted_turn l1 i1 s0 s1 -> repo_le s1 s2 -> granted_turn l2 i2 s2 s3 -> lease_key l1 = lease_key l2 -> overtaken l1 s3.
Proof.
  intros [_ (r1 & Hr1 & He1 & _) _] Hle [Hold (r3 & Hr3 & He3 & _) _] Hk.
  destruct (cl_session _ _ _ _ _ _ (rl_core _ _ Hle) _ _ Hr1) as (r2 & Hr2 & Hep & _).
  exists r3. rewrite Hk in *. split; [done|]. pose proof (Hold _ Hr2). lia.
Qed.

Definition final_turn (k : id_key) (t : TurnRecord) s : Prop := pr_turns s !! k = Some t /\ tu_status t = turn_committed.


Lemma turn_written_final read c k res s s' :
  turn_written read c k res s s' -> exists t, final_turn k t s' /\ k.1 = sl_tenant_id (tn_lease c) /\ read (sl_turn_id (tn_lease c)) = Some k.2.
Proof.
  intros [[? ?] _ (t & t' & _ & _ & _ & Htt & Hst & _) _ _]. exists t'. split; [|done]. split; [|done]. rewrite Htt. apply lookup_insert_eq.
Qed.







(** ** Accepted messages *)

(** A message that [accept_inbound] or [accept_inbound_v2] accepted. *)
Inductive accepts (ctx : TenantContext) (env : InboundEnvelope) (a : Acceptance) s e s' e' : Prop :=
  | accepts_v1 th : PgTurns.accept_inbound ctx env th s e = (Ok a, s', e') -> accepts ctx env a s e s' e'
  | accepts_v2 th p ra : PgTurns.accept_inbound_v2 ctx env th p ra s e = (Ok a, s', e') -> accepts ctx env a s e s' e'.

Lemma accepts_run ctx env a s e s' e' :
  turns_inv s -> accepts ctx env a s e s' e' ->
  turns_inv s' /\ repo_le s s' /\ (repeated (tc_tenant_id ctx) env a s s' \/ registered (tc_tenant_id ctx) env a s s').
Proof.
  intros Hs [th Hrun|th p ra Hrun].
  - destruct (wp_run _ _ _ _ _ _ _ (accept_inbound_run ctx env th s e ("", "")%string Hs) Hrun) as [[? _ ?] ?]. done.
  - destruct (wp_run _ _ _ _ _ _ _ (accept_inbound_v2_run ctx env th p ra s e Hs) Hrun) as [[? _ ?] [?|[? _]]]; auto.
Qed.

(** The message is stored under its identifier for good. *)
Definition stored (t : string) (env : InboundEnvelope) (i : string) s : Prop :=
  exists r, pr_inbound s !! (t, i) = Some r /\ message_key r = envelope_key env.

Lemma frozen_message r r' : frozen r' = frozen r -> message_key r' = message_key r.
Proof. intros Hf. change (message_key (frozen r') = message_key (frozen r)). by rewrite Hf. Qed.

Lemma stored_le t env i s s' : stored t env i s -> repo_le s s' -> stored t env i s'.
Proof.
  intros (r & Hr & Hm) Hle. destruct (rl_inbound _ _ Hle _ _ Hr) as (r' & Hr' & Hf). exists r'. split; [done|].
  by rewrite (frozen_message _ _ Hf).
Qed.

Lemma accepts_stored ctx env a s e s' e' :
  turns_inv s -> accepts ctx env a s e s' e' -> turns_inv s' /\ stored (tc_tenant_id ctx) env (acc_inbound_id a) s'.
Proof.
  intros Hs Ha. destruct (accepts_run _ _ _ _ _ _ _ Hs Ha) as (Hs' & Hle & [(_ & _ & _ & Hst)|(_ & _ & _ & r & Hr & Hm & _)]).
  - split; [done|]. by eapply stored_le.
  - split; [done|]. by exists r.
Qed.

(** Accepting a stored message again finds it, and enqueues nothing. *)
Lemma accepts_again ctx env env' a i s e s' e' :
  turns_inv s -> stored (tc_tenant_id ctx) env' i s -> envelope_key env = envelope_key env' -> accepts ctx env a s e s' e' ->
  acc_duplicate a = true /\ acc_inbound_id a = i /\ pr_mailboxes s' = pr_mailboxes s /\ pr_items s' = pr_items s /\
  map ready_key (pr_ready s') = map ready_key (pr_ready s) /\ pr_delivery s' = pr_delivery s.
Proof.
  intros Hs (r & Hr & Hm) Hkey Ha.
  destruct (accepts_run _ _ _ _ _ _ _ Hs Ha) as (_ & _ & [(Hd & Ht & Hdel & r' & Hr' & Hm')|(_ & _ & Hno & _)]).
  - destruct (tb_box _ _ Ht). split_and!; try done.
    assert ((tc_tenant_id ctx, acc_inbound_id a) = (tc_tenant_id ctx, i)) as [= ?]; [|done].
    eapply (ti_inbound _ Hs); [exact Hr'|exact Hr|done|congruence].
  - exfalso. eapply Hno; [exact Hr|done|congruence].
Qed.
End grants.

(** ** Reading a session back *)

(** A history in the order of its numbers. *)
Abbreviation in_order h := (sorted_by Z.le fst (map_to_list (h : gmap Z HistoryRow))).

Lemma in_order_snoc (h : gmap Z HistoryRow) n x :
  (forall m, is_Some (h !! m) -> m < n) -> in_order (<[n := x]> h) = in_order h ++ [(n, x)].
Proof.
  intros Hlt. assert (Hnone : h !! n = None).
  { apply eq_None_not_Some. intros Hn. apply Hlt in Hn. lia. }
  assert (Hperm : in_order (<[n := x]> h) ≡ₚ in_order h ++ [(n, x)]).
  { rewrite !sorted_by_Permutation, map_to_list_insert by done. apply Permutation_cons_append. }
  assert (Helem : forall m y, (m, y) ∈ in_order (<[n := x]> h) <-> <[n := x]> h !! m = Some y).
  { intros m y. by rewrite sorted_by_Permutation, elem_of_map_to_list. }
  apply (StronglySorted_unique_strong (by_key Z.le fst)); [|apply sorted_by_Sorted; apply _| |done].
  - intros [m1 y1] [m2 y2] Hx Hy Hxy Hyx. rewrite <-Hperm in Hy. apply Helem in Hx, Hy. unfold by_key in *. simpl in *.
    assert (m1 = m2) as -> by lia. by simplify_eq.
  - apply StronglySorted_app_2; [intros [m1 y1] [m2 y2] Hx Hy|apply sorted_by_Sorted; apply _|repeat constructor].
    apply list_elem_of_singleton in Hy as [= -> ->]. rewrite sorted_by_Permutation, elem_of_map_to_list in Hx.
    unfold by_key. simpl. apply Z.lt_le_incl, Hlt. eauto.
Qed.

Lemma in_order_append (rows : list HistoryRow) (h h' : gmap Z HistoryRow) first :
  (forall m, is_Some (h !! m) -> m < first) ->
  (forall n, h' !! n = if decide (first <= n < first + Z.of_nat (length rows)) then rows !! Z.to_nat (n - first) else h !! n) ->
  in_order h' = in_order h ++ zip (seqZ first (Z.of_nat (length rows))) rows.
Proof.
  revert h first. induction rows as [|x rows IH]; intros h first Hlt Hh.
  - simpl. rewrite app_nil_r. f_equal. f_equal. apply map_eq. intros n. rewrite Hh, decide_False; [done|]. simpl. lia.
  - rewrite (IH (<[first := x]> h) (first + 1)).
    + rewrite in_order_snoc, <-app_assoc by done. f_equal. cbn [length]. rewrite (seqZ_cons first) by lia.
      cbn [zip zip_with app]. repeat f_equal; lia.
    + intros m [y Hm]. rewrite lookup_insert in Hm. case_decide; [lia|]. assert (m < first) by (apply Hlt; eauto). lia.
    + intros n. rewrite Hh, lookup_insert. cbn [length]. destruct (decide (first = n)) as [->|Hne].
      * rewrite decide_True, decide_False by lia. by rewrite Z.sub_diag.
      * repeat case_decide; try lia; [|done]. replace (Z.to_nat (n - first)) with (S (Z.to_nat (n - (first + 1)))) by lia. done.
Qed.

Section read_back.
Context `{Env} `{UuidText} `{PgUuid} `{Sha256} `{EnvelopeDump}.
Implicit Types (s : PgRepo) (e : effects).

Definition sequenced (x : Z * HistoryRow) : SequencedEvent := MkSequencedEvent (hi_event x.2) x.1.

Definition snapshot_of (key : session_key) s (r : SessionRecord) : SessionSnapshot :=
  MkSessionSnapshot key.1 (sr_app_id r) key.2 (sr_principal_id r) (sr_version r) (sr_next_sequence r) (sr_state r)
    (sequenced <$> ordered_history key s).

Lemma read_events_ok rows s e :
  Forall (fun x => 1 <= x.1) rows -> wp (read_events rows) (fun o s' e' => o = Ok (sequenced <$> rows) /\ s' = s) s e.
Proof.
  induction 1 as [|[n r] rows Hn _ IH]; cbn [read_events]; [by apply wp_ret|]. wp_steps; bool_prop; simpl in *; [lia|].
  eapply wp_mono; [exact IH|]. intros o s' e' [-> ->]. by wp_steps.
Qed.

Lemma ordered_history_positive key s : turns_inv s -> Forall (fun x => 1 <= x.1) (ordered_history key s).
Proof.
  intros Hs. apply Forall_forall. intros [n h] Hx. unfold ordered_history in Hx.
  rewrite sorted_by_Permutation, elem_of_map_to_list in Hx. simpl.
  change (events_of key (pr_events s) !! n = Some h) in Hx. destruct (pr_sessions s !! key) as [r|] eqn:Hr.
  - apply (ci_numbers _ _ _ (ti_core s Hs) key r n Hr). eauto.
  - by rewrite (ci_none _ _ _ (ti_core s Hs) key Hr), lookup_empty in Hx.
Qed.

(** A snapshot can always be read. *)
Lemma get_session_snapshot_run t ss s e :
  turns_inv s ->
  wp (PgTurns.get_session_snapshot t ss) (fun o s' _ => s' = s /\ o = Ok (snapshot_of (t, ss) s <$> pr_sessions s !! (t, ss))) s e.
Proof.
  intros Hs. unfold PgTurns.get_session_snapshot, tenant_transaction. wp_step. wp_step. wp_step. wp_step. wp_step. wp_step. wp_step. wp_step. wp_step.
  destruct (pr_sessions s !! (t, ss)) as [r|] eqn:Hr; simpl; [|by apply wp_ret].
  apply wp_bind. eapply wp_mono; [by apply read_events_ok, ordered_history_positive|]. intros o s1 e1 [-> ->].
  destruct (ci_session _ _ _ (ti_core s Hs) _ _ Hr) as (? & ? & _). wp_steps; [|done]. bool_prop. lia.
Qed.

Lemma snapshot_read t ss s e :
  turns_inv s -> exists e', PgTurns.get_session_snapshot t ss s e = (Ok (snapshot_of (t, ss) s <$> pr_sessions s !! (t, ss)), s, e').
Proof.
  intros Hs. destruct (PgTurns.get_session_snapshot t ss s e) as [[o s'] e'] eqn:Hrun.
  destruct (wp_run _ _ _ _ _ _ _ (get_session_snapshot_run t ss s e Hs) Hrun) as [-> ->]. eauto.
Qed.

(** The events of a commit, numbered from [first] on. *)
Definition numbered_from (first : Z) (events : list StoredEvent) : list SequencedEvent :=
  zip_with (fun n ev => MkSequencedEvent ev n) (seqZ first (Z.of_nat (length events))) events.

Lemma sequenced_zip turn_id ns events :
  sequenced <$> zip ns (MkHistoryRow turn_id <$> events) = zip_with (fun n ev => MkSequencedEvent ev n) ns events.
Proof. revert ns. induction events as [|x events IH]; intros [|n ns]; simpl; [done..|]. by rewrite IH. Qed.

Lemma appended_order key turn_id first events s s' :
  appended key turn_id first events (pr_events s) (pr_events s') ->
  (forall n, is_Some (events_of key (pr_events s) !! n) -> n < first) ->
  sequenced <$> ordered_history key s' = (sequenced <$> ordered_history key s) ++ numbered_from first events.
Proof.
  intros [_ Hrows] Hlt. change (ordered_history key s) with (in_order (events_of key (pr_events s))).
  change (ordered_history key s') with (in_order (events_of key (pr_events s'))).
  rewrite (in_order_append (MkHistoryRow turn_id <$> events) (events_of key (pr_events s)) _ first Hlt).
  - by rewrite fmap_app, sequenced_zip, length_fmap.
  - intros n. rewrite Hrows, length_fmap, list_lookup_fmap. done.
Qed.

(** What the snapshot of the session is after a commit. *)
Lemma turn_written_snapshot read c k res s s' :
  turns_inv s -> turn_written read c k res s s' ->
  let key := lease_key (tn_lease c) in
  exists r r', pr_sessions s !! key = Some r /\ pr_sessions s' !! key = Some r' /\
    ss_events (snapshot_of key s' r') = ss_events (snapshot_of key s r) ++ numbered_from (sr_next_sequence r) (tn_events c) /\
    sr_state r' = tn_state c /\ sr_version r' = sr_version r + 1 /\
    sr_next_sequence r' = sr_next_sequence r + Z.of_nat (length (tn_events c)) /\
    res = turn_result c (sr_next_sequence r) (sr_next_sequence r').
Proof.
  intros Hs [_ (r & Hr & _ & _ & Hap & Hres & r' & Hss & Hst & Hv & Hn & _) _ _ _] key. subst key. exists r, r'.
  split_and!; [done|rewrite Hss; apply lookup_insert_eq| |done|done|done|by rewrite Hn].
  eapply appended_order; [exact Hap|]. intros n Hn'. apply (ci_numbers _ _ _ (ti_core s Hs) _ _ n Hr) in Hn'. lia.
Qed.
End read_back.

(** ** A turn that is held can be committed *)

Section progress.
Context `{Env} `{UuidText} `{PgUuid} `{Sha256} `{EnvelopeDump}.
Implicit Types (s : PgRepo) (e : effects) (lease : SessionLease).

(** No event of the list is in the history, or twice in the list. *)
Record fresh_events (h : gmap Z HistoryRow) (events : list StoredEvent) : Prop := {
  fe_distinct : NoDup (se_event_id <$> events);
  fe_new n r x : h !! n = Some r -> x ∈ events -> se_event_id (hi_event r) <> se_event_id x;
}.

Lemma fresh_events_cons (h : gmap Z HistoryRow) n turn_id x events :
  fresh_events h (x :: events) -> fresh_events (<[n := MkHistoryRow turn_id x]> h) events.
Proof.
  intros [Hd Hn]. rewrite fmap_cons, NoDup_cons in Hd. destruct Hd as [Hx Hd]. split; [done|].
  intros m r y. rewrite lookup_insert. case_decide; intros Hr Hy; simplify_eq/=.
  - intros Heq. apply Hx. rewrite Heq. by apply list_elem_of_fmap_2.
  - eapply Hn; [done|by right].
Qed.

Lemma insert_histories_ok key turn_id first events s e :
  (forall n, first <= n -> events_of key (pr_events s) !! n = None) -> fresh_events (events_of key (pr_events s)) events ->
  wp (insert_histories key turn_id first events) (fun o s' e' =>
    o = Ok (first + Z.of_nat (length events)) /\ e' = e /\ exists ev', s' = s <| pr_events := ev' |>) s e.
Proof.
  revert first s. induction events as [|x events IH]; intros first s Hnone Hf; cbn [insert_histories].
  - apply wp_ret. rewrite Z.add_0_r. split_and!; [done|done|]. exists (pr_events s). by destruct s.
  - apply wp_bind. unfold insert_history. apply wp_bind, wp_gets, wp_bind, wp_raise_if.
    { intros Hx. unfold history in Hx. change (is_some (events_of key (pr_events s) !! first) = true) in Hx. by rewrite Hnone in Hx. }
    intros _. apply wp_bind, wp_raise_if.
    { intros Hx%existsb_exists. destruct Hx as ([n r] & Hin & Heq). apply list_elem_of_In, elem_of_map_to_list in Hin. bool_prop.
      exfalso. eapply (fe_new _ _ Hf n r x); [done|by left|done]. }
    intros _. apply wp_modify. set (s1 := s <| pr_events := _ |>).
    assert (He : events_of key (pr_events s1) = <[first := MkHistoryRow turn_id x]> (events_of key (pr_events s)))
      by (unfold events_of; simpl; by rewrite lookup_insert_eq).
    eapply wp_mono; [apply (IH (first + 1) s1)|].
    + intros n Hn. rewrite He, lookup_insert_ne by lia. apply Hnone. lia.
    + rewrite He. by apply fresh_events_cons.
    + intros o s' e' (-> & -> & ev' & ->). split_and!; [f_equal; simpl; lia|done|]. by exists ev'.
Qed.

Lemma insert_event_ok t agg ty (b : bool) p th now s e :
  pd_outbox (pr_delivery s) !! (t, uuid_at (uuids e)) = None ->
  (b = true -> existsb (active_outbound t agg ty) (map_to_list (pd_outbox (pr_delivery s))) = false) ->
  wp (insert_event t agg ty b p th now) (fun o s' e' => o = Ok tt /\ e' = Effects (S (uuids e)) (ticks e) /\
    exists d, s' = s <| pr_delivery := d |> /\ pd_outbox d = <[(t, uuid_at (uuids e)) := event_row agg ty p th now]> (pd_outbox (pr_delivery s))) s e.
Proof.
  intros Hid Hact. unfold insert_event, deliver. wp_steps.
  - by rewrite Hid in *.
  - destruct b; simpl in *; [|done]. by rewrite Hact in *.
  - split_and!; [done|done|]. eexists. split; [done|]. done.
Qed.

(** The mailbox of a running turn is closed, whatever the next message is. *)
Lemma close_mailbox_ok lease mb n it (t : PgStore) e :
  pg_inv t -> pg_mailboxes t !! lease_key lease = Some mb -> n = mb_resolved_sequence mb + 1 ->
  pg_items_of (lease_key lease) t !! n = Some it -> mb_lease_owner mb = Some (sl_worker_id lease) ->
  mb_lease_epoch mb = sl_fencing_token lease -> after (mb_lease_expires_at mb) (clock_at (2 + ticks e)) = true ->
  wp (close_mailbox lease mb n) (fun o _ e' => o = Ok tt /\ (uuids e <= uuids e' <= S (uuids e))%nat) t e.
Proof.
  intros Ht Hk Hn Hit Ho He Hx. pose proof (pi_mailbox t Ht _ _ Hk) as Hok. destruct (pi_checked t Ht _ _ Hk) as [Hrc Hic].
  unfold close_mailbox, wake_next, _emit_ready_outbox, insert_ready. wp_steps; simpl; auto;
    rewrite ?items_of_resolved in *.
  - bool_prop. exfalso. rewrite Ho, He, Z.eqb_refl, bool_decide_eq_true_2 in * by done. simpl in *. congruence.
  - bool_prop. exfalso. destruct (next_status_spec _ _ _ _ _ ltac:(eassumption)) as (_ & _ & Hinc & _).
    match goal with Hq : ?st = QUEUED |- _ => rewrite (Hinc Hq) in * end.
    match goal with Hx : context [ready_trace ?row (mi_trace_id ?i) _] |- _ => destruct (ready_trace_check row i) as [? ?]; [by eapply Hic|] end.
    pose proof (mo_generation _ _ _ Hok). assert (1 <= char_len (mb_session_id mb) <= 256) by (unfold row_check in Hrc; bool_prop; lia).
    repeat match goal with Hb : _ || _ = true |- _ => apply orb_true_iff in Hb as [Hb|Hb] end; bool_prop; simpl in *; lia.
  - exfalso. match goal with Hx : row_check ?row = false |- _ => apply not_true_iff_false in Hx; apply Hx; apply (cleared_check mb) end;
      [done|by eapply next_cleared|done..].
Qed.

Lemma lock_mailbox_ok lease x y mb s e :
  turns_inv s -> pr_mailboxes s !! lease_key lease = Some mb -> mb_status mb = RUNNING ->
  mb_processing_inbound_id mb = Some (sl_inbound_id lease) -> mb_lease_owner mb = Some (sl_worker_id lease) ->
  mb_lease_epoch mb = sl_fencing_token lease -> after (mb_lease_expires_at mb) (clock_at (ticks e)) = true ->
  wp (lock_mailbox lease x y) (fun o s' e' => s' = s /\ e' = Effects (uuids e) (S (ticks e)) /\
    (exists now, o = Ok (mb, mb_resolved_sequence mb + 1, now)) /\
    exists it, pg_items_of (lease_key lease) (box_of s) !! (mb_resolved_sequence mb + 1) = Some it /\ mi_inbound_id it = sl_inbound_id lease) s e.
Proof.
  intros Hs Hk Hr Hi Ho He Hx. pose proof (mo_lease _ _ _ (pi_mailbox _ (ti_box s Hs) _ _ Hk)) as Hl. unfold lease_ok in Hl.
  rewrite Hr in Hl. destruct Hl as (it & ow & ex & Hit & Hp & Hi' & _). unfold lock_mailbox. wp_steps; simplify_eq/=; try congruence.
  - exfalso. bool_prop. rewrite Hr, Hi, Ho, He, Hx, !bool_decide_eq_true_2, Z.eqb_refl in * by done. done.
  - split_and!; eauto.
Qed.

(** The identifiers of the lease are UUIDs in the form in which they are stored. *)
Definition stored_ids lease : Prop :=
  uuid_param (sl_turn_id lease) = Some (sl_turn_id lease) /\ uuid_param (sl_inbound_id lease) = Some (sl_inbound_id lease).

Lemma lock_turn_ok lease mb n x r turn it inbound s e :
  stored_ids lease -> pr_sessions s !! lease_key lease = Some r -> pr_turns s !! (sl_tenant_id lease, sl_turn_id lease) = Some turn ->
  pg_items_of (lease_key lease) (box_of s) !! n = Some it -> pr_inbound s !! (sl_tenant_id lease, sl_inbound_id lease) = Some inbound ->
  wp (lock_turn lease mb n x) (fun o s' e' => s' = s /\ e' = e /\
    o = Ok (MkTurnRows mb n r turn (sl_tenant_id lease, sl_turn_id lease) it inbound (sl_tenant_id lease, sl_inbound_id lease))) s e.
Proof.
  intros [Ht Hi] Hr Hturn Hit Hin. unfold lock_turn, sql_uuid. rewrite Ht, Hi.
  apply wp_bind, wp_gets, wp_bind, wp_ret, wp_bind, wp_gets, wp_bind, wp_box_item, wp_bind, wp_ret, wp_bind, wp_gets.
  rewrite Hr, Hturn, Hit, Hin. by apply wp_ret.
Qed.

(** What the reply of a commit needs. *)
Definition reply_fits (t : string) (c : TurnCommit) s : Prop :=
  forall o, tn_outbound c = Some o ->
    (exists u, uuid_param (oe_outbound_id o) = Some u /\ pd_outbound (pr_delivery s) !! (t, u) = None) /\
    (t, oe_binding_id o) ∈ pr_bindings s /\
    existsb (active_outbound t (oe_outbound_id o) (outbound_event_type (oe_channel o))) (map_to_list (pd_outbox (pr_delivery s))) = false.

(** The identifiers with the numbers from [lo] to below [hi] are distinct, and no event has one of them. *)
Record unused_ids (t : string) (d : PgDelivery) (lo hi : nat) : Prop := {
  ui_distinct n m : (lo <= n < m)%nat -> (m < hi)%nat -> uuid_at n <> uuid_at m;
  ui_free n : (lo <= n < hi)%nat -> pd_outbox d !! (t, uuid_at n) = None;
}.

Lemma unused_ids_le t d lo lo' hi : unused_ids t d lo hi -> (lo <= lo')%nat -> unused_ids t d lo' hi.
Proof. intros [Hd Hf] Hle. split; intros; [apply Hd|apply Hf]; lia. Qed.

Lemma unused_ids_next t d d' row lo hi :
  unused_ids t d lo hi -> pd_outbox d' = <[(t, uuid_at lo) := row]> (pd_outbox d) -> unused_ids t d' (S lo) hi.
Proof.
  intros [Hd Hf] Hrow. split; [intros; apply Hd; lia|]. intros n Hn. rewrite Hrow, lookup_insert_ne; [apply Hf; lia|].
  intros [= Heq]. by apply (Hd lo n ltac:(lia) ltac:(lia)).
Qed.

Lemma write_turn_ok c turn_id first now hi s e :
  (forall n, first <= n -> events_of (lease_key (tn_lease c)) (pr_events s) !! n = None) ->
  fresh_events (events_of (lease_key (tn_lease c)) (pr_events s)) (tn_events c) ->
  reply_fits (sl_tenant_id (tn_lease c)) c s -> unused_ids (sl_tenant_id (tn_lease c)) (pr_delivery s) (uuids e) hi -> (uuids e < hi)%nat ->
  wp (write_turn sql_uuid c (sl_tenant_id (tn_lease c), turn_id) first now) (fun o s' e' => (exists next, o = Ok next) /\ ticks e' = ticks e /\
    (uuids e' <= S (uuids e))%nat /\
    exists ev d, s' = s <| pr_events := ev |> <| pr_delivery := d |> /\ unused_ids (sl_tenant_id (tn_lease c)) d (uuids e') hi) s e.
Proof.
  intros Hnone Hf Hr Hu Hhi. unfold write_turn. apply wp_bind. eapply wp_mono; [by apply insert_histories_ok|].
  intros o s1 e1 (-> & -> & ev & ->). apply wp_bind. destruct (tn_outbound c) as [out|] eqn:Ho.
  - destruct (Hr out Ho) as ((u & Hou & Hnew) & Hb & Hact). unfold sql_uuid. rewrite Hou. apply wp_bind, wp_ret. unfold insert_outbound, deliver.
    apply wp_bind, wp_gets, wp_bind, wp_raise_if; [unfold id; simpl; by rewrite Hnew|]. intros _. apply wp_bind, wp_raise_if; [intros Hx; by bool_prop|].
    intros _. apply wp_bind, wp_zoom, wp_modify. eapply wp_mono; [apply insert_event_ok; [simpl; apply (ui_free _ _ _ _ Hu); lia|done]|].
    intros o s2 e2 (-> & -> & d & -> & Hd). apply wp_ret. split_and!; [eauto|done|done|]. exists ev, d. split; [done|]. by eapply unused_ids_next.
  - apply wp_ret, wp_ret. split_and!; [eauto|done|lia|]. exists ev, (pr_delivery s). split; [by destruct s|done].
Qed.

Lemma settle_turn_ok lease rows state next r s e :
  pr_sessions s !! lease_key lease = Some r -> holds_session (sl_worker_id lease) (sl_fencing_token lease) (clock_at (ticks e)) r = true ->
  wp (settle_turn lease rows state next) (fun o s' e' => o = Ok tt /\ e' = Effects (uuids e) (2 + ticks e) /\
    exists ss tt' m, s' = s <| pr_sessions := ss |> <| pr_turns := tt' |> <| pr_inbound := m |>) s e.
Proof.
  intros Hr Hh. unfold settle_turn. wp_steps; simplify_eq/=; rewrite ?Hr in *; try congruence.
  all: split_and!; [done|done|]; match goal with |- exists _ _ _, ?s' = _ => exists (pr_sessions s'), (pr_turns s'), (pr_inbound s') end; by destruct s.
Qed.

Lemma commit_session_ready_ok c r s e :
  let lease := tn_lease c in
  turns_inv s -> turn_held lease s -> stored_ids lease -> pr_sessions s !! lease_key lease = Some r ->
  fresh_events (events_of (lease_key lease) (pr_events s)) (tn_events c) -> reply_fits (sl_tenant_id lease) c s ->
  unused_ids (sl_tenant_id lease) (pr_delivery s) (uuids e) (uuids e + 3) ->
  (forall n, (ticks e <= n <= ticks e + 8)%nat -> clock_at n < sl_expires_at lease /\ after (sr_lease_expires_at r) (clock_at n) = true) ->
  wp (PgTurns.commit_session_ready c) (fun o _ _ => exists res, o = Ok res) s e.
Proof.
  intros lease Hs [(mb & Hm & Hrun & Hpi & Hmo & Hme & Hmx) (r' & Hr' & Hro & Hre) (turn & Ht & Hts & Htf & Hti) (i & Hi & His)] Hids Hr Hev Hrep Hu Hclock.
  rewrite Hr in Hr'. injection Hr' as <-.
  assert (Hbox : forall n, (ticks e <= n <= ticks e + 8)%nat -> after (mb_lease_expires_at mb) (clock_at n) = true)
    by (intros n Hn; rewrite Hmx; simpl; apply Z.ltb_lt, Hclock, Hn).
  assert (Hsess : forall n, (ticks e <= n <= ticks e + 8)%nat -> holds_session (sl_worker_id lease) (sl_fencing_token lease) (clock_at n) r = true)
    by (intros n Hn; unfold holds_session; rewrite Hro, Hre, Z.eqb_refl, bool_decide_eq_true_2 by done; simpl; by apply Hclock).
  unfold PgTurns.commit_session_ready, tenant_transaction. fold lease. apply wp_rollback, wp_bind, wp_datetime_now, wp_bind.
  eapply wp_mono; [apply (lock_mailbox_ok lease _ _ mb); try done; simpl; apply Hbox; lia|].
  intros o s1 e1 (-> & -> & [now ->] & it & Hit & Hid). apply wp_bind. eapply wp_mono; [by apply lock_turn_ok|].
  intros o s2 e2 (-> & -> & ->). apply wp_bind, wp_datetime_now, wp_bind, wp_raise_if; intros Hcheck.
  { exfalso. unfold turn_current, turn_in_processing, in_processing in Hcheck. simpl in Hcheck.
    rewrite Hsess, Hts, Htf, Hti, His, Hid, Z.eqb_refl, !bool_decide_eq_true_2 in Hcheck by (done || lia). done. }
  apply wp_bind. eapply wp_mono.
  { apply (write_turn_ok _ _ _ _ (uuids e + 3)); [|done|done|done|simpl; lia]. intros n Hn. apply eq_None_not_Some. intros Hx.
    apply (ci_numbers _ _ _ (ti_core s Hs) _ _ n Hr) in Hx. simpl in Hn. lia. }
  intros o s3 e3 ([next ->] & Htk & Hid3 & ev & d & -> & Hu'). simpl in Htk, Hid3. apply wp_bind.
  eapply wp_mono; [eapply settle_turn_ok; [exact Hr|]; rewrite Htk; apply Hsess; lia|].
  intros o s4 e4 (-> & -> & ss & tt' & m & ->). apply wp_bind, wp_box.
  eapply wp_mono; [apply (close_mailbox_ok lease mb _ it); try done|].
  - eapply outside_quiet; [exact (ti_box s Hs)|]. done.
  - simpl. rewrite Htk. apply Hbox. lia.
  - intros o t e5 [-> Hle]. simpl in Hle. apply wp_bind. eapply wp_mono; [apply insert_event_ok; [simpl; apply (ui_free _ _ _ _ Hu'); lia|done]|].
    intros o s6 e6 (-> & _). apply wp_ret. eauto.
Qed.
End progress.

(** Nobody wrote the mailbox, the session, the turn and the message of the lease. *)
Record untouched (lease : SessionLease) (s s' : PgRepo) : Prop := {
  un_mailbox : pr_mailboxes s' !! lease_key lease = pr_mailboxes s !! lease_key lease;
  un_session : pr_sessions s' !! lease_key lease = pr_sessions s !! lease_key lease;
  un_turn : pr_turns s' !! (sl_tenant_id lease, sl_turn_id lease) = pr_turns s !! (sl_tenant_id lease, sl_turn_id lease);
  un_message : pr_inbound s' !! (sl_tenant_id lease, sl_inbound_id lease) = pr_inbound s !! (sl_tenant_id lease, sl_inbound_id lease);
}.

Lemma turn_held_untouched lease s s' : turn_held lease s -> untouched lease s s' -> turn_held lease s'.
Proof. intros [? ? ? ?] [Hm Hse Ht Hin]. by split; rewrite ?Hin, ?Hm, ?Hse, ?Ht. Qed.

(** ** The repository of the agent worker *)

#[export] Instance pg_turns `{Env} `{UuidText} `{PgUuid} `{Sha256} `{EnvelopeDump} : TurnRepository PgRepo := {|
  tr_get_acceptance := PgTurns.get_acceptance;
  tr_get_session_snapshot := PgTurns.get_session_snapshot;
  tr_acquire := PgTurns.acquire;
  tr_renew := PgTurns.renew;
  tr_renew_session_ready := PgTurns.renew_session_ready;
  tr_commit := PgTurns.commit;
  tr_commit_session_ready := PgTurns.commit_session_ready;
  tr_fail := PgTurns.fail;
  tr_fail_session_ready := PgTurns.fail_session_ready;
  tr_retry_session_ready := PgTurns.retry_session_ready |}.

#[export] Instance pg_renew_keeps `{Env} `{UuidText} `{PgUuid} `{Sha256} `{EnvelopeDump} : RenewKeeps PgRepo.
Proof.
  assert (Hrun : forall A (m : M PgRepo A) (P : A -> Prop),
    (forall repo e, wp m (fun r _ _ => forall a, r = Ok a -> P a) repo e) ->
    forall repo e a repo' e', m repo e = (Ok a, repo', e') -> P a).
  { intros A m P Hm repo e a repo' e' Er. by apply (wp_run _ _ _ _ _ _ _ (Hm repo e) Er). }
  split; intros lease lease_for; apply Hrun; intros repo e; simpl.
  - unfold PgTurns.renew, tenant_transaction. wp_steps; try done. by intros a [= <-].
  - unfold PgTurns.renew_session_ready, tenant_transaction, extend_row. wp_steps; try done. by intros a [= <-].
Qed.

(** ** The claims *)

Section claims.
Context `{Env} `{UuidText} `{PgUuid} `{Sha256} `{EnvelopeDump}.


(** C9: In every database that the methods of the repository reach from empty tables, the three
    recovery sweeps included, interleaved with writes of other components to their own tables and
    without the import of a migration, the tables of the turns are well formed: the mailboxes are;
    the events of a session are numbered from one without gaps up to its next number; every event
    belongs to a committed turn; a message has one turn; and a provider message is stored once. *)
Theorem pg_turns_reachable_wf s e :
  repo_reachable s e ->
  pg_inv (box_of s) /\
  (forall key r n, pr_sessions s !! key = Some r -> is_Some (history key s !! n) <-> 1 <= n < sr_next_sequence r) /\
  (forall key n h, history key s !! n = Some h ->
     exists t, pr_turns s !! (key.1, hi_turn_id h) = Some t /\ tu_status t = turn_committed) /\
  (forall k k' t t', pr_turns s !! k = Some t -> pr_turns s !! k' = Some t' -> k.1 = k'.1 ->
     tu_inbound_id t = tu_inbound_id t' -> k = k') /\
  (forall k k' r r', pr_inbound s !! k = Some r -> pr_inbound s !! k' = Some r' -> k.1 = k'.1 ->
     message_key r = message_key r' -> k = k').
Proof.
  intros [Hb Hc Hi]%repo_reachable_inv. split_and!; [done| | | |exact Hi].
  - intros key r n Hr. by apply (ci_numbers _ _ _ Hc).
  - intros key n h Hh. by apply (ci_turn _ _ _ Hc key n).
  - by apply (ci_one _ _ _ Hc).
Qed.

(** C8: A provider message is accepted once: when accepting it again for the tenant returns, by
    either method and whatever methods ran in between, it answers the identifier of the first
    acceptance, says that it is a duplicate, and has enqueued nothing: no wake-up is new and no mailbox, item,
    outbox event or outbound message is new or different; and a message that [accept_inbound_v2]
    reports as new is the last entry of the acceptance log of its session. *)
Theorem pg_accepted_once ctx ctx' env env' a a' s e s1 e1 s2 e2 s3 e3 :
  repo_reachable s e -> accepts ctx env a s e s1 e1 -> rtc repo_step (s1, e1) (s2, e2) ->
  tc_tenant_id ctx' = tc_tenant_id ctx -> envelope_key env' = envelope_key env -> accepts ctx' env' a' s2 e2 s3 e3 ->
  acc_duplicate a' = true /\ acc_inbound_id a' = acc_inbound_id a /\
  pr_mailboxes s3 = pr_mailboxes s2 /\ pr_items s3 = pr_items s2 /\ map ready_key (pr_ready s3) = map ready_key (pr_ready s2) /\
  pr_delivery s3 = pr_delivery s2 /\
  (forall th p ra, PgTurns.accept_inbound_v2 ctx env th p ra s e = (Ok a, s1, e1) -> acc_duplicate a = false ->
     pg_view (tc_tenant_id ctx, tc_session_id ctx) (box_of s1) =
       ((pg_view (tc_tenant_id ctx, tc_session_id ctx) (box_of s)).1 ++ [acc_inbound_id a],
        (pg_view (tc_tenant_id ctx, tc_session_id ctx) (box_of s)).2)).
Proof.
  intros Hr Ha H12 Ht Hk Ha'. apply repo_reachable_inv in Hr. destruct (accepts_stored _ _ _ _ _ _ _ Hr Ha) as [Hs1 Hst].
  destruct (repo_steps _ _ H12 Hs1) as [Hs2 Hle]. cbn [fst] in *.
  assert (Hst2 : stored (tc_tenant_id ctx') env (acc_inbound_id a) s2) by (rewrite Ht; by eapply stored_le).
  destruct (accepts_again _ _ _ _ _ _ _ _ _ Hs2 Hst2 Hk Ha') as (? & ? & ? & ? & ? & ?). split_and!; try done.
  intros th p ra Hrun Hnew. destruct (wp_run _ _ _ _ _ _ _ (accept_inbound_v2_run ctx env th p ra s e Hr) Hrun) as [_ [[Hd _]|[_ Hl]]].
  - congruence.
  - exact Hl.
Qed.


(** C5: Fencing of turns: once a later lease of the session has been granted by
    [claim_session_ready] or [acquire], the earlier one is refused by [renew],
    [renew_session_ready], both commits, [retry_session_ready] and [fail_session_ready], which
    change nothing; and [fail] under it reaches no session, message, event or mailbox, nor any turn
    that was started under another fencing token. *)
Theorem pg_turn_superseded_fenced l1 l2 i1 i2 s0 e0 s1 e1 s2 e2 s3 e3 s e :
  repo_reachable s0 e0 -> turn_grants l1 i1 s0 e0 s1 e1 -> rtc repo_step (s1, e1) (s2, e2) ->
  turn_grants l2 i2 s2 e2 s3 e3 -> lease_key l1 = lease_key l2 -> rtc repo_step (s3, e3) (s, e) ->
  forall lf et d c, tn_lease c = l1 ->
    repo_refused (PgTurns.renew l1 lf) s e /\ repo_refused (PgTurns.renew_session_ready l1 lf) s e /\
    repo_refused (PgTurns.commit c) s e /\ repo_refused (PgTurns.commit_session_ready c) s e /\
    repo_refused (PgTurns.retry_session_ready l1 et d) s e /\ repo_refused (PgTurns.fail_session_ready l1 et) s e /\
    exists turns, (PgTurns.fail l1 et s e).1.2 = s <| pr_turns := turns |> /\
      forall k t, pr_turns s !! k = Some t -> tu_fencing_token t <> sl_fencing_token l1 -> turns !! k = Some t.
Proof.
  intros Hr Hg1 H12 Hg2 Hk Hlast lf et d c Hc. apply repo_reachable_inv in Hr.
  destruct (turn_grants_granted _ _ _ _ _ _ Hr Hg1) as (Hs1 & _ & Hgr1). destruct (repo_steps _ _ H12 Hs1) as [Hs2 Hle12].
  destruct (turn_grants_granted _ _ _ _ _ _ Hs2 Hg2) as (Hs3 & _ & Hgr2). destruct (repo_steps _ _ Hlast Hs3) as [Hs Hle3].
  pose proof (overtaken_le _ _ _ (granted_overtakes _ _ _ _ _ _ _ _ Hgr1 Hle12 Hgr2 Hk) Hle3) as Ho. cbn [fst] in *.
  destruct (overtaken_refused l1 s e Hs Ho lf et d c Hc) as (? & ? & ? & ? & ? & ?). split_and!; try done.
  exact (overtaken_fail l1 et s e Ho).
Qed.

(** C7: What a commit writes is what the next reader gets: the snapshot of the session after the
    commit of a turn is the one before it, with the events of the turn appended under the next
    free numbers, the state of the turn, the next version and the next number; the result names
    exactly these numbers.  A commit that raises leaves the snapshot as it was. *)
Theorem pg_commit_read_back c r s e s1 e1 :
  repo_reachable s e ->
  PgTurns.commit_session_ready c s e = (r, s1, e1) \/ PgTurns.commit c s e = (r, s1, e1) ->
  let read s e := PgTurns.get_session_snapshot (sl_tenant_id (tn_lease c)) (sl_session_id (tn_lease c)) s e in
  match r with
  | Ok res => exists before e' after e1', read s e = (Ok (Some before), s, e') /\ read s1 e1 = (Ok (Some after), s1, e1') /\
      ss_events after = ss_events before ++ numbered_from (ss_next_sequence before) (tn_events c) /\
      ss_state after = tn_state c /\ ss_version after = ss_version before + 1 /\
      ss_next_sequence after = ss_next_sequence before + Z.of_nat (length (tn_events c)) /\
      res = turn_result c (ss_next_sequence before) (ss_next_sequence after)
  | Raise _ => s1 = s
  end.
Proof.
  intros Hr Hrun read. apply repo_reachable_inv in Hr.
  assert (match r with Ok res => turns_inv s1 /\ exists read k, turn_written read c k res s s1 | Raise _ => s1 = s end) as Hw.
  { destruct Hrun as [Hrun|Hrun].
    - pose proof (wp_run _ _ _ _ _ _ _ (commit_session_ready_run c s e Hr) Hrun) as Hp. destruct r; [|done].
      destruct Hp as ([? _ _] & _ & k & ?). eauto.
    - pose proof (wp_run _ _ _ _ _ _ _ (commit_run c s e Hr) Hrun) as Hp. destruct r; [|done].
      destruct Hp as ([? _ _] & k & ?). eauto. }
  destruct r as [res|x]; [|done]. destruct Hw as (Hs1 & cast & k & Hw).
  destruct (turn_written_snapshot _ _ _ _ _ _ Hr Hw) as (r & r' & Hse & Hse' & Hev & Hst & Hv & Hn & Hres).
  destruct (snapshot_read (sl_tenant_id (tn_lease c)) (sl_session_id (tn_lease c)) s e Hr) as [e' Hread].
  destruct (snapshot_read (sl_tenant_id (tn_lease c)) (sl_session_id (tn_lease c)) s1 e1 Hs1) as [e1' Hread1].
  rewrite Hse in Hread. rewrite Hse' in Hread1. eexists _, _, _, _. split_and!; [exact Hread|exact Hread1|done..].
Qed.

(** C6: A claimed turn can be committed: when [claim_session_ready] grants a turn, then after any
    run of the repository, its sweeps included, that left the four rows of the turn alone (the
    mailbox, the session, the turn and the message; anything else may have changed, other sessions
    of the tenant included), the commit of that turn returns, provided that no lease has expired by
    the clock readings it makes, its events are new to the session, its reply fits the outbox, the
    identifiers it draws are unused and those of the lease are written canonically: no constraint
    of any table refuses it.  The turn is then committed, and its message is resolved. *)
Theorem pg_claimed_turn_commits t ss ow lf g ev a claim lease c r s e s1 e1 s2 e2 :
  repo_reachable s e -> PgTurns.claim_session_ready t ss ow lf g ev a s e = (Ok claim, s1, e1) ->
  sc_execution_lease claim = Some lease -> rtc repo_step (s1, e1) (s2, e2) -> untouched lease s1 s2 ->
  tn_lease c = lease -> stored_ids lease ->
  pr_sessions s2 !! lease_key lease = Some r ->
  (forall n, (ticks e2 <= n <= ticks e2 + 8)%nat -> clock_at n < sl_expires_at lease /\ after (sr_lease_expires_at r) (clock_at n) = true) ->
  fresh_events (history (lease_key lease) s2) (tn_events c) -> reply_fits (sl_tenant_id lease) c s2 ->
  unused_ids (sl_tenant_id lease) (pr_delivery s2) (uuids e2) (uuids e2 + 3) ->
  exists res s3 e3, PgTurns.commit_session_ready c s2 e2 = (Ok res, s3, e3) /\
    (exists turn, pr_turns s3 !! (sl_tenant_id lease, sl_turn_id lease) = Some turn /\ tu_status turn = turn_committed) /\
    session_step (pg_view (t, ss) (box_of s2)) [sl_inbound_id lease] (pg_view (t, ss) (box_of s3)).
Proof.
  intros Hr Hrun Hl H12 Hun Hc Hids Hse Hclock Hev Hrep Hu. apply repo_reachable_inv in Hr.
  destruct (wp_run _ _ _ _ _ _ _ (claim_session_ready_run t ss ow lf g ev a s e Hr) Hrun) as [[lab Hf] Hcl].
  destruct (Hcl lease Hl) as (Hk & _ & _ & Hheld). apply (turn_held_untouched _ _ s2) in Hheld; [|done].
  destruct (repo_steps _ _ H12 (fw_inv _ _ _ _ Hf)) as [Hs2 _]. cbn [fst] in Hs2. subst lease.
  destruct (PgTurns.commit_session_ready c s2 e2) as [[o s3] e3] eqn:Hcommit.
  destruct (wp_run _ _ _ _ _ _ _ (commit_session_ready_ok c r s2 e2 Hs2 Hheld Hids Hse Hev Hrep Hu Hclock) Hcommit) as [res ->].
  destruct (wp_run _ _ _ _ _ _ _ (commit_session_ready_run c s2 e2 Hs2) Hcommit) as ([_ Hv _] & _ & k & Hw).
  destruct (turn_written_final _ _ _ _ _ _ Hw) as (turn & [Hturn Hst] & Hk1 & Hk2). destruct Hids as [Hid _].
  exists res, s3, e3. split_and!; [done| |].
  - exists turn. split; [|done]. destruct k. simpl in *. congruence.
  - specialize (Hv (t, ss)). by rewrite Hk, decide_True in Hv.
Qed.
End claims.

(** ** Concrete runs: two messages of one session *)

Section demo.

(** Identifiers are UUIDs, the clock moves one second per reading, and the digest keeps the end of the text. *)
#[local] Instance turn_env : Env := {| uuid_at := fun n => uuid_text (Z.of_nat n); clock_at := fun n => 1000000 * Z.of_nat n |}.
#[local] Instance turn_uuid : UuidText := fun _ => None.
#[local] Instance turn_param : PgUuid := parse_uuid.
#[local] Instance turn_sha : Sha256 := fun text =>
  hex_text 64 (fold_left (fun n c => n * 256 + code c) (String.list_ascii_of_string text) 0) EmptyString.
#[local] Instance turn_dump : EnvelopeDump := fun o => {["outbound_id"%string := PStr (oe_outbound_id o)]}.

Definition id_text (n : nat) : string := uuid_at n.

Definition turn_context : TenantContext := MkTenantContext "acme" "app" 1 "binding" "p1" "s1" "req" "trace".
Definition turn_message (id : string) : InboundEnvelope :=
  MkInboundEnvelope FEISHU "account" id "user" DIRECT None TEXT (Some "hello"%string) [] None 0 ∅.

(** A tenant with an application, its first revision and a binding. *)
Definition configured : PgRepo :=
  repo_empty <| pr_tenants := {["acme"%string]} |> <| pr_apps := {[("acme", "app")%string]} |>
             <| pr_revisions := {[(("acme", "app")%string, 1)]} |> <| pr_bindings := {[("acme", "binding")%string]} |>.

Definition repo_run_calls (cs : list repo_call) (c : PgRepo * effects) : PgRepo * effects :=
  fold_left (fun c cl => let '(_, s, e) := repo_exec cl c.1 c.2 in (s, e)) cs c.


Lemma repo_calls_steps cs c : rtc repo_step c (repo_run_calls cs c).
Proof.
  revert c. induction cs as [|cl cs IH]; intros [s e]; simpl; [done|].
  destruct (repo_exec cl s e) as [[r s'] e'] eqn:Hrun. eapply rtc_l; [by econstructor|apply IH].
Qed.


Lemma elsewhere_refl s : elsewhere s s.
Proof. by split. Qed.

Lemma configured_elsewhere : elsewhere repo_empty configured.
Proof. by split. Qed.

Abbreviation repo_demo cs := (repo_run_calls cs (configured, fx0)).

Lemma repo_demo_reachable cs : repo_reachable (repo_demo cs).1 (repo_demo cs).2.
Proof.
  exists fx0. eapply rtc_l; [apply (repo_step_elsewhere _ configured), configured_elsewhere|]. rewrite <-surjective_pairing.
  apply repo_calls_steps.
Qed.

Lemma repo_demo_app cs ds :
  rtc repo_step ((repo_demo cs).1, (repo_demo cs).2) ((repo_demo (cs ++ ds)).1, (repo_demo (cs ++ ds)).2).
Proof.
  rewrite <-!surjective_pairing. unfold repo_run_calls at 2. rewrite fold_left_app. apply repo_calls_steps.
Qed.

Definition accept_call (id : string) : repo_call := RAcceptInboundV2 turn_context (turn_message id) ∅ 0 None.
Definition two_messages : list repo_call := [accept_call "m1"; accept_call "m2"].

(** The wake-up of the session is the second identifier that was drawn. *)
Definition claim_call (owner : string) (lease_for : Z) : repo_call :=
  RClaimSessionReady "acme" "s1" owner lease_for (Some 1) (Some (id_text 1)) None.

Abbreviation repo_queued := (repo_demo two_messages).
Abbreviation repo_claimed lf := (repo_demo (two_messages ++ [claim_call "w1" lf])).

Definition turn_lease (owner : string) (token expires attempt : Z) : SessionLease :=
  MkSessionLease "acme" "s1" (id_text 3) (id_text 0) owner token expires attempt
    (MkSessionSnapshot "acme" "app" "s1" "p1" 0 1 ∅ []) false.
Definition turn_event : StoredEvent := MkStoredEvent "e1" "agent" (QArith_base.inject_Z 0) ∅ ∅.
Definition turn_reply : OutboundEnvelope :=
  MkOutboundEnvelope (id_text 100) "acme" "binding" FEISHU "user" "s1" TEXT (Some "hi"%string) [] None ∅.
Definition turn_of (lease : SessionLease) : TurnCommit :=
  MkTurnCommit turn_context lease {["n"%string := PInt 1]} [turn_event] (Some turn_reply).

Abbreviation lease1 := (turn_lease "w1" 1 75000000 1).
Abbreviation hold := 60000000.
Abbreviation demo_commit := (RCommitSessionReady (turn_of lease1)).


Lemma pg_turns_reachable_wf_witness : pg_inv (box_of (repo_claimed hold).1).
Proof. apply (pg_turns_reachable_wf (repo_claimed hold).1 (repo_claimed hold).2). apply repo_demo_reachable. Defined.

(** The answer, the database and the effects of a call that returns. *)
Definition answer {A S} (default : A) (x : outcome A * S * effects) : A := match x.1.1 with Ok a => a | Raise _ => default end.
Definition returned {A S} (x : outcome A * S * effects) : bool := match x.1.1 with Ok _ => true | Raise _ => false end.

Lemma returned_run {A S} (default : A) (x : outcome A * S * effects) : returned x = true -> x = (Ok (answer default x), x.1.2, x.2).
Proof. by destruct x as [[[a|y] s] e]. Qed.

Definition first_accept : outcome Acceptance * PgRepo * effects :=
  PgTurns.accept_inbound_v2 turn_context (turn_message "m1") ∅ 0 None configured fx0.
Definition second_accept : outcome Acceptance * PgRepo * effects :=
  PgTurns.accept_inbound turn_context (turn_message "m1") ∅ first_accept.1.2 first_accept.2.
Definition no_acceptance : Acceptance := MkAcceptance "" turn_context (turn_message "") 0 false.

Lemma pg_accepted_once_witness :
  acc_duplicate (answer no_acceptance second_accept) = true /\ acc_inbound_id (answer no_acceptance second_accept) = id_text 0.
Proof.
  destruct (pg_accepted_once turn_context turn_context (turn_message "m1") (turn_message "m1") (answer no_acceptance first_accept)
    (answer no_acceptance second_accept) configured fx0 first_accept.1.2 first_accept.2 first_accept.1.2 first_accept.2
    second_accept.1.2 second_accept.2) as (Hd & Heq & _).
  - exact (repo_demo_reachable []).
  - apply (accepts_v2 _ _ _ _ _ _ _ ∅ 0 None). apply (returned_run no_acceptance). vm_compute. reflexivity.
  - apply rtc_refl.
  - reflexivity.
  - reflexivity.
  - apply (accepts_v1 _ _ _ _ _ _ _ ∅). apply (returned_run no_acceptance). vm_compute. reflexivity.
  - split; [exact Hd|]. rewrite Heq. vm_compute. reflexivity.
Defined.

(** The claim of the session by a worker, and the commit of the turn. *)
Definition claim_run (owner : string) (lease_for : Z) (c : PgRepo * effects) : outcome SessionClaim * PgRepo * effects :=
  PgTurns.claim_session_ready "acme" "s1" owner lease_for (Some 1) (Some (id_text 1)) None c.1 c.2.
Definition no_claim : SessionClaim := claim_outcome EMPTY (new_mailbox "" "" 0) None.
Definition claim1 : outcome SessionClaim * PgRepo * effects := claim_run "w1" hold repo_queued.
Definition commit_run1 : outcome CommitResult * PgRepo * effects := PgTurns.commit_session_ready (turn_of lease1) claim1.1.2 claim1.2.
Definition no_result : CommitResult := MkCommitResult "" None None None.

Lemma claim_run_steps owner lf c : rtc repo_step c ((claim_run owner lf c).1.2, (claim_run owner lf c).2).
Proof.
  destruct c as [s e]. apply rtc_once. unfold claim_run. cbn [fst snd]. destruct (PgTurns.claim_session_ready _ _ _ _ _ _ _ s e) as [[r s'] e'] eqn:Hrun.
  apply (repo_step_call (claim_call owner lf) s e (match r with Ok _ => Ok tt | Raise x => Raise x end)).
  simpl. unfold discard, bind. rewrite Hrun. by destruct r.
Qed.

Lemma claim_run_grants owner lf c lease :
  returned (claim_run owner lf c) = true -> sc_execution_lease (answer no_claim (claim_run owner lf c)) = Some lease ->
  turn_grants lease (sl_inbound_id lease) c.1 c.2 (claim_run owner lf c).1.2 (claim_run owner lf c).2.
Proof. intros Hr%(returned_run no_claim) Hl. by eapply grants_ready. Qed.

Lemma claimed_reachable owner lf : repo_reachable (claim_run owner lf repo_queued).1.2 (claim_run owner lf repo_queued).2.
Proof.
  destruct (repo_demo_reachable two_messages) as [e0 Hr]. exists e0. etrans; [exact Hr|]. rewrite <-surjective_pairing. apply claim_run_steps.
Qed.


(** Nothing to recover: only time passes. *)
Definition idle (n : nat) : list repo_call := replicate n (RRecoverMailbox "acme" "none").
Definition brief : outcome SessionClaim * PgRepo * effects := claim_run "w1" 3000000 repo_queued.
Definition expired : PgRepo * effects := repo_run_calls (idle 4) (brief.1.2, brief.2).
Definition claim2 : outcome SessionClaim * PgRepo * effects := claim_run "w2" 3000000 expired.

Lemma pg_turn_superseded_fenced_witness :
  repo_refused (PgTurns.commit_session_ready (turn_of (turn_lease "w1" 1 18000000 1))) claim2.1.2 claim2.2.
Proof.
  refine (proj1 (proj2 (proj2 (proj2 (pg_turn_superseded_fenced (turn_lease "w1" 1 18000000 1) (turn_lease "w2" 2 27000000 2) (id_text 0) (id_text 0)
    repo_queued.1 repo_queued.2 brief.1.2 brief.2 expired.1 expired.2 claim2.1.2 claim2.2 _ _
    _ _ _ _ _ _ 1 ""%string 0 (turn_of (turn_lease "w1" 1 18000000 1)) eq_refl))))).
  - apply repo_demo_reachable.
  - apply (claim_run_grants "w1" 3000000 repo_queued); vm_compute; reflexivity.
  - rewrite <-surjective_pairing. apply repo_calls_steps.
  - apply (claim_run_grants "w2" 3000000 expired); vm_compute; reflexivity.
  - reflexivity.
  - apply rtc_refl.
Defined.

Lemma pg_commit_read_back_witness : exists before after, ss_next_sequence before = 1 /\
  ss_events after = ss_events before ++ [MkSequencedEvent turn_event 1].
Proof.
  destruct (pg_commit_read_back (turn_of lease1) (Ok (answer no_result commit_run1)) claim1.1.2 claim1.2 commit_run1.1.2 commit_run1.2)
    as (before & e' & after & e1' & Hread & _ & Hev & _).
  - apply claimed_reachable.
  - left. apply (returned_run no_result). vm_compute. reflexivity.
  - assert (Hn : ss_next_sequence before = 1).
    { assert (Hb : ok_with (fun snap _ _ => match snap with Some snap => ss_next_sequence snap =? 1 | None => false end)
        (PgTurns.get_session_snapshot "acme" "s1" claim1.1.2 claim1.2) = true) by (vm_compute; reflexivity).
      change (PgTurns.get_session_snapshot "acme" "s1" claim1.1.2 claim1.2 = (Ok (Some before), claim1.1.2, e')) in Hread.
      rewrite Hread in Hb. by apply Z.eqb_eq in Hb. }
    exists before, after. split; [exact Hn|]. by rewrite Hev, Hn.
Defined.

Lemma pg_claimed_turn_commits_witness : exists res s3 e3,
  PgTurns.commit_session_ready (turn_of lease1) claim1.1.2 claim1.2 = (Ok res, s3, e3).
Proof.
  destruct (pr_sessions claim1.1.2 !! ("acme", "s1")%string) as [r|] eqn:Hr; [|vm_compute in Hr; discriminate Hr].
  assert (Hx : from_option (fun r => bool_decide (sr_lease_expires_at r = Some 74000000)) false (pr_sessions claim1.1.2 !! ("acme", "s1")%string) = true)
    by (vm_compute; reflexivity).
  rewrite Hr in Hx. apply bool_decide_eq_true in Hx.
  assert (Htk : ticks claim1.2 = 16%nat) by (vm_compute; reflexivity). assert (Hu : uuids claim1.2 = 4%nat) by (vm_compute; reflexivity).
  assert (Hh : history ("acme", "s1")%string claim1.1.2 = ∅) by (vm_compute; reflexivity).
  assert (Ho : pd_outbox (pr_delivery claim1.1.2) = ∅) by (vm_compute; reflexivity).
  destruct (pg_claimed_turn_commits "acme" "s1" "w1" hold (Some 1) (Some (id_text 1)) None (answer no_claim claim1) lease1 (turn_of lease1) r
    repo_queued.1 repo_queued.2 claim1.1.2 claim1.2 claim1.1.2 claim1.2) as (res & s3 & e3 & Hc & _).
  - apply repo_demo_reachable.
  - apply (returned_run no_claim). vm_compute. reflexivity.
  - vm_compute. reflexivity.
  - apply rtc_refl.
  - by split.
  - reflexivity.
  - split; vm_compute; reflexivity.
  - exact Hr.
  - intros n Hn. rewrite Htk in Hn. rewrite Hx. change (clock_at n) with (1000000 * Z.of_nat n). change (sl_expires_at lease1) with 75000000.
    split; [lia|]. apply Z.ltb_lt. lia.
  - change (lease_key lease1) with ("acme", "s1")%string. rewrite Hh. split; [repeat constructor; by intros ?%elem_of_nil|].
    intros n h x. by rewrite lookup_empty.
  - intros o [= <-]. split_and!.
    + exists (id_text 100). split; vm_compute; reflexivity.
    + apply (bool_decide_unpack _). vm_compute. exact I.
    + rewrite Ho. reflexivity.
  - rewrite Hu. split; [|intros n _; rewrite Ho; apply lookup_empty].
    intros n m Hn Hm. assert (n = 4%nat \/ n = 5%nat) as [->| ->] by lia; assert (m = 5%nat \/ m = 6%nat) as [->| ->] by lia; vm_compute; congruence || lia.
  - by exists res, s3, e3.
Defined.
End demo.
