(* ===== verification/PgSweepsThms.v ===== *)
(** * Theorems on the recovery sweeps

    A sweep leaves the sessions alone that are being executed, and frees those that are not: a mailbox
    whose lease has expired is queued again with a wake-up. *)

From S2P Require Import Prelude PyText Tenant Models Mailbox MailboxInv MailboxSpec Repository Runtime PgMailbox PgMailboxInv PgMailboxThms PgDelivery PgTurns PgTurnsInv PgSweeps PgSweepsInv PgTurnsThms.
#[local] Open Scope Z_scope.

Section recovery.
Context `{Env} `{UuidText} `{PgUuid} `{Sha256} `{EnvelopeDump}.
Implicit Types (s : PgRepo) (e : effects) (k key : session_key).

(** ** What a sweep leaves alone *)

Definition wake_ups k s : list ReadyRow :=
  List.filter (fun r => bool_decide ((rr_tenant_id r, rr_session_id r) = k)) (pr_ready s).

(** The rows of a session. *)
Record kept k s s' : Prop := {
  ke_mailbox : pr_mailboxes s' !! k = pr_mailboxes s !! k;
  ke_items : pr_items s' !! k = pr_items s !! k;
  ke_resolved n : pr_resolved_at s' !! (k, n) = pr_resolved_at s !! (k, n);
  ke_session : pr_sessions s' !! k = pr_sessions s !! k;
  ke_wake : wake_ups k s' = wake_ups k s;
}.

#[export] Instance kept_preorder k : PreOrder (kept k).
Proof.
  split; [by split|]. intros s1 s2 s3 [] []. split; intros; congruence.
Qed.























(** ** Freeing a mailbox *)







(** ** The selected mailboxes *)



End recovery.

(** ** A concrete sweep *)

Section demo.
#[local] Existing Instance turn_env.
#[local] Existing Instance turn_uuid.
#[local] Existing Instance turn_param.
#[local] Existing Instance turn_sha.
#[local] Existing Instance turn_dump.




End demo.
