(* ===== verification/PgBinding.v ===== *)
(** * Binding leases

    [PostgresBindingLease] of [trpc_service/storage/postgres.py]: the process that holds the
    advisory lock of a WeCom binding owns its connection, under an epoch that
    [wecom_connection_state] (migration 0017) counts; every event of the connection is fenced by
    that epoch and leaves a row of evidence.

    A call is a sequence of atomic steps ([async]): the code between two awaits, or one round trip
    to the database; other processes may run between any two of them.  A transaction is one step:
    the row that it locks, or the advisory lock under which it runs, keeps the others out.
    [self._lock] keeps the calls of one process apart.

    A database session lives from [pool.acquire] until it is given back or lost; its advisory
    locks end with it.  Every round trip on a session may lose it, before the server has done
    anything or after the server has done everything ([fault]); the faults of a run are an
    arbitrary script.  Sessions are numbered as they are handed out: a pool resets a session that
    is given back, which releases its locks, so it does not matter which one is handed out next.
    The clock is read once in a statement, and [bigint] has no upper bound.  Row-level security,
    the write barrier of migrations and cancellation are not modelled. *)

From S2P Require Import Prelude PyText Tenant Mailbox Repository PgDelivery PgTurns.
#[local] Open Scope Z_scope.

(** ** Data *)

Record WeComBindingLeaseGrant : Type := MkGrant {
  wg_tenant_id : string;
  wg_binding_id : string;
  wg_owner_hash : string;
  wg_epoch : Z;
  wg_acquired_at : Z;
}.

#[export] Instance WeComBindingLeaseGrant_eq_dec : EqDecision WeComBindingLeaseGrant.
Proof. solve_decision. Defined.

Abbreviation grant_key grant := (wg_tenant_id grant, wg_binding_id grant).

Inductive ConnectionPhase : Type := ph_acquired | ph_authenticated | ph_disconnected | ph_released.

#[export] Instance ConnectionPhase_eq_dec : EqDecision ConnectionPhase.
Proof. solve_decision. Defined.

Inductive EvidenceType : Type :=
  | ev_acquired | ev_takeover | ev_authenticated | ev_provider_event | ev_disconnected | ev_released.

#[export] Instance EvidenceType_eq_dec : EqDecision EvidenceType.
Proof. solve_decision. Defined.

(** A row of [wecom_connection_state]. *)
Record ConnectionState : Type := MkConnectionState {
  cs_owner_hash : string;
  cs_epoch : Z;
  cs_phase : ConnectionPhase;
  cs_acquired_at : Z;
  cs_authenticated_at : option Z;
  cs_disconnected_at : option Z;
  cs_released_at : option Z;
  cs_last_provider_event_hash : option string;
  cs_last_provider_event_at : option Z;
  cs_updated_at : Z;
}.

#[export] Instance ConnectionState_settable : Settable ConnectionState := fun r =>
  MkConnectionState (cs_owner_hash r) (cs_epoch r) (cs_phase r) (cs_acquired_at r) (cs_authenticated_at r)
    (cs_disconnected_at r) (cs_released_at r) (cs_last_provider_event_hash r) (cs_last_provider_event_at r) (cs_updated_at r).

(** A row of [im_acceptance_evidence_events]. *)
Record EvidenceRow : Type := MkEvidenceRow {
  er_key : id_key;
  er_connection_epoch : Z;
  er_event_type : EvidenceType;
  er_owner_hash : string;
  er_provider_event_hash : option string;
}.

(** How a round trip ends. *)
Inductive fault : Type := Fine | LostBefore | LostAfter.

Record BindingDb : Type := MkBindingDb {
  bd_bindings : gset id_key;
  bd_states : gmap id_key ConnectionState;
  bd_evidence : list EvidenceRow;
  bd_locks : gmap Z nat;
  bd_alive : gset nat;
  bd_next : nat;
  bd_faults : list fault;
  bd_available : bool;
}.

#[export] Instance BindingDb_settable : Settable BindingDb := fun s =>
  MkBindingDb (bd_bindings s) (bd_states s) (bd_evidence s) (bd_locks s) (bd_alive s) (bd_next s) (bd_faults s) (bd_available s).

(** A process, with what it holds, and the database. *)
Record LeaseNode : Type := MkLeaseNode {
  ln_db : BindingDb;
  ln_held : gmap id_key (WeComBindingLeaseGrant * nat);
}.

#[export] Instance LeaseNode_settable : Settable LeaseNode := fun s => MkLeaseNode (ln_db s) (ln_held s).

Definition on_db {A} (m : M BindingDb A) : M LeaseNode A := zoom ln_db (fun d s => s <| ln_db := d |>) m.

(** ** Calls as sequences of steps *)

Inductive async (R : Type) : Type :=
  | Done (o : outcome R)
  | Await {A : Type} (m : M LeaseNode A) (k : outcome A -> async R).
Arguments Done {R} o.
Arguments Await {R A} m k.

Fixpoint async_bind {R T} (p : async R) (f : R -> async T) : async T :=
  match p with
  | Done (Ok r) => f r
  | Done (Raise x) => Done (Raise x)
  | Await m k => Await m (fun o => async_bind (k o) f)
  end.

Fixpoint async_try {R} (p : async R) (h : exn -> async R) : async R :=
  match p with
  | Done (Raise x) => h x
  | Done (Ok r) => Done (Ok r)
  | Await m k => Await m (fun o => async_try (k o) h)
  end.

Definition await {A} (m : M LeaseNode A) : async A := Await m Done.

(** A step that touches the process only. *)
Definition here {A} (m : M LeaseNode A) : async A := await m.

Definition returns {R} (r : R) : async R := Done (Ok r).

Definition raises {R} (x : exn) : async R := Done (Raise x).

(** The call when nothing runs between its steps. *)
Fixpoint run {R} (p : async R) : M LeaseNode R :=
  match p with
  | Done o => fun s e => (o, s, e)
  | Await m k => fun s e => let '(o, s', e') := m s e in run (k o) s' e'
  end.

Notation "'let!' x ':=' c 'in' k" := (async_bind c (fun x => k))
  (at level 10, x pattern, c at level 100, k at level 200) : py_scope.
Notation "c ;! k" := (async_bind c (fun _ => k))
  (at level 100, k at level 200, right associativity) : py_scope.

(** PostgreSQL's [hashtextextended(text, 0)]. *)
Class AdvisoryHash : Type := hashtextextended : string -> Z.

(** ** Sessions of the database *)

Definition closed : exn := PostgresError "connection was closed in the middle of operation".

(** The locks that the session [conn] holds end with it. *)
Definition ended (conn : nat) (db : BindingDb) : BindingDb :=
  db <| bd_alive := bd_alive db ∖ {[conn]} |> <| bd_locks := filter (fun x => x.2 <> conn) (bd_locks db) |>.

Definition pool_acquire : M BindingDb nat :=
  let* db := gets id in
  raise_if (negb (bd_available db)) (PostgresError "the pool cannot connect") ;;
  modify (fun db => db <| bd_alive := {[bd_next db]} ∪ bd_alive db |> <| bd_next := S (bd_next db) |>) ;;
  ret (bd_next db).

Definition pool_release (conn : nat) : M BindingDb unit := modify (ended conn).

(** A round trip on the session [conn]. *)
Definition round_trip {A} (conn : nat) (body : M BindingDb A) : M BindingDb A :=
  let* db := gets id in
  raise_if (bool_decide (conn ∉ bd_alive db)) closed ;;
  modify (fun db => db <| bd_faults := tail (bd_faults db) |>) ;;
  match bd_faults db with
  | LostBefore :: _ => modify (ended conn) ;; raise closed
  | LostAfter :: _ => body ;; modify (ended conn) ;; raise closed
  | _ => body
  end.

Section pg_binding.
Context `{Env} `{Sha256} `{AdvisoryHash}.

Definition _wecom_identifier_hash (domain tenant_id binding_id value : string) : string :=
  sha256_hex ("trpc-wecom-evidence-v1" +:+ nul +:+ domain +:+ nul +:+ tenant_id +:+ nul +:+ binding_id +:+ nul +:+ value).

Definition _wecom_advisory_lock_key (tenant_id binding_id : string) : string :=
  _wecom_identifier_hash "binding-lease-lock" tenant_id binding_id "".

Definition lock_number (key : id_key) : Z := hashtextextended (_wecom_advisory_lock_key key.1 key.2).

(** [pg_try_advisory_lock]: a session may take a lock that it holds. *)
Definition try_advisory_lock (conn : nat) (key : id_key) : M BindingDb bool :=
  let* holder := gets (fun db => bd_locks db !! lock_number key) in
  match holder with
  | Some c => ret (bool_decide (c = conn))
  | None => modify (fun db => db <| bd_locks := <[lock_number key := conn]> (bd_locks db) |>) ;; ret true
  end.

Definition advisory_unlock (conn : nat) (key : id_key) : M BindingDb unit :=
  modify (fun db => if bool_decide (bd_locks db !! lock_number key = Some conn)
                    then db <| bd_locks := delete (lock_number key) (bd_locks db) |> else db).

Definition insert_evidence (row : EvidenceRow) : M BindingDb unit :=
  let* db := gets id in
  raise_if (bool_decide (er_key row ∉ bd_bindings db)) (IntegrityError "im_acceptance_evidence_events_binding_fkey") ;;
  modify (fun db => db <| bd_evidence := bd_evidence db ++ [row] |>).

(** ** Acquiring *)

(** [INSERT ... ON CONFLICT ... DO UPDATE ... WHERE epoch=$5]: whether a row was written. *)
Definition upsert_state (key : id_key) (row : ConnectionState) (previous_epoch : Z) : M BindingDb bool :=
  raise_if (negb (hash_check (cs_owner_hash row)) || (cs_epoch row <? 1)) (IntegrityError "wecom_connection_state_check") ;;
  let* db := gets id in
  match bd_states db !! key with
  | Some r =>
    if cs_epoch r =? previous_epoch then modify (fun db => db <| bd_states := <[key := row]> (bd_states db) |>) ;; ret true
    else ret false
  | None =>
    raise_if (bool_decide (key ∉ bd_bindings db)) (IntegrityError "wecom_connection_state_binding_fkey") ;;
    modify (fun db => db <| bd_states := <[key := row]> (bd_states db) |>) ;;
    ret true
  end.

Definition acquired_event (previous : option ConnectionState) : EvidenceType :=
  match previous with
  | Some r => if is_some (cs_released_at r) then ev_acquired else ev_takeover
  | None => ev_acquired
  end.

(** The transaction of [acquire_binding]. *)
Definition acquire_state (key : id_key) (owner_hash : string) : M BindingDb WeComBindingLeaseGrant :=
  rollback (
    let* previous := gets (fun db => bd_states db !! key) in
    let previous_epoch := from_option cs_epoch 0 previous in
    let* now := datetime_now in
    let* written := upsert_state key (MkConnectionState owner_hash (previous_epoch + 1) ph_acquired now None None None None None now)
                      previous_epoch in
    raise_if (negb written) (RuntimeError "WeCom connection epoch changed during acquisition") ;;
    raise_if (negb (hash_check owner_hash) || (previous_epoch + 1 <? 1)) (ValidationError "WeComBindingLeaseGrant") ;;
    let grant := MkGrant key.1 key.2 owner_hash (previous_epoch + 1) now in
    insert_evidence (MkEvidenceRow key (wg_epoch grant) (acquired_event previous) owner_hash None) ;;
    ret grant).

(** [try: unlock finally: pool.release]. *)
Definition unlock_and_release (conn : nat) (key : id_key) : async unit :=
  async_try (await (on_db (round_trip conn (advisory_unlock conn key))))
    (fun error => await (on_db (pool_release conn)) ;! raises error) ;!
  await (on_db (pool_release conn)).

Definition acquire_binding (binding : ChannelBinding) (owner_id : string) : async (option WeComBindingLeaseGrant) :=
  let key := (cb_tenant_id binding, cb_binding_id binding) in
  let owner_hash := _wecom_identifier_hash "owner" (cb_tenant_id binding) (cb_binding_id binding) owner_id in
  let! held := here (gets (fun s => ln_held s !! key)) in
  match held with
  | Some (grant, _) => returns (if bool_decide (wg_owner_hash grant = owner_hash) then Some grant else None)
  | None =>
    let! connection := await (on_db pool_acquire) in
    let! acquired := async_try (await (on_db (round_trip connection (try_advisory_lock connection key))))
                       (fun error => await (on_db (pool_release connection)) ;! raises error) in
    if negb acquired then
      await (on_db (pool_release connection)) ;!
      returns None
    else
      let! grant := async_try (await (on_db (round_trip connection (acquire_state key owner_hash))))
                      (fun error => unlock_and_release connection key ;! raises error) in
      here (modify (fun s => s <| ln_held := <[key := (grant, connection)]> (ln_held s) |>)) ;!
      returns (Some grant)
  end.

(** ** Fenced events *)

(** The [WHERE] clause: the epoch, the owner, and what may follow the phase. *)
Definition may_follow (event : EvidenceType) (phase : ConnectionPhase) : bool :=
  match event with
  | ev_authenticated => bool_decide (phase = ph_acquired)
  | ev_provider_event | ev_disconnected => bool_decide (phase = ph_acquired) || bool_decide (phase = ph_authenticated)
  | ev_released => true
  | ev_acquired | ev_takeover => false
  end.

Definition fence_holds (grant : WeComBindingLeaseGrant) (event : EvidenceType) (r : ConnectionState) : bool :=
  (cs_epoch r =? wg_epoch grant) && bool_decide (cs_owner_hash r = wg_owner_hash grant) && negb (is_some (cs_released_at r))
  && may_follow event (cs_phase r).

(** [CASE WHEN $6='provider_event' THEN phase ELSE $6 END]. *)
Definition phase_after (event : EvidenceType) (phase : ConnectionPhase) : ConnectionPhase :=
  match event with
  | ev_provider_event => phase
  | ev_authenticated => ph_authenticated
  | ev_disconnected => ph_disconnected
  | ev_released => ph_released
  | ev_acquired | ev_takeover => ph_acquired
  end.

Definition state_after (event : EvidenceType) (hash : option string) (now : Z) (r : ConnectionState) : ConnectionState :=
  let set_at (e : EvidenceType) (old : option Z) := if bool_decide (event = e) then Some (default now old) else old in
  r <| cs_phase := phase_after event (cs_phase r) |>
    <| cs_authenticated_at := set_at ev_authenticated (cs_authenticated_at r) |>
    <| cs_disconnected_at := set_at ev_disconnected (cs_disconnected_at r) |>
    <| cs_released_at := set_at ev_released (cs_released_at r) |>
    <| cs_last_provider_event_hash := if bool_decide (event = ev_provider_event) then hash else cs_last_provider_event_hash r |>
    <| cs_last_provider_event_at := if bool_decide (event = ev_provider_event) then Some now else cs_last_provider_event_at r |>
    <| cs_updated_at := now |>.

(** [WITH fenced AS (UPDATE ... RETURNING ...) INSERT ... SELECT ... FROM fenced]. *)
Definition fenced_event (grant : WeComBindingLeaseGrant) (event : EvidenceType) (hash : option string) : M BindingDb bool :=
  rollback (
    let key := grant_key grant in
    let* row := gets (fun db => bd_states db !! key) in
    let* now := datetime_now in
    match row with
    | Some r =>
      if fence_holds grant event r then
        raise_if (negb (from_option hash_check true hash)) (IntegrityError "im_acceptance_evidence_events_check") ;;
        modify (fun db => db <| bd_states := <[key := state_after event hash now r]> (bd_states db) |>) ;;
        insert_evidence (MkEvidenceRow key (cs_epoch r) event (cs_owner_hash r) hash) ;;
        ret true
      else ret false
    | None => ret false
    end).

Definition _record_fenced_event_on_connection (connection : nat) (grant : WeComBindingLeaseGrant) (event : EvidenceType)
    (hash : option string) : async bool :=
  await (on_db (round_trip connection (fenced_event grant event hash))).

Definition _record_fenced_event (grant : WeComBindingLeaseGrant) (event : EvidenceType) (hash : option string) : async bool :=
  let! held := here (gets (fun s => ln_held s !! grant_key grant)) in
  match held with
  | Some (g, connection) =>
    if bool_decide (g = grant) then _record_fenced_event_on_connection connection grant event hash else returns false
  | None => returns false
  end.

Definition mark_authenticated (grant : WeComBindingLeaseGrant) : async bool := _record_fenced_event grant ev_authenticated None.

Definition record_provider_event (grant : WeComBindingLeaseGrant) (provider_event_id : string) : async bool :=
  let provider_hash := _wecom_identifier_hash "provider-event" (wg_tenant_id grant) (wg_binding_id grant) provider_event_id in
  _record_fenced_event grant ev_provider_event (Some provider_hash).

Definition mark_disconnected (grant : WeComBindingLeaseGrant) : async bool := _record_fenced_event grant ev_disconnected None.

(** ** Releasing *)

(** [self._held.pop(key)] if the grant is the one held, and its session. *)
Definition pop_held (grant : WeComBindingLeaseGrant) : M LeaseNode (option nat) :=
  let key := grant_key grant in
  let* held := gets (fun s => ln_held s !! key) in
  match held with
  | Some (g, connection) =>
    if bool_decide (g = grant) then modify (fun s => s <| ln_held := delete key (ln_held s) |>) ;; ret (Some connection)
    else ret None
  | None => ret None
  end.

(** The first exception of the event and of the unlocking is raised, after the session is given back. *)
Definition release_binding (grant : WeComBindingLeaseGrant) : async unit :=
  let key := grant_key grant in
  let! popped := here (pop_held grant) in
  match popped with
  | Some connection =>
    let! failure := async_try (_record_fenced_event_on_connection connection grant ev_released None ;! returns None)
                      (fun error => returns (Some error)) in
    let! failure := async_try (await (on_db (round_trip connection (advisory_unlock connection key))) ;! returns failure)
                      (fun error => returns (Some (default error failure))) in
    await (on_db (pool_release connection)) ;!
    match failure with Some error => raises error | None => returns tt end
  | None => returns tt
  end.
End pg_binding.
