(* ===== verification/PgBindingInv.v ===== *)
(** * What the calls of binding leases keep

    The history that the evidence of a binding must tell, the claims that processes have on
    database sessions, and a small logic for calls that others may interrupt between any two
    steps: [pok i claim p Q] says that the rest [p] of a call of the process [i], which has [claim]
    on a session, keeps [fleet_inv] at every step, whatever the others do in between. *)

From S2P Require Import Prelude PyText Tenant Mailbox Repository PgDelivery PgTurns PgBinding.
#[local] Open Scope Z_scope.

(** ** The history of a binding *)

(** The epoch, the owner and the phase of a connection. *)
Abbreviation connection := (Z * string * ConnectionPhase)%type.

Definition connection_of (r : ConnectionState) : connection := (cs_epoch r, cs_owner_hash r, cs_phase r).

(** What may happen to a connection after it was acquired. *)
Definition transition (phase : ConnectionPhase) (event : EvidenceType) : option ConnectionPhase :=
  match phase, event with
  | ph_acquired, ev_authenticated => Some ph_authenticated
  | ph_acquired, ev_provider_event => Some ph_acquired
  | ph_authenticated, ev_provider_event => Some ph_authenticated
  | (ph_acquired | ph_authenticated), ev_disconnected => Some ph_disconnected
  | (ph_acquired | ph_authenticated | ph_disconnected), ev_released => Some ph_released
  | _, _ => None
  end.

(** The connection after one more row of evidence, if the row may come next: epochs are
    consecutive, an acquisition is a takeover unless the last owner released the binding, and the
    other events come from the owner of the epoch, in an order that its phase allows. *)
Definition witness_event (before : option connection) (row : EvidenceRow) : option (option connection) :=
  match before, er_event_type row with
  | None, ev_acquired =>
    if er_connection_epoch row =? 1 then Some (Some (1, er_owner_hash row, ph_acquired)) else None
  | Some (epoch, _, ph_released), ev_acquired =>
    if er_connection_epoch row =? epoch + 1 then Some (Some (epoch + 1, er_owner_hash row, ph_acquired)) else None
  | Some (_, _, ph_released), _ => None
  | Some (epoch, _, _), ev_takeover =>
    if er_connection_epoch row =? epoch + 1 then Some (Some (epoch + 1, er_owner_hash row, ph_acquired)) else None
  | Some (epoch, owner, phase), event =>
    if (er_connection_epoch row =? epoch) && bool_decide (er_owner_hash row = owner)
    then (fun phase' => Some (epoch, owner, phase')) <$> transition phase event else None
  | None, _ => None
  end.

Definition replay (rows : list EvidenceRow) : option (option connection) :=
  foldl (fun before row => before ≫= (fun b => witness_event b row)) (Some None) rows.

Definition rows_of (key : id_key) (rows : list EvidenceRow) : list EvidenceRow := filter (fun row => er_key row = key) rows.

Record history_inv (db : BindingDb) : Prop := {
  hi_replay key : replay (rows_of key (bd_evidence db)) = Some (connection_of <$> bd_states db !! key);
  hi_epoch key r : bd_states db !! key = Some r -> 1 <= cs_epoch r;
  hi_released key r : bd_states db !! key = Some r -> is_some (cs_released_at r) = bool_decide (cs_phase r = ph_released);
}.

Lemma replay_snoc rows row : replay (rows ++ [row]) = replay rows ≫= (fun b => witness_event b row).
Proof. unfold replay. by rewrite foldl_app. Qed.

Lemma rows_of_snoc key rows row :
  rows_of key (rows ++ [row]) = if decide (er_key row = key) then rows_of key rows ++ [row] else rows_of key rows.
Proof.
  unfold rows_of. rewrite filter_app, filter_cons, filter_nil. case_decide; [done|]. by rewrite app_nil_r.
Qed.

(** One more row of evidence with the state that it announces. *)
Lemma history_put key r row db db' :
  history_inv db -> er_key row = key -> bd_evidence db' = bd_evidence db ++ [row] -> bd_states db' = <[key := r]> (bd_states db) ->
  witness_event (connection_of <$> bd_states db !! key) row = Some (Some (connection_of r)) ->
  1 <= cs_epoch r -> is_some (cs_released_at r) = bool_decide (cs_phase r = ph_released) ->
  history_inv db'.
Proof.
  intros Hi Hk Hev Hst Hw He Hr. split.
  - intros k. rewrite Hev, Hst, rows_of_snoc. destruct (decide (er_key row = k)) as [Hd|Hd].
    + assert (k = key) as -> by congruence. rewrite replay_snoc, (hi_replay db Hi), lookup_insert_eq. done.
    + rewrite lookup_insert_ne by congruence. apply (hi_replay db Hi).
  - intros k r' Hr'. rewrite Hst in Hr'. apply lookup_insert_Some in Hr' as [[<- <-]|[_ Hr']]; [done|]. by eapply (hi_epoch db Hi).
  - intros k r' Hr'. rewrite Hst in Hr'. apply lookup_insert_Some in Hr' as [[<- <-]|[_ Hr']]; [done|]. by eapply (hi_released db Hi).
Qed.

(** ** Claims on sessions *)

Inductive claim : Type :=
  | Session (conn : nat)
  | Locking (conn : nat) (key : id_key)
  | Granted (conn : nat) (grant : WeComBindingLeaseGrant).

Definition conn_of (c : claim) : nat :=
  match c with Session conn | Locking conn _ | Granted conn _ => conn end.

Definition lock_of (c : claim) : option id_key :=
  match c with Session _ => None | Locking _ key => Some key | Granted _ grant => Some (grant_key grant) end.

(** A process claims a session for the call that it is running, and one for every binding that it
    holds. *)
Abbreviation slot := (nat * option id_key)%type.
Abbreviation claims := (slot -> option claim).

(** The epoch and the owner of a binding. *)
Definition owner_of (db : BindingDb) (key : id_key) : option (Z * string) :=
  (fun r => (cs_epoch r, cs_owner_hash r)) <$> bd_states db !! key.

Section inv.
Context `{Env} `{Sha256} `{AdvisoryHash}.
Implicit Types (db : BindingDb) (C : claims) (e : effects).

Record session_inv (db : BindingDb) (C : claims) : Prop := {
  si_alive c : c ∈ bd_alive db -> (c < bd_next db)%nat;
  si_fresh s cl : C s = Some cl -> (conn_of cl < bd_next db)%nat;
  si_unique s s' cl cl' : C s = Some cl -> C s' = Some cl' -> conn_of cl = conn_of cl' -> s = s';
  si_lock s cl key : C s = Some cl -> lock_of cl = Some key -> conn_of cl ∈ bd_alive db ->
    bd_locks db !! lock_number key = Some (conn_of cl);
  si_grant s c g : C s = Some (Granted c g) -> exists epoch owner, owner_of db (grant_key g) = Some (epoch, owner) /\
    wg_epoch g <= epoch /\ (c ∈ bd_alive db -> epoch = wg_epoch g /\ owner = wg_owner_hash g);
  si_distinct s s' c c' g g' : C s = Some (Granted c g) -> C s' = Some (Granted c' g') -> s <> s' ->
    grant_key g = grant_key g' -> wg_epoch g <> wg_epoch g';
  si_held i key cl : C (i, Some key) = Some cl -> exists c g, cl = Granted c g /\ grant_key g = key;
}.

Definition fleet_inv (db : BindingDb) (C : claims) : Prop := history_inv db /\ session_inv db C.

(** The claims when the process [i] has [cl] for its call and holds [held]. *)
Definition at_node (C : claims) (i : nat) (cl : option claim) (held : gmap id_key (WeComBindingLeaseGrant * nat)) : claims :=
  fun s => if decide (s.1 = i) then
             match s.2 with None => cl | Some key => (fun x => Granted x.2 x.1) <$> held !! key end
           else C s.

(** Nobody loses a claim when sessions end and events are recorded. *)
Lemma session_inv_same db db' C :
  session_inv db C -> bd_alive db' ⊆ bd_alive db -> bd_next db' = bd_next db -> (forall k, owner_of db' k = owner_of db k) ->
  (forall s cl k, C s = Some cl -> conn_of cl ∈ bd_alive db' -> bd_locks db !! k = Some (conn_of cl) ->
     bd_locks db' !! k = Some (conn_of cl)) ->
  session_inv db' C.
Proof.
  intros Hi Ha Hn Ho Hl. split.
  - rewrite Hn. intros c Hc. by apply (si_alive db C Hi), Ha.
  - rewrite Hn. apply Hi.
  - apply Hi.
  - intros s cl k Hs Hk Hc. eapply Hl; [done|done|]. eapply (si_lock db C Hi); eauto.
  - intros s c g Hs. destruct (si_grant db C Hi s c g Hs) as (ep & ow & Hk & Hle & Hal). exists ep, ow.
    rewrite Ho. split_and!; [done|done|]. intros Hc. by apply Hal, Ha.
  - apply Hi.
  - apply Hi.
Qed.

(** Claims may be given up and weakened. *)
Definition weaker (cl cl' : claim) : Prop :=
  conn_of cl = conn_of cl' /\ (forall k, lock_of cl = Some k -> lock_of cl' = Some k) /\ (forall c g, cl = Granted c g -> cl' = cl).

Lemma session_inv_mono db C C' (f : slot -> slot) :
  session_inv db C -> (forall s cl, C' s = Some cl -> exists cl', C (f s) = Some cl' /\ weaker cl cl') ->
  (forall s s', is_Some (C' s) -> is_Some (C' s') -> f s = f s' -> s = s') ->
  (forall i key cl, C' (i, Some key) = Some cl -> exists c g, cl = Granted c g /\ grant_key g = key) ->
  session_inv db C'.
Proof.
  intros Hi Hw Hf Hh. split; [apply Hi| | | | | |done].
  - intros s cl Hs. destruct (Hw s cl Hs) as (cl' & Hs' & Hc & _). rewrite Hc. by eapply (si_fresh db C Hi).
  - intros s s' cl cl' Hs Hs' Heq. destruct (Hw _ _ Hs) as (c1 & Ha & E1 & _). destruct (Hw _ _ Hs') as (c2 & Hb & E2 & _).
    apply Hf; [eauto..|]. eapply (si_unique db C Hi); [done|done|congruence].
  - intros s cl k Hs Hk Hc. destruct (Hw _ _ Hs) as (c1 & Ha & E1 & Hl & _). rewrite E1 in *.
    eapply (si_lock db C Hi); eauto.
  - intros s c g Hs. destruct (Hw _ _ Hs) as (c1 & Ha & _ & _ & Hg). rewrite (Hg c g) in Ha by done. by eapply (si_grant db C Hi).
  - intros s s' c c' g g' Hs Hs' Hne Hk. destruct (Hw _ _ Hs) as (c1 & Ha & _ & _ & Hg). destruct (Hw _ _ Hs') as (c2 & Hb & _ & _ & Hg').
    rewrite (Hg c g) in Ha by done. rewrite (Hg' c' g') in Hb by done.
    eapply (si_distinct db C Hi); [done|done| |done]. intros Heq. apply Hne, Hf; eauto.
Qed.

(** The claim of a call may be given up, or weakened. *)
Lemma session_inv_call db C i cl cl' held :
  session_inv db (at_node C i cl held) ->
  match cl' with Some c' => exists c, cl = Some c /\ weaker c' c | None => True end ->
  session_inv db (at_node C i cl' held).
Proof.
  intros Hi Hc. apply (session_inv_mono db (at_node C i cl held) _ id Hi); [|done|].
  - intros [j o] c Hs. unfold at_node in *; simpl in *. destruct o as [k|]; [by exists c; repeat split|].
    case_decide; [|by exists c; repeat split]. subst. destruct Hc as (c0 & -> & Hw). eauto.
  - intros j k c Hs. apply (si_held db _ Hi j k c). unfold at_node in *. simpl in *. by case_decide.
Qed.

Lemma at_node_call C i cl held s : at_node C i cl held s = if decide (s = (i, None)) then cl else at_node C i None held s.
Proof. destruct s as [j [k|]]; unfold at_node; simpl; repeat case_decide; simplify_eq; done. Qed.

(** A new claim of a call, on a session that nobody else claims. *)
Lemma session_inv_set db C i cl held :
  session_inv db (at_node C i None held) -> (conn_of cl < bd_next db)%nat ->
  (forall s cl', at_node C i None held s = Some cl' -> conn_of cl' <> conn_of cl) ->
  (forall k, lock_of cl = Some k -> conn_of cl ∈ bd_alive db -> bd_locks db !! lock_number k = Some (conn_of cl)) ->
  (forall c g, cl = Granted c g -> (exists owner, owner_of db (grant_key g) = Some (wg_epoch g, owner) /\ owner = wg_owner_hash g) /\
     forall s c' g', at_node C i None held s = Some (Granted c' g') -> grant_key g' = grant_key g -> wg_epoch g' <> wg_epoch g) ->
  session_inv db (at_node C i (Some cl) held).
Proof.
  intros Hi Hfr Hun Hlk Hgr. split; [apply Hi|..].
  - intros s c. rewrite at_node_call. case_decide; intros; simplify_eq; [done|]. by eapply (si_fresh db _ Hi).
  - intros s s' c c'. rewrite !(at_node_call _ _ (Some cl)). repeat case_decide; intros; simplify_eq.
    + done.
    + by edestruct Hun.
    + by edestruct Hun.
    + by eapply (si_unique db _ Hi).
  - intros s c k. rewrite at_node_call. case_decide; intros; simplify_eq; [auto|]. by eapply (si_lock db _ Hi).
  - intros s c g. rewrite at_node_call. case_decide; intros; simplify_eq; [|by eapply (si_grant db _ Hi)].
    destruct (Hgr c g) as [(ow & Ho & Heq) _]; [done|]. eexists _, ow. split; [done|]. split; [lia|done].
  - intros s s' c c' g g'. rewrite !(at_node_call _ _ (Some cl)). repeat case_decide; intros Hs Hs' Hne Hk; simplify_eq.
    + destruct (Hgr c g) as [_ Hd]; [done|]. intros Heq. eapply (Hd s'); [done|congruence..].
    + destruct (Hgr c' g') as [_ Hd]; [done|]. intros Heq. eapply (Hd s); [done|congruence..].
    + eapply (si_distinct db _ Hi s s'); try done. congruence.
  - intros j k c. rewrite at_node_call. case_decide; [done|]. apply Hi.
Qed.

(** Nobody else claims the session of a call. *)
Lemma call_unique db C i cl held s cl' :
  session_inv db (at_node C i (Some cl) held) -> at_node C i None held s = Some cl' -> conn_of cl' <> conn_of cl.
Proof.
  intros Hi Hs Heq. assert (Hne : s <> (i, None)).
  { intros ->. unfold at_node in Hs. simpl in Hs. by case_decide. }
  apply Hne. eapply (si_unique db _ Hi); [| |exact Heq].
  - rewrite at_node_call. by rewrite decide_False.
  - rewrite at_node_call. by rewrite decide_True.
Qed.

Lemma call_claim db C i cl held :
  session_inv db (at_node C i (Some cl) held) -> at_node C i (Some cl) held (i, None) = Some cl.
Proof. intros _. rewrite at_node_call. by rewrite decide_True. Qed.

Lemma call_dropped db C i cl held : session_inv db (at_node C i cl held) -> session_inv db (at_node C i None held).
Proof. intros Hi. by eapply session_inv_call. Qed.

(** ** Statements *)

Lemma fleet_inv_ended conn db C : fleet_inv db C -> fleet_inv (ended conn db) C.
Proof.
  intros [Hh Hi]. split; [split; apply Hh|]. apply (session_inv_same db); [done|set_solver|done|done|].
  intros s cl k _ Hc Hk. simpl in *. apply map_lookup_filter_Some. set_solver.
Qed.

Lemma fleet_inv_faults fs a db C : fleet_inv db C -> fleet_inv (db <| bd_faults := fs |> <| bd_available := a |>) C.
Proof. intros [Hh Hi]. split; [split; apply Hh|]. by apply (session_inv_same db). Qed.

Lemma pool_acquire_ok C i held db e :
  fleet_inv db (at_node C i None held) ->
  wp pool_acquire (fun o db' _ => match o with
    | Ok conn => fleet_inv db' (at_node C i (Some (Session conn)) held)
    | Raise _ => fleet_inv db' (at_node C i None held) end) db e.
Proof.
  intros [Hh Hi]. unfold pool_acquire. wp_steps; [done|]. split; [split; apply Hh|].
  apply session_inv_set; simpl; [|lia| |done|done].
  - split; simpl; try apply Hi.
    + intros c Hc. apply elem_of_union in Hc as [Hc|Hc]; [set_solver by lia|]. pose proof (si_alive _ _ Hi c Hc). lia.
    + intros s cl Hs. pose proof (si_fresh _ _ Hi s cl Hs). lia.
    + intros s cl k Hs Hk Hc. pose proof (si_fresh _ _ Hi s cl Hs). apply (si_lock _ _ Hi s); [done..|]. set_solver by lia.
    + intros s c g Hs. destruct (si_grant _ _ Hi s c g Hs) as (ep & ow & Ho & Hle & Hal). exists ep, ow. split_and!; [done|done|].
      pose proof (si_fresh _ _ Hi s _ Hs). simpl in *. intros Hc. apply Hal. set_solver by lia.
  - intros s cl Hs. pose proof (si_fresh _ _ Hi s cl Hs). lia.
Qed.

Lemma pool_release_ok C i cl held db :
  fleet_inv db (at_node C i (Some cl) held) -> fleet_inv (ended (conn_of cl) db) (at_node C i None held).
Proof. intros Hi. apply fleet_inv_ended. destruct Hi as [Hh Hi]. split; [done|]. by eapply call_dropped. Qed.

Lemma try_advisory_lock_ok C i conn key held db e :
  fleet_inv db (at_node C i (Some (Session conn)) held) ->
  wp (try_advisory_lock conn key) (fun o db' _ => match o with
    | Ok true => fleet_inv db' (at_node C i (Some (Locking conn key)) held)
    | _ => fleet_inv db' (at_node C i (Some (Session conn)) held) end) db e.
Proof.
  intros [Hh Hi]. pose proof (si_fresh _ _ Hi _ _ (call_claim _ _ _ _ _ Hi)) as Hf. simpl in Hf.
  assert (Hset : forall db', history_inv db' -> session_inv db' (at_node C i None held) -> bd_next db' = bd_next db ->
    bd_locks db' !! lock_number key = Some conn -> fleet_inv db' (at_node C i (Some (Locking conn key)) held)).
  { intros db' Hh' Hi' Hn Hl. split; [done|]. apply session_inv_set; simpl; [done|by rewrite Hn| |naive_solver|done].
    intros s cl Hs. by eapply (call_unique db _ _ (Session conn)). }
  unfold try_advisory_lock. wp_steps.
  - case_bool_decide; [|done]. subst. apply Hset; [done| |done|done]. by eapply call_dropped.
  - apply Hset; simpl; [split; apply Hh| |done|by rewrite lookup_insert_eq].
    apply (session_inv_same db); [by eapply call_dropped|done..|]. simpl. intros s cl k _ _ Hk.
    rewrite lookup_insert_ne; [done|]. congruence.
Qed.

Lemma advisory_unlock_ok C i cl key held db e :
  fleet_inv db (at_node C i (Some cl) held) -> lock_of cl = Some key ->
  wp (advisory_unlock (conn_of cl) key) (fun o db' _ => fleet_inv db' (at_node C i (Some (Session (conn_of cl))) held)) db e.
Proof.
  intros [Hh Hi] Hlk. assert (Hw : weaker (Locking (conn_of cl) key) cl) by (repeat split; [by intros k [= <-]|done]).
  apply (session_inv_call _ _ _ _ (Some (Locking (conn_of cl) key))) in Hi; [|eauto]. clear Hlk Hw. set (conn := conn_of cl) in *. clearbody conn.
  pose proof (si_fresh _ _ Hi _ _ (call_claim _ _ _ _ _ Hi)) as Hf. simpl in Hf.
  unfold advisory_unlock. wp_steps. split; [case_bool_decide; split; apply Hh|].
  apply session_inv_set; simpl; [|by case_bool_decide| |done|done].
  - case_bool_decide as Hl; [|by eapply call_dropped].
    apply (session_inv_same db); [by eapply call_dropped|done..|]. simpl. intros s cl0 k Hs _ Hk.
    rewrite lookup_delete_ne; [done|]. intros Heq. rewrite Heq in Hl. apply (call_unique _ _ _ _ _ _ _ Hi Hs). simpl. congruence.
  - intros s cl0 Hs. by eapply (call_unique db _ _ (Locking conn key)).
Qed.

(** The session with the lock of a binding takes it over: whoever else holds a grant has lost its
    session. *)
Lemma takeover_session C i conn grant r held db db' :
  session_inv db (at_node C i (Some (Locking conn (grant_key grant))) held) -> conn ∈ bd_alive db ->
  wg_epoch grant = from_option fst 0 (owner_of db (grant_key grant)) + 1 -> bd_states db' = <[grant_key grant := r]> (bd_states db) ->
  cs_epoch r = wg_epoch grant -> cs_owner_hash r = wg_owner_hash grant ->
  bd_alive db' = bd_alive db -> bd_next db' = bd_next db -> bd_locks db' = bd_locks db ->
  session_inv db' (at_node C i (Some (Granted conn grant)) held).
Proof.
  intros Hi Ha Hep Hst He Hoh Hal Hn Hl. pose proof (call_claim _ _ _ _ _ Hi) as Hcl. pose proof (call_dropped _ _ _ _ _ Hi) as Hi0.
  pose proof (si_lock _ _ Hi _ _ _ Hcl eq_refl Ha) as Hlock. simpl in Hlock.
  assert (Hown : owner_of db' (grant_key grant) = Some (wg_epoch grant, wg_owner_hash grant)).
  { unfold owner_of. rewrite Hst, lookup_insert_eq. simpl. by rewrite He, Hoh. }
  assert (Hother : forall s c g, at_node C i None held s = Some (Granted c g) -> grant_key g = grant_key grant ->
    (c ∉ bd_alive db) /\ wg_epoch g < wg_epoch grant).
  { intros s c g Hs Hk. destruct (si_grant _ _ Hi0 s c g Hs) as (ep & ow & Ho & Hle & _). rewrite Hk in Ho. rewrite Ho in Hep. simpl in Hep.
    split; [|lia]. intros Hc. pose proof (si_lock _ _ Hi0 s _ _ Hs eq_refl Hc) as Hl'. simpl in Hl'. rewrite Hk in Hl'.
    apply (call_unique _ _ _ _ _ _ _ Hi Hs). simpl. congruence. }
  apply session_inv_set; simpl.
  - split; rewrite ?Hal, ?Hn, ?Hl; try apply Hi0. intros s c g Hs. destruct (si_grant _ _ Hi0 s c g Hs) as (ep & ow & Ho & Hle & Halive).
    destruct (decide (grant_key g = grant_key grant)) as [Hk|Hk].
    + destruct (Hother s c g Hs Hk). exists (wg_epoch grant), (wg_owner_hash grant). rewrite Hk. split_and!; [done|lia|done].
    + exists ep, ow. unfold owner_of. rewrite Hst, lookup_insert_ne by congruence. done.
  - rewrite Hn. by apply (si_fresh _ _ Hi _ _ Hcl).
  - intros s cl Hs. by apply (call_unique _ _ _ _ _ _ _ Hi Hs).
  - intros k [= <-] _. by rewrite Hl.
  - intros c g [= <- <-]. split; [by eexists|]. intros s c' g' Hs Hk. destruct (Hother s c' g' Hs Hk). lia.
Qed.

(** The evidence of an acquisition continues the history. *)
Lemma takeover_history db db' key r oh now :
  history_inv db ->
  let row := MkConnectionState oh (from_option cs_epoch 0 (bd_states db !! key) + 1) ph_acquired now None None None None None now in
  bd_states db' = <[key := row]> (bd_states db) -> r = acquired_event (bd_states db !! key) ->
  bd_evidence db' = bd_evidence db ++ [MkEvidenceRow key (from_option cs_epoch 0 (bd_states db !! key) + 1) r oh None] ->
  history_inv db'.
Proof.
  intros Hh row Hst -> Hev. subst row. eapply history_put; [exact Hh|done|exact Hev|exact Hst| | |done].
  - simpl. destruct (bd_states db !! key) as [p|] eqn:Hp; simpl; [|done]. unfold witness_event, connection_of. simpl.
    rewrite (hi_released db Hh key p Hp). destruct (cs_phase p); simpl; by rewrite Z.eqb_refl.
  - simpl. destruct (bd_states db !! key) as [p|] eqn:Hp; simpl; [|lia]. pose proof (hi_epoch db Hh key p Hp). lia.
Qed.

Lemma acquire_state_ok C i conn key oh held db e :
  fleet_inv db (at_node C i (Some (Locking conn key)) held) -> conn ∈ bd_alive db ->
  wp (acquire_state key oh) (fun o db' _ => match o with
    | Ok grant => grant_key grant = key /\ fleet_inv db' (at_node C i (Some (Granted conn grant)) held)
    | Raise _ => fleet_inv db' (at_node C i (Some (Locking conn key)) held) end) db e.
Proof.
  intros [Hh Hi] Ha. unfold acquire_state, upsert_state, insert_evidence. destruct key as [tn bn].
  assert (Hep : from_option cs_epoch 0 (bd_states db !! (tn, bn)) + 1 = from_option fst 0 (owner_of db (tn, bn)) + 1).
  { unfold owner_of. by destruct (bd_states db !! (tn, bn)). }
  wp_steps; try done.
  all: simpl in *; split; [done|]; split; [by eapply takeover_history|by eapply takeover_session].
Qed.

(** An event leaves the owner, and continues the history. *)
Lemma fenced_event_ok g event hash C db e :
  event <> ev_acquired -> event <> ev_takeover -> fleet_inv db C ->
  wp (fenced_event g event hash) (fun _ db' _ => fleet_inv db' C) db e.
Proof.
  intros Hna Hnt [Hh Hi]. unfold fenced_event, insert_evidence, fence_holds. wp_steps; try done. bool_prop.
  match goal with Hr : bd_states db !! _ = Some ?r |- _ => rename r into row; rename Hr into Hrow end.
  pose proof (hi_released db Hh _ _ Hrow) as Hrel. split.
  - eapply history_put; [exact Hh|done|done|done| | |].
    + simpl. rewrite Hrow. simpl. destruct event; try done.
      all: unfold witness_event, connection_of; simpl; destruct (cs_phase row); simpl in *; try congruence.
      all: by rewrite Z.eqb_refl, bool_decide_true.
    + simpl. by eapply (hi_epoch db Hh).
    + destruct event; try done; simpl; rewrite Hrel; destruct (cs_phase row); done.
  - apply (session_inv_same db); [done..| |done]. intros k. unfold owner_of. simpl.
    destruct (decide (k = grant_key g)) as [->|Hne]; [rewrite lookup_insert_eq, Hrow; done|by rewrite lookup_insert_ne].
Qed.

(** ** Calls that others may interrupt *)

Fixpoint pok {R} (i : nat) (cl : option claim) (p : async R) (Q : outcome R -> option claim -> Prop) : Prop :=
  match p with
  | Done o => Q o cl
  | Await m k => forall C db held e, fleet_inv db (at_node C i cl held) ->
      wp m (fun o n _ => exists cl', fleet_inv (ln_db n) (at_node C i cl' (ln_held n)) /\ pok i cl' (k o) Q) (MkLeaseNode db held) e
  end.

#[global] Arguments pok : simpl never.

Lemma pok_mono {R} i (p : async R) (Q Q' : outcome R -> option claim -> Prop) cl :
  pok i cl p Q -> (forall o cl', Q o cl' -> Q' o cl') -> pok i cl p Q'.
Proof.
  revert cl. induction p as [o|A m k IH]; intros cl Hp HQ; [by apply HQ|]. intros C db held e Hi.
  eapply wp_mono; [by apply Hp|]. intros o n _ (cl' & ? & ?). exists cl'. split; [done|]. by apply IH.
Qed.

Lemma pok_bind {R T} i (p : async R) (f : R -> async T) Q cl :
  pok i cl p (fun o cl' => match o with Ok r => pok i cl' (f r) Q | Raise x => Q (Raise x) cl' end) ->
  pok i cl (async_bind p f) Q.
Proof.
  revert cl. induction p as [[r|x]|A m k IH]; intros cl Hp; [done|done|]. intros C db held e Hi.
  eapply wp_mono; [by apply Hp|]. intros o n _ (cl' & ? & ?). exists cl'. split; [done|]. by apply IH.
Qed.

Lemma pok_try {R} i (p : async R) (h : exn -> async R) Q cl :
  pok i cl p (fun o cl' => match o with Ok r => Q (Ok r) cl' | Raise x => pok i cl' (h x) Q end) ->
  pok i cl (async_try p h) Q.
Proof.
  revert cl. induction p as [[r|x]|A m k IH]; intros cl Hp; [done|done|]. intros C db held e Hi.
  eapply wp_mono; [by apply Hp|]. intros o n _ (cl' & ? & ?). exists cl'. split; [done|]. by apply IH.
Qed.

(** A step, by what it does to the claim of the call. *)
Lemma pok_await {A} i cl (m : M LeaseNode A) (Q : outcome A -> option claim -> Prop) :
  (forall C db held e, fleet_inv db (at_node C i cl held) ->
    wp m (fun o n _ => exists cl', fleet_inv (ln_db n) (at_node C i cl' (ln_held n)) /\ Q o cl') (MkLeaseNode db held) e) ->
  pok i cl (await m) Q.
Proof. done. Qed.

Lemma pok_on_db {A} i cl (m : M BindingDb A) (Q : outcome A -> option claim -> Prop) :
  (forall C db held e, fleet_inv db (at_node C i cl held) ->
    wp m (fun o db' _ => exists cl', fleet_inv db' (at_node C i cl' held) /\ Q o cl') db e) ->
  pok i cl (await (on_db m)) Q.
Proof. intros Hm. apply pok_await. intros C db held e Hi. apply wp_zoom. by apply Hm. Qed.

(** A round trip, which may lose its session before or after the server has acted. *)
Lemma pok_trip {A} i cl conn (body : M BindingDb A) (Q : outcome A -> option claim -> Prop) :
  Q (Raise closed) cl ->
  (forall C db held e, fleet_inv db (at_node C i cl held) -> conn ∈ bd_alive db ->
    wp body (fun o db' _ => exists cl', fleet_inv db' (at_node C i cl' held) /\ Q o cl' /\ Q (Raise closed) cl') db e) ->
  pok i cl (await (on_db (round_trip conn body))) Q.
Proof.
  intros Hclosed Hbody. apply pok_on_db. intros C db held e Hi. unfold round_trip.
  wp_step. wp_step. unfold id. wp_step. wp_step; [by exists cl|]. bool_prop.
  assert (Hi' : fleet_inv (db <| bd_faults := tail (bd_faults db) |>) (at_node C i cl held)).
  { apply (fleet_inv_faults (tail (bd_faults db)) (bd_available db)) in Hi. by destruct db. }
  wp_step. wp_step.
  assert (Hrun : wp body (fun o db' _ => exists cl', fleet_inv db' (at_node C i cl' held) /\ Q o cl' /\ Q (Raise closed) cl')
                   (db <| bd_faults := tail (bd_faults db) |>) e).
  { apply Hbody; [done|]. simpl. by destruct (decide (conn ∈ bd_alive db)). }
  destruct (bd_faults db) as [|[] fs]; simpl in *.
  - eapply wp_mono; [exact Hrun|]. intros o db' _ (cl' & ? & ? & _). by exists cl'.
  - eapply wp_mono; [exact Hrun|]. intros o db' _ (cl' & ? & ? & _). by exists cl'.
  - wp_steps. exists cl. split; [by apply fleet_inv_ended|done].
  - wp_step. eapply wp_mono; [exact Hrun|]. intros [a|x] db' e' (cl' & ? & ? & ?); [|by exists cl'].
    wp_steps. exists cl'. split; [by apply fleet_inv_ended|done].
Qed.

(** Giving the session of the call back. *)
Lemma pok_release i cl (Q : outcome unit -> option claim -> Prop) :
  Q (Ok tt) None -> pok i (Some cl) (await (on_db (pool_release (conn_of cl)))) Q.
Proof. intros HQ. apply pok_await. intros C db held e Hi. exists None. split; [by apply pool_release_ok|done]. Qed.

(** A step of the process that reads only. *)
Lemma pok_gets {A} i cl (f : LeaseNode -> A) (Q : outcome A -> option claim -> Prop) :
  (forall a, Q (Ok a) cl) -> pok i cl (here (gets f)) Q.
Proof. intros HQ. apply pok_await. intros C db held e Hi. exists cl. split; [done|apply HQ]. Qed.

Lemma pok_unlock i cl key (Q : outcome unit -> option claim -> Prop) :
  lock_of cl = Some key -> (forall o (cl' : claim), conn_of cl' = conn_of cl -> Q o (Some cl')) ->
  pok i (Some cl) (await (on_db (round_trip (conn_of cl) (advisory_unlock (conn_of cl) key)))) Q.
Proof.
  intros Hl HQ. apply pok_trip; [by apply HQ|]. intros C db held e Hi _.
  eapply wp_mono; [by apply (advisory_unlock_ok C i cl key held)|]. intros o db' e' Hi'. exists (Some (Session (conn_of cl))).
  split_and!; [done|by apply HQ..].
Qed.

Lemma unlock_and_release_ok i cl key (Q : outcome unit -> option claim -> Prop) :
  lock_of cl = Some key -> (forall o, Q o None) -> pok i (Some cl) (unlock_and_release (conn_of cl) key) Q.
Proof.
  intros Hl HQ. unfold unlock_and_release. apply pok_bind, pok_try, pok_unlock; [done|]. intros [u|x] cl' <-.
  - by apply pok_release.
  - apply pok_bind. apply pok_release. apply HQ.
Qed.

(** The grant moves from the call to what the process holds. *)
Lemma keep_grant C i conn grant held db :
  session_inv db (at_node C i (Some (Granted conn grant)) held) ->
  session_inv db (at_node C i None (<[grant_key grant := (grant, conn)]> held)).
Proof.
  intros Hi. set (key := grant_key grant).
  apply (session_inv_mono db _ _ (fun s => if decide (s = (i, Some key)) then (i, None) else s) Hi).
  - intros s cl Hs. case_decide as Hd.
    + subst s. unfold at_node in *. simpl in *. rewrite decide_True in * by done. rewrite lookup_insert_eq in Hs. simplify_eq/=.
      by eexists.
    + exists cl. split; [|by repeat split]. destruct s as [j [k|]]; unfold at_node in *; simpl in *; case_decide; try done.
      subst. rewrite lookup_insert_ne in Hs by congruence. done.
  - intros s s' Hs Hs'. assert (Hn : at_node C i None (<[key := (grant, conn)]> held) (i, None) = None).
    { unfold at_node. simpl. by rewrite decide_True. }
    repeat case_decide; intros; subst; try done; [rewrite Hn in Hs'|rewrite Hn in Hs]; by destruct Hs || destruct Hs'.
  - intros j k cl Hs. unfold at_node in Hs. simpl in Hs. case_decide as Hj; [|apply (si_held _ _ Hi j k cl); unfold at_node; simpl; by rewrite decide_False].
    subst. destruct (decide (k = key)) as [->|Hne]; [rewrite lookup_insert_eq in Hs; simplify_eq/=; by eexists _, _|].
    rewrite lookup_insert_ne in Hs by done. apply (si_held _ _ Hi i k cl). unfold at_node. simpl. by rewrite decide_True.
Qed.

Lemma drop_grant C i conn grant held db :
  held !! grant_key grant = Some (grant, conn) ->
  session_inv db (at_node C i None held) -> session_inv db (at_node C i (Some (Locking conn (grant_key grant))) (delete (grant_key grant) held)).
Proof.
  intros Hg Hi. set (key := grant_key grant) in *.
  apply (session_inv_mono db _ _ (fun s => if decide (s = (i, None)) then (i, Some key) else s) Hi).
  - intros s cl Hs. case_decide as Hd.
    + subst s. unfold at_node in *. simpl in *. rewrite decide_True in * by done. simplify_eq. exists (Granted conn grant).
      rewrite Hg. by repeat split.
    + exists cl. split; [|by repeat split]. destruct s as [j [k|]]; unfold at_node in *; simpl in *; case_decide; try done; [|congruence].
      subst. apply fmap_Some in Hs as (x & Hx & ->). apply lookup_delete_Some in Hx as [_ ->]. done.
  - intros s s' Hs Hs'. assert (Hn : at_node C i (Some (Locking conn key)) (delete key held) (i, Some key) = None).
    { unfold at_node. simpl. rewrite decide_True by done. by rewrite lookup_delete_eq. }
    repeat case_decide; intros; subst; try done; [rewrite Hn in Hs'|rewrite Hn in Hs]; by destruct Hs || destruct Hs'.
  - intros j k cl Hs. apply (si_held _ _ Hi j k cl). unfold at_node in *. simpl in *. case_decide; [|done].
    apply fmap_Some in Hs as (x & Hx & ->). apply lookup_delete_Some in Hx as [_ ->]. done.
Qed.

(** ** The methods *)

(** A call that ends without a session. *)
Definition ends {R} (o : outcome R) (cl : option claim) : Prop := cl = None.

Lemma acquire_binding_ok i binding owner_id : pok i None (acquire_binding binding owner_id) ends.
Proof.
  unfold acquire_binding. apply pok_bind, pok_gets. intros [[g c]|]; [done|].
  set (key := (cb_tenant_id binding, cb_binding_id binding)).
  apply pok_bind, pok_on_db. intros C db held e Hi.
  eapply wp_mono; [by apply (pool_acquire_ok C i held)|]. intros [conn|x] db' e' Hi'; [|by exists None].
  exists (Some (Session conn)). split; [exact Hi'|]. clear C db held e Hi db' e' Hi'.
  apply pok_bind, pok_try, pok_trip; [by apply pok_bind, (pok_release i (Session conn))|].
  intros C db held e Hi _. eapply wp_mono; [by apply (try_advisory_lock_ok C i conn key held)|].
  intros [[]|x] db' e' Hi'.
  2, 3: exists (Some (Session conn)); split_and!; [exact Hi'|by apply pok_bind, (pok_release i (Session conn))..].
  exists (Some (Locking conn key)). split_and!; [exact Hi'| |by apply pok_bind, (pok_release i (Locking conn key))].
  clear C db held e Hi db' e' Hi'. cbn [negb].
  assert (Hfail : forall cl x, conn_of cl = conn -> lock_of cl = Some key ->
    pok i (Some cl) (unlock_and_release conn key ;! raises x) (fun o cl' => match o with
      | Ok grant => pok i cl' (here (modify (fun s => s <| ln_held := <[key := (grant, conn)]> (ln_held s) |>)) ;! returns (Some grant)) ends
      | Raise x => ends (R := option WeComBindingLeaseGrant) (Raise x) cl' end)).
  { intros cl x <- Hl. apply pok_bind, unlock_and_release_ok; [done|]. by intros []. }
  apply pok_bind, pok_try, pok_trip; [by apply Hfail|].
  intros C db held e Hi Ha. eapply wp_mono; [by apply (acquire_state_ok C i conn key _ held)|]. intros [grant|x] db' e' Hi'.
  - destruct Hi' as [Hk Hi']. exists (Some (Granted conn grant)). split_and!; [exact Hi'| |apply Hfail; [done|simpl; by rewrite Hk]].
    apply pok_bind, pok_await. intros C' db1 held1 e1 [Hh Hi1]. exists None. split; [|done]. split; [done|]. simpl.
    rewrite <-Hk. by apply keep_grant.
  - exists (Some (Locking conn key)). split_and!; [exact Hi'|by apply Hfail..].
Qed.

(** An event leaves every claim as it is. *)
Lemma pok_event i cl conn g event hash (Q : outcome bool -> option claim -> Prop) :
  event <> ev_acquired -> event <> ev_takeover -> (forall o, Q o cl) ->
  pok i cl (_record_fenced_event_on_connection conn g event hash) Q.
Proof.
  intros Ha Ht HQ. apply pok_trip; [done|]. intros C db held e Hi _.
  eapply wp_mono; [by apply (fenced_event_ok g event hash (at_node C i cl held))|]. intros o db' e' Hi'. by exists cl.
Qed.

Lemma record_fenced_event_ok i g event hash :
  event <> ev_acquired -> event <> ev_takeover -> pok i None (_record_fenced_event g event hash) ends.
Proof.
  intros Ha Ht. unfold _record_fenced_event. apply pok_bind, pok_gets. intros [[g' c]|]; [|done].
  case_bool_decide; [|done]. by apply pok_event.
Qed.

Lemma release_binding_ok i g : pok i None (release_binding g) ends.
Proof.
  unfold release_binding. apply pok_bind, pok_await. intros C db held e [Hh Hi]. unfold pop_held. wp_steps.
  2, 3: by exists None.
  bool_prop. subst. match goal with Hg : _ !! _ = Some (g, ?c) |- _ => simpl in Hg; rename c into conn; rename Hg into Hheld end.
  exists (Some (Locking conn (grant_key g))). split; [split; [done|by apply drop_grant]|].
  set (cl := Locking conn (grant_key g)). change conn with (conn_of cl).
  apply pok_bind, pok_try, pok_bind, pok_event; [done|done|].
  assert (Hrest : forall failure, pok i (Some cl)
    (let! failure := async_try (await (on_db (round_trip (conn_of cl) (advisory_unlock (conn_of cl) (grant_key g)))) ;! returns failure)
                       (fun error => returns (Some (default error failure))) in
     await (on_db (pool_release (conn_of cl))) ;!
     match failure with Some error => raises error | None => returns tt end) ends).
  { intros failure. apply pok_bind, pok_try, pok_bind, pok_unlock; [done|]. intros o cl' <-.
    destruct o; apply pok_bind, pok_release; by destruct failure. }
  intros [b|x]; apply Hrest.
Qed.
End inv.
