(* ===== verification/PgBindingThms.v ===== *)
(** * Binding leases across processes

    Any number of processes, each with at most one call in flight, take their steps in any order;
    sessions are lost, round trips fail, processes die at any moment.  A binding has one owner:
    of two grants the earlier one can no longer record anything.  The evidence of a binding always
    tells a history that the connection state ends, and a lost owner is replaced. *)

From stdpp Require Import functions.
From S2P Require Import Prelude PyText Tenant Mailbox Repository PgDelivery PgTurns PgBinding PgBindingInv.
#[local] Open Scope Z_scope.

(** ** The fleet *)

Inductive call : Type :=
  | CallAcquire (binding : ChannelBinding) (owner_id : string)
  | CallAuthenticated (grant : WeComBindingLeaseGrant)
  | CallProviderEvent (grant : WeComBindingLeaseGrant) (provider_event_id : string)
  | CallDisconnected (grant : WeComBindingLeaseGrant)
  | CallRelease (grant : WeComBindingLeaseGrant).

Abbreviation holdings := (gmap id_key (WeComBindingLeaseGrant * nat)).

Record Fleet : Type := MkFleet {
  fl_db : BindingDb;
  fl_held : gmap nat holdings;
  fl_running : gmap nat (async unit);
}.

Definition held_of (w : Fleet) (i : nat) : holdings := default ∅ (fl_held w !! i).

Definition node_of (w : Fleet) (i : nat) : LeaseNode := MkLeaseNode (fl_db w) (held_of w i).

(** No binding was ever acquired. *)
Definition booted (bindings : gset id_key) : Fleet := MkFleet (MkBindingDb bindings ∅ [] ∅ ∅ 0 [] true) ∅ ∅.

Section fleet.
Context `{Env} `{Sha256} `{AdvisoryHash}.
Implicit Types (w : Fleet) (e : effects) (g : WeComBindingLeaseGrant).

Definition program (c : call) : async unit :=
  match c with
  | CallAcquire binding owner_id => acquire_binding binding owner_id ;! returns tt
  | CallAuthenticated grant => mark_authenticated grant ;! returns tt
  | CallProviderEvent grant provider_event_id => record_provider_event grant provider_event_id ;! returns tt
  | CallDisconnected grant => mark_disconnected grant ;! returns tt
  | CallRelease grant => release_binding grant
  end.

Inductive fleet_step : Fleet -> Fleet -> Prop :=
  | call_begins w i c :
      fl_running w !! i = None ->
      fleet_step w (MkFleet (fl_db w) (fl_held w) (<[i := program c]> (fl_running w)))
  | call_steps w i A (m : M LeaseNode A) k e o n e' :
      fl_running w !! i = Some (Await m k) -> m (node_of w i) e = (o, n, e') ->
      fleet_step w (MkFleet (ln_db n) (<[i := ln_held n]> (fl_held w)) (<[i := k o]> (fl_running w)))
  | call_ends w i o :
      fl_running w !! i = Some (Done o) ->
      fleet_step w (MkFleet (fl_db w) (fl_held w) (delete i (fl_running w)))
  | session_lost w conn : fleet_step w (MkFleet (ended conn (fl_db w)) (fl_held w) (fl_running w))
  | network_changes w fs available :
      fleet_step w (MkFleet ((fl_db w) <| bd_faults := fs |> <| bd_available := available |>) (fl_held w) (fl_running w))
  | binding_added w key :
      fleet_step w (MkFleet ((fl_db w) <| bd_bindings := {[key]} ∪ bd_bindings (fl_db w) |>) (fl_held w) (fl_running w))
  | process_dies w i : fleet_step w (MkFleet (fl_db w) (delete i (fl_held w)) (delete i (fl_running w))).

Inductive fleet_reachable : Fleet -> Prop :=
  | fleet_boots bindings : fleet_reachable (booted bindings)
  | fleet_goes_on w w' : fleet_reachable w -> fleet_step w w' -> fleet_reachable w'.

(** ** The invariant of the fleet *)

Definition claims_of (T : nat -> option claim) (w : Fleet) : claims := fun s =>
  match s.2 with None => T s.1 | Some key => (fun x => Granted x.2 x.1) <$> held_of w s.1 !! key end.

Definition fleet_ok (w : Fleet) : Prop :=
  exists T, fleet_inv (fl_db w) (claims_of T w) /\
    forall i, match fl_running w !! i with Some p => pok i (T i) p ends | None => T i = None end.

Lemma fleet_inv_ext db C C' : (forall s, C' s = C s) -> fleet_inv db C -> fleet_inv db C'.
Proof.
  intros Heq [Hh Hi]. split; [done|]. apply (session_inv_mono db C C' id Hi); [|done|].
  - intros s cl Hs. exists cl. unfold id. rewrite <-Heq. by repeat split.
  - intros i k cl Hs. rewrite Heq in Hs. by apply (si_held _ _ Hi i).
Qed.

(** The claims after the process [i] has changed its own. *)
Lemma claims_of_put T w i cl held db r :
  forall s, claims_of (<[i := cl]> T) (MkFleet db (<[i := held]> (fl_held w)) r) s = at_node (claims_of T w) i cl held s.
Proof.
  intros [j [k|]]; unfold claims_of, at_node, held_of; simpl; case_decide; subst.
  - by rewrite lookup_insert_eq.
  - by rewrite lookup_insert_ne.
  - by rewrite fn_lookup_insert.
  - by rewrite fn_lookup_insert_ne.
Qed.

Lemma claims_of_node T w i : forall s, at_node (claims_of T w) i (T i) (held_of w i) s = claims_of T w s.
Proof. intros [j [k|]]; unfold claims_of, at_node; simpl; by case_decide; subst. Qed.

Lemma program_ok i c : pok i None (program c) ends.
Proof.
  assert (Hthen : forall A (p : async A), pok i None p ends -> pok i None (p ;! returns tt) ends).
  { intros A p Hp. apply pok_bind. eapply pok_mono; [exact Hp|]. by intros [a|x] cl' ->. }
  destruct c; cbn [program]; [apply Hthen, acquire_binding_ok|apply Hthen, record_fenced_event_ok; done..|apply release_binding_ok].
Qed.

Lemma booted_ok bindings : fleet_ok (booted bindings).
Proof.
  exists (fun _ => None). split; [|done]. assert (Hnone : forall s, claims_of (fun _ => None) (booted bindings) s = None).
  { by intros [j [k|]]. }
  split; split; simpl; try set_solver; intros *; rewrite ?Hnone; done.
Qed.

(** The process [i] takes a step that its call allows. *)
Lemma fleet_ok_step w i A (m : M LeaseNode A) k e o n e' :
  fleet_ok w -> fl_running w !! i = Some (Await m k) -> m (node_of w i) e = (o, n, e') ->
  fleet_ok (MkFleet (ln_db n) (<[i := ln_held n]> (fl_held w)) (<[i := k o]> (fl_running w))).
Proof.
  intros (T & Hi & Hp) Hr Hm. pose proof (Hp i) as Hpi. rewrite Hr in Hpi.
  destruct (wp_run _ _ _ _ _ _ _ (Hpi (claims_of T w) (fl_db w) (held_of w i) e (fleet_inv_ext _ _ _ (claims_of_node T w i) Hi)) Hm)
    as (cl' & Hi' & Hk).
  exists (<[i := cl']> T). split; [eapply fleet_inv_ext; [apply claims_of_put|exact Hi']|].
  intros j. simpl. destruct (decide (j = i)) as [->|Hne].
  - by rewrite lookup_insert_eq, fn_lookup_insert.
  - rewrite lookup_insert_ne, fn_lookup_insert_ne by done. apply Hp.
Qed.

(** What the process [i] claimed is forgotten. *)
Lemma fleet_ok_dies w i : fleet_ok w -> fleet_ok (MkFleet (fl_db w) (delete i (fl_held w)) (delete i (fl_running w))).
Proof.
  intros (T & [Hh Hi] & Hp). exists (<[i := None]> T). split.
  - split; [done|]. eapply (session_inv_mono _ _ _ id Hi); [|done|].
    + intros [j o] cl Hs. exists cl. split; [|by repeat split]. unfold claims_of, held_of in *. simpl in *.
      destruct (decide (j = i)) as [->|Hne].
      * destruct o as [k|]; [by rewrite lookup_delete_eq in Hs|by rewrite fn_lookup_insert in Hs].
      * by rewrite lookup_delete_ne, fn_lookup_insert_ne in Hs by done.
    + intros j k cl Hs. apply (si_held _ _ Hi j k cl). unfold claims_of, held_of in *. simpl in *.
      destruct (decide (j = i)) as [->|Hne]; [by rewrite lookup_delete_eq in Hs|by rewrite lookup_delete_ne in Hs by done].
  - intros j. simpl. destruct (decide (j = i)) as [->|Hne].
    + by rewrite lookup_delete_eq, fn_lookup_insert.
    + rewrite lookup_delete_ne, fn_lookup_insert_ne by done. apply Hp.
Qed.

Lemma fleet_reachable_ok w : fleet_reachable w -> fleet_ok w.
Proof.
  induction 1 as [bindings|w w' _ IH Hs]; [apply booted_ok|]. destruct Hs as [w i c Hr|w i A m k e o n e' Hr Hm|w i o Hr|w c|w fs a|w key|w i].
  - destruct IH as (T & Hi & Hp). exists T. split; [done|]. intros j. simpl. destruct (decide (j = i)) as [->|Hne].
    + rewrite lookup_insert_eq. pose proof (Hp i) as Hpi. rewrite Hr in Hpi. rewrite Hpi. apply program_ok.
    + rewrite lookup_insert_ne by done. apply Hp.
  - by eapply fleet_ok_step.
  - destruct IH as (T & Hi & Hp). exists T. split; [done|]. intros j. simpl. destruct (decide (j = i)) as [->|Hne].
    + rewrite lookup_delete_eq. pose proof (Hp i) as Hpi. by rewrite Hr in Hpi.
    + rewrite lookup_delete_ne by done. apply Hp.
  - destruct IH as (T & Hi & Hp). exists T. split; [by apply fleet_inv_ended|done].
  - destruct IH as (T & Hi & Hp). exists T. split; [by apply fleet_inv_faults|done].
  - destruct IH as (T & [Hh Hi] & Hp). exists T. split; [|done]. split; [split; apply Hh|by apply (session_inv_same (fl_db w))].
  - by apply fleet_ok_dies.
Qed.

(** What a process holds is a claim. *)
Lemma held_claim w T i key g c :
  held_of w i !! key = Some (g, c) -> claims_of T w (i, Some key) = Some (Granted c g).
Proof. intros Hg. unfold claims_of. simpl. by rewrite Hg. Qed.

(** ** One owner *)

Lemma lost_session_silent db held g c event hash e :
  held !! grant_key g = Some (g, c) -> c ∉ bd_alive db ->
  run (_record_fenced_event g event hash) (MkLeaseNode db held) e = (Raise closed, MkLeaseNode db held, e).
Proof.
  intros Hg Hc. unfold _record_fenced_event, _record_fenced_event_on_connection, here, await. cbn [async_bind run].
  unfold gets at 1. cbn [ln_held]. rewrite Hg, bool_decide_true by done. cbn [run].
  unfold on_db, zoom, round_trip, bind, gets, raise_if. simpl. by rewrite bool_decide_true.
Qed.

(** C21: Of two processes that hold a grant for one binding, under whatever interleaving of their calls, lost sessions and
    deaths, the epochs differ, and the one with the earlier epoch has lost its session: every event that it tries to record raises
    and changes nothing. *)
Theorem binding_has_one_owner w i j key g g' c c' :
  fleet_reachable w -> held_of w i !! key = Some (g, c) -> held_of w j !! key = Some (g', c') -> i <> j ->
  wg_epoch g <> wg_epoch g' /\
  (wg_epoch g < wg_epoch g' -> (c ∉ bd_alive (fl_db w)) /\ forall event hash e,
     run (_record_fenced_event g event hash) (node_of w i) e = (Raise closed, node_of w i, e)).
Proof.
  intros Hw Hg Hg' Hij. destruct (fleet_reachable_ok w Hw) as (T & [_ Hi] & _).
  pose proof (held_claim w T i key g c Hg) as Hs. pose proof (held_claim w T j key g' c' Hg') as Hs'.
  destruct (si_held _ _ Hi _ _ _ Hs) as (? & ? & [= <- <-] & Hk). destruct (si_held _ _ Hi _ _ _ Hs') as (? & ? & [= <- <-] & Hk').
  split; [eapply (si_distinct _ _ Hi); [exact Hs|exact Hs'|congruence|congruence]|]. intros Hlt.
  destruct (si_grant _ _ Hi _ _ _ Hs) as (ep & ow & Ho & _ & Hal). destruct (si_grant _ _ Hi _ _ _ Hs') as (ep' & ow' & Ho' & Hle & _).
  assert (Hc : c ∉ bd_alive (fl_db w)).
  { intros Hc. destruct (Hal Hc) as [-> _]. rewrite Hk in Ho. rewrite Hk' in Ho'. simplify_eq. lia. }
  split; [done|]. intros event hash e. apply (lost_session_silent _ _ _ c); [by rewrite Hk|done].
Qed.

(** C22: At every moment of every run the evidence of a binding is a legal history, and the connection state is where that history
    ends: epochs are consecutive, an acquisition is recorded as a takeover exactly when the last owner did not release the binding,
    and in each epoch the events come from its owner: authentication at most once, no provider event after a disconnection, nothing
    after the release. *)
Theorem evidence_tells_history w key :
  fleet_reachable w -> replay (rows_of key (bd_evidence (fl_db w))) = Some (connection_of <$> bd_states (fl_db w) !! key).
Proof. intros Hw. destruct (fleet_reachable_ok w Hw) as (T & [Hh _] & _). apply (hi_replay _ Hh). Qed.

(** ** Takeover *)

Lemma wp_run_done {R} (o : outcome R) Q (s : LeaseNode) e : Q o s e -> wp (run (Done o)) Q s e.
Proof. done. Qed.

Lemma wp_run_await {R A} (m : M LeaseNode A) (k : outcome A -> async R) Q s e :
  wp m (fun o s' e' => wp (run (k o)) Q s' e') s e -> wp (run (Await m k)) Q s e.
Proof. unfold wp. cbn [run]. by destruct (m s e) as [[o s'] e']. Qed.

Lemma wp_run_bind {R T} (p : async R) (f : R -> async T) Q s e :
  wp (run p) (fun o s' e' => match o with Ok r => wp (run (f r)) Q s' e' | Raise x => Q (Raise x) s' e' end) s e ->
  wp (run (async_bind p f)) Q s e.
Proof.
  revert s e. induction p as [[r|x]|A m k IH]; intros s e Hp; [done|done|]. apply wp_run_await. unfold wp in *. cbn [run] in Hp.
  destruct (m s e) as [[o s'] e']. simpl in *. by apply IH.
Qed.

Lemma wp_run_try {R} (p : async R) (h : exn -> async R) Q s e :
  wp (run p) (fun o s' e' => match o with Ok r => Q (Ok r) s' e' | Raise x => wp (run (h x)) Q s' e' end) s e ->
  wp (run (async_try p h)) Q s e.
Proof.
  revert s e. induction p as [[r|x]|A m k IH]; intros s e Hp; [done|done|]. apply wp_run_await. unfold wp in *. cbn [run] in Hp.
  destruct (m s e) as [[o s'] e']. simpl in *. by apply IH.
Qed.

(** A round trip of a live session when nothing goes wrong. *)
Lemma wp_trip_fine {A} conn (body : M BindingDb A) Q db held e :
  conn ∈ bd_alive db -> bd_faults db = [] ->
  wp body (fun o db' e' => Q o (MkLeaseNode db' held) e') db e ->
  wp (run (await (on_db (round_trip conn body)))) Q (MkLeaseNode db held) e.
Proof.
  intros Hc Hf Hb. apply wp_run_await, wp_zoom. simpl. unfold round_trip. wp_step. wp_step. unfold id. wp_step.
  wp_step; [bool_prop; done|]. wp_step. wp_step. rewrite Hf.
  replace (db <| bd_faults := tail [] |>) with db by (destruct db; simpl in *; by subst). exact Hb.
Qed.

(** The transaction of an acquisition succeeds when the binding is registered. *)
Lemma acquire_state_fine key oh db e :
  hash_check oh = true -> key ∈ bd_bindings db -> (forall r, bd_states db !! key = Some r -> 1 <= cs_epoch r) ->
  wp (acquire_state key oh) (fun o db' _ => exists grant, o = Ok grant /\
    grant_key grant = key /\ wg_owner_hash grant = oh /\ wg_epoch grant = from_option fst 0 (owner_of db key) + 1 /\
    owner_of db' key = Some (wg_epoch grant, oh) /\ bd_alive db' = bd_alive db /\ bd_next db' = bd_next db) db e.
Proof.
  intros Hoh Hb He. unfold acquire_state, upsert_state, insert_evidence.
  assert (Hep : from_option cs_epoch 0 (bd_states db !! key) = from_option fst 0 (owner_of db key)).
  { unfold owner_of. by destruct (bd_states db !! key). }
  assert (0 <= from_option fst 0 (owner_of db key)).
  { rewrite <-Hep. destruct (bd_states db !! key) as [r|] eqn:Hr; simpl; [|lia]. specialize (He r eq_refl). lia. }
  wp_steps; simpl in *; rewrite ?Hoh in *; simpl in *; bool_prop; try done;
    first [exfalso; match goal with Hr : bd_states db !! key = _ |- _ => rewrite Hr in * | _ => idtac end; simpl in *; lia
          |eexists; split; [done|]; unfold owner_of in *; simpl; rewrite lookup_insert_eq; simpl; rewrite <-?Hep; by destruct key].
Qed.

Lemma wp_lock_free conn key Q db e :
  bd_locks db !! lock_number key = None -> Q (Ok true) (db <| bd_locks := <[lock_number key := conn]> (bd_locks db) |>) e ->
  wp (try_advisory_lock conn key) Q db e.
Proof. intros Hl HQ. unfold try_advisory_lock. wp_step. wp_step. rewrite Hl. by wp_steps. Qed.

(** An acquisition of a registered binding whose lock is free, by a process that does not hold it. *)
Lemma acquire_binding_fine binding owner_id db held e :
  let key := (cb_tenant_id binding, cb_binding_id binding) in
  let oh := _wecom_identifier_hash "owner" (cb_tenant_id binding) (cb_binding_id binding) owner_id in
  hash_check oh = true -> key ∈ bd_bindings db -> held !! key = None -> bd_locks db !! lock_number key = None ->
  bd_faults db = [] -> bd_available db = true -> (forall r, bd_states db !! key = Some r -> 1 <= cs_epoch r) ->
  wp (run (acquire_binding binding owner_id)) (fun o n _ => exists grant, o = Ok (Some grant) /\
    wg_owner_hash grant = oh /\ wg_epoch grant = from_option fst 0 (owner_of db key) + 1 /\
    owner_of (ln_db n) key = Some (wg_epoch grant, oh) /\ ln_held n !! key = Some (grant, bd_next db) /\
    bd_alive (ln_db n) = {[bd_next db]} ∪ bd_alive db /\ bd_next (ln_db n) = S (bd_next db)) (MkLeaseNode db held) e.
Proof.
  intros key oh Hoh Hb Hk Hl Hf Ha He. unfold acquire_binding. fold key oh.
  apply wp_run_bind, wp_run_await, wp_gets, wp_run_done. cbn [ln_held]. rewrite Hk.
  apply wp_run_bind, wp_run_await, wp_zoom. unfold pool_acquire. wp_step. wp_step. unfold id. wp_step. wp_step; [cbn [ln_db] in *; bool_prop; congruence|].
  wp_step. wp_step. wp_step. apply wp_run_done. cbn [ln_db ln_held].
  apply wp_run_bind, wp_run_try, wp_trip_fine; [simpl; set_solver|done|]. apply wp_lock_free; [exact Hl|]. cbn [negb].
  apply wp_run_bind, wp_run_try, wp_trip_fine; [simpl; set_solver|done|].
  eapply wp_mono; [apply acquire_state_fine; done|]. intros o db' e' (grant & -> & Hg & Ho & Hep & Hown & Hal & Hnx).
  apply wp_run_bind, wp_run_await, wp_modify, wp_run_done, wp_run_done. exists grant. split_and!; try done.
  simpl. by rewrite lookup_insert_eq.
Qed.

(** ** A lost session stays lost *)

(** New sessions have new numbers. *)
Definition sessions_grow (db db' : BindingDb) : Prop :=
  (bd_next db <= bd_next db')%nat /\ forall c, c ∈ bd_alive db' -> c ∈ bd_alive db \/ (bd_next db <= c)%nat.

#[export] Instance sessions_grow_preorder : PreOrder sessions_grow.
Proof.
  split; [by intros db; split; [|left]|]. intros x y z [Hn Ha] [Hn' Ha']. split; [lia|]. intros c Hc.
  destruct (Ha' c Hc) as [Hy|Hy]; [by apply Ha|right; lia].
Qed.

Definition grows {A} (m : M BindingDb A) : Prop := forall db e, wp m (fun _ db' _ => sessions_grow db db') db e.

(** Every step of a call makes the sessions grow. *)
Fixpoint growing {R} (p : async R) : Prop :=
  match p with
  | Done _ => True
  | Await m k => (forall n e, wp m (fun _ n' _ => sessions_grow (ln_db n) (ln_db n')) n e) /\ forall o, growing (k o)
  end.

Lemma growing_bind {R S} (p : async R) (f : R -> async S) : growing p -> (forall r, growing (f r)) -> growing (async_bind p f).
Proof. induction p as [[r|x]|A m k IH]; simpl; [by auto|done|]. intros [Hm Hk] Hf. split; [done|]. intros o. by apply IH. Qed.

Lemma growing_try {R} (p : async R) h : growing p -> (forall x, growing (h x)) -> growing (async_try p h).
Proof. induction p as [[r|x]|A m k IH]; simpl; [done|by auto|]. intros [Hm Hk] Hh. split; [done|]. intros o. by apply IH. Qed.

Lemma growing_await {A} (m : M BindingDb A) : grows m -> growing (await (on_db m)).
Proof. intros Hm. split; [|done]. intros n e. apply wp_zoom. eapply wp_mono; [apply Hm|]. done. Qed.

Lemma growing_gets {A} (f : LeaseNode -> A) : growing (here (gets f)).
Proof. split; [|done]. intros n e. by apply wp_gets. Qed.

Lemma ended_grow c db : sessions_grow db (ended c db).
Proof. split; [done|]. intros x Hx. left. simpl in Hx. set_solver. Qed.

Lemma pool_release_grows c : grows (pool_release c).
Proof. intros db e. unfold pool_release. apply wp_modify, ended_grow. Qed.

Lemma round_trip_grows {A} c (body : M BindingDb A) : grows body -> grows (round_trip c body).
Proof.
  intros Hb db e. unfold round_trip. wp_step. wp_step. unfold id. wp_step. wp_step; [done|]. wp_step. wp_step.
  assert (Hrun : wp body (fun _ db' _ => sessions_grow db db') (db <| bd_faults := tail (bd_faults db) |>) e).
  { eapply wp_mono; [apply Hb|]. intros o db' e' [Hn Ha]. by split. }
  destruct (bd_faults db) as [|[] fs]; simpl in *; [done|done| |].
  - wp_steps. etrans; [|apply ended_grow]. by split; [|left].
  - wp_step. eapply wp_mono; [exact Hrun|]. intros [a|x] db' e' Hg; [|done]. wp_steps. etrans; [exact Hg|apply ended_grow].
Qed.

(** Statements that open and close no session. *)
Lemma statement_grows {A} (m : M BindingDb A) :
  (forall db e, wp m (fun _ db' _ => bd_next db' = bd_next db /\ bd_alive db' = bd_alive db) db e) -> grows m.
Proof. intros Hm db e. eapply wp_mono; [apply Hm|]. intros o db' e' [Hn Ha]. split; [by rewrite Hn|]. rewrite Ha. by left. Qed.

Lemma pool_acquire_grows : grows pool_acquire.
Proof. intros db e. unfold pool_acquire. wp_steps; simpl; (split; [simpl; lia|]); intros c Hc; simpl in *; [by left|]. set_unfold. naive_solver. Qed.

Lemma lock_grows c key : grows (try_advisory_lock c key).
Proof. apply statement_grows. intros db e. unfold try_advisory_lock. by wp_steps. Qed.

Lemma unlock_grows c key : grows (advisory_unlock c key).
Proof. apply statement_grows. intros db e. unfold advisory_unlock. wp_steps. by case_bool_decide. Qed.

Lemma acquire_state_grows key oh : grows (acquire_state key oh).
Proof. apply statement_grows. intros db e. unfold acquire_state, upsert_state, insert_evidence. by wp_steps. Qed.

Lemma fenced_event_grows g ev h : grows (fenced_event g ev h).
Proof. apply statement_grows. intros db e. unfold fenced_event, insert_evidence. by wp_steps. Qed.

#[local] Hint Resolve growing_await pool_release_grows round_trip_grows pool_acquire_grows lock_grows unlock_grows acquire_state_grows
  fenced_event_grows growing_gets : growing.
#[local] Hint Extern 1 (growing (Done _)) => exact I : growing.

Lemma unlock_and_release_growing c key : growing (unlock_and_release c key).
Proof.
  unfold unlock_and_release. apply growing_bind; [|auto with growing]. apply growing_try; [auto with growing|].
  intros x. apply growing_bind; [auto with growing|]. intros _. exact I.
Qed.

Lemma acquire_binding_growing binding owner_id : growing (acquire_binding binding owner_id).
Proof.
  unfold acquire_binding. apply growing_bind; [auto with growing|]. intros [[g c]|]; [exact I|].
  apply growing_bind; [auto with growing|]. intros c. apply growing_bind.
  { apply growing_try; [auto with growing|]. intros x. apply growing_bind; [auto with growing|]. intros _. exact I. }
  intros []; cbn [negb]; apply growing_bind; [|..|by auto with growing|by intros _].
  - apply growing_try; [auto with growing|]. intros x. apply growing_bind; [apply unlock_and_release_growing|]. intros _. exact I.
  - intros g. apply growing_bind; [|by intros _]. split; [|done]. intros n e. by apply wp_modify.
Qed.

Lemma record_event_growing g ev h : growing (_record_fenced_event g ev h).
Proof.
  unfold _record_fenced_event. apply growing_bind; [auto with growing|]. intros [[g' c]|]; [|exact I].
  case_bool_decide; [|exact I]. unfold _record_fenced_event_on_connection. auto with growing.
Qed.

Lemma release_binding_growing g : growing (release_binding g).
Proof.
  unfold release_binding. apply growing_bind.
  { split; [|done]. intros n e. unfold pop_held. by wp_steps. }
  intros [c|]; [|exact I]. apply growing_bind.
  { apply growing_try; [apply growing_bind|]; [unfold _record_fenced_event_on_connection; auto with growing|by intros _|by intros x]. }
  intros failure. apply growing_bind; [apply growing_try; [apply growing_bind|]; [auto with growing|by intros _|by intros x]|].
  intros failure'. apply growing_bind; [auto with growing|]. intros _. by destruct failure'.
Qed.

Lemma program_growing c : growing (program c).
Proof.
  destruct c; cbn [program]; [apply growing_bind; [apply acquire_binding_growing|by intros _]
    |apply growing_bind; [apply record_event_growing|by intros _]..|apply release_binding_growing].
Qed.

Definition all_growing w : Prop := forall i p, fl_running w !! i = Some p -> growing p.

Lemma fleet_step_growing w w' : fleet_step w w' -> all_growing w -> all_growing w' /\ sessions_grow (fl_db w) (fl_db w').
Proof.
  intros Hs Hg. destruct Hs as [w i c Hr|w i A m k e o n e' Hr Hm|w i o Hr|w c|w fs a|w key|w i]; simpl.
  - split; [|done]. intros j p. simpl. rewrite lookup_insert_Some. intros [[_ <-]|[_ Hj]]; [apply program_growing|by eapply Hg].
  - destruct (Hg i _ Hr) as [Hst Hk]. split; [|by apply (wp_run _ _ _ _ _ _ _ (Hst (node_of w i) e) Hm)].
    intros j p. simpl. rewrite lookup_insert_Some. intros [[_ <-]|[_ Hj]]; [apply Hk|by eapply Hg].
  - split; [|done]. intros j p. simpl. rewrite lookup_delete_Some. intros [_ Hj]. by eapply Hg.
  - split; [done|apply ended_grow].
  - split; [done|]. by split; [|left].
  - split; [done|]. by split; [|left].
  - split; [|done]. intros j p. simpl. rewrite lookup_delete_Some. intros [_ Hj]. by eapply Hg.
Qed.

Lemma fleet_steps_growing w w' : rtc fleet_step w w' -> all_growing w -> all_growing w' /\ sessions_grow (fl_db w) (fl_db w').
Proof.
  induction 1 as [w|w w1 w2 Hs _ IH]; intros Hg; [done|]. destruct (fleet_step_growing _ _ Hs Hg) as [Hg1 Hw1].
  destruct (IH Hg1) as [Hg2 Hw2]. split; [done|by etrans].
Qed.

Lemma fleet_reachable_growing w : fleet_reachable w -> all_growing w.
Proof. induction 1 as [bindings|w w' _ IH Hs]; [done|]. by apply (fleet_step_growing _ _ Hs). Qed.

(** C23: When the session of the owner of a registered binding is lost and the database can be reached without faults, a process
    that has no entry for the binding and asks for it gets it, under the next epoch and on a live session; from then on, along every
    run of the fleet, every event of the previous owner under its old grant raises and changes nothing. *)
Theorem lost_owner_replaced w i j g c binding owner_id e :
  let key := (cb_tenant_id binding, cb_binding_id binding) in
  (forall text, hash_check (sha256_hex text) = true) ->
  fleet_reachable w -> held_of w j !! key = Some (g, c) -> c ∈ bd_alive (fl_db w) ->
  held_of w i !! key = None -> key ∈ bd_bindings (fl_db w) -> bd_faults (fl_db w) = [] -> bd_available (fl_db w) = true ->
  exists grant conn n e', run (acquire_binding binding owner_id) (MkLeaseNode (ended c (fl_db w)) (held_of w i)) e = (Ok (Some grant), n, e') /\
    wg_epoch grant = wg_epoch g + 1 /\ ln_held n !! key = Some (grant, conn) /\ conn ∈ bd_alive (ln_db n) /\
    forall w', rtc fleet_step (MkFleet (ln_db n) (<[i := ln_held n]> (fl_held w)) (fl_running w)) w' -> held_of w' j !! key = Some (g, c) ->
      forall event hash e1, run (_record_fenced_event g event hash) (node_of w' j) e1 = (Raise closed, node_of w' j, e1).
Proof.
  intros key Hsha Hw Hg Hc Hi Hb Hf Ha. destruct (fleet_reachable_ok w Hw) as (T & [Hh Hs] & _).
  pose proof (held_claim w T j key g c Hg) as Hcl. destruct (si_held _ _ Hs _ _ _ Hcl) as (? & ? & [= <- <-] & Hk).
  pose proof (si_lock _ _ Hs _ _ _ Hcl eq_refl Hc) as Hlock. simpl in Hlock.
  destruct (si_grant _ _ Hs _ _ _ Hcl) as (ep & ow & Ho & _ & Hal). destruct (Hal Hc) as [-> _]. rewrite Hk in Hlock, Ho.
  pose proof (si_fresh _ _ Hs _ _ Hcl) as Hfr. simpl in Hfr. pose proof (fleet_reachable_growing w Hw) as Hgr.
  destruct (run (acquire_binding binding owner_id) (MkLeaseNode (ended c (fl_db w)) (held_of w i)) e) as [[o n] e'] eqn:Hrun.
  eapply wp_run in Hrun; [|apply acquire_binding_fine; try done].
  - destruct Hrun as (grant & -> & _ & Hep & _ & Hheld & Halive & Hnext). exists grant, (bd_next (fl_db w)), n, e'.
    split_and!; [done| |done|simpl in *; set_solver|].
    + rewrite Hep. change (owner_of (ended c (fl_db w)) _) with (owner_of (fl_db w) key). by rewrite Ho.
    + intros w' Hsteps Hheld' event hash e1. destruct (fleet_steps_growing _ _ Hsteps Hgr) as [_ [_ Hlive]]. simpl in Hlive.
      apply (lost_session_silent _ _ _ c); [by rewrite Hk|]. intros Hin. destruct (Hlive c Hin) as [Hin'|Hge].
      * rewrite Halive in Hin'. simpl in Hin'. set_unfold. naive_solver lia.
      * rewrite Hnext in Hge. simpl in Hge. lia.
  - apply Hsha.
  - apply map_lookup_filter_None. right. intros x Hx. change (bd_locks (fl_db w) !! lock_number key = Some x) in Hx. rewrite Hlock in Hx. simplify_eq. by intros ?.
  - apply (hi_epoch _ Hh).
Qed.

(** ** Calls that run alone *)

Definition after_call (w : Fleet) (i : nat) (c : call) (e : effects) : Fleet :=
  let '(_, n, _) := run (program c) (node_of w i) e in MkFleet (ln_db n) (<[i := ln_held n]> (fl_held w)) (fl_running w).

Lemma alone_reachable i (p : async unit) db h held r e o n e' :
  r !! i = None -> fleet_reachable (MkFleet db (<[i := h]> held) (<[i := p]> r)) -> run p (MkLeaseNode db h) e = (o, n, e') ->
  fleet_reachable (MkFleet (ln_db n) (<[i := ln_held n]> held) r).
Proof.
  intros Hr. revert db h e. induction p as [o'|A m k IH]; intros db h e Hw Hrun.
  - injection Hrun as <- <- <-. rewrite <-(delete_insert_id r i (Done o')) by done. eapply fleet_goes_on; [exact Hw|].
    eapply (call_ends (MkFleet _ _ _)). apply lookup_insert_eq.
  - cbn [run] in Hrun. destruct (m (MkLeaseNode db h) e) as [[o1 [db1 h1]] e1] eqn:Hm. eapply IH; [|exact Hrun].
    rewrite <-(insert_insert_eq held i h1 h), <-(insert_insert_eq r i (k o1) (Await m k)). eapply fleet_goes_on; [exact Hw|].
    refine (call_steps (MkFleet _ _ _) i _ m k e o1 (MkLeaseNode db1 h1) e1 _ _); [apply lookup_insert_eq|].
    unfold node_of, held_of. cbn [fl_held fl_db]. rewrite lookup_insert_eq. exact Hm.
Qed.

(** A call that nothing interrupts is a run of the fleet. *)
Lemma after_call_reachable w i c e :
  fl_running w !! i = None -> fleet_reachable w -> fleet_reachable (after_call w i c e).
Proof.
  intros Hr Hw. unfold after_call. destruct (run (program c) (node_of w i) e) as [[o n] e'] eqn:Hrun.
  assert (Hp : exists A (m : M LeaseNode A) k, program c = Await m k) by (destruct c; by do 3 eexists).
  destruct Hp as (A & m & k & Hp). rewrite Hp in Hrun. cbn [run] in Hrun.
  destruct (m (node_of w i) e) as [[o1 [db1 h1]] e1] eqn:Hm. eapply alone_reachable; [done| |exact Hrun].
  rewrite <-(insert_insert_eq (fl_running w) i (k o1) (Await m k)).
  eapply fleet_goes_on; [eapply fleet_goes_on; [exact Hw|by apply (call_begins w i c)]|].
  rewrite Hp. by refine (call_steps (MkFleet _ _ _) i _ m k e o1 (MkLeaseNode db1 h1) e1 (lookup_insert_eq _ _ _) _).
Qed.
End fleet.

(** ** Two processes and a lost session *)

Module Example.
#[local] Existing Instance demo_env.
#[local] Instance lease_sha : Sha256 := fun _ => "0123456789abcdef0123456789abcdef0123456789abcdef0123456789abcdef"%string.
#[local] Instance lease_hash : AdvisoryHash := fun text => str_len text.

Definition binding : ChannelBinding := MkChannelBinding "bot" "acme" "app" WECOM_AI_BOT "account" ∅ true 1 ∅.
Definition key : id_key := ("acme", "bot")%string.
Definition start : effects := Effects 0 0.

(** The process 0 has the binding. *)
Definition owned : Fleet := after_call (booted {[key]}) 0 (CallAcquire binding "alice") start.
Definition grant0 : WeComBindingLeaseGrant := MkGrant "acme" "bot" (sha256_hex "") 1 (clock_at 0).

(** Its session is lost, and the process 1 takes the binding over. *)
Definition taken_over : Fleet :=
  after_call (MkFleet (ended 0 (fl_db owned)) (fl_held owned) (fl_running owned)) 1 (CallAcquire binding "bob") start.
Definition grant1 : WeComBindingLeaseGrant := MkGrant "acme" "bot" (sha256_hex "") 2 (clock_at 0).

Lemma owned_reachable : fleet_reachable owned.
Proof. apply after_call_reachable; [done|constructor]. Qed.

Lemma taken_over_reachable : fleet_reachable taken_over.
Proof.
  apply after_call_reachable; [by vm_compute|]. eapply fleet_goes_on; [exact owned_reachable|apply session_lost].
Qed.

Lemma binding_has_one_owner_witness :
  held_of taken_over 0 !! key = Some (grant0, 0%nat) /\ held_of taken_over 1 !! key = Some (grant1, 1%nat) /\
  run (mark_authenticated grant0) (node_of taken_over 0) start = (Raise closed, node_of taken_over 0, start).
Proof.
  assert (H0 : held_of taken_over 0 !! key = Some (grant0, 0%nat)) by (vm_compute; reflexivity).
  assert (H1 : held_of taken_over 1 !! key = Some (grant1, 1%nat)) by (vm_compute; reflexivity).
  split; [exact H0|]. split; [exact H1|].
  apply (binding_has_one_owner taken_over 0 1 key grant0 grant1 0 1 taken_over_reachable H0 H1); [discriminate|reflexivity].
Defined.

Lemma evidence_tells_history_witness :
  (er_event_type <$> bd_evidence (fl_db taken_over)) = [ev_acquired; ev_takeover] /\
  replay (rows_of key (bd_evidence (fl_db taken_over))) = Some (connection_of <$> bd_states (fl_db taken_over) !! key).
Proof. split; [vm_compute; reflexivity|]. apply (evidence_tells_history taken_over key taken_over_reachable). Defined.

Lemma lost_owner_replaced_witness :
  exists grant conn n e', run (acquire_binding binding "bob") (MkLeaseNode (ended 0 (fl_db owned)) (held_of owned 1)) start = (Ok (Some grant), n, e') /\
    wg_epoch grant = 2 /\ ln_held n !! key = Some (grant, conn).
Proof.
  destruct (lost_owner_replaced owned 1 0 grant0 0 binding "bob" start) as (grant & conn & n & e' & Hrun & Hep & Hheld & _).
  - intros text. vm_compute. reflexivity.
  - exact owned_reachable.
  - vm_compute. reflexivity.
  - apply (bool_decide_unpack (0%nat ∈ bd_alive (fl_db owned))). vm_compute. exact I.
  - vm_compute. reflexivity.
  - apply (bool_decide_unpack (key ∈ bd_bindings (fl_db owned))). vm_compute. exact I.
  - vm_compute. reflexivity.
  - vm_compute. reflexivity.
  - exists grant, conn, n, e'. split; [exact Hrun|]. split; [exact Hep|exact Hheld].
Defined.
End Example.
